(* ===== verification/_CoqProject ===== *)
-Q . S2P
Prelude.v
Reader.v
CppNum.v
NumLit.v
Stream.v
Assert.v
ExprParse.v
ExprSpec.v
CondStack.v
Utf.v
StrLit.v
Symtab.v
LineMap.v
LineHist.v
LineRes.v
LineSearch.v
CleanLine.v
Lex.v
LexGrammar.v
LexSpec.v
LexPaste.v
LexLine.v
MacroDef.v
MacroDefSpec.v
Macro.v
MacroSafe.v
MacroEnd.v
MacroSpec.v
Stringify.v
Deps.v
DepsSpec.v
Files.v
FilesSpec.v
DirState.v
LineDir.v
LineDirSpec.v
Pragma.v
PragmaSpec.v
Directive.v
DirectiveSpec.v
