(* ===== verification/Prelude.v ===== *)
(** * A verification library for libcpp, the GCC preprocessor

    The repository is GCC with the changes for OS/2.  This library is about
    its preprocessor library, src/libcpp: the code that turns source text into
    tokens, evaluates #if expressions, decides which parts of a file are read,
    interprets literals, and says where everything came from.

    ** The program and the files that model it

    - Prelude.v: machine integers as wrapped [Z], byte strings, masks and
      powers of two, the development's tactics ([bsplit], [bprop]) and hints.
    - Reader.v: what the components share: token types (include/cpplib.h,
      TTYPE_TABLE), the options the modelled code reads, and diagnostics.  A
      function that emits diagnostics returns them in order (the [W] monad;
      errors.c).
    - CppNum.v (the num_ functions of expr.c): the two-word integers of #if and their
      arithmetic at any precision from 1 to 128 bits.
    - NumLit.v (expr.c, cpp_classify_number, cpp_interpret_integer): numeric
      literals, their suffixes and values.
    - Stream.v (directives.c, lex.c, identifiers.c): the tokens of a line, the
      identifier nodes and the state a directive sees (the [R] monad).
    - Assert.v (directives.c): #assert, #unassert and the # operator of #if.
    - ExprParse.v, ExprSpec.v (expr.c, _cpp_parse_expr, reduce, eval_token,
      parse_defined, parse_has_include): the operator-precedence evaluator,
      and the grammar and denotation it is compared with.
    - CondStack.v (directives.c): #if, #ifdef, #ifndef, #elif, #else, #endif,
      the stack of open conditionals and the controlling macro of a file.
    - Utf.v, StrLit.v (charset.c): the UTF converters, and strings, character
      constants, escapes and universal character names built on them.
    - Symtab.v (symtab.c): the identifier table.
    - LineMap.v, LineHist.v, LineRes.v (line-map.c): the line table, its
      definitions, its history and its resolution of locations.
    - LineSearch.v (lex.c, search_line_acc_char): the word-wide search for the
      characters that end the fast path of line cleaning.
    - CleanLine.v (lex.c, _cpp_clean_line): trigraphs and escaped newlines,
      in place, with the notes of what was changed.
    - Lex.v (lex.c): the scanners of _cpp_lex_direct, the dispatch on the first
      character, the spelling of tokens and cpp_avoid_paste.  LexGrammar.v has
      the grammar of preprocessing tokens and what each scanner reads,
      LexSpec.v the theorems about one token, LexPaste.v what cpp_avoid_paste
      is worth, LexLine.v the tokens of a line and their round trip.
    - MacroDef.v (macro.c, create_iso_definition, and #define and #undef of
      directives.c): parameters, replacement lists, __VA_OPT__, redefinition
      and the printing of a definition.  MacroDefSpec.v shows what every
      accepted definition satisfies.
    - Macro.v (macro.c): the stack of contexts, the collection of arguments,
      the operators # and ##, substitution and rescanning, up to
      cpp_get_token.  MacroSafe.v has the invariant of the reader, MacroEnd.v
      the end of expansions without function-like macros, Stringify.v what #
      yields, MacroSpec.v the examples of the standard and the texts the
      expansion fails on.
    - Deps.v (mkdeps.c): the dependencies of the file, their quoting for make,
      the rule and its form in a precompiled header.  DepsSpec.v has what make
      reads in the rule.
    - Files.v (files.c, and the main file of init.c): the search for a header
      along the chain of directories with its caches, reading, once-only files,
      the stack of files, and the queries.  The file system is a parameter.
      FilesSpec.v has the search without caches, the invariant of the reader
      and an example of a disk.
    - DirState.v: the reader as the directives see it, the parts above in one
      state, and what several directives do (the [D] monad).
    - LineDir.v, LineDirSpec.v (directives.c, and the printer of linemarkers of
      gcc/c-family/c-ppoutput.c): #line and linemarkers.
    - Pragma.v, PragmaSpec.v (directives.c): the registry of pragmas, #pragma,
      and the pragmas of libcpp itself, push_macro and pop_macro among them.
    - Directive.v, DirectiveSpec.v (directives.c, _cpp_handle_directive): the
      table of directives, the dispatch, and the handlers of #define, #undef,
      #include, #error, #ident and their kin; it calls the components above.

    The components meet in the reader: the conditionals call the evaluator,
    the evaluator calls the literals and the assertions, all of them through
    the token stream and the identifier nodes of Stream.v; Symtab.v shows that
    the table behind those nodes is the finite map they are modelled by.  The
    macros call the lexer twice, for the tokens of a definition and for the
    text ## makes, and their strings are read by StrLit.v.  The files add the
    headers they find, or miss, to the dependencies, and use lbasename of
    Deps.v.  The directives run all of them on the state of DirState.v: their
    line of tokens and the conditionals (Stream.v, CondStack.v), the
    definitions (MacroDef.v), the files, the line table and the pragmas; what
    the client is told is a list of calls, and the pragmas of a client are a
    parameter.

    ** How the code is modelled

    A C function is a Rocq function of the same name.  Unsigned integers are
    [Z] with the wrap written out ([u32], [u64]); the bit operations are those
    of [Z].  Structures are records with the names of their fields.  State is
    passed explicitly or by a small monad: [W] emits diagnostics, [R] reads
    tokens and updates the reader, [M] is the reader of macro expansion, [LM]
    updates the line table and can fail, [F] is the reader of files, [D] the
    whole state a directive works on.
    Where the source can go wrong (an index outside an array, a failed
    assertion, a null pointer, undefined shifts) the model has a value for it
    ([None], [Wild], [RStuck], ...), and theorems show it is not reached.

    Loops that are not structural take fuel, and a theorem shows the fuel is
    enough: the probes of the identifier table (one per slot), the searches of
    the line table (one per map), the resolution of a location (one round per
    macro map and one more), the interpretation of a literal (one step per
    byte), the evaluator (one per token and operator), the scanners of the
    lexer (one per character), the search for a header (one per directory), the
    digits of a line number (ten), the names of a poison pragma (one per token
    and one for the end).  The fuel of macro expansion bounds the depth of
    calls and the rounds of each loop; it is enough for object-like macros
    ([object_like_expansion_ends]), and no fuel is for some function-like ones.

    ** What the theorems show

    - Arithmetic: every operator of #if delivers the two's complement result
      and the right overflow flag ([num_mul_refines] and its siblings); division does not end at
      some precisions above 64 bits, and a product can miss its overflow at
      128 ([num_div_diverges], [num_mul_misses_overflow]).
    - Literals: printing and reading an integer is the identity, the digits
      are accumulated exactly, and the suffixes are those of C.
    - Expressions: the evaluator returns the value of the expression the
      grammar assigns to the line, unevaluated operands included
      ([parse_expr_correct]), and on any line it ends without leaving its
      stack ([parse_expr_safe]).
    - Conditionals: exactly the groups of the C standard are read
      ([conditional_groups]); a file whose guard was recorded yields nothing
      when read again with the guard defined ([include_guard_sound]), and a
      file of the guarded form has its guard recorded.
    - Assertions: the chains of answers implement sets.
    - Character sets: each converter accepts exactly the well-formed strings
      and delivers the other encoding of the same text ([conversions_exact]);
      strings denote what their escapes say, character constants have the
      value C gives them, and interpretation always ends.
    - Identifier table: any sequence of operations behaves as a finite map
      ([identifier_table_refines]); the invariant behind it (an empty slot is
      always left, probe paths have no holes) is preserved; a walk visits each
      name once.
    - Line table: every location given out keeps its meaning
      ([locations_keep_meaning]) and no assertion fails ([line_table_safe]);
      look-up is a linear scan ([lookup_is_scan]); resolution through macro
      expansions ends ([resolution_ends]); ranges and data packed into a
      location are read back ([adhoc_roundtrip]).
    - Lines: cleaning a buffer line by line delivers the logical lines of
      translation phases 1 and 2 ([clean_line_phases], [clean_lines_file]);
      the word-wide search finds what a search by bytes finds.
    - Lexer: a token is the longest text of the grammar at its place
      ([maximal_munch]), it is spelled as it was read ([spelled_as_read]), its
      spelling fits the length computed for it ([token_len_bounds]; not for
      named operators with escapes, [named_operator_overflows]); printed with the
      spaces cpp_avoid_paste asks for, tokens are read back
      ([printed_tokens_read_back]), away from the pairs it misses
      ([avoid_paste_misses_pairs]).
    - Macros: a definition that is accepted is well formed
      ([definition_well_formed]); outside directives no expansion leaves its
      arrays or contexts ([expansion_safe]), a macro is disabled exactly while
      its tokens are being read ([disabled_while_read]), # makes a literal that
      denotes its argument ([stringified_denotes_argument]), and with
      object-like macros every expansion ends.  In general one need not
      ([expansion_diverges]), and inside a directive ## can read past its
      operands ([swallowed_comma_leaves_paste]).
    - Dependencies: make reads the rule as the names that were added
      ([written_rule_read_back]), its lines keep to the column asked for but
      for four characters ([written_lines_fit]), and a saved list is restored
      ([saved_deps_restored]) unless it is quoted again.
    - Files: over a file system that does not change, the caches of the search
      do not show, and __has_include agrees with #include
      ([include_search_uncached]); what is to be included once is, under any
      name ([once_only_stays_out]); #include_next moves along the chain
      ([include_next_advances]).  __has_include_next in the last directory and
      #include of a name known from a line marker follow null pointers
      ([has_include_next_crashes], [fake_include_crashes]), and a query can
      make an #import be dropped ([import_after_query_skipped]).
    - Directives: in a skipped group a line that is not a conditional does
      nothing ([skipped_group_inert]); a linemarker is read back as the file,
      line and flags it was printed for ([linemarker_read_back]), though #line
      can miss an overflow ([overflow_missed]); the pragmas are a table from
      namespaces and names ([pragma_registry_refines]), whose names are restored
      behind a precompiled header ([pragma_names_restored]); push_macro of a
      built-in macro follows a pointer there is not ([push_builtin_crashes]),
      and that of a name in other scripts saves another name
      ([extended_name_not_pushed]).

    Bounds that appear as hypotheses are those under which the source's
    counters do not wrap (the number of operations on the identifier table,
    lines below 2^26, jumps of at most a hundred lines, locations left in the
    table); [far_line_wraps] shows what happens beyond one of them.

    ** What is not modelled

    Of lex.c: raw strings, comments that go on over lines or are kept as
    tokens, and the driver that joins lines, notes and tokens (the model lexes
    one logical line).  Of macro.c: built-in macros, _Pragma and pragmas inside
    arguments, conditional and lazy macros, virtual locations and the
    callbacks.  Of directives.c: the tokens _Pragma leaves in the stream (its
    string is read), the directives of the command line, warnings about unused
    macros, and saved comments; the directives start from the stream of
    expanded tokens of a line, and __has_include in #if asks a parameter.  Of
    files.c: what concerns precompiled headers, -remap, directories that
    construct their own paths, and the report of missing guards.  Precompiled headers
    (pch.c), start-up (init.c) and the traditional and directives-only
    scanners.  The iconv library behind charset.c is not part of the source:
    only the converters charset.c itself contains are modelled.  Allocation,
    statistics and the text of diagnostics are left out. *)

From Stdlib Require Import ZArith Lia Bool String Ascii.
From stdpp Require Import base tactics list numbers strings.

Local Open Scope Z_scope.

(** ** Machine integers

    A [w]-bit unsigned C integer is a [Z] in [0 .. 2^w - 1]; every operation
    of the source that can leave the range is followed by the wrap below. *)

Definition wrapu (w x : Z) : Z := x mod 2 ^ w.

Definition u8 (x : Z) : Z := wrapu 8 x.
Definition u32 (x : Z) : Z := wrapu 32 x.
Definition u64 (x : Z) : Z := wrapu 64 x.

(** Left and right shifts and complement of a 64-bit part. *)
Definition shl64 (x n : Z) : Z := u64 (Z.shiftl x n).
Definition shr64 (x n : Z) : Z := Z.shiftr x n.
Definition not64 (x : Z) : Z := 2 ^ 64 - 1 - x.

(** A C boolean stored in an integer. *)
Definition b2z (b : bool) : Z := if b then 1 else 0.

Declare Scope cint_scope.
Delimit Scope cint_scope with cint.
Infix "<<" := shl64 (at level 36, left associativity) : cint_scope.
Infix ">>" := shr64 (at level 36, left associativity) : cint_scope.

(** ** Characters and byte strings

    A byte is a [Z]; [chr] names a byte by its ASCII character and [bytes]
    turns a string literal of the source into its bytes. *)

Definition byte := Z.
Definition chr (a : ascii) : byte := Z.of_N (N_of_ascii a).

Fixpoint bytes (s : string) : list byte :=
  match s with
  | EmptyString => []
  | String a s' => chr a :: bytes s'
  end.

Definition is_byte (b : byte) : Prop := 0 <= b < 256.

(** The byte at the front of a NUL-terminated text: reading at the end gives
    the terminator. *)
Definition peek (s : list byte) : byte := hd 0 s.
Definition peek1 (s : list byte) : byte := hd 0 (tl s).

(** ** Automation *)

Create HintDb cpp discriminated.

(** Split the boolean tests of a goal and turn them into propositions. *)
Ltac bsplit :=
  repeat match goal with
  | |- context [ ?a <=? ?b ] => destruct (Z.leb_spec a b)
  | |- context [ ?a <? ?b ] => destruct (Z.ltb_spec a b)
  | |- context [ ?a =? ?b ] => destruct (Z.eqb_spec a b)
  | H : context [ ?a <=? ?b ] |- _ => destruct (Z.leb_spec a b)
  | H : context [ ?a <? ?b ] |- _ => destruct (Z.ltb_spec a b)
  | H : context [ ?a =? ?b ] |- _ => destruct (Z.eqb_spec a b)
  end.

Ltac bprop :=
  repeat match goal with
  | H : (_ && _)%bool = true |- _ => apply andb_true_iff in H; destruct H
  | H : (_ || _)%bool = false |- _ => apply orb_false_iff in H; destruct H
  | H : negb _ = true |- _ => apply negb_true_iff in H
  | H : negb _ = false |- _ => apply negb_false_iff in H
  | H : (_ <=? _) = true |- _ => apply Z.leb_le in H
  | H : (_ <=? _) = false |- _ => apply Z.leb_gt in H
  | H : (_ <? _) = true |- _ => apply Z.ltb_lt in H
  | H : (_ <? _) = false |- _ => apply Z.ltb_ge in H
  | H : (_ =? _) = true |- _ => apply Z.eqb_eq in H
  | H : (_ =? _) = false |- _ => apply Z.eqb_neq in H
  end.

(** ** Powers of two, masks and single bits *)

Lemma pow2_pos k : 0 < 2 ^ k \/ k < 0.
Proof. destruct (Z.leb_spec 0 k); [left; apply Z.pow_pos_nonneg|]; lia. Qed.

Lemma pow2_gt0 k : 0 <= k -> 0 < 2 ^ k.
Proof. intros; apply Z.pow_pos_nonneg; lia. Qed.

Lemma pow2_split a b : 0 <= a -> 0 <= b -> 2 ^ (a + b) = 2 ^ a * 2 ^ b.
Proof. intros; apply Z.pow_add_r; lia. Qed.

Lemma pow2_half k : 1 <= k -> 2 ^ k = 2 * 2 ^ (k - 1).
Proof. intros; rewrite <- Z.pow_succ_r by lia; f_equal; lia. Qed.

Lemma pow2_le a b : 0 <= a <= b -> 2 ^ a <= 2 ^ b.
Proof. intros; apply Z.pow_le_mono_r; lia. Qed.

Lemma pow2_lt a b : 0 <= a < b -> 2 ^ a < 2 ^ b.
Proof. intros; apply Z.pow_lt_mono_r; lia. Qed.

(** The two halves of a double word. *)
Lemma div_parts h l m : 0 <= l < m -> (h * m + l) / m = h.
Proof. intros; symmetry; apply Z.div_unique with l; lia. Qed.

Lemma mod_parts h l m : 0 <= l < m -> (h * m + l) mod m = l.
Proof. intros; symmetry; apply Z.mod_unique with h; lia. Qed.

(** Congruences modulo a power of two. *)
Lemma mod_eq_diff m x y : 0 < m -> x mod m = y mod m <-> (x - y) mod m = 0.
Proof.
  intros Hm; split; intros H.
  - rewrite Zminus_mod, H, Z.sub_diag. by apply Z.mod_0_l; lia.
  - apply Z.mod_divide in H; [|lia]. destruct H as [k Hk].
    replace x with (y + k * m) by lia. by rewrite Z.mod_add by lia.
Qed.

Lemma cong_opp m x y : x mod m = y mod m -> (- x) mod m = (- y) mod m.
Proof. intros H. by rewrite <- !Z.sub_0_l, Zminus_mod, H, <- Zminus_mod. Qed.

Lemma cong_add m a b c d : a mod m = b mod m -> c mod m = d mod m ->
  (a + c) mod m = (b + d) mod m.
Proof. intros H1 H2. by rewrite Zplus_mod, H1, H2, <- Zplus_mod. Qed.

Lemma cong_sub m a b c d : a mod m = b mod m -> c mod m = d mod m ->
  (a - c) mod m = (b - d) mod m.
Proof. intros H1 H2. by rewrite Zminus_mod, H1, H2, <- Zminus_mod. Qed.

Lemma cong_mul m a b c d : a mod m = b mod m -> c mod m = d mod m ->
  (a * c) mod m = (b * d) mod m.
Proof. intros H1 H2. by rewrite Zmult_mod, H1, H2, <- Zmult_mod. Qed.

Lemma mod_zero_half x m : 0 < m -> x mod (2 * m) = 0 -> x mod m = 0.
Proof.
  intros Hm H. apply Z.mod_divide in H; [|lia]. destruct H as [c ->].
  rewrite Z.mul_assoc. apply Z.mod_mul. lia.
Qed.

Lemma wrapu_range w x : 0 <= w -> 0 <= wrapu w x < 2 ^ w.
Proof. intros; apply Z.mod_pos_bound, pow2_gt0; lia. Qed.

Lemma wrapu_small w x : 0 <= x < 2 ^ w -> wrapu w x = x.
Proof. apply Z.mod_small. Qed.

Lemma u64_range x : 0 <= u64 x < 2 ^ 64.
Proof. apply wrapu_range; lia. Qed.

Lemma u64_small x : 0 <= x < 2 ^ 64 -> u64 x = x.
Proof. apply wrapu_small. Qed.

(** Masking with [2^k - 1] is reduction modulo [2^k]. *)
Lemma land_mask x k : 0 <= k -> Z.land x (2 ^ k - 1) = x mod 2 ^ k.
Proof.
  intros; rewrite <- Z.land_ones by lia; f_equal.
  rewrite Z.ones_equiv; lia.
Qed.

Lemma u32_range x : 0 <= u32 x < 2 ^ 32.
Proof. by apply wrapu_range. Qed.

Lemma u32_small x : 0 <= x < 2 ^ 32 -> u32 x = x.
Proof. apply Z.mod_small. Qed.

Lemma u32_mod x k : 0 <= k <= 32 -> u32 x mod 2 ^ k = x mod 2 ^ k.
Proof.
  intros Hk. unfold u32, wrapu. symmetry. rewrite (Z.div_mod x (2 ^ 32)) at 1 by lia.
  replace 32 with (32 - k + k) at 1 by lia. rewrite Z.pow_add_r by lia.
  replace (2 ^ (32 - k) * 2 ^ k * (x / 2 ^ 32) + x mod 2 ^ 32)
    with (x mod 2 ^ 32 + (2 ^ (32 - k) * (x / 2 ^ 32)) * 2 ^ k) by ring.
  pose proof (pow2_gt0 k ltac:(lia)). by rewrite Z.mod_add by lia.
Qed.

(** Testing one bit with a mask. *)
Lemma land_bit x k : 0 <= k -> Z.land x (2 ^ k) = if Z.testbit x k then 2 ^ k else 0.
Proof.
  intros Hk; apply Z.bits_inj'; intros i Hi.
  rewrite Z.land_spec, Z.pow2_bits_eqb by lia.
  destruct (Z.eqb_spec k i) as [->|Hne].
  - destruct (Z.testbit x i);
      rewrite ?Z.pow2_bits_eqb, ?Z.eqb_refl, ?Z.bits_0 by lia; done.
  - rewrite andb_false_r.
    destruct (Z.testbit x k); [|by rewrite Z.bits_0].
    rewrite Z.pow2_bits_eqb by lia. by apply Z.eqb_neq in Hne as ->.
Qed.

Lemma land_bit_eqb x k : 0 <= k -> (Z.land x (2 ^ k) =? 0) = negb (Z.testbit x k).
Proof.
  intros Hk. rewrite land_bit by done. pose proof (pow2_gt0 k Hk).
  destruct (Z.testbit x k); simpl; bsplit; lia || done.
Qed.

(** The top bit of a number decides in which half of its range it lies. *)
Lemma testbit_top x k : 0 <= k -> 0 <= x < 2 ^ (k + 1) -> Z.testbit x k = (2 ^ k <=? x).
Proof.
  intros Hk Hx. rewrite pow2_split in Hx by lia. change (2 ^ 1) with 2 in Hx.
  pose proof (pow2_gt0 k Hk). destruct (Z.leb_spec (2 ^ k) x).
  - apply Z.testbit_true; [lia|].
    replace (x / 2 ^ k) with 1; [done|].
    apply Z.div_unique with (x - 2 ^ k); lia.
  - apply Z.testbit_false; [lia|]. rewrite Z.div_small by lia. done.
Qed.

Lemma bits_above k x i : 0 <= x < 2 ^ k -> 0 <= k <= i -> Z.testbit x i = false.
Proof.
  intros Hx Hk. rewrite <- (Z.mod_small x (2 ^ k)) by lia. by apply Z.mod_pow2_bits_high.
Qed.

(** Disjoint bit fields: [|] is addition. *)
Lemma lor_low a b k : 0 <= k -> 0 <= b < 2 ^ k -> Z.lor (a * 2 ^ k) b = a * 2 ^ k + b.
Proof.
  intros Hk Hb.
  assert (Z.land (a * 2 ^ k) b = 0) as Hd.
  { apply Z.bits_inj'; intros i Hi. rewrite Z.land_spec, Z.bits_0.
    destruct (Z.ltb_spec i k).
    - by rewrite Z.mul_pow2_bits_low.
    - replace b with (b mod 2 ^ k) by (apply Z.mod_small; lia).
      rewrite (Z.mod_pow2_bits_high b) by lia. apply andb_false_r. }
  rewrite Z.add_nocarry_lxor by done. by rewrite Z.lxor_lor.
Qed.

Lemma shl64_mul x n : 0 <= n -> shl64 x n = (x * 2 ^ n) mod 2 ^ 64.
Proof. intros; unfold shl64, u64, wrapu; by rewrite Z.shiftl_mul_pow2. Qed.

Lemma shr64_div x n : 0 <= n -> shr64 x n = x / 2 ^ n.
Proof. intros; unfold shr64; by rewrite Z.shiftr_div_pow2. Qed.

Lemma shl64_one k : 0 <= k < 64 -> shl64 1 k = 2 ^ k.
Proof.
  intros; rewrite shl64_mul, Z.mul_1_l by lia. apply Z.mod_small.
  split; [apply Z.lt_le_incl, pow2_gt0|apply pow2_lt]; lia.
Qed.

(** A boolean fact about small numbers, by running through them. *)
Lemma range_check (n : nat) (P : Z -> bool) :
  forallb P (map Z.of_nat (seq 0 n)) = true -> forall x, 0 <= x < Z.of_nat n -> P x = true.
Proof.
  intros H x Hx. rewrite forallb_forall in H. apply H. apply in_map_iff.
  exists (Z.to_nat x). rewrite Z2Nat.id by lia. split; [done|]. apply in_seq. lia.
Qed.

#[export] Hint Resolve pow2_gt0 u64_range : cpp.
