(* ===== verification/Reader.v ===== *)
(** * The reader: token types, options and diagnostics

    The vocabulary every component of libcpp shares: the token types of
    include/cpplib.h, the fields of [struct cpp_options] that the modelled
    code reads, and the diagnostics it emits.  A function of the source that
    can emit a diagnostic returns, beside its result, the list of the
    diagnostics it emits, in order (the [W] monad). *)

From Stdlib Require Import ZArith Lia String.
From stdpp Require Import base tactics list numbers.
From S2P Require Import Prelude.

Local Open Scope string_scope.
Local Open Scope Z_scope.

(** ** Token types (enum cpp_ttype) *)

Inductive cpp_ttype : Type :=
  | CPP_EQ | CPP_NOT | CPP_GREATER | CPP_LESS | CPP_PLUS | CPP_MINUS
  | CPP_MULT | CPP_DIV | CPP_MOD | CPP_AND | CPP_OR | CPP_XOR | CPP_RSHIFT
  | CPP_LSHIFT | CPP_COMPL | CPP_AND_AND | CPP_OR_OR | CPP_QUERY
  | CPP_COLON | CPP_COMMA | CPP_OPEN_PAREN | CPP_CLOSE_PAREN | CPP_EOF
  | CPP_EQ_EQ | CPP_NOT_EQ | CPP_GREATER_EQ | CPP_LESS_EQ | CPP_PLUS_EQ
  | CPP_MINUS_EQ | CPP_MULT_EQ | CPP_DIV_EQ | CPP_MOD_EQ | CPP_AND_EQ
  | CPP_OR_EQ | CPP_XOR_EQ | CPP_RSHIFT_EQ | CPP_LSHIFT_EQ | CPP_HASH
  | CPP_PASTE | CPP_OPEN_SQUARE | CPP_CLOSE_SQUARE | CPP_OPEN_BRACE
  | CPP_CLOSE_BRACE | CPP_SEMICOLON | CPP_ELLIPSIS | CPP_PLUS_PLUS
  | CPP_MINUS_MINUS | CPP_DEREF | CPP_DOT | CPP_SCOPE | CPP_DEREF_STAR
  | CPP_DOT_STAR | CPP_ATSIGN | CPP_NAME | CPP_AT_NAME | CPP_NUMBER
  | CPP_CHAR | CPP_WCHAR | CPP_CHAR16 | CPP_CHAR32 | CPP_UTF8CHAR
  | CPP_OTHER | CPP_STRING | CPP_WSTRING | CPP_STRING16 | CPP_STRING32
  | CPP_UTF8STRING | CPP_OBJC_STRING | CPP_HEADER_NAME | CPP_CHAR_USERDEF
  | CPP_WCHAR_USERDEF | CPP_CHAR16_USERDEF | CPP_CHAR32_USERDEF
  | CPP_UTF8CHAR_USERDEF | CPP_STRING_USERDEF | CPP_WSTRING_USERDEF
  | CPP_STRING16_USERDEF | CPP_STRING32_USERDEF | CPP_UTF8STRING_USERDEF
  | CPP_COMMENT | CPP_MACRO_ARG | CPP_PRAGMA | CPP_PRAGMA_EOL | CPP_PADDING.

(** The value of the enumerator: its position in TTYPE_TABLE. *)
Definition ttype_index (t : cpp_ttype) : Z :=
  match t with
  | CPP_EQ => 0 | CPP_NOT => 1 | CPP_GREATER => 2 | CPP_LESS => 3
  | CPP_PLUS => 4 | CPP_MINUS => 5 | CPP_MULT => 6 | CPP_DIV => 7
  | CPP_MOD => 8 | CPP_AND => 9 | CPP_OR => 10 | CPP_XOR => 11
  | CPP_RSHIFT => 12 | CPP_LSHIFT => 13 | CPP_COMPL => 14 | CPP_AND_AND => 15
  | CPP_OR_OR => 16 | CPP_QUERY => 17 | CPP_COLON => 18 | CPP_COMMA => 19
  | CPP_OPEN_PAREN => 20 | CPP_CLOSE_PAREN => 21 | CPP_EOF => 22
  | CPP_EQ_EQ => 23 | CPP_NOT_EQ => 24 | CPP_GREATER_EQ => 25
  | CPP_LESS_EQ => 26 | CPP_PLUS_EQ => 27 | CPP_MINUS_EQ => 28
  | CPP_MULT_EQ => 29 | CPP_DIV_EQ => 30 | CPP_MOD_EQ => 31
  | CPP_AND_EQ => 32 | CPP_OR_EQ => 33 | CPP_XOR_EQ => 34
  | CPP_RSHIFT_EQ => 35 | CPP_LSHIFT_EQ => 36 | CPP_HASH => 37
  | CPP_PASTE => 38 | CPP_OPEN_SQUARE => 39 | CPP_CLOSE_SQUARE => 40
  | CPP_OPEN_BRACE => 41 | CPP_CLOSE_BRACE => 42 | CPP_SEMICOLON => 43
  | CPP_ELLIPSIS => 44 | CPP_PLUS_PLUS => 45 | CPP_MINUS_MINUS => 46
  | CPP_DEREF => 47 | CPP_DOT => 48 | CPP_SCOPE => 49 | CPP_DEREF_STAR => 50
  | CPP_DOT_STAR => 51 | CPP_ATSIGN => 52 | CPP_NAME => 53
  | CPP_AT_NAME => 54 | CPP_NUMBER => 55 | CPP_CHAR => 56 | CPP_WCHAR => 57
  | CPP_CHAR16 => 58 | CPP_CHAR32 => 59 | CPP_UTF8CHAR => 60
  | CPP_OTHER => 61 | CPP_STRING => 62 | CPP_WSTRING => 63
  | CPP_STRING16 => 64 | CPP_STRING32 => 65 | CPP_UTF8STRING => 66
  | CPP_OBJC_STRING => 67 | CPP_HEADER_NAME => 68 | CPP_CHAR_USERDEF => 69
  | CPP_WCHAR_USERDEF => 70 | CPP_CHAR16_USERDEF => 71
  | CPP_CHAR32_USERDEF => 72 | CPP_UTF8CHAR_USERDEF => 73
  | CPP_STRING_USERDEF => 74 | CPP_WSTRING_USERDEF => 75
  | CPP_STRING16_USERDEF => 76 | CPP_STRING32_USERDEF => 77
  | CPP_UTF8STRING_USERDEF => 78 | CPP_COMMENT => 79 | CPP_MACRO_ARG => 80
  | CPP_PRAGMA => 81 | CPP_PRAGMA_EOL => 82 | CPP_PADDING => 83
  end.

Definition all_ttypes : list cpp_ttype :=
  [CPP_EQ; CPP_NOT; CPP_GREATER; CPP_LESS; CPP_PLUS; CPP_MINUS; CPP_MULT;
  CPP_DIV; CPP_MOD; CPP_AND; CPP_OR; CPP_XOR; CPP_RSHIFT; CPP_LSHIFT;
  CPP_COMPL; CPP_AND_AND; CPP_OR_OR; CPP_QUERY; CPP_COLON; CPP_COMMA;
  CPP_OPEN_PAREN; CPP_CLOSE_PAREN; CPP_EOF; CPP_EQ_EQ; CPP_NOT_EQ;
  CPP_GREATER_EQ; CPP_LESS_EQ; CPP_PLUS_EQ; CPP_MINUS_EQ; CPP_MULT_EQ;
  CPP_DIV_EQ; CPP_MOD_EQ; CPP_AND_EQ; CPP_OR_EQ; CPP_XOR_EQ; CPP_RSHIFT_EQ;
  CPP_LSHIFT_EQ; CPP_HASH; CPP_PASTE; CPP_OPEN_SQUARE; CPP_CLOSE_SQUARE;
  CPP_OPEN_BRACE; CPP_CLOSE_BRACE; CPP_SEMICOLON; CPP_ELLIPSIS;
  CPP_PLUS_PLUS; CPP_MINUS_MINUS; CPP_DEREF; CPP_DOT; CPP_SCOPE;
  CPP_DEREF_STAR; CPP_DOT_STAR; CPP_ATSIGN; CPP_NAME; CPP_AT_NAME;
  CPP_NUMBER; CPP_CHAR; CPP_WCHAR; CPP_CHAR16; CPP_CHAR32; CPP_UTF8CHAR;
  CPP_OTHER; CPP_STRING; CPP_WSTRING; CPP_STRING16; CPP_STRING32;
  CPP_UTF8STRING; CPP_OBJC_STRING; CPP_HEADER_NAME; CPP_CHAR_USERDEF;
  CPP_WCHAR_USERDEF; CPP_CHAR16_USERDEF; CPP_CHAR32_USERDEF;
  CPP_UTF8CHAR_USERDEF; CPP_STRING_USERDEF; CPP_WSTRING_USERDEF;
  CPP_STRING16_USERDEF; CPP_STRING32_USERDEF; CPP_UTF8STRING_USERDEF;
  CPP_COMMENT; CPP_MACRO_ARG; CPP_PRAGMA; CPP_PRAGMA_EOL; CPP_PADDING].

Lemma ttype_index_spec t : nth_error all_ttypes (Z.to_nat (ttype_index t)) = Some t.
Proof. destruct t; reflexivity. Qed.

#[export] Instance ttype_index_inj : Inj eq eq ttype_index.
Proof.
  intros x y H. pose proof (ttype_index_spec x) as Hx.
  rewrite H, ttype_index_spec in Hx. congruence.
Qed.

#[export] Instance cpp_ttype_eq_dec : EqDecision cpp_ttype.
Proof.
  intros x y. destruct (decide (ttype_index x = ttype_index y)) as [H|H].
  - left. by apply ttype_index_inj.
  - right. congruence.
Defined.

Definition ttype_eqb (x y : cpp_ttype) : bool := ttype_index x =? ttype_index y.

Lemma ttype_eqb_spec x y : Bool.reflect (x = y) (ttype_eqb x y).
Proof.
  unfold ttype_eqb. destruct (Z.eqb_spec (ttype_index x) (ttype_index y)); constructor.
  - by apply ttype_index_inj.
  - congruence.
Qed.

(** expr.c reuses the two enumerators after CPP_LAST_CPP_OP for the unary
    operators. *)
Abbreviation CPP_LAST_CPP_OP := CPP_LESS_EQ.
Abbreviation CPP_UPLUS := CPP_PLUS_EQ.
Abbreviation CPP_UMINUS := CPP_MINUS_EQ.

(** ** Languages (enum c_lang) *)

Inductive c_lang : Type :=
  | CLK_GNUC89 | CLK_GNUC99 | CLK_GNUC11 | CLK_GNUC17 | CLK_GNUC2X
  | CLK_STDC89 | CLK_STDC94 | CLK_STDC99 | CLK_STDC11 | CLK_STDC17
  | CLK_STDC2X
  | CLK_GNUCXX | CLK_CXX98 | CLK_GNUCXX11 | CLK_CXX11
  | CLK_GNUCXX14 | CLK_CXX14 | CLK_GNUCXX17 | CLK_CXX17
  | CLK_GNUCXX2A | CLK_CXX2A | CLK_ASM.

Definition c_lang_index (l : c_lang) : Z :=
  match l with
  | CLK_GNUC89 => 0 | CLK_GNUC99 => 1 | CLK_GNUC11 => 2 | CLK_GNUC17 => 3
  | CLK_GNUC2X => 4 | CLK_STDC89 => 5 | CLK_STDC94 => 6 | CLK_STDC99 => 7
  | CLK_STDC11 => 8 | CLK_STDC17 => 9 | CLK_STDC2X => 10 | CLK_GNUCXX => 11
  | CLK_CXX98 => 12 | CLK_GNUCXX11 => 13 | CLK_CXX11 => 14 | CLK_GNUCXX14 => 15
  | CLK_CXX14 => 16 | CLK_GNUCXX17 => 17 | CLK_CXX17 => 18 | CLK_GNUCXX2A => 19
  | CLK_CXX2A => 20 | CLK_ASM => 21
  end.

(** ** Options (struct cpp_options)

    The options the modelled functions read, under their names in
    include/cpplib.h; the [unsigned char] flags are booleans. *)

Record cpp_options : Type := mk_options {
  lang : c_lang;
  cplusplus : bool;
  c99 : bool;
  cpp_pedantic : bool;
  traditional : bool;
  cpp_warn_traditional : bool;
  cpp_warn_long_long : bool;
  cpp_warn_c90_c99_compat : Z;
  cpp_warn_deprecated : bool;
  ext_numeric_literals : bool;
  user_literals : bool;
  digit_separators : bool;
  binary_constants : bool;
  extended_numbers : bool;
  c11_identifiers : bool;
  dollars_in_ident : bool;
  warn_dollars : bool;
  warn_undef : bool;
  warn_num_sign_change : bool;
  warn_multichar : bool;
  warn_expansion_to_defined : bool;
  warn_endif_labels : bool;
  precision : Z;
  char_precision : Z;
  int_precision : Z;
  wchar_precision : Z;
  unsigned_char : bool;
  unsigned_wchar : bool;
  bytes_big_endian : bool;
  objc : bool;
  trigraphs : bool;
  digraphs : bool;
  uliterals : bool;
  utf8_char_literals : bool;
  rliterals : bool;
  extended_identifiers : bool;
  va_opt : bool;
  warn_trigraphs : bool;
  warn_comments : bool;
  warn_literal_suffix : bool;
  warn_normalize : Z;
  cpp_warn_cxx11_compat : bool
}.

(** The options of a GNU C17 compilation on a 64-bit little-endian host. *)
Definition gnuc17_options : cpp_options := {|
  lang := CLK_GNUC17; cplusplus := false; c99 := true; cpp_pedantic := false;
  traditional := false; cpp_warn_traditional := false; cpp_warn_long_long := false;
  cpp_warn_c90_c99_compat := -1; cpp_warn_deprecated := true;
  ext_numeric_literals := true; user_literals := false; digit_separators := false;
  binary_constants := false; extended_numbers := true; c11_identifiers := true;
  dollars_in_ident := true; warn_dollars := true; warn_undef := false;
  warn_num_sign_change := false; warn_multichar := true;
  warn_expansion_to_defined := false; warn_endif_labels := true;
  precision := 64; char_precision := 8; int_precision := 32; wchar_precision := 32;
  unsigned_char := false; unsigned_wchar := false; bytes_big_endian := false;
  objc := false; trigraphs := false; digraphs := true; uliterals := true;
  utf8_char_literals := false; rliterals := true; extended_identifiers := true; va_opt := true;
  warn_trigraphs := true; warn_comments := false; warn_literal_suffix := true;
  warn_normalize := 1; cpp_warn_cxx11_compat := false |}.

(** init.c: what each language has. *)
Record lang_flags : Type := mk_lang {
  l_c99 : bool; l_cplusplus : bool; l_extended_numbers : bool; l_extended_identifiers : bool;
  l_c11_identifiers : bool; l_std : bool; l_digraphs : bool; l_uliterals : bool;
  l_rliterals : bool; l_user_literals : bool; l_binary_constants : bool;
  l_digit_separators : bool; l_trigraphs : bool; l_utf8_char_literals : bool; l_va_opt : bool
}.

Definition lang_defaults (l : c_lang) : lang_flags :=
  match l with
  | CLK_GNUC89 => mk_lang false false true false false false true false false false false false false false true
  | CLK_GNUC99 => mk_lang true false true true false false true true true false false false false false true
  | CLK_GNUC11 => mk_lang true false true true true false true true true false false false false false true
  | CLK_GNUC17 => mk_lang true false true true true false true true true false false false false false true
  | CLK_GNUC2X => mk_lang true false true true true false true true true false false false false false true
  | CLK_STDC89 => mk_lang false false false false false true false false false false false false true false false
  | CLK_STDC94 => mk_lang false false false false false true true false false false false false true false false
  | CLK_STDC99 => mk_lang true false true true false true true false false false false false true false false
  | CLK_STDC11 => mk_lang true false true true true true true true false false false false true false false
  | CLK_STDC17 => mk_lang true false true true true true true true false false false false true false false
  | CLK_STDC2X => mk_lang true false true true true true true true false false false false true false false
  | CLK_GNUCXX => mk_lang false true true true false false true false false false false false false false true
  | CLK_CXX98 => mk_lang false true false true false true true false false false false false true false false
  | CLK_GNUCXX11 => mk_lang true true true true true false true true true true false false false false true
  | CLK_CXX11 => mk_lang true true false true true true true true true true false false true false false
  | CLK_GNUCXX14 => mk_lang true true true true true false true true true true true true false false true
  | CLK_CXX14 => mk_lang true true false true true true true true true true true true true false false
  | CLK_GNUCXX17 => mk_lang true true true true true false true true true true true true false true true
  | CLK_CXX17 => mk_lang true true true true true true true true true true true true false true false
  | CLK_GNUCXX2A => mk_lang true true true true true false true true true true true true false true true
  | CLK_CXX2A => mk_lang true true true true true true true true true true true true false true true
  | CLK_ASM => mk_lang false false true false false false false false false false false false false false false
  end.

Definition cpp_set_lang (ln : c_lang) (o : cpp_options) : cpp_options :=
  let l := lang_defaults ln in {|
  lang := ln; cplusplus := l_cplusplus l; c99 := l_c99 l; cpp_pedantic := cpp_pedantic o;
  traditional := traditional o; cpp_warn_traditional := cpp_warn_traditional o;
  cpp_warn_long_long := cpp_warn_long_long o;
  cpp_warn_c90_c99_compat := cpp_warn_c90_c99_compat o;
  cpp_warn_deprecated := cpp_warn_deprecated o;
  ext_numeric_literals := ext_numeric_literals o; user_literals := l_user_literals l;
  digit_separators := l_digit_separators l; binary_constants := l_binary_constants l;
  extended_numbers := l_extended_numbers l; c11_identifiers := l_c11_identifiers l;
  dollars_in_ident := dollars_in_ident o; warn_dollars := warn_dollars o;
  warn_undef := warn_undef o; warn_num_sign_change := warn_num_sign_change o;
  warn_multichar := warn_multichar o; warn_expansion_to_defined := warn_expansion_to_defined o;
  warn_endif_labels := warn_endif_labels o; precision := precision o;
  char_precision := char_precision o; int_precision := int_precision o;
  wchar_precision := wchar_precision o; unsigned_char := unsigned_char o;
  unsigned_wchar := unsigned_wchar o; bytes_big_endian := bytes_big_endian o;
  objc := objc o; trigraphs := l_trigraphs l; digraphs := l_digraphs l;
  uliterals := l_uliterals l; utf8_char_literals := l_utf8_char_literals l;
  rliterals := l_rliterals l; extended_identifiers := l_extended_identifiers l;
  va_opt := l_va_opt l; warn_trigraphs := warn_trigraphs o; warn_comments := warn_comments o;
  warn_literal_suffix := warn_literal_suffix o; warn_normalize := warn_normalize o;
  cpp_warn_cxx11_compat := cpp_warn_cxx11_compat o |}.

(** ** Diagnostics

    The level, the warning reason and the message format of a diagnostic; the
    double quotes of a format are written as single quotes. *)

Inductive cpp_diagnostic_level : Type :=
  | CPP_DL_WARNING | CPP_DL_WARNING_SYSHDR | CPP_DL_PEDWARN | CPP_DL_ERROR
  | CPP_DL_ICE | CPP_DL_NOTE | CPP_DL_FATAL.

Inductive cpp_warning_reason : Type :=
  | CPP_W_NONE | CPP_W_DEPRECATED | CPP_W_COMMENTS | CPP_W_MISSING_INCLUDE_DIRS
  | CPP_W_TRIGRAPHS | CPP_W_MULTICHAR | CPP_W_TRADITIONAL | CPP_W_LONG_LONG
  | CPP_W_ENDIF_LABELS | CPP_W_NUM_SIGN_CHANGE | CPP_W_VARIADIC_MACROS
  | CPP_W_BUILTIN_MACRO_REDEFINED | CPP_W_DOLLARS | CPP_W_UNDEF
  | CPP_W_UNUSED_MACROS | CPP_W_CXX_OPERATOR_NAMES | CPP_W_NORMALIZE
  | CPP_W_INVALID_PCH | CPP_W_WARNING_DIRECTIVE | CPP_W_LITERAL_SUFFIX
  | CPP_W_DATE_TIME | CPP_W_PEDANTIC | CPP_W_C90_C99_COMPAT
  | CPP_W_CXX11_COMPAT | CPP_W_EXPANSION_TO_DEFINED.

#[export] Instance cpp_diagnostic_level_eq_dec : EqDecision cpp_diagnostic_level.
Proof. solve_decision. Defined.
#[export] Instance cpp_warning_reason_eq_dec : EqDecision cpp_warning_reason.
Proof. solve_decision. Defined.

Record diag : Type := Diag {
  d_level : cpp_diagnostic_level;
  d_reason : cpp_warning_reason;
  d_msg : string
}.

(** A computation that emits diagnostics. *)
Definition W (A : Type) : Type := (list diag * A)%type.

#[export] Instance W_ret : MRet W := fun A x => ([], x).
#[export] Instance W_bind : MBind W :=
  fun A B f m => let r := f (snd m) in ((fst m ++ fst r)%list, snd r).

Definition emit (d : diag) : W unit := ([d], tt).
Definition when (b : bool) (m : W unit) : W unit := if b then m else mret tt.

(** errors.c: cpp_error, cpp_warning and cpp_pedwarning (and their
    _with_line variants, which only add a location). *)
Definition cpp_error (l : cpp_diagnostic_level) (msg : string) : W unit :=
  emit (Diag l CPP_W_NONE msg).
Definition cpp_warning (r : cpp_warning_reason) (msg : string) : W unit :=
  emit (Diag CPP_DL_WARNING r msg).
Definition cpp_pedwarning (r : cpp_warning_reason) (msg : string) : W unit :=
  emit (Diag CPP_DL_PEDWARN r msg).

Notation "x ←w m ;; k" := (@mbind W _ _ _ (fun x => k) m)
  (at level 100, m at next level, k at level 200, right associativity).
Notation "m ;;w k" := (@mbind W _ _ _ (fun _ => k) m)
  (at level 100, k at level 200, right associativity).

Lemma W_bind_ret_l {A B} (x : A) (f : A -> W B) : (y ←w mret x ;; f y) = f x.
Proof. unfold mbind, W_bind, mret, W_ret; simpl. by destruct (f x). Qed.

Lemma snd_W_bind {A B} (m : W A) (f : A -> W B) : snd (y ←w m ;; f y) = snd (f (snd m)).
Proof. done. Qed.

Lemma fst_W_bind {A B} (m : W A) (f : A -> W B) :
  fst (y ←w m ;; f y) = (fst m ++ fst (f (snd m)))%list.
Proof. done. Qed.

(** Whether a list of diagnostics contains one of a given level. *)
Definition has_level (l : cpp_diagnostic_level) (ds : list diag) : bool :=
  existsb (fun d => bool_decide (d_level d = l)) ds.

Lemma has_level_app l a b : has_level l (a ++ b)%list = has_level l a || has_level l b.
Proof. apply existsb_app. Qed.

(** A computation that emits no error. *)
Definition no_error {A} (m : W A) : Prop := has_level CPP_DL_ERROR (fst m) = false.

Lemma no_error_ret {A} (x : A) : no_error (mret x).
Proof. done. Qed.

Lemma no_error_bind {A B} (m : W A) (f : A -> W B) :
  no_error m -> no_error (f (snd m)) -> no_error (y ←w m ;; f y).
Proof. unfold no_error. intros H1 H2. by rewrite fst_W_bind, has_level_app, H1, H2. Qed.

Lemma no_error_if {A} (b : bool) (x y : W A) :
  no_error x -> no_error y -> no_error (if b then x else y).
Proof. by destruct b. Qed.

Lemma no_error_when b m : no_error m -> no_error (when b m).
Proof. by destruct b. Qed.

Lemma no_error_warning r msg : no_error (cpp_warning r msg).
Proof. done. Qed.

Lemma no_error_pedwarning r msg : no_error (cpp_pedwarning r msg).
Proof. done. Qed.

Lemma no_error_pedwarn msg : no_error (cpp_error CPP_DL_PEDWARN msg).
Proof. done. Qed.

#[export] Hint Resolve no_error_ret no_error_bind no_error_if no_error_when
  no_error_warning no_error_pedwarning no_error_pedwarn : cpp.
