(* ===== verification/CppNum.v ===== *)
(** * Preprocessor integers (libcpp/expr.c, the num_* functions)

    [cpp_num] is the double-word integer in which #if expressions are
    evaluated, at the target's [precision] (1 to 128 bits).  This file holds
    the arithmetic of expr.c, an abstract specification of it in [Z] (two's
    complement arithmetic with C's usual conversions) and the lemmas that
    relate the two. *)

From Stdlib Require Import ZArith Lia Bool String.
From stdpp Require Import base tactics list numbers.
From S2P Require Import Prelude Reader.

Local Open Scope string_scope.
Local Open Scope Z_scope.
Local Open Scope cint_scope.

(** ** Definitions *)

Definition PART_PRECISION : Z := 64.
Definition HALF_MASK : Z := not64 0 >> (PART_PRECISION / 2).
Definition LOW_PART (num_part : Z) : Z := Z.land num_part HALF_MASK.
Definition HIGH_PART (num_part : Z) : Z := num_part >> (PART_PRECISION / 2).

Record cpp_num : Type := mk_num {
  high : Z;
  low : Z;
  unsignedp : bool;
  overflow : bool
}.

Definition set_parts (h l : Z) (n : cpp_num) : cpp_num :=
  mk_num h l (unsignedp n) (overflow n).
Definition set_overflow (o : bool) (n : cpp_num) : cpp_num :=
  mk_num (high n) (low n) (unsignedp n) o.
Definition set_unsignedp (u : bool) (n : cpp_num) : cpp_num :=
  mk_num (high n) (low n) u (overflow n).

Definition num_zerop (num : cpp_num) : bool := Z.lor (low num) (high num) =? 0.
Definition num_eq (num1 num2 : cpp_num) : bool :=
  (low num1 =? low num2) && (high num1 =? high num2).

(** Clears the unused high order bits. *)
Definition num_trim (num : cpp_num) (precision : Z) : cpp_num :=
  if PART_PRECISION <? precision then
    let precision := precision - PART_PRECISION in
    if precision <? PART_PRECISION
    then set_parts (Z.land (high num) ((1 << precision) - 1)) (low num) num
    else num
  else
    let l := if precision <? PART_PRECISION
             then Z.land (low num) ((1 << precision) - 1) else low num in
    set_parts 0 l num.

(** True iff the number, presumed signed, is >= 0. *)
Definition num_positive (num : cpp_num) (precision : Z) : bool :=
  if PART_PRECISION <? precision
  then Z.land (high num) (1 << (precision - PART_PRECISION - 1)) =? 0
  else Z.land (low num) (1 << (precision - 1)) =? 0.

Definition cpp_num_sign_extend (num : cpp_num) (precision : Z) : cpp_num :=
  if negb (unsignedp num) then
    if PART_PRECISION <? precision then
      let precision := precision - PART_PRECISION in
      if (precision <? PART_PRECISION)
         && negb (Z.land (high num) (1 << (precision - 1)) =? 0)
      then set_parts (Z.lor (high num) (not64 (not64 0 >> (PART_PRECISION - precision))))
                     (low num) num
      else num
    else if negb (Z.land (low num) (1 << (precision - 1)) =? 0) then
      set_parts (not64 0)
        (if precision <? PART_PRECISION
         then Z.lor (low num) (not64 (not64 0 >> (PART_PRECISION - precision)))
         else low num) num
    else num
  else num.

Definition num_negate (num : cpp_num) (precision : Z) : cpp_num :=
  let copy := num in
  let h := not64 (high num) in
  let l := u64 (not64 (low num) + 1) in
  let h := if l =? 0 then u64 (h + 1) else h in
  let num := num_trim (set_parts h l num) precision in
  set_overflow (negb (unsignedp num) && num_eq num copy && negb (num_zerop num)) num.

Definition num_greater_eq (pa pb : cpp_num) (precision : Z) : bool :=
  let unsigned_cmp :=
    (high pb <? high pa) || ((high pa =? high pb) && (low pb <=? low pa)) in
  if unsignedp pa || unsignedp pb then unsigned_cmp
  else
    let unsignedp := num_positive pa precision in
    if negb (eqb unsignedp (num_positive pb precision)) then unsignedp
    else unsigned_cmp.

Definition num_bitwise_op (lhs rhs : cpp_num) (op : cpp_ttype) : cpp_num :=
  let f := match op with
           | CPP_AND => Z.land
           | CPP_OR => Z.lor
           | _ => Z.lxor
           end in
  mk_num (f (high lhs) (high rhs)) (f (low lhs) (low rhs))
         (unsignedp lhs || unsignedp rhs) false.

Definition num_inequality_op (o : cpp_options) (lhs rhs : cpp_num) (op : cpp_ttype)
  : cpp_num :=
  let gte := num_greater_eq lhs rhs (precision o) in
  let l := match op with
           | CPP_GREATER_EQ => gte
           | CPP_LESS => negb gte
           | CPP_GREATER => gte && negb (num_eq lhs rhs)
           | _ => negb gte || num_eq lhs rhs
           end in
  mk_num 0 (b2z l) false false.

Definition num_equality_op (lhs rhs : cpp_num) (op : cpp_ttype) : cpp_num :=
  let eq := num_eq lhs rhs in
  let eq := match op with CPP_NOT_EQ => negb eq | _ => eq end in
  mk_num 0 (b2z eq) false false.

(** Shift NUM, of width PRECISION, right by N bits. *)
Definition num_rshift (num : cpp_num) (precision n : Z) : cpp_num :=
  let x := num_positive num precision in
  let sign_mask := if unsignedp num || x then 0 else not64 0 in
  let '(h, l) :=
    if precision <=? n then (sign_mask, sign_mask)
    else
      let '(h, l) :=
        if precision <? PART_PRECISION
        then (sign_mask, Z.lor (low num) (sign_mask << precision))
        else if precision <? 2 * PART_PRECISION
        then (Z.lor (high num) (sign_mask << (precision - PART_PRECISION)), low num)
        else (high num, low num) in
      let '(n, h, l) :=
        if PART_PRECISION <=? n then (n - PART_PRECISION, sign_mask, h) else (n, h, l) in
      if negb (n =? 0)
      then (Z.lor (h >> n) (sign_mask << (PART_PRECISION - n)),
            Z.lor (l >> n) (h << (PART_PRECISION - n)))
      else (h, l) in
  set_overflow false (num_trim (set_parts h l num) precision).

(** Shift NUM, of width PRECISION, left by N bits. *)
Definition num_lshift (num : cpp_num) (precision n : Z) : cpp_num :=
  if precision <=? n then
    mk_num 0 0 (unsignedp num) (negb (unsignedp num) && negb (num_zerop num))
  else
    let orig := num in
    let '(m, h, l) :=
      if PART_PRECISION <=? n then (n - PART_PRECISION, low num, 0)
      else (n, high num, low num) in
    let '(h, l) :=
      if negb (m =? 0)
      then (Z.lor (h << m) (l >> (PART_PRECISION - m)), l << m)
      else (h, l) in
    let num := num_trim (set_parts h l num) precision in
    if unsignedp num then set_overflow false num
    else
      let maybe_orig := num_rshift num precision n in
      set_overflow (negb (num_eq orig maybe_orig)) num.

(** The four unary operators: +, -, ! and ~. *)
Definition num_unary_op (o : cpp_options) (skip_eval : Z) (num : cpp_num) (op : cpp_ttype)
  : W cpp_num :=
  match op with
  | CPP_UPLUS =>
      when (cpp_warn_traditional o && (skip_eval =? 0))
        (cpp_warning CPP_W_TRADITIONAL "traditional C rejects the unary plus operator") ;;w
      mret (set_overflow false num)
  | CPP_UMINUS => mret (num_negate num (precision o))
  | CPP_COMPL =>
      mret (set_overflow false
              (num_trim (set_parts (not64 (high num)) (not64 (low num)) num) (precision o)))
  | _ => mret (mk_num 0 (b2z (num_zerop num)) false false)
  end.

(** The shift count of << and >>, after a negative count has been reversed. *)
Definition shift_count (rhs : cpp_num) : Z :=
  if negb (high rhs =? 0) then not64 0 else low rhs.

(** The various binary operators. *)
Definition num_binary_op (o : cpp_options) (skip_eval : Z) (lhs rhs : cpp_num)
    (op : cpp_ttype) : W cpp_num :=
  let p := precision o in
  match op with
  | CPP_LSHIFT | CPP_RSHIFT =>
      let '(op, rhs) :=
        if negb (unsignedp rhs) && negb (num_positive rhs p)
        then ((match op with CPP_LSHIFT => CPP_RSHIFT | _ => CPP_LSHIFT end),
              num_negate rhs p)
        else (op, rhs) in
      let n := shift_count rhs in
      mret (match op with
            | CPP_LSHIFT => num_lshift lhs p n
            | _ => num_rshift lhs p n
            end)
  | CPP_MINUS =>
      let l := u64 (low lhs - low rhs) in
      let h := u64 (high lhs - high rhs) in
      let h := if low lhs <? l then u64 (h - 1) else h in
      let result := num_trim (mk_num h l (unsignedp lhs || unsignedp rhs) false) p in
      mret (if negb (unsignedp result) then
              let lhsp := num_positive lhs p in
              set_overflow (negb (eqb lhsp (num_positive rhs p))
                            && negb (eqb lhsp (num_positive result p))) result
            else result)
  | CPP_PLUS =>
      let l := u64 (low lhs + low rhs) in
      let h := u64 (high lhs + high rhs) in
      let h := if l <? low lhs then u64 (h + 1) else h in
      let result := num_trim (mk_num h l (unsignedp lhs || unsignedp rhs) false) p in
      mret (if negb (unsignedp result) then
              let lhsp := num_positive lhs p in
              set_overflow (eqb lhsp (num_positive rhs p)
                            && negb (eqb lhsp (num_positive result p))) result
            else result)
  | _ =>
      when (cpp_pedantic o && (negb (c99 o) || (skip_eval =? 0)))
        (cpp_pedwarning CPP_W_PEDANTIC "comma operator in operand of #if") ;;w
      mret rhs
  end.

(** Multiplies two unsigned parts to give a double-word number. *)
Definition num_part_mul (lhs rhs : Z) : cpp_num :=
  let rl := u64 (LOW_PART lhs * LOW_PART rhs) in
  let rh := u64 (HIGH_PART lhs * HIGH_PART rhs) in
  let middle0 := u64 (LOW_PART lhs * HIGH_PART rhs) in
  let middle1 := u64 (HIGH_PART lhs * LOW_PART rhs) in
  let temp := rl in
  let rl := u64 (rl + (LOW_PART middle0 << (PART_PRECISION / 2))) in
  let rh := if rl <? temp then u64 (rh + 1) else rh in
  let temp := rl in
  let rl := u64 (rl + (LOW_PART middle1 << (PART_PRECISION / 2))) in
  let rh := if rl <? temp then u64 (rh + 1) else rh in
  let rh := u64 (rh + HIGH_PART middle0) in
  let rh := u64 (rh + HIGH_PART middle1) in
  mk_num rh rl true false.

(** Multiply two preprocessing numbers. *)
Definition num_mul (o : cpp_options) (lhs rhs : cpp_num) : cpp_num :=
  let p := precision o in
  let unsignedp' := unsignedp lhs || unsignedp rhs in
  let '(negate, lhs) :=
    if negb unsignedp' && negb (num_positive lhs p)
    then (true, num_negate lhs p) else (false, lhs) in
  let '(negate, rhs) :=
    if negb unsignedp' && negb (num_positive rhs p)
    then (negb negate, num_negate rhs p) else (negate, rhs) in
  let overflow0 := negb (high lhs =? 0) && negb (high rhs =? 0) in
  let result := num_part_mul (low lhs) (low rhs) in
  let temp1 := num_part_mul (high lhs) (low rhs) in
  let h1 := u64 (high result + low temp1) in
  let temp2 := num_part_mul (low lhs) (high rhs) in
  let h2 := u64 (h1 + low temp2) in
  let full := set_parts h2 (low result) result in
  let trimmed := num_trim full p in
  let overflow' := overflow0 || negb (high temp1 =? 0) || negb (high temp2 =? 0)
                   || negb (num_eq trimmed full) in
  let result := if negate then num_negate trimmed p else trimmed in
  let ov := if unsignedp' then false
            else overflow' || (xorb (num_positive result p) (negb negate)
                               && negb (num_zerop result)) in
  mk_num (high result) (low result) unsignedp' ov.

(** The search for the first nonzero bit of a part: [for (; ; i--, mask >>= 1)
    if (part & mask) break;].  The loop has no bound of its own, so it runs on
    fuel; [None] is a loop that has not returned. *)
Fixpoint find_high_bit (fuel : nat) (part mask i : Z) : option Z :=
  match fuel with
  | O => None
  | S fuel =>
      if negb (Z.land part mask =? 0) then Some i
      else find_high_bit fuel part (mask >> 1) (u64 (i - 1))
  end.

(** "Find the high bit": the index of the first nonzero bit of RHS.  [None]
    is a zero divisor, [Some None] a search that has not returned. *)
Definition div_high_bit (fuel : nat) (precision : Z) (rhs : cpp_num) : option (option Z) :=
  if negb (high rhs =? 0) then
    let i := precision - 1 in
    Some (find_high_bit fuel (high rhs) (1 << (i - PART_PRECISION)) i)
  else if negb (low rhs =? 0) then
    let i := if PART_PRECISION <? precision then precision - PART_PRECISION - 1
             else precision - 1 in
    Some (find_high_bit fuel (low rhs) (1 << i) i)
  else None.

(** The subtract-and-shift loop; [i] counts down to 0.  [div_step] is the
    conditional subtraction of one iteration. *)
Definition div_step (o : cpp_options) (i : Z) (lhs sub : cpp_num) (rh rl : Z)
  : cpp_num * Z * Z :=
  if num_greater_eq lhs sub (precision o) then
    let lhs := snd (num_binary_op o 0 lhs sub CPP_MINUS) in
    if PART_PRECISION <=? i
    then (lhs, Z.lor rh (1 << (i - PART_PRECISION)), rl)
    else (lhs, rh, Z.lor rl (1 << i))
  else (lhs, rh, rl).

Fixpoint div_loop (o : cpp_options) (i : nat) (lhs sub : cpp_num) (rh rl : Z)
  : cpp_num * Z * Z :=
  let '(lhs, rh, rl) := div_step o (Z.of_nat i) lhs sub rh rl in
  match i with
  | O => (lhs, rh, rl)
  | S i' =>
      let sub := set_parts (high sub >> 1)
                   (Z.lor (low sub >> 1) (high sub << (PART_PRECISION - 1))) sub in
      div_loop o i' lhs sub rh rl
  end.

(** Divide two preprocessing numbers, returning the quotient or the remainder
    depending upon OP.  [fuel] bounds the high-bit search. *)
Definition num_div_op (fuel : nat) (o : cpp_options) (skip_eval : Z) (lhs rhs : cpp_num)
    (op : cpp_ttype) : option (W cpp_num) :=
  let p := precision o in
  let unsignedp' := unsignedp lhs || unsignedp rhs in
  let '(negate, lhs_neg, lhs) :=
    if negb unsignedp' && negb (num_positive lhs p)
    then (true, true, num_negate lhs p) else (false, false, lhs) in
  let '(negate, rhs) :=
    if negb unsignedp' && negb (num_positive rhs p)
    then (negb negate, num_negate rhs p) else (negate, rhs) in
  match div_high_bit fuel p rhs with
  | None =>
      Some (when (skip_eval =? 0) (cpp_error CPP_DL_ERROR "division by zero in #if") ;;w
            mret lhs)
  | Some None => None
  | Some (Some i) =>
      let rhs := set_unsignedp true rhs in
      let lhs := set_unsignedp true lhs in
      let i := u64 (p - i - 1) in
      let sub := num_lshift rhs p i in
      let '(lhs, rh, rl) := div_loop o (Z.to_nat i) lhs sub 0 0 in
      Some (mret
        match op with
        | CPP_DIV =>
            let result := mk_num rh rl unsignedp' false in
            if negb unsignedp' then
              let result := if negate then num_negate result p else result in
              set_overflow (xorb (num_positive result p) (negb negate)
                            && negb (num_zerop result)) result
            else result
        | _ =>
            let lhs := mk_num (high lhs) (low lhs) unsignedp' false in
            if lhs_neg then num_negate lhs p else lhs
        end)
  end.

(** ** Abstract specification: integers of [p] bits in [Z] *)

(** The unsigned value of the two parts, and the well-formedness invariant the
    header of [struct cpp_num] states: unused high bits are zero. *)
Definition num_val (n : cpp_num) : Z := high n * 2 ^ 64 + low n.

Definition wf_parts (n : cpp_num) : Prop := 0 <= high n < 2 ^ 64 /\ 0 <= low n < 2 ^ 64.

Definition wf_num (p : Z) (n : cpp_num) : Prop := wf_parts n /\ num_val n < 2 ^ p.

(** Reduction to the range of a [p]-bit unsigned or signed type. *)
Definition to_signed (p z : Z) : Z :=
  let r := z mod 2 ^ p in if r <? 2 ^ (p - 1) then r else r - 2 ^ p.

Definition wrap_to (p : Z) (u : bool) (z : Z) : Z :=
  if u then z mod 2 ^ p else to_signed p z.

Definition fits (p : Z) (u : bool) (z : Z) : bool :=
  if u then (0 <=? z) && (z <? 2 ^ p) else (- 2 ^ (p - 1) <=? z) && (z <? 2 ^ (p - 1)).

Arguments fits : simpl never.

(** An abstract number: signedness, mathematical value, overflow flag. *)
Record anum : Type := mk_anum { a_uns : bool; a_val : Z; a_ovf : bool }.

(** The mathematical value of a number of precision [p]. *)
Definition ival (p : Z) (n : cpp_num) : Z := wrap_to p (unsignedp n) (num_val n).

Definition abs (p : Z) (n : cpp_num) : anum := mk_anum (unsignedp n) (ival p n) (overflow n).

(** An exact result [z] delivered in a [p]-bit type: it wraps, and signed
    overflow is flagged. *)
Definition deliver (p : Z) (u : bool) (z : Z) : anum :=
  mk_anum u (wrap_to p u z) (negb u && negb (fits p u z)).

Definition truth (b : bool) : anum := mk_anum false (b2z b) false.

(** The usual arithmetic conversions: both operands in the common type. *)
Definition common (a b : anum) : bool := a_uns a || a_uns b.
Definition conv (p : Z) (u : bool) (a : anum) : Z := wrap_to p u (a_val a).

Definition spec_arith (p : Z) (f : Z -> Z -> Z) (a b : anum) : anum :=
  let u := common a b in deliver p u (f (conv p u a) (conv p u b)).

Definition spec_compare (p : Z) (f : Z -> Z -> bool) (a b : anum) : anum :=
  let u := common a b in truth (f (conv p u a) (conv p u b)).

Definition spec_bitwise (p : Z) (f : Z -> Z -> Z) (a b : anum) : anum :=
  let u := common a b in mk_anum u (wrap_to p u (f (conv p u a) (conv p u b))) false.

(** A left shift multiplies by a power of two, a right shift is the floor
    quotient; a negative count shifts the other way. *)
Definition spec_shift (p : Z) (left : bool) (a : anum) (count : Z) : anum :=
  let left := if count <? 0 then negb left else left in
  if left then deliver p (a_uns a) (a_val a * 2 ^ Z.abs count)
  else mk_anum (a_uns a) (a_val a / 2 ^ Z.abs count) false.

(** ** Arithmetic of the specification *)

Lemma to_signed_cong p z : 1 <= p -> (to_signed p z) mod 2 ^ p = z mod 2 ^ p.
Proof.
  intros Hp. unfold to_signed. pose proof (pow2_gt0 p ltac:(lia)).
  destruct (_ <? _); [by rewrite Z.mod_mod by lia|].
  replace (z mod 2 ^ p - 2 ^ p) with (z mod 2 ^ p + (-1) * 2 ^ p) by lia.
  rewrite Z.mod_add, Z.mod_mod by lia. done.
Qed.

Lemma wrap_to_cong p u z : 1 <= p -> (wrap_to p u z) mod 2 ^ p = z mod 2 ^ p.
Proof.
  intros; destruct u; simpl; [|by apply to_signed_cong].
  pose proof (pow2_gt0 p ltac:(lia)). by rewrite Z.mod_mod by lia.
Qed.

(** [wrap_to] depends on its argument only modulo [2^p]. *)
Lemma wrap_to_eq p u x y : x mod 2 ^ p = y mod 2 ^ p -> wrap_to p u x = wrap_to p u y.
Proof. unfold wrap_to, to_signed; intros ->; done. Qed.

Lemma wrap_to_wrap p u v z : 1 <= p -> wrap_to p u (wrap_to p v z) = wrap_to p u z.
Proof. intros; apply wrap_to_eq, wrap_to_cong; lia. Qed.

Lemma to_signed_range p z : 1 <= p -> - 2 ^ (p - 1) <= to_signed p z < 2 ^ (p - 1).
Proof.
  intros Hp. unfold to_signed.
  pose proof (pow2_gt0 (p - 1) ltac:(lia)). pose proof (pow2_half p Hp).
  pose proof (Z.mod_pos_bound z (2 ^ p) ltac:(lia)). bsplit; lia.
Qed.

Lemma wrap_to_id p u z : 1 <= p -> fits p u z = true -> wrap_to p u z = z.
Proof.
  intros Hp Hf. pose proof (pow2_gt0 (p - 1) ltac:(lia)). pose proof (pow2_half p Hp).
  unfold fits, wrap_to, to_signed in *. destruct u; bprop.
  - apply Z.mod_small; lia.
  - destruct (Z.ltb_spec z 0).
    + replace (z mod 2 ^ p) with (z + 2 ^ p); [bsplit; lia|].
      symmetry. replace z with (z + 2 ^ p + (-1) * 2 ^ p) at 1 by lia.
      rewrite Z.mod_add by lia. apply Z.mod_small; lia.
    + rewrite Z.mod_small by lia. bsplit; lia.
Qed.

Lemma fits_wrap p u z : 1 <= p -> fits p u (wrap_to p u z) = true.
Proof.
  intros Hp. pose proof (pow2_gt0 p ltac:(lia)). destruct u; simpl; unfold fits.
  - pose proof (Z.mod_pos_bound z (2 ^ p)). bsplit; lia || done.
  - pose proof (to_signed_range p z Hp). bsplit; lia || done.
Qed.

Lemma fits_iff p u z : 1 <= p -> fits p u z = true <-> wrap_to p u z = z.
Proof.
  intros Hp; split; [by apply wrap_to_id|]. intros <-. by apply fits_wrap.
Qed.

(** Uniqueness: a congruent number in range is the wrapped one. *)
Lemma wrap_to_unique p u x z :
  1 <= p -> x mod 2 ^ p = z mod 2 ^ p -> fits p u x = true -> wrap_to p u z = x.
Proof. intros Hp He Hf. rewrite <- (wrap_to_eq p u x z He). by apply wrap_to_id. Qed.

(** ** The invariant *)

Lemma wf_num_range p n : wf_num p n -> 0 <= num_val n < 2 ^ p.
Proof. intros [[??] ?]; unfold num_val in *; lia. Qed.

Lemma ival_range p n : 1 <= p -> fits p (unsignedp n) (ival p n) = true.
Proof. intros; by apply fits_wrap. Qed.

(** The operands in the common type, read off the parts. *)
Lemma conv_abs p u n : 1 <= p -> conv p u (abs p n) = wrap_to p u (num_val n).
Proof. intros; unfold conv, abs, ival; simpl. by apply wrap_to_wrap. Qed.

Lemma high_small p n : wf_num p n -> p <= 64 -> high n = 0 /\ num_val n = low n.
Proof.
  intros [[[? ?] ?] Hv] Hp; unfold num_val in *.
  assert (2 ^ p <= 2 ^ 64).
  { destruct (Z.ltb_spec p 0); [rewrite Z.pow_neg_r by lia; lia|apply pow2_le; lia]. }
  assert (high n = 0) by nia. lia.
Qed.

Lemma high_bound p n : 64 <= p -> wf_num p n -> 0 <= high n < 2 ^ (p - 64).
Proof.
  intros Hp [[[? ?] ?] Hv]; unfold num_val in *. split; [lia|].
  replace p with ((p - 64) + 64) in Hv by lia. rewrite pow2_split in Hv by lia. nia.
Qed.

Lemma num_val_inj a b : wf_parts a -> wf_parts b -> num_val a = num_val b ->
  high a = high b /\ low a = low b.
Proof. unfold wf_parts, num_val; intros; split; nia. Qed.

Lemma num_eq_val a b : wf_parts a -> wf_parts b -> num_eq a b = (num_val a =? num_val b).
Proof.
  intros Ha Hb. unfold num_eq.
  destruct (Z.eqb_spec (num_val a) (num_val b)) as [E|E].
  - destruct (num_val_inj _ _ Ha Hb E) as [-> ->]. by rewrite !Z.eqb_refl.
  - unfold num_val in E. bsplit; simpl; congruence || done.
Qed.

Lemma num_zerop_val n : wf_parts n -> num_zerop n = (num_val n =? 0).
Proof.
  intros [? ?]; unfold num_zerop, num_val.
  destruct (Z.eqb_spec (Z.lor (low n) (high n)) 0) as [E|E].
  - apply Z.lor_eq_0_iff in E. bsplit; lia.
  - bsplit; [|done]. destruct E. apply Z.lor_eq_0_iff. lia.
Qed.

(** ** num_trim and num_positive *)

Lemma num_trim_spec n p : wf_parts n -> 1 <= p <= 128 ->
  wf_num p (num_trim n p) /\ num_val (num_trim n p) = num_val n mod 2 ^ p.
Proof.
  intros Hw Hp. pose proof Hw as [Hh Hl].
  assert (num_val (num_trim n p) = num_val n mod 2 ^ p /\ wf_parts (num_trim n p)) as [Hv Hw'].
  { unfold num_trim, PART_PRECISION, wf_parts, num_val.
    destruct (Z.ltb_spec 64 p).
    - destruct (Z.ltb_spec (p - 64) 64); simpl.
      + rewrite shl64_one, land_mask by lia.
        pose proof (Z.mod_pos_bound (high n) (2 ^ (p - 64)) ltac:(auto with cpp zarith)).
        pose proof (pow2_lt (p - 64) 64 ltac:(lia)).
        split; [|lia].
        replace p with (64 + (p - 64)) at 2 by lia. rewrite pow2_split by lia.
        rewrite Z.rem_mul_r by (pose proof (pow2_gt0 (p - 64)); lia).
        rewrite div_parts, mod_parts by lia. lia.
      + assert (p = 128) as -> by lia. split; [|done].
        symmetry; apply Z.mod_small. change (2 ^ 128) with (2 ^ 64 * 2 ^ 64). nia.
    - simpl. destruct (Z.ltb_spec p 64).
      + rewrite shl64_one, land_mask by lia.
        pose proof (Z.mod_pos_bound (low n) (2 ^ p) ltac:(auto with cpp zarith)).
        pose proof (pow2_lt p 64 ltac:(lia)). split; [|lia].
        assert (2 ^ 64 = 2 ^ (64 - p) * 2 ^ p) as E
          by (rewrite <- pow2_split by lia; f_equal; lia).
        rewrite Z.mul_0_l, Z.add_0_l.
        rewrite (Z.add_comm (high n * 2 ^ 64)), E, Z.mul_assoc, Z.mod_add by lia. lia.
      + assert (p = 64) as -> by lia. split; [|lia].
        rewrite mod_parts by lia. lia. }
  split; [|done]. split; [done|]. rewrite Hv.
  apply Z.mod_pos_bound; auto with cpp zarith.
Qed.

Lemma num_trim_flags n p :
  unsignedp (num_trim n p) = unsignedp n /\ overflow (num_trim n p) = overflow n.
Proof. unfold num_trim. repeat case_match; done. Qed.

Lemma num_positive_val p n : 1 <= p <= 128 -> wf_num p n ->
  num_positive n p = (num_val n <? 2 ^ (p - 1)).
Proof.
  intros Hp Hw. unfold num_positive, PART_PRECISION.
  destruct (Z.ltb_spec 64 p).
  - pose proof (high_bound p n ltac:(lia) Hw). rewrite shl64_one, land_bit_eqb by lia.
    rewrite testbit_top by (replace (p - 64 - 1 + 1) with (p - 64) by lia; lia).
    unfold num_val. destruct Hw as [[? ?] ?].
    replace (p - 1) with ((p - 64 - 1) + 64) by lia. rewrite pow2_split by lia.
    bsplit; simpl; try done; nia.
  - destruct (high_small p n Hw ltac:(lia)) as [_ ->]. destruct Hw as [[? ?] Hv].
    rewrite shl64_one, land_bit_eqb by lia.
    destruct (high_small p n ltac:(done) ltac:(lia)) as [_ Hlow].
    rewrite testbit_top by (replace (p - 1 + 1) with p by lia; lia).
    bsplit; simpl; lia || done.
Qed.

(** Sign of the signed reading. *)
Lemma num_positive_signed p n : 1 <= p <= 128 -> wf_num p n ->
  num_positive n p = (0 <=? to_signed p (num_val n)).
Proof.
  intros Hp Hw. rewrite (num_positive_val p) by done. unfold to_signed.
  pose proof (wf_num_range p n Hw). rewrite Z.mod_small by lia. bsplit; lia || done.
Qed.

(** ** Results modulo [2^p] *)

(** Congruence modulo [2^128] is congruence modulo [2^p]. *)
Lemma cong_narrow p x y : 0 <= p <= 128 ->
  x mod 2 ^ 128 = y mod 2 ^ 128 -> x mod 2 ^ p = y mod 2 ^ p.
Proof.
  intros Hp H.
  assert (2 ^ 128 = 2 ^ p * 2 ^ (128 - p)) as E
    by (rewrite <- pow2_split by lia; f_equal; lia).
  pose proof (pow2_gt0 p ltac:(lia)). pose proof (pow2_gt0 (128 - p) ltac:(lia)).
  rewrite E in H. apply (f_equal (fun z => z mod 2 ^ p)) in H.
  rewrite !Z.rem_mul_r in H by lia.
  rewrite !(Z.mul_comm (2 ^ p)), !Z.mod_add, !Z.mod_mod in H by lia. done.
Qed.

(** The overflow flag is no part of the value. *)
Lemma ival_set_overflow p b n : ival p (set_overflow b n) = ival p n.
Proof. done. Qed.

(** A trimmed number holds the exact result reduced to the type. *)
Lemma trim_ival p n z : 1 <= p <= 128 -> wf_parts n ->
  num_val n mod 2 ^ 128 = z mod 2 ^ 128 ->
  wf_num p (num_trim n p) /\
  num_val (num_trim n p) = z mod 2 ^ p /\
  ival p (num_trim n p) = wrap_to p (unsignedp n) z.
Proof.
  intros Hp Hw Hz. destruct (num_trim_spec n p Hw Hp) as [Hwf Hv].
  split; [done|]. rewrite Hv, (cong_narrow p _ z) by (lia || done). split; [done|].
  unfold ival. rewrite (proj1 (num_trim_flags n p)), Hv.
  apply wrap_to_eq. rewrite Z.mod_mod by (pose proof (pow2_gt0 p); lia).
  apply cong_narrow; lia || done.
Qed.

(** Overflow of a signed result, read off the exact value. *)
Lemma signed_fits p z : 1 <= p ->
  fits p false z = (- 2 ^ (p - 1) <=? z) && (z <? 2 ^ (p - 1)).
Proof. done. Qed.

(** ** Negation *)

Lemma negate_parts h l : 0 <= h < 2 ^ 64 -> 0 <= l < 2 ^ 64 ->
  let l' := u64 (not64 l + 1) in
  let h' := if l' =? 0 then u64 (not64 h + 1) else not64 h in
  0 <= h' < 2 ^ 64 /\ 0 <= l' < 2 ^ 64 /\
  (h' * 2 ^ 64 + l') mod 2 ^ 128 = (- (h * 2 ^ 64 + l)) mod 2 ^ 128.
Proof.
  intros Hh Hl. cbv zeta. unfold not64, u64, wrapu.
  assert ((2 ^ 64 - 1 - l + 1) mod 2 ^ 64 = if l =? 0 then 0 else 2 ^ 64 - l) as ->.
  { destruct (Z.eqb_spec l 0) as [->|]; [done|]. rewrite Z.mod_small; lia. }
  assert ((2 ^ 64 - 1 - h + 1) mod 2 ^ 64 = if h =? 0 then 0 else 2 ^ 64 - h) as ->.
  { destruct (Z.eqb_spec h 0) as [->|]; [done|]. rewrite Z.mod_small; lia. }
  destruct (Z.eqb_spec l 0) as [->|].
  - rewrite Z.eqb_refl. destruct (Z.eqb_spec h 0) as [->|]; [done|].
    repeat split; try lia.
    replace (- (h * 2 ^ 64 + 0)) with ((2 ^ 64 - h) * 2 ^ 64 + 0 + (-1) * 2 ^ 128) by lia.
    by rewrite Z.mod_add by lia.
  - destruct (Z.eqb_spec (2 ^ 64 - l) 0); [lia|]. repeat split; try lia.
    replace (- (h * 2 ^ 64 + l))
      with ((2 ^ 64 - 1 - h) * 2 ^ 64 + (2 ^ 64 - l) + (-1) * 2 ^ 128) by lia.
    by rewrite Z.mod_add by lia.
Qed.

(** The value of a negation, and when it equals its operand. *)
Lemma neg_mod_fix p v : 1 <= p -> 0 <= v < 2 ^ p ->
  ((- v) mod 2 ^ p =? v) && negb ((- v) mod 2 ^ p =? 0) = (v =? 2 ^ (p - 1)).
Proof.
  intros Hp Hv. pose proof (pow2_half p Hp). pose proof (pow2_gt0 (p - 1) ltac:(lia)).
  destruct (Z.eqb_spec v 0) as [->|].
  - change (- 0) with 0. rewrite Z.mod_0_l by lia. bsplit; simpl; lia || done.
  - assert ((- v) mod 2 ^ p = 2 ^ p - v) as ->.
    { replace (- v) with (2 ^ p - v + (-1) * 2 ^ p) by lia.
      rewrite Z.mod_add by lia. apply Z.mod_small; lia. }
    bsplit; simpl; lia || done.
Qed.

Lemma num_negate_spec p n : 1 <= p <= 128 -> wf_num p n ->
  wf_num p (num_negate n p) /\
  num_val (num_negate n p) = (- num_val n) mod 2 ^ p /\
  unsignedp (num_negate n p) = unsignedp n /\
  overflow (num_negate n p) = negb (unsignedp n) && (num_val n =? 2 ^ (p - 1)).
Proof.
  intros Hp Hw. pose proof (wf_num_range p n Hw) as Hr. destruct Hw as [Hwp Hlt].
  pose proof (negate_parts (high n) (low n) (proj1 Hwp) (proj2 Hwp)) as (Hh & Hl & Hc).
  cbv zeta in Hh, Hc. unfold num_negate. cbv zeta.
  set (l' := u64 (not64 (low n) + 1)) in *.
  set (h' := if l' =? 0 then u64 (not64 (high n) + 1) else not64 (high n)) in *.
  destruct (trim_ival p (set_parts h' l' n) (- num_val n)) as (Hwf & Hv & _);
    [lia|done|done|].
  destruct (num_trim_flags (set_parts h' l' n) p) as [Hu _].
  set (t := num_trim (set_parts h' l' n) p) in *.
  change (wf_num p t /\ num_val t = (- num_val n) mod 2 ^ p /\ unsignedp t = unsignedp n /\
    negb (unsignedp t) && num_eq t n && negb (num_zerop t)
    = negb (unsignedp n) && (num_val n =? 2 ^ (p - 1))).
  rewrite num_eq_val, num_zerop_val, Hv, Hu by (done || apply Hwf).
  split; [done|]. split; [done|]. split; [done|].
  change (unsignedp (set_parts h' l' n)) with (unsignedp n).
  rewrite <- andb_assoc, neg_mod_fix by lia. done.
Qed.

Lemma neg_fits p n : 1 <= p <= 128 -> wf_num p n -> unsignedp n = false ->
  negb (fits p false (- ival p n)) = (num_val n =? 2 ^ (p - 1)).
Proof.
  intros Hp Hw Hu. pose proof (wf_num_range p n Hw).
  pose proof (pow2_half p ltac:(lia)). pose proof (pow2_gt0 (p - 1) ltac:(lia)).
  unfold ival; rewrite Hu; simpl. unfold to_signed. rewrite Z.mod_small by lia.
  unfold fits. bsplit; simpl; lia || done.
Qed.

Lemma num_negate_abs p n : 1 <= p <= 128 -> wf_num p n ->
  abs p (num_negate n p) = deliver p (unsignedp n) (- ival p n).
Proof.
  intros Hp Hw. destruct (num_negate_spec p n Hp Hw) as (_ & Hv & Hu & Ho).
  unfold abs, deliver. rewrite Hu, Ho. f_equal.
  - unfold ival. rewrite Hu, Hv. apply wrap_to_eq.
    rewrite Z.mod_mod by (pose proof (pow2_gt0 p); lia).
    apply cong_opp. by rewrite wrap_to_cong by lia.
  - destruct (unsignedp n) eqn:E; [done|].
    change (negb false) with true. by rewrite !andb_true_l, (neg_fits p) by done.
Qed.

(** ** Addition and subtraction *)

Lemma to_signed_near p z : 1 <= p -> - 2 ^ p <= z < 2 ^ p ->
  to_signed p z = if z <? - 2 ^ (p - 1) then z + 2 ^ p
                  else if z <? 2 ^ (p - 1) then z else z - 2 ^ p.
Proof.
  intros Hp Hz. pose proof (pow2_half p Hp). pose proof (pow2_gt0 (p - 1) ltac:(lia)).
  change (to_signed p z) with (wrap_to p false z).
  destruct (Z.ltb_spec z (- 2 ^ (p - 1))); [|destruct (Z.ltb_spec z (2 ^ (p - 1)))].
  - apply wrap_to_unique; [lia| |unfold fits; bsplit; lia || done].
    replace (z + 2 ^ p) with (z + 1 * 2 ^ p) by lia. by apply Z.mod_add; lia.
  - apply wrap_to_unique; [lia|done|unfold fits; bsplit; lia || done].
  - apply wrap_to_unique; [lia| |unfold fits; bsplit; lia || done].
    replace (z - 2 ^ p) with (z + (-1) * 2 ^ p) by lia. by apply Z.mod_add; lia.
Qed.

Lemma add_overflow p a b : 1 <= p ->
  let sa := to_signed p a in let sb := to_signed p b in
  eqb (0 <=? sa) (0 <=? sb) && negb (eqb (0 <=? sa) (0 <=? to_signed p (sa + sb)))
  = negb (fits p false (sa + sb)).
Proof.
  intros Hp sa sb. pose proof (to_signed_range p a Hp). pose proof (to_signed_range p b Hp).
  fold sa sb in H, H0. pose proof (pow2_half p Hp).
  rewrite to_signed_near by lia. unfold fits. bsplit; simpl; lia || done.
Qed.

Lemma sub_overflow p a b : 1 <= p ->
  let sa := to_signed p a in let sb := to_signed p b in
  negb (eqb (0 <=? sa) (0 <=? sb)) && negb (eqb (0 <=? sa) (0 <=? to_signed p (sa - sb)))
  = negb (fits p false (sa - sb)).
Proof.
  intros Hp sa sb. pose proof (to_signed_range p a Hp). pose proof (to_signed_range p b Hp).
  fold sa sb in H, H0. pose proof (pow2_half p Hp).
  rewrite to_signed_near by lia. unfold fits. bsplit; simpl; lia || done.
Qed.

(** A wrapped sum or difference, as a sum or difference plus a carry. *)
Lemma mod_add_carry m x y : 0 <= x < m -> 0 <= y < m ->
  (x + y) mod m = if (x + y) mod m <? x then x + y - m else x + y.
Proof.
  intros Hx Hy. destruct (Z.ltb_spec (x + y) m).
  - rewrite Z.mod_small by lia. bsplit; lia.
  - replace (x + y) with (x + y - m + 1 * m) at 1 2 by lia.
    rewrite Z.mod_add, Z.mod_small by lia. bsplit; lia.
Qed.

Lemma mod_sub_borrow m x y : 0 <= x < m -> 0 <= y < m ->
  (x - y) mod m = if x <? (x - y) mod m then x - y + m else x - y.
Proof.
  intros Hx Hy. destruct (Z.ltb_spec (x - y) 0).
  - replace (x - y) with (x - y + m + (-1) * m) at 1 2 by lia.
    rewrite Z.mod_add, Z.mod_small by lia. bsplit; lia.
  - rewrite Z.mod_small by lia. bsplit; lia.
Qed.

Lemma high_mod h l : ((h mod 2 ^ 64) * 2 ^ 64 + l) mod 2 ^ 128 = (h * 2 ^ 64 + l) mod 2 ^ 128.
Proof.
  apply mod_eq_diff; [lia|]. apply Z.mod_divide; [lia|].
  exists (- (h / 2 ^ 64)). pose proof (Z.div_mod h (2 ^ 64)). lia.
Qed.

Lemma add_parts ha la hb lb :
  0 <= ha < 2 ^ 64 -> 0 <= la < 2 ^ 64 -> 0 <= hb < 2 ^ 64 -> 0 <= lb < 2 ^ 64 ->
  let l := u64 (la + lb) in
  let h := if l <? la then u64 (u64 (ha + hb) + 1) else u64 (ha + hb) in
  0 <= h < 2 ^ 64 /\ 0 <= l < 2 ^ 64 /\
  (h * 2 ^ 64 + l) mod 2 ^ 128 = ((ha * 2 ^ 64 + la) + (hb * 2 ^ 64 + lb)) mod 2 ^ 128.
Proof.
  intros Hha Hla Hhb Hlb. cbv zeta.
  split; [destruct (_ <? _); apply u64_range|]. split; [apply u64_range|].
  unfold u64, wrapu. pose proof (mod_add_carry (2 ^ 64) la lb Hla Hlb) as Hc.
  destruct ((la + lb) mod 2 ^ 64 <? la); rewrite Hc, ?Zplus_mod_idemp_l, high_mod; f_equal; lia.
Qed.

Lemma sub_parts ha la hb lb :
  0 <= ha < 2 ^ 64 -> 0 <= la < 2 ^ 64 -> 0 <= hb < 2 ^ 64 -> 0 <= lb < 2 ^ 64 ->
  let l := u64 (la - lb) in
  let h := if la <? l then u64 (u64 (ha - hb) - 1) else u64 (ha - hb) in
  0 <= h < 2 ^ 64 /\ 0 <= l < 2 ^ 64 /\
  (h * 2 ^ 64 + l) mod 2 ^ 128 = ((ha * 2 ^ 64 + la) - (hb * 2 ^ 64 + lb)) mod 2 ^ 128.
Proof.
  intros Hha Hla Hhb Hlb. cbv zeta.
  split; [destruct (_ <? _); apply u64_range|]. split; [apply u64_range|].
  unfold u64, wrapu. pose proof (mod_sub_borrow (2 ^ 64) la lb Hla Hlb) as Hc.
  destruct (la <? (la - lb) mod 2 ^ 64); rewrite Hc, ?Zminus_mod_idemp_l, high_mod; f_equal; lia.
Qed.

(** The operand values in the common type, for the two signedness cases. *)
Lemma spec_arith_abs p f a b : 1 <= p ->
  spec_arith p f (abs p a) (abs p b) =
  let u := unsignedp a || unsignedp b in
  deliver p u (f (wrap_to p u (num_val a)) (wrap_to p u (num_val b))).
Proof. intros. unfold spec_arith, common. rewrite !conv_abs by lia. done. Qed.

(** The sign of a trimmed result, from the exact value in the signed type. *)
Lemma trim_positive p n z : 1 <= p <= 128 -> wf_parts n ->
  num_val n mod 2 ^ 128 = z mod 2 ^ 128 ->
  forall y, z mod 2 ^ p = y mod 2 ^ p ->
  num_positive (num_trim n p) p = (0 <=? to_signed p y).
Proof.
  intros Hp Hw Hz y Hy. destruct (trim_ival p n z Hp Hw Hz) as (Hwf & Hv & _).
  rewrite (num_positive_signed p) by done. rewrite Hv.
  change (to_signed p) with (wrap_to p false). f_equal. apply wrap_to_eq.
  by rewrite Z.mod_mod by (pose proof (pow2_gt0 p); lia).
Qed.

(** Addition and subtraction end alike: trim, then set the overflow flag of a
    signed result. *)
Lemma arith_result p f n a b ovf : 1 <= p <= 128 -> wf_parts n ->
  unsignedp n = unsignedp a || unsignedp b -> overflow n = false ->
  num_val n mod 2 ^ 128 = f (num_val a) (num_val b) mod 2 ^ 128 ->
  (forall u, f (num_val a) (num_val b) mod 2 ^ p
             = f (wrap_to p u (num_val a)) (wrap_to p u (num_val b)) mod 2 ^ p) ->
  ovf = negb (fits p false (f (to_signed p (num_val a)) (to_signed p (num_val b)))) ->
  let t := num_trim n p in
  let r := if negb (unsignedp t) then set_overflow ovf t else t in
  wf_num p r /\ abs p r = spec_arith p f (abs p a) (abs p b).
Proof.
  intros Hp Hw Hu0 Ho0 Hc Hf Hov. cbv zeta. rewrite spec_arith_abs by lia. cbv zeta.
  destruct (trim_ival p n _ Hp Hw Hc) as (Hwf & Hv & Hi).
  destruct (num_trim_flags n p) as [Hu Ho]. set (t := num_trim n p) in *.
  rewrite Hu0 in Hu. rewrite Hu. specialize (Hf (unsignedp a || unsignedp b)).
  rewrite Hu0, (wrap_to_eq _ _ _ _ Hf) in Hi.
  destruct (unsignedp a || unsignedp b) eqn:Eu; simpl negb; cbv iota; (split; [done|]);
    unfold abs, deliver; simpl unsignedp; rewrite Hu; f_equal; try done.
  by rewrite Ho.
Qed.

Lemma num_plus_abs o sk a b : 1 <= precision o <= 128 ->
  wf_num (precision o) a -> wf_num (precision o) b ->
  let r := snd (num_binary_op o sk a b CPP_PLUS) in
  wf_num (precision o) r /\
  abs (precision o) r = spec_arith (precision o) Z.add (abs (precision o) a) (abs (precision o) b).
Proof.
  set (p := precision o). intros Hp Ha Hb. pose proof Ha as [[??]?]. pose proof Hb as [[??]?].
  destruct (add_parts (high a) (low a) (high b) (low b)) as (Hh & Hl & Hc); try done.
  apply arith_result; try done; fold p.
  - intros u. apply cong_add; by rewrite wrap_to_cong by lia.
  - rewrite !(num_positive_signed p) by done. rewrite <- add_overflow by lia. do 3 f_equal.
    eapply trim_positive; [done|done|exact Hc|].
    apply cong_add; by rewrite to_signed_cong by lia.
Qed.

Lemma num_minus_abs o sk a b : 1 <= precision o <= 128 ->
  wf_num (precision o) a -> wf_num (precision o) b ->
  let r := snd (num_binary_op o sk a b CPP_MINUS) in
  wf_num (precision o) r /\
  abs (precision o) r = spec_arith (precision o) Z.sub (abs (precision o) a) (abs (precision o) b).
Proof.
  set (p := precision o). intros Hp Ha Hb. pose proof Ha as [[??]?]. pose proof Hb as [[??]?].
  destruct (sub_parts (high a) (low a) (high b) (low b)) as (Hh & Hl & Hc); try done.
  apply arith_result; try done; fold p.
  - intros u. apply cong_sub; by rewrite wrap_to_cong by lia.
  - rewrite !(num_positive_signed p) by done. rewrite <- sub_overflow by lia. do 3 f_equal.
    eapply trim_positive; [done|done|exact Hc|].
    apply cong_sub; by rewrite to_signed_cong by lia.
Qed.

(** ** Comparisons *)

Lemma truth_abs p b : 2 <= p -> abs p (mk_num 0 (b2z b) false false) = truth b.
Proof.
  intros Hp. unfold abs, truth, ival, num_val. simpl. f_equal.
  apply (wrap_to_id p false); [lia|]. pose proof (pow2_le 1 (p - 1) ltac:(lia)).
  unfold fits. destruct b; simpl in *; bsplit; simpl; lia || done.
Qed.

Lemma truth_wf p b : 2 <= p -> wf_num p (mk_num 0 (b2z b) false false).
Proof.
  intros Hp. pose proof (pow2_le 2 p ltac:(lia)).
  unfold wf_num, wf_parts, num_val. destruct b; simpl in *; lia.
Qed.

Lemma unsigned_cmp_val a b : wf_parts a -> wf_parts b ->
  (high b <? high a) || ((high a =? high b) && (low b <=? low a)) = (num_val b <=? num_val a).
Proof. unfold wf_parts, num_val. intros. bsplit; simpl; nia || done. Qed.

Lemma wrap_to_inj p u x y : 1 <= p -> 0 <= x < 2 ^ p -> 0 <= y < 2 ^ p ->
  (wrap_to p u x =? wrap_to p u y) = (x =? y).
Proof.
  intros Hp Hx Hy. destruct (Z.eqb_spec x y) as [->|Hne]; [by apply Z.eqb_refl|].
  apply Z.eqb_neq. intros H. apply (f_equal (fun z => z mod 2 ^ p)) in H.
  rewrite !wrap_to_cong, !Z.mod_small in H by lia. done.
Qed.

Lemma num_greater_eq_spec p a b : 1 <= p <= 128 -> wf_num p a -> wf_num p b ->
  let u := unsignedp a || unsignedp b in
  num_greater_eq a b p = (wrap_to p u (num_val b) <=? wrap_to p u (num_val a)).
Proof.
  intros Hp Ha Hb. cbv zeta. unfold num_greater_eq.
  pose proof (wf_num_range p a Ha). pose proof (wf_num_range p b Hb).
  rewrite unsigned_cmp_val by (apply Ha || apply Hb).
  destruct (unsignedp a || unsignedp b); simpl wrap_to.
  - by rewrite !Z.mod_small by lia.
  - rewrite !(num_positive_val p) by done. unfold to_signed. rewrite !Z.mod_small by lia.
    bsplit; simpl; lia || done.
Qed.

Lemma num_eq_spec p u a b : 1 <= p -> wf_num p a -> wf_num p b ->
  num_eq a b = (wrap_to p u (num_val a) =? wrap_to p u (num_val b)).
Proof.
  intros Hp Ha Hb. rewrite num_eq_val by (apply Ha || apply Hb).
  rewrite wrap_to_inj by (lia || by apply wf_num_range). done.
Qed.

(** ** Bitwise operators *)

(** A binary operation that acts bit by bit. *)
Class Bitop (f : Z -> Z -> Z) (g : bool -> bool -> bool) : Prop := {
  bitop_spec : forall x y i, 0 <= i -> Z.testbit (f x y) i = g (Z.testbit x i) (Z.testbit y i);
  bitop_zero : g false false = false
}.

#[export] Instance land_bitop : Bitop Z.land andb.
Proof. split; [intros; apply Z.land_spec|done]. Qed.
#[export] Instance lor_bitop : Bitop Z.lor orb.
Proof. split; [intros; apply Z.lor_spec|done]. Qed.
#[export] Instance lxor_bitop : Bitop Z.lxor xorb.
Proof. split; [intros; apply Z.lxor_spec|done]. Qed.

Section bitops.
Context {f : Z -> Z -> Z} {g : bool -> bool -> bool} {BO : Bitop f g}.

Lemma bitop_mod p x y : 0 <= p -> (f x y) mod 2 ^ p = f (x mod 2 ^ p) (y mod 2 ^ p).
Proof.
  intros Hp. apply Z.bits_inj'; intros i Hi. destruct (Z.ltb_spec i p).
  - rewrite Z.mod_pow2_bits_low, !bitop_spec, !Z.mod_pow2_bits_low by lia. done.
  - rewrite Z.mod_pow2_bits_high, bitop_spec, !Z.mod_pow2_bits_high by lia.
    by rewrite bitop_zero.
Qed.

Lemma bitop_small p x y : 0 <= p -> 0 <= x < 2 ^ p -> 0 <= y < 2 ^ p -> 0 <= f x y < 2 ^ p.
Proof.
  intros Hp Hx Hy. rewrite <- (Z.mod_small x (2 ^ p)), <- (Z.mod_small y (2 ^ p)) by lia.
  rewrite <- bitop_mod by lia. apply Z.mod_pos_bound; auto with cpp.
Qed.

Lemma bitop_parts ha la hb lb :
  0 <= la < 2 ^ 64 -> 0 <= lb < 2 ^ 64 ->
  f (ha * 2 ^ 64 + la) (hb * 2 ^ 64 + lb) = f ha hb * 2 ^ 64 + f la lb.
Proof.
  intros Hla Hlb. pose proof (bitop_small 64 la lb ltac:(lia) Hla Hlb).
  rewrite <- !lor_low by lia. apply Z.bits_inj'; intros i Hi.
  rewrite bitop_spec, !Z.lor_spec by lia. destruct (Z.ltb_spec i 64).
  - rewrite !Z.mul_pow2_bits_low, !orb_false_l by lia. by rewrite bitop_spec by lia.
  - rewrite !Z.mul_pow2_bits, (bits_above 64 la), (bits_above 64 lb),
      (bits_above 64 (f la lb)) by lia.
    rewrite !orb_false_r. by rewrite bitop_spec by lia.
Qed.

Lemma bitop_abs p a b : 1 <= p <= 128 -> wf_num p a -> wf_num p b ->
  let r := mk_num (f (high a) (high b)) (f (low a) (low b)) (unsignedp a || unsignedp b) false in
  wf_num p r /\ abs p r = spec_bitwise p f (abs p a) (abs p b).
Proof.
  intros Hp Ha Hb. pose proof (wf_num_range p a Ha). pose proof (wf_num_range p b Hb).
  destruct Ha as [[??]?], Hb as [[??]?].
  set (r := mk_num _ _ _ _).
  assert (num_val r = f (num_val a) (num_val b)) as Hv
    by (unfold num_val; by rewrite bitop_parts).
  cbv zeta. split; [split; [split; apply (bitop_small 64); done || lia|]|].
  - rewrite Hv. apply (bitop_small p); lia.
  - unfold spec_bitwise, common. rewrite !conv_abs by lia. unfold abs. f_equal.
    unfold ival. rewrite Hv. apply wrap_to_eq.
    rewrite !bitop_mod, !wrap_to_cong by lia. done.
Qed.
End bitops.

(** ** Complement *)

Lemma not_parts h l : 0 <= h < 2 ^ 64 -> 0 <= l < 2 ^ 64 ->
  0 <= not64 h < 2 ^ 64 /\ 0 <= not64 l < 2 ^ 64 /\
  (not64 h * 2 ^ 64 + not64 l) mod 2 ^ 128 = (- (h * 2 ^ 64 + l) - 1) mod 2 ^ 128.
Proof.
  unfold not64. intros. repeat split; try lia.
  replace (- (h * 2 ^ 64 + l) - 1)
    with ((2 ^ 64 - 1 - h) * 2 ^ 64 + (2 ^ 64 - 1 - l) + (-1) * 2 ^ 128) by lia.
  by rewrite Z.mod_add by lia.
Qed.

Lemma num_compl_abs o sk a : 1 <= precision o <= 128 -> wf_num (precision o) a ->
  let p := precision o in
  let r := snd (num_unary_op o sk a CPP_COMPL) in
  wf_num p r /\ abs p r = mk_anum (unsignedp a) (wrap_to p (unsignedp a) (- ival p a - 1)) false.
Proof.
  set (p := precision o). intros Hp [[Hh Hl] Hv]. cbv zeta. fold p.
  destruct (not_parts _ _ Hh Hl) as (Hh' & Hl' & Hc).
  set (n := set_parts (not64 (high a)) (not64 (low a)) a).
  destruct (trim_ival p n _ Hp (conj Hh' Hl') Hc) as (Hwf & _ & Hi).
  change (snd (num_unary_op o sk a CPP_COMPL)) with (set_overflow false (num_trim n p)).
  split; [done|]. unfold abs. simpl unsignedp. rewrite (proj1 (num_trim_flags n p)).
  rewrite ival_set_overflow, Hi. f_equal. apply wrap_to_eq. apply cong_sub; [|done]. apply cong_opp.
  unfold ival. by rewrite wrap_to_cong by lia.
Qed.

(** ** Shifts *)

(** Shifting two adjacent words right, keeping the lower one. *)
Lemma shr_word h l k : 0 <= l < 2 ^ 64 -> 0 < k < 64 ->
  Z.lor (l >> k) (h << (64 - k)) = ((h * 2 ^ 64 + l) / 2 ^ k) mod 2 ^ 64.
Proof.
  intros Hl Hk. rewrite shr64_div, shl64_mul by lia.
  assert (2 ^ 64 = 2 ^ k * 2 ^ (64 - k)) as E by (rewrite <- pow2_split by lia; f_equal; lia).
  pose proof (pow2_gt0 k ltac:(lia)). pose proof (pow2_gt0 (64 - k) ltac:(lia)).
  assert (0 <= l / 2 ^ k < 2 ^ (64 - k)).
  { split; [apply Z.div_pos; lia|]. apply Z.div_lt_upper_bound; lia. }
  replace (h * 2 ^ 64 + l) with (h * 2 ^ (64 - k) * 2 ^ k + l) by (rewrite E; lia).
  rewrite Z.div_add_l by lia. rewrite E, Zmult_mod_distr_r, Z.lor_comm, lor_low by lia.
  rewrite (Z.mul_comm (2 ^ k)), Z.rem_mul_r by lia.
  rewrite (mod_parts h (l / 2 ^ k)), (div_parts h (l / 2 ^ k)) by lia. lia.
Qed.

(** Three words [(s, h, l)] shifted right by less than a word: the lower two. *)
Lemma shr_words s h l k : 0 <= h < 2 ^ 64 -> 0 <= l < 2 ^ 64 -> 0 < k < 64 ->
  Z.lor (h >> k) (s << (64 - k)) * 2 ^ 64 + Z.lor (l >> k) (h << (64 - k))
  = ((s * 2 ^ 128 + (h * 2 ^ 64 + l)) / 2 ^ k) mod 2 ^ 128.
Proof.
  intros Hh Hl Hk. rewrite !shr_word by lia. pose proof (pow2_gt0 k ltac:(lia)).
  set (t := s * 2 ^ 128 + (h * 2 ^ 64 + l)).
  change (2 ^ 128) with (2 ^ 64 * 2 ^ 64). rewrite (Z.rem_mul_r (t / 2 ^ k)) by lia.
  assert (t / 2 ^ k / 2 ^ 64 = (s * 2 ^ 64 + h) / 2 ^ k) as ->.
  { rewrite Z.div_div, (Z.mul_comm (2 ^ k)), <- Z.div_div by lia. f_equal.
    unfold t. replace (s * 2 ^ 128 + (h * 2 ^ 64 + l)) with ((s * 2 ^ 64 + h) * 2 ^ 64 + l) by lia.
    by apply div_parts. }
  assert ((t / 2 ^ k) mod 2 ^ 64 = ((h * 2 ^ 64 + l) / 2 ^ k) mod 2 ^ 64) as ->; [|lia].
  unfold t. replace (s * 2 ^ 128) with (s * 2 ^ (64 - k) * 2 ^ 64 * 2 ^ k)
    by (rewrite <- !Z.mul_assoc, <- !pow2_split by lia; do 2 f_equal; lia).
  rewrite Z.div_add_l, Z.add_comm, Z.mod_add by lia. done.
Qed.

(** The sign word of a number: all ones below a negative value. *)
Definition sign_word (p : Z) (n : cpp_num) : Z :=
  if unsignedp n || num_positive n p then 0 else not64 0.

(** The parts after sign extension to the full double word. *)
Definition extended (p : Z) (n : cpp_num) : Z * Z :=
  let sm := sign_word p n in
  if p <? PART_PRECISION then (sm, Z.lor (low n) (sm << p))
  else if p <? 2 * PART_PRECISION
  then (Z.lor (high n) (sm << (p - PART_PRECISION)), low n)
  else (high n, low n).

Lemma lor_ones_high x k : 0 <= x < 2 ^ k -> 0 <= k < 64 ->
  Z.lor x (not64 0 << k) = x + (2 ^ 64 - 2 ^ k).
Proof.
  intros Hx Hk. rewrite shl64_mul by lia.
  assert (2 ^ 64 = 2 ^ (64 - k) * 2 ^ k) as E by (rewrite <- pow2_split by lia; f_equal; lia).
  pose proof (pow2_gt0 k ltac:(lia)). pose proof (pow2_gt0 (64 - k) ltac:(lia)).
  assert (((not64 0) * 2 ^ k) mod 2 ^ 64 = (2 ^ (64 - k) - 1) * 2 ^ k) as ->.
  { unfold not64. replace ((2 ^ 64 - 1 - 0) * 2 ^ k)
      with ((2 ^ (64 - k) - 1) * 2 ^ k + (2 ^ k - 1) * 2 ^ 64) by lia.
    rewrite Z.mod_add by lia. apply Z.mod_small. nia. }
  rewrite Z.lor_comm, lor_low by lia. lia.
Qed.

Lemma extended_spec p n : 1 <= p <= 128 -> wf_num p n ->
  let '(h, l) := extended p n in
  0 <= h < 2 ^ 64 /\ 0 <= l < 2 ^ 64 /\
  exists s, (s = 0 /\ sign_word p n = 0 /\ 0 <= ival p n \/
             s = -1 /\ sign_word p n = not64 0 /\ ival p n < 0) /\
    ival p n = s * 2 ^ 128 + (h * 2 ^ 64 + l).
Proof.
  intros Hp Hw. pose proof (wf_num_range p n Hw) as Hr. pose proof Hw as [[Hh Hl] Hv].
  pose proof (pow2_half p ltac:(lia)). pose proof (pow2_gt0 (p - 1) ltac:(lia)).
  unfold extended, sign_word, PART_PRECISION, ival.
  rewrite (num_positive_val p) by done.
  destruct (unsignedp n || (num_val n <? 2 ^ (p - 1))) eqn:E.
  - assert (wrap_to p (unsignedp n) (num_val n) = num_val n) as ->.
    { apply wrap_to_id; [lia|]. unfold fits. destruct (unsignedp n); simpl in E; bprop;
        bsplit; simpl; lia || done. }
    change (shl64 0) with (fun n => u64 (Z.shiftl 0 n)). cbv beta.
    rewrite !Z.shiftl_0_l. change (u64 0) with 0. rewrite !Z.lor_0_r.
    assert (exists s, (s = 0 /\ (0 : Z) = 0 /\ 0 <= num_val n \/
                       s = -1 /\ 0 = not64 0 /\ num_val n < 0) /\
              num_val n = s * 2 ^ 128 + num_val n) as Hex.
    { exists 0. split; [left; lia|lia]. }
    destruct (Z.ltb_spec p 64).
    + destruct (high_small p n Hw ltac:(lia)) as [E0 E1]. rewrite E1 in Hex.
      rewrite E1 in *. repeat split; try lia. exact Hex.
    + destruct (Z.ltb_spec p (2 * 64)); repeat split; try lia; exact Hex.
  - apply orb_false_iff in E as [-> E]. bprop. simpl wrap_to.
    assert (to_signed p (num_val n) = num_val n - 2 ^ p) as ->.
    { unfold to_signed. rewrite Z.mod_small by lia. bsplit; lia. }
    destruct (Z.ltb_spec p 64); [|destruct (Z.ltb_spec p (2 * 64))].
    + destruct (high_small p n Hw ltac:(lia)) as [E0 E1]. rewrite E1 in *.
      rewrite lor_ones_high by lia. pose proof (pow2_lt p 64 ltac:(lia)).
      repeat split; try (unfold not64; lia). exists (-1).
      split; [right; lia|]. unfold not64; lia.
    + pose proof (high_bound p n ltac:(lia) Hw). rewrite lor_ones_high by lia.
      pose proof (pow2_lt (p - 64) 64 ltac:(lia)).
      assert (2 ^ p = 2 ^ (p - 64) * 2 ^ 64) by (rewrite <- pow2_split by lia; f_equal; lia).
      repeat split; try lia. exists (-1). split; [right; lia|]. unfold num_val. lia.
    + assert (p = 128) by lia. subst p. repeat split; try lia. exists (-1).
      split; [right; lia|]. unfold num_val. lia.
Qed.

(** The two words after the shift proper. *)
Definition rshift_words (p : Z) (n : cpp_num) (k : Z) : Z * Z :=
  let sm := sign_word p n in
  if p <=? k then (sm, sm)
  else
    let '(h, l) := extended p n in
    let '(k, h, l) := if PART_PRECISION <=? k then (k - PART_PRECISION, sm, h) else (k, h, l) in
    if negb (k =? 0)
    then (Z.lor (h >> k) (sm << (PART_PRECISION - k)),
          Z.lor (l >> k) (h << (PART_PRECISION - k)))
    else (h, l).

Lemma num_rshift_words p n k :
  num_rshift n p k =
  set_overflow false (num_trim (set_parts (fst (rshift_words p n k)) (snd (rshift_words p n k)) n) p).
Proof.
  unfold num_rshift, rshift_words, extended, sign_word.
  destruct (p <=? k); [done|]. repeat (case_match; simplify_eq/=; try done).
Qed.

(** Shifting a value out of its range leaves its sign. *)
Lemma shift_out p u z k : 1 <= p <= k -> fits p u z = true ->
  z / 2 ^ k = if z <? 0 then -1 else 0.
Proof.
  intros Hk Hf. pose proof (pow2_le p k ltac:(lia)). pose proof (pow2_half p ltac:(lia)).
  pose proof (pow2_gt0 (p - 1) ltac:(lia)).
  assert (- 2 ^ k <= z < 2 ^ k) by (unfold fits in Hf; destruct u; bprop; lia).
  destruct (Z.ltb_spec z 0).
  - symmetry. apply Z.div_unique with (z + 2 ^ k); lia.
  - apply Z.div_small; lia.
Qed.

(** One more word: dropping the lowest one. *)
Lemma drop_word s h l z : 0 <= l < 2 ^ 64 -> z = s * 2 ^ 128 + (h * 2 ^ 64 + l) ->
  z / 2 ^ 64 = s * 2 ^ 64 + h.
Proof.
  intros Hl ->. replace (s * 2 ^ 128 + (h * 2 ^ 64 + l)) with ((s * 2 ^ 64 + h) * 2 ^ 64 + l) by lia.
  by apply div_parts.
Qed.

(** A shift of less than a word, of a number given with its sign word. *)
Lemma shr_signed s sm h l z k :
  (s = 0 /\ sm = 0 \/ s = -1 /\ sm = not64 0) ->
  0 <= h < 2 ^ 64 -> 0 <= l < 2 ^ 64 -> 0 < k < 64 ->
  z = s * 2 ^ 128 + (h * 2 ^ 64 + l) ->
  Z.lor (h >> k) (sm << (64 - k)) * 2 ^ 64 + Z.lor (l >> k) (h << (64 - k))
  = (z / 2 ^ k) mod 2 ^ 128.
Proof.
  intros Hs Hh Hl Hk Hz. rewrite shr_words by done.
  pose proof (pow2_gt0 k ltac:(lia)).
  destruct Hs as [[-> ->]|[-> ->]]; subst z; [done|].
  replace (not64 0 * 2 ^ 128 + (h * 2 ^ 64 + l))
    with (2 ^ (64 - k) * 2 ^ 128 * 2 ^ k + (-1 * 2 ^ 128 + (h * 2 ^ 64 + l))).
  - rewrite Z.div_add_l, Z.add_comm, Z.mod_add by lia. done.
  - assert (2 ^ 64 = 2 ^ (64 - k) * 2 ^ k) by (rewrite <- pow2_split by lia; f_equal; lia).
    unfold not64. nia.
Qed.

Lemma shr_signed_range sm h l k : 0 <= h < 2 ^ 64 -> 0 <= l < 2 ^ 64 -> 0 < k < 64 ->
  0 <= Z.lor (h >> k) (sm << (64 - k)) < 2 ^ 64 /\
  0 <= Z.lor (l >> k) (h << (64 - k)) < 2 ^ 64.
Proof. intros. rewrite !shr_word by lia. split; apply Z.mod_pos_bound; lia. Qed.

Lemma rshift_words_spec p n k : 1 <= p <= 128 -> wf_num p n -> 0 <= k ->
  let '(h, l) := rshift_words p n k in
  0 <= h < 2 ^ 64 /\ 0 <= l < 2 ^ 64 /\
  (h * 2 ^ 64 + l) mod 2 ^ 128 = (ival p n / 2 ^ k) mod 2 ^ 128.
Proof.
  intros Hp Hw Hk. pose proof (extended_spec p n Hp Hw) as He. unfold rshift_words.
  destruct (extended p n) as [h l]. destruct He as (Hh & Hl & s & Hs & Hz).
  assert (s = 0 /\ sign_word p n = 0 \/ s = -1 /\ sign_word p n = not64 0) as Hs' by tauto.
  destruct (Z.leb_spec p k) as [Hpk|Hpk].
  { rewrite (shift_out p (unsignedp n)) by (lia || (apply ival_range; lia)).
    destruct Hs as [(_ & -> & ?)|(_ & -> & ?)]; bsplit; try lia; repeat split; try lia; done. }
  unfold PART_PRECISION. destruct (Z.leb_spec 64 k).
  - assert (ival p n / 2 ^ k = (s * 2 ^ 64 + h) / 2 ^ (k - 64)) as ->.
    { replace k with (64 + (k - 64)) at 1 by lia.
      rewrite pow2_split, <- Z.div_div, (drop_word s h l) by (lia || done). done. }
    assert (s * 2 ^ 64 + h = s * 2 ^ 128 + (sign_word p n * 2 ^ 64 + h)) as Hz'
      by (destruct Hs' as [[-> ->]|[-> ->]]; unfold not64; lia).
    assert (0 <= sign_word p n < 2 ^ 64) as Hsm
      by (destruct Hs' as [[-> ->]|[-> ->]]; unfold not64; lia).
    destruct (Z.eqb_spec (k - 64) 0) as [->|]; simpl negb; cbv iota.
    + split; [done|]. split; [done|]. rewrite Z.pow_0_r, Z.div_1_r, Hz'.
      rewrite (Z.add_comm (s * _)), Z.mod_add by lia. done.
    + destruct (shr_signed_range (sign_word p n) (sign_word p n) h (k - 64)) as [? ?]; try lia.
      split; [done|]. split; [done|].
      rewrite (shr_signed s _ _ _ _ (k - 64) Hs' Hsm Hh ltac:(lia) Hz'). by rewrite Z.mod_mod by lia.
  - destruct (Z.eqb_spec k 0) as [->|]; simpl negb; cbv iota.
    + split; [done|]. split; [done|]. rewrite Z.pow_0_r, Z.div_1_r, Hz.
      rewrite (Z.add_comm (s * _)), Z.mod_add by lia. done.
    + destruct (shr_signed_range (sign_word p n) h l k) as [? ?]; try lia.
      split; [done|]. split; [done|].
      rewrite (shr_signed s _ _ _ _ k Hs' Hh Hl ltac:(lia) Hz). by rewrite Z.mod_mod by lia.
Qed.

Lemma fits_div p u z k : 1 <= p -> 0 <= k -> fits p u z = true -> fits p u (z / 2 ^ k) = true.
Proof.
  intros Hp Hk Hf. pose proof (pow2_gt0 k Hk). pose proof (pow2_gt0 (p - 1) ltac:(lia)).
  unfold fits in *. destruct u; bprop.
  - pose proof (Z.div_pos z (2 ^ k) ltac:(lia) ltac:(lia)).
    pose proof (Z.div_le_upper_bound z (2 ^ k) z ltac:(lia) ltac:(nia)).
    bsplit; simpl; lia || done.
  - assert (- 2 ^ (p - 1) <= z / 2 ^ k) by (apply Z.div_le_lower_bound; nia).
    assert (z / 2 ^ k < 2 ^ (p - 1)) by (apply Z.div_lt_upper_bound; nia).
    bsplit; simpl; lia || done.
Qed.

Lemma num_rshift_spec p n k : 1 <= p <= 128 -> wf_num p n -> 0 <= k ->
  wf_num p (num_rshift n p k) /\
  num_val (num_rshift n p k) = (ival p n / 2 ^ k) mod 2 ^ p /\
  abs p (num_rshift n p k) = mk_anum (unsignedp n) (ival p n / 2 ^ k) false.
Proof.
  intros Hp Hw Hk. pose proof (rshift_words_spec p n k Hp Hw Hk) as Hr.
  rewrite num_rshift_words. destruct (rshift_words p n k) as [h l]. simpl fst; simpl snd.
  destruct Hr as (Hh & Hl & Hc).
  destruct (trim_ival p (set_parts h l n) _ Hp (conj Hh Hl) Hc) as (Hwf & Hv & Hi).
  split; [done|]. split; [done|]. unfold abs. simpl unsignedp.
  rewrite (proj1 (num_trim_flags _ _)).
  rewrite ival_set_overflow, Hi. f_equal.
  apply wrap_to_id; [lia|]. apply fits_div; [lia..|]. apply (ival_range p n); lia.
Qed.

(** Left shift by less than a word, of a double word. *)
Lemma shl_words h l m : 0 <= h < 2 ^ 64 -> 0 <= l < 2 ^ 64 -> 0 < m < 64 ->
  0 <= Z.lor (h << m) (l >> (64 - m)) < 2 ^ 64 /\ 0 <= l << m < 2 ^ 64 /\
  (Z.lor (h << m) (l >> (64 - m)) * 2 ^ 64 + (l << m)) mod 2 ^ 128
  = ((h * 2 ^ 64 + l) * 2 ^ m) mod 2 ^ 128.
Proof.
  intros Hh Hl Hm. pose proof (shr_word h l (64 - m) Hl ltac:(lia)) as E.
  replace (64 - (64 - m)) with m in E by lia. rewrite Z.lor_comm, E.
  split; [apply Z.mod_pos_bound; lia|]. split; [apply u64_range|].
  rewrite high_mod, shl64_mul by lia.
  assert (2 ^ 64 = 2 ^ (64 - m) * 2 ^ m) as E2 by (rewrite <- pow2_split by lia; f_equal; lia).
  pose proof (pow2_gt0 m ltac:(lia)). pose proof (pow2_gt0 (64 - m) ltac:(lia)).
  f_equal.
  replace ((h * 2 ^ 64 + l) / 2 ^ (64 - m)) with (h * 2 ^ m + l / 2 ^ (64 - m)).
  2:{ replace (h * 2 ^ 64 + l) with (h * 2 ^ m * 2 ^ (64 - m) + l) by (rewrite E2; lia).
      by rewrite Z.div_add_l by lia. }
  replace ((l * 2 ^ m) mod 2 ^ 64) with (l mod 2 ^ (64 - m) * 2 ^ m)
    by (rewrite E2; symmetry; apply Zmult_mod_distr_r).
  pose proof (Z.div_mod l (2 ^ (64 - m)) ltac:(lia)). rewrite E2. nia.
Qed.

(** The two words after the shift proper. *)
Definition lshift_words (n : cpp_num) (k : Z) : Z * Z :=
  let '(m, h, l) := if PART_PRECISION <=? k then (k - PART_PRECISION, low n, 0)
                    else (k, high n, low n) in
  if negb (m =? 0) then (Z.lor (h << m) (l >> (PART_PRECISION - m)), l << m) else (h, l).

Lemma lshift_words_spec n k : wf_parts n -> 0 <= k < 128 ->
  let '(h, l) := lshift_words n k in
  0 <= h < 2 ^ 64 /\ 0 <= l < 2 ^ 64 /\
  (h * 2 ^ 64 + l) mod 2 ^ 128 = (num_val n * 2 ^ k) mod 2 ^ 128.
Proof.
  intros [Hh Hl] Hk. unfold lshift_words, PART_PRECISION, num_val.
  destruct (Z.leb_spec 64 k).
  - assert (((high n * 2 ^ 64 + low n) * 2 ^ k) mod 2 ^ 128
            = ((low n * 2 ^ 64 + 0) * 2 ^ (k - 64)) mod 2 ^ 128) as ->.
    { replace (2 ^ k) with (2 ^ (k - 64) * 2 ^ 64)
        by (rewrite <- pow2_split by lia; f_equal; lia).
      replace ((high n * 2 ^ 64 + low n) * (2 ^ (k - 64) * 2 ^ 64))
        with ((low n * 2 ^ 64 + 0) * 2 ^ (k - 64) + (high n * 2 ^ (k - 64)) * 2 ^ 128) by lia.
      by rewrite Z.mod_add by lia. }
    destruct (Z.eqb_spec (k - 64) 0) as [->|]; simpl negb; cbv iota.
    + rewrite Z.pow_0_r, Z.mul_1_r. done.
    + apply shl_words; lia.
  - destruct (Z.eqb_spec k 0) as [->|]; simpl negb; cbv iota.
    + rewrite Z.pow_0_r, Z.mul_1_r. done.
    + apply shl_words; lia.
Qed.

Lemma num_lshift_words p n k : k < p ->
  num_lshift n p k =
  let t := num_trim (set_parts (fst (lshift_words n k)) (snd (lshift_words n k)) n) p in
  set_overflow (negb (unsignedp n) && negb (num_eq n (num_rshift t p k))) t.
Proof.
  intros Hk. unfold num_lshift, lshift_words. destruct (Z.leb_spec p k); [lia|].
  repeat (case_match; simplify_eq/=);
    rewrite (proj1 (num_trim_flags _ _)) in *; simpl in *; simplify_eq/=;
    match goal with H : unsignedp n = _ |- _ => rewrite H end; done.
Qed.

(** A multiple of a power of two survives the round trip of shifts exactly
    when it fits. *)
Lemma shift_back p z k : 1 <= p -> 0 <= k <= p ->
  (to_signed p (z * 2 ^ k) / 2 ^ k =? z) = fits p false (z * 2 ^ k).
Proof.
  intros Hp Hk. pose proof (pow2_gt0 k ltac:(lia)).
  destruct (fits p false (z * 2 ^ k)) eqn:Hf.
  - change (to_signed p) with (wrap_to p false). rewrite wrap_to_id by done.
    rewrite Z.div_mul by lia. apply Z.eqb_refl.
  - apply Z.eqb_neq. intros E. apply not_true_iff_false in Hf. apply Hf.
    apply fits_iff; [done|]. simpl. set (w := to_signed p (z * 2 ^ k)) in *.
    assert (w mod 2 ^ k = 0) as Hm.
    { assert (w mod 2 ^ p = (z * 2 ^ k) mod 2 ^ p) as Hc by (apply to_signed_cong; lia).
      assert (2 ^ p = 2 ^ k * 2 ^ (p - k)) as E2 by (rewrite <- pow2_split by lia; f_equal; lia).
      pose proof (pow2_gt0 (p - k) ltac:(lia)).
      rewrite E2 in Hc. apply (f_equal (fun x => x mod 2 ^ k)) in Hc.
      rewrite !Z.rem_mul_r, !(Z.mul_comm (2 ^ k)), !Z.mod_add, !Z.mod_mod, Z.mod_mul in Hc by lia.
      done. }
    pose proof (Z.div_mod w (2 ^ k) ltac:(lia)). lia.
Qed.

Lemma deliver_zero p u : 1 <= p -> deliver p u 0 = mk_anum u 0 false.
Proof.
  intros Hp. assert (fits p u 0 = true) as Hf.
  { pose proof (pow2_gt0 p ltac:(lia)). pose proof (pow2_gt0 (p - 1) ltac:(lia)).
    unfold fits; destruct u; bsplit; simpl; lia || done. }
  unfold deliver. rewrite wrap_to_id, Hf by done. by destruct u.
Qed.

(** Everything shifted out: the result is zero, and it fits only if it was. *)
Lemma deliver_shift_out p u z k : 1 <= p <= k -> fits p u z = true ->
  deliver p u (z * 2 ^ k) = mk_anum u 0 (negb u && negb (z =? 0)).
Proof.
  intros Hk Hf. assert (wrap_to p u (z * 2 ^ k) = 0) as Hw.
  { pose proof (pow2_gt0 p ltac:(lia)). pose proof (pow2_gt0 (p - 1) ltac:(lia)).
    apply wrap_to_unique; [lia| |unfold fits; destruct u; bsplit; simpl; lia || done].
    replace (2 ^ k) with (2 ^ (k - p) * 2 ^ p) by (rewrite <- pow2_split by lia; f_equal; lia).
    rewrite Z.mul_assoc, Z.mod_mul by lia. by apply Z.mod_0_l; lia. }
  unfold deliver. rewrite Hw. f_equal. destruct u; [done|]. do 2 f_equal.
  pose proof (pow2_gt0 k ltac:(lia)).
  destruct (Z.eqb_spec z 0) as [->|Hz].
  - apply fits_iff; [lia|]. rewrite Hw. lia.
  - apply not_true_iff_false. intros Hf2. apply fits_iff in Hf2; [|lia]. nia.
Qed.

Lemma num_lshift_spec p n k : 1 <= p <= 128 -> wf_num p n -> 0 <= k ->
  wf_num p (num_lshift n p k) /\
  abs p (num_lshift n p k) = deliver p (unsignedp n) (ival p n * 2 ^ k).
Proof.
  intros Hp Hw Hk. pose proof (wf_num_range p n Hw). destruct (Z.leb_spec p k) as [Hpk|Hpk].
  { unfold num_lshift. destruct (Z.leb_spec p k); [|lia]. split.
    - pose proof (pow2_gt0 p ltac:(lia)). unfold wf_num, wf_parts, num_val. simpl. lia.
    - rewrite deliver_shift_out by (lia || (apply ival_range; lia)).
      unfold abs, ival at 1, num_val at 1. simpl. f_equal.
      + apply wrap_to_id; [lia|]. pose proof (deliver_zero p (unsignedp n) ltac:(lia)) as Hz.
        apply fits_iff; [lia|]. by injection Hz.
      + rewrite num_zerop_val by apply Hw. do 2 f_equal. unfold ival.
        pose proof (wrap_to_inj p (unsignedp n) (num_val n) 0 ltac:(lia) ltac:(done)) as Hi.
        rewrite <- Hi by (pose proof (pow2_gt0 p); lia). do 2 f_equal.
        pose proof (deliver_zero p (unsignedp n) ltac:(lia)) as Hz. by injection Hz. }
  rewrite num_lshift_words by done. cbv zeta.
  pose proof (lshift_words_spec n k ltac:(apply Hw) ltac:(lia)) as Hs.
  destruct (lshift_words n k) as [h l]. simpl fst; simpl snd. destruct Hs as (Hh & Hl & Hc).
  destruct (trim_ival p (set_parts h l n) _ Hp (conj Hh Hl) Hc) as (Hwf & Hv & Hi).
  destruct (num_trim_flags (set_parts h l n) p) as [Hu _].
  set (t := num_trim (set_parts h l n) p) in *. change (unsignedp (set_parts h l n))
    with (unsignedp n) in *.
  assert ((num_val n * 2 ^ k) mod 2 ^ p = (ival p n * 2 ^ k) mod 2 ^ p) as Hcong
    by (apply cong_mul; [unfold ival; by rewrite wrap_to_cong by lia|done]).
  rewrite (wrap_to_eq _ _ _ _ Hcong) in Hi.
  split; [done|]. unfold abs, deliver. simpl unsignedp. simpl overflow. rewrite Hu. f_equal.
  - by rewrite ival_set_overflow.
  - destruct (unsignedp n) eqn:En; [done|]. simpl negb. rewrite !andb_true_l. f_equal.
    destruct (num_rshift_spec p t k Hp Hwf Hk) as (Hwr & Hvr & _).
    rewrite num_eq_val, Hvr by (apply Hw || apply Hwr).
    rewrite <- shift_back by lia. change (to_signed p) with (wrap_to p false).
    rewrite <- Hi. change (ival p n) with (wrap_to p (unsignedp n) (num_val n)). rewrite En.
    rewrite <- (wrap_to_inj p false) by (lia || (apply Z.mod_pos_bound; auto with cpp zarith)).
    rewrite Z.eqb_sym. f_equal.
    apply wrap_to_unique; [lia|by rewrite Z.mod_mod by (pose proof (pow2_gt0 p); lia)|].
    apply fits_div; [lia..|]. rewrite Hi. apply fits_wrap; lia.
Qed.

(** A count held in two words acts as its value: both are past the width. *)
Lemma shift_count_val p n r : 1 <= p <= 128 -> wf_num p r ->
  num_lshift n p (shift_count r) = num_lshift n p (num_val r) /\
  num_rshift n p (shift_count r) = num_rshift n p (num_val r).
Proof.
  intros Hp [[Hh Hl] Hv]. unfold shift_count, num_val.
  destruct (Z.eqb_spec (high r) 0) as [->|]; simpl negb; cbv iota; [done|].
  assert (p <= high r * 2 ^ 64 + low r) by nia. assert (p <= not64 0) by (unfold not64; lia).
  unfold num_lshift, num_rshift. bsplit; lia || done.
Qed.

(** The count of a shift operator, after the reversal of a negative one. *)
Lemma shift_operand p r : 1 <= p <= 128 -> wf_num p r ->
  if negb (unsignedp r) && negb (num_positive r p)
  then ival p r < 0 /\ wf_num p (num_negate r p) /\ num_val (num_negate r p) = Z.abs (ival p r)
  else 0 <= ival p r /\ num_val r = Z.abs (ival p r).
Proof.
  intros Hp Hw. rewrite (num_positive_val p) by done. pose proof (wf_num_range p r Hw).
  destruct (num_negate_spec p r Hp Hw) as (Hwn & Hvn & _).
  pose proof (pow2_half p ltac:(lia)). pose proof (pow2_gt0 (p - 1) ltac:(lia)).
  unfold ival. destruct (unsignedp r); simpl.
  { rewrite Z.mod_small by lia. lia. }
  unfold to_signed. rewrite Z.mod_small by lia. bsplit; simpl; [lia|].
  split; [lia|]. split; [done|]. rewrite Hvn.
  replace (- num_val r) with (2 ^ p - num_val r + (-1) * 2 ^ p) by lia.
  rewrite Z.mod_add, Z.mod_small by lia. lia.
Qed.

Lemma num_shift_abs o sk a b (left : bool) : 1 <= precision o <= 128 ->
  wf_num (precision o) a -> wf_num (precision o) b ->
  let r := snd (num_binary_op o sk a b (if left then CPP_LSHIFT else CPP_RSHIFT)) in
  let p := precision o in
  wf_num p r /\ abs p r = spec_shift p left (abs p a) (ival p b).
Proof.
  intros Hp Ha Hb. cbv zeta. set (p := precision o) in *.
  pose proof (shift_operand p b Hp Hb) as Hs.
  assert (forall c k (l : bool), wf_num p c -> num_val c = Z.abs k ->
    let r := if l then num_lshift a p (shift_count c) else num_rshift a p (shift_count c) in
    wf_num p r /\ abs p r = if l then deliver p (unsignedp a) (ival p a * 2 ^ Z.abs k)
                            else mk_anum (unsignedp a) (ival p a / 2 ^ Z.abs k) false) as Hsh.
  { intros c k l Hc Hk. destruct (shift_count_val p a c Hp Hc) as [-> ->]. rewrite Hk.
    destruct l; [apply num_lshift_spec; lia || done|].
    destruct (num_rshift_spec p a (Z.abs k)) as (? & _ & ?); done || lia. }
  unfold spec_shift. simpl a_uns; simpl a_val.
  destruct (negb (unsignedp b) && negb (num_positive b p)) eqn:E.
  - destruct Hs as (Hneg & Hwn & Hvn). destruct (Z.ltb_spec (ival p b) 0); [|lia].
    specialize (Hsh _ _ (negb left) Hwn Hvn).
    destruct left; unfold num_binary_op; fold p; rewrite E; exact Hsh.
  - destruct Hs as (Hpos & Hvn). destruct (Z.ltb_spec (ival p b) 0); [lia|].
    specialize (Hsh _ _ left Hb Hvn).
    destruct left; unfold num_binary_op; fold p; rewrite E; exact Hsh.
Qed.

(** ** Multiplication *)

Lemma low_part_mod x : LOW_PART x = x mod 2 ^ 32.
Proof. unfold LOW_PART. rewrite <- land_mask by lia. done. Qed.

Lemma high_part_div x : HIGH_PART x = x / 2 ^ 32.
Proof. unfold HIGH_PART. change (PART_PRECISION / 2) with 32. by rewrite shr64_div by lia. Qed.

(** Adding a half-word, with the carry the code detects by comparison. *)
Lemma add_carry x y : 0 <= x < 2 ^ 64 -> 0 <= y < 2 ^ 64 ->
  exists c, (c = 0 \/ c = 1) /\ u64 (x + y) = x + y - c * 2 ^ 64 /\
            (u64 (x + y) <? x) = (c =? 1).
Proof.
  intros Hx Hy. unfold u64, wrapu. pose proof (mod_add_carry (2 ^ 64) x y Hx Hy) as E.
  destruct ((x + y) mod 2 ^ 64 <? x); [exists 1|exists 0]; repeat split; lia || done.
Qed.

Lemma if_carry (c x : Z) : (c = 0 \/ c = 1) -> 0 <= x -> x + c < 2 ^ 64 ->
  (if c =? 1 then u64 (x + 1) else x) = x + c.
Proof.
  intros [-> | ->] Hx Hb; [change (0 =? 1) with false; cbv iota; lia|].
  change (1 =? 1) with true. cbv iota. apply u64_small; lia.
Qed.

Lemma num_part_mul_spec a b : 0 <= a < 2 ^ 64 -> 0 <= b < 2 ^ 64 ->
  wf_parts (num_part_mul a b) /\ num_val (num_part_mul a b) = a * b.
Proof.
  intros Ha Hb. unfold num_part_mul. cbv zeta. rewrite !low_part_mod, !high_part_div.
  pose proof (Z.div_mod a (2 ^ 32) ltac:(lia)). pose proof (Z.mod_pos_bound a (2 ^ 32) ltac:(lia)).
  pose proof (Z.div_mod b (2 ^ 32) ltac:(lia)). pose proof (Z.mod_pos_bound b (2 ^ 32) ltac:(lia)).
  set (a1 := a / 2 ^ 32) in *. set (a0 := a mod 2 ^ 32) in *.
  set (b1 := b / 2 ^ 32) in *. set (b0 := b mod 2 ^ 32) in *.
  assert (0 <= a1 < 2 ^ 32) by lia. assert (0 <= b1 < 2 ^ 32) by lia.
  assert (0 <= a0 * b0 < 2 ^ 64) by nia. assert (0 <= a1 * b1 < 2 ^ 64) by nia.
  assert (0 <= a0 * b1 < 2 ^ 64) by nia. assert (0 <= a1 * b0 < 2 ^ 64) by nia.
  rewrite (u64_small (a0 * b0)), (u64_small (a1 * b1)), (u64_small (a0 * b1)),
    (u64_small (a1 * b0)) by lia.
  set (m0 := a0 * b1) in *. set (m1 := a1 * b0) in *.
  pose proof (Z.div_mod m0 (2 ^ 32) ltac:(lia)). pose proof (Z.mod_pos_bound m0 (2 ^ 32) ltac:(lia)).
  pose proof (Z.div_mod m1 (2 ^ 32) ltac:(lia)). pose proof (Z.mod_pos_bound m1 (2 ^ 32) ltac:(lia)).
  change (PART_PRECISION / 2) with 32. rewrite !shl64_mul by lia.
  rewrite !(Z.mod_small (_ * 2 ^ 32)) by lia.
  destruct (add_carry (a0 * b0) (m0 mod 2 ^ 32 * 2 ^ 32)) as (c & Hc & E1 & C1); [lia..|].
  rewrite C1. set (r1 := u64 (a0 * b0 + _)) in *.
  destruct (add_carry r1 (m1 mod 2 ^ 32 * 2 ^ 32)) as (d & Hd & E2 & C2);
    [unfold r1; apply u64_range|lia|].
  rewrite C2. set (r2 := u64 (r1 + _)) in *.
  assert (0 <= r2 < 2 ^ 64) by (unfold r2; apply u64_range).
  assert (a * b = a1 * b1 * 2 ^ 64 + (m0 + m1) * 2 ^ 32 + a0 * b0)
    by (unfold m0, m1; rewrite H, H1; ring).
  assert ((a1 * b1 + c + d + m0 / 2 ^ 32 + m1 / 2 ^ 32) * 2 ^ 64 + r2 = a * b) as Hval by lia.
  pose proof (Z.div_pos m0 (2 ^ 32) ltac:(lia) ltac:(lia)).
  pose proof (Z.div_pos m1 (2 ^ 32) ltac:(lia) ltac:(lia)).
  assert (0 <= a1 * b1 + c + d + m0 / 2 ^ 32 + m1 / 2 ^ 32 < 2 ^ 64) as Hbound.
  { assert (a * b < 2 ^ 64 * 2 ^ 64) by (apply Z.mul_lt_mono_nonneg; lia). lia. }
  rewrite (if_carry c) by lia. rewrite (if_carry d) by lia.
  rewrite (u64_small (_ + m0 / 2 ^ 32)) by lia. rewrite u64_small by lia.
  split; [split; simpl; lia|]. unfold num_val. simpl. lia.
Qed.

(** Multiplication and division work on magnitudes: in a signed operation a
    negative operand is negated first. *)
Definition magnitude (p : Z) (u : bool) (n : cpp_num) : cpp_num :=
  if negb u && negb (num_positive n p) then num_negate n p else n.

Definition is_neg (p : Z) (u : bool) (n : cpp_num) : bool :=
  negb u && negb (num_positive n p).

Lemma magnitude_spec p (u : bool) n : 1 <= p <= 128 -> wf_num p n ->
  wf_num p (magnitude p u n) /\
  num_val (magnitude p u n) = Z.abs (wrap_to p u (num_val n)) /\
  is_neg p u n = (wrap_to p u (num_val n) <? 0).
Proof.
  intros Hp Hw. pose proof (wf_num_range p n Hw).
  destruct (num_negate_spec p n Hp Hw) as (Hwn & Hvn & _).
  pose proof (pow2_half p ltac:(lia)). pose proof (pow2_gt0 (p - 1) ltac:(lia)).
  unfold magnitude, is_neg. rewrite (num_positive_val p) by done. destruct u; simpl.
  { rewrite Z.mod_small by lia. repeat split; [apply Hw..|lia|bsplit; lia || done]. }
  unfold to_signed. rewrite Z.mod_small by lia.
  destruct (Z.ltb_spec (num_val n) (2 ^ (p - 1))); simpl.
  - split; [done|]. split; [lia|]. bsplit; lia || done.
  - split; [done|]. split; [|bsplit; lia || done]. rewrite Hvn.
    replace (- num_val n) with (2 ^ p - num_val n + (-1) * 2 ^ p) by lia.
    rewrite Z.mod_add, Z.mod_small by lia. lia.
Qed.

(** A result put together from its sign and its magnitude. *)
Lemma from_magnitude p (neg : bool) m t : 1 <= p <= 128 -> wf_num p t ->
  num_val t = m mod 2 ^ p ->
  let r := if neg then num_negate t p else t in
  wf_num p r /\ num_val r = (if neg then - m else m) mod 2 ^ p.
Proof.
  intros Hp Hw Hv. destruct neg; cbv zeta iota; [|done].
  destruct (num_negate_spec p t Hp Hw) as (Hwn & Hvn & _). split; [done|].
  rewrite Hvn, Hv. apply cong_opp. by rewrite Z.mod_mod by (pose proof (pow2_gt0 p); lia).
Qed.

(** The overflow test of the signed result. *)
Lemma magnitude_overflow p (neg : bool) m r : 1 <= p <= 128 -> 0 <= m < 2 ^ p ->
  wf_num p r -> num_val r = (if neg then - m else m) mod 2 ^ p ->
  xorb (num_positive r p) (negb neg) && negb (num_zerop r)
  = negb (fits p false (if neg then - m else m)).
Proof.
  intros Hp Hm Hw Hv. rewrite (num_positive_val p), num_zerop_val, Hv by (done || apply Hw).
  pose proof (pow2_half p ltac:(lia)). pose proof (pow2_gt0 (p - 1) ltac:(lia)).
  unfold fits. destruct neg; simpl negb.
  - destruct (Z.eqb_spec m 0) as [->|].
    { change (- 0) with 0. rewrite Z.mod_0_l by lia. bsplit; simpl; lia || done. }
    replace (- m) with (2 ^ p - m + (-1) * 2 ^ p) at 1 2 by lia.
    rewrite !Z.mod_add, !Z.mod_small by lia. bsplit; simpl; lia || done.
  - rewrite !Z.mod_small by lia. bsplit; simpl; lia || done.
Qed.

(** Sign and magnitude of a product. *)
Lemma sign_magnitude_mul x y :
  x * y = if xorb (x <? 0) (y <? 0) then - (Z.abs x * Z.abs y) else Z.abs x * Z.abs y.
Proof. bsplit; simpl; nia. Qed.

(** The raw product of two magnitudes, as [num_mul] computes it. *)
Definition raw_product (lhs rhs : cpp_num) : cpp_num :=
  let result := num_part_mul (low lhs) (low rhs) in
  let h1 := u64 (high result + low (num_part_mul (high lhs) (low rhs))) in
  let h2 := u64 (h1 + low (num_part_mul (low lhs) (high rhs))) in
  set_parts h2 (low result) result.

Definition product_overflow (p : Z) (lhs rhs : cpp_num) : bool :=
  negb (high lhs =? 0) && negb (high rhs =? 0)
  || negb (high (num_part_mul (high lhs) (low rhs)) =? 0)
  || negb (high (num_part_mul (low lhs) (high rhs)) =? 0)
  || negb (num_eq (num_trim (raw_product lhs rhs) p) (raw_product lhs rhs)).

Lemma num_mul_unfold o a b :
  let p := precision o in let u := unsignedp a || unsignedp b in
  let neg := xorb (is_neg p u a) (is_neg p u b) in
  let lhs := magnitude p u a in let rhs := magnitude p u b in
  let t := num_trim (raw_product lhs rhs) p in
  let r := if neg then num_negate t p else t in
  num_mul o a b = mk_num (high r) (low r) u
    (if u then false else product_overflow p lhs rhs
                          || (xorb (num_positive r p) (negb neg) && negb (num_zerop r))).
Proof.
  cbv zeta. unfold num_mul, is_neg, magnitude, product_overflow, raw_product. cbv zeta.
  set (u := unsignedp a || unsignedp b).
  destruct (negb u && negb (num_positive a (precision o)));
    destruct (negb u && negb (num_positive b (precision o))); done.
Qed.

#[local] Opaque num_part_mul.

Lemma raw_product_spec lhs rhs : wf_parts lhs -> wf_parts rhs ->
  wf_parts (raw_product lhs rhs) /\
  num_val (raw_product lhs rhs) = (num_val lhs * num_val rhs) mod 2 ^ 128.
Proof.
  intros [Hh1 Hl1] [Hh2 Hl2]. unfold raw_product. cbv zeta.
  destruct (num_part_mul_spec (low lhs) (low rhs) Hl1 Hl2) as [[Ha Hb] E1].
  destruct (num_part_mul_spec (high lhs) (low rhs) Hh1 Hl2) as [[Hc Hd] E2].
  destruct (num_part_mul_spec (low lhs) (high rhs) Hl1 Hh2) as [[He Hf] E3].
  set (A := num_part_mul (low lhs) (low rhs)) in *.
  set (B := num_part_mul (high lhs) (low rhs)) in *.
  set (C := num_part_mul (low lhs) (high rhs)) in *.
  unfold wf_parts. cbn [set_parts high low]. split; [split; [apply u64_range|done]|].
  clearbody A B C. unfold num_val in *. cbn [set_parts high low]. unfold u64, wrapu. rewrite Zplus_mod_idemp_l.
  rewrite <- (Z.mod_small (_ * 2 ^ 64 + low A) (2 ^ 128)).
  2:{ pose proof (Z.mod_pos_bound (high A + low B + low C) (2 ^ 64) ltac:(lia)). lia. }
  rewrite high_mod. apply mod_eq_diff; [lia|]. apply Z.mod_divide; [lia|].
  exists (- (high B + high C + high lhs * high rhs)). lia.
Qed.

(** A set overflow flag of the magnitudes means the product is out of range. *)
Lemma product_overflow_sound p lhs rhs : 1 <= p <= 128 -> wf_num p lhs -> wf_num p rhs ->
  product_overflow p lhs rhs = true -> 2 ^ p <= num_val lhs * num_val rhs.
Proof.
  intros Hp [[Hh1 Hl1] _] [[Hh2 Hl2] _] Ho. pose proof (pow2_le p 128 ltac:(lia)).
  destruct (raw_product_spec lhs rhs) as [Hwr Hvr]; [done..|].
  destruct (num_trim_spec _ p Hwr Hp) as [Hwt Hvt].
  destruct (num_part_mul_spec (high lhs) (low rhs) Hh1 Hl2) as [[Hc Hd] E2].
  destruct (num_part_mul_spec (low lhs) (high rhs) Hl1 Hh2) as [[He Hf] E3].
  unfold product_overflow in Ho. rewrite num_eq_val in Ho by (apply Hwt || done).
  rewrite Hvt in Ho. rewrite !orb_true_iff, andb_true_iff, !negb_true_iff, !Z.eqb_neq in Ho.
  unfold num_val in E2, E3.
  destruct Ho as [[[[? ?]|Hz]|Hz]|Hne]; unfold num_val at 1 2; [nia..|].
  destruct (Z.leb_spec (2 ^ p) (num_val lhs * num_val rhs)) as [|Hlt]; [done|].
  destruct Hne. unfold num_val in Hlt. rewrite Hvr. unfold num_val.
  rewrite !(Z.mod_small _ (2 ^ 128)), Z.mod_small by nia. done.
Qed.

(** For precisions of one part, the converse: no flag, no overflow. *)
Lemma product_overflow_complete p lhs rhs : 1 <= p <= 64 -> wf_num p lhs -> wf_num p rhs ->
  product_overflow p lhs rhs = false -> num_val lhs * num_val rhs < 2 ^ p.
Proof.
  intros Hp Hw1 Hw2 Ho. pose proof (wf_num_range p _ Hw1). pose proof (wf_num_range p _ Hw2).
  destruct (raw_product_spec lhs rhs) as [Hwr Hvr]; [apply Hw1|apply Hw2|].
  destruct (num_trim_spec _ p Hwr ltac:(lia)) as [Hwt Hvt].
  unfold product_overflow in Ho. bprop.
  rewrite num_eq_val in * by (apply Hwt || done). bprop.
  rewrite Hvt, Hvr in *. pose proof (pow2_le p 64 ltac:(lia)).
  rewrite (Z.mod_small _ (2 ^ 128)) in * by nia.
  match goal with H : _ mod 2 ^ p = _ |- _ => rewrite <- H end.
  apply Z.mod_pos_bound; auto with cpp zarith.
Qed.

Lemma num_mul_value o a b : 1 <= precision o <= 128 ->
  wf_num (precision o) a -> wf_num (precision o) b ->
  let p := precision o in
  let spec := spec_arith p Z.mul (abs p a) (abs p b) in
  let r := num_mul o a b in
  wf_num p r /\ unsignedp r = a_uns spec /\ ival p r = a_val spec /\
  (overflow r = true -> a_ovf spec = true) /\ (p <= 64 -> overflow r = a_ovf spec).
Proof.
  set (p := precision o). intros Hp Ha Hb. cbv zeta. rewrite spec_arith_abs by lia. cbv zeta.
  pose proof (num_mul_unfold o a b) as E. cbv zeta in E. fold p in E.
  set (u := unsignedp a || unsignedp b) in *.
  destruct (magnitude_spec p u a Hp Ha) as (Hwa & Hva & Hna).
  destruct (magnitude_spec p u b Hp Hb) as (Hwb & Hvb & Hnb).
  pose proof (sign_magnitude_mul (wrap_to p u (num_val a)) (wrap_to p u (num_val b))) as Hsm.
  rewrite <- Hna, <- Hnb, <- Hva, <- Hvb in Hsm.
  set (lhs := magnitude p u a) in *. set (rhs := magnitude p u b) in *.
  set (neg := xorb (is_neg p u a) (is_neg p u b)) in *.
  destruct (raw_product_spec lhs rhs) as [Hwr Hvr]; [apply Hwa|apply Hwb|].
  destruct (num_trim_spec _ p Hwr Hp) as [Hwt Hvt].
  rewrite Hvr, (cong_narrow p _ (num_val lhs * num_val rhs)) in Hvt
    by (lia || (rewrite Z.mod_mod by lia; done)).
  set (t := num_trim (raw_product lhs rhs) p) in *.
  destruct (from_magnitude p neg _ t Hp Hwt Hvt) as [Hwf Hvf].
  set (r := if neg then num_negate t p else t) in *. rewrite E.
  rewrite <- Hsm in Hvf. unfold deliver. cbn [a_uns a_val a_ovf unsignedp overflow].
  split; [exact Hwf|]. split; [done|]. split.
  { change (wrap_to p u (num_val r) = wrap_to p u
      (wrap_to p u (num_val a) * wrap_to p u (num_val b))).
    rewrite Hvf. apply wrap_to_eq. by rewrite Z.mod_mod by (pose proof (pow2_gt0 p); lia). }
  destruct u eqn:Eu; [done|]. change (negb false) with true. rewrite andb_true_l.
  pose proof (wf_num_range p _ Hwa). pose proof (wf_num_range p _ Hwb).
  assert (2 ^ p <= num_val lhs * num_val rhs ->
    fits p false (wrap_to p false (num_val a) * wrap_to p false (num_val b)) = false) as Hbig.
  { intros Hge. pose proof (pow2_half p ltac:(lia)). pose proof (pow2_gt0 (p - 1) ltac:(lia)).
    rewrite Hsm. unfold fits. destruct neg; bsplit; simpl; lia || done. }
  assert (num_val lhs * num_val rhs < 2 ^ p ->
    xorb (num_positive r p) (negb neg) && negb (num_zerop r)
    = negb (fits p false (wrap_to p false (num_val a) * wrap_to p false (num_val b)))) as Hsmall.
  { intros Hlt. rewrite Hsm in *. apply magnitude_overflow; try done. nia. }
  destruct (Z.ltb_spec (num_val lhs * num_val rhs) (2 ^ p)) as [Hlt|Hge].
  - assert (product_overflow p lhs rhs = false) as ->.
    { apply not_true_iff_false. intros Ho.
      apply (product_overflow_sound p) in Ho; [lia|done..]. }
    rewrite orb_false_l, Hsmall by done. tauto.
  - rewrite Hbig by done. split; [intros _; reflexivity|]. intros Hp64. apply orb_true_iff. left.
    apply not_false_iff_true. intros Ho.
    apply (product_overflow_complete p) in Ho; [lia..|done|done].
Qed.

(** ** Division *)

(** The high-bit search finds the logarithm when it starts at or above it. *)
Lemma find_high_bit_spec fuel part j i :
  0 < part < 2 ^ (j + 1) -> 0 <= j <= i -> i < 2 ^ 64 -> j < Z.of_nat fuel ->
  find_high_bit fuel part (2 ^ j) i = Some (i - (j - Z.log2 part)).
Proof.
  revert j i. induction fuel as [|fuel IH]; intros j i Hpart Hj Hi Hf; [lia|].
  cbn [find_high_bit]. rewrite land_bit_eqb, negb_involutive, testbit_top by lia.
  destruct (Z.leb_spec (2 ^ j) part).
  - rewrite (Z.log2_unique part j) by lia. f_equal. lia.
  - assert (0 < j). { destruct (Z.eq_dec j 0) as [->|]; [|lia]. change (2 ^ 0) with 1 in *. lia. }
    rewrite u64_small by lia. unfold shr64. rewrite Z.shiftr_div_pow2 by lia.
    assert (2 ^ j / 2 ^ 1 = 2 ^ (j - 1)) as ->.
    { rewrite (pow2_half j), Z.mul_comm by lia. by rewrite Z.div_mul by lia. }
    rewrite IH; [f_equal; lia| |lia..]. replace (j - 1 + 1) with j by lia. lia.
Qed.

(** Below the highest set bit there is nothing to find: the search runs on. *)
Lemma find_high_bit_none fuel part j i : 0 <= j -> part mod 2 ^ (j + 1) = 0 ->
  find_high_bit fuel part (2 ^ j) i = None.
Proof.
  revert j i. induction fuel as [|fuel IH]; intros j i Hj Hm; [done|].
  cbn [find_high_bit]. pose proof (pow2_gt0 j Hj).
  assert (forall k, 0 <= k -> part mod 2 ^ (k + 1) = 0 -> Z.testbit part k = false) as Hbit.
  { intros k Hk Hmk. rewrite <- (Z.mod_pow2_bits_low part (k + 1)), Hmk by lia. apply Z.bits_0. }
  rewrite land_bit_eqb, Hbit by done. simpl.
  destruct (Z.eq_dec j 0) as [->|].
  - clear IH Hbit. generalize (u64 (i - 1)). induction fuel as [|fuel IH]; intros i'; [done|].
    cbn [find_high_bit]. change (2 ^ 0 >> 1) with 0. rewrite Z.land_0_r. simpl.
    change (0 >> 1) with (2 ^ 0 >> 1). apply IH.
  - unfold shr64. rewrite Z.shiftr_div_pow2 by lia.
    assert (2 ^ j / 2 ^ 1 = 2 ^ (j - 1)) as ->.
    { rewrite (pow2_half j), Z.mul_comm by lia. by rewrite Z.div_mul by lia. }
    apply IH; [lia|]. replace (j - 1 + 1) with j by lia.
    rewrite pow2_split in Hm by lia. rewrite Z.rem_mul_r in Hm by lia.
    pose proof (Z.mod_pos_bound part (2 ^ j)). pose proof (Z.mod_pos_bound (part / 2 ^ j) (2 ^ 1)).
    nia.
Qed.

(** Setting quotient bit [i] when all bits up to [i] are clear. *)
Lemma lor_set_bit x k : 0 <= k -> x mod 2 ^ (k + 1) = 0 -> Z.lor x (2 ^ k) = x + 2 ^ k.
Proof.
  intros Hk Hm. apply Z.mod_divide in Hm; [|pose proof (pow2_gt0 (k + 1)); lia].
  destruct Hm as [c ->]. rewrite lor_low; [done|lia|].
  split; [apply Z.lt_le_incl, pow2_gt0; lia|apply pow2_lt; lia].
Qed.

Lemma set_quotient_bit rh rl i : 0 <= i < 128 ->
  0 <= rh < 2 ^ 64 -> 0 <= rl < 2 ^ 64 -> (rh * 2 ^ 64 + rl) mod 2 ^ (i + 1) = 0 ->
  let '(h, l) := if PART_PRECISION <=? i then (Z.lor rh (1 << (i - PART_PRECISION)), rl)
                 else (rh, Z.lor rl (1 << i)) in
  0 <= h < 2 ^ 64 /\ 0 <= l < 2 ^ 64 /\ h * 2 ^ 64 + l = rh * 2 ^ 64 + rl + 2 ^ i.
Proof.
  intros Hi Hh Hl Hm. unfold PART_PRECISION. destruct (Z.leb_spec 64 i).
  - rewrite shl64_one by lia.
    replace (2 ^ (i + 1)) with (2 ^ 64 * 2 ^ (i - 64 + 1)) in Hm
      by (rewrite <- pow2_split by lia; f_equal; lia).
    pose proof (pow2_gt0 (i - 64 + 1) ltac:(lia)).
    rewrite Z.rem_mul_r, mod_parts, div_parts in Hm by lia.
    pose proof (Z.mod_pos_bound rh (2 ^ (i - 64 + 1)) ltac:(lia)).
    assert (0 <= Z.lor rh (2 ^ (i - 64)) < 2 ^ 64).
    { apply (bitop_small 64); [lia|done|].
      split; [apply Z.lt_le_incl, pow2_gt0; lia|apply pow2_lt; lia]. }
    split; [done|]. split; [done|]. rewrite lor_set_bit by lia.
    replace (2 ^ i) with (2 ^ (i - 64) * 2 ^ 64) by (rewrite <- pow2_split by lia; f_equal; lia).
    lia.
  - rewrite shl64_one by lia.
    assert (rl mod 2 ^ (i + 1) = 0) as Hml.
    { assert (2 ^ 64 = 2 ^ (63 - i) * 2 ^ (i + 1)) as E
        by (rewrite <- pow2_split by lia; f_equal; lia).
      rewrite E, Z.mul_assoc, Z.add_comm, Z.mod_add in Hm by (pose proof (pow2_gt0 (i + 1)); lia).
      done. }
    assert (0 <= Z.lor rl (2 ^ i) < 2 ^ 64).
    { apply (bitop_small 64); [lia|done|].
      split; [apply Z.lt_le_incl, pow2_gt0; lia|apply pow2_lt; lia]. }
    split; [done|]. split; [done|]. rewrite lor_set_bit by lia. lia.
Qed.

(** Halving a number word by word. *)
Lemma shr_one n p : 1 <= p <= 128 -> wf_num p n ->
  let r := set_parts (high n >> 1) (Z.lor (low n >> 1) (high n << (PART_PRECISION - 1))) n in
  wf_num p r /\ num_val r = num_val n / 2.
Proof.
  intros Hp [[Hh Hl] Hv]. cbv zeta. unfold PART_PRECISION.
  destruct (shr_signed_range 0 (high n) (low n) 1) as [H1 H2]; try lia.
  pose proof (shr_words 0 (high n) (low n) 1 Hh Hl ltac:(lia)) as E.
  change (0 << (64 - 1)) with 0 in *. rewrite Z.lor_0_r in *.
  rewrite Z.mul_0_l, Z.add_0_l in E. change (2 ^ 1) with 2 in E.
  fold (num_val n) in E. rewrite (Z.mod_small (num_val n / 2)) in E.
  2:{ unfold num_val in *. split; [apply Z.div_pos; lia|apply Z.div_lt_upper_bound; lia]. }
  assert (num_val n / 2 < 2 ^ p).
  { apply Z.div_lt_upper_bound; [lia|]. pose proof (pow2_gt0 p). lia. }
  unfold wf_num, wf_parts, num_val at 1 3. cbn [set_parts high low]. rewrite E. done.
Qed.

(** One subtraction of the loop, on unsigned numbers. *)
Lemma sub_exact o a b : 1 <= precision o <= 128 ->
  wf_num (precision o) a -> wf_num (precision o) b ->
  unsignedp a = true -> num_val b <= num_val a ->
  let r := snd (num_binary_op o 0 a b CPP_MINUS) in
  wf_num (precision o) r /\ unsignedp r = true /\ num_val r = num_val a - num_val b.
Proof.
  set (p := precision o). intros Hp Ha Hb Hu Hle. cbv zeta.
  destruct (num_minus_abs o 0 a b Hp Ha Hb) as [Hw E]. fold p in Hw, E. cbv zeta in Hw, E.
  set (r := snd _) in *. rewrite spec_arith_abs in E by lia. cbv zeta in E.
  rewrite Hu in E. simpl orb in E. unfold abs, deliver in E.
  injection E as Eu Ei _. split; [done|]. split; [done|].
  pose proof (wf_num_range p r Hw). pose proof (wf_num_range p a Ha).
  pose proof (wf_num_range p b Hb). unfold ival in Ei. rewrite Eu in Ei.
  simpl in Ei. rewrite !Z.mod_small in Ei by (rewrite ?Z.mod_small by lia; lia). done.
Qed.

(** One iteration either leaves the remainder or takes [R * 2^i] off it and
    sets bit [i] of the quotient. *)
Lemma div_step_spec o R i lhs sub rh rl : 1 <= precision o <= 128 ->
  wf_num (precision o) lhs -> unsignedp lhs = true -> wf_num (precision o) sub ->
  num_val sub = R * 2 ^ i -> num_val lhs < 2 * (R * 2 ^ i) -> 0 <= i < 128 ->
  0 <= rh < 2 ^ 64 -> 0 <= rl < 2 ^ 64 -> (rh * 2 ^ 64 + rl) mod 2 ^ (i + 1) = 0 ->
  let '(l', rh', rl') := div_step o i lhs sub rh rl in
  wf_num (precision o) l' /\ unsignedp l' = true /\ num_val l' < R * 2 ^ i /\
  0 <= rh' < 2 ^ 64 /\ 0 <= rl' < 2 ^ 64 /\
  exists c, num_val l' = num_val lhs - c * 2 ^ i * R /\
            rh' * 2 ^ 64 + rl' = rh * 2 ^ 64 + rl + c * 2 ^ i.
Proof.
  set (p := precision o). intros Hp Hwl Hul Hws Hsub Hlt Hi Hh Hl Hm. unfold div_step. fold p.
  rewrite (num_greater_eq_spec p lhs sub) by done. rewrite Hul, orb_true_l. simpl wrap_to.
  pose proof (wf_num_range p _ Hwl). pose proof (wf_num_range p _ Hws).
  rewrite !Z.mod_small by lia. pose proof (set_quotient_bit rh rl i Hi Hh Hl Hm) as Hq.
  destruct (Z.leb_spec (num_val sub) (num_val lhs)).
  - destruct (sub_exact o lhs sub Hp Hwl Hws Hul ltac:(lia)) as (Hwr & Hur & Hvr).
    set (r := snd _) in *.
    destruct (PART_PRECISION <=? i); destruct Hq as (? & ? & ?);
      (split; [done|]); (split; [done|]); (split; [lia|]);
      (split; [done|]); (split; [done|]); exists 1; lia.
  - split; [done|]. split; [done|]. split; [lia|]. split; [done|]. split; [done|].
    exists 0. lia.
Qed.

Lemma div_loop_spec o R i lhs sub rh rl : 1 <= precision o <= 128 ->
  wf_num (precision o) lhs -> unsignedp lhs = true -> wf_num (precision o) sub ->
  0 < R -> num_val sub = R * 2 ^ Z.of_nat i ->
  num_val lhs < 2 * (R * 2 ^ Z.of_nat i) -> Z.of_nat i < 128 ->
  0 <= rh < 2 ^ 64 -> 0 <= rl < 2 ^ 64 ->
  (rh * 2 ^ 64 + rl) mod 2 ^ (Z.of_nat i + 1) = 0 ->
  let '(l', rh', rl') := div_loop o i lhs sub rh rl in
  wf_num (precision o) l' /\ unsignedp l' = true /\ num_val l' = num_val lhs mod R /\
  0 <= rh' < 2 ^ 64 /\ 0 <= rl' < 2 ^ 64 /\
  rh' * 2 ^ 64 + rl' = rh * 2 ^ 64 + rl + num_val lhs / R.
Proof.
  set (p := precision o). intros Hp. revert lhs sub rh rl.
  induction i as [|i IH]; intros lhs sub rh rl Hwl Hul Hws HR Hsub Hlt Hi Hh Hl Hm;
    cbn [div_loop];
    pose proof (div_step_spec o R _ lhs sub rh rl Hp Hwl Hul Hws Hsub Hlt ltac:(lia) Hh Hl Hm) as Hs;
    destruct (div_step _ _ _ _ _ _) as [[l1 rh1] rl1]; fold p in Hs;
    destruct Hs as (Hw1 & Hu1 & Hlt1 & Hh1 & Hl1 & c & Hc1 & Hc2);
    pose proof (wf_num_range p _ Hw1).
  - change (Z.of_nat 0) with 0 in *. change (2 ^ 0) with 1 in *.
    assert (num_val lhs = R * c + num_val l1) as E by lia.
    rewrite (Z.mod_unique (num_val lhs) R c (num_val l1)) by lia.
    rewrite <- (Z.div_unique (num_val lhs) R c (num_val l1)) by lia.
    repeat (split; [done|]). lia.
  - destruct (shr_one sub p Hp Hws) as [Hws' Hvs']. set (sub' := set_parts _ _ sub) in *.
    pose proof (pow2_gt0 (Z.of_nat i) ltac:(lia)).
    replace (2 ^ Z.of_nat (S i)) with (2 * 2 ^ Z.of_nat i) in *
      by (rewrite <- Z.pow_succ_r by lia; f_equal; lia).
    assert (num_val sub' = R * 2 ^ Z.of_nat i) as Hsub'.
    { rewrite Hvs', Hsub. symmetry. apply Z.div_unique with 0; lia. }
    specialize (IH l1 sub' rh1 rl1 Hw1 Hu1 Hws' HR Hsub' ltac:(lia) ltac:(lia) Hh1 Hl1).
    assert ((rh1 * 2 ^ 64 + rl1) mod 2 ^ (Z.of_nat i + 1) = 0) as Hm1.
    { replace (2 * 2 ^ Z.of_nat i) with (2 ^ (Z.of_nat i + 1)) in Hc2
        by (rewrite pow2_split by lia; lia).
      rewrite Hc2, Z.mod_add by (pose proof (pow2_gt0 (Z.of_nat i + 1)); lia).
      apply mod_zero_half; [apply pow2_gt0; lia|].
      rewrite <- Z.pow_succ_r by lia. by replace (Z.succ (Z.of_nat i + 1)) with
        (Z.of_nat (S i) + 1) by lia. }
    specialize (IH Hm1). destruct (div_loop o i l1 sub' rh1 rl1) as [[l' rh'] rl'].
    destruct IH as (? & ? & Hval & ? & ? & Hquo).
    replace (num_val l1) with (num_val lhs + (- (c * (2 * 2 ^ Z.of_nat i))) * R) in Hval, Hquo by lia.
    rewrite Z.mod_add in Hval by lia. rewrite Z.div_add in Hquo by lia.
    repeat (split; [done|]). lia.
Qed.

(** The precisions at which the search starts at or above the divisor's top
    bit: one part, or exactly two. *)
Definition div_precision (p : Z) : Prop := 1 <= p <= 64 \/ p = 128.

Lemma div_high_bit_spec fuel p r : div_precision p -> wf_num p r -> (128 <= fuel)%nat ->
  div_high_bit fuel p r = if num_val r =? 0 then None else Some (Some (Z.log2 (num_val r))).
Proof.
  intros Hp Hw Hf. unfold div_high_bit, PART_PRECISION. pose proof Hw as [[Hh Hl] Hv].
  destruct (Z.eqb_spec (high r) 0) as [E|E]; simpl negb; cbv iota.
  - unfold num_val in *. rewrite E, Z.mul_0_l, Z.add_0_l in *.
    destruct (Z.eqb_spec (low r) 0); simpl negb; cbv iota; [done|].
    destruct Hp as [Hp| ->].
    + destruct (Z.ltb_spec 64 p); [lia|]. rewrite shl64_one by lia.
      rewrite find_high_bit_spec; [do 2 f_equal; lia| |lia..].
      replace (p - 1 + 1) with p by lia. lia.
    + change (64 <? 128) with true. cbv iota. rewrite shl64_one by lia.
      rewrite find_high_bit_spec; [do 2 f_equal; lia| |lia..]. change (128 - 64 - 1 + 1) with 64. lia.
  - assert (p = 128) as ->.
    { destruct Hp as [Hp|]; [|done]. destruct (high_small p r Hw ltac:(lia)). lia. }
    change (128 - 1 - 64) with 63. change (128 - 1) with 127. rewrite shl64_one by lia.
    rewrite find_high_bit_spec; [|change (63 + 1) with 64; lia|lia..].
    destruct (Z.eqb_spec (num_val r) 0); [unfold num_val in *; lia|]. do 2 f_equal.
    pose proof (Z.log2_spec (high r) ltac:(lia)) as [L1 L2]. rewrite Z.pow_succ_r in L2 by apply Z.log2_nonneg.
    pose proof (Z.log2_nonneg (high r)).
    rewrite (Z.log2_unique (num_val r) (64 + Z.log2 (high r))); [lia|lia|].
    rewrite Z.pow_succ_r by lia. rewrite pow2_split by lia. unfold num_val. nia.
Qed.

Lemma num_div_unfold fuel o sk a b op :
  let p := precision o in let u := unsignedp a || unsignedp b in
  let neg := xorb (is_neg p u a) (is_neg p u b) in
  let lhs := magnitude p u a in let rhs := magnitude p u b in
  num_div_op fuel o sk a b op =
  match div_high_bit fuel p rhs with
  | None => Some (when (sk =? 0) (cpp_error CPP_DL_ERROR "division by zero in #if") ;;w mret lhs)
  | Some None => None
  | Some (Some i) =>
      let i := u64 (p - i - 1) in
      let sub := num_lshift (set_unsignedp true rhs) p i in
      let '(l', rh, rl) := div_loop o (Z.to_nat i) (set_unsignedp true lhs) sub 0 0 in
      Some (mret
        match op with
        | CPP_DIV =>
            let r := mk_num rh rl u false in
            if negb u then
              let r := if neg then num_negate r p else r in
              set_overflow (xorb (num_positive r p) (negb neg) && negb (num_zerop r)) r
            else r
        | _ =>
            let l' := mk_num (high l') (low l') u false in
            if is_neg p u a then num_negate l' p else l'
        end)
  end.
Proof.
  cbv zeta. unfold num_div_op, is_neg, magnitude. cbv zeta.
  set (u := unsignedp a || unsignedp b).
  destruct (negb u && negb (num_positive a (precision o)));
    destruct (negb u && negb (num_positive b (precision o))); done.
Qed.

(** The loop run on two magnitudes. *)
Lemma div_magnitudes o lhs rhs : 1 <= precision o <= 128 ->
  wf_num (precision o) lhs -> wf_num (precision o) rhs -> 0 < num_val rhs ->
  let p := precision o in
  let i := u64 (p - Z.log2 (num_val rhs) - 1) in
  let sub := num_lshift (set_unsignedp true rhs) p i in
  let '(l', rh, rl) := div_loop o (Z.to_nat i) (set_unsignedp true lhs) sub 0 0 in
  wf_num p l' /\ num_val l' = num_val lhs mod num_val rhs /\
  0 <= rh < 2 ^ 64 /\ 0 <= rl < 2 ^ 64 /\ rh * 2 ^ 64 + rl = num_val lhs / num_val rhs.
Proof.
  set (p := precision o). intros Hp Hl Hr Hpos. cbv zeta.
  pose proof (wf_num_range p _ Hl). pose proof (wf_num_range p _ Hr).
  set (R := num_val rhs) in *. pose proof (Z.log2_spec R Hpos) as [L1 L2].
  pose proof (Z.log2_nonneg R). assert (Z.log2 R < p) by (apply Z.log2_lt_pow2; lia).
  rewrite u64_small by lia. set (i := p - Z.log2 R - 1) in *.
  assert (2 ^ p = 2 ^ Z.log2 R * 2 ^ (i + 1)) as E
    by (rewrite <- pow2_split by lia; f_equal; lia).
  assert (2 ^ p = 2 ^ Z.succ (Z.log2 R) * 2 ^ i) as E'
    by (rewrite <- pow2_split by lia; f_equal; lia).
  pose proof (pow2_gt0 i ltac:(lia)). assert (R * 2 ^ i < 2 ^ p) by nia.
  destruct (num_lshift_spec p (set_unsignedp true rhs) i Hp Hr ltac:(lia)) as [Hws Has].
  set (sub := num_lshift (set_unsignedp true rhs) p i) in *.
  assert (num_val sub = R * 2 ^ i) as Hvs.
  { unfold abs, deliver in Has. injection Has as Hu Hv _. pose proof (wf_num_range p _ Hws).
    unfold ival in Hv. rewrite Hu in Hv. simpl in Hv.
    change (num_val (set_unsignedp true rhs)) with R in Hv.
    rewrite !Z.mod_small in Hv by (rewrite ?Z.mod_small by lia; nia). done. }
  pose proof (div_loop_spec o R (Z.to_nat i) (set_unsignedp true lhs) sub 0 0 Hp Hl eq_refl Hws Hpos)
    as Hd.
  rewrite Z2Nat.id in Hd by lia. fold p in Hd.
  specialize (Hd Hvs). change (num_val (set_unsignedp true lhs)) with (num_val lhs) in Hd.
  assert (2 ^ (i + 1) = 2 * 2 ^ i) as E2 by (rewrite pow2_split by lia; lia).
  specialize (Hd ltac:(nia) ltac:(lia) ltac:(lia) ltac:(lia)).
  specialize (Hd ltac:(apply Z.mod_0_l; pose proof (pow2_gt0 (i + 1)); lia)).
  destruct (div_loop _ _ _ _ _ _) as [[l' rh] rl].
  destruct Hd as (? & _ & ? & ? & ? & ?). split; [done|]. split; [done|]. repeat split; lia.
Qed.

(** Sign and magnitude of a quotient and of a remainder. *)
Lemma sign_magnitude_quot x y : y <> 0 ->
  Z.quot x y = if xorb (x <? 0) (y <? 0) then - (Z.abs x / Z.abs y) else Z.abs x / Z.abs y.
Proof.
  intros Hy. rewrite Z.quot_div by done.
  destruct (Z.eq_dec x 0) as [->|].
  { change (Z.abs 0) with 0. rewrite Z.div_0_l by lia. bsplit; simpl; lia. }
  destruct (Z.ltb_spec x 0), (Z.ltb_spec y 0); simpl;
    [rewrite (Z.sgn_neg x), (Z.sgn_neg y) by lia|rewrite (Z.sgn_neg x), (Z.sgn_pos y) by lia
    |rewrite (Z.sgn_pos x), (Z.sgn_neg y) by lia|rewrite (Z.sgn_pos x), (Z.sgn_pos y) by lia]; lia.
Qed.

Lemma sign_magnitude_rem x y : y <> 0 ->
  Z.rem x y = if x <? 0 then - (Z.abs x mod Z.abs y) else Z.abs x mod Z.abs y.
Proof.
  intros Hy. rewrite Z.rem_mod by done. destruct (Z.ltb_spec x 0).
  - rewrite Z.sgn_neg by lia. lia.
  - destruct (Z.eq_dec x 0) as [->|].
    + change (Z.abs 0) with 0. rewrite Z.mod_0_l by lia. done.
    + rewrite Z.sgn_pos by lia. lia.
Qed.

Lemma wrap_to_nonzero p u n : 1 <= p -> wf_num p n -> num_val n <> 0 ->
  wrap_to p u (num_val n) <> 0.
Proof.
  intros Hp Hw Hn E. apply Hn. pose proof (wf_num_range p n Hw).
  apply (f_equal (fun z => z mod 2 ^ p)) in E.
  rewrite wrap_to_cong, Z.mod_small, Z.mod_0_l in E by lia. done.
Qed.

(** The facts both operators start from: the magnitudes and their quotient. *)
Lemma num_div_start fuel o sk a b op : div_precision (precision o) -> (128 <= fuel)%nat ->
  wf_num (precision o) a -> wf_num (precision o) b -> num_val b <> 0 ->
  let p := precision o in let u := unsignedp a || unsignedp b in
  let x := wrap_to p u (num_val a) in let y := wrap_to p u (num_val b) in
  let neg := xorb (x <? 0) (y <? 0) in
  exists q m, wf_num p q /\ num_val q = Z.abs x / Z.abs y /\ unsignedp q = u /\ overflow q = false /\
    wf_num p m /\ num_val m = Z.abs x mod Z.abs y /\ unsignedp m = u /\ overflow m = false /\
    num_div_op fuel o sk a b op = Some (mret
      match op with
      | CPP_DIV =>
          if negb u then
            let r := if neg then num_negate q p else q in
            set_overflow (xorb (num_positive r p) (negb neg) && negb (num_zerop r)) r
          else q
      | _ => if x <? 0 then num_negate m p else m
      end).
Proof.
  set (p := precision o). intros Hp Hfuel Ha Hb Hnz. cbv zeta.
  assert (1 <= p <= 128) as Hp' by (unfold div_precision in Hp; lia).
  set (u := unsignedp a || unsignedp b).
  pose proof (num_div_unfold fuel o sk a b op) as E. cbv zeta in E. fold p u in E.
  destruct (magnitude_spec p u a Hp' Ha) as (Hwa & Hva & Hna).
  destruct (magnitude_spec p u b Hp' Hb) as (Hwb & Hvb & Hnb).
  pose proof (wrap_to_nonzero p u b ltac:(lia) Hb Hnz).
  rewrite Hna, Hnb in E. rewrite (div_high_bit_spec fuel p) in E by done.
  destruct (Z.eqb_spec (num_val (magnitude p u b)) 0); [lia|]. cbv zeta in E.
  pose proof (div_magnitudes o _ _ Hp' Hwa Hwb ltac:(lia)) as Hd. cbv zeta in Hd. fold p in Hd.
  destruct (div_loop _ _ _ _ _ _) as [[l' rh] rl]. destruct Hd as (Hwl & Hvl & Hh & Hl & Hq).
  rewrite Hva, Hvb in Hvl, Hq. pose proof (wf_num_range p _ Hwa).
  exists (mk_num rh rl u false), (mk_num (high l') (low l') u false).
  assert (wf_num p (mk_num rh rl u false)) as Hwq.
  { split; [done|]. unfold num_val. simpl. rewrite Hq.
    apply Z.le_lt_trans with (num_val (magnitude p u a)); [|lia].
    rewrite Hva. apply Z.div_le_upper_bound; nia. }
  repeat (split; [done|]). rewrite E. destruct op; done.
Qed.

Lemma num_quot_abs fuel o sk a b : div_precision (precision o) -> (128 <= fuel)%nat ->
  wf_num (precision o) a -> wf_num (precision o) b -> num_val b <> 0 ->
  let p := precision o in
  exists r, num_div_op fuel o sk a b CPP_DIV = Some ([], r) /\
    wf_num p r /\ abs p r = spec_arith p Z.quot (abs p a) (abs p b).
Proof.
  set (p := precision o). intros Hp Hf Ha Hb Hnz. cbv zeta.
  assert (1 <= p <= 128) as Hp' by (unfold div_precision in Hp; lia).
  destruct (num_div_start fuel o sk a b CPP_DIV Hp Hf Ha Hb Hnz)
    as (q & m & Hwq & Hvq & Huq & Hoq & _ & _ & _ & _ & E).
  fold p in E, Hwq, Hvq. set (u := unsignedp a || unsignedp b) in *. rewrite E.
  eexists. split; [reflexivity|]. rewrite spec_arith_abs by lia. cbv zeta. fold u.
  set (x := wrap_to p u (num_val a)) in *. set (y := wrap_to p u (num_val b)) in *.
  rewrite (sign_magnitude_quot x y) by (apply wrap_to_nonzero; lia || done).
  set (neg := xorb (x <? 0) (y <? 0)) in *. pose proof (wf_num_range p _ Hwq).
  destruct (from_magnitude p neg (num_val q) q Hp' Hwq) as [Hwr Hvr].
  { by rewrite Z.mod_small by lia. }
  rewrite Hvq in Hvr. unfold abs, deliver. destruct u eqn:Eu; simpl negb; cbv iota.
  - assert (neg = false) as ->.
    { unfold neg, x, y. simpl. pose proof (pow2_gt0 p ltac:(lia)).
      pose proof (Z.mod_pos_bound (num_val a) (2 ^ p)). pose proof (Z.mod_pos_bound (num_val b) (2 ^ p)).
      bsplit; simpl; lia || done. }
    split; [done|]. rewrite Huq, Hoq. unfold ival. by rewrite Huq, Hvq.
  - split; [done|]. set (r := if neg then num_negate q p else q) in *.
    assert (unsignedp r = false) as Hur.
    { unfold r. destruct neg; [|done]. by destruct (num_negate_spec p q Hp' Hwq) as (_ & _ & -> & _). }
    cbn [unsignedp overflow set_overflow]. rewrite Hur, ival_set_overflow. f_equal.
    + unfold ival. rewrite Hur, Hvr. apply wrap_to_eq.
      by rewrite Z.mod_mod by (pose proof (pow2_gt0 p); lia).
    + rewrite (magnitude_overflow p neg (Z.abs x / Z.abs y)) by (done || lia). done.
Qed.

Lemma num_rem_abs fuel o sk a b : div_precision (precision o) -> (128 <= fuel)%nat ->
  wf_num (precision o) a -> wf_num (precision o) b -> num_val b <> 0 ->
  let p := precision o in
  exists r, num_div_op fuel o sk a b CPP_MOD = Some ([], r) /\
    wf_num p r /\ abs p r = spec_arith p Z.rem (abs p a) (abs p b).
Proof.
  set (p := precision o). intros Hp Hf Ha Hb Hnz. cbv zeta.
  assert (1 <= p <= 128) as Hp' by (unfold div_precision in Hp; lia).
  destruct (num_div_start fuel o sk a b CPP_MOD Hp Hf Ha Hb Hnz)
    as (q & m & _ & _ & _ & _ & Hwm & Hvm & Hum & Hom & E).
  fold p in E, Hwm, Hvm. set (u := unsignedp a || unsignedp b) in *. rewrite E.
  eexists. split; [reflexivity|]. rewrite spec_arith_abs by lia. cbv zeta. fold u.
  set (x := wrap_to p u (num_val a)) in *. set (y := wrap_to p u (num_val b)) in *.
  assert (y <> 0) by (apply wrap_to_nonzero; lia || done).
  rewrite (sign_magnitude_rem x y) by done.
  pose proof (wf_num_range p _ Hwm) as Hrm. rewrite Hvm in Hrm.
  pose proof (Z.mod_pos_bound (Z.abs x) (Z.abs y) ltac:(lia)).
  pose proof (pow2_half p ltac:(lia)). pose proof (pow2_gt0 (p - 1) ltac:(lia)).
  assert (Z.abs y <= if u then 2 ^ p else 2 ^ (p - 1)) as Hy.
  { unfold y. pose proof (fits_wrap p u (num_val b) ltac:(lia)) as Hfit.
    unfold fits in Hfit. destruct u; bprop; lia. }
  assert (fits p u (if x <? 0 then - (Z.abs x mod Z.abs y) else Z.abs x mod Z.abs y) = true) as Hfit.
  { unfold fits. destruct u.
    - assert (0 <= x) by (apply Z.mod_pos_bound; lia).
      destruct (Z.ltb_spec x 0); [lia|]. bsplit; simpl; lia || done.
    - destruct (x <? 0); bsplit; simpl; lia || done. }
  destruct (from_magnitude p (x <? 0) (num_val m) m Hp' Hwm) as [Hwr Hvr].
  { by rewrite Z.mod_small by lia. }
  rewrite Hvm in Hvr. split; [done|]. unfold abs, deliver. rewrite Hfit, andb_false_r.
  destruct (num_negate_spec p m Hp' Hwm) as (_ & _ & Hun & Hon).
  assert (unsignedp (if x <? 0 then num_negate m p else m) = u) as Hur
    by (destruct (x <? 0); [rewrite Hun|]; done).
  rewrite Hur. f_equal.
  - unfold ival. rewrite Hur, Hvr. apply wrap_to_eq. by rewrite Z.mod_mod by lia.
  - destruct (x <? 0); [|done]. rewrite Hon, Hum, Hvm. destruct u; [done|].
    simpl. apply Z.eqb_neq. lia.
Qed.

(** ** The remaining operators, as the specification has them *)

Lemma compare_abs o a b op (f : Z -> Z -> bool) : 2 <= precision o <= 128 ->
  wf_num (precision o) a -> wf_num (precision o) b ->
  (op, f) ∈ [(CPP_GREATER_EQ, Z.geb); (CPP_LESS, Z.ltb); (CPP_GREATER, Z.gtb); (CPP_LESS_EQ, Z.leb)] ->
  let p := precision o in
  abs p (num_inequality_op o a b op) = spec_compare p f (abs p a) (abs p b).
Proof.
  set (p := precision o). intros Hp Ha Hb Hin. cbv zeta.
  unfold num_inequality_op, spec_compare, common. fold p.
  rewrite !conv_abs, truth_abs by lia. cbn [abs a_uns].
  rewrite num_greater_eq_spec by (done || lia).
  rewrite (num_eq_spec p (unsignedp a || unsignedp b)) by (done || lia).
  f_equal. rewrite !elem_of_cons in Hin.
  destruct Hin as [[= -> ->]|[[= -> ->]|[[= -> ->]|[[= -> ->]|Hin]]]];
    [..|by apply elem_of_nil in Hin]; rewrite ?Z.geb_leb, ?Z.gtb_ltb; bsplit; simpl; lia || done.
Qed.

Lemma equality_abs o a b op (f : Z -> Z -> bool) : 2 <= precision o <= 128 ->
  wf_num (precision o) a -> wf_num (precision o) b ->
  (op, f) ∈ [(CPP_EQ_EQ, Z.eqb); (CPP_NOT_EQ, fun x y => negb (x =? y))] ->
  let p := precision o in
  abs p (num_equality_op a b op) = spec_compare p f (abs p a) (abs p b).
Proof.
  set (p := precision o). intros Hp Ha Hb Hin. cbv zeta.
  unfold num_equality_op, spec_compare, common.
  rewrite !conv_abs, truth_abs by lia. cbn [abs a_uns].
  rewrite (num_eq_spec p (unsignedp a || unsignedp b)) by (done || lia).
  f_equal. rewrite !elem_of_cons in Hin.
  by destruct Hin as [[= -> ->]|[[= -> ->]|Hin]]; [..|by apply elem_of_nil in Hin].
Qed.

Lemma num_zerop_ival p n : 1 <= p -> wf_num p n -> num_zerop n = (ival p n =? 0).
Proof.
  intros Hp Hw. rewrite num_zerop_val by apply Hw. unfold ival.
  destruct (Z.eqb_spec (num_val n) 0) as [E|E].
  - rewrite E, (wrap_to_id p _ 0); [done|done|].
    pose proof (pow2_gt0 p ltac:(lia)). pose proof (pow2_gt0 (p - 1) ltac:(lia)).
    unfold fits. destruct (unsignedp n); bsplit; lia || done.
  - symmetry. apply Z.eqb_neq. by apply wrap_to_nonzero.
Qed.

(** ** Results *)

(** C21: addition and subtraction of preprocessor numbers, at every precision
    from 1 to 128 bits, emit no diagnostic, keep the unused high bits zero and
    agree with two's complement arithmetic: operands are brought to their
    common type, the result is the exact sum or difference wrapped to the
    type, and the overflow flag is set exactly when the type is signed and the
    exact result does not fit. *)
Theorem num_additive_refines (o : cpp_options) (sk : Z) (a b : cpp_num) :
  1 <= precision o <= 128 ->
  wf_num (precision o) a -> wf_num (precision o) b ->
  forall op f, (op = CPP_PLUS /\ f = Z.add) \/ (op = CPP_MINUS /\ f = Z.sub) ->
  exists r, num_binary_op o sk a b op = ([], r) /\ wf_num (precision o) r /\
    abs (precision o) r = spec_arith (precision o) f (abs (precision o) a) (abs (precision o) b).
Proof.
  intros Hp Ha Hb op f [[-> ->]|[-> ->]]; eexists; (split; [reflexivity|]);
    [apply (num_plus_abs o sk)|apply (num_minus_abs o sk)]; done.
Qed.

Lemma num_additive_refines_witness :
  exists r, num_binary_op gnuc17_options 0 (mk_num 0 (2 ^ 63 - 1) false false)
              (mk_num 0 1 false false) CPP_PLUS = ([], r) /\ wf_num 64 r /\
    abs 64 r = mk_anum false (- 2 ^ 63) true.
Proof.
  apply (num_additive_refines gnuc17_options 0 (mk_num 0 (2 ^ 63 - 1) false false)
           (mk_num 0 1 false false)) with (f := Z.add);
    [simpl; lia|by vm_compute|by vm_compute|by left].
Defined.

(** The shift operators of #if emit no diagnostic, keep the invariant and,
    at every precision from 1 to 128 bits and for every count, however large
    and of either sign, a left shift multiplies by the power of two (wrapping,
    with overflow flagged exactly when a signed result does not fit), a right
    shift is the floor quotient, and a negative count shifts the other way. *)
Theorem num_shift_refines (o : cpp_options) (sk : Z) (a b : cpp_num) (left : bool) :
  1 <= precision o <= 128 ->
  wf_num (precision o) a -> wf_num (precision o) b ->
  exists r, num_binary_op o sk a b (if left then CPP_LSHIFT else CPP_RSHIFT) = ([], r) /\
    wf_num (precision o) r /\
    abs (precision o) r = spec_shift (precision o) left (abs (precision o) a) (ival (precision o) b).
Proof.
  intros Hp Ha Hb. pose proof (num_shift_abs o sk a b left Hp Ha Hb) as H. cbv zeta in H.
  eexists. split; [|exact H]. destruct left; simpl; by destruct (_ && _).
Qed.

Lemma num_shift_refines_witness :
  exists r, num_binary_op gnuc17_options 0 (mk_num 0 3 false false)
              (mk_num 0 (2 ^ 64 - 1) false false) CPP_LSHIFT = ([], r) /\
    wf_num 64 r /\ abs 64 r = mk_anum false 1 false.
Proof.
  apply (num_shift_refines gnuc17_options 0 (mk_num 0 3 false false)
           (mk_num 0 (2 ^ 64 - 1) false false) true);
    [simpl; lia|by vm_compute|by vm_compute].
Defined.

(** The six comparison operators compare the operands' values in their
    common type (signed when both are, unsigned otherwise), at every precision
    from 2 to 128 bits, and deliver a signed 0 or 1 without overflow. *)
Theorem num_compare_refines (o : cpp_options) (a b : cpp_num) :
  2 <= precision o <= 128 ->
  wf_num (precision o) a -> wf_num (precision o) b ->
  let cmp f := spec_compare (precision o) f (abs (precision o) a) (abs (precision o) b) in
  let ab := abs (precision o) in
  ab (num_inequality_op o a b CPP_GREATER_EQ) = cmp Z.geb /\
  ab (num_inequality_op o a b CPP_LESS) = cmp Z.ltb /\
  ab (num_inequality_op o a b CPP_GREATER) = cmp Z.gtb /\
  ab (num_inequality_op o a b CPP_LESS_EQ) = cmp Z.leb /\
  ab (num_equality_op a b CPP_EQ_EQ) = cmp Z.eqb /\
  ab (num_equality_op a b CPP_NOT_EQ) = cmp (fun x y => negb (x =? y)).
Proof.
  intros Hp Ha Hb. cbv zeta.
  repeat split; (apply compare_abs || apply equality_abs); done || (rewrite !elem_of_cons; tauto).
Qed.

Lemma num_compare_refines_witness :
  abs 64 (num_inequality_op gnuc17_options (mk_num 0 (2 ^ 64 - 1) false false)
            (mk_num 0 1 false false) CPP_LESS) = truth true.
Proof.
  apply (num_compare_refines gnuc17_options (mk_num 0 (2 ^ 64 - 1) false false)
           (mk_num 0 1 false false));
    [simpl; lia|by vm_compute|by vm_compute].
Defined.

(** The bitwise operators &, | and ^ act on the two's complement
    representations in the common type, and the unary operators deliver what C
    requires: - negates with overflow flagged exactly at the most negative
    value, ~ is the one's complement, ! tests for zero, + is the identity;
    the result keeps the unused high bits zero in every case. *)
Theorem num_bitwise_unary_refines (o : cpp_options) (sk : Z) (a b : cpp_num) :
  2 <= precision o <= 128 ->
  wf_num (precision o) a -> wf_num (precision o) b ->
  let p := precision o in
  let refines r x := wf_num p r /\ abs p r = x in
  refines (num_bitwise_op a b CPP_AND) (spec_bitwise p Z.land (abs p a) (abs p b)) /\
  refines (num_bitwise_op a b CPP_OR) (spec_bitwise p Z.lor (abs p a) (abs p b)) /\
  refines (num_bitwise_op a b CPP_XOR) (spec_bitwise p Z.lxor (abs p a) (abs p b)) /\
  refines (snd (num_unary_op o sk a CPP_UMINUS)) (deliver p (unsignedp a) (- ival p a)) /\
  refines (snd (num_unary_op o sk a CPP_COMPL))
    (mk_anum (unsignedp a) (wrap_to p (unsignedp a) (- ival p a - 1)) false) /\
  refines (snd (num_unary_op o sk a CPP_NOT)) (truth (ival p a =? 0)) /\
  refines (snd (num_unary_op o sk a CPP_UPLUS)) (mk_anum (unsignedp a) (ival p a) false).
Proof.
  set (p := precision o). intros Hp Ha Hb. cbv zeta.
  do 3 (split; [apply (bitop_abs p); done || lia|]). split; [|split; [|split]].
  - split; [apply num_negate_spec|apply num_negate_abs]; done || lia.
  - apply num_compl_abs; fold p; done || lia.
  - simpl. split; [apply truth_wf; lia|]. rewrite truth_abs by lia.
    by rewrite (num_zerop_ival p) by (done || lia).
  - done.
Qed.

Lemma num_bitwise_unary_refines_witness :
  abs 64 (snd (num_unary_op gnuc17_options 0 (mk_num 0 (2 ^ 63) false false) CPP_UMINUS))
  = mk_anum false (- 2 ^ 63) true.
Proof.
  apply (num_bitwise_unary_refines gnuc17_options 0 (mk_num 0 (2 ^ 63) false false)
           (mk_num 0 0 false false));
    [simpl; lia|by vm_compute|by vm_compute].
Defined.

(** Multiplication delivers the product wrapped to the common type at
    every precision from 1 to 128 bits and keeps the invariant; its overflow
    flag is never set on a product that fits, and at the precisions of every
    supported intmax_t (up to 64 bits) it is set exactly when a signed product
    does not fit. *)
Theorem num_mul_refines (o : cpp_options) (a b : cpp_num) :
  1 <= precision o <= 128 ->
  wf_num (precision o) a -> wf_num (precision o) b ->
  let p := precision o in
  let spec := spec_arith p Z.mul (abs p a) (abs p b) in
  let r := num_mul o a b in
  wf_num p r /\ unsignedp r = a_uns spec /\ ival p r = a_val spec /\
  (overflow r = true -> a_ovf spec = true) /\ (p <= 64 -> abs p r = spec).
Proof.
  intros Hp Ha Hb. pose proof (num_mul_value o a b Hp Ha Hb) as H. cbv zeta in *.
  destruct H as (? & Hu & Hv & ? & Ho). do 4 (split; [done|]). intros Hle.
  unfold abs. rewrite Hu, Hv, Ho by done. by destruct (spec_arith _ _ _ _).
Qed.

Lemma num_mul_refines_witness :
  abs 64 (num_mul gnuc17_options (mk_num 0 (2 ^ 32) false false) (mk_num 0 (2 ^ 32) false false))
  = mk_anum false 0 true.
Proof.
  apply (num_mul_refines gnuc17_options (mk_num 0 (2 ^ 32) false false)
           (mk_num 0 (2 ^ 32) false false));
    [simpl; lia|by vm_compute|by vm_compute|simpl; lia].
Defined.



(** The options of a target whose widest integer has [p] bits. *)
Definition with_precision (p : Z) (o : cpp_options) : cpp_options := {|
  lang := lang o; cplusplus := cplusplus o; c99 := c99 o; cpp_pedantic := cpp_pedantic o;
  traditional := traditional o; cpp_warn_traditional := cpp_warn_traditional o;
  cpp_warn_long_long := cpp_warn_long_long o;
  cpp_warn_c90_c99_compat := cpp_warn_c90_c99_compat o;
  cpp_warn_deprecated := cpp_warn_deprecated o;
  ext_numeric_literals := ext_numeric_literals o; user_literals := user_literals o;
  digit_separators := digit_separators o; binary_constants := binary_constants o;
  extended_numbers := extended_numbers o; c11_identifiers := c11_identifiers o;
  dollars_in_ident := dollars_in_ident o; warn_dollars := warn_dollars o;
  warn_undef := warn_undef o; warn_num_sign_change := warn_num_sign_change o;
  warn_multichar := warn_multichar o; warn_expansion_to_defined := warn_expansion_to_defined o;
  warn_endif_labels := warn_endif_labels o; precision := p;
  char_precision := char_precision o; int_precision := int_precision o;
  wchar_precision := wchar_precision o; unsigned_char := unsigned_char o;
  unsigned_wchar := unsigned_wchar o; bytes_big_endian := bytes_big_endian o;
  objc := objc o; trigraphs := trigraphs o; digraphs := digraphs o; uliterals := uliterals o;
  utf8_char_literals := utf8_char_literals o; rliterals := rliterals o;
  extended_identifiers := extended_identifiers o; va_opt := va_opt o;
  warn_trigraphs := warn_trigraphs o; warn_comments := warn_comments o;
  warn_literal_suffix := warn_literal_suffix o; warn_normalize := warn_normalize o;
  cpp_warn_cxx11_compat := cpp_warn_cxx11_compat o |}.

Lemma div_high_bit_96 fuel : div_high_bit fuel 96 (mk_num 0 (2 ^ 40) true false) = Some None.
Proof.
  unfold div_high_bit. cbn [high low].
  change (negb (0 =? 0)) with false. change (negb (2 ^ 40 =? 0)) with true.
  change (PART_PRECISION <? 96) with true. cbv iota zeta. f_equal.
  change (1 << _) with (2 ^ 31). by apply find_high_bit_none.
Qed.

(** Between 64 and 128 bits the high-bit search of a divisor that
    fits in the low part starts too low: at a precision of 96 bits, which the
    sanity check of init.c accepts, dividing by 2^40 never returns. *)
Theorem num_div_diverges (fuel : nat) (a : cpp_num) (op : cpp_ttype) :
  num_div_op fuel (with_precision 96 gnuc17_options) 0 a (mk_num 0 (2 ^ 40) true false) op = None.
Proof.
  pose proof (num_div_unfold fuel (with_precision 96 gnuc17_options) 0 a
    (mk_num 0 (2 ^ 40) true false) op) as E. cbv zeta in E. rewrite E. clear E.
  unfold magnitude, is_neg. simpl unsignedp. rewrite orb_true_r. cbn [negb andb].
  change (precision _) with 96. by rewrite div_high_bit_96.
Qed.

(** At a precision of 128 bits the overflow flag of a multiplication is
    not complete: the carry out of the high part is dropped, and a product
    that does not fit can be delivered as if it did. *)
Theorem num_mul_misses_overflow :
  exists a b, wf_num 128 a /\ wf_num 128 b /\
    overflow (num_mul (with_precision 128 gnuc17_options) a b) = false /\
    a_ovf (spec_arith 128 Z.mul (abs 128 a) (abs 128 b)) = true.
Proof.
  exists (mk_num 6148914691236517205 (2 ^ 64 - 1) false false), (mk_num 0 3 false false).
  repeat split; try (vm_compute; congruence); reflexivity.
Qed.
