(* ===== verification/NumLit.v ===== *)
(** * Number literals (libcpp/expr.c, cpp_classify_number and below)

    The classification of a preprocessing number (category, radix, width and
    type suffix) and the conversion of an integer constant to a [cpp_num].
    The spelling of a token is the list of its bytes; the lexer ends it with a
    NUL, which is what [peek] reads at the end.  A read of the source at
    [str[1]] is [peek1].  The flags are the CPP_N_* bits of cpplib.h. *)

From Stdlib Require Import ZArith Lia Bool String Ascii.
From stdpp Require Import base tactics list numbers.
From S2P Require Import Prelude Reader CppNum.

Local Open Scope string_scope.
Local Open Scope list_scope.
Local Open Scope Z_scope.
Local Open Scope cint_scope.

(** ** Definitions *)

Definition CPP_N_CATEGORY : Z := 0x000F.
Definition CPP_N_INVALID : Z := 0x0000.
Definition CPP_N_INTEGER : Z := 0x0001.
Definition CPP_N_FLOATING : Z := 0x0002.
Definition CPP_N_WIDTH : Z := 0x00F0.
Definition CPP_N_SMALL : Z := 0x0010.
Definition CPP_N_MEDIUM : Z := 0x0020.
Definition CPP_N_LARGE : Z := 0x0040.
Definition CPP_N_MD_W : Z := 0x10000.
Definition CPP_N_MD_Q : Z := 0x20000.
Definition CPP_N_RADIX : Z := 0x0F00.
Definition CPP_N_DECIMAL : Z := 0x0100.
Definition CPP_N_HEX : Z := 0x0200.
Definition CPP_N_OCTAL : Z := 0x0400.
Definition CPP_N_BINARY : Z := 0x0800.
Definition CPP_N_UNSIGNED : Z := 0x1000.
Definition CPP_N_IMAGINARY : Z := 0x2000.
Definition CPP_N_DFLOAT : Z := 0x4000.
Definition CPP_N_DEFAULT : Z := 0x8000.
Definition CPP_N_FRACT : Z := 0x100000.
Definition CPP_N_ACCUM : Z := 0x200000.
Definition CPP_N_FLOATN : Z := 0x400000.
Definition CPP_N_FLOATNX : Z := 0x800000.
Definition CPP_N_USERDEF : Z := 0x1000000.
Definition CPP_FLOATN_SHIFT : Z := 24.
Definition CPP_FLOATN_MAX : Z := 0xF0.

(** A flag test [result & flag]. *)
Definition flag (result f : Z) : bool := negb (Z.land result f =? 0).

(** safe-ctype.h and libiberty's hex table, on the bytes the code reads. *)
Definition ISDIGIT (c : byte) : bool := (chr "0" <=? c) && (c <=? chr "9").
Definition ISXDIGIT (c : byte) : bool :=
  ISDIGIT c || ((chr "a" <=? c) && (c <=? chr "f")) || ((chr "A" <=? c) && (c <=? chr "F")).
Definition hex_value (c : byte) : Z :=
  if ISDIGIT c then c - chr "0"
  else if (chr "a" <=? c) && (c <=? chr "f") then c - chr "a" + 10
  else if (chr "A" <=? c) && (c <=? chr "F") then c - chr "A" + 10
  else 99.

Definition DIGIT_SEP (o : cpp_options) (c : byte) : bool :=
  (c =? chr "'") && digit_separators o.

(** The byte is the letter [a], in this case or in either case. *)
Definition isc (c : byte) (a : ascii) : bool := c =? chr a.
Definition isC (c : byte) (a A : ascii) : bool := (c =? chr a) || (c =? chr A).

(** *** Floating suffixes *)

(** A decimal float suffix: two letters, the first being d or D.  [None]
    means that the suffix is not one of them and processing goes on. *)
Definition decimal_float_suffix (s : list byte) : option Z :=
  match s with
  | [c0; c1] =>
      if isC c0 "d" "D" then
        let uppercase := isc c0 "D" in
        if isc c1 "f" then Some (if negb uppercase then Z.lor CPP_N_DFLOAT CPP_N_SMALL else 0)
        else if isc c1 "F" then Some (if uppercase then Z.lor CPP_N_DFLOAT CPP_N_SMALL else 0)
        else if isc c1 "d" then Some (if negb uppercase then Z.lor CPP_N_DFLOAT CPP_N_MEDIUM else 0)
        else if isc c1 "D" then Some (if uppercase then Z.lor CPP_N_DFLOAT CPP_N_MEDIUM else 0)
        else if isc c1 "l" then Some (if negb uppercase then Z.lor CPP_N_DFLOAT CPP_N_LARGE else 0)
        else if isc c1 "L" then Some (if uppercase then Z.lor CPP_N_DFLOAT CPP_N_LARGE else 0)
        else None
      else None
  | _ => None
  end.

(** The width part of a fixed-point suffix, [s] being what is left of it. *)
Definition fixed_point_width (flags : Z) (s : list byte) : Z :=
  match s with
  | [c] => if isC c "h" "H" then Z.lor flags CPP_N_SMALL
           else if isC c "l" "L" then Z.lor flags CPP_N_MEDIUM else 0
  | [c; d] => if (isc c "l" && isc d "l") || (isc c "L" && isc d "L")
              then Z.lor flags CPP_N_LARGE else 0
  | _ => 0
  end.

(** A fixed-point suffix; [None] when it is not one. *)
Definition fixed_point_suffix (s : list byte) : option Z :=
  let last := List.last s 0 in
  let flags := if isC last "k" "K" then CPP_N_ACCUM
               else if isC last "r" "R" then CPP_N_FRACT else 0 in
  if flags =? 0 then None
  else
    Some match removelast s with
    | [] => flags
    | c :: s' =>
        if isC c "u" "U" then
          let flags := Z.lor flags CPP_N_UNSIGNED in
          match s' with [] => flags | _ => fixed_point_width flags s' end
        else fixed_point_width flags (c :: s')
    end.

(** The counters of the remaining suffixes. *)
Record fsuffix : Type := mk_fsuffix {
  n_f : Z; n_d : Z; n_l : Z; n_w : Z; n_q : Z; n_i : Z; n_fn : Z; n_fnx : Z; fn_bits : Z
}.

(** The digits of N after f: [s] is what follows the current byte. *)
Fixpoint floatn_digits (bits : Z) (s : list byte) : Z * list byte :=
  match s with
  | c :: s' => if ISDIGIT c && (bits <? CPP_FLOATN_MAX)
               then floatn_digits (bits * 10 + (c - chr "0")) s' else (bits, s)
  | [] => (bits, s)
  end.

(** The loop over the remaining suffix letters; [None] is a return of 0. *)
Fixpoint float_suffix_loop (o : cpp_options) (fuel : nat) (st : fsuffix) (s : list byte)
  : option fsuffix :=
  match fuel, s with
  | S fuel, c :: s' =>
      if isC c "f" "F" then
        if negb (cplusplus o) && (chr "1" <=? peek s') && (peek s' <=? chr "9")
           && (fn_bits st =? 0)
        then
          let '(bits, s'') := floatn_digits (fn_bits st) s' in
          let st := mk_fsuffix (n_f st) (n_d st) (n_l st) (n_w st) (n_q st) (n_i st)
                      (n_fn st) (n_fnx st) bits in
          match s'' with
          | x :: s3 =>
              if isc x "x"
              then float_suffix_loop o fuel
                     (mk_fsuffix (n_f st) (n_d st) (n_l st) (n_w st) (n_q st) (n_i st)
                        (n_fn st) (n_fnx st + 1) (fn_bits st)) s3
              else float_suffix_loop o fuel
                     (mk_fsuffix (n_f st) (n_d st) (n_l st) (n_w st) (n_q st) (n_i st)
                        (n_fn st + 1) (n_fnx st) (fn_bits st)) s''
          | [] => Some (mk_fsuffix (n_f st) (n_d st) (n_l st) (n_w st) (n_q st) (n_i st)
                          (n_fn st + 1) (n_fnx st) (fn_bits st))
          end
        else float_suffix_loop o fuel
               (mk_fsuffix (n_f st + 1) (n_d st) (n_l st) (n_w st) (n_q st) (n_i st)
                  (n_fn st) (n_fnx st) (fn_bits st)) s'
      else if isC c "d" "D" then float_suffix_loop o fuel
        (mk_fsuffix (n_f st) (n_d st + 1) (n_l st) (n_w st) (n_q st) (n_i st) (n_fn st) (n_fnx st) (fn_bits st)) s'
      else if isC c "l" "L" then float_suffix_loop o fuel
        (mk_fsuffix (n_f st) (n_d st) (n_l st + 1) (n_w st) (n_q st) (n_i st) (n_fn st) (n_fnx st) (fn_bits st)) s'
      else if isC c "w" "W" then float_suffix_loop o fuel
        (mk_fsuffix (n_f st) (n_d st) (n_l st) (n_w st + 1) (n_q st) (n_i st) (n_fn st) (n_fnx st) (fn_bits st)) s'
      else if isC c "q" "Q" then float_suffix_loop o fuel
        (mk_fsuffix (n_f st) (n_d st) (n_l st) (n_w st) (n_q st + 1) (n_i st) (n_fn st) (n_fnx st) (fn_bits st)) s'
      else if isC c "i" "I" || isC c "j" "J" then float_suffix_loop o fuel
        (mk_fsuffix (n_f st) (n_d st) (n_l st) (n_w st) (n_q st) (n_i st + 1) (n_fn st) (n_fnx st) (fn_bits st)) s'
      else None
  | _, _ => Some st
  end.

(** The checks on the counters and the flags they give. *)
Definition float_suffix_flags (o : cpp_options) (orig_s : list byte) (st : fsuffix) : Z :=
  if (1 <? n_f st + n_d st + n_l st + n_w st + n_q st + n_fn st + n_fnx st) || (1 <? n_i st)
  then 0
  else if CPP_FLOATN_MAX <? fn_bits st then 0
  else if negb (n_fnx st =? 0) && negb (fn_bits st =? 32) && negb (fn_bits st =? 64)
          && negb (fn_bits st =? 128) then 0
  else if negb (n_fn st =? 0) && negb (fn_bits st =? 16) && negb (fn_bits st mod 32 =? 0) then 0
  else if negb (n_fn st =? 0) && (fn_bits st =? 96) then 0
  else if negb (n_i st =? 0) && negb (ext_numeric_literals o) then 0
  else if negb (n_i st =? 0) && cplusplus o && (c_lang_index CLK_CXX11 <? c_lang_index (lang o))
          && isc (peek orig_s) "i"
          && (Nat.eqb (length orig_s) 1
              || (Nat.eqb (length orig_s) 2 && (isc (peek1 orig_s) "f" || isc (peek1 orig_s) "l")))
       then 0
  else if (negb (n_w st =? 0) || negb (n_q st =? 0)) && negb (ext_numeric_literals o) then 0
  else
    Z.lor (if negb (n_i st =? 0) then CPP_N_IMAGINARY else 0)
      (if negb (n_f st =? 0) then CPP_N_SMALL
       else if negb (n_d st =? 0) then CPP_N_MEDIUM
       else if negb (n_l st =? 0) then CPP_N_LARGE
       else if negb (n_w st =? 0) then CPP_N_MD_W
       else if negb (n_q st =? 0) then CPP_N_MD_Q
       else if negb (n_fn st =? 0) then Z.lor CPP_N_FLOATN (fn_bits st << CPP_FLOATN_SHIFT)
       else if negb (n_fnx st =? 0) then Z.lor CPP_N_FLOATNX (fn_bits st << CPP_FLOATN_SHIFT)
       else CPP_N_DEFAULT).

(** 0 for an invalid suffix, or its flags. *)
Definition interpret_float_suffix (o : cpp_options) (s : list byte) : Z :=
  match decimal_float_suffix s with
  | Some r => r
  | None =>
      match (if ext_numeric_literals o then fixed_point_suffix s else None) with
      | Some r => r
      | None =>
          match float_suffix_loop o (length s) (mk_fsuffix 0 0 0 0 0 0 0 0 0) s with
          | None => 0
          | Some st => u32 (float_suffix_flags o s st)
          end
      end
  end.

Definition cpp_interpret_float_suffix := interpret_float_suffix.

(** *** Integer suffixes *)

(** The loop runs from the last byte to the first: [rs] is the suffix
    reversed and [prev] the byte after the current one. *)
Fixpoint int_suffix_loop (u l i : Z) (prev : byte) (rs : list byte) : option (Z * Z * Z) :=
  match rs with
  | [] => Some (u, l, i)
  | c :: rs' =>
      if isC c "u" "U" then int_suffix_loop (u + 1) l i c rs'
      else if isC c "i" "I" || isC c "j" "J" then int_suffix_loop u l (i + 1) c rs'
      else if isC c "l" "L" then
        if (l + 1 =? 2) && negb (c =? prev) then None
        else int_suffix_loop u (l + 1) i c rs'
      else None
  end.

Definition interpret_int_suffix (o : cpp_options) (s : list byte) : Z :=
  match int_suffix_loop 0 0 0 0 (rev s) with
  | None => 0
  | Some (u, l, i) =>
      if (2 <? l) || (1 <? u) || (1 <? i) then 0
      else if negb (i =? 0) && negb (ext_numeric_literals o) then 0
      else if negb (i =? 0) && cplusplus o && (c_lang_index CLK_CXX11 <? c_lang_index (lang o))
              && isc (peek s) "i"
              && (Nat.eqb (length s) 1 || (Nat.eqb (length s) 2 && isc (peek1 s) "l")) then 0
      else
        Z.lor (Z.lor (if negb (i =? 0) then CPP_N_IMAGINARY else 0)
                     (if negb (u =? 0) then CPP_N_UNSIGNED else 0))
              (if l =? 0 then CPP_N_SMALL else if l =? 1 then CPP_N_MEDIUM else CPP_N_LARGE)
  end.

Definition cpp_interpret_int_suffix := interpret_int_suffix.

(** *** User-defined literals *)

Definition cpp_userdef_string_remove_type (type : cpp_ttype) : cpp_ttype :=
  match type with
  | CPP_STRING_USERDEF => CPP_STRING
  | CPP_WSTRING_USERDEF => CPP_WSTRING
  | CPP_STRING16_USERDEF => CPP_STRING16
  | CPP_STRING32_USERDEF => CPP_STRING32
  | CPP_UTF8STRING_USERDEF => CPP_UTF8STRING
  | _ => type
  end.

Definition cpp_userdef_string_add_type (type : cpp_ttype) : cpp_ttype :=
  match type with
  | CPP_STRING => CPP_STRING_USERDEF
  | CPP_WSTRING => CPP_WSTRING_USERDEF
  | CPP_STRING16 => CPP_STRING16_USERDEF
  | CPP_STRING32 => CPP_STRING32_USERDEF
  | CPP_UTF8STRING => CPP_UTF8STRING_USERDEF
  | _ => type
  end.

Definition cpp_userdef_char_remove_type (type : cpp_ttype) : cpp_ttype :=
  match type with
  | CPP_CHAR_USERDEF => CPP_CHAR
  | CPP_WCHAR_USERDEF => CPP_WCHAR
  | CPP_CHAR16_USERDEF => CPP_CHAR16
  | CPP_CHAR32_USERDEF => CPP_CHAR32
  | CPP_UTF8CHAR_USERDEF => CPP_UTF8CHAR
  | _ => type
  end.

Definition cpp_userdef_char_add_type (type : cpp_ttype) : cpp_ttype :=
  match type with
  | CPP_CHAR => CPP_CHAR_USERDEF
  | CPP_WCHAR => CPP_WCHAR_USERDEF
  | CPP_CHAR16 => CPP_CHAR16_USERDEF
  | CPP_CHAR32 => CPP_CHAR32_USERDEF
  | CPP_UTF8CHAR => CPP_UTF8CHAR_USERDEF
  | _ => type
  end.

Definition cpp_userdef_string_p (type : cpp_ttype) : bool :=
  match type with
  | CPP_STRING_USERDEF | CPP_WSTRING_USERDEF | CPP_STRING16_USERDEF
  | CPP_STRING32_USERDEF | CPP_UTF8STRING_USERDEF => true
  | _ => false
  end.

Definition cpp_userdef_char_p (type : cpp_ttype) : bool :=
  match type with
  | CPP_CHAR_USERDEF | CPP_WCHAR_USERDEF | CPP_CHAR16_USERDEF
  | CPP_CHAR32_USERDEF | CPP_UTF8CHAR_USERDEF => true
  | _ => false
  end.

(** The first quote of the text decides the delimiter. *)
Fixpoint first_quote (text : list byte) : option byte :=
  match text with
  | [] => None
  | c :: text' => if (c =? chr "'") || (c =? 34) then Some c else first_quote text'
  end.

(** What follows the last occurrence of [delim]; [acc] is what has been
    passed over since the end of the text. *)
Fixpoint after_last (delim : byte) (rtext acc : list byte) : list byte :=
  match rtext with
  | [] => acc
  | c :: rtext' => if c =? delim then acc else after_last delim rtext' (c :: acc)
  end.

(** Extract the suffix from a user-defined literal string or char. *)
Definition cpp_get_userdef_suffix (text : list byte) : list byte :=
  match first_quote text with
  | None => []
  | Some delim => after_last delim (rev text) []
  end.

(** *** Classification *)

Inductive float_kind : Type := NOT_FLOAT | AFTER_POINT | AFTER_EXPON.

#[export] Instance float_kind_eq_dec : EqDecision float_kind.
Proof. solve_decision. Defined.

(** "First, interpret the radix": the radix and the rest of the spelling, or
    the message of a syntax error. *)
Definition classify_radix (o : cpp_options) (str : list byte) : string + (Z * list byte) :=
  match str with
  | c0 :: str =>
      if isc c0 "0" then
        if isC (peek str) "x" "X" then
          if isc (peek1 str) "." || ISXDIGIT (peek1 str) then inr (16, tl str)
          else if DIGIT_SEP o (peek1 str) then inl "digit separator after base indicator"
          else inr (8, str)
        else if isC (peek str) "b" "B" then
          if isc (peek1 str) "0" || isc (peek1 str) "1" then inr (2, tl str)
          else if DIGIT_SEP o (peek1 str) then inl "digit separator after base indicator"
          else inr (8, str)
        else inr (8, str)
      else inr (10, c0 :: str)
  | [] => inr (10, [])
  end.

Record nscan : Type := mk_nscan {
  float_flag : float_kind; max_digit : Z; seen_digit : bool; seen_digit_sep : bool
}.

(** "Now scan for a well-formed integer or float." *)
Fixpoint classify_scan (o : cpp_options) (radix : Z) (st : nscan) (str : list byte)
  : string + (nscan * list byte) :=
  match str with
  | [] => inr (st, [])
  | c :: str' =>
      if ISDIGIT c || (ISXDIGIT c && (radix =? 16)) then
        let d := hex_value c in
        classify_scan o radix
          (mk_nscan (float_flag st) (if max_digit st <? d then d else max_digit st) true false) str'
      else if DIGIT_SEP o c then
        if seen_digit_sep st then inl "adjacent digit separators"
        else classify_scan o radix
               (mk_nscan (float_flag st) (max_digit st) (seen_digit st) true) str'
      else if isc c "." then
        if seen_digit_sep st || DIGIT_SEP o (peek str')
        then inl "digit separator adjacent to decimal point"
        else match float_flag st with
             | NOT_FLOAT => classify_scan o radix
                              (mk_nscan AFTER_POINT (max_digit st) (seen_digit st) false) str'
             | _ => inl "too many decimal points in number"
             end
      else if ((radix <=? 10) && isC c "e" "E") || ((radix =? 16) && isC c "p" "P") then
        if seen_digit_sep st || DIGIT_SEP o (peek str')
        then inl "digit separator adjacent to exponent"
        else inr (mk_nscan AFTER_EXPON (max_digit st) (seen_digit st) (seen_digit_sep st), str')
      else inr (st, str)
  end.

(** The do-while loop over the digits of an exponent, after its first byte. *)
Fixpoint exponent_digits (o : cpp_options) (sep : bool) (str : list byte) : bool * list byte :=
  match str with
  | c :: str' => if ISDIGIT c || DIGIT_SEP o c then exponent_digits o (DIGIT_SEP o c) str'
                 else (sep, str)
  | [] => (sep, [])
  end.

(** The sign and the digits of an exponent. *)
Definition classify_exponent (o : cpp_options) (str : list byte) : string + (bool * list byte) :=
  let str := if isc (peek str) "+" || isc (peek str) "-" then tl str else str in
  match str with
  | c :: str' =>
      if negb (ISDIGIT c) then
        inl (if DIGIT_SEP o c then "digit separator adjacent to exponent"
             else "exponent has no digits")
      else inr (exponent_digits o (DIGIT_SEP o c) str')
  | [] => inl "exponent has no digits"
  end.

(** The result of a classification: the flags and the user-defined suffix. *)
Definition classified : Type := (Z * option (list byte))%type.

Definition syntax_error (msg : string) : W classified :=
  cpp_error CPP_DL_ERROR msg ;;w mret (CPP_N_INVALID, None).

(** syntax_ok: the last diagnostics and the radix flag. *)
Definition classify_finish (o : cpp_options) (radix result : Z) (ud : option (list byte))
  : W classified :=
  when (flag result CPP_N_IMAGINARY && cpp_pedantic o)
    (cpp_error CPP_DL_PEDWARN "imaginary constants are a GCC extension") ;;w
  when ((radix =? 2) && negb (binary_constants o) && cpp_pedantic o)
    (cpp_error CPP_DL_PEDWARN
       (if cplusplus o then "binary constants are a C++14 feature or GCC extension"
        else "binary constants are a GCC extension")) ;;w
  mret (Z.lor result (if radix =? 10 then CPP_N_DECIMAL
                      else if radix =? 16 then CPP_N_HEX
                      else if radix =? 2 then CPP_N_BINARY else CPP_N_OCTAL), ud).

(** The suffix of a floating constant and the diagnostics on it; [str] is the
    suffix. *)
Definition classify_float_suffix (o : cpp_options) (sys_macro_p : bool) (radix : Z)
    (str : list byte) : W classified :=
  let result := interpret_float_suffix o str in
  if (result =? 0) && negb (user_literals o) then
    syntax_error "invalid suffix '%.*s' on floating constant"
  else
    let '(result, ud) :=
      if result =? 0 then (Z.lor CPP_N_LARGE CPP_N_USERDEF, Some str) else (result, None) in
    when (negb (Nat.eqb (length str) 0) && cpp_warn_traditional o && negb sys_macro_p)
      (cpp_warning CPP_W_TRADITIONAL "traditional C rejects the '%.*s' suffix") ;;w
    when ((result =? CPP_N_MEDIUM) && cpp_pedantic o)
      (cpp_error CPP_DL_PEDWARN "suffix for double constant is a GCC extension") ;;w
    if flag result CPP_N_DFLOAT && negb (radix =? 10) then
      cpp_error CPP_DL_ERROR "invalid suffix '%.*s' with hexadecimal floating constant" ;;w
      mret (CPP_N_INVALID, ud)
    else
      when (flag result (Z.lor CPP_N_FRACT CPP_N_ACCUM) && cpp_pedantic o)
        (cpp_error CPP_DL_PEDWARN "fixed-point constants are a GCC extension") ;;w
      when (flag result CPP_N_DFLOAT && cpp_pedantic o)
        (cpp_error CPP_DL_PEDWARN "decimal float constants are a GCC extension") ;;w
      classify_finish o radix (Z.lor result CPP_N_FLOATING) ud.

(** A floating constant, from the end of its digits; [str] is the exponent or
    the suffix. *)
Definition classify_float (o : cpp_options) (sys_macro_p : bool) (radix : Z) (st : nscan)
    (str : list byte) : W classified :=
  if radix =? 2 then syntax_error "invalid prefix '0b' for floating constant"
  else if (radix =? 16) && negb (seen_digit st) then
    syntax_error "no digits in hexadecimal floating constant"
  else
    when ((radix =? 16) && cpp_pedantic o && negb (extended_numbers o))
      (cpp_error CPP_DL_PEDWARN
         (if cplusplus o then "use of C++17 hexadecimal floating constant"
          else "use of C99 hexadecimal floating constant")) ;;w
    match float_flag st with
    | AFTER_EXPON =>
        match classify_exponent o str with
        | inl msg => syntax_error msg
        | inr (sep, str) =>
            if sep then syntax_error "digit separator outside digit sequence"
            else classify_float_suffix o sys_macro_p radix str
        end
    | _ =>
        if radix =? 16 then
          syntax_error "hexadecimal floating constants require an exponent"
        else if seen_digit_sep st then syntax_error "digit separator outside digit sequence"
        else classify_float_suffix o sys_macro_p radix str
    end.

(** An integer constant, from the end of its digits. *)
Definition classify_int (o : cpp_options) (sys_macro_p : bool) (radix : Z) (str : list byte)
  : W classified :=
  let result := interpret_int_suffix o str in
  if (result =? 0) && negb (user_literals o) then
    syntax_error "invalid suffix '%.*s' on integer constant"
  else
    let '(result, ud) :=
      if result =? 0
      then (Z.lor (Z.lor CPP_N_UNSIGNED CPP_N_LARGE) CPP_N_USERDEF, Some str)
      else (result, None) in
    let large := (Z.land result CPP_N_WIDTH =? CPP_N_LARGE) && cpp_warn_long_long o in
    when (cpp_warn_traditional o && negb sys_macro_p
          && (flag result (Z.lor CPP_N_UNSIGNED CPP_N_IMAGINARY) || large))
      (cpp_warning (if large then CPP_W_LONG_LONG else CPP_W_TRADITIONAL)
         "traditional C rejects the '%.*s' suffix") ;;w
    when large
      (let message := if cplusplus o then "use of C++11 long long integer constant"
                      else "use of C99 long long integer constant" in
       if c99 o then cpp_warning CPP_W_LONG_LONG message
       else cpp_pedwarning CPP_W_LONG_LONG message) ;;w
    classify_finish o radix (Z.lor result CPP_N_INTEGER) ud.

(** Categorize a numeric constant.  [sys_macro_p] is the answer of
    [cpp_sys_macro_p] and the second component of the result is what is
    stored through UD_SUFFIX. *)
Definition cpp_classify_number (o : cpp_options) (sys_macro_p : bool) (text : list byte)
  : W classified :=
  if Nat.eqb (length text) 1 then
    mret (Z.lor (Z.lor CPP_N_INTEGER CPP_N_SMALL) CPP_N_DECIMAL, None)
  else
    match classify_radix o text with
    | inl msg => syntax_error msg
    | inr (radix, str) =>
        match classify_scan o radix (mk_nscan NOT_FLOAT 0 false false) str with
        | inl msg => syntax_error msg
        | inr (st, str) =>
            let is_float := negb (bool_decide (float_flag st = NOT_FLOAT)) in
            if seen_digit_sep st && negb (bool_decide (float_flag st = AFTER_EXPON)) then
              syntax_error "digit separator outside digit sequence"
            else
              let result := interpret_float_suffix o str in
              if negb (radix =? 16) && negb is_float
                 && (flag result CPP_N_FRACT || flag result CPP_N_ACCUM)
              then
                when (cpp_pedantic o)
                  (cpp_error CPP_DL_PEDWARN "fixed-point constants are a GCC extension") ;;w
                classify_finish o (if radix =? 8 then 10 else radix)
                  (Z.lor result CPP_N_FLOATING) None
              else
                let radix := if is_float && (radix =? 8) then 10 else radix in
                if radix <=? max_digit st then
                  syntax_error (if radix =? 2 then "invalid digit '%c' in binary constant"
                                else "invalid digit '%c' in octal constant")
                else if is_float then classify_float o sys_macro_p radix st str
                else classify_int o sys_macro_p radix str
        end
    end.

(** *** Conversion *)

(** Append DIGIT to NUM, a number of PRECISION bits being read in base BASE. *)
Definition append_digit (num : cpp_num) (digit base precision : Z) : cpp_num :=
  let shift := if base =? 2 then 1 else if base =? 16 then 4 else 3 in
  let overflow := negb (high num >> (PART_PRECISION - shift) =? 0) in
  let rh := Z.lor (high num << shift) (low num >> (PART_PRECISION - shift)) in
  let rl := low num << shift in
  let '(add_high, add_low) :=
    if base =? 10
    then (u64 ((high num << 1) + (low num >> (PART_PRECISION - 1))), low num << 1)
    else (0, 0) in
  let add_high := if u64 (add_low + digit) <? add_low then u64 (add_high + 1) else add_high in
  let add_low := u64 (add_low + digit) in
  let add_high := if u64 (rl + add_low) <? rl then u64 (add_high + 1) else add_high in
  let overflow := if u64 (rh + add_high) <? rh then true else overflow in
  let full := mk_num (u64 (rh + add_high)) (u64 (rl + add_low)) (unsignedp num) overflow in
  let result := num_trim full precision in
  if negb (num_eq result full) then set_overflow true result else result.

(** The loop over the digits; it also returns whether a digit overflowed. *)
Fixpoint interpret_digits (o : cpp_options) (base precision max : Z) (result : cpp_num)
    (overflow' : bool) (p : list byte) : cpp_num * bool :=
  match p with
  | [] => (result, overflow')
  | c :: p' =>
      if ISDIGIT c || ((base =? 16) && ISXDIGIT c) then
        let c := hex_value c in
        if low result <? max then
          interpret_digits o base precision max
            (set_parts (high result) (u64 (low result * base + c)) result) overflow' p'
        else
          let result := append_digit result c base precision in
          interpret_digits o base precision 0 result (overflow' || overflow result) p'
      else if DIGIT_SEP o c then interpret_digits o base precision max result overflow' p'
      else (result, overflow')
  end.

(** The base of a classified constant and what follows its prefix. *)
Definition integer_base (type : Z) (p : list byte) : Z * list byte :=
  if Z.land type CPP_N_RADIX =? CPP_N_OCTAL then (8, drop 1 p)
  else if Z.land type CPP_N_RADIX =? CPP_N_HEX then (16, drop 2 p)
  else if Z.land type CPP_N_RADIX =? CPP_N_BINARY then (2, drop 2 p)
  else (10, p).

(** "We can add a digit to numbers strictly less than this without needing
    the precision and slowness of double integers." *)
Definition single_max (base precision : Z) : Z :=
  let max := not64 0 in
  let max := if precision <? PART_PRECISION then max >> (PART_PRECISION - precision) else max in
  u64 (u64 (max - base + 1) / base + 1).

(** Convert an integer constant, classified as TYPE, into a cpp_num. *)
Definition cpp_interpret_integer (o : cpp_options) (in_directive : bool) (text : list byte)
    (type : Z) : W cpp_num :=
  let zero := mk_num 0 0 (flag type CPP_N_UNSIGNED) false in
  if Nat.eqb (length text) 1 then mret (set_parts 0 (u64 (peek text - chr "0")) zero)
  else
    let prec := precision o in
    let '(base, p) := integer_base type text in
    let '(result, overflow') :=
      interpret_digits o base prec (single_max base prec) zero false p in
    if overflow' && negb (flag type CPP_N_USERDEF) then
      cpp_error CPP_DL_PEDWARN "integer constant is too large for its type" ;;w mret result
    else if negb (unsignedp result) && negb (traditional o && in_directive)
            && negb (num_positive result prec) then
      when (base =? 10)
        (cpp_error (if c99 o then CPP_DL_PEDWARN else CPP_DL_WARNING)
           "integer constant is so large that it is unsigned") ;;w
      mret (set_unsignedp true result)
    else mret result.

(** ** Appending a digit *)

Lemma if_carry_mod (c x : Z) : (c = 0 \/ c = 1) -> 0 <= x < 2 ^ 64 ->
  (if c =? 1 then u64 (x + 1) else x) = u64 (x + c).
Proof.
  intros [-> | ->] Hx; simpl; [|done]. by rewrite Z.add_0_r, u64_small.
Qed.

Lemma u64_add_u64 x y : u64 (x + u64 y) = u64 (x + y).
Proof. unfold u64, wrapu. by rewrite Zplus_mod_idemp_r. Qed.

Lemma u64_u64_add x y : u64 (u64 x + y) = u64 (x + y).
Proof. unfold u64, wrapu. by rewrite Zplus_mod_idemp_l. Qed.

(** The carry chain: the digit, the addend and the shifted number. *)
Lemma append_carry rh rl ah al d :
  0 <= rh < 2 ^ 64 -> 0 <= rl < 2 ^ 64 -> 0 <= ah < 2 ^ 64 -> 0 <= al < 2 ^ 64 -> 0 <= d < 2 ^ 64 ->
  let ah1 := if u64 (al + d) <? al then u64 (ah + 1) else ah in
  let al1 := u64 (al + d) in
  let ah2 := if u64 (rl + al1) <? rl then u64 (ah1 + 1) else ah1 in
  let h := u64 (rh + ah2) in let l := u64 (rl + al1) in
  let total := (rh * 2 ^ 64 + rl) + (ah * 2 ^ 64 + al) + d in
  0 <= h < 2 ^ 64 /\ 0 <= l < 2 ^ 64 /\ (h * 2 ^ 64 + l) mod 2 ^ 128 = total mod 2 ^ 128 /\
  (ah + 2 < 2 ^ 64 -> (h <? rh) = (2 ^ 128 <=? total)).
Proof.
  intros Hrh Hrl Hah Hal Hd. cbv zeta.
  destruct (add_carry al d Hal Hd) as (c1 & Hc1 & E1 & ->).
  destruct (add_carry rl (u64 (al + d)) Hrl (u64_range _)) as (c2 & Hc2 & E2 & ->).
  rewrite (if_carry_mod c1) by done. rewrite (if_carry_mod c2) by (done || apply u64_range).
  rewrite u64_u64_add, u64_add_u64.
  split; [apply u64_range|]. split; [apply u64_range|]. split.
  - unfold u64 at 1, wrapu. rewrite high_mod, E2, E1. f_equal. lia.
  - intros Hs. pose proof (u64_range (rl + u64 (al + d))) as Hl. rewrite E2, E1 in Hl.
    destruct (add_carry rh (ah + c1 + c2) Hrh ltac:(lia)) as (c3 & Hc3 & E3 & ->).
    pose proof (u64_range (rh + (ah + c1 + c2))) as Hh. rewrite E3 in Hh.
    destruct Hc3 as [-> | ->]; simpl; bsplit; lia.
Qed.

Lemma base_shift base : base ∈ [2; 8; 10; 16] ->
  let shift := if base =? 2 then 1 else if base =? 16 then 4 else 3 in
  0 < shift < 64 /\ base = 2 ^ shift + (if base =? 10 then 2 else 0).
Proof.
  rewrite !elem_of_cons, elem_of_nil. intros [->|[->|[->|[->|[]]]]]; simpl; lia.
Qed.

Lemma double_words h l : 0 <= h < 2 ^ 64 -> 0 <= l < 2 ^ 64 ->
  let ah := u64 ((h << 1) + (l >> 63)) in let al := l << 1 in
  0 <= ah < 2 ^ 64 /\ 0 <= al < 2 ^ 64 /\
  (ah * 2 ^ 64 + al) mod 2 ^ 128 = ((h * 2 ^ 64 + l) * 2) mod 2 ^ 128 /\
  (h < 2 ^ 61 -> ah + 2 < 2 ^ 64 /\ ah * 2 ^ 64 + al = (h * 2 ^ 64 + l) * 2).
Proof.
  intros Hh Hl. cbv zeta. rewrite !shl64_mul, shr64_div by lia.
  split; [apply u64_range|]. change (2 ^ 1) with 2.
  split; [apply Z.mod_pos_bound; lia|].
  pose proof (Z.div_mod l (2 ^ 63) ltac:(lia)). pose proof (Z.mod_pos_bound l (2 ^ 63) ltac:(lia)).
  assert (0 <= l / 2 ^ 63 < 2) by (split; [apply Z.div_pos|apply Z.div_lt_upper_bound]; lia).
  assert ((l * 2) mod 2 ^ 64 = l * 2 - (l / 2 ^ 63) * 2 ^ 64) as E.
  { symmetry. apply Z.mod_unique with (l / 2 ^ 63); lia. }
  rewrite E. split.
  - unfold u64, wrapu. rewrite Zplus_mod_idemp_l, high_mod. f_equal. lia.
  - intros Hs. assert (0 <= h * 2 < 2 ^ 62) by lia. rewrite (Z.mod_small (h * 2)) by lia.
    rewrite u64_small by lia. lia.
Qed.

(** The 128-bit sum [append_digit] computes before it trims, and its carry. *)
Definition append_full (num : cpp_num) (digit base : Z) : Z * Z * bool :=
  let shift := if base =? 2 then 1 else if base =? 16 then 4 else 3 in
  let rh := Z.lor (high num << shift) (low num >> (64 - shift)) in
  let rl := low num << shift in
  let '(ah, al) := if base =? 10 then (u64 ((high num << 1) + (low num >> 63)), low num << 1)
                   else (0, 0) in
  let ah1 := if u64 (al + digit) <? al then u64 (ah + 1) else ah in
  let al1 := u64 (al + digit) in
  let ah2 := if u64 (rl + al1) <? rl then u64 (ah1 + 1) else ah1 in
  (u64 (rh + ah2), u64 (rl + al1),
   if u64 (rh + ah2) <? rh then true else negb (high num >> (64 - shift) =? 0)).

Lemma append_digit_unfold num digit base p :
  append_digit num digit base p =
  let '(h, l, ov) := append_full num digit base in
  let full := mk_num h l (unsignedp num) ov in
  if negb (num_eq (num_trim full p) full) then set_overflow true (num_trim full p)
  else num_trim full p.
Proof. unfold append_digit, append_full. by destruct (base =? 10). Qed.

Lemma append_full_spec num digit base : wf_parts num -> base ∈ [2; 8; 10; 16] -> 0 <= digit < base ->
  let '(h, l, ov) := append_full num digit base in
  let total := num_val num * base + digit in
  0 <= h < 2 ^ 64 /\ 0 <= l < 2 ^ 64 /\ h * 2 ^ 64 + l = total mod 2 ^ 128 /\
  ov = (2 ^ 128 <=? total).
Proof.
  intros [Hh Hl] Hb Hd. destruct (base_shift base Hb) as [Hs Eb]. unfold append_full.
  assert (base <= 16) by (rewrite !elem_of_cons, elem_of_nil in Hb; lia).
  set (s := if base =? 2 then 1 else if base =? 16 then 4 else 3) in *.
  destruct (shl_words (high num) (low num) s Hh Hl Hs) as (Hrh & Hrl & Ev).
  set (rh := Z.lor _ _) in *. set (rl := low num << s) in *.
  set (k := if base =? 10 then 2 else 0) in *. fold (num_val num) in Ev.
  assert (exists ah al, (if base =? 10 then (u64 ((high num << 1) + (low num >> 63)), low num << 1)
                         else (0, 0)) = (ah, al) /\ 0 <= ah < 2 ^ 64 /\ 0 <= al < 2 ^ 64 /\
    (ah * 2 ^ 64 + al) mod 2 ^ 128 = (num_val num * k) mod 2 ^ 128 /\
    (high num < 2 ^ (64 - s) -> ah + 2 < 2 ^ 64 /\ ah * 2 ^ 64 + al = num_val num * k)) as
    (ah & al & -> & Hah & Hal & Ea & Hx).
  { unfold k, s. destruct (Z.eqb_spec base 10) as [->|].
    - destruct (double_words _ _ Hh Hl) as (?&?&?&?). eexists _, _. by split; [reflexivity|].
    - exists 0, 0. rewrite Z.mul_0_r. split; [done|]. repeat split; done || lia. }
  destruct (append_carry rh rl ah al digit) as (H1 & H2 & Em & Hc); try done; [lia|].
  split; [done|]. split; [done|].
  assert (num_val num * base + digit = num_val num * 2 ^ s + num_val num * k + digit) as Et by lia.
  set (h := u64 (rh + _)) in *. set (l := u64 (rl + _)) in *. split.
  - rewrite <- (Z.mod_small (h * 2 ^ 64 + l) (2 ^ 128)) by lia. rewrite Em, Et.
    apply cong_add; [apply cong_add|]; done.
  - pose proof (pow2_gt0 s ltac:(lia)). pose proof (pow2_gt0 (64 - s) ltac:(lia)).
    assert (2 ^ 64 = 2 ^ (64 - s) * 2 ^ s) as Ep by (rewrite <- pow2_split by lia; f_equal; lia).
    assert (0 <= k) by (unfold k; case_match; lia).
    assert (0 <= num_val num) by (unfold num_val; lia).
    rewrite shr64_div by lia. destruct (Z.eqb_spec (high num / 2 ^ (64 - s)) 0) as [E0|E0]; simpl negb.
    + apply Z.div_small_iff in E0; [|lia]. destruct Hx as [Hx Ek]; [lia|]. rewrite Hc by done.
      assert (num_val num * 2 ^ s < 2 ^ (64 - s) * 2 ^ 64 * 2 ^ s)
        by (apply Z.mul_lt_mono_pos_r; unfold num_val; lia).
      rewrite !Z.mod_small in Ev by lia. rewrite Ek, Et, Ev. by case_match.
    + assert (2 ^ (64 - s) <= high num).
      { apply Z.nlt_ge. intros ?. apply E0, Z.div_small. lia. }
      assert (2 ^ (64 - s) * 2 ^ 64 * 2 ^ s <= num_val num * 2 ^ s)
        by (apply Z.mul_le_mono_nonneg_r; unfold num_val; lia).
      destruct (Z.leb_spec (2 ^ 128) (num_val num * base + digit)); [by destruct (h <? rh)|lia].
Qed.

Lemma append_digit_spec p num digit base : 1 <= p <= 128 -> wf_num p num ->
  base ∈ [2; 8; 10; 16] -> 0 <= digit < base ->
  let r := append_digit num digit base p in
  let total := num_val num * base + digit in
  wf_num p r /\ num_val r = total mod 2 ^ p /\ unsignedp r = unsignedp num /\
  overflow r = (2 ^ p <=? total).
Proof.
  intros Hp [Hw Hv] Hb Hd. cbv zeta. rewrite append_digit_unfold.
  pose proof (append_full_spec num digit base Hw Hb Hd) as H.
  destruct (append_full num digit base) as [[h l] ov]. cbv zeta in *.
  destruct H as (Hh & Hl & Ef & Eo). set (full := mk_num h l (unsignedp num) ov).
  destruct (num_trim_spec full p (conj Hh Hl) Hp) as [Hwt Hvt].
  destruct (num_trim_flags full p) as [Hu Ho].
  assert (0 <= base) by (rewrite !elem_of_cons, elem_of_nil in Hb; lia).
  assert (0 <= num_val num * base + digit) by (destruct Hw; unfold num_val; nia).
  rewrite num_eq_val by (apply Hwt || done). change (num_val full) with (h * 2 ^ 64 + l) in *.
  rewrite Hvt, Ef. set (t := num_val num * base + digit) in *.
  pose proof (pow2_gt0 p ltac:(lia)). pose proof (pow2_le p 128 ltac:(lia)).
  assert ((t mod 2 ^ 128) mod 2 ^ p = t mod 2 ^ p) as Em
    by (apply cong_narrow; [lia|]; by rewrite Z.mod_mod by lia).
  assert (((t mod 2 ^ 128) mod 2 ^ p =? t mod 2 ^ 128) = (t mod 2 ^ 128 <? 2 ^ p)) as Ec.
  { pose proof (Z.mod_pos_bound (t mod 2 ^ 128) (2 ^ p) ltac:(lia)).
    pose proof (Z.mod_pos_bound t (2 ^ 128) ltac:(lia)).
    destruct (Z.ltb_spec (t mod 2 ^ 128) (2 ^ p)) as [Hlt|Hge].
    - rewrite (Z.mod_small (t mod 2 ^ 128)) by lia. apply Z.eqb_refl.
    - apply Z.eqb_neq. lia. }
  rewrite Ec. destruct (Z.ltb_spec (t mod 2 ^ 128) (2 ^ p)); simpl negb; cbv iota.
  - do 2 (split; [done || (rewrite Hvt, Ef; done)|]). split; [done|].
    rewrite Ho. cbn [overflow full]. rewrite Eo. clear Ec Ef Em.
    destruct (Z.leb_spec (2 ^ 128) t); [symmetry; apply Z.leb_le; lia|].
    symmetry. apply Z.leb_gt. by rewrite Z.mod_small in * by lia.
  - split; [done|]. split; [change (num_val (set_overflow _ ?x)) with (num_val x); rewrite Hvt, Ef; done|].
    split; [done|]. cbn [overflow set_overflow]. symmetry. apply Z.leb_le.
    destruct (Z.leb_spec (2 ^ 128) t); [lia|]. by rewrite Z.mod_small in * by lia.
Qed.

(** ** Reading the digits of a constant *)

(** The digits a conversion in base [base] reads, and the number they write. *)
Fixpoint digit_seq (o : cpp_options) (base : Z) (p : list byte) : list Z :=
  match p with
  | [] => []
  | c :: p' =>
      if ISDIGIT c || ((base =? 16) && ISXDIGIT c) then hex_value c :: digit_seq o base p'
      else if DIGIT_SEP o c then digit_seq o base p' else []
  end.

Definition horner (base v : Z) (ds : list Z) : Z := fold_left (fun v d => v * base + d) ds v.

(** The loop invariant: [v] is the number read so far. *)
Definition digits_inv (p base v max : Z) (r : cpp_num) (ov : bool) : Prop :=
  0 <= v /\ wf_num p r /\ num_val r = v mod 2 ^ p /\ ov = (2 ^ p <=? v) /\
  (v < 2 ^ p -> overflow r = false) /\
  (max = 0 \/ max = single_max base p /\ high r = 0 /\ v = low r).

Lemma single_max_spec base p x d : 4 <= p <= 128 -> base ∈ [2; 8; 10; 16] ->
  0 <= x < single_max base p -> 0 <= d < base ->
  0 <= x * base + d < 2 ^ 64 /\ x * base + d < 2 ^ p.
Proof.
  intros Hp Hb Hx Hd. unfold single_max in Hx.
  assert (2 <= base <= 16) as Hb' by (rewrite !elem_of_cons, elem_of_nil in Hb; lia).
  set (q := Z.min p 64).
  assert ((if p <? PART_PRECISION then not64 0 >> (PART_PRECISION - p) else not64 0) = 2 ^ q - 1)
    as E.
  { unfold PART_PRECISION, not64, q. destruct (Z.ltb_spec p 64).
    - rewrite shr64_div, Z.min_l by lia. change (2 ^ 64 - 1 - 0) with (2 ^ 64 - 1).
      symmetry. pose proof (pow2_gt0 (64 - p) ltac:(lia)).
      assert (2 ^ 64 = 2 ^ p * 2 ^ (64 - p)) by (rewrite <- pow2_split by lia; f_equal; lia).
      apply Z.div_unique with (2 ^ (64 - p) - 1); lia.
    - rewrite Z.min_r by lia. done. }
  rewrite E in Hx. pose proof (pow2_le 4 q ltac:(lia)). pose proof (pow2_le q 64 ltac:(lia)).
  pose proof (pow2_le q p ltac:(lia)). change (2 ^ 4) with 16 in *.
  rewrite (u64_small (2 ^ q - 1 - base + 1)) in Hx by lia.
  pose proof (Z.mul_div_le (2 ^ q - 1 - base + 1) base ltac:(lia)).
  pose proof (Z.div_pos (2 ^ q - 1 - base + 1) base ltac:(lia) ltac:(lia)).
  assert ((2 ^ q - 1 - base + 1) / base < 2 ^ 63) by (apply Z.div_lt_upper_bound; lia).
  rewrite u64_small in Hx by lia. nia.
Qed.

Lemma digits_inv_step p base v max r ov d : 4 <= p <= 128 -> base ∈ [2; 8; 10; 16] ->
  0 <= d < base -> digits_inv p base v max r ov ->
  if low r <? max
  then digits_inv p base (v * base + d) max (set_parts (high r) (u64 (low r * base + d)) r) ov
  else let r' := append_digit r d base p in
       digits_inv p base (v * base + d) 0 r' (ov || overflow r').
Proof.
  intros Hp Hb Hd (Hv & Hw & Hr & Ho & Hno & Hm). pose proof (pow2_gt0 p ltac:(lia)).
  assert (2 <= base) by (rewrite !elem_of_cons, elem_of_nil in Hb; lia).
  destruct (Z.ltb_spec (low r) max) as [Hlt|Hge].
  - destruct Hw as [[??]?]. destruct Hm as [->|(-> & Hh & ->)]; [lia|].
    destruct (single_max_spec base p (low r) d Hp Hb) as [? ?]; [lia|lia|].
    rewrite u64_small by lia. unfold digits_inv, wf_num, wf_parts, num_val in *. simpl.
    rewrite Hh in *. rewrite Z.mul_0_l, Z.add_0_l in *. rewrite Z.mod_small by lia.
    assert (low r < 2 ^ p) by (rewrite Hr; apply Z.mod_pos_bound; lia).
    split; [lia|]. split; [lia|]. split; [done|]. split; [subst ov; bsplit; lia || done|].
    split; [intros; apply Hno; lia|]. right; lia.
  - destruct (append_digit_spec p r d base ltac:(lia) Hw Hb Hd) as (Hw' & Hv' & Hu' & Ho').
    cbv zeta. split; [nia|]. split; [done|]. rewrite Hv', Ho', Hr, Ho.
    assert (2 ^ p <= v -> 2 ^ p <= v * base + d) by nia.
    split; [|split; [|split; [|by left]]].
    + rewrite Zplus_mod, Zmult_mod_idemp_l, <- Zplus_mod. done.
    + destruct (Z.leb_spec (2 ^ p) v); simpl; [bsplit; lia || done|].
      by rewrite Z.mod_small by lia.
    + intros ?. rewrite Z.mod_small by lia. bsplit; lia || done.
Qed.

Lemma interpret_digits_spec o base p text v max r ov : 4 <= p <= 128 -> base ∈ [2; 8; 10; 16] ->
  Forall (fun d => 0 <= d < base) (digit_seq o base text) -> digits_inv p base v max r ov ->
  let '(r', ov') := interpret_digits o base p max r ov text in
  unsignedp r' = unsignedp r /\
  exists max', digits_inv p base (horner base v (digit_seq o base text)) max' r' ov'.
Proof.
  intros Hp Hb. revert v max r ov. induction text as [|c text IH]; intros v max r ov Hds Hinv.
  { split; [done|]. by exists max. }
  simpl in *. destruct (ISDIGIT c || _).
  - apply Forall_cons_1 in Hds as [Hd Hds].
    pose proof (digits_inv_step p base v max r ov _ Hp Hb Hd Hinv) as Hs.
    destruct (low r <? max).
    + by apply (IH _ _ (set_parts _ _ r)).
    + cbv zeta in Hs. specialize (IH _ _ _ _ Hds Hs).
      destruct (append_digit_spec p r (hex_value c) base ltac:(lia) (proj1 (proj2 Hinv)) Hb Hd)
        as (_ & _ & <- & _). exact IH.
  - destruct (DIGIT_SEP o c); [by apply IH|]. split; [done|]. by exists max.
Qed.

(** ** The value of an integer constant *)

Definition too_large : diag :=
  Diag CPP_DL_PEDWARN CPP_W_NONE "integer constant is too large for its type".
Definition so_large (o : cpp_options) : diag :=
  Diag (if c99 o then CPP_DL_PEDWARN else CPP_DL_WARNING) CPP_W_NONE
    "integer constant is so large that it is unsigned".

(** What C requires of a constant of value [v] written in base [base], with or
    without an unsigned suffix: the diagnostics and the signedness. *)
Definition integer_constant (o : cpp_options) (in_directive : bool) (base v : Z) (u : bool)
  : list diag * bool :=
  if 2 ^ precision o <=? v then ([too_large], u)
  else if negb u && negb (traditional o && in_directive) && (2 ^ (precision o - 1) <=? v)
  then (if base =? 10 then [so_large o] else [], true)
  else ([], u).

Lemma cpp_interpret_integer_spec o ind text type base body :
  8 <= precision o <= 128 -> length text <> 1%nat -> integer_base type text = (base, body) ->
  flag type CPP_N_USERDEF = false -> base ∈ [2; 8; 10; 16] ->
  Forall (fun d => 0 <= d < base) (digit_seq o base body) ->
  let v := horner base 0 (digit_seq o base body) in
  let '(ds, u) := integer_constant o ind base v (flag type CPP_N_UNSIGNED) in
  exists r, cpp_interpret_integer o ind text type = (ds, r) /\
    wf_num (precision o) r /\ num_val r = v mod 2 ^ precision o /\ unsignedp r = u.
Proof.
  set (p := precision o). intros Hp Hlen Eb Hud Hbase Hds. cbv zeta.
  unfold cpp_interpret_integer. rewrite (proj2 (Nat.eqb_neq _ _) Hlen), Eb. cbv zeta. fold p.
  set (z := mk_num 0 0 _ _). pose proof (pow2_gt0 p ltac:(lia)).
  assert (digits_inv p base 0 (single_max base p) z false) as Hinv.
  { unfold digits_inv, wf_num, wf_parts, num_val. simpl. rewrite Z.mod_0_l by lia.
    split; [done|]. split; [lia|]. split; [done|]. split; [bsplit; lia || done|].
    split; [done|]. by right. }
  pose proof (interpret_digits_spec o base p body 0 _ z false ltac:(lia) Hbase Hds Hinv) as Hr.
  destruct (interpret_digits _ _ _ _ _ _ _) as [r ov]. destruct Hr as [Hu (max & Hv & Hw & Hr & Ho & _)].
  set (v := horner _ _ _) in *. unfold integer_constant. fold p. subst ov. rewrite Hud, andb_true_r.
  change (unsignedp z) with (flag type CPP_N_UNSIGNED) in Hu.
  destruct (Z.leb_spec (2 ^ p) v).
  { eexists. split; [reflexivity|]. done. }
  rewrite num_positive_val by (done || lia). rewrite Hr, Z.mod_small, Hu by lia.
  replace (negb (v <? 2 ^ (p - 1))) with (2 ^ (p - 1) <=? v) by (rewrite Z.leb_antisym; done).
  destruct (negb (flag type CPP_N_UNSIGNED) && _ && _); eexists.
  - split; [unfold mbind, W_bind, when, so_large; destruct (base =? 10); reflexivity|].
    split; [done|]. split; [|done]. rewrite <- (Z.mod_small v (2 ^ p)), <- Hr by lia. done.
  - split; [reflexivity|]. rewrite Hr, Z.mod_small by lia. done.
Qed.

(** ** Integer suffixes *)

Definition suffix_char (c : byte) : bool :=
  isC c "u" "U" || isC c "i" "I" || isC c "j" "J" || isC c "l" "L".

Lemma int_suffix_loop_chars u l i prev rs r :
  int_suffix_loop u l i prev rs = Some r -> Forall (fun c => suffix_char c = true) rs.
Proof.
  revert u l i prev. induction rs as [|c rs IH]; intros u l i prev H; [constructor|].
  simpl in H. unfold suffix_char.
  destruct (isC c "u" "U") eqn:E1; [constructor; [by rewrite E1|eauto]|].
  destruct (isC c "i" "I" || isC c "j" "J") eqn:E2.
  { constructor; [rewrite E1; simpl; by rewrite E2|eauto]. }
  destruct (isC c "l" "L") eqn:E3; [|done].
  destruct ((l + 1 =? 2) && _); [done|]. constructor; [|eauto].
  by rewrite E3, orb_true_r.
Qed.

Lemma interpret_int_suffix_chars o s : interpret_int_suffix o s <> 0 ->
  Forall (fun c => suffix_char c = true) s.
Proof.
  unfold interpret_int_suffix. destruct (int_suffix_loop _ _ _ _ _) as [r|] eqn:E; [|done].
  intros _. apply int_suffix_loop_chars in E. apply Forall_rev in E. by rewrite rev_involutive in E.
Qed.

(** The flag words a valid suffix can give. *)
Definition int_suffix_words : list Z :=
  [0x10; 0x20; 0x40; 0x1010; 0x1020; 0x1040; 0x2010; 0x2020; 0x2040; 0x3010; 0x3020; 0x3040].

Lemma interpret_int_suffix_words o s : interpret_int_suffix o s <> 0 ->
  interpret_int_suffix o s ∈ int_suffix_words.
Proof.
  unfold interpret_int_suffix. destruct (int_suffix_loop _ _ _ _ _) as [[[u l] i]|]; [|done].
  repeat (case_match; [done|]). intros _. unfold int_suffix_words.
  rewrite !elem_of_cons. repeat case_match; vm_compute; tauto.
Qed.

(** Such a suffix is never one of a fixed-point constant. *)
Lemma float_loop_int_chars o fuel st s st' : Forall (fun c => suffix_char c = true) s ->
  n_fn st = 0 /\ n_fnx st = 0 -> float_suffix_loop o fuel st s = Some st' ->
  n_fn st' = 0 /\ n_fnx st' = 0.
Proof.
  revert st s. induction fuel as [|fuel IH]; intros st s Hs Hst H; simpl in H; [by simplify_eq|].
  destruct s as [|c s]; [by simplify_eq|].
  apply Forall_cons_1 in Hs as [Hc Hs]. unfold suffix_char, isC in Hc.
  assert (isC c "f" "F" = false) as Hf.
  { unfold isC. change (chr "f") with 102. change (chr "F") with 70.
    repeat (apply orb_true_iff in Hc as [Hc|Hc]); apply Z.eqb_eq in Hc; by subst c. }
  rewrite Hf in H. repeat (case_match; [by eapply IH; [done| |done]|]). done.
Qed.

Lemma suffix_char_cases c : suffix_char c = true ->
  c ∈ [chr "u"; chr "U"; chr "i"; chr "I"; chr "j"; chr "J"; chr "l"; chr "L"].
Proof.
  unfold suffix_char, isC. intros H. rewrite !elem_of_cons.
  repeat (apply orb_true_iff in H as [H|H]); apply Z.eqb_eq in H; tauto.
Qed.

Ltac suffix_cases H :=
  apply suffix_char_cases in H; rewrite !elem_of_cons, elem_of_nil in H;
  destruct H as [->|[->|[->|[->|[->|[->|[->|[->|[]]]]]]]]].

Lemma no_fixed_point o s : Forall (fun c => suffix_char c = true) s ->
  flag (interpret_float_suffix o s) CPP_N_FRACT || flag (interpret_float_suffix o s) CPP_N_ACCUM
  = false.
Proof.
  intros Hs. unfold interpret_float_suffix.
  assert (decimal_float_suffix s = None) as ->.
  { destruct s as [|c0 [|c1 [|??]]]; try done. apply Forall_cons_1 in Hs as [Hc _].
    by suffix_cases Hc. }
  assert (fixed_point_suffix s = None) as ->.
  { unfold fixed_point_suffix. destruct s as [|s c _] using rev_ind; [done|].
    rewrite List.last_last. apply Forall_app in Hs as [_ Hc]. apply Forall_cons_1 in Hc as [Hc _].
    by suffix_cases Hc. }
  replace (if ext_numeric_literals o then None else None) with (@None Z)
    by (by destruct (ext_numeric_literals o)).
  destruct (float_suffix_loop _ _ _ _) as [st|] eqn:E; [|done].
  apply float_loop_int_chars in E as [E1 E2]; [|done|done].
  unfold float_suffix_flags. rewrite E1, E2. repeat case_match; done.
Qed.

(** ** Printing an integer literal and reading it back *)

Definition digit_char (d : Z) : byte := if d <? 10 then chr "0" + d else chr "a" + (d - 10).

Definition base_prefix (base : Z) : list byte :=
  if base =? 16 then bytes "0x" else if base =? 2 then bytes "0b"
  else if base =? 8 then bytes "0" else [].

Definition literal (base : Z) (ds : list Z) (sfx : list byte) : list byte :=
  base_prefix base ++ map digit_char ds ++ sfx.

(** A literal has a digit; a decimal one starts with a nonzero digit, and the
    only octal one without further digits is 0, possibly with a suffix. *)
Definition literal_ok (base : Z) (ds : list Z) (sfx : list byte) : Prop :=
  if base =? 8 then ds ++ sfx <> []
  else if base =? 10 then hd 0 ds <> 0 else ds <> [].

Definition radix_flag (base : Z) : Z :=
  if base =? 10 then CPP_N_DECIMAL else if base =? 16 then CPP_N_HEX
  else if base =? 2 then CPP_N_BINARY else CPP_N_OCTAL.

Definition literal_type (o : cpp_options) (base : Z) (sfx : list byte) : Z :=
  Z.lor (Z.lor (interpret_int_suffix o sfx) CPP_N_INTEGER) (radix_flag base).

Lemma digit_char_spec d base : base ∈ [2; 8; 10; 16] -> 0 <= d < base ->
  hex_value (digit_char d) = d /\
  ISDIGIT (digit_char d) || (ISXDIGIT (digit_char d) && (base =? 16)) = true /\
  ISDIGIT (digit_char d) || ((base =? 16) && ISXDIGIT (digit_char d)) = true /\
  ISXDIGIT (digit_char d) = true.
Proof.
  rewrite !elem_of_cons, elem_of_nil. unfold digit_char, hex_value, ISXDIGIT, ISDIGIT.
  change (chr "0") with 48. change (chr "9") with 57. change (chr "a") with 97.
  change (chr "f") with 102. change (chr "A") with 65. change (chr "F") with 70.
  intros Hb Hd. destruct (Z.ltb_spec d 10); (assert (base = 16 \/ d < 10) by lia);
    destruct (Z.eqb_spec base 16); bsplit; simpl; repeat split; lia || done.
Qed.

Lemma suffix_stops o base sfx : Forall (fun c => suffix_char c = true) sfx ->
  digit_seq o base sfx = [] /\
  forall st, classify_scan o base st sfx = inr (st, sfx).
Proof.
  destruct sfx as [|c sfx]; [done|]. intros H. apply Forall_cons_1 in H as [Hc _]. simpl.
  suffix_cases Hc; (split; [|intros]); unfold DIGIT_SEP, isc, isC; simpl;
    rewrite ?andb_false_r, ?orb_false_r; simpl; rewrite ?andb_false_r; done.
Qed.

Lemma digit_seq_literal o base ds sfx : base ∈ [2; 8; 10; 16] ->
  Forall (fun d => 0 <= d < base) ds -> Forall (fun c => suffix_char c = true) sfx ->
  digit_seq o base (map digit_char ds ++ sfx) = ds.
Proof.
  intros Hb Hds Hs. induction Hds as [|d ds Hd Hds IH]; simpl.
  - by apply suffix_stops.
  - destruct (digit_char_spec d base Hb Hd) as (-> & _ & -> & _). by rewrite IH.
Qed.

Lemma classify_scan_literal o base ds sfx st : base ∈ [2; 8; 10; 16] ->
  Forall (fun d => 0 <= d < base) ds -> Forall (fun c => suffix_char c = true) sfx ->
  float_flag st = NOT_FLOAT -> seen_digit_sep st = false -> max_digit st < base ->
  exists st', classify_scan o base st (map digit_char ds ++ sfx) = inr (st', sfx) /\
    float_flag st' = NOT_FLOAT /\ seen_digit_sep st' = false /\ max_digit st' < base.
Proof.
  intros Hb Hds Hs. revert st. induction Hds as [|d ds Hd Hds IH]; simpl; intros st Hf Hsep Hm.
  - exists st. by rewrite (proj2 (suffix_stops o base sfx Hs) st).
  - destruct (digit_char_spec d base Hb Hd) as (-> & -> & _).
    apply IH; [done|done|]. simpl. destruct (_ <? _); lia.
Qed.

Lemma digit_char_range d base : base ∈ [2; 8; 10] -> 0 <= d < base ->
  digit_char d = 48 + d /\ d < 10.
Proof.
  rewrite !elem_of_cons, elem_of_nil. intros Hb Hd. unfold digit_char.
  destruct (Z.ltb_spec d 10); [done|lia].
Qed.

Lemma octal_head ds sfx : Forall (fun d => 0 <= d < 8) ds ->
  Forall (fun c => suffix_char c = true) sfx ->
  isC (peek (map digit_char ds ++ sfx)) "x" "X" = false /\
  isC (peek (map digit_char ds ++ sfx)) "b" "B" = false.
Proof.
  intros Hds Hs. destruct ds as [|d ds]; simpl.
  - destruct sfx as [|c sfx]; [done|]. apply Forall_cons_1 in Hs as [Hc _]. by suffix_cases Hc.
  - apply Forall_cons_1 in Hds as [Hd _].
    destruct (digit_char_range d 8) as [-> _]; [rewrite !elem_of_cons; tauto|done|].
    unfold isC. change (chr "x") with 120. change (chr "X") with 88.
    change (chr "b") with 98. change (chr "B") with 66. bsplit; lia || done.
Qed.

Lemma classify_radix_literal o base ds sfx : base ∈ [2; 8; 10; 16] ->
  Forall (fun d => 0 <= d < base) ds -> Forall (fun c => suffix_char c = true) sfx ->
  literal_ok base ds sfx ->
  classify_radix o (literal base ds sfx) = inr (base, map digit_char ds ++ sfx).
Proof.
  intros Hb Hds Hs Hok. unfold literal_ok in Hok. pose proof Hb as Hb'.
  rewrite !elem_of_cons, elem_of_nil in Hb'.
  destruct Hb' as [->|[->|[->|[->|[]]]]]; simpl in Hok.
  - destruct ds as [|d ds]; [done|]. apply Forall_cons_1 in Hds as [Hd _]. simpl.
    assert (d = 0 \/ d = 1) as [-> | ->] by lia; done.
  - destruct (octal_head ds sfx Hds Hs) as [H1 H2].
    change (literal 8 ds sfx) with (48 :: map digit_char ds ++ sfx). simpl. by rewrite H1, H2.
  - destruct ds as [|d ds]; [done|]. apply Forall_cons_1 in Hds as [Hd _]. simpl in Hok.
    change (literal 10 (d :: ds) sfx) with (digit_char d :: map digit_char ds ++ sfx). simpl.
    destruct (digit_char_range d 10) as [-> _]; [rewrite !elem_of_cons; tauto|done|].
    unfold isc. change (chr "0") with 48. destruct (Z.eqb_spec (48 + d) 48); [lia|done].
  - destruct ds as [|d ds]; [done|]. apply Forall_cons_1 in Hds as [Hd _].
    change (literal 16 (d :: ds) sfx) with (48 :: 120 :: digit_char d :: map digit_char ds ++ sfx).
    unfold classify_radix, peek, peek1. cbn [hd tl].
    destruct (digit_char_spec d 16 Hb Hd) as (_ & _ & _ & ->). by rewrite orb_true_r.
Qed.

(** Only warnings and pedantic warnings are emitted. *)
Lemma classify_finish_no_error o radix result ud : no_error (classify_finish o radix result ud).
Proof. unfold classify_finish. auto 10 with cpp. Qed.

Lemma classify_int_literal o sm base sfx : base ∈ [2; 8; 10; 16] ->
  interpret_int_suffix o sfx <> 0 ->
  snd (classify_int o sm base sfx) = (literal_type o base sfx, None) /\
  no_error (classify_int o sm base sfx).
Proof.
  intros Hb Hs. unfold classify_int. destruct (Z.eqb_spec (interpret_int_suffix o sfx) 0); [done|].
  split; [done|]. simpl. auto 20 using classify_finish_no_error with cpp.
Qed.

Lemma cpp_classify_literal o sm base ds sfx : base ∈ [2; 8; 10; 16] ->
  Forall (fun d => 0 <= d < base) ds -> interpret_int_suffix o sfx <> 0 ->
  literal_ok base ds sfx -> length (literal base ds sfx) <> 1%nat ->
  snd (cpp_classify_number o sm (literal base ds sfx)) = (literal_type o base sfx, None) /\
  no_error (cpp_classify_number o sm (literal base ds sfx)).
Proof.
  intros Hb Hds Hs Hok Hlen. pose proof (interpret_int_suffix_chars o sfx Hs) as Hc.
  unfold cpp_classify_number. rewrite (proj2 (Nat.eqb_neq _ _) Hlen).
  rewrite classify_radix_literal by done.
  assert (0 < base) by (rewrite !elem_of_cons, elem_of_nil in Hb; lia).
  destruct (classify_scan_literal o base ds sfx (mk_nscan NOT_FLOAT 0 false false))
    as (st & -> & Hf & Hsep & Hm); try done.
  rewrite Hsep, Hf. cbn [andb]. rewrite no_fixed_point by done. rewrite !andb_false_r. simpl.
  destruct (Z.leb_spec base (max_digit st)); [lia|]. by apply classify_int_literal.
Qed.

(** What the type says of a literal: its base, its body and its flags. *)
Lemma literal_type_flags o base ds sfx : base ∈ [2; 8; 10; 16] ->
  interpret_int_suffix o sfx <> 0 ->
  integer_base (literal_type o base sfx) (literal base ds sfx) = (base, map digit_char ds ++ sfx) /\
  flag (literal_type o base sfx) CPP_N_USERDEF = false /\
  flag (literal_type o base sfx) CPP_N_UNSIGNED
  = flag (interpret_int_suffix o sfx) CPP_N_UNSIGNED.
Proof.
  intros Hb Hs. apply interpret_int_suffix_words in Hs. unfold literal_type.
  revert Hs. generalize (interpret_int_suffix o sfx). intros w Hw.
  unfold int_suffix_words in Hw. rewrite !elem_of_cons, elem_of_nil in Hb.
  rewrite !elem_of_cons, elem_of_nil in Hw.
  destruct Hb as [->|[->|[->|[->|[]]]]];
    destruct Hw as [->|[->|[->|[->|[->|[->|[->|[->|[->|[->|[->|[->|[]]]]]]]]]]]]]; done.
Qed.

(** ** The grammar of the standard integer suffixes *)

Definition int_suffixes : list (list byte) := map bytes
  [""; "u"; "U"; "l"; "L"; "ll"; "LL";
   "ul"; "uL"; "ull"; "uLL"; "Ul"; "UL"; "Ull"; "ULL";
   "lu"; "Lu"; "llu"; "LLu"; "lU"; "LU"; "llU"; "LLU"].

(** The letters counted right to left, without an imaginary suffix. *)
Definition std_suffix (s : list byte) : bool :=
  match int_suffix_loop 0 0 0 0 (rev s) with
  | Some (u, l, i) => (l <=? 2) && (u <=? 1) && (i =? 0)
  | None => false
  end.

Lemma interpret_std_suffix o s : ext_numeric_literals o = false ->
  interpret_int_suffix o s <> 0 <-> std_suffix s = true.
Proof.
  intros Hext. unfold interpret_int_suffix, std_suffix.
  destruct (int_suffix_loop _ _ _ _ _) as [[[u l] i]|] eqn:E; [|done]. rewrite Hext.
  destruct (Z.ltb_spec 2 l), (Z.ltb_spec 1 u), (Z.ltb_spec 1 i), (Z.leb_spec l 2),
    (Z.leb_spec u 1), (Z.eqb_spec i 0); simpl; try (done || lia).
  all: repeat case_match; split; intros; done.
Qed.

Lemma int_suffix_loop_count u l i prev rs u' l' i' :
  int_suffix_loop u l i prev rs = Some (u', l', i') ->
  u' + l' + i' = u + l + i + Z.of_nat (length rs).
Proof.
  revert u l i prev. induction rs as [|c rs IH]; intros u l i prev H.
  - simplify_eq/=. lia.
  - cbn [int_suffix_loop] in H. cbn [length].
    repeat (case_match; try done); apply IH in H; lia.
Qed.

Lemma std_suffix_enum s : std_suffix s = true <-> s ∈ int_suffixes.
Proof.
  split.
  - intros H. pose proof H as H0. unfold std_suffix in H0.
    destruct (int_suffix_loop _ _ _ _ _) as [[[u l] i]|] eqn:E; [|done].
    pose proof (int_suffix_loop_count _ _ _ _ _ _ _ _ E) as Hc. rewrite length_rev in Hc.
    apply int_suffix_loop_chars, Forall_rev in E. rewrite rev_involutive in E. bprop.
    apply (bool_decide_unpack _). revert H.
    destruct s as [|c0 [|c1 [|c2 [|c3 s]]]]; [..|simpl in Hc; lia];
      repeat match goal with
      | E : Forall _ (_ :: _) |- _ => let Hc := fresh in apply Forall_cons_1 in E as [Hc E]; suffix_cases Hc
      end; by vm_compute.
  - intros H. unfold int_suffixes in H. cbn [map] in H. rewrite !elem_of_cons, elem_of_nil in H.
    by repeat (destruct H as [->|H]; [done|]).
Qed.

(** ** Results *)

(** Appending a digit to a number of [p] bits, 1 to 128, in base 2, 8, 10
    or 16 delivers the exact result modulo [2^p], keeps the invariant and the
    signedness, and sets the overflow flag exactly when the exact result does
    not fit in [p] bits. *)
Theorem append_digit_exact (p : Z) (num : cpp_num) (digit base : Z) :
  1 <= p <= 128 -> wf_num p num -> base ∈ [2; 8; 10; 16] -> 0 <= digit < base ->
  let r := append_digit num digit base p in
  wf_num p r /\ num_val r = (num_val num * base + digit) mod 2 ^ p /\
  unsignedp r = unsignedp num /\ overflow r = (2 ^ p <=? num_val num * base + digit).
Proof. apply append_digit_spec. Qed.

Lemma append_digit_exact_witness :
  overflow (append_digit (mk_num (2 ^ 61) 0 false false) 7 10 128) = true /\
  num_val (append_digit (mk_num 1 5 false false) 7 10 128) = 10 * 2 ^ 64 + 57.
Proof.
  split.
  - apply (append_digit_exact 128 (mk_num (2 ^ 61) 0 false false) 7 10);
      [lia|by vm_compute|rewrite !elem_of_cons; tauto|lia].
  - apply (append_digit_exact 128 (mk_num 1 5 false false) 7 10);
      [lia|by vm_compute|rewrite !elem_of_cons; tauto|lia].
Defined.



(** Without the GNU numeric literal extensions, the integer suffixes the
    code accepts are exactly the 23 the C grammar lists: an optional u or U
    and an optional l, L, ll or LL, in either order, the two letters of a long
    long suffix being adjacent and of the same case. *)
Theorem int_suffix_grammar (o : cpp_options) (s : list byte) :
  ext_numeric_literals o = false -> interpret_int_suffix o s <> 0 <-> s ∈ int_suffixes.
Proof. intros. by rewrite interpret_std_suffix, std_suffix_enum. Qed.

Lemma int_suffix_grammar_witness :
  interpret_int_suffix
    (mk_options CLK_CXX11 true true false false false false (-1) true false true false false false
       true true true false false true false true 64 8 32 32 false false false false true true true false true
       true false true false true 1 false) (bytes "LLu") <> 0.
Proof. apply int_suffix_grammar; [reflexivity|]. by apply (bool_decide_unpack _). Defined.
