(* ===== verification/Stream.v ===== *)
(** * The reader while it handles a directive

    The state the directive handlers and the #if evaluator share: the tokens
    of the line, the table of identifiers, the lexer state they change, and
    the stack of conditionals.  A function of the source that reads tokens,
    changes the state and emits diagnostics is a computation of the monad [R].

    [r_stream] holds the tokens [cpp_get_token] and [_cpp_lex_token] deliver
    for the rest of the directive, after macro expansion; at its end they
    deliver CPP_EOF, again and again, since no new line is read in a directive.  [r_lexed] holds the tokens already delivered, the last
    one first, so that its head is [cur_token[-1]]. *)

From Stdlib Require Import ZArith Lia Bool String Ascii.
From stdpp Require Import base tactics list numbers gmap.
From S2P Require Import Prelude Reader CppNum NumLit.

Local Open Scope string_scope.
Local Open Scope list_scope.
Local Open Scope Z_scope.

(** ** Tokens *)

Definition PREV_WHITE : Z := 1.
Definition NAMED_OP : Z := 16.

(** [t_text] is the name of the node of an identifier, the spelling of any
    other token; [t_spelling] is the original spelling of an identifier and
    [t_no] the number carried by CPP_PASTE and CPP_MACRO_ARG tokens.
    [t_in_macro]: the reader was in a macro context once it had delivered
    this token. *)
Record cpp_token : Type := mk_token {
  t_type : cpp_ttype;
  t_flags : Z;
  t_text : list byte;
  t_spelling : list byte;
  t_no : Z;
  t_in_macro : bool
}.

Definition eof_token : cpp_token := mk_token CPP_EOF 0 [] [] 0 false.

Definition type_is (t : cpp_token) (ty : cpp_ttype) : bool := ttype_eqb (t_type t) ty.

(** The spelling category of a token type (the second field of TTYPE_TABLE). *)
Inductive spell_type : Type := SPELL_OPERATOR | SPELL_IDENT | SPELL_LITERAL | SPELL_NONE.

Definition TOKEN_SPELL (ty : cpp_ttype) : spell_type :=
  match ty with
  | CPP_NAME | CPP_AT_NAME => SPELL_IDENT
  | CPP_EOF | CPP_MACRO_ARG | CPP_PRAGMA | CPP_PRAGMA_EOL | CPP_PADDING => SPELL_NONE
  | _ => if ttype_index ty <=? ttype_index CPP_ATSIGN then SPELL_OPERATOR else SPELL_LITERAL
  end.

Definition bytes_eqb (a b : list byte) : bool := bool_decide (a = b).

(** lex.c: whether two tokens of a macro or an answer are the same. *)
Definition _cpp_equiv_tokens (a b : cpp_token) : bool :=
  if type_is a (t_type b) && (t_flags a =? t_flags b) then
    match TOKEN_SPELL (t_type a) with
    | SPELL_OPERATOR => negb (type_is a CPP_PASTE) || (t_no a =? t_no b)
    | SPELL_NONE => negb (type_is a CPP_MACRO_ARG)
                    || ((t_no a =? t_no b) && bytes_eqb (t_spelling a) (t_spelling b))
    | SPELL_IDENT => bytes_eqb (t_text a) (t_text b) && bytes_eqb (t_spelling a) (t_spelling b)
    | SPELL_LITERAL => bytes_eqb (t_text a) (t_text b)
    end
  else false.

(** ** Identifiers *)

Definition NODE_POISONED : Z := 2.
Definition NODE_DISABLED : Z := 16.
Definition NODE_USED : Z := 32.
Definition NODE_CONDITIONAL : Z := 64.

Inductive node_type : Type := NT_VOID | NT_MACRO_ARG | NT_USER_MACRO | NT_BUILTIN_MACRO.

(** A [cpp_hashnode]: [n_answers] is the chain of answers of an NT_VOID node,
    [n_macro_used] the [used] bit of the macro of an NT_USER_MACRO node. *)
Record cpp_hashnode : Type := mk_node {
  n_type : node_type;
  n_flags : Z;
  n_answers : list (list cpp_token);
  n_macro_used : bool
}.

Definition new_node : cpp_hashnode := mk_node NT_VOID 0 [] false.

Definition cpp_macro_p (n : cpp_hashnode) : bool :=
  match n_type n with NT_USER_MACRO | NT_BUILTIN_MACRO => true | _ => false end.

Definition _cpp_free_definition (n : cpp_hashnode) : cpp_hashnode :=
  mk_node NT_VOID (Z.land (n_flags n) (Z.lnot (Z.lor NODE_DISABLED NODE_USED))) []
    (n_macro_used n).

(** _cpp_mark_macro_used and the flag set by _cpp_notify_macro_use. *)
Definition mark_used (n : cpp_hashnode) : cpp_hashnode :=
  mk_node (n_type n) (Z.lor (n_flags n) NODE_USED) (n_answers n)
    (match n_type n with NT_USER_MACRO => true | _ => n_macro_used n end).

(** ** The conditional stack *)

Inductive cond_type : Type := T_IF | T_IFDEF | T_IFNDEF | T_ELSE | T_ELIF.

Record if_stack : Type := mk_ifs {
  mi_cmacro' : option (list byte);
  skip_elses : bool;
  was_skipping : bool;
  ifs_type : cond_type
}.

(** ** The state *)

Record reader : Type := mk_reader {
  r_stream : list cpp_token;
  r_lexed : list cpp_token;
  r_nodes : gmap (list Z) cpp_hashnode;
  r_skipping : bool;
  r_skip_eval : Z;
  r_prevent_expansion : Z;
  r_in_has_include : Z;
  r_mi_ind_cmacro : option (list byte);
  r_mi_cmacro : option (list byte);
  r_mi_valid : bool;
  r_if_stack : list if_stack;
  r_op_limit : Z
}.

Definition set_tokens (st lx : list cpp_token) (r : reader) : reader :=
  mk_reader st lx (r_nodes r) (r_skipping r) (r_skip_eval r) (r_prevent_expansion r)
    (r_in_has_include r) (r_mi_ind_cmacro r) (r_mi_cmacro r) (r_mi_valid r) (r_if_stack r)
    (r_op_limit r).
Definition set_nodes (m : gmap (list Z) cpp_hashnode) (r : reader) : reader :=
  mk_reader (r_stream r) (r_lexed r) m (r_skipping r) (r_skip_eval r) (r_prevent_expansion r)
    (r_in_has_include r) (r_mi_ind_cmacro r) (r_mi_cmacro r) (r_mi_valid r) (r_if_stack r)
    (r_op_limit r).
Definition set_skipping (b : bool) (r : reader) : reader :=
  mk_reader (r_stream r) (r_lexed r) (r_nodes r) b (r_skip_eval r) (r_prevent_expansion r)
    (r_in_has_include r) (r_mi_ind_cmacro r) (r_mi_cmacro r) (r_mi_valid r) (r_if_stack r)
    (r_op_limit r).
Definition set_skip_eval (n : Z) (r : reader) : reader :=
  mk_reader (r_stream r) (r_lexed r) (r_nodes r) (r_skipping r) n (r_prevent_expansion r)
    (r_in_has_include r) (r_mi_ind_cmacro r) (r_mi_cmacro r) (r_mi_valid r) (r_if_stack r)
    (r_op_limit r).
Definition set_prevent_expansion (n : Z) (r : reader) : reader :=
  mk_reader (r_stream r) (r_lexed r) (r_nodes r) (r_skipping r) (r_skip_eval r) n
    (r_in_has_include r) (r_mi_ind_cmacro r) (r_mi_cmacro r) (r_mi_valid r) (r_if_stack r)
    (r_op_limit r).
Definition set_in_has_include (n : Z) (r : reader) : reader :=
  mk_reader (r_stream r) (r_lexed r) (r_nodes r) (r_skipping r) (r_skip_eval r)
    (r_prevent_expansion r) n (r_mi_ind_cmacro r) (r_mi_cmacro r) (r_mi_valid r) (r_if_stack r)
    (r_op_limit r).
Definition set_mi_ind_cmacro (c : option (list byte)) (r : reader) : reader :=
  mk_reader (r_stream r) (r_lexed r) (r_nodes r) (r_skipping r) (r_skip_eval r)
    (r_prevent_expansion r) (r_in_has_include r) c (r_mi_cmacro r) (r_mi_valid r) (r_if_stack r)
    (r_op_limit r).
Definition set_mi (c : option (list byte)) (v : bool) (r : reader) : reader :=
  mk_reader (r_stream r) (r_lexed r) (r_nodes r) (r_skipping r) (r_skip_eval r)
    (r_prevent_expansion r) (r_in_has_include r) (r_mi_ind_cmacro r) c v (r_if_stack r)
    (r_op_limit r).
Definition set_if_stack (s : list if_stack) (r : reader) : reader :=
  mk_reader (r_stream r) (r_lexed r) (r_nodes r) (r_skipping r) (r_skip_eval r)
    (r_prevent_expansion r) (r_in_has_include r) (r_mi_ind_cmacro r) (r_mi_cmacro r)
    (r_mi_valid r) s (r_op_limit r).
Definition set_op_limit (n : Z) (r : reader) : reader :=
  mk_reader (r_stream r) (r_lexed r) (r_nodes r) (r_skipping r) (r_skip_eval r)
    (r_prevent_expansion r) (r_in_has_include r) (r_mi_ind_cmacro r) (r_mi_cmacro r)
    (r_mi_valid r) (r_if_stack r) n.

(** A reader at the start of a directive: no conditional is open, the
    operator stack has the 20 entries [cpp_create_reader] gives it. *)
Definition fresh_reader (ts : list cpp_token) (nodes : gmap (list Z) cpp_hashnode) : reader :=
  mk_reader ts [] nodes false 0 0 0 None None true [] 20.

(** ** The monad *)

Definition R (A : Type) : Type := reader -> list diag * (A * reader).

#[export] Instance R_ret : MRet R := fun A x r => ([], (x, r)).

Definition bindR {A B} (m : R A) (f : A -> R B) : R B := fun r =>
  let '(d1, (x, r1)) := m r in let '(d2, y) := f x r1 in (d1 ++ d2, y).

Notation "x ←r m ;; k" := (bindR m (fun x => k))
  (at level 100, m at next level, k at level 200, right associativity).
Notation "m ;;r k" := (bindR m (fun _ => k))
  (at level 100, k at level 200, right associativity).

(** A diagnostic-only computation, a state reader and a state update. *)
Definition liftW {A} (m : W A) : R A := fun r => (fst m, (snd m, r)).
Definition gets {A} (f : reader -> A) : R A := fun r => ([], (f r, r)).
Definition modify (f : reader -> reader) : R unit := fun r => ([], (tt, f r)).
Definition whenR (b : bool) (m : R unit) : R unit := if b then m else mret tt.
Definition errorR (l : cpp_diagnostic_level) (msg : string) : R unit := liftW (cpp_error l msg).

(** The diagnostics, the result and the final state of a computation. *)
Definition diags {A} (m : R A) (r : reader) : list diag := fst (m r).
Definition out {A} (m : R A) (r : reader) : A := fst (snd (m r)).
Definition run {A} (m : R A) (r : reader) : reader := snd (snd (m r)).

(** ** Tokens of the directive *)

Definition cpp_get_token : R cpp_token := fun r =>
  match r_stream r with
  | t :: st =>
      ([], (t, set_tokens (if type_is t CPP_EOF then r_stream r else st) (t :: r_lexed r) r))
  | [] => ([], (eof_token, set_tokens [] (eof_token :: r_lexed r) r))
  end.

(** The lexer proper; in a directive it delivers the same tokens. *)
Definition _cpp_lex_token : R cpp_token := cpp_get_token.

(** _cpp_backup_tokens (pfile, 1). *)
Definition _cpp_backup_token : R unit := modify (fun r =>
  match r_lexed r with
  | t :: lx => set_tokens (t :: r_stream r) lx r
  | [] => r
  end).

Definition SEEN_EOL (r : reader) : bool :=
  match r_lexed r with t :: _ => type_is t CPP_EOF | [] => false end.

Definition cpp_lookup (name : list byte) (r : reader) : cpp_hashnode :=
  default new_node (r_nodes r !! name).
Definition update_node (name : list byte) (f : cpp_hashnode -> cpp_hashnode) : R unit :=
  modify (fun r => set_nodes (<[name := f (cpp_lookup name r)]> (r_nodes r)) r).

Definition check_eol_1 (reason : cpp_warning_reason) : R unit :=
  seen ←r gets SEEN_EOL ;;
  if seen then mret tt
  else t ←r cpp_get_token ;;
       whenR (negb (type_is t CPP_EOF))
         (liftW (cpp_pedwarning reason "extra tokens at end of #%s directive")).

Definition check_eol_endif_labels : R unit := check_eol_1 CPP_W_ENDIF_LABELS.
Definition check_eol : R unit := check_eol_1 CPP_W_NONE.

(** Glue the tokens up to the closing > into a header name: the loop runs over
    the tokens left (padding tokens are passed over), and a line that ends
    first is an error. *)
Fixpoint glue_loop (acc : list byte) (lx st : list cpp_token)
  : list byte * bool * list cpp_token * list cpp_token :=
  match st with
  | [] => (acc, false, eof_token :: lx, [])
  | t :: st' =>
      if type_is t CPP_PADDING then glue_loop acc lx st'
      else if type_is t CPP_GREATER then (acc, true, t :: lx, st')
      else if type_is t CPP_EOF then (acc, false, t :: lx, st)
      else
        let acc := if flag (t_flags t) PREV_WHITE then acc ++ [32] else acc in
        glue_loop (acc ++ (match TOKEN_SPELL (t_type t) with
                           | SPELL_IDENT => t_spelling t | _ => t_text t end)) (t :: lx) st'
  end.

Definition glue_header_name : R (list byte) := fun r =>
  let '(name, closed, lx, st) := glue_loop [] (r_lexed r) (r_stream r) in
  (if closed then [] else [Diag CPP_DL_ERROR CPP_W_NONE "missing terminating > character"],
   (name, set_tokens st lx r)).

Definition _cpp_bracket_include : R (list byte) := glue_header_name.

(** Check the macro name in #ifdef and #ifndef (IS_DEF_OR_UNDEF false) or in
    #define and #undef (true). *)
Definition lex_macro_node (is_def_or_undef : bool) : R (option (list byte)) :=
  token ←r _cpp_lex_token ;;
  if type_is token CPP_NAME then
    node ←r gets (cpp_lookup (t_text token)) ;;
    if is_def_or_undef && bytes_eqb (t_text token) (bytes "defined") then
      errorR CPP_DL_ERROR "'defined' cannot be used as a macro name" ;;r mret None
    else if is_def_or_undef && (bytes_eqb (t_text token) (bytes "__has_include__")
                                || bytes_eqb (t_text token) (bytes "__has_include_next__")) then
      errorR CPP_DL_ERROR "'__has_include__' cannot be used as a macro name" ;;r mret None
    else if negb (flag (n_flags node) NODE_POISONED) then mret (Some (t_text token))
    else mret None
  else if flag (t_flags token) NAMED_OP then
    errorR CPP_DL_ERROR "'%s' cannot be used as a macro name as it is an operator in C++" ;;r
    mret None
  else if type_is token CPP_EOF then
    errorR CPP_DL_ERROR "no macro name given in #%s directive" ;;r mret None
  else errorR CPP_DL_ERROR "macro names must be identifiers" ;;r mret None.

(** ** Laws of the monad *)

Lemma run_bind {A B} (m : R A) (f : A -> R B) r : run (bindR m f) r = run (f (out m r)) (run m r).
Proof. unfold run, out, bindR. destruct (m r) as [d [x r1]]. simpl. by destruct (f x r1). Qed.

Lemma out_bind {A B} (m : R A) (f : A -> R B) r : out (bindR m f) r = out (f (out m r)) (run m r).
Proof. unfold run, out, bindR. destruct (m r) as [d [x r1]]. simpl. by destruct (f x r1). Qed.

Lemma diags_bind {A B} (m : R A) (f : A -> R B) r :
  diags (bindR m f) r = diags m r ++ diags (f (out m r)) (run m r).
Proof. unfold run, out, diags, bindR. destruct (m r) as [d [x r1]]. simpl. by destruct (f x r1). Qed.

Lemma R_eq {A} (m : R A) r : m r = (diags m r, (out m r, run m r)).
Proof. unfold diags, out, run. by destruct (m r) as [? [??]]. Qed.

Lemma bindR_run {A B} (m : R A) (f : A -> R B) r d x r1 : m r = (d, (x, r1)) ->
  bindR m f r = (d ++ fst (f x r1), snd (f x r1)).
Proof. unfold bindR. intros ->. by destruct (f x r1). Qed.


Lemma out_gets {A} (f : reader -> A) r : out (gets f) r = f r.
Proof. done. Qed.

Lemma run_gets {A} (f : reader -> A) r : run (gets f) r = r.
Proof. done. Qed.

(** Tokens as the lexer delivers them outside of any macro. *)
Definition name_token (s : string) : cpp_token := mk_token CPP_NAME 0 (bytes s) (bytes s) 0 false.
Definition tok (ty : cpp_ttype) (s : string) : cpp_token := mk_token ty 0 (bytes s) [] 0 false.
