(* ===== verification/Assert.v ===== *)
(** * Assertions (libcpp/directives.c, #assert, #unassert and #predicate)

    The answers asserted of a predicate are a chain hanging off the node of
    the predicate's name prefixed with #.  This file holds the parsing of an
    assertion, the three operations on the chains (add, remove, test), and
    their refinement to a set of answers per predicate. *)

From Stdlib Require Import ZArith Lia Bool String Ascii.
From stdpp Require Import base tactics list numbers gmap.
From S2P Require Import Prelude Reader CppNum NumLit Stream.

Local Open Scope string_scope.
Local Open Scope list_scope.
Local Open Scope Z_scope.

(** ** Definitions *)

Inductive assert_type : Type := TA_IF | TA_ASSERT | TA_UNASSERT.

Definition clear_prev_white (t : cpp_token) : cpp_token :=
  mk_token (t_type t) (Z.land (t_flags t) (Z.lnot PREV_WHITE)) (t_text t) (t_spelling t)
    (t_no t) (t_in_macro t).

(** The tokens of an answer, up to the closing parenthesis; [None] when the
    line ends first. *)
Fixpoint answer_loop (acc lx st : list cpp_token)
  : option (list cpp_token) * list cpp_token * list cpp_token :=
  match st with
  | [] => (None, eof_token :: lx, [])
  | t :: st' =>
      if type_is t CPP_CLOSE_PAREN then (Some (rev acc), t :: lx, st')
      else if type_is t CPP_EOF then (None, t :: lx, st)
      else answer_loop (t :: acc) (t :: lx) st'
  end.

(** Read an answer: whether it succeeded, and the answer if one was given. *)
Definition parse_answer (type : assert_type) : R (bool * option (list cpp_token)) :=
  paren ←r cpp_get_token ;;
  if negb (type_is paren CPP_OPEN_PAREN) then
    match type with
    | TA_IF => _cpp_backup_token ;;r mret (true, None)
    | TA_UNASSERT =>
        if type_is paren CPP_EOF then mret (true, None)
        else errorR CPP_DL_ERROR "missing '(' after predicate" ;;r mret (false, None)
    | TA_ASSERT => errorR CPP_DL_ERROR "missing '(' after predicate" ;;r mret (false, None)
    end
  else
    r ←r gets (fun r => r) ;;
    let '(answer, lx, st) := answer_loop [] (r_lexed r) (r_stream r) in
    modify (set_tokens st lx) ;;r
    match answer with
    | None => errorR CPP_DL_ERROR "missing ')' to complete answer" ;;r mret (false, None)
    | Some [] => errorR CPP_DL_ERROR "predicate's answer is empty" ;;r mret (false, None)
    | Some (t :: ts) => mret (true, Some (clear_prev_white t :: ts))
    end.

(** The node name of the predicate, or [None] on error, and the answer. *)
Definition parse_assertion (type : assert_type)
  : R (option (list byte) * option (list cpp_token)) :=
  modify (fun r => set_prevent_expansion (r_prevent_expansion r + 1) r) ;;r
  predicate ←r cpp_get_token ;;
  result ←r
    (if type_is predicate CPP_EOF then
       errorR CPP_DL_ERROR "assertion without predicate" ;;r mret (None, None)
     else if negb (type_is predicate CPP_NAME) then
       errorR CPP_DL_ERROR "predicate must be an identifier" ;;r mret (None, None)
     else
       res ←r parse_answer type ;;
       if fst res then
         let sym := chr "#" :: t_text predicate in
         update_node sym (fun n => n) ;;r mret (Some sym, snd res)
       else mret (None, snd res)) ;;
  modify (fun r => set_prevent_expansion (r_prevent_expansion r - 1) r) ;;r
  mret result.

(** Two answers of the same length whose tokens are equivalent. *)
Fixpoint equiv_answers (a b : list cpp_token) : bool :=
  match a, b with
  | [], [] => true
  | x :: a', y :: b' => _cpp_equiv_tokens x y && equiv_answers a' b'
  | _, _ => false
  end.

(** The position of the candidate in the chain, or the end of the chain: what
    is before it and what starts there. *)
Fixpoint find_answer (answers : list (list cpp_token)) (candidate : list cpp_token)
  : list (list cpp_token) * list (list cpp_token) :=
  match answers with
  | [] => ([], [])
  | a :: answers' =>
      if Nat.eqb (length a) (length candidate) && equiv_answers a candidate then ([], answers)
      else let '(before, at_) := find_answer answers' candidate in (a :: before, at_)
  end.

(** Test an assertion within a preprocessor conditional: the failure flag the
    code returns and the value it stores. *)
Definition _cpp_test_assertion : R (bool * Z) :=
  na ←r parse_assertion TA_IF ;;
  match fst na with
  | Some sym =>
      node ←r gets (cpp_lookup sym) ;;
      mret (false, match n_answers node with
                   | [] => 0
                   | answers =>
                       match snd na with
                       | None => 1
                       | Some answer =>
                           match snd (find_answer answers answer) with [] => 0 | _ => 1 end
                       end
                   end)
  | None =>
      seen ←r gets SEEN_EOL ;;
      whenR seen _cpp_backup_token ;;r mret (true, 0)
  end.

Definition set_answers (l : list (list cpp_token)) (n : cpp_hashnode) : cpp_hashnode :=
  mk_node (n_type n) (n_flags n) l (n_macro_used n).

(** Handle #assert. *)
Definition do_assert : R unit :=
  na ←r parse_assertion TA_ASSERT ;;
  match fst na, snd na with
  | Some sym, Some answer =>
      node ←r gets (cpp_lookup sym) ;;
      match snd (find_answer (n_answers node) answer) with
      | _ :: _ => errorR CPP_DL_WARNING "'%s' re-asserted"
      | [] =>
          update_node sym (fun n => set_answers (answer :: n_answers n) n) ;;r check_eol
      end
  | _, _ => mret tt
  end.

(** Handle #unassert. *)
Definition do_unassert : R unit :=
  na ←r parse_assertion TA_UNASSERT ;;
  match fst na with
  | Some sym =>
      match snd na with
      | Some answer =>
          node ←r gets (cpp_lookup sym) ;;
          let '(before, at_) := find_answer (n_answers node) answer in
          update_node sym (set_answers (before ++ tl at_)) ;;r check_eol
      | None => update_node sym _cpp_free_definition
      end
  | None => mret tt
  end.

(** The text of -A and -A-: the first = becomes a parenthesis. *)
Fixpoint replace_first_eq (s : list byte) : list byte * bool :=
  match s with
  | [] => ([], false)
  | c :: s' => if c =? chr "=" then (chr "(" :: s', true)
               else let '(s'', found) := replace_first_eq s' in (c :: s'', found)
  end.

Definition handle_assertion_text (str : list byte) : list byte :=
  let '(buf, found) := replace_first_eq str in
  buf ++ (if found then [chr ")"] else []) ++ [10].

(** ** Equivalence of answers *)

Lemma type_is_true t ty : type_is t ty = true <-> t_type t = ty.
Proof. unfold type_is. destruct (ttype_eqb_spec (t_type t) ty); naive_solver. Qed.

Lemma type_is_false t ty : type_is t ty = false <-> t_type t <> ty.
Proof. unfold type_is. destruct (ttype_eqb_spec (t_type t) ty); naive_solver. Qed.

Lemma bytes_eqb_true a b : bytes_eqb a b = true <-> a = b.
Proof. apply bool_decide_eq_true. Qed.

Lemma equiv_tokens_refl t : _cpp_equiv_tokens t t = true.
Proof.
  unfold _cpp_equiv_tokens. rewrite (proj2 (type_is_true t _) eq_refl), !Z.eqb_refl. simpl.
  rewrite !(proj2 (bytes_eqb_true _ _) eq_refl), !orb_true_r.
  by destruct (TOKEN_SPELL _).
Qed.

(** What the equality of two tokens depends on. *)
Definition token_key (t : cpp_token) : cpp_ttype * Z * (list byte * list byte * Z) :=
  (t_type t, t_flags t,
   match TOKEN_SPELL (t_type t) with
   | SPELL_OPERATOR => ([], [], if type_is t CPP_PASTE then t_no t else 0)
   | SPELL_NONE => if type_is t CPP_MACRO_ARG then ([], t_spelling t, t_no t) else ([], [], 0)
   | SPELL_IDENT => (t_text t, t_spelling t, 0)
   | SPELL_LITERAL => (t_text t, [], 0)
   end).

Lemma equiv_tokens_key a b : _cpp_equiv_tokens a b = true <-> token_key a = token_key b.
Proof.
  unfold _cpp_equiv_tokens, token_key.
  destruct (type_is a (t_type b)) eqn:E; [apply type_is_true in E|apply type_is_false in E; naive_solver].
  destruct (Z.eqb_spec (t_flags a) (t_flags b)) as [Ef|Ef]; simpl; [|split; [done|congruence]].
  unfold type_is. rewrite E, Ef.
  destruct (TOKEN_SPELL (t_type b)).
  - destruct (ttype_eqb (t_type b) CPP_PASTE); simpl; [rewrite Z.eqb_eq|done].
    split; [by intros ->|by intros [=]].
  - rewrite andb_true_iff, !bytes_eqb_true. split; [by intros [-> ->]|by intros [=]].
  - rewrite bytes_eqb_true. split; [by intros ->|by intros [=]].
  - destruct (ttype_eqb (t_type b) CPP_MACRO_ARG); simpl; [|done].
    rewrite andb_true_iff, Z.eqb_eq, bytes_eqb_true. split; [by intros [-> ->]|by intros [=]].
Qed.

Lemma equiv_answers_key a b : equiv_answers a b = true <-> map token_key a = map token_key b.
Proof.
  revert b. induction a as [|x a IH]; intros [|y b]; simpl; try (split; [done|congruence]).
  rewrite andb_true_iff, equiv_tokens_key, IH. split; [by intros [-> ->]|intros H; by apply (inj2 cons) in H].
Qed.

(** ** The abstract set of answers *)

Definition answer_key (a : list cpp_token) := map token_key a.
Definition asserted (answers : list (list cpp_token)) (a : list cpp_token) : Prop :=
  answer_key a ∈ map answer_key answers.
Definition chain_ok (answers : list (list cpp_token)) : Prop := NoDup (map answer_key answers).

Lemma find_answer_spec answers a : let '(before, at_) := find_answer answers a in
  answers = before ++ at_ /\ ~ asserted before a /\
  match at_ with [] => True | x :: _ => answer_key x = answer_key a end.
Proof.
  induction answers as [|x answers IH]; simpl.
  - split; [done|]. split; [|done]. unfold asserted; simpl; apply not_elem_of_nil.
  - destruct (_ && _) eqn:E.
    + apply andb_true_iff in E as [_ E]. apply equiv_answers_key in E.
      split; [done|]. split; [|done]. unfold asserted; simpl; apply not_elem_of_nil.
    + destruct (find_answer answers a) as [before at_]. destruct IH as (-> & Hb & Ha).
      split; [done|]. split; [|done]. unfold asserted. simpl. rewrite elem_of_cons.
      intros [Hx|Hx]; [|done]. apply andb_false_iff in E as [E|E].
      * apply Nat.eqb_neq in E. apply E. unfold answer_key in Hx.
        by rewrite <- (length_map token_key x), <- Hx, length_map.
      * assert (equiv_answers x a = true) by (by apply equiv_answers_key). congruence.
Qed.

Lemma find_answer_asserted answers a :
  match snd (find_answer answers a) with [] => ~ asserted answers a | _ => asserted answers a end.
Proof.
  pose proof (find_answer_spec answers a) as H. destruct (find_answer answers a) as [before at_].
  destruct H as (-> & Hb & Ha). simpl. destruct at_ as [|x at_].
  - by rewrite app_nil_r.
  - unfold asserted. rewrite map_app, elem_of_app. right. simpl. rewrite Ha, elem_of_cons. by left.
Qed.

(** ** Parsing a complete assertion *)

Definition plain_token (t : cpp_token) : Prop :=
  t_type t <> CPP_CLOSE_PAREN /\ t_type t <> CPP_EOF.

(** The tokens [p ( a ... )] of an assertion, and the answer they give. *)
Definition assertion_tokens (p lp : cpp_token) (a : list cpp_token) (rp : cpp_token)
  : list cpp_token := p :: lp :: a ++ [rp].

Definition assertion_ok (p lp : cpp_token) (a : list cpp_token) (rp : cpp_token) : Prop :=
  t_type p = CPP_NAME /\ t_type lp = CPP_OPEN_PAREN /\ t_type rp = CPP_CLOSE_PAREN /\
  a <> [] /\ Forall plain_token a.

Definition normal_answer (a : list cpp_token) : list cpp_token :=
  match a with [] => [] | t :: ts => clear_prev_white t :: ts end.

Definition predicate (name : list byte) : list byte := chr "#" :: name.
Definition answers_of (name : list byte) (r : reader) : list (list cpp_token) :=
  n_answers (cpp_lookup (predicate name) r).

Lemma answer_loop_ok a : Forall plain_token a -> forall rp rest acc lx,
  t_type rp = CPP_CLOSE_PAREN ->
  answer_loop acc lx (a ++ rp :: rest) = (Some (rev acc ++ a), rp :: rev a ++ lx, rest).
Proof.
  induction 1 as [|t a [H1 H2] Ha IH]; intros rp rest acc lx Hrp; simpl.
  - by rewrite (proj2 (type_is_true rp _) Hrp), app_nil_r.
  - rewrite (proj2 (type_is_false t _) H1), (proj2 (type_is_false t _) H2).
    rewrite IH by done. simpl. by rewrite <- !app_assoc.
Qed.

(** The state after a predicate has been looked up and its tokens read. *)
Definition after_assertion (r : reader) (p lp : cpp_token) (a : list cpp_token)
    (rp : cpp_token) (rest : list cpp_token) : reader :=
  set_nodes (<[predicate (t_text p) := cpp_lookup (predicate (t_text p)) r]> (r_nodes r))
    (set_tokens rest (rp :: rev a ++ lp :: p :: r_lexed r) r).

Lemma parse_assertion_ok type r p lp a rp rest : assertion_ok p lp a rp ->
  r_stream r = assertion_tokens p lp a rp ++ rest ->
  parse_assertion type r
  = ([], ((Some (predicate (t_text p)), Some (normal_answer a)), after_assertion r p lp a rp rest)).
Proof.
  intros (Hp & Hlp & Hrp & Hne & Ha) Hs. unfold assertion_tokens in Hs. simpl in Hs.
  rewrite <- app_assoc in Hs. simpl in Hs.
  unfold parse_assertion, bindR, modify, cpp_get_token. simpl. rewrite Hs. simpl.
  rewrite (proj2 (type_is_false p CPP_EOF)) by congruence.
  rewrite (proj2 (type_is_true p CPP_NAME) Hp). simpl.
  unfold parse_answer, bindR, cpp_get_token, gets. simpl.
  rewrite (proj2 (type_is_true lp _) Hlp), (proj2 (type_is_false lp CPP_EOF)) by congruence. simpl.
  rewrite (answer_loop_ok a Ha rp rest [] _ Hrp). simpl.
  destruct a as [|t a]; [done|]. simpl. unfold after_assertion. repeat f_equal.
  unfold set_nodes, set_tokens, set_prevent_expansion, cpp_lookup. simpl. f_equal. lia.
Qed.

Lemma cpp_lookup_insert name n r : cpp_lookup name (set_nodes (<[name := n]> (r_nodes r)) r) = n.
Proof. unfold cpp_lookup. simpl. by rewrite lookup_insert_eq. Qed.

Lemma cpp_lookup_insert_ne name name' n r : name <> name' ->
  cpp_lookup name' (set_nodes (<[name := n]> (r_nodes r)) r) = cpp_lookup name' r.
Proof. intros. unfold cpp_lookup. simpl. by rewrite lookup_insert_ne. Qed.

(** Looking a predicate up changes no answer. *)
Lemma after_assertion_lookup r p lp a rp rest name :
  cpp_lookup name (after_assertion r p lp a rp rest) = cpp_lookup name r.
Proof.
  unfold after_assertion, cpp_lookup. simpl.
  destruct (decide (predicate (t_text p) = name)) as [<-|Hne].
  - by rewrite lookup_insert_eq.
  - by rewrite lookup_insert_ne.
Qed.

Lemma check_eol_nodes r : r_nodes (run check_eol r) = r_nodes r.
Proof.
  unfold run, check_eol, check_eol_1, bindR, gets, cpp_get_token. simpl.
  destruct (SEEN_EOL r); [done|]. destruct (r_stream r); simpl; [done|].
  by destruct (type_is _ _).
Qed.

(** The effect of a chain update at a predicate. *)
Lemma update_answers sym (f : cpp_hashnode -> cpp_hashnode) r :
  let r' := run (update_node sym f ;;r check_eol) r in
  cpp_lookup sym r' = f (cpp_lookup sym r) /\
  forall sym', sym' <> sym -> cpp_lookup sym' r' = cpp_lookup sym' r.
Proof.
  cbv zeta. rewrite run_bind. unfold cpp_lookup at 1 3. rewrite check_eol_nodes. simpl. split.
  - by rewrite lookup_insert_eq.
  - intros sym' Hne. by rewrite lookup_insert_ne by done.
Qed.

Lemma predicate_inj a b : predicate a = predicate b -> a = b.
Proof. by intros [=]. Qed.

Section directives.
Context (r : reader) (p lp : cpp_token) (a : list cpp_token) (rp : cpp_token) (rest : list cpp_token).
Context (Hok : assertion_ok p lp a rp) (Hs : r_stream r = assertion_tokens p lp a rp ++ rest).

Lemma after_parse type : let m := parse_assertion type in
  out m r = (Some (predicate (t_text p)), Some (normal_answer a)) /\
  run m r = after_assertion r p lp a rp rest.
Proof. cbv zeta. unfold out, run. by rewrite (parse_assertion_ok _ _ _ _ _ _ _ Hok Hs). Qed.

Lemma do_assert_spec : let r' := run do_assert r in
  let old := answers_of (t_text p) r in
  answers_of (t_text p) r'
  = (match snd (find_answer old (normal_answer a)) with [] => normal_answer a :: old | _ => old end) /\
  forall q, q <> t_text p -> answers_of q r' = answers_of q r.
Proof.
  cbv zeta. unfold do_assert. rewrite run_bind. destruct (after_parse TA_ASSERT) as [-> ->]. simpl.
  rewrite run_bind, out_gets, run_gets. unfold answers_of.
  set (r1 := after_assertion r p lp a rp rest).
  assert (forall s, cpp_lookup s r1 = cpp_lookup s r) as Hl by (intros; apply after_assertion_lookup).
  rewrite Hl. destruct (snd (find_answer _ _)) as [|x l].
  - pose proof (update_answers (predicate (t_text p))
      (fun n => set_answers (normal_answer a :: n_answers n) n) r1) as [H1 H2].
    rewrite H1, Hl. split; [done|]. intros q Hq. rewrite H2, Hl; [done|].
    intros ?%predicate_inj. done.
  - unfold errorR, run, liftW. simpl. split; [by rewrite Hl|intros; by rewrite Hl].
Qed.

Lemma do_unassert_spec : let r' := run do_unassert r in
  let '(before, at_) := find_answer (answers_of (t_text p) r) (normal_answer a) in
  answers_of (t_text p) r' = before ++ tl at_ /\
  forall q, q <> t_text p -> answers_of q r' = answers_of q r.
Proof.
  cbv zeta. unfold do_unassert. rewrite run_bind. destruct (after_parse TA_UNASSERT) as [-> ->]. simpl.
  rewrite run_bind, out_gets, run_gets. unfold answers_of.
  set (r1 := after_assertion r p lp a rp rest).
  assert (forall s, cpp_lookup s r1 = cpp_lookup s r) as Hl by (intros; apply after_assertion_lookup).
  rewrite Hl. destruct (find_answer _ _) as [before at_].
  pose proof (update_answers (predicate (t_text p)) (set_answers (before ++ tl at_)) r1) as [H1 H2].
  rewrite H1. split; [done|]. intros q Hq. rewrite H2, Hl; [done|]. intros ?%predicate_inj. done.
Qed.

Lemma test_assertion_spec : out _cpp_test_assertion r =
  (false, match snd (find_answer (answers_of (t_text p) r) (normal_answer a)) with
          | [] => 0 | _ => 1 end).
Proof.
  unfold _cpp_test_assertion. rewrite out_bind. destruct (after_parse TA_IF) as [-> ->]. simpl.
  unfold out, bindR, gets. simpl. rewrite after_assertion_lookup. unfold answers_of.
  by destruct (n_answers _).
Qed.
End directives.

(** ** Results *)

(** C25: the answer chains of #assert and #unassert implement a set of
    answers per predicate.  For a complete assertion p(a) on the line:
    #assert adds a to the answers of p, #unassert removes it, a test in a
    conditional delivers 1 exactly when the set contains it; the chain keeps
    its answers pairwise distinct and no other predicate is affected. *)
Theorem assertions_refine_sets (r : reader) (p lp : cpp_token) (a : list cpp_token)
    (rp : cpp_token) (rest : list cpp_token) :
  assertion_ok p lp a rp -> r_stream r = assertion_tokens p lp a rp ++ rest ->
  chain_ok (answers_of (t_text p) r) ->
  let key := answer_key (normal_answer a) in
  let name := t_text p in
  (chain_ok (answers_of name (run do_assert r)) /\
   (forall b, asserted (answers_of name (run do_assert r)) b
              <-> answer_key b = key \/ asserted (answers_of name r) b) /\
   forall q, q <> name -> answers_of q (run do_assert r) = answers_of q r) /\
  (chain_ok (answers_of name (run do_unassert r)) /\
   (forall b, asserted (answers_of name (run do_unassert r)) b
              <-> answer_key b <> key /\ asserted (answers_of name r) b) /\
   forall q, q <> name -> answers_of q (run do_unassert r) = answers_of q r) /\
  (out _cpp_test_assertion r = (false, 1) <-> asserted (answers_of name r) (normal_answer a)).
Proof.
  intros Hok Hs Hch. cbv zeta.
  pose proof (find_answer_asserted (answers_of (t_text p) r) (normal_answer a)) as Hf.
  split; [|split].
  - destruct (do_assert_spec r p lp a rp rest Hok Hs) as [H1 H2]. rewrite H1.
    destruct (snd (find_answer _ _)) as [|x l].
    + split; [constructor; done|]. split; [|done]. intros b. unfold asserted. simpl.
      by rewrite elem_of_cons.
    + split; [done|]. split; [|done]. intros b. split; [by right|]. intros [Hb|Hb]; [|done].
      unfold asserted in *. by rewrite Hb.
  - pose proof (do_unassert_spec r p lp a rp rest Hok Hs) as H. cbv zeta in H.
    pose proof (find_answer_spec (answers_of (t_text p) r) (normal_answer a)) as Hs'.
    destruct (find_answer _ _) as [before at_]. destruct H as [H1 H2], Hs' as (Ho & Hb & Ha).
    rewrite H1. rewrite Ho in Hch |- *. unfold chain_ok, asserted in *.
    rewrite map_app in Hch. rewrite !map_app. destruct at_ as [|x at_]; simpl in *.
    + rewrite app_nil_r in *. split; [done|]. split; [|done]. intros b.
      split; [|by intros [_ ?]]. intros Hin. split; [|done]. intros E. by rewrite E in Hin.
    + rewrite Ha in *. apply NoDup_app in Hch as (N1 & N2 & N3). apply NoDup_cons in N3 as [N4 N5].
      split; [apply NoDup_app; split; [done|]; split; [|done]; intros y Hy Hy'; apply (N2 y Hy);
              by apply elem_of_cons; right|].
      split; [|done]. intros b. rewrite !elem_of_app, elem_of_cons. split.
      * intros Hin. split; [|tauto]. intros E. rewrite E in Hin. tauto.
      * tauto.
  - rewrite (test_assertion_spec r p lp a rp rest Hok Hs).
    destruct (snd (find_answer _ _)); [|done]. split; [done|]. intros ?; done.
Qed.

Lemma assertions_refine_sets_witness :
  asserted (answers_of (bytes "cpu") (run do_assert
    (fresh_reader [name_token "cpu"; tok CPP_OPEN_PAREN "("; name_token "i386";
                   tok CPP_CLOSE_PAREN ")"] ∅))) [name_token "i386"].
Proof.
  destruct (assertions_refine_sets
    (fresh_reader [name_token "cpu"; tok CPP_OPEN_PAREN "("; name_token "i386";
                   tok CPP_CLOSE_PAREN ")"] ∅)
    (name_token "cpu") (tok CPP_OPEN_PAREN "(") [name_token "i386"] (tok CPP_CLOSE_PAREN ")") [])
    as [(_ & H & _) _].
  - repeat split; try done. repeat constructor; done.
  - reflexivity.
  - constructor.
  - apply H. left. reflexivity.
Defined.
