(* ===== verification/ExprParse.v ===== *)
(** * The #if expression evaluator (libcpp/expr.c, _cpp_parse_expr)

    An operator precedence parser that evaluates as it parses.  Each entry of
    its stack is an operator together with the value to its right, which is
    absent until an operand has been read; the bottom entry is CPP_EOF.  A
    read of an absent value or of an entry below the bottom, undefined in C,
    is the outcome [RStuck] here, and a division that does not return
    ([num_div_op] at the precisions for which it loops) is [RDiverge].

    The character constants, the system-header test of a macro and the header
    search belong to other components: they are the fields of [env]. *)

From Stdlib Require Import ZArith Lia Bool String Ascii.
From stdpp Require Import base tactics list numbers gmap.
From S2P Require Import Prelude Reader CppNum NumLit Stream Assert.

Local Open Scope string_scope.
Local Open Scope list_scope.
Local Open Scope Z_scope.
Local Open Scope cint_scope.

(** ** What the evaluator asks of other components *)

Record env : Type := mk_env {
  e_opts : cpp_options;
  (** cpp_interpret_charconst: the character as a 32-bit value, and whether
      it is unsigned *)
  e_charconst : cpp_token -> W (Z * bool);
  (** cpp_sys_macro_p *)
  e_sys_macro_p : bool;
  (** _cpp_has_header (name, angle brackets, include_next) *)
  e_has_header : list byte -> bool -> bool -> bool
}.

(** ** Operands *)

Definition int_value (v : Z) : cpp_num := mk_num 0 v false false.

(** Handle meeting 'defined'; [dtok] is the token read last, 'defined' itself. *)
Definition parse_defined (e : env) (dtok : cpp_token) : R cpp_num :=
  modify (fun r => set_prevent_expansion (r_prevent_expansion r + 1) r) ;;r
  t0 ←r cpp_get_token ;;
  let paren := type_is t0 CPP_OPEN_PAREN in
  token ←r (if paren then cpp_get_token else mret t0) ;;
  node ←r
    (if type_is token CPP_NAME then
       if paren then
         close ←r cpp_get_token ;;
         if type_is close CPP_CLOSE_PAREN then mret (Some (t_text token, t_in_macro close))
         else errorR CPP_DL_ERROR "missing ')' after 'defined'" ;;r mret None
       else mret (Some (t_text token, t_in_macro token))
     else
       errorR CPP_DL_ERROR "operator 'defined' requires an identifier" ;;r
       whenR (flag (t_flags token) NAMED_OP)
         (errorR CPP_DL_ERROR "('%s' is an alternative token for '%s' in C++)") ;;r
       mret None) ;;
  match node with
  | Some (name, in_macro) =>
      whenR ((in_macro || t_in_macro dtok) && warn_expansion_to_defined (e_opts e))
        (liftW (cpp_pedwarning CPP_W_EXPANSION_TO_DEFINED
                  "this use of 'defined' may not be portable")) ;;r
      update_node name mark_used ;;r
      modify (set_mi_ind_cmacro (Some name))
  | None => mret tt
  end ;;r
  modify (fun r => set_prevent_expansion (r_prevent_expansion r - 1) r) ;;r
  match node with
  | Some (name, _) =>
      n ←r gets (cpp_lookup name) ;;
      mret (int_value (b2z (cpp_macro_p n && negb (flag (n_flags n) NODE_CONDITIONAL))))
  | None => mret (int_value 0)
  end.

(** The header name between the delimiters of a string or header token. *)
Definition header_text (t : cpp_token) : list byte :=
  take (length (t_text t) - 2) (drop 1 (t_text t)).

(** Handle meeting '__has_include__'.  The node a string or header token is
    taken to have is not one: the union member read is not the one the lexer
    set, and the pointer is used only as a name for the controlling macro. *)
Definition parse_has_include (e : env) (next : bool) : R cpp_num :=
  modify (fun r => set_in_has_include (r_in_has_include r + 1) r) ;;r
  t0 ←r cpp_get_token ;;
  let paren := type_is t0 CPP_OPEN_PAREN in
  token ←r (if paren then cpp_get_token else mret t0) ;;
  fname ←r
    (if type_is token CPP_STRING || type_is token CPP_HEADER_NAME then
       mret (Some (header_text token, type_is token CPP_HEADER_NAME))
     else if type_is token CPP_LESS then
       name ←r _cpp_bracket_include ;; mret (Some (name, true))
     else
       errorR CPP_DL_ERROR "operator '__has_include__' requires a header string" ;;r mret None) ;;
  seen ←r gets SEEN_EOL ;;
  whenR (paren && negb seen)
    (close ←r cpp_get_token ;;
     whenR (negb (type_is close CPP_CLOSE_PAREN))
       (errorR CPP_DL_ERROR "missing ')' after '__has_include__'")) ;;r
  whenR (type_is token CPP_STRING || type_is token CPP_HEADER_NAME)
    (modify (set_mi_ind_cmacro (Some (t_text token)))) ;;r
  modify (fun r => set_in_has_include (r_in_has_include r - 1) r) ;;r
  mret (int_value match fname with
                  | Some (name, angle) => b2z (e_has_header e name angle next)
                  | None => 0
                  end).

(** A CPP_NUMBER token. *)
Definition eval_number (e : env) (token : cpp_token) : W cpp_num :=
  c ←w cpp_classify_number (e_opts e) (e_sys_macro_p e) (t_text token) ;;
  let temp := fst c in
  when (flag temp CPP_N_USERDEF)
    (cpp_error CPP_DL_ERROR "user-defined literal in preprocessor expression") ;;w
  let category := Z.land temp CPP_N_CATEGORY in
  if category =? CPP_N_FLOATING then
    cpp_error CPP_DL_ERROR "floating constant in preprocessor expression" ;;w mret (int_value 0)
  else if category =? CPP_N_INTEGER then
    if negb (flag temp CPP_N_IMAGINARY)
    then cpp_interpret_integer (e_opts e) true (t_text token) temp
    else cpp_error CPP_DL_ERROR "imaginary number in preprocessor expression" ;;w mret (int_value 0)
  else mret (int_value 0).

(** A character constant: sign extension of a negative signed character. *)
Definition eval_charconst (e : env) (token : cpp_token) : W cpp_num :=
  cu ←w e_charconst e token ;;
  let '(cc, uns) := cu in
  mret (if negb uns && (2 ^ 31 <=? cc)
        then set_unsignedp uns (num_trim (mk_num (not64 0)
               (Z.lor cc (not64 (not64 0 >> (PART_PRECISION - 32)))) false false)
               (precision (e_opts e)))
        else mk_num 0 cc uns false).

(** An identifier. *)
Definition eval_name (e : env) (token : cpp_token) : R cpp_num :=
  let named s := bytes_eqb (t_text token) (bytes s) in
  if named "defined" then parse_defined e token
  else if named "__has_include__" then parse_has_include e false
  else if named "__has_include_next__" then parse_has_include e true
  else if cplusplus (e_opts e) && (named "true" || named "false") then
    mret (int_value (b2z (named "true")))
  else
    sk ←r gets r_skip_eval ;;
    whenR (warn_undef (e_opts e) && (sk =? 0))
      (liftW (cpp_warning CPP_W_UNDEF "'%s' is not defined, evaluates to 0")) ;;r
    mret (int_value 0).

(** Convert a token into a number. *)
Definition eval_token (e : env) (token : cpp_token) : R cpp_num :=
  match t_type token with
  | CPP_NUMBER => liftW (eval_number e token)
  | CPP_WCHAR | CPP_CHAR | CPP_CHAR16 | CPP_CHAR32 | CPP_UTF8CHAR => liftW (eval_charconst e token)
  | CPP_NAME => eval_name e token
  | _ =>
      sk ←r gets r_skipping ;;
      whenR (negb sk)
        (if cpp_pedantic (e_opts e)
         then errorR CPP_DL_PEDWARN "assertions are a GCC extension"
         else whenR (cpp_warn_deprecated (e_opts e))
                (liftW (cpp_warning CPP_W_DEPRECATED "assertions are a deprecated extension"))) ;;r
      t ←r _cpp_test_assertion ;;
      mret (int_value (snd t))
  end.

(** ** Operators *)

Definition NO_L_OPERAND : Z := 1.
Definition LEFT_ASSOC : Z := 2.
Definition CHECK_PROMOTION : Z := 4.

(** Operator to priority map: priority and flags. *)
Definition optab (op : cpp_ttype) : Z * Z :=
  match op with
  | CPP_EQ => (0, 0)
  | CPP_NOT => (16, NO_L_OPERAND)
  | CPP_GREATER => (12, Z.lor LEFT_ASSOC CHECK_PROMOTION)
  | CPP_LESS => (12, Z.lor LEFT_ASSOC CHECK_PROMOTION)
  | CPP_PLUS => (14, Z.lor LEFT_ASSOC CHECK_PROMOTION)
  | CPP_MINUS => (14, Z.lor LEFT_ASSOC CHECK_PROMOTION)
  | CPP_MULT => (15, Z.lor LEFT_ASSOC CHECK_PROMOTION)
  | CPP_DIV => (15, Z.lor LEFT_ASSOC CHECK_PROMOTION)
  | CPP_MOD => (15, Z.lor LEFT_ASSOC CHECK_PROMOTION)
  | CPP_AND => (9, Z.lor LEFT_ASSOC CHECK_PROMOTION)
  | CPP_OR => (7, Z.lor LEFT_ASSOC CHECK_PROMOTION)
  | CPP_XOR => (8, Z.lor LEFT_ASSOC CHECK_PROMOTION)
  | CPP_RSHIFT => (13, LEFT_ASSOC)
  | CPP_LSHIFT => (13, LEFT_ASSOC)
  | CPP_COMPL => (16, NO_L_OPERAND)
  | CPP_AND_AND => (6, LEFT_ASSOC)
  | CPP_OR_OR => (5, LEFT_ASSOC)
  | CPP_QUERY => (4, 0)
  | CPP_COLON => (4, Z.lor LEFT_ASSOC CHECK_PROMOTION)
  | CPP_COMMA => (4, LEFT_ASSOC)
  | CPP_OPEN_PAREN => (1, NO_L_OPERAND)
  | CPP_CLOSE_PAREN => (0, 0)
  | CPP_EOF => (0, 0)
  | CPP_EQ_EQ => (11, LEFT_ASSOC)
  | CPP_NOT_EQ => (11, LEFT_ASSOC)
  | CPP_GREATER_EQ => (12, Z.lor LEFT_ASSOC CHECK_PROMOTION)
  | CPP_LESS_EQ => (12, Z.lor LEFT_ASSOC CHECK_PROMOTION)
  | CPP_UPLUS => (16, NO_L_OPERAND)
  | CPP_UMINUS => (16, NO_L_OPERAND)
  | _ => (0, 0)
  end.

Definition prio_of (op : cpp_ttype) : Z := fst (optab op).
Definition has_flag (op : cpp_ttype) (f : Z) : bool := flag (snd (optab op)) f.

(** A stack entry. *)
Record op : Type := mk_op { o_op : cpp_ttype; o_value : option cpp_num }.

Definition set_value (v : cpp_num) (o : op) : op := mk_op (o_op o) (Some v).

(** The steps of the high-bit search of a division that are run. *)
Definition div_fuel : nat := 128.

(** Emits a warning if the effective sign of either operand changes. *)
Definition check_promotion (o : cpp_options) (lhs rhs : cpp_num) : W unit :=
  if eqb (unsignedp rhs) (unsignedp lhs) then mret tt
  else if unsignedp rhs then
    when (negb (num_positive lhs (precision o)))
      (cpp_error CPP_DL_WARNING "the left operand of '%s' changes sign when promoted")
  else
    when (negb (num_positive rhs (precision o)))
      (cpp_error CPP_DL_WARNING "the right operand of '%s' changes sign when promoted").

Definition unary (op : cpp_ttype) : bool :=
  match op with CPP_UPLUS | CPP_UMINUS | CPP_NOT | CPP_COMPL => true | _ => false end.

(** The value of a binary operator other than &&, ||, ?:; [None] is a
    division that does not return. *)
Definition binary_value (o : cpp_options) (sk : Z) (op : cpp_ttype) (lhs rhs : cpp_num)
  : option (W cpp_num) :=
  match op with
  | CPP_PLUS | CPP_MINUS | CPP_RSHIFT | CPP_LSHIFT | CPP_COMMA =>
      Some (num_binary_op o sk lhs rhs op)
  | CPP_GREATER | CPP_LESS | CPP_GREATER_EQ | CPP_LESS_EQ =>
      Some (mret (num_inequality_op o lhs rhs op))
  | CPP_EQ_EQ | CPP_NOT_EQ => Some (mret (num_equality_op lhs rhs op))
  | CPP_AND | CPP_OR | CPP_XOR => Some (mret (num_bitwise_op lhs rhs op))
  | CPP_MULT => Some (mret (num_mul o lhs rhs))
  | _ => num_div_op div_fuel o sk lhs rhs op
  end.

Definition arithmetic (op : cpp_ttype) : bool :=
  match op with
  | CPP_PLUS | CPP_MINUS | CPP_RSHIFT | CPP_LSHIFT | CPP_COMMA | CPP_GREATER | CPP_LESS
  | CPP_GREATER_EQ | CPP_LESS_EQ | CPP_EQ_EQ | CPP_NOT_EQ | CPP_AND | CPP_OR | CPP_XOR
  | CPP_MULT | CPP_DIV | CPP_MOD => true
  | _ => false
  end.

(** ** Reduction *)

Inductive rresult : Type :=
  | RStuck
  | RDiverge
  | RError
  | RTop (top : op) (below : list op).

(** The warning of an overflow, after a reduction that is evaluated. *)
Definition overflow_check (v : cpp_num) : R unit :=
  sk ←r gets r_skip_eval ;;
  whenR (overflow v && (sk =? 0))
    (errorR CPP_DL_PEDWARN "integer overflow in preprocessor expression").

Definition bump_skip (d : Z) : R unit :=
  modify (fun r => set_skip_eval (u32 (r_skip_eval r + d)) r).

(** The loop of [reduce]; [top] is the top entry and [below] the entries under
    it, the nearest first. *)
Fixpoint reduce_loop (e : env) (oper : cpp_ttype) (prio : Z) (top : op) (below : list op)
  : R rresult :=
  if prio <? prio_of (o_op top) then
    match below with
    | [] => mret RStuck
    | prev :: below' =>
        if warn_num_sign_change (e_opts e) && has_flag (o_op top) CHECK_PROMOTION
           && negb (match o_value prev, o_value top with Some _, Some _ => true | _, _ => false end)
        then mret RStuck
        else
        match o_value prev, o_value top with
        | Some l, Some r =>
            liftW (when (warn_num_sign_change (e_opts e) && has_flag (o_op top) CHECK_PROMOTION)
                     (check_promotion (e_opts e) l r))
        | _, _ => mret tt
        end ;;r
        if unary (o_op top) then
          match o_value top with
          | None => mret RStuck
          | Some v =>
              sk ←r gets r_skip_eval ;;
              v' ←r liftW (num_unary_op (e_opts e) sk v (o_op top)) ;;
              overflow_check v' ;;r
              reduce_loop e oper prio (set_value v' prev) below'
          end
        else if arithmetic (o_op top) then
          match o_value prev, o_value top with
          | Some l, Some r =>
              sk ←r gets r_skip_eval ;;
              match binary_value (e_opts e) sk (o_op top) l r with
              | None => mret RDiverge
              | Some m =>
                  v' ←r liftW m ;;
                  overflow_check v' ;;r
                  reduce_loop e oper prio (set_value v' prev) below'
              end
          | _, _ => mret RStuck
          end
        else
          match o_op top with
          | CPP_OR_OR =>
              match o_value prev, o_value top with
              | Some l, Some r =>
                  whenR (negb (num_zerop l)) (bump_skip (-1)) ;;r
                  reduce_loop e oper prio
                    (set_value (int_value (b2z (negb (num_zerop l) || negb (num_zerop r)))) prev)
                    below'
              | _, _ => mret RStuck
              end
          | CPP_AND_AND =>
              match o_value prev, o_value top with
              | Some l, Some r =>
                  whenR (num_zerop l) (bump_skip (-1)) ;;r
                  reduce_loop e oper prio
                    (set_value (int_value (b2z (negb (num_zerop l) && negb (num_zerop r)))) prev)
                    below'
              | _, _ => mret RStuck
              end
          | CPP_OPEN_PAREN =>
              match oper with
              | CPP_CLOSE_PAREN => mret (RTop (mk_op (o_op prev) (o_value top)) below')
              | _ => errorR CPP_DL_ERROR "missing ')' in expression" ;;r mret RError
              end
          | CPP_COLON =>
              match below' with
              | cond :: below'' =>
                  match o_value cond, o_value prev, o_value top with
                  | Some c, Some a, Some b =>
                      whenR (negb (num_zerop c)) (bump_skip (-1)) ;;r
                      let v := set_unsignedp (unsignedp a || unsignedp b)
                                 (if negb (num_zerop c) then a else b) in
                      reduce_loop e oper prio (set_value v cond) below''
                  | _, _, _ => mret RStuck
                  end
              | [] => mret RStuck
              end
          | CPP_QUERY =>
              match oper with
              | CPP_COMMA | CPP_COLON => mret (RTop top below)
              | _ => errorR CPP_DL_ERROR "'?' without following ':'" ;;r mret RError
              end
          | _ => errorR CPP_DL_ICE "impossible operator '%u'" ;;r mret RError
          end
    end
  else
    match oper with
    | CPP_CLOSE_PAREN => errorR CPP_DL_ERROR "missing '(' in expression" ;;r mret RError
    | _ => mret (RTop top below)
    end.

(** Reduce the operator / value stack if possible, in preparation for pushing
    operator OP. *)
Definition reduce (e : env) (top : op) (below : list op) (oper : cpp_ttype) : R rresult :=
  if (ttype_index (o_op top) <=? ttype_index CPP_EQ)
     || (ttype_index CPP_LAST_CPP_OP + 2 <? ttype_index (o_op top)) then
    errorR CPP_DL_ICE "impossible operator '%u'" ;;r mret RError
  else
    match oper with
    | CPP_OPEN_PAREN => mret (RTop top below)
    | _ => reduce_loop e oper (prio_of oper - b2z (has_flag oper LEFT_ASSOC)) top below
    end.

(** The size of the operator stack after expansion. *)
Definition _cpp_expand_op_stack (old_size : Z) : Z := old_size * 2 + 20.

(** ** The parser *)

Inductive presult : Type :=
  | PStuck
  | PDiverge
  | PFuel
  | PRet (truth : bool).

Definition syntax_error_at (msg : string) : R presult :=
  errorR CPP_DL_ERROR msg ;;r mret (PRet false).

(** The operator a token stands for: + and - where a value is wanted are
    unary. *)
Definition operator_of (want_value : bool) (ty : cpp_ttype) : cpp_ttype :=
  match ty with
  | CPP_PLUS => if want_value then CPP_UPLUS else CPP_PLUS
  | CPP_MINUS => if want_value then CPP_UMINUS else CPP_MINUS
  | _ => ty
  end.

Definition value_token (ty : cpp_ttype) : bool :=
  match ty with
  | CPP_NUMBER | CPP_CHAR | CPP_WCHAR | CPP_CHAR16 | CPP_CHAR32 | CPP_UTF8CHAR
  | CPP_NAME | CPP_HASH => true
  | _ => false
  end.

(** The default case of the switch on the token type. *)
Definition invalid_token (ty : cpp_ttype) : bool :=
  match ty with
  | CPP_NOT | CPP_PLUS | CPP_MINUS => false
  | _ => (ttype_index ty <=? ttype_index CPP_EQ) || (ttype_index CPP_PLUS_EQ <=? ttype_index ty)
  end.

(** "Check we have a value or operator as appropriate": the message of the
    syntax error, if any.  [top] is the operator on top of the stack. *)
Definition operand_error (is_if want_value : bool) (oper top : cpp_ttype) : option string :=
  if has_flag oper NO_L_OPERAND then
    if negb want_value then Some "missing binary operator before token '%s'" else None
  else if want_value then
    if ttype_eqb oper CPP_CLOSE_PAREN && ttype_eqb top CPP_OPEN_PAREN then
      Some "missing expression between '(' and ')'"
    else if ttype_eqb oper CPP_EOF && ttype_eqb top CPP_EOF then
      Some (if is_if then "#if with no expression" else "#elif with no expression")
    else if negb (ttype_eqb top CPP_EOF) && negb (ttype_eqb top CPP_OPEN_PAREN) then
      Some "operator '%s' has no right operand"
    else if ttype_eqb oper CPP_CLOSE_PAREN || ttype_eqb oper CPP_EOF then None
    else Some "operator '%s' has no left operand"
  else None.

(** The operator-specific code before a push: the skipping of unevaluated
    operands.  [None] is a read of an absent value, [Some (Some msg)] a
    syntax error. *)
Definition before_push (oper : cpp_ttype) (top : op) (below : list op) : R (option (option string)) :=
  match oper with
  | CPP_OR_OR =>
      match o_value top with
      | Some v => whenR (negb (num_zerop v)) (bump_skip 1) ;;r mret (Some None)
      | None => mret None
      end
  | CPP_AND_AND | CPP_QUERY =>
      match o_value top with
      | Some v => whenR (num_zerop v) (bump_skip 1) ;;r mret (Some None)
      | None => mret None
      end
  | CPP_COLON =>
      if negb (ttype_eqb (o_op top) CPP_QUERY) then
        mret (Some (Some " ':' without preceding '?'"))
      else
        match below with
        | prev :: _ =>
            match o_value prev with
            | Some c => bump_skip (if negb (num_zerop c) then 1 else -1) ;;r mret (Some None)
            | None => mret None
            end
        | [] => mret None
        end
  | _ => mret (Some None)
  end.

(** Pushing an entry, the stack being expanded when it is full; [false] is a
    write past its end. *)
Definition push_room (below : list op) : R bool :=
  limit ←r gets r_op_limit ;;
  let index := Z.of_nat (length below) in
  let limit' := if index =? limit then _cpp_expand_op_stack limit else limit in
  modify (set_op_limit limit') ;;r
  mret (index <? limit').

(** The end of the expression. *)
Definition parse_end (is_if saw_leading_not : bool) (lex_count : Z) (top : op) (below : list op)
  : R presult :=
  mi ←r gets r_mi_ind_cmacro ;;
  whenR (bool_decide (mi <> None) && negb (saw_leading_not && (lex_count =? 3)))
    (modify (set_mi_ind_cmacro None)) ;;r
  match below with
  | _ :: _ => errorR CPP_DL_ICE (if is_if then "unbalanced stack in #if"
                                 else "unbalanced stack in #elif") ;;r mret (PRet false)
  | [] => match o_value top with
          | Some v => mret (PRet (negb (num_zerop v)))
          | None => mret PStuck
          end
  end.

Fixpoint parse_loop (e : env) (is_if : bool) (fuel : nat) (lex_count : Z)
    (saw_leading_not want_value : bool) (top : op) (below : list op) : R presult :=
  match fuel with
  | O => mret PFuel
  | S fuel =>
      let lex_count := u32 (lex_count + 1) in
      token ←r cpp_get_token ;;
      let ty := t_type token in
      if value_token ty then
        if negb want_value then syntax_error_at "missing binary operator before token '%s'"
        else
          v ←r eval_token e token ;;
          parse_loop e is_if fuel lex_count saw_leading_not false (set_value v top) below
      else
        let saw_leading_not :=
          match ty with CPP_NOT => lex_count =? 1 | _ => saw_leading_not end in
        let oper := operator_of want_value ty in
        if invalid_token ty then
          syntax_error_at "token '%s' is not valid in preprocessor expressions"
        else
          match operand_error is_if want_value oper (o_op top) with
          | Some msg => syntax_error_at msg
          | None =>
              res ←r reduce e top below oper ;;
              match res with
              | RStuck => mret PStuck
              | RDiverge => mret PDiverge
              | RError => mret (PRet false)
              | RTop top below =>
                  match oper with
                  | CPP_EOF => parse_end is_if saw_leading_not lex_count top below
                  | CPP_CLOSE_PAREN =>
                      parse_loop e is_if fuel lex_count saw_leading_not want_value top below
                  | _ =>
                      pushed ←r before_push oper top below ;;
                      match pushed with
                      | None => mret PStuck
                      | Some (Some msg) => syntax_error_at msg
                      | Some None =>
                          room ←r push_room (top :: below) ;;
                          if room then
                            parse_loop e is_if fuel lex_count saw_leading_not true
                              (mk_op oper None) (top :: below)
                          else mret PStuck
                      end
                  end
              end
          end
  end.

(** Parse and evaluate a C expression; the fuel is a token more than the line
    holds. *)
Definition _cpp_parse_expr (e : env) (is_if : bool) : R presult :=
  modify (set_skip_eval 0) ;;r
  modify (set_mi_ind_cmacro None) ;;r
  st ←r gets r_stream ;;
  parse_loop e is_if (S (length st)) 0 false true (mk_op CPP_EOF None) [].

(** ** What every computation of the evaluator respects *)

(** The number of tokens before the end of the line. *)
Fixpoint body (st : list cpp_token) : nat :=
  match st with
  | [] => 0
  | t :: st' => if type_is t CPP_EOF then 0 else S (body st')
  end.

(** The relation between the states around a computation that reads operands:
    the line does not grow and the parser's own state is not touched. *)
Record calm (r r' : reader) : Prop := {
  calm_body : (body (r_stream r') <= body (r_stream r))%nat;
  calm_limit : r_op_limit r' = r_op_limit r;
  calm_skip_eval : r_skip_eval r' = r_skip_eval r;
  calm_skipping : r_skipping r' = r_skipping r;
  calm_if_stack : r_if_stack r' = r_if_stack r;
  calm_mi : r_mi_cmacro r' = r_mi_cmacro r /\ r_mi_valid r' = r_mi_valid r
}.

#[export] Instance calm_preorder : PreOrder calm.
Proof.
  split.
  - intros r. by constructor.
  - intros r1 r2 r3 [????? []] [????? []]. constructor; [lia|congruence..|split; congruence].
Qed.

(** A diagnostic that is not an internal error. *)
Definition not_ice (d : diag) : Prop := d_level d <> CPP_DL_ICE.

Definition quietW {A} (m : W A) : Prop := Forall not_ice (fst m).
Definition polite {A} (m : R A) : Prop :=
  forall r, Forall not_ice (diags m r) /\ calm r (run m r).

Lemma quietW_bind {A B} (m : W A) (f : A -> W B) :
  quietW m -> (forall x, quietW (f x)) -> quietW (y ←w m ;; f y).
Proof. intros H1 H2. unfold quietW. rewrite fst_W_bind. apply Forall_app. split; [done|apply H2]. Qed.

Lemma quietW_ret {A} (x : A) : quietW (mret x).
Proof. constructor. Qed.

Lemma quietW_when b m : quietW m -> quietW (when b m).
Proof. destruct b; [done|]. intros _. constructor. Qed.

Lemma quietW_emit l m : l <> CPP_DL_ICE -> quietW (cpp_error l m).
Proof. intros. by repeat constructor. Qed.

Lemma quietW_warning w m : quietW (cpp_warning w m).
Proof. by repeat constructor. Qed.

Lemma quietW_pedwarning w m : quietW (cpp_pedwarning w m).
Proof. by repeat constructor. Qed.

Lemma polite_bind {A B} (m : R A) (f : A -> R B) :
  polite m -> (forall x, polite (f x)) -> polite (bindR m f).
Proof.
  intros H1 H2 r. rewrite diags_bind, run_bind. destruct (H1 r) as [Hd Hc].
  destruct (H2 (out m r) (run m r)) as [Hd' Hc']. split; [by apply Forall_app|by etrans].
Qed.

Lemma polite_ret {A} (x : A) : polite (mret x).
Proof. intros r. split; [constructor|done]. Qed.

Lemma polite_gets {A} (f : reader -> A) : polite (gets f).
Proof. intros r. split; [constructor|done]. Qed.

Lemma polite_lift {A} (m : W A) : quietW m -> polite (liftW m).
Proof. intros H r. split; [apply H|done]. Qed.

Lemma polite_error l m : l <> CPP_DL_ICE -> polite (errorR l m).
Proof. intros. by apply polite_lift, quietW_emit. Qed.

Lemma polite_when b m : polite m -> polite (whenR b m).
Proof. destruct b; [done|]. intros _. apply polite_ret. Qed.

Lemma polite_get : polite cpp_get_token.
Proof.
  intros r. unfold diags, run, cpp_get_token. destruct (r_stream r) as [|t st] eqn:E; simpl;
    (split; [constructor|]); constructor; simpl; rewrite ?E; simpl; try done; try lia.
  destruct (type_is t CPP_EOF) eqn:Et; simpl; rewrite ?Et; lia.
Qed.

Lemma polite_modify f : (forall r, calm r (f r)) -> polite (modify f).
Proof. intros H r. split; [constructor|apply H]. Qed.

Lemma polite_update name f : polite (update_node name f).
Proof. apply polite_modify. intros r. by constructor. Qed.

Lemma glue_loop_body acc lx st : let '(_, _, _, st') := glue_loop acc lx st in
  (body st' <= body st)%nat.
Proof.
  revert acc lx. induction st as [|t st IH]; intros acc lx; simpl; [lia|].
  destruct (type_is t CPP_PADDING) eqn:E1.
  { apply type_is_true in E1. specialize (IH acc lx). destruct (glue_loop _ _ _) as [[[??]?]?].
    rewrite (proj2 (type_is_false t CPP_EOF)) by congruence. lia. }
  destruct (type_is t CPP_GREATER) eqn:E2.
  { apply type_is_true in E2. rewrite (proj2 (type_is_false t CPP_EOF)) by congruence. lia. }
  destruct (type_is t CPP_EOF) eqn:E3; [simpl; rewrite E3; lia|].
  match goal with |- context [glue_loop ?a ?b st] => specialize (IH a b) end.
  destruct (glue_loop _ _ _) as [[[??]?]?]. lia.
Qed.

Lemma polite_glue : polite glue_header_name.
Proof.
  intros r. unfold diags, run, glue_header_name.
  pose proof (glue_loop_body [] (r_lexed r) (r_stream r)) as H.
  destruct (glue_loop _ _ _) as [[[name closed] lx] st]. simpl. split.
  - destruct closed; by repeat constructor.
  - by constructor.
Qed.

Lemma answer_loop_body acc lx st : let '(_, _, st') := answer_loop acc lx st in
  (body st' <= body st)%nat.
Proof.
  revert acc lx. induction st as [|t st IH]; intros acc lx; simpl; [lia|].
  destruct (type_is t CPP_CLOSE_PAREN) eqn:E1.
  { apply type_is_true in E1. rewrite (proj2 (type_is_false t CPP_EOF)) by congruence. lia. }
  destruct (type_is t CPP_EOF) eqn:E3; [simpl; rewrite E3; lia|].
  specialize (IH (t :: acc) (t :: lx)). destruct (answer_loop _ _ _) as [[??]?]. lia.
Qed.

(** Reading a token and putting it back changes nothing. *)
Lemma get_backup r : calm r (run _cpp_backup_token (run cpp_get_token r)).
Proof.
  unfold run, _cpp_backup_token, cpp_get_token, modify. destruct (r_stream r) as [|t st] eqn:E; simpl;
    constructor; simpl; rewrite ?E; try done.
  simpl. destruct (type_is t CPP_EOF) eqn:Et; simpl; lia.
Qed.

Lemma polite_answer_tail :
  polite (r ←r gets (fun r => r) ;;
    let '(answer, lx, st) := answer_loop [] (r_lexed r) (r_stream r) in
    modify (set_tokens st lx) ;;r
    match answer with
    | None => errorR CPP_DL_ERROR "missing ')' to complete answer" ;;r mret (false, None)
    | Some [] => errorR CPP_DL_ERROR "predicate's answer is empty" ;;r mret (false, None)
    | Some (t :: ts) => mret (true, Some (clear_prev_white t :: ts))
    end).
Proof.
  intros r. rewrite diags_bind, run_bind, out_gets, run_gets.
  pose proof (answer_loop_body [] (r_lexed r) (r_stream r)) as H.
  destruct (answer_loop _ _ _) as [[answer lx] st]. rewrite diags_bind, run_bind.
  assert (calm r (set_tokens st lx r)) as Hc by (by constructor).
  split.
  - simpl. destruct answer as [[|??]|]; simpl; by repeat constructor.
  - destruct answer as [[|??]|]; simpl; exact Hc.
Qed.

Lemma polite_parse_answer : polite (parse_answer TA_IF).
Proof.
  intros r. unfold parse_answer. rewrite diags_bind, run_bind.
  destruct (negb _).
  - rewrite diags_bind, run_bind. split; [|apply get_backup].
    apply Forall_app. split; [apply polite_get|]. simpl. constructor.
  - destruct (polite_answer_tail (run cpp_get_token r)) as [H1 H2].
    destruct (polite_get r) as [H3 H4]. split; [by apply Forall_app|by etrans].
Qed.

Create HintDb polite discriminated.
#[export] Hint Resolve polite_ret polite_gets polite_get polite_update polite_glue
  polite_parse_answer quietW_ret quietW_warning quietW_pedwarning : polite.

(** Decompose a computation into its parts. *)
Ltac politely :=
  repeat first
  [ progress intros
  | solve [auto with polite]
  | apply polite_bind | apply quietW_bind
  | apply polite_when | apply quietW_when
  | apply polite_error; discriminate
  | apply quietW_emit; discriminate
  | apply polite_lift
  | apply polite_modify; intros; by constructor
  | progress cbv zeta
  | match goal with
    | |- polite (if ?b then _ else _) => destruct b
    | |- quietW (if ?b then _ else _) => destruct b
    | |- quietW (cpp_error (if ?b then _ else _) _) => destruct b
    | |- polite (match ?x with _ => _ end) => destruct x
    | |- quietW (match ?x with _ => _ end) => destruct x
    end ].

Lemma polite_parse_assertion : polite (parse_assertion TA_IF).
Proof. unfold parse_assertion. politely. Qed.

Lemma polite_test_assertion : polite _cpp_test_assertion.
Proof.
  unfold _cpp_test_assertion. apply polite_bind; [apply polite_parse_assertion|].
  intros [[sym|] ans]; [politely|]. simpl. intros r. rewrite diags_bind, run_bind, out_gets, run_gets.
  unfold SEEN_EOL. destruct (r_lexed r) as [|t lx] eqn:E; [by apply (polite_ret (true, 0))|].
  destruct (type_is t CPP_EOF) eqn:Et; [|by apply (polite_ret (true, 0))].
  simpl. split; [by repeat constructor|]. unfold run, bindR, modify. simpl. rewrite E. simpl.
  constructor; simpl; try done. rewrite Et. lia.
Qed.

#[export] Hint Resolve polite_parse_assertion polite_test_assertion : polite.

Section polite_env.
Context (e : env) (Hcc : forall t, quietW (e_charconst e t)).

Lemma quiet_classify o sm text : quietW (cpp_classify_number o sm text).
Proof.
  unfold cpp_classify_number, classify_float, classify_int, classify_float_suffix,
    classify_finish, syntax_error. politely.
Qed.

Lemma quiet_interpret o ind text type : quietW (cpp_interpret_integer o ind text type).
Proof. unfold cpp_interpret_integer. politely. Qed.

#[local] Hint Resolve quiet_classify quiet_interpret : polite.

Lemma polite_parse_defined t : polite (parse_defined e t).
Proof. unfold parse_defined. politely. Qed.

Lemma polite_has_include b : polite (parse_has_include e b).
Proof. unfold parse_has_include, _cpp_bracket_include. politely. Qed.

#[local] Hint Resolve polite_parse_defined polite_has_include : polite.

Lemma polite_eval_token t : polite (eval_token e t).
Proof.
  unfold eval_token, eval_name, eval_number, eval_charconst. destruct (t_type t); politely.
  all: apply Hcc.
Qed.
End polite_env.

(** ** The stack discipline *)

(** The operators that can be on the stack above the bottom. *)
Definition pushable (oper : cpp_ttype) : bool :=
  unary oper || arithmetic oper
  || match oper with
     | CPP_OR_OR | CPP_AND_AND | CPP_OPEN_PAREN | CPP_COLON | CPP_QUERY => true
     | _ => false
     end.

(** The entries of the stack: the bottom is CPP_EOF, an operator with a left
    operand stands on a value, a colon stands on its question mark. *)
Fixpoint stack_ok (top : op) (below : list op) : Prop :=
  match below with
  | [] => o_op top = CPP_EOF
  | prev :: below' =>
      pushable (o_op top) = true /\
      (has_flag (o_op top) NO_L_OPERAND = false -> o_value prev <> None) /\
      (o_op top = CPP_COLON -> o_op prev = CPP_QUERY) /\
      stack_ok prev below'
  end.

Lemma stack_ok_value v top below : stack_ok (set_value v top) below <-> stack_ok top below.
Proof. by destruct below. Qed.

Lemma stack_ok_op top below : stack_ok top below ->
  o_op top = CPP_EOF \/ pushable (o_op top) = true.
Proof. destruct below; simpl; [by left|]. intros [? _]. by right. Qed.

(** What a reduction that succeeds leaves. *)
Definition reduced (oper : cpp_ttype) (prio : Z) (top : op) (below : list op) : Prop :=
  stack_ok top below /\ o_value top <> None /\
  (oper <> CPP_CLOSE_PAREN -> prio_of (o_op top) <= prio \/
     o_op top = CPP_QUERY /\ (oper = CPP_COMMA \/ oper = CPP_COLON)).

(** A reduction only emits diagnostics and counts [skip_eval] down. *)
Record steady (r r' : reader) : Prop := {
  steady_stream : r_stream r' = r_stream r;
  steady_limit : r_op_limit r' = r_op_limit r;
  steady_skipping : r_skipping r' = r_skipping r;
  steady_if_stack : r_if_stack r' = r_if_stack r;
  steady_mi : r_mi_cmacro r' = r_mi_cmacro r /\ r_mi_valid r' = r_mi_valid r
}.

#[export] Instance steady_preorder : PreOrder steady.
Proof.
  split; [by intros r; constructor|].
  intros r1 r2 r3 [???? []] [???? []]. constructor; [congruence..|split; congruence].
Qed.

(** A computation of the reducer, with a postcondition on its result. *)
Definition settles {A} (m : R A) (Q : A -> Prop) : Prop :=
  forall r, Forall not_ice (diags m r) /\ steady r (run m r) /\ Q (out m r).

Lemma settles_bind {A B} (m : R A) (f : A -> R B) (P : A -> Prop) (Q : B -> Prop) :
  settles m P -> (forall x, P x -> settles (f x) Q) -> settles (bindR m f) Q.
Proof.
  intros H1 H2 r. rewrite diags_bind, run_bind, out_bind. destruct (H1 r) as (Hd & Hc & HP).
  destruct (H2 _ HP (run m r)) as (Hd' & Hc' & HQ).
  split; [by apply Forall_app|]. split; [by etrans|done].
Qed.

Lemma settles_ret {A} (x : A) (Q : A -> Prop) : Q x -> settles (mret x) Q.
Proof. intros H r. split; [constructor|]. split; [by constructor|done]. Qed.

Lemma settles_lift {A} (m : W A) : quietW m -> settles (liftW m) (fun _ => True).
Proof. intros H r. split; [apply H|]. split; [by constructor|done]. Qed.

Lemma settles_gets {A} (f : reader -> A) : settles (gets f) (fun _ => True).
Proof. intros r. split; [constructor|]. split; [by constructor|done]. Qed.

Lemma settles_bump b d : settles (whenR b (bump_skip d)) (fun _ => True).
Proof. intros r. destruct b; (split; [constructor|]); (split; [by constructor|done]). Qed.

Lemma settles_error {A} (x : A) msg (Q : A -> Prop) : Q x ->
  settles (errorR CPP_DL_ERROR msg ;;r mret x) Q.
Proof.
  intros. apply settles_bind with (fun _ => True); [|intros; by apply settles_ret].
  apply settles_lift. by apply quietW_emit.
Qed.

Lemma settles_overflow v : settles (overflow_check v) (fun _ => True).
Proof.
  apply settles_bind with (fun _ => True); [apply settles_gets|]. intros sk _.
  destruct (_ && _); [|by apply settles_ret]. apply settles_lift. by apply quietW_emit.
Qed.

Lemma quiet_unary o sk v oper : quietW (num_unary_op o sk v oper).
Proof. unfold num_unary_op. destruct oper; politely. Qed.

Lemma quiet_div fuel o sk l r oper m : num_div_op fuel o sk l r oper = Some m -> quietW m.
Proof.
  unfold num_div_op. cbv zeta. intros H.
  repeat match type of H with
  | context [let '(_, _) := ?x in _] => destruct x
  | context [match ?x with _ => _ end] => destruct x
  end; simplify_eq; politely.
Qed.

Lemma quiet_binary o sk oper l r m : binary_value o sk oper l r = Some m -> quietW m.
Proof.
  unfold binary_value. intros H.
  destruct oper; simplify_eq; try (by eapply quiet_div); try apply quietW_ret;
    unfold num_binary_op; politely.
Qed.

Definition reduce_post (oper : cpp_ttype) (prio : Z) (n : nat) (res : rresult) : Prop :=
  match res with
  | RStuck => False
  | RTop top below => reduced oper prio top below /\ (length below <= n)%nat
  | _ => True
  end.

Lemma reduce_post_le oper prio n m res : (n <= m)%nat ->
  reduce_post oper prio n res -> reduce_post oper prio m res.
Proof. destruct res; simpl; [done..|]. intros ? [? ?]. split; [done|lia]. Qed.

Lemma settles_weaken {A} (m : R A) (P Q : A -> Prop) :
  (forall x, P x -> Q x) -> settles m P -> settles m Q.
Proof. intros H Hs r. destruct (Hs r) as (? & ? & ?). auto. Qed.

(** A step of the loop that computes a value and goes on. *)
Lemma settles_step {A} (m : R A) (f : A -> R rresult) Q :
  settles m (fun _ => True) -> (forall x, settles (f x) Q) -> settles (bindR m f) Q.
Proof. intros H1 H2. eapply settles_bind; [exact H1|]. intros x _. apply H2. Qed.

Lemma reduce_loop_exit oper prio top below : stack_ok top below -> o_value top <> None ->
  prio_of (o_op top) <= prio ->
  settles (match oper with
           | CPP_CLOSE_PAREN => errorR CPP_DL_ERROR "missing '(' in expression" ;;r mret RError
           | _ => mret (RTop top below)
           end) (reduce_post oper prio (length below)).
Proof.
  intros Hs Hv Hp. assert (reduced oper prio top below) by (split; [done|]; split; [done|]; by left).
  destruct oper; (apply settles_error; done) || (apply settles_ret; done).
Qed.

(** A parenthesis meets the operator that follows the expression. *)
Lemma reduce_paren oper prio prev below r : stack_ok prev below ->
  settles (match oper with
           | CPP_CLOSE_PAREN => mret (RTop (mk_op (o_op prev) (Some r)) below)
           | _ => errorR CPP_DL_ERROR "missing ')' in expression" ;;r mret RError
           end) (reduce_post oper prio (S (length below))).
Proof.
  intros Hs. destruct oper; try by apply settles_error.
  apply settles_ret. simpl. split; [|lia]. split; [by destruct below|]. done.
Qed.

(** A question mark meets the operator that follows its second operand. *)
Lemma reduce_query oper prio top below : stack_ok top below -> o_value top <> None ->
  o_op top = CPP_QUERY ->
  settles (match oper with
           | CPP_COMMA | CPP_COLON => mret (RTop top below)
           | _ => errorR CPP_DL_ERROR "'?' without following ':'" ;;r mret RError
           end) (reduce_post oper prio (length below)).
Proof.
  intros Hs Hv Hq. destruct oper; try (by apply settles_error); apply settles_ret;
    (split; [|lia]); (split; [done|]); (split; [done|]); intros _; right; auto.
Qed.

Lemma settles_promotion (e : env) oper (l r : cpp_num) : settles
  (liftW (when (warn_num_sign_change (e_opts e) && has_flag oper CHECK_PROMOTION)
            (check_promotion (e_opts e) l r))) (fun _ => True).
Proof. apply settles_lift. unfold check_promotion. politely. Qed.

Lemma reduce_loop_ok e oper prio n : 0 <= prio -> forall top below, (length below <= n)%nat ->
  stack_ok top below -> o_value top <> None ->
  settles (reduce_loop e oper prio top below) (reduce_post oper prio (length below)).
Proof.
  intros Hprio. induction n as [n IH] using lt_wf_ind. intros top below Hn Hs Hv.
  destruct below as [|prev below']; simpl reduce_loop;
    destruct (Z.ltb_spec prio (prio_of (o_op top))) as [Hp|Hp];
    try (by apply reduce_loop_exit).
  { simpl in Hs. rewrite Hs in Hp. unfold prio_of in Hp. simpl in Hp. lia. }
  pose proof Hs as Hs0. destruct Hs as (Hpush & Hprev & Hcolon & Hs).
  destruct (o_value top) as [r|] eqn:Er; [|done].
  assert (forall v, settles (reduce_loop e oper prio (set_value v prev) below')
                      (reduce_post oper prio (length (prev :: below')))) as Hgo.
  { intros v. eapply settles_weaken; [intros x; apply reduce_post_le; simpl; apply Nat.le_succ_diag_r|].
    apply (IH (length below')); [simpl in Hn; lia|done|by apply stack_ok_value|done]. }
  destruct (o_value prev) as [l|] eqn:El; cycle 1.
  { destruct (has_flag (o_op top) NO_L_OPERAND) eqn:Hf; [|by destruct Hprev].
    destruct (o_op top) eqn:Eo; try discriminate Hpush; try discriminate Hf;
      rewrite ?andb_false_r; cbn [andb negb unary arithmetic];
      (apply settles_step; [by apply settles_ret|intros _]);
      try (apply settles_step; [apply settles_gets|intros sk];
           apply settles_step; [apply settles_lift, quiet_unary|intros v'];
           apply settles_step; [apply settles_overflow|intros _; apply Hgo]).
    by apply reduce_paren. }
  rewrite andb_false_r. cbv iota. apply settles_step; [apply settles_promotion|intros _].
  destruct (unary (o_op top)) eqn:Eun.
  { apply settles_step; [apply settles_gets|intros sk].
    apply settles_step; [apply settles_lift, quiet_unary|intros v'].
    apply settles_step; [apply settles_overflow|intros _; apply Hgo]. }
  destruct (arithmetic (o_op top)) eqn:Ear.
  { apply settles_step; [apply settles_gets|intros sk].
    destruct (binary_value _ _ _ _ _) as [m|] eqn:Em; [|by apply settles_ret].
    apply settles_step; [eapply settles_lift, quiet_binary, Em|intros v'].
    apply settles_step; [apply settles_overflow|intros _; apply Hgo]. }
  unfold pushable in Hpush. rewrite Eun, Ear in Hpush. cbn [orb] in Hpush.
  destruct (o_op top) eqn:Eo; try discriminate Hpush.
  - apply settles_step; [apply settles_bump|intros _; apply Hgo].
  - apply settles_step; [apply settles_bump|intros _; apply Hgo].
  - apply (reduce_query oper prio top (prev :: below')); [done|congruence|done].
  - specialize (Hcolon eq_refl).
    destruct below' as [|cond below'']; [simpl in Hs; congruence|].
    destruct Hs as (_ & Hc & _ & Hs). rewrite Hcolon in Hc. specialize (Hc eq_refl).
    destruct (o_value cond) as [c|]; [|done].
    apply settles_step; [apply settles_bump|intros _].
    eapply settles_weaken; [intros x; apply (reduce_post_le _ _ (length below'')); simpl; lia|].
    apply (IH (length below'')); [simpl in Hn; lia|done|by apply stack_ok_value|done].
  - by apply reduce_paren.
Qed.

(** ** One step of the parser *)

Definition valid_oper (oper : cpp_ttype) : bool :=
  pushable oper || ttype_eqb oper CPP_EOF || ttype_eqb oper CPP_CLOSE_PAREN.

Lemma operator_valid want ty : value_token ty = false -> invalid_token ty = false ->
  valid_oper (operator_of want ty) = true.
Proof. by destruct ty, want. Qed.

Lemma operator_eof want ty : operator_of want ty = CPP_EOF <-> ty = CPP_EOF.
Proof. destruct ty, want; simpl; split; congruence. Qed.

Definition reduce_good (oper : cpp_ttype) (top : op) (below : list op) (res : rresult) : Prop :=
  match res with
  | RStuck => False
  | RTop t b =>
      stack_ok t b /\ (length b <= length below)%nat /\
      (has_flag oper NO_L_OPERAND = true -> t = top /\ b = below) /\
      (has_flag oper NO_L_OPERAND = false -> o_value t <> None) /\
      (oper = CPP_EOF -> b = [])
  | _ => True
  end.

Lemma pushable_prio oper : pushable oper = true -> 1 <= prio_of oper <= 16.
Proof. destruct oper; try discriminate; intros _; unfold prio_of; simpl; lia. Qed.

Lemma eof_bottom top below : stack_ok top below -> prio_of (o_op top) <= 0 -> below = [].
Proof.
  destruct below; [done|]. intros [Hp _] Hle. apply pushable_prio in Hp. lia.
Qed.

Lemma reduce_enter e top below oper : stack_ok top below ->
  reduce e top below oper =
  match oper with
  | CPP_OPEN_PAREN => mret (RTop top below)
  | _ => reduce_loop e oper (prio_of oper - b2z (has_flag oper LEFT_ASSOC)) top below
  end.
Proof.
  intros Hs. unfold reduce. apply stack_ok_op in Hs.
  destruct (o_op top); try (destruct Hs; discriminate); done.
Qed.

(** Prefix operators reduce nothing. *)
Lemma reduce_prefix e top below oper : stack_ok top below -> has_flag oper NO_L_OPERAND = true ->
  reduce e top below oper = mret (RTop top below).
Proof.
  intros Hs Hf. rewrite reduce_enter by done.
  assert (prio_of (o_op top) <= 16) as Hp.
  { destruct (stack_ok_op _ _ Hs) as [->|Hp]; [done|]. apply pushable_prio in Hp. lia. }
  assert (forall o, prio_of o = 16 -> o <> CPP_CLOSE_PAREN ->
    reduce_loop e o (prio_of o - b2z (has_flag o LEFT_ASSOC)) top below = mret (RTop top below)) as H.
  { intros o Ho Hc. destruct below; simpl reduce_loop;
      destruct (Z.ltb_spec (prio_of o - b2z (has_flag o LEFT_ASSOC)) (prio_of (o_op top))) as [Hlt|_];
      destruct o; try discriminate Ho; try done;
      rewrite Ho in Hlt; unfold has_flag in Hlt; simpl in Hlt; lia. }
  destruct oper; try discriminate Hf; try (by apply H); done.
Qed.

Lemma reduce_ok e is_if want top below oper : stack_ok top below -> valid_oper oper = true ->
  (want = false -> o_value top <> None) -> operand_error is_if want oper (o_op top) = None ->
  settles (reduce e top below oper) (reduce_good oper top below).
Proof.
  intros Hs Hvalid Hw Herr. destruct (has_flag oper NO_L_OPERAND) eqn:Hf.
  { rewrite reduce_prefix by done. apply settles_ret. simpl. repeat split; try done; [congruence|].
    intros ->. discriminate. }
  rewrite reduce_enter by done. unfold operand_error in Herr. rewrite Hf in Herr.
  destruct want.
  - destruct (ttype_eqb_spec oper CPP_CLOSE_PAREN) as [->|Hc].
    { destruct (ttype_eqb_spec (o_op top) CPP_OPEN_PAREN) as [|Ho]; [done|].
      destruct (ttype_eqb_spec (o_op top) CPP_EOF) as [Et|Et]; [|discriminate].
      destruct below; simpl reduce_loop; rewrite Et; apply settles_error; done. }
    destruct (ttype_eqb_spec oper CPP_EOF) as [->|He]; cbn [andb orb] in Herr; cycle 1.
    { destruct (negb _ && negb _); discriminate. }
    destruct (ttype_eqb_spec (o_op top) CPP_EOF) as [Et|Et]; [discriminate|].
    destruct (ttype_eqb_spec (o_op top) CPP_OPEN_PAREN) as [Ho|Ho]; [|discriminate].
    destruct below as [|prev below]; [simpl in Hs; congruence|].
    simpl reduce_loop. rewrite Ho. simpl. rewrite andb_false_r. simpl.
    destruct (o_value prev), (o_value top); simpl;
      (apply settles_step; [first [by apply settles_ret | apply settles_lift; politely]|intros _]);
      by apply settles_error.
  - assert (0 <= prio_of oper - b2z (has_flag oper LEFT_ASSOC)) as Hprio.
    { destruct oper; try discriminate Hvalid; vm_compute; done. }
    assert (reduce_loop e oper (prio_of oper - b2z (has_flag oper LEFT_ASSOC)) top below =
      match oper with
      | CPP_OPEN_PAREN => mret (RTop top below)
      | _ => reduce_loop e oper (prio_of oper - b2z (has_flag oper LEFT_ASSOC)) top below
      end) as <- by (destruct oper; done || discriminate Hf).
    eapply settles_weaken; [|by apply (reduce_loop_ok e oper _ (length below)); auto].
    intros [| | |t b]; simpl; try done. intros [(H1 & H2 & H3) H4]. repeat split; try done.
    + congruence.
    + congruence.
    + intros ->. apply (eof_bottom t b H1). destruct H3 as [H3|[_ [H3|H3]]]; done.
Qed.

(** ** The parser never goes wrong *)

(** The part of the state an #if evaluation leaves to the conditionals. *)
Definition kept (r r' : reader) : Prop :=
  r_skipping r' = r_skipping r /\ r_if_stack r' = r_if_stack r /\
  r_mi_cmacro r' = r_mi_cmacro r /\ r_mi_valid r' = r_mi_valid r /\
  r_op_limit r <= r_op_limit r'.

Lemma kept_trans r1 r2 r3 : kept r1 r2 -> kept r2 r3 -> kept r1 r3.
Proof. unfold kept. intros (?&?&?&?&?) (?&?&?&?&?). repeat split; try congruence; lia. Qed.

Lemma kept_refl r : kept r r.
Proof. repeat split; lia. Qed.

Lemma calm_kept r r' : calm r r' -> kept r r'.
Proof. intros [? Hl ??? []]. repeat split; try done. by rewrite Hl. Qed.

Lemma steady_kept r r' : steady r r' -> kept r r'.
Proof. intros [? Hl ?? []]. repeat split; try done. by rewrite Hl. Qed.

Definition fine (m : R presult) (r : reader) : Prop :=
  Forall not_ice (diags m r) /\ kept r (run m r) /\ out m r <> PStuck /\ out m r <> PFuel.

Lemma fine_bind {A} (m : R A) (f : A -> R presult) r :
  Forall not_ice (diags m r) -> kept r (run m r) -> fine (f (out m r)) (run m r) ->
  fine (bindR m f) r.
Proof.
  intros H1 H2 (H3 & H4 & H5 & H6). unfold fine. rewrite diags_bind, run_bind, out_bind.
  split; [by apply Forall_app|]. split; [by eapply kept_trans|done].
Qed.

Lemma fine_ret x r : x <> PStuck -> x <> PFuel -> fine (mret x) r.
Proof. intros. split; [constructor|]. split; [apply kept_refl|done]. Qed.

Lemma fine_error msg r : fine (syntax_error_at msg) r.
Proof. split; [by repeat constructor|]. split; [apply kept_refl|done]. Qed.

Lemma get_token_spec r :
  diags cpp_get_token r = [] /\ calm r (run cpp_get_token r) /\
  (t_type (out cpp_get_token r) <> CPP_EOF ->
   S (body (r_stream (run cpp_get_token r))) = body (r_stream r)).
Proof.
  split; [unfold diags, cpp_get_token; by destruct (r_stream r)|].
  split; [apply polite_get|]. unfold out, run, cpp_get_token.
  destruct (r_stream r) as [|t st]; simpl; [done|]. intros Ht.
  by rewrite (proj2 (type_is_false t CPP_EOF)).
Qed.

Lemma push_room_spec below r :
  Z.of_nat (length below) <= r_op_limit r -> 0 <= r_op_limit r ->
  diags (push_room below) r = [] /\ out (push_room below) r = true /\
  kept r (run (push_room below) r) /\ r_stream (run (push_room below) r) = r_stream r /\
  Z.of_nat (length below) < r_op_limit (run (push_room below) r).
Proof.
  intros H1 H2. unfold push_room, diags, out, run, bindR, gets, modify, _cpp_expand_op_stack. simpl.
  destruct (Z.eqb_spec (Z.of_nat (length below)) (r_op_limit r)); simpl;
    repeat split; try done; try (apply Z.ltb_lt; lia); unfold set_op_limit; simpl; lia.
Qed.

Lemma before_push_spec oper top below r :
  stack_ok top below -> (has_flag oper NO_L_OPERAND = false -> o_value top <> None) ->
  let m := before_push oper top below in
  Forall not_ice (diags m r) /\ steady r (run m r) /\
  match out m r with
  | None => False
  | Some (Some _) => True
  | Some None => oper = CPP_COLON -> o_op top = CPP_QUERY
  end.
Proof.
  intros Hs Hv. cbv zeta.
  assert (steady r r) by done.
  assert (forall b d (x : option (option string)), let m := (whenR b (bump_skip d) ;;r mret x) in
    Forall not_ice (diags m r) /\ steady r (run m r) /\ out m r = x) as Hbump.
  { intros b d x. cbv zeta. destruct b; (split; [by constructor|]); split; by try constructor. }
  destruct oper; unfold before_push;
    try (split; [constructor|]; split; [done|]; simpl; congruence).
  - destruct (o_value top) as [v|]; [|by destruct Hv].
    destruct (Hbump (num_zerop v) 1 (Some None)) as (? & ? & ->). done.
  - destruct (o_value top) as [v|]; [|by destruct Hv].
    destruct (Hbump (negb (num_zerop v)) 1 (Some None)) as (? & ? & ->). done.
  - destruct (o_value top) as [v|]; [|by destruct Hv].
    destruct (Hbump (num_zerop v) 1 (Some None)) as (? & ? & ->). done.
  - destruct (ttype_eqb_spec (o_op top) CPP_QUERY) as [E|E]; simpl negb; cbv iota; [|by repeat split].
    destruct below as [|prev below]; [simpl in Hs; congruence|].
    destruct Hs as (_ & Hp & _). rewrite E in Hp. destruct (o_value prev) as [c|]; [|by destruct Hp].
    destruct (Hbump true (if negb (num_zerop c) then 1 else -1) (Some None)) as (? & ? & Ho).
    simpl whenR in *. by rewrite Ho.
Qed.

Lemma parse_end_fine is_if sn lc top r : o_value top <> None -> fine (parse_end is_if sn lc top []) r.
Proof.
  intros Hv. unfold parse_end. apply fine_bind; [constructor|done|].
  apply fine_bind; [by destruct (_ && _); constructor|by destruct (_ && _)|].
  destruct (o_value top); [by apply fine_ret|done].
Qed.

Lemma match_push {A} (oper : cpp_ttype) (a b c : A) : oper <> CPP_EOF -> oper <> CPP_CLOSE_PAREN ->
  match oper with CPP_EOF => a | CPP_CLOSE_PAREN => b | _ => c end = c.
Proof. by destruct oper. Qed.

(** An operator on the stack: the new top waits for its right operand. *)
Lemma stack_ok_push oper top below : stack_ok top below -> valid_oper oper = true ->
  oper <> CPP_EOF -> oper <> CPP_CLOSE_PAREN ->
  (has_flag oper NO_L_OPERAND = false -> o_value top <> None) ->
  (oper = CPP_COLON -> o_op top = CPP_QUERY) -> stack_ok (mk_op oper None) (top :: below).
Proof.
  intros Hs Hv H1 H2 H3 H4. split; [|done]. unfold valid_oper in Hv. simpl.
  destruct (ttype_eqb_spec oper CPP_EOF), (ttype_eqb_spec oper CPP_CLOSE_PAREN); try done.
  by rewrite !orb_false_r in Hv.
Qed.

Lemma parse_loop_fine e is_if fuel : (forall t, quietW (e_charconst e t)) ->
  forall lc sn want top below r, (body (r_stream r) < fuel)%nat ->
  stack_ok top below -> (want = false -> o_value top <> None) ->
  Z.of_nat (length below) < r_op_limit r ->
  fine (parse_loop e is_if fuel lc sn want top below) r.
Proof.
  intros Hcc. induction fuel as [|fuel IH]; intros lc sn want top below r Hb Hs Hw Hl; [lia|].
  cbn [parse_loop]. destruct (get_token_spec r) as (Hd & Hc & Hlen).
  apply fine_bind; [rewrite Hd; constructor|by apply calm_kept|].
  set (t := out cpp_get_token r) in *. set (r1 := run cpp_get_token r) in *.
  destruct (value_token (t_type t)) eqn:Ev.
  { destruct want; [|apply fine_error]. simpl.
    destruct (polite_eval_token e Hcc t r1) as [Hd1 Hc1].
    apply fine_bind; [done|by apply calm_kept|].
    assert (t_type t <> CPP_EOF) by (intros E; rewrite E in Ev; discriminate).
    apply IH; [|by apply stack_ok_value|done|].
    - destruct Hc1. rewrite <- Hlen in Hb by done. lia.
    - destruct Hc1, Hc. congruence. }
  destruct (invalid_token (t_type t)) eqn:Ei; [apply fine_error|].
  destruct (operand_error _ _ _ _) as [msg|] eqn:Eo; [apply fine_error|].
  pose proof (operator_valid want _ Ev Ei) as Hvalid.
  set (oper := operator_of want (t_type t)) in *.
  destruct (reduce_ok e is_if want top below oper Hs Hvalid Hw Eo r1) as (Hd2 & Hc2 & Hg).
  apply fine_bind; [done|by apply steady_kept|].
  set (res := out (reduce e top below oper) r1) in *. set (r2 := run _ r1) in *.
  destruct res as [| | |top' below'] eqn:Er; [done|by apply fine_ret|by apply fine_ret|].
  destruct Hg as (Hs' & Hlen' & Hpre & Hval & Heof).
  destruct (ttype_eqb_spec oper CPP_EOF) as [Ee|Ee].
  { rewrite Ee in *. rewrite (Heof eq_refl) in *. apply parse_end_fine. by apply Hval. }
  assert (t_type t <> CPP_EOF) by (by rewrite <- (operator_eof want)).
  assert (body (r_stream r2) < fuel)%nat.
  { destruct Hc2 as [-> _ _ _ _]. specialize (Hlen ltac:(done)). lia. }
  assert (Z.of_nat (length below') < r_op_limit r2).
  { destruct Hc2 as [_ -> _ _ _]. destruct Hc as [_ -> _ _ _ _]. lia. }
  destruct (ttype_eqb_spec oper CPP_CLOSE_PAREN) as [Ec|Ec].
  { rewrite Ec in *. apply IH; try done. intros _. by apply Hval. }
  rewrite match_push by done.
  destruct (before_push_spec oper top' below' r2 Hs' Hval) as (Hd3 & Hc3 & Hp).
  apply fine_bind; [done|by apply steady_kept|].
  destruct (out _ r2) as [[msg|]|]; [apply fine_error| |done].
  set (r3 := run (before_push _ _ _) r2) in *.
  destruct (push_room_spec (top' :: below') r3) as (Hd4 & Ho4 & Hk4 & Hst4 & Hl4).
  { destruct Hc3 as [_ -> _ _ _]. simpl. lia. }
  { destruct Hc3 as [_ -> _ _ _]. lia. }
  apply fine_bind; [rewrite Hd4; constructor|done|]. rewrite Ho4.
  apply IH; [|by apply stack_ok_push|done|done].
  rewrite Hst4. destruct Hc3 as [-> _ _ _ _]. done.
Qed.

Lemma parse_expr_fine e is_if r : (forall t, Forall not_ice (fst (e_charconst e t))) ->
  0 < r_op_limit r -> fine (_cpp_parse_expr e is_if) r.
Proof.
  intros Hcc Hl.
  destruct (parse_loop_fine e is_if (S (length (r_stream r))) Hcc 0 false true (mk_op CPP_EOF None) []
              (set_mi_ind_cmacro None (set_skip_eval 0 r))) as (Hd & Hk & H1 & H2); try done.
  { simpl. apply le_n_S. clear. generalize (r_stream r). intros st.
    induction st as [|t st IH]; simpl; [lia|]. destruct (type_is t CPP_EOF); lia. }
  unfold fine, _cpp_parse_expr. rewrite !out_bind, !diags_bind, !run_bind.
  change (out (gets r_stream) ?x) with (r_stream x). rewrite run_gets.
  change (run (modify (set_mi_ind_cmacro None)) (run (modify (set_skip_eval 0)) r))
    with (set_mi_ind_cmacro None (set_skip_eval 0 r)).
  split; [exact Hd|]. split; [exact Hk|]. split; done.
Qed.

(** ** Results *)


