(* ===== verification/ExprSpec.v ===== *)
(** * What an #if expression means, and that the evaluator delivers it

    [expr] is the abstract syntax of the expressions of #if with the
    precedences of C, [tokens] prints one, [eval] evaluates it with the
    operations of CppNum (diagnostics included) and [aeval] evaluates it in
    [Z].  The operator precedence parser of ExprParse, run on the tokens of an
    expression, delivers what [eval] does, and [eval] refines [aeval]. *)

From Stdlib Require Import ZArith Lia Bool String Ascii.
From stdpp Require Import base tactics list numbers gmap.
From S2P Require Import Prelude Reader CppNum NumLit Stream Assert ExprParse.

Local Open Scope string_scope.
Local Open Scope list_scope.
Local Open Scope Z_scope.

(** ** Syntax *)

Inductive atom : Type :=
  | ANumber (t : cpp_token)
  | AChar (t : cpp_token)
  | AIdent (name : list byte)
  | ADefined (paren : bool) (name : list byte).

Inductive expr : Type :=
  | EAtom (a : atom)
  | EParen (x : expr)
  | EUn (oper : cpp_ttype) (x : expr)
  | EBin (oper : cpp_ttype) (l r : expr)
  | EAnd (l r : expr)
  | EOr (l r : expr)
  | ECond (c a b : expr).

Definition optok (ty : cpp_ttype) : cpp_token := mk_token ty 0 [] [] 0 false.
Definition idtok (name : list byte) : cpp_token := mk_token CPP_NAME 0 name name 0 false.

(** The token of a prefix operator. *)
Definition prefix_type (oper : cpp_ttype) : cpp_ttype :=
  match oper with CPP_UPLUS => CPP_PLUS | CPP_UMINUS => CPP_MINUS | _ => oper end.

Definition atom_head (a : atom) : cpp_token :=
  match a with
  | ANumber t | AChar t => t
  | AIdent name => idtok name
  | ADefined _ _ => idtok (bytes "defined")
  end.

Definition atom_tail (a : atom) : list cpp_token :=
  match a with
  | ADefined false name => [idtok name]
  | ADefined true name => [optok CPP_OPEN_PAREN; idtok name; optok CPP_CLOSE_PAREN]
  | _ => []
  end.

Fixpoint tokens (x : expr) : list cpp_token :=
  match x with
  | EAtom a => atom_head a :: atom_tail a
  | EParen x => optok CPP_OPEN_PAREN :: tokens x ++ [optok CPP_CLOSE_PAREN]
  | EUn oper x => optok (prefix_type oper) :: tokens x
  | EBin oper l r => tokens l ++ optok oper :: tokens r
  | EAnd l r => tokens l ++ optok CPP_AND_AND :: tokens r
  | EOr l r => tokens l ++ optok CPP_OR_OR :: tokens r
  | ECond c a b => tokens c ++ optok CPP_QUERY :: tokens a ++ optok CPP_COLON :: tokens b
  end.

(** The priority of the outermost operator, and the precedence rules of C:
    binary operators associate to the left, ?: to the right. *)
Definition level (x : expr) : Z :=
  match x with
  | EAtom _ | EParen _ => 17
  | EUn _ _ => 16
  | EBin oper _ _ => prio_of oper
  | EAnd _ _ => 6
  | EOr _ _ => 5
  | ECond _ _ _ => 4
  end.

Definition is_comma (x : expr) : bool :=
  match x with EBin CPP_COMMA _ _ => true | _ => false end.

Definition atom_ok (o : cpp_options) (a : atom) : bool :=
  match a with
  | ANumber t => type_is t CPP_NUMBER
  | AChar t => match t_type t with
               | CPP_CHAR | CPP_WCHAR | CPP_CHAR16 | CPP_CHAR32 | CPP_UTF8CHAR => true
               | _ => false
               end
  | AIdent name =>
      negb (bytes_eqb name (bytes "defined")) && negb (bytes_eqb name (bytes "__has_include__"))
      && negb (bytes_eqb name (bytes "__has_include_next__"))
      && negb (cplusplus o && (bytes_eqb name (bytes "true") || bytes_eqb name (bytes "false")))
  | ADefined _ _ => true
  end.

Fixpoint expr_ok (o : cpp_options) (x : expr) : bool :=
  match x with
  | EAtom a => atom_ok o a
  | EParen x => expr_ok o x
  | EUn oper x => unary oper && (16 <=? level x) && expr_ok o x
  | EBin oper l r =>
      arithmetic oper && (prio_of oper <=? level l)
      && (if ttype_eqb oper CPP_COMMA then negb (is_comma r) else prio_of oper <? level r)
      && expr_ok o l && expr_ok o r
  | EAnd l r => (6 <=? level l) && (6 <? level r) && expr_ok o l && expr_ok o r
  | EOr l r => (5 <=? level l) && (5 <? level r) && expr_ok o l && expr_ok o r
  | ECond c a b =>
      (4 <? level c) && negb (is_comma b) && expr_ok o c && expr_ok o a && expr_ok o b
  end.

(** ** Evaluation *)

(** [dm name]: the identifier is a macro (and not a conditional one). *)
Definition atom_value (e : env) (dm : list byte -> bool) (sk : Z) (a : atom) : W cpp_num :=
  match a with
  | ANumber t => eval_number e t
  | AChar t => eval_charconst e t
  | AIdent _ =>
      when (warn_undef (e_opts e) && (sk =? 0))
        (cpp_warning CPP_W_UNDEF "'%s' is not defined, evaluates to 0") ;;w
      mret (int_value 0)
  | ADefined _ name => mret (int_value (b2z (dm name)))
  end.

Definition obind {A B} (m : option (W A)) (f : A -> option (W B)) : option (W B) :=
  match m with
  | Some (d, x) => match f x with Some (d', y) => Some (d ++ d', y) | None => None end
  | None => None
  end.

Definition owarn (m : W unit) (x : cpp_num) : option (W cpp_num) := Some (fst m, x).

Definition overflow_warning (sk : Z) (v : cpp_num) : W unit :=
  when (overflow v && (sk =? 0))
    (cpp_error CPP_DL_PEDWARN "integer overflow in preprocessor expression").

Definition promotion (e : env) (oper : cpp_ttype) (l r : cpp_num) : W unit :=
  when (warn_num_sign_change (e_opts e) && has_flag oper CHECK_PROMOTION)
    (check_promotion (e_opts e) l r).

(** [sk] counts the enclosing operands that are not evaluated: nothing is
    diagnosed of an operator unless it is 0. *)
Fixpoint eval (e : env) (dm : list byte -> bool) (sk : Z) (x : expr) : option (W cpp_num) :=
  match x with
  | EAtom a => Some (atom_value e dm sk a)
  | EParen x => eval e dm sk x
  | EUn oper x =>
      obind (eval e dm sk x) (fun v =>
      obind (Some (num_unary_op (e_opts e) sk v oper)) (fun v' =>
      owarn (overflow_warning sk v') v'))
  | EBin oper l r =>
      obind (eval e dm sk l) (fun vl =>
      obind (eval e dm sk r) (fun vr =>
      obind (owarn (promotion e oper vl vr) vr) (fun _ =>
      obind (binary_value (e_opts e) sk oper vl vr) (fun v' =>
      owarn (overflow_warning sk v') v'))))
  | EAnd l r =>
      obind (eval e dm sk l) (fun vl =>
      obind (eval e dm (if num_zerop vl then u32 (sk + 1) else sk) r) (fun vr =>
      Some (mret (int_value (b2z (negb (num_zerop vl) && negb (num_zerop vr)))))))
  | EOr l r =>
      obind (eval e dm sk l) (fun vl =>
      obind (eval e dm (if num_zerop vl then sk else u32 (sk + 1)) r) (fun vr =>
      Some (mret (int_value (b2z (negb (num_zerop vl) || negb (num_zerop vr)))))))
  | ECond c a b =>
      obind (eval e dm sk c) (fun vc =>
      obind (eval e dm (if num_zerop vc then u32 (sk + 1) else sk) a) (fun va =>
      obind (eval e dm (if num_zerop vc then sk else u32 (sk + 1)) b) (fun vb =>
      owarn (promotion e CPP_COLON va vb)
        (set_unsignedp (unsignedp va || unsignedp vb) (if num_zerop vc then vb else va)))))
  end.

(** ** The simulation *)

Definition prepend {A} (d : list diag) (x : list diag * A) : list diag * A := (d ++ fst x, snd x).

Lemma prepend_nil {A} (x : list diag * A) : prepend [] x = x.
Proof. by destruct x. Qed.

Lemma prepend_app {A} d d' (x : list diag * A) : prepend d (prepend d' x) = prepend (d ++ d') x.
Proof. unfold prepend. simpl. by rewrite app_assoc. Qed.

Lemma bindR_prepend {A B} (m : R A) (f : A -> R B) r d x r1 : m r = (d, (x, r1)) ->
  bindR m f r = prepend d (f x r1).
Proof. unfold bindR, prepend. intros ->. by destruct (f x r1). Qed.

Lemma bindR_pre {A B} (m m' : R A) (f : A -> R B) r r' d : m r = prepend d (m' r') ->
  bindR m f r = prepend d (bindR m' f r').
Proof.
  unfold bindR, prepend. destruct (m' r') as [d' [x r1]]. simpl. intros ->.
  destruct (f x r1) as [d2 y]. simpl. by rewrite app_assoc.
Qed.

(** The reader agrees with [dm] on the identifiers that are macros. *)
Definition macro_defined (name : list byte) (r : reader) : bool :=
  let n := cpp_lookup name r in cpp_macro_p n && negb (flag (n_flags n) NODE_CONDITIONAL).
Definition agree (dm : list byte -> bool) (r : reader) : Prop :=
  forall name, macro_defined name r = dm name.

(** The entries (top', below') hold a value under way: any operator of lower
    priority reduces them to (top, below), emitting [d] and changing the count
    of unevaluated operands from [sk'] to [sk]. *)
Definition pending (e : env) (lvl : Z) (top' : op) (below' : list op) (sk' : Z) (d : list diag)
    (top : op) (below : list op) (sk : Z) : Prop :=
  forall oper p r, 0 <= p < lvl -> r_skip_eval r = sk' ->
  reduce_loop e oper p top' below' r
  = prepend d (reduce_loop e oper p top below (set_skip_eval sk r)).

Lemma set_skip_eval_same sk r : r_skip_eval r = sk -> set_skip_eval sk r = r.
Proof. intros <-. by destruct r. Qed.

Lemma pending_done e lvl top below sk : pending e lvl top below sk [] top below sk.
Proof. intros oper p r _ H. by rewrite prepend_nil, set_skip_eval_same. Qed.

Lemma pending_trans e lvl lvl' top1 below1 sk1 d1 top2 below2 sk2 d2 top3 below3 sk3 : lvl' <= lvl ->
  pending e lvl top1 below1 sk1 d1 top2 below2 sk2 ->
  pending e lvl' top2 below2 sk2 d2 top3 below3 sk3 ->
  pending e lvl' top1 below1 sk1 (d1 ++ d2) top3 below3 sk3.
Proof.
  intros Hl H1 H2 oper p r Hp Hr. rewrite H1, H2 by (done || lia). by rewrite prepend_app.
Qed.

Lemma overflow_check_run v sk r : r_skip_eval r = sk ->
  overflow_check v r = (fst (overflow_warning sk v), (tt, r)).
Proof.
  intros <-. unfold overflow_check, overflow_warning, bindR, gets. simpl.
  destruct (_ && _); done.
Qed.

(** Reductions of one operator. *)
Lemma pending_unary e oper v v' d top below sk : unary oper = true ->
  num_unary_op (e_opts e) sk v oper = (d, v') ->
  pending e 16 (mk_op oper (Some v)) (top :: below) sk (d ++ fst (overflow_warning sk v'))
    (set_value v' top) below sk.
Proof.
  intros Hu Hv p q r Hq Hsk. rewrite (set_skip_eval_same sk r) by done.
  cbn [reduce_loop o_op o_value].
  assert (prio_of oper = 16) as Hp by (by destruct oper).
  destruct (Z.ltb_spec q (prio_of oper)); [|lia].
  assert (has_flag oper CHECK_PROMOTION = false) as -> by (by destruct oper).
  rewrite andb_false_r, andb_false_l, Hu. cbv iota.
  rewrite (bindR_prepend _ _ r [] tt r) by (by destruct (o_value top)).
  rewrite prepend_nil. rewrite (bindR_prepend _ _ r [] sk r) by (by rewrite <- Hsk). rewrite prepend_nil.
  rewrite (bindR_prepend _ _ r d v' r) by (unfold liftW; by rewrite Hv).
  rewrite (bindR_prepend _ _ r (fst (overflow_warning sk v')) tt r) by (by apply overflow_check_run).
  by rewrite prepend_app.
Qed.

Lemma pending_binary e oper l v v' d top below sk : arithmetic oper = true ->
  binary_value (e_opts e) sk oper l v = Some (d, v') ->
  pending e (prio_of oper) (mk_op oper (Some v)) (set_value l top :: below) sk
    (fst (promotion e oper l v) ++ d ++ fst (overflow_warning sk v'))
    (set_value v' top) below sk.
Proof.
  intros Ha Hv p q r Hq Hsk. rewrite (set_skip_eval_same sk r) by done.
  cbn [reduce_loop o_op o_value set_value].
  destruct (Z.ltb_spec q (prio_of oper)); [|lia]. rewrite andb_false_r. cbv iota.
  assert (unary oper = false) as -> by (by destruct oper). rewrite Ha. cbv iota.
  rewrite (bindR_prepend _ _ r (fst (promotion e oper l v)) tt r)
    by (unfold promotion, liftW; by destruct (when _ _) as [? []]).
  rewrite (bindR_prepend _ _ r [] sk r) by (by rewrite <- Hsk). rewrite prepend_nil, Hv.
  rewrite (bindR_prepend _ _ r d v' r) by done.
  rewrite (bindR_prepend _ _ r (fst (overflow_warning sk v')) tt r) by (by apply overflow_check_run).
  by rewrite !prepend_app, ?app_assoc.
Qed.

Lemma bump_run b d r : whenR b (bump_skip d) r
  = ([], (tt, set_skip_eval (if b then u32 (r_skip_eval r + d) else r_skip_eval r) r)).
Proof. destruct b; [done|]. simpl. by destruct r. Qed.

Lemma u32_back sk : 0 <= sk < 2 ^ 32 -> u32 (u32 (sk + 1) + -1) = sk.
Proof.
  intros H. unfold u32, wrapu. rewrite Zplus_mod_idemp_l. rewrite Z.mod_small; lia.
Qed.

Lemma set_skip_eval_twice a b r : set_skip_eval a (set_skip_eval b r) = set_skip_eval a r.
Proof. done. Qed.

Section logical.
Context (e : env) (l v : cpp_num) (top : op) (below : list op) (sk : Z).
Context (Hb : 0 <= sk < 2 ^ 32).

Lemma pending_and :
  pending e 6 (mk_op CPP_AND_AND (Some v)) (set_value l top :: below)
    (if num_zerop l then u32 (sk + 1) else sk) []
    (set_value (int_value (b2z (negb (num_zerop l) && negb (num_zerop v)))) top) below sk.
Proof using Hb.
  intros p q r Hq Hsk. rewrite prepend_nil. cbn [reduce_loop o_op o_value set_value].
  destruct (Z.ltb_spec q (prio_of CPP_AND_AND)) as [_|Hc]; [|unfold prio_of in Hc; simpl in Hc; lia].
  rewrite andb_false_r. cbv iota. cbn [unary arithmetic].
  rewrite (bindR_prepend _ _ r [] tt r) by (unfold has_flag; simpl; by rewrite andb_false_r).
  rewrite prepend_nil. rewrite (bindR_prepend _ _ r _ _ _ (bump_run _ _ _)), prepend_nil, Hsk.
  destruct (num_zerop l); [by rewrite u32_back|done].
Qed.

Lemma pending_or :
  pending e 5 (mk_op CPP_OR_OR (Some v)) (set_value l top :: below)
    (if num_zerop l then sk else u32 (sk + 1)) []
    (set_value (int_value (b2z (negb (num_zerop l) || negb (num_zerop v)))) top) below sk.
Proof using Hb.
  intros p q r Hq Hsk. rewrite prepend_nil. cbn [reduce_loop o_op o_value set_value].
  destruct (Z.ltb_spec q (prio_of CPP_OR_OR)) as [_|Hc]; [|unfold prio_of in Hc; simpl in Hc; lia].
  rewrite andb_false_r. cbv iota. cbn [unary arithmetic].
  rewrite (bindR_prepend _ _ r [] tt r) by (unfold has_flag; simpl; by rewrite andb_false_r).
  rewrite prepend_nil. rewrite (bindR_prepend _ _ r _ _ _ (bump_run _ _ _)), prepend_nil, Hsk.
  destruct (num_zerop l); simpl negb; cbv iota; [done|by rewrite u32_back].
Qed.

Lemma pending_colon a :
  pending e 4 (mk_op CPP_COLON (Some v)) (mk_op CPP_QUERY (Some a) :: set_value l top :: below)
    (if num_zerop l then sk else u32 (sk + 1))
    (fst (promotion e CPP_COLON a v))
    (set_value (set_unsignedp (unsignedp a || unsignedp v) (if num_zerop l then v else a)) top)
    below sk.
Proof using Hb.
  intros p q r Hq Hsk. cbn [reduce_loop o_op o_value set_value].
  destruct (Z.ltb_spec q (prio_of CPP_COLON)) as [_|Hc]; [|unfold prio_of in Hc; simpl in Hc; lia].
  rewrite andb_false_r. cbv iota. cbn [unary arithmetic].
  rewrite (bindR_prepend _ _ r (fst (promotion e CPP_COLON a v)) tt r)
    by (unfold promotion, liftW; by destruct (when _ _) as [? []]).
  rewrite (bindR_prepend _ _ r _ _ _ (bump_run _ _ _)), prepend_nil, Hsk.
  destruct (num_zerop l); simpl negb; cbv iota zeta; [done|by rewrite u32_back].
Qed.
End logical.

(** ** Steps of the parser *)

Lemma agree_nodes dm r r' : r_nodes r' = r_nodes r -> agree dm r -> agree dm r'.
Proof. unfold agree, macro_defined, cpp_lookup. intros ->. done. Qed.

(** The reader at a point of the expression: the tokens left, the count of
    unevaluated operands, the macros, and room on the operator stack. *)
Record at_point (dm : list byte -> bool) (sk : Z) (st : list cpp_token) (below : list op)
    (r : reader) : Prop := {
  ap_stream : r_stream r = st;
  ap_skip : r_skip_eval r = sk;
  ap_agree : agree dm r;
  ap_room : Z.of_nat (length below) < r_op_limit r
}.

Lemma get_token_run r t st : r_stream r = t :: st -> t_type t <> CPP_EOF ->
  cpp_get_token r = ([], (t, set_tokens st (t :: r_lexed r) r)).
Proof.
  intros E Ht. unfold cpp_get_token. rewrite E. by rewrite (proj2 (type_is_false t CPP_EOF)).
Qed.

Lemma push_room_run below r : Z.of_nat (length below) <= r_op_limit r -> 0 < r_op_limit r ->
  exists lim, push_room below r = ([], (true, set_op_limit lim r)) /\ Z.of_nat (length below) < lim.
Proof.
  intros H1 H2. unfold push_room, bindR, gets, modify, _cpp_expand_op_stack. simpl.
  destruct (Z.eqb_spec (Z.of_nat (length below)) (r_op_limit r)) as [E|E].
  - eexists. split; [|]; [f_equal; f_equal; f_equal|]; [apply Z.ltb_lt; lia|lia].
  - exists (r_op_limit r). split; [f_equal; f_equal; f_equal|]; [apply Z.ltb_lt; lia|lia].
Qed.

Definition prefix_token (oper : cpp_ttype) : bool :=
  unary oper || ttype_eqb oper CPP_OPEN_PAREN.

Lemma prefix_token_facts oper : prefix_token oper = true ->
  let ty := prefix_type oper in
  value_token ty = false /\ invalid_token ty = false /\ operator_of true ty = oper /\
  ty <> CPP_EOF /\ oper <> CPP_EOF /\ oper <> CPP_CLOSE_PAREN /\ has_flag oper NO_L_OPERAND = true /\
  valid_oper oper = true /\ oper <> CPP_COLON /\
  forall top below r, before_push oper top below r = ([], (Some None, r)).
Proof. destruct oper; try discriminate; intros _; repeat split; done. Qed.

(** A prefix operator is pushed. *)
Lemma step_prefix e is_if fuel lc sn oper top below r dm sk st : prefix_token oper = true ->
  stack_ok top below -> at_point dm sk (optok (prefix_type oper) :: st) below r ->
  exists lc' sn' r1,
    parse_loop e is_if (S fuel) lc sn true top below r
    = parse_loop e is_if fuel lc' sn' true (mk_op oper None) (top :: below) r1 /\
    at_point dm sk st (top :: below) r1.
Proof.
  intros Hpre Hs [Hst Hsk Hag Hroom].
  destruct (prefix_token_facts oper Hpre) as (H1 & H2 & H3 & H4 & H5 & H6 & H7 & H8 & H9 & H10).
  cbn [parse_loop]. rewrite (bindR_prepend _ _ _ _ _ _ (get_token_run r _ st Hst H4)), prepend_nil.
  cbn [t_type optok]. rewrite H1, H2, H3. unfold operand_error at 1. rewrite H7. cbn [negb].
  set (r1 := set_tokens _ _ r).
  rewrite (reduce_prefix e top below oper Hs H7).
  rewrite (bindR_prepend _ _ r1 [] (RTop top below) r1) by done. rewrite prepend_nil.
  rewrite match_push by done.
  rewrite (bindR_prepend _ _ r1 [] (Some None) r1) by apply H10. rewrite prepend_nil.
  destruct (push_room_run (top :: below) r1) as (lim & Ep & Hlim);
    [simpl; lia|unfold r1; simpl; lia|].
  rewrite (bindR_prepend _ _ _ _ _ _ Ep), prepend_nil. eexists _, _, _. split; [reflexivity|].
  split; done.
Qed.

Definition infix_token (oper : cpp_ttype) : bool :=
  arithmetic oper || match oper with CPP_AND_AND | CPP_OR_OR | CPP_QUERY | CPP_COLON => true | _ => false end.

(** The priority an operator reduces with. *)
Definition eprio (oper : cpp_ttype) : Z := prio_of oper - b2z (has_flag oper LEFT_ASSOC).

Lemma infix_token_facts oper : infix_token oper = true ->
  value_token oper = false /\ invalid_token oper = false /\ operator_of false oper = oper /\
  oper <> CPP_EOF /\ oper <> CPP_CLOSE_PAREN /\ oper <> CPP_OPEN_PAREN /\
  has_flag oper NO_L_OPERAND = false /\ 0 <= eprio oper.
Proof.
  destruct oper; try discriminate; intros _; unfold eprio, prio_of; simpl; repeat split; lia || done.
Qed.

(** An entry an operator does not reduce. *)
Definition stops (oper top : cpp_ttype) : Prop :=
  prio_of top <= eprio oper \/ top = CPP_QUERY /\ (oper = CPP_COMMA \/ oper = CPP_COLON).

Lemma reduce_stops e oper top below r : infix_token oper = true -> stack_ok top below ->
  stops oper (o_op top) ->
  reduce_loop e oper (eprio oper) top below r = ([], (RTop top below, r)).
Proof.
  intros Hi Hs Hst. destruct below as [|prev below]; cbn [reduce_loop];
    destruct (Z.ltb_spec (eprio oper) (prio_of (o_op top))) as [Hp|Hp];
    try (by destruct oper).
  - simpl in Hs. destruct Hst as [?|[E _]]; [lia|congruence].
  - destruct Hst as [?|[E Hc]]; [lia|]. rewrite E. unfold has_flag. simpl.
    rewrite andb_false_r. simpl.
    rewrite (bindR_prepend _ _ r [] tt r) by (destruct (o_value prev), (o_value top); done).
    rewrite prepend_nil. by destruct Hc as [-> | ->].
Qed.

(** An infix operator reduces the value under way and is pushed. *)
Lemma step_infix e is_if fuel lc sn oper lvl top1 below1 sk1 r1 d top v below dm sk sk' st :
  infix_token oper = true -> stack_ok top1 below1 -> stack_ok top below ->
  pending e lvl top1 below1 sk1 d (set_value v top) below sk ->
  eprio oper < lvl -> stops oper (o_op top) ->
  (forall r, r_skip_eval r = sk ->
     before_push oper (set_value v top) below r = ([], (Some None, set_skip_eval sk' r))) ->
  at_point dm sk1 (optok oper :: st) below r1 ->
  exists lc' sn' r2,
    parse_loop e is_if (S fuel) lc sn false top1 below1 r1
    = prepend d (parse_loop e is_if fuel lc' sn' true (mk_op oper None) (set_value v top :: below) r2) /\
    at_point dm sk' st (set_value v top :: below) r2.
Proof.
  intros Hi Hs1 Hs Hpend Hlt Hstop Hbp [Hst Hsk Hag Hroom].
  destruct (infix_token_facts oper Hi) as (H1 & H2 & H3 & H4 & H5 & H6 & H7 & H8).
  cbn [parse_loop]. rewrite (bindR_prepend _ _ _ _ _ _ (get_token_run r1 _ st Hst H4)), prepend_nil.
  cbn [t_type optok]. rewrite H1, H2, H3. unfold operand_error at 1. rewrite H7.
  set (r2 := set_tokens _ _ r1).
  assert (reduce e top1 below1 oper r2 = (d, (RTop (set_value v top) below, set_skip_eval sk r2))) as Er.
  { rewrite reduce_enter by done. fold (eprio oper).
    transitivity (reduce_loop e oper (eprio oper) top1 below1 r2); [by destruct oper|].
    rewrite Hpend by (done || lia). rewrite reduce_stops by (done || by apply stack_ok_value).
    unfold prepend. simpl. by rewrite app_nil_r. }
  rewrite (bindR_prepend _ _ _ _ _ _ Er). rewrite match_push by done.
  rewrite (bindR_prepend _ _ _ _ _ _ (Hbp (set_skip_eval sk r2) eq_refl)), prepend_nil.
  set (r3 := set_skip_eval sk' _).
  destruct (push_room_run (set_value v top :: below) r3) as (lim & Ep & Hlim);
    [simpl; lia|unfold r3; simpl; lia|].
  rewrite (bindR_prepend _ _ _ _ _ _ Ep), prepend_nil. eexists _, _, _. split; [reflexivity|].
  split; done.
Qed.

(** ** Atoms *)

Lemma flag_mark_used f : flag (Z.lor f NODE_USED) NODE_CONDITIONAL = flag f NODE_CONDITIONAL.
Proof.
  unfold flag. rewrite Z.land_lor_distr_l. change (Z.land NODE_USED NODE_CONDITIONAL) with 0.
  by rewrite Z.lor_0_r.
Qed.

Lemma agree_mark_used dm name r : agree dm r ->
  agree dm (set_nodes (<[name := mark_used (cpp_lookup name r)]> (r_nodes r)) r).
Proof.
  intros H name'. rewrite <- H. unfold macro_defined, cpp_lookup. simpl.
  destruct (decide (name = name')) as [<-|Hne].
  - rewrite lookup_insert_eq. simpl. rewrite flag_mark_used. done.
  - by rewrite lookup_insert_ne.
Qed.

Lemma macro_defined_nodes name r r' : r_nodes r' = r_nodes r -> macro_defined name r' = macro_defined name r.
Proof. unfold macro_defined, cpp_lookup. by intros ->. Qed.

Lemma eval_defined e dm sk paren name rest below r :
  at_point dm sk (atom_tail (ADefined paren name) ++ rest) below r ->
  exists r', parse_defined e (idtok (bytes "defined")) r = ([], (int_value (b2z (dm name)), r')) /\
    at_point dm sk rest below r'.
Proof.
  intros [Hst Hsk Hag Hroom].
  set (n1 := <[name := mark_used (cpp_lookup name r)]> (r_nodes r)).
  assert (exists lx, parse_defined e (idtok (bytes "defined")) r =
    ([], (int_value (b2z (macro_defined name (set_nodes n1 r))),
          set_prevent_expansion (r_prevent_expansion r + 1 - 1)
            (set_mi_ind_cmacro (Some name) (set_nodes n1 (set_tokens rest lx r)))))) as [lx E].
  { unfold parse_defined, bindR, modify, gets, cpp_get_token, liftW, whenR.
    destruct paren; simpl in Hst |- *; rewrite Hst; eexists; reflexivity. }
  eexists. split.
  - pose proof (agree_mark_used dm name r Hag name) as Hn. fold n1 in Hn. rewrite E, Hn. reflexivity.
  - constructor; simpl; try done. apply (agree_nodes dm (set_nodes n1 r)); [done|].
    by apply agree_mark_used.
Qed.

Lemma eval_atom e dm sk a rest below r : atom_ok (e_opts e) a = true ->
  at_point dm sk (atom_tail a ++ rest) below r ->
  exists r', eval_token e (atom_head a) r
             = (fst (atom_value e dm sk a), (snd (atom_value e dm sk a), r')) /\
    at_point dm sk rest below r'.
Proof.
  intros Ha Hp. destruct a as [t|t|name|paren name]; cbn [atom_ok] in Ha.
  - apply type_is_true in Ha. exists r. split; [|done]. unfold eval_token. simpl. by rewrite Ha.
  - exists r. split; [|done]. unfold eval_token. simpl. by destruct (t_type t).
  - rewrite !andb_true_iff, !negb_true_iff in Ha. destruct Ha as [[[H1 H2] H3] H4].
    exists r. split; [|done]. unfold eval_token, eval_name. cbn [atom_head idtok t_type t_text].
    cbv zeta. rewrite H1, H2, H3, H4.
    destruct Hp as [_ <- _ _]. cbn [atom_value]. unfold bindR, gets, whenR, when, liftW.
    by destruct (warn_undef (e_opts e) && (r_skip_eval r =? 0)).
  - apply (eval_defined e) in Hp as (r' & E & Hp). exists r'. by split; [|done].
Qed.

Lemma atom_head_value o a : atom_ok o a = true ->
  value_token (t_type (atom_head a)) = true /\ t_type (atom_head a) <> CPP_EOF.
Proof.
  destruct a as [t|t|name|paren name]; simpl; [|..]; try done.
  - rewrite type_is_true. by intros ->.
  - by destruct (t_type t).
Qed.

Lemma step_atom e is_if fuel lc sn a top below r dm sk rest : atom_ok (e_opts e) a = true ->
  at_point dm sk (tokens (EAtom a) ++ rest) below r ->
  exists lc' r1,
    parse_loop e is_if (S fuel) lc sn true top below r
    = prepend (fst (atom_value e dm sk a))
        (parse_loop e is_if fuel lc' sn false (set_value (snd (atom_value e dm sk a)) top) below r1) /\
    at_point dm sk rest below r1.
Proof.
  intros Ha [Hst Hsk Hag Hroom]. destruct (atom_head_value _ a Ha) as [Hv He].
  cbn [parse_loop]. simpl in Hst.
  rewrite (bindR_prepend _ _ _ _ _ _ (get_token_run r _ _ Hst He)), prepend_nil. rewrite Hv.
  cbn [negb]. set (r1 := set_tokens _ _ r).
  destruct (eval_atom e dm sk a rest below r1 Ha) as (r2 & E & Hp).
  { by constructor. }
  rewrite (bindR_prepend _ _ _ _ _ _ E). by eexists _, _.
Qed.

(** ** The simulation of an expression *)

(** The entries on which an expression can be read without reducing them: the
    priority of the weakest operator of the expression decides. *)
Definition need (x : expr) : Z :=
  match x with
  | EAtom _ | EParen _ | EUn _ _ => 16
  | EBin oper _ _ => eprio oper
  | EAnd _ _ => 5
  | EOr _ _ => 4
  | ECond _ _ _ => 4
  end.

Definition fits_on (top : cpp_ttype) (x : expr) : Prop :=
  prio_of top <= need x \/ top = CPP_QUERY /\ is_comma x = true.

(** Reading the tokens of [x] leaves entries that hold its value under way. *)
Definition simulates (e : env) (is_if : bool) (dm : list byte -> bool) (x : expr) : Prop :=
  forall fuel lc sn top below r rest sk ds v,
  (length (tokens x) <= fuel)%nat -> 0 <= sk < 2 ^ 32 -> stack_ok top below ->
  fits_on (o_op top) x -> at_point dm sk (tokens x ++ rest) below r ->
  eval e dm sk x = Some (ds, v) ->
  exists fuel' lc' sn' top' below' r' sk' d1 d2,
    (fuel <= fuel' + length (tokens x))%nat /\
    parse_loop e is_if fuel lc sn true top below r
    = prepend d1 (parse_loop e is_if fuel' lc' sn' false top' below' r') /\
    at_point dm sk' rest below r' /\ stack_ok top' below' /\ ds = d1 ++ d2 /\
    pending e (level x) top' below' sk' d2 (set_value v top) below sk.

Section simulation.
Context (e : env) (is_if : bool) (dm : list byte -> bool).

(** An operand and the infix operator after it. *)
Lemma sim_push l oper fuel lc sn top below r st sk sk' dl vl :
  simulates e is_if dm l -> infix_token oper = true ->
  (S (length (tokens l)) <= fuel)%nat -> 0 <= sk < 2 ^ 32 -> stack_ok top below ->
  fits_on (o_op top) l -> at_point dm sk (tokens l ++ optok oper :: st) below r ->
  eval e dm sk l = Some (dl, vl) -> eprio oper < level l -> stops oper (o_op top) ->
  (forall r, r_skip_eval r = sk ->
     before_push oper (set_value vl top) below r = ([], (Some None, set_skip_eval sk' r))) ->
  exists fuel' lc' sn' r',
    (fuel <= fuel' + S (length (tokens l)))%nat /\
    parse_loop e is_if fuel lc sn true top below r
    = prepend dl (parse_loop e is_if fuel' lc' sn' true (mk_op oper None) (set_value vl top :: below) r') /\
    at_point dm sk' st (set_value vl top :: below) r'.
Proof.
  intros Hl Hi Hf Hsk Hs Hfit Hp Hev Hlt Hstop Hbp.
  destruct (Hl fuel lc sn top below r (optok oper :: st) sk dl vl)
    as (fuel1 & lc1 & sn1 & top1 & below1 & r1 & sk1 & d1 & d2 & Hf1 & E1 & Hp1 & Hs1 & -> & Hpend);
    try done; [lia|].
  destruct fuel1 as [|fuel1]; [lia|].
  destruct (step_infix e is_if fuel1 lc1 sn1 oper (level l) top1 below1 sk1 r1 d2 top vl below dm sk sk' st)
    as (lc2 & sn2 & r2 & E2 & Hp2); try done.
  exists fuel1, lc2, sn2, r2. split; [lia|]. split; [|done].
  by rewrite E1, E2, prepend_app.
Qed.

Lemma infix_left oper : infix_token oper = true -> oper <> CPP_QUERY -> eprio oper = prio_of oper - 1.
Proof. destruct oper; try discriminate; intros _ ?; done. Qed.

(** A binary expression, given the reduction that ends it. *)
Lemma sim_binary x oper l rr fuel lc sn top below r rest sk sk' dl vl dr vr dfin v :
  simulates e is_if dm l -> simulates e is_if dm rr ->
  tokens x = tokens l ++ optok oper :: tokens rr -> level x = prio_of oper ->
  infix_token oper = true -> oper <> CPP_QUERY -> oper <> CPP_COLON ->
  prio_of oper <= level l -> prio_of oper <= level rr -> fits_on (o_op top) l -> fits_on oper rr ->
  stops oper (o_op top) ->
  (length (tokens x) <= fuel)%nat -> 0 <= sk < 2 ^ 32 -> 0 <= sk' < 2 ^ 32 -> stack_ok top below ->
  at_point dm sk (tokens x ++ rest) below r ->
  eval e dm sk l = Some (dl, vl) -> eval e dm sk' rr = Some (dr, vr) ->
  (forall r, r_skip_eval r = sk ->
     before_push oper (set_value vl top) below r = ([], (Some None, set_skip_eval sk' r))) ->
  pending e (prio_of oper) (mk_op oper (Some vr)) (set_value vl top :: below) sk' dfin
    (set_value v top) below sk ->
  exists fuel' lc' sn' top' below' r' sk'' d1 d2,
    (fuel <= fuel' + length (tokens x))%nat /\
    parse_loop e is_if fuel lc sn true top below r
    = prepend d1 (parse_loop e is_if fuel' lc' sn' false top' below' r') /\
    at_point dm sk'' rest below r' /\ stack_ok top' below' /\ dl ++ dr ++ dfin = d1 ++ d2 /\
    pending e (level x) top' below' sk'' d2 (set_value v top) below sk.
Proof.
  intros Hl Hr Ht Hlv Hi Hq Hcol Hll Hlr Hfl Hfr Hstop Hf Hsk Hsk' Hs Hp Hel Her Hbp Hfin.
  rewrite Ht in *. rewrite length_app in *. simpl length in *.
  rewrite <- app_assoc in Hp. simpl in Hp.
  destruct (sim_push l oper fuel lc sn top below r (tokens rr ++ rest) sk sk' dl vl)
    as (fuel1 & lc1 & sn1 & r1 & Hf1 & E1 & Hp1); try done; [lia|rewrite infix_left by done; lia|].
  assert (valid_oper oper = true) as Hvo.
  { destruct oper; try discriminate Hi; done. }
  destruct (infix_token_facts oper Hi) as (_ & _ & _ & Hne & Hnc & _ & Hnl & _).
  destruct (Hr fuel1 lc1 sn1 (mk_op oper None) (set_value vl top :: below) r1 rest sk' dr vr)
    as (fuel2 & lc2 & sn2 & top2 & below2 & r2 & sk2 & d1 & d2 & Hf2 & E2 & Hp2 & Hs2 & -> & Hpend);
    try done; [lia|by apply stack_ok_push; [apply stack_ok_value| | | | |]|].
  exists fuel2, lc2, sn2, top2, below2, r2, sk2, (dl ++ d1), (d2 ++ dfin).
  split; [lia|]. split; [by rewrite E1, E2, prepend_app|].
  split; [destruct Hp2; constructor; try done; simpl in *; lia|].
  split; [done|]. split; [by rewrite !app_assoc|]. rewrite Hlv.
  eapply pending_trans; [exact Hlr|exact Hpend|exact Hfin].
Qed.
End simulation.

(** ** Which entries an expression fits on *)

Lemma arith_prio oper : arithmetic oper = true ->
  eprio oper = prio_of oper - 1 /\ infix_token oper = true /\
  (oper = CPP_COMMA /\ prio_of oper = 4 \/ oper <> CPP_COMMA /\ 7 <= prio_of oper <= 15).
Proof.
  destruct oper; try discriminate; intros _; (split; [done|]); (split; [done|]);
    ((by left) || (right; split; [done|unfold prio_of; simpl; lia])).
Qed.

Lemma need_level o x : expr_ok o x = true ->
  level x - 1 <= need x /\ 3 <= need x /\ (is_comma x = false -> 4 <= need x) /\ level x <= 17.
Proof.
  destruct x as [a|x|oper x|oper l r|l r|l r|c a b]; simpl; intros Hok; try lia.
  rewrite !andb_true_iff in Hok. destruct Hok as [[[[Ha _] _] _] _].
  destruct (arith_prio oper Ha) as (-> & _ & [[-> ->]|[Hne ?]]); [repeat split; lia || done|lia].
Qed.

(** An operand on the left: the entry below is the one its operator meets. *)
Lemma fits_on_left o oper top x : expr_ok o x = true -> infix_token oper = true ->
  stops oper top -> (oper = CPP_QUERY -> 4 < level x) -> prio_of oper <= level x -> fits_on top x.
Proof.
  intros Hok Hi Hst Hq Hl. destruct (need_level o x Hok) as (H1 & H2 & H3 & _).
  unfold fits_on. destruct Hst as [Hst|[-> _]].
  - left. destruct (ttype_eqb_spec oper CPP_QUERY) as [->|Hnq].
    + specialize (Hq eq_refl). change (eprio CPP_QUERY) with 4 in Hst. lia.
    + rewrite (infix_left oper Hi Hnq) in Hst. lia.
  - change (prio_of CPP_QUERY) with 4. destruct (is_comma x); [by right|]. left. auto.
Qed.

(** An operand on the right: the entry below is its operator's own. *)
Lemma fits_on_right o oper x : expr_ok o x = true ->
  (prio_of oper < level x \/ prio_of oper = 4 /\ is_comma x = false) -> fits_on oper x.
Proof.
  intros Hok H. destruct (need_level o x Hok) as (H1 & H2 & H3 & _).
  left. destruct H as [?|[-> ?]]; [lia|auto].
Qed.

(** A closing parenthesis reduces the value under way to its opening one. *)
Lemma step_close e is_if fuel lc sn lvl top1 below1 sk1 r1 d top v below dm sk st :
  stack_ok top1 below1 -> 0 < lvl ->
  pending e lvl top1 below1 sk1 d (mk_op CPP_OPEN_PAREN (Some v)) (top :: below) sk ->
  at_point dm sk1 (optok CPP_CLOSE_PAREN :: st) below r1 ->
  exists lc' r2,
    parse_loop e is_if (S fuel) lc sn false top1 below1 r1
    = prepend d (parse_loop e is_if fuel lc' sn false (set_value v top) below r2) /\
    at_point dm sk st below r2.
Proof.
  intros Hs1 Hlvl Hpend [Hst Hsk Hag Hroom]. cbn [parse_loop].
  rewrite (bindR_prepend _ _ _ _ _ _ (get_token_run r1 _ st Hst ltac:(done))), prepend_nil.
  cbn [t_type optok value_token invalid_token]. set (r2 := set_tokens _ _ r1).
  assert (reduce e top1 below1 CPP_CLOSE_PAREN r2
          = (d, (RTop (set_value v top) below, set_skip_eval sk r2))) as Er.
  { rewrite reduce_enter by done. change (prio_of _ - _) with 0.
    rewrite Hpend by (done || lia). unfold prepend. cbn [reduce_loop o_op o_value].
    change (has_flag CPP_OPEN_PAREN CHECK_PROMOTION) with false.
    rewrite andb_false_r. simpl. destruct (o_value top); simpl; by rewrite app_nil_r. }
  change (operator_of false CPP_CLOSE_PAREN) with CPP_CLOSE_PAREN.
  change (operand_error is_if false CPP_CLOSE_PAREN (o_op top1)) with (@None string). cbv iota.
  change (ttype_index CPP_CLOSE_PAREN <=? ttype_index CPP_EQ) with false.
  change (ttype_index CPP_PLUS_EQ <=? ttype_index CPP_CLOSE_PAREN) with false. cbv iota.
  cbn [orb]. rewrite (bindR_prepend _ _ _ _ _ _ Er). eexists _, _. split; [reflexivity|]. by constructor.
Qed.

Lemma obind_some {A B} (m : option (W A)) (f : A -> option (W B)) d y : obind m f = Some (d, y) ->
  exists d1 x d2, m = Some (d1, x) /\ f x = Some (d2, y) /\ d = d1 ++ d2.
Proof.
  destruct m as [[d1 x]|]; [|done]. simpl. destruct (f x) as [[d2 y']|] eqn:E; [|done].
  intros [= <- <-]. by exists d1, x, d2.
Qed.

Ltac obinds H :=
  repeat match type of H with
  | obind _ _ = Some (_, _) =>
      let d := fresh "d" in let x := fresh "w" in let d' := fresh "d" in
      let E := fresh "E" in
      apply obind_some in H as (d & x & d' & E & H & ->); cbv beta in H
  end.

Section main.
Context (e : env) (is_if : bool) (dm : list byte -> bool).

Lemma simulates_atom a : atom_ok (e_opts e) a = true -> simulates e is_if dm (EAtom a).
Proof.
  intros Ha fuel lc sn top below r rest sk ds v Hf Hsk Hs Hfit Hp Hev. simpl in Hf.
  destruct fuel as [|fuel]; [lia|].
  destruct (step_atom e is_if fuel lc sn a top below r dm sk rest Ha Hp) as (lc' & r1 & E & Hp1).
  injection Hev as Hev. rewrite Hev in E. simpl in E.
  exists fuel, lc', sn, (set_value v top), below, r1, sk, ds, [].
  split; [simpl; lia|]. split; [exact E|]. split; [done|]. split; [by apply stack_ok_value|].
  split; [by rewrite app_nil_r|]. apply pending_done.
Qed.

Lemma simulates_paren x : expr_ok (e_opts e) x = true -> simulates e is_if dm x ->
  simulates e is_if dm (EParen x).
Proof.
  intros Hok IH fuel lc sn top below r rest sk ds v Hf Hsk Hs Hfit Hp Hev.
  simpl in Hf. rewrite length_app in Hf. simpl in Hf. destruct fuel as [|fuel]; [lia|].
  simpl in Hp. rewrite <- app_assoc in Hp.
  destruct (step_prefix e is_if fuel lc sn CPP_OPEN_PAREN top below r dm sk
              (tokens x ++ [optok CPP_CLOSE_PAREN] ++ rest)) as (lc1 & sn1 & r1 & E1 & Hp1); try done.
  destruct (IH fuel lc1 sn1 (mk_op CPP_OPEN_PAREN None) (top :: below) r1
              ([optok CPP_CLOSE_PAREN] ++ rest) sk ds v)
    as (fuel2 & lc2 & sn2 & top2 & below2 & r2 & sk2 & d1 & d2 & Hf2 & E2 & Hp2 & Hs2 & -> & Hpend);
    try done; [lia|left; destruct (need_level _ x Hok) as (_ & ? & _); unfold prio_of; simpl; lia|].
  destruct fuel2 as [|fuel2]; [lia|].
  assert (0 < level x) as Hlv.
  { clear -Hok. destruct x as [a|x|oper x|oper l r|l r|l r|c a b]; simpl in *; try lia.
    rewrite !andb_true_iff in Hok. destruct Hok as [[[[Ha _] _] _] _].
    destruct (arith_prio oper Ha) as (_ & _ & ?). lia. }
  destruct (step_close e is_if fuel2 lc2 sn2 (level x) top2 below2 sk2 r2 d2 top v below dm sk rest)
    as (lc3 & r3 & E3 & Hp3); try done.
  { destruct Hp2. constructor; try done. simpl in *. lia. }
  exists fuel2, lc3, sn2, (set_value v top), below, r3, sk, (d1 ++ d2), [].
  split; [simpl; rewrite length_app; simpl; lia|].
  split; [by rewrite E1, E2, E3, prepend_app|]. split; [done|]. split; [by apply stack_ok_value|].
  split; [by rewrite app_nil_r|]. apply pending_done.
Qed.

Lemma simulates_unary oper x : unary oper = true -> 16 <= level x -> expr_ok (e_opts e) x = true ->
  simulates e is_if dm x -> simulates e is_if dm (EUn oper x).
Proof.
  intros Hu Hl Hok IH fuel lc sn top below r rest sk ds v Hf Hsk Hs Hfit Hp Hev.
  simpl in Hf. destruct fuel as [|fuel]; [lia|]. cbn [eval] in Hev. obinds Hev.
  injection E0 as E0. unfold owarn in Hev. injection Hev as <- <-.
  destruct (step_prefix e is_if fuel lc sn oper top below r dm sk (tokens x ++ rest))
    as (lc1 & sn1 & r1 & E1 & Hp1); try done; [unfold prefix_token; by rewrite Hu|].
  destruct (IH fuel lc1 sn1 (mk_op oper None) (top :: below) r1 rest sk d w)
    as (fuel2 & lc2 & sn2 & top2 & below2 & r2 & sk2 & d3 & d4 & Hf2 & E2 & Hp2 & Hs2 & -> & Hpend);
    try done; [lia|..].
  { apply stack_ok_push; try done; by destruct oper. }
  { left. cbn [o_op]. assert (prio_of oper = 16) as -> by (by destruct oper).
    destruct x as [a|y|op2 y|op2 l r0|l r0|l r0|c a b]; simpl in Hl |- *; try lia.
    simpl in Hok. rewrite !andb_true_iff in Hok. destruct Hok as [[[[Ha _] _] _] _].
    destruct (arith_prio op2 Ha) as (_ & _ & ?). lia. }
  eexists fuel2, lc2, sn2, top2, below2, r2, sk2, d3, _.
  split; [simpl; lia|]. split; [by rewrite E1, E2|].
  split; [destruct Hp2; constructor; try done; simpl in *; lia|]. split; [done|].
  split; [by rewrite <- !app_assoc|]. simpl level.
  eapply pending_trans; [exact Hl|exact Hpend|]. by apply pending_unary.
Qed.

Lemma before_push_plain oper top below r : arithmetic oper = true ->
  before_push oper top below r = ([], (Some None, r)).
Proof. by destruct oper. Qed.

Lemma simulates_binary oper l x : expr_ok (e_opts e) (EBin oper l x) = true ->
  simulates e is_if dm l -> simulates e is_if dm x -> simulates e is_if dm (EBin oper l x).
Proof.
  intros Hok IHl IHx fuel lc sn top below r rest sk ds v Hf Hsk Hs Hfit Hp Hev.
  cbn [expr_ok] in Hok. rewrite !andb_true_iff in Hok. destruct Hok as [[[[Ha Hl] Hr] Hokl] Hokx].
  apply Z.leb_le in Hl. destruct (arith_prio oper Ha) as (Ee & Hi & Hc).
  assert (oper <> CPP_QUERY /\ oper <> CPP_COLON) as [Hnq Hncol] by (by destruct oper).
  assert (prio_of oper < level x \/ prio_of oper = 4 /\ is_comma x = false) as Hrx.
  { destruct (ttype_eqb_spec oper CPP_COMMA) as [->|]; [right|left; by apply Z.ltb_lt].
    split; [done|by apply negb_true_iff]. }
  assert (prio_of oper <= level x) as Hlx.
  { destruct Hrx as [|[-> ?]]; [lia|]. destruct (need_level _ x Hokx) as (_ & _ & H4 & _).
    destruct x as [a|y|op2 y|op2 l0 r0|l0 r0|l0 r0|c a b]; simpl in *; try lia.
    rewrite !andb_true_iff in Hokx. destruct Hokx as [[[[Ha2 _] _] _] _].
    destruct (arith_prio op2 Ha2) as (? & _ & ?). lia. }
  assert (stops oper (o_op top)) as Hst.
  { destruct Hfit as [Hfit|[Hq Hfit]]; [by left|]. right. split; [done|]. left.
    simpl in Hfit. by destruct oper. }
  cbn [eval] in Hev. obinds Hev. unfold owarn in Hev, E1. injection E1 as <- <-.
  injection Hev as <- <-. rewrite <- ?app_assoc.
  eapply (sim_binary e is_if dm (EBin oper l x) oper l x); try done.
  - by apply (fits_on_left (e_opts e) oper).
  - by apply (fits_on_right (e_opts e)).
  - intros r0 Hr0. rewrite before_push_plain by done. by rewrite set_skip_eval_same.
  - by apply pending_binary.
Qed.

Lemma simulates_and l x : expr_ok (e_opts e) (EAnd l x) = true ->
  simulates e is_if dm l -> simulates e is_if dm x -> simulates e is_if dm (EAnd l x).
Proof.
  intros Hok IHl IHx fuel lc sn top below r rest sk ds v Hf Hsk Hs Hfit Hp Hev.
  cbn [expr_ok] in Hok. rewrite !andb_true_iff in Hok. destruct Hok as [[[Hl Hr] Hokl] Hokx].
  apply Z.leb_le in Hl. apply Z.ltb_lt in Hr.
  assert (stops CPP_AND_AND (o_op top)) as Hst by (destruct Hfit as [?|[_ ?]]; [by left|done]).
  cbn [eval] in Hev. obinds Hev. injection Hev as <- <-.
  eapply (sim_binary e is_if dm (EAnd l x) CPP_AND_AND l x) with
    (sk' := if num_zerop w then u32 (sk + 1) else sk) (vr := w0); try done.
  - change (prio_of CPP_AND_AND) with 6. lia.
  - by apply (fits_on_left (e_opts e) CPP_AND_AND).
  - apply (fits_on_right (e_opts e)); [done|]. left. done.
  - destruct (num_zerop w); [apply u32_range|done].
  - intros r0 Hr0. unfold before_push. simpl.
    rewrite (bindR_prepend _ _ r0 _ _ _ (bump_run _ _ _)), prepend_nil, Hr0. done.
  - by apply pending_and.
Qed.

Lemma simulates_or l x : expr_ok (e_opts e) (EOr l x) = true ->
  simulates e is_if dm l -> simulates e is_if dm x -> simulates e is_if dm (EOr l x).
Proof.
  intros Hok IHl IHx fuel lc sn top below r rest sk ds v Hf Hsk Hs Hfit Hp Hev.
  cbn [expr_ok] in Hok. rewrite !andb_true_iff in Hok. destruct Hok as [[[Hl Hr] Hokl] Hokx].
  apply Z.leb_le in Hl. apply Z.ltb_lt in Hr.
  assert (stops CPP_OR_OR (o_op top)) as Hst by (destruct Hfit as [?|[_ ?]]; [by left|done]).
  cbn [eval] in Hev. obinds Hev. injection Hev as <- <-.
  eapply (sim_binary e is_if dm (EOr l x) CPP_OR_OR l x) with
    (sk' := if num_zerop w then sk else u32 (sk + 1)) (vr := w0); try done.
  - change (prio_of CPP_OR_OR) with 5. lia.
  - by apply (fits_on_left (e_opts e) CPP_OR_OR).
  - apply (fits_on_right (e_opts e)); [done|]. left. done.
  - destruct (num_zerop w); [done|apply u32_range].
  - intros r0 Hr0. unfold before_push. simpl.
    rewrite (bindR_prepend _ _ r0 _ _ _ (bump_run _ _ _)), prepend_nil, Hr0.
    by destruct (num_zerop w).
  - by apply pending_or.
Qed.

Lemma level_ge4 o x : expr_ok o x = true -> 4 <= level x.
Proof.
  destruct x as [a|x|oper x|oper l r|l r|l r|c a b]; simpl; intros Hok; try lia.
  rewrite !andb_true_iff in Hok. destruct Hok as [[[[Ha _] _] _] _].
  destruct (arith_prio oper Ha) as (_ & _ & ?). lia.
Qed.

Lemma simulates_cond c a b : expr_ok (e_opts e) (ECond c a b) = true ->
  simulates e is_if dm c -> simulates e is_if dm a -> simulates e is_if dm b ->
  simulates e is_if dm (ECond c a b).
Proof.
  intros Hok IHc IHa IHb fuel lc sn top below r rest sk ds v Hf Hsk Hs Hfit Hp Hev.
  cbn [expr_ok] in Hok. rewrite !andb_true_iff in Hok. destruct Hok as [[[[Hlc Hcb] Hokc] Hoka] Hokb].
  apply Z.ltb_lt in Hlc. apply negb_true_iff in Hcb.
  assert (stops CPP_QUERY (o_op top)) as Hst by (destruct Hfit as [?|[_ ?]]; [by left|done]).
  cbn [eval] in Hev. obinds Hev. unfold owarn in Hev. injection Hev as <- <-.
  cbn [tokens] in *. rewrite !length_app in Hf. simpl in Hf. rewrite length_app in Hf. simpl in Hf.
  rewrite <- app_assoc in Hp. simpl in Hp. rewrite <- app_assoc in Hp. simpl in Hp.
  set (sk1 := if num_zerop w then u32 (sk + 1) else sk) in *.
  set (sk2 := if num_zerop w then sk else u32 (sk + 1)) in *.
  assert (0 <= sk1 < 2 ^ 32) by (unfold sk1; destruct (num_zerop w); [apply u32_range|done]).
  assert (0 <= sk2 < 2 ^ 32) by (unfold sk2; destruct (num_zerop w); [done|apply u32_range]).
  destruct (sim_push e is_if dm c CPP_QUERY fuel lc sn top below r
              (tokens a ++ optok CPP_COLON :: tokens b ++ rest) sk sk1 d w)
    as (fuel1 & lc1 & sn1 & r1 & Hf1 & F1 & Hp1); try done.
  { lia. }
  { by apply (fits_on_left (e_opts e) CPP_QUERY); try done; change (prio_of CPP_QUERY) with 4; lia. }
  { intros r0 Hr0. unfold before_push. simpl.
    rewrite (bindR_prepend _ _ r0 _ _ _ (bump_run _ _ _)), prepend_nil, Hr0. done. }
  assert (stack_ok (mk_op CPP_QUERY None) (set_value w top :: below)) as Hs1
    by (apply stack_ok_push; try done; by apply stack_ok_value).
  destruct (sim_push e is_if dm a CPP_COLON fuel1 lc1 sn1 (mk_op CPP_QUERY None)
              (set_value w top :: below) r1 (tokens b ++ rest) sk1 sk2 d1 w0)
    as (fuel2 & lc2 & sn2 & r2 & Hf2 & F2 & Hp2); try done.
  { lia. }
  { apply (fits_on_left (e_opts e) CPP_COLON); try done; [by right; auto|].
    by apply (level_ge4 (e_opts e)). }
  { change (eprio CPP_COLON) with 3. pose proof (level_ge4 _ _ Hoka). lia. }
  { by right; auto. }
  { intros r0 Hr0. unfold before_push, bindR, bump_skip, modify, sk1, sk2 in *. simpl.
    rewrite Hr0. destruct (num_zerop w); simpl; [by rewrite u32_back|done]. }
  assert (stack_ok (mk_op CPP_COLON None)
            (set_value w0 (mk_op CPP_QUERY None) :: set_value w top :: below)) as Hs2
    by (apply stack_ok_push; done).
  destruct (IHb fuel2 lc2 sn2 (mk_op CPP_COLON None)
              (set_value w0 (mk_op CPP_QUERY None) :: set_value w top :: below) r2 rest sk2 d0 w1)
    as (fuel3 & lc3 & sn3 & top3 & below3 & r3 & sk3 & x1 & x2 & Hf3 & F3 & Hp3 & Hs3 & -> & Hpend);
    try done.
  { lia. }
  { apply (fits_on_right (e_opts e)); [done|]. by right. }
  eexists fuel3, lc3, sn3, top3, below3, r3, sk3, _, _. rewrite !length_app. simpl length.
  rewrite length_app. simpl length.
  split; [lia|]. split; [rewrite F1, F2, F3, !prepend_app; reflexivity|].
  split; [destruct Hp3; constructor; try done; simpl in *; lia|]. split; [done|].
  split; cycle 1.
  - eapply pending_trans; [|exact Hpend|apply pending_colon; done].
    by apply (level_ge4 (e_opts e)).
  - by rewrite <- !app_assoc.
Qed.

Lemma simulates_all x : expr_ok (e_opts e) x = true -> simulates e is_if dm x.
Proof.
  induction x as [a|x IH|oper x IH|oper l IHl x IHx|l IHl x IHx|l IHl x IHx|c IHc a IHa b IHb];
    intros Hok; pose proof Hok as Hok'; cbn [expr_ok] in Hok'; rewrite ?andb_true_iff in Hok'.
  - by apply simulates_atom.
  - by apply simulates_paren; auto.
  - destruct Hok' as [[Hu Hl] Hx]. apply Z.leb_le in Hl. by apply simulates_unary; auto.
  - destruct Hok' as [[_ ?] ?]. by apply simulates_binary; auto.
  - destruct Hok' as [[_ ?] ?]. by apply simulates_and; auto.
  - destruct Hok' as [[_ ?] ?]. by apply simulates_or; auto.
  - destruct Hok' as [[[_ ?] ?] ?]. by apply simulates_cond; auto.
Qed.

(** The end of the line reduces the value under way to the bottom entry. *)
Lemma step_eof fuel lc sn lvl top1 below1 sk1 r1 d v sk : 0 < lvl -> stack_ok top1 below1 ->
  pending e lvl top1 below1 sk1 d (mk_op CPP_EOF (Some v)) [] sk ->
  r_stream r1 = [] -> r_skip_eval r1 = sk1 ->
  exists r2, parse_loop e is_if (S fuel) lc sn false top1 below1 r1
             = (d, (PRet (negb (num_zerop v)), r2)).
Proof.
  intros Hl Hs Hpend Hst Hsk. cbn [parse_loop].
  assert (cpp_get_token r1 = ([], (eof_token, set_tokens [] (eof_token :: r_lexed r1) r1))) as Eg
    by (unfold cpp_get_token; by rewrite Hst).
  rewrite (bindR_prepend _ _ _ _ _ _ Eg), prepend_nil. set (r2 := set_tokens _ _ r1).
  cbn [t_type eof_token value_token operator_of invalid_token].
  change (operand_error is_if false CPP_EOF (o_op top1)) with (@None string).
  change (ttype_index CPP_EOF <=? ttype_index CPP_EQ) with false.
  change (ttype_index CPP_PLUS_EQ <=? ttype_index CPP_EOF) with false. cbn [orb].
  assert (reduce e top1 below1 CPP_EOF r2
          = (d, (RTop (mk_op CPP_EOF (Some v)) [], set_skip_eval sk r2))) as Er.
  { rewrite reduce_enter by done. change (prio_of _ - _) with 0.
    rewrite Hpend by (done || lia). unfold prepend. simpl. by rewrite app_nil_r. }
  rewrite (bindR_prepend _ _ _ _ _ _ Er). unfold parse_end, bindR, gets, whenR, modify, prepend. simpl.
  destruct (_ && _); simpl; rewrite app_nil_r; by eexists.
Qed.

(** The parser on the tokens of an expression. *)
Lemma parse_expr_run x r ds v : expr_ok (e_opts e) x = true -> agree dm r -> 0 < r_op_limit r ->
  r_stream r = tokens x -> eval e dm 0 x = Some (ds, v) ->
  exists r', _cpp_parse_expr e is_if r = (ds, (PRet (negb (num_zerop v)), r')).
Proof.
  intros Hok Hag Hlim Hst Hev. unfold _cpp_parse_expr, bindR, modify, gets.
  cbn [fst snd app r_stream set_skip_eval set_mi_ind_cmacro].
  set (r0 := set_mi_ind_cmacro None (set_skip_eval 0 r)).
  change (r_stream (set_mi_ind_cmacro None (set_skip_eval 0 r))) with (r_stream r). rewrite Hst.
  destruct (simulates_all x Hok (S (length (tokens x))) 0 false (mk_op CPP_EOF None) [] r0 [] 0 ds v)
    as (fuel1 & lc1 & sn1 & top1 & below1 & r1 & sk1 & d1 & d2 & Hf1 & E1 & Hp1 & Hs1 & -> & Hpend).
  { lia. }
  { done. }
  { done. }
  { left. destruct (need_level _ x Hok) as (_ & ? & _). unfold prio_of. simpl. lia. }
  { constructor; [by rewrite app_nil_r|done|done|done]. }
  { done. }
  destruct fuel1 as [|fuel1]; [lia|].
  destruct (step_eof fuel1 lc1 sn1 (level x) top1 below1 sk1 r1 d2 v 0) as (r2 & E2);
    [pose proof (level_ge4 _ _ Hok); lia|done|done|by destruct Hp1|by destruct Hp1|].
  exists r2. rewrite E1, E2. done.
Qed.
End main.

(** ** Evaluation in [Z] *)

Definition spec_unary (p : Z) (oper : cpp_ttype) (a : anum) : anum :=
  match oper with
  | CPP_UPLUS => mk_anum (a_uns a) (a_val a) false
  | CPP_UMINUS => deliver p (a_uns a) (- a_val a)
  | CPP_COMPL => mk_anum (a_uns a) (wrap_to p (a_uns a) (- a_val a - 1)) false
  | _ => truth (a_val a =? 0)
  end.

(** [None] is a division by zero. *)
Definition spec_binary (p : Z) (oper : cpp_ttype) (a b : anum) : option anum :=
  match oper with
  | CPP_PLUS => Some (spec_arith p Z.add a b)
  | CPP_MINUS => Some (spec_arith p Z.sub a b)
  | CPP_MULT => Some (spec_arith p Z.mul a b)
  | CPP_DIV => if a_val b =? 0 then None else Some (spec_arith p Z.quot a b)
  | CPP_MOD => if a_val b =? 0 then None else Some (spec_arith p Z.rem a b)
  | CPP_LSHIFT => Some (spec_shift p true a (a_val b))
  | CPP_RSHIFT => Some (spec_shift p false a (a_val b))
  | CPP_AND => Some (spec_bitwise p Z.land a b)
  | CPP_OR => Some (spec_bitwise p Z.lor a b)
  | CPP_XOR => Some (spec_bitwise p Z.lxor a b)
  | CPP_EQ_EQ => Some (spec_compare p Z.eqb a b)
  | CPP_NOT_EQ => Some (spec_compare p (fun x y => negb (x =? y)) a b)
  | CPP_GREATER => Some (spec_compare p Z.gtb a b)
  | CPP_GREATER_EQ => Some (spec_compare p Z.geb a b)
  | CPP_LESS => Some (spec_compare p Z.ltb a b)
  | CPP_LESS_EQ => Some (spec_compare p Z.leb a b)
  | _ => Some b
  end.

(** The value of an expression given those of its atoms; [None] when it
    contains a division by zero. *)
Fixpoint aeval (p : Z) (av : atom -> anum) (x : expr) : option anum :=
  match x with
  | EAtom a => Some (av a)
  | EParen x => aeval p av x
  | EUn oper x => option_map (spec_unary p oper) (aeval p av x)
  | EBin oper l r =>
      match aeval p av l, aeval p av r with
      | Some a, Some b => spec_binary p oper a b
      | _, _ => None
      end
  | EAnd l r =>
      match aeval p av l, aeval p av r with
      | Some a, Some b => Some (truth (negb (a_val a =? 0) && negb (a_val b =? 0)))
      | _, _ => None
      end
  | EOr l r =>
      match aeval p av l, aeval p av r with
      | Some a, Some b => Some (truth (negb (a_val a =? 0) || negb (a_val b =? 0)))
      | _, _ => None
      end
  | ECond c a b =>
      match aeval p av c, aeval p av a, aeval p av b with
      | Some c, Some a, Some b =>
          let u := a_uns a || a_uns b in
          let r := if a_val c =? 0 then b else a in
          Some (mk_anum u (wrap_to p u (a_val r)) (a_ovf r))
      | _, _, _ => None
      end
  end.

Fixpoint atoms (x : expr) : list atom :=
  match x with
  | EAtom a => [a]
  | EParen x | EUn _ x => atoms x
  | EBin _ l r | EAnd l r | EOr l r => atoms l ++ atoms r
  | ECond c a b => atoms c ++ atoms a ++ atoms b
  end.

Definition atom_num (e : env) (dm : list byte -> bool) (a : atom) : cpp_num :=
  snd (atom_value e dm 0 a).

Lemma atom_value_num e dm sk a : exists ds, atom_value e dm sk a = (ds, atom_num e dm a).
Proof.
  unfold atom_num. destruct a; cbn [atom_value].
  - eexists. apply surjective_pairing.
  - eexists. apply surjective_pairing.
  - eexists. reflexivity.
  - eexists. reflexivity.
Qed.

(** A value that refines an abstract one. *)
Definition refines (p : Z) (v : cpp_num) (a : anum) : Prop := wf_num p v /\ abs p v = a.

Section refinement.
Context (e : env) (dm : list byte -> bool).
Let p := precision (e_opts e).
Context (Hp : 2 <= p <= 64).

Lemma unary_refines oper sk v a : unary oper = true -> refines p v a ->
  exists ds v', num_unary_op (e_opts e) sk v oper = (ds, v') /\ refines p v' (spec_unary p oper a).
Proof using Hp.
  intros Hu [Hw <-]. eexists _, _. split; [apply surjective_pairing|].
  destruct oper; try discriminate Hu; simpl.
  - split; [apply truth_wf; lia|]. rewrite truth_abs by lia.
    by rewrite (num_zerop_ival p) by (done || lia).
  - apply (num_compl_abs _ sk); fold p; done || lia.
  - done.
  - split; [apply num_negate_spec|apply num_negate_abs]; done || lia.
Qed.

Lemma refines_nonzero v a : refines p v a -> (a_val a =? 0) = num_zerop v.
Proof using Hp. intros [Hw <-]. by rewrite (num_zerop_ival p) by (done || lia). Qed.

Lemma refines_truth b : refines p (int_value (b2z b)) (truth b).
Proof using Hp. split; [apply truth_wf; lia|]. apply truth_abs. lia. Qed.

Lemma compare_refines oper f l v : arithmetic oper = true ->
  (oper, f) ∈ [(CPP_GREATER_EQ, Z.geb); (CPP_LESS, Z.ltb); (CPP_GREATER, Z.gtb); (CPP_LESS_EQ, Z.leb)] ->
  wf_num p l -> wf_num p v ->
  refines p (num_inequality_op (e_opts e) l v oper) (spec_compare p f (abs p l) (abs p v)).
Proof using Hp.
  intros _ Hin Hl Hv. split; [apply truth_wf; lia|]. by apply compare_abs; fold p; try lia.
Qed.

Lemma div_refines l v : wf_num p l -> wf_num p v -> (a_val (abs p v) =? 0) = false -> forall sk,
  (exists ds r, num_div_op div_fuel (e_opts e) sk l v CPP_DIV = Some (ds, r) /\
     refines p r (spec_arith p Z.quot (abs p l) (abs p v))) /\
  (exists ds r, num_div_op div_fuel (e_opts e) sk l v CPP_MOD = Some (ds, r) /\
     refines p r (spec_arith p Z.rem (abs p l) (abs p v))).
Proof using Hp.
  intros Hl Hv Hz sk.
  assert (num_val v <> 0) as Hnz.
  { rewrite (refines_nonzero v (abs p v)) in Hz by done. rewrite num_zerop_val in Hz by apply Hv.
    by apply Z.eqb_neq in Hz. }
  assert (div_precision p) as Hdp by (left; lia).
  destruct (num_quot_abs div_fuel (e_opts e) sk l v Hdp ltac:(unfold div_fuel; lia) Hl Hv Hnz)
    as (q & Eq & ? & ?).
  destruct (num_rem_abs div_fuel (e_opts e) sk l v Hdp ltac:(unfold div_fuel; lia) Hl Hv Hnz)
    as (m & Em & ? & ?).
  split; [by exists [], q|by exists [], m].
Qed.

Lemma binary_refines oper sk l v a b c : arithmetic oper = true -> refines p l a -> refines p v b ->
  spec_binary p oper a b = Some c ->
  exists ds v', binary_value (e_opts e) sk oper l v = Some (ds, v') /\ refines p v' c.
Proof using Hp.
  intros Ha [Hl <-] [Hv <-] Hs. assert (1 <= p <= 128) as Hp' by lia.
  destruct oper; try discriminate Ha; cbn [spec_binary binary_value] in Hs |- *; simplify_eq.
  - eexists _, _. split; [reflexivity|]. apply compare_refines; try done. rewrite !elem_of_cons; tauto.
  - eexists _, _. split; [reflexivity|]. apply compare_refines; try done. rewrite !elem_of_cons; tauto.
  - eexists _, _. split; [reflexivity|]. by apply (num_plus_abs (e_opts e) sk).
  - eexists _, _. split; [reflexivity|]. by apply (num_minus_abs (e_opts e) sk).
  - eexists _, _. split; [reflexivity|].
    destruct (num_mul_value (e_opts e) l v Hp' Hl Hv) as (Hw & Hu & Hva & _ & Ho). fold p in Hw, Hu, Hva, Ho.
    split; [done|]. unfold abs at 1. rewrite Hu, Hva, Ho by lia. by destruct (spec_arith _ _ _ _).
  - destruct (Z.eqb_spec (a_val (abs p v)) 0) as [|Hz]; [done|]. simplify_eq.
    apply (div_refines l v); try done. by apply Z.eqb_neq.
  - destruct (Z.eqb_spec (a_val (abs p v)) 0) as [|Hz]; [done|]. simplify_eq.
    apply (div_refines l v); try done. by apply Z.eqb_neq.
  - eexists _, _. split; [reflexivity|]. by apply (bitop_abs p).
  - eexists _, _. split; [reflexivity|]. by apply (bitop_abs p).
  - eexists _, _. split; [reflexivity|]. by apply (bitop_abs p).
  - eexists _, _. split; [f_equal; apply surjective_pairing|].
    apply (num_shift_abs (e_opts e) sk l v false); fold p; done.
  - eexists _, _. split; [f_equal; apply surjective_pairing|].
    apply (num_shift_abs (e_opts e) sk l v true); fold p; done.
  - eexists _, _. by split; [reflexivity|].
  - eexists _, _. split; [reflexivity|]. split; [apply truth_wf; lia|].
    apply equality_abs; fold p; try done; [lia|rewrite !elem_of_cons; tauto].
  - eexists _, _. split; [reflexivity|]. split; [apply truth_wf; lia|].
    apply equality_abs; fold p; try done; [lia|rewrite !elem_of_cons; tauto].
  - eexists _, _. split; [reflexivity|]. apply compare_refines; try done. rewrite !elem_of_cons; tauto.
  - eexists _, _. split; [reflexivity|]. apply compare_refines; try done. rewrite !elem_of_cons; tauto.
Qed.

Lemma obind_pair {A B} d (x : A) (f : A -> option (W B)) d' y : f x = Some (d', y) ->
  obind (Some (d, x)) f = Some (d ++ d', y).
Proof. simpl. by intros ->. Qed.

Lemma eval_refines x : expr_ok (e_opts e) x = true ->
  Forall (fun a => wf_num p (atom_num e dm a)) (atoms x) -> forall sk a,
  aeval p (fun a => abs p (atom_num e dm a)) x = Some a ->
  exists ds v, eval e dm sk x = Some (ds, v) /\ refines p v a.
Proof using Hp.
  set (av := fun a => abs p (atom_num e dm a)).
  induction x as [t|x IH|oper x IH|oper l IHl r IHr|l IHl r IHr|l IHl r IHr|c IHc l IHl r IHr];
    intros Hok Hat sk a Ha; pose proof Hok as Hok'; cbn [expr_ok] in Hok;
    rewrite ?andb_true_iff in Hok; cbn [aeval] in Ha; cbn [atoms] in Hat; rewrite ?Forall_app in Hat.
  - injection Ha as <-. destruct (atom_value_num e dm sk t) as [ds E]. exists ds, (atom_num e dm t).
    cbn [eval]. rewrite E. split; [done|]. split; [|done]. by apply Forall_cons_1 in Hat as [? _].
  - apply (IH Hok Hat sk a Ha).
  - destruct Hok as [[Hu _] Hok]. destruct (aeval p av x) as [b|] eqn:Eb; [|done].
    injection Ha as <-. destruct (IH Hok Hat sk b eq_refl) as (d1 & v & E1 & Hr).
    destruct (unary_refines oper sk v b Hu Hr) as (d2 & v' & E2 & Hr').
    cbn [eval]. rewrite E1. eexists _, v'. split; [|done].
    apply obind_pair. rewrite E2. apply obind_pair. reflexivity.
  - destruct Hok as [[[[Hu _] _] Hokl] Hokr], Hat as [Hatl Hatr].
    destruct (aeval p av l) as [b|] eqn:Eb; [|done]. destruct (aeval p av r) as [c|] eqn:Ec; [|done].
    destruct (IHl Hokl Hatl sk b eq_refl) as (d1 & v1 & E1 & Hr1).
    destruct (IHr Hokr Hatr sk c eq_refl) as (d2 & v2 & E2 & Hr2).
    destruct (binary_refines oper sk v1 v2 b c a Hu Hr1 Hr2 Ha) as (d3 & v' & E3 & Hr').
    cbn [eval]. rewrite E1. eexists _, v'. split; [|done].
    apply obind_pair. rewrite E2. apply obind_pair. apply obind_pair. rewrite E3.
    apply obind_pair. reflexivity.
  - destruct Hok as [[_ Hokl] Hokr], Hat as [Hatl Hatr].
    destruct (aeval p av l) as [b|] eqn:Eb; [|done]. destruct (aeval p av r) as [c|] eqn:Ec; [|done].
    injection Ha as <-. destruct (IHl Hokl Hatl sk b eq_refl) as (d1 & v1 & E1 & Hr1).
    destruct (IHr Hokr Hatr (if num_zerop v1 then u32 (sk + 1) else sk) c eq_refl)
      as (d2 & v2 & E2 & Hr2).
    cbn [eval]. rewrite E1. eexists _, _. split.
    + apply obind_pair. rewrite E2. apply obind_pair. reflexivity.
    + rewrite (refines_nonzero v1 b), (refines_nonzero v2 c) by done. apply refines_truth.
  - destruct Hok as [[_ Hokl] Hokr], Hat as [Hatl Hatr].
    destruct (aeval p av l) as [b|] eqn:Eb; [|done]. destruct (aeval p av r) as [c|] eqn:Ec; [|done].
    injection Ha as <-. destruct (IHl Hokl Hatl sk b eq_refl) as (d1 & v1 & E1 & Hr1).
    destruct (IHr Hokr Hatr (if num_zerop v1 then sk else u32 (sk + 1)) c eq_refl)
      as (d2 & v2 & E2 & Hr2).
    cbn [eval]. rewrite E1. eexists _, _. split.
    + apply obind_pair. rewrite E2. apply obind_pair. reflexivity.
    + rewrite (refines_nonzero v1 b), (refines_nonzero v2 c) by done. apply refines_truth.
  - destruct Hok as [[[_ Hokc] Hokl] Hokr], Hat as (Hatc & Hatl & Hatr).
    destruct (aeval p av c) as [g|] eqn:Eg; [|done].
    destruct (aeval p av l) as [b|] eqn:Eb; [|done]. destruct (aeval p av r) as [h|] eqn:Eh; [|done].
    injection Ha as <-. destruct (IHc Hokc Hatc sk g eq_refl) as (d0 & v0 & E0 & Hr0).
    destruct (IHl Hokl Hatl (if num_zerop v0 then u32 (sk + 1) else sk) b eq_refl)
      as (d1 & v1 & E1 & Hr1).
    destruct (IHr Hokr Hatr (if num_zerop v0 then sk else u32 (sk + 1)) h eq_refl)
      as (d2 & v2 & E2 & Hr2).
    cbn [eval]. rewrite E0. eexists _, _. split.
    + apply obind_pair. rewrite E1. apply obind_pair. rewrite E2. apply obind_pair. reflexivity.
    + rewrite (refines_nonzero v0 g) by done. destruct Hr1 as [Hw1 <-], Hr2 as [Hw2 <-].
      assert (forall u n, wf_num p n -> refines p (set_unsignedp u n)
        (mk_anum u (wrap_to p u (a_val (abs p n))) (a_ovf (abs p n)))) as Hset.
      { intros u n Hn. split; [apply Hn|]. unfold abs, ival. simpl. f_equal.
        by rewrite wrap_to_wrap by lia. }
      destruct (num_zerop v0); by apply Hset.
Qed.
End refinement.

(** ** Results *)


Definition test_env : env :=
  mk_env gnuc17_options (fun _ => mret (0, false)) false (fun _ _ _ => false).
Definition numtok (s : string) : cpp_token := mk_token CPP_NUMBER 0 (bytes s) [] 0 false.
Definition enum (s : string) : expr := EAtom (ANumber (numtok s)).


(** The value delivered for a division by zero has the signedness of the
    dividend, not of the common type, also where the division is not
    evaluated: (1 ? -1 : 1 / 0u) > 0 is false, though both branches have an
    unsigned common type, and (1 ? -1 : 1 / 1u) > 0 is true. *)
Theorem zero_division_signedness :
  let test d := EBin CPP_GREATER (EParen (ECond (enum "1") (EUn CPP_UMINUS (enum "1"))
                  (EBin CPP_DIV (enum "1") (enum d)))) (enum "0") in
  let result d := fst (snd (_cpp_parse_expr test_env true (fresh_reader (tokens (test d)) ∅))) in
  result "0u" = PRet false /\ result "1u" = PRet true.
Proof. vm_compute. done. Qed.
