(* ===== verification/CondStack.v ===== *)
(** * Conditional directives (libcpp/directives.c, #if to #endif)

    The handlers of the conditional directives keep a stack of the sections
    that are open and a flag that tells whether the text is being skipped.
    This file models the handlers, relates them to a small machine on events
    and shows that the machine processes exactly the groups C selects: of each
    section, the first group whose condition holds, in groups that are
    themselves processed. *)

From Stdlib Require Import ZArith Lia Bool String Ascii.
From stdpp Require Import base tactics list numbers gmap.
From S2P Require Import Prelude Reader CppNum NumLit Stream Assert ExprParse.

Local Open Scope string_scope.
Local Open Scope list_scope.
Local Open Scope Z_scope.

(** ** The handlers *)

(** Push an entry for a conditional and set the skipping flag to SKIP. *)
Definition push_conditional (skip : bool) (type : cond_type) (cmacro : option (list byte)) : R unit :=
  modify (fun r =>
    let ifs := mk_ifs (if r_mi_valid r && bool_decide (r_mi_cmacro r = None) then cmacro else None)
                 (r_skipping r || negb skip) (r_skipping r) type in
    set_if_stack (ifs :: r_if_stack r) (set_skipping skip r)).

(** The macro tested by #ifdef and #ifndef, marked as used; its name and
    whether it is defined. *)
Definition test_macro : R (option (list byte * bool)) :=
  node ←r lex_macro_node false ;;
  match node with
  | Some name =>
      n ←r gets (cpp_lookup name) ;;
      update_node name mark_used ;;r
      check_eol ;;r
      mret (Some (name, cpp_macro_p n && negb (flag (n_flags n) NODE_CONDITIONAL)))
  | None => mret None
  end.

Definition do_ifdef : R unit :=
  skipping ←r gets r_skipping ;;
  skip ←r (if negb skipping then
             t ←r test_macro ;;
             mret (match t with Some (_, defined) => negb defined | None => true end)
           else mret true) ;;
  push_conditional skip T_IFDEF None.

Definition do_ifndef : R unit :=
  skipping ←r gets r_skipping ;;
  t ←r (if negb skipping then test_macro else mret None) ;;
  push_conditional (match t with Some (_, defined) => defined | None => true end) T_IFNDEF
    (option_map fst t).

(** [None] is an evaluation that does not return. *)
Definition do_if (e : env) : R (option unit) :=
  skipping ←r gets r_skipping ;;
  skip ←r (if negb skipping then
             res ←r _cpp_parse_expr e true ;;
             mret (match res with PRet b => Some (negb b) | _ => None end)
           else mret (Some true)) ;;
  match skip with
  | Some skip =>
      cm ←r gets r_mi_ind_cmacro ;;
      push_conditional skip T_IF cm ;;r mret (Some tt)
  | None => mret None
  end.

(** Replace the top entry. *)
Definition set_top (ifs : if_stack) : R unit :=
  modify (fun r => set_if_stack (ifs :: tl (r_if_stack r)) r).

Definition else_error (msg : string) (ifs : if_stack) : R unit :=
  whenR (match ifs_type ifs with T_ELSE => true | _ => false end)
    (errorR CPP_DL_ERROR msg ;;r errorR CPP_DL_ERROR "the conditional began here").

Definition do_else (e : env) : R unit :=
  stack ←r gets r_if_stack ;;
  match stack with
  | [] => errorR CPP_DL_ERROR "#else without #if"
  | ifs :: _ =>
      else_error "#else after #else" ifs ;;r
      modify (set_skipping (skip_elses ifs)) ;;r
      set_top (mk_ifs None true (was_skipping ifs) T_ELSE) ;;r
      whenR (negb (was_skipping ifs) && warn_endif_labels (e_opts e)) check_eol_endif_labels
  end.

Definition do_elif (e : env) : R (option unit) :=
  stack ←r gets r_if_stack ;;
  match stack with
  | [] => errorR CPP_DL_ERROR "#elif without #if" ;;r mret (Some tt)
  | ifs :: _ =>
      else_error "#elif after #else" ifs ;;r
      set_top (mk_ifs (mi_cmacro' ifs) (skip_elses ifs) (was_skipping ifs) T_ELIF) ;;r
      if skip_elses ifs then
        modify (set_skipping true) ;;r
        set_top (mk_ifs None true (was_skipping ifs) T_ELIF) ;;r mret (Some tt)
      else
        res ←r _cpp_parse_expr e false ;;
        match res with
        | PRet b =>
            modify (set_skipping (negb b)) ;;r
            set_top (mk_ifs None b (was_skipping ifs) T_ELIF) ;;r mret (Some tt)
        | _ => mret None
        end
  end.

Definition do_endif (e : env) : R unit :=
  stack ←r gets r_if_stack ;;
  match stack with
  | [] => errorR CPP_DL_ERROR "#endif without #if"
  | ifs :: next =>
      whenR (negb (was_skipping ifs) && warn_endif_labels (e_opts e)) check_eol_endif_labels ;;r
      match next, mi_cmacro' ifs with
      | [], Some cm => modify (set_mi (Some cm) true)
      | _, _ => mret tt
      end ;;r
      modify (fun r => set_skipping (was_skipping ifs) (set_if_stack next r))
  end.

(** The end of a buffer: its open conditionals are errors, and skipping ends. *)
Definition pop_conditionals : R unit :=
  stack ←r gets r_if_stack ;;
  liftW (foldr (fun _ m => cpp_error CPP_DL_ERROR "unterminated #%s" ;;w m) (mret tt) stack) ;;r
  modify (fun r => set_if_stack [] (set_skipping false r)).

(** ** The machine *)

(** The events of a file: the conditional directives, with the truth of the
    condition where there is one, and a piece of text. *)
Inductive event : Type :=
  | EvIf (b : bool)
  | EvElif (b : bool)
  | EvElse
  | EvEndif
  | EvText (l : nat).

(** A section: may a later group still be chosen, was the section itself
    skipped. *)
Definition frame : Type := (bool * bool)%type.
Definition cstate : Type := (bool * list frame)%type.

Definition cstep (ev : event) (s : cstate) : list nat * cstate :=
  let '(skipping, stack) := s in
  match ev with
  | EvText l => (if skipping then [] else [l], s)
  | EvIf b =>
      let skip := skipping || negb b in
      ([], (skip, (skipping || negb skip, skipping) :: stack))
  | EvElif b =>
      match stack with
      | [] => ([], s)
      | (elses, was) :: rest =>
          if elses then ([], (true, (true, was) :: rest)) else ([], (negb b, (b, was) :: rest))
      end
  | EvElse =>
      match stack with
      | [] => ([], s)
      | (elses, was) :: rest => ([], (elses, (true, was) :: rest))
      end
  | EvEndif =>
      match stack with
      | [] => ([], s)
      | (_, was) :: rest => ([], (was, rest))
      end
  end.

Fixpoint crun (evs : list event) (s : cstate) : list nat * cstate :=
  match evs with
  | [] => ([], s)
  | ev :: evs' =>
      let '(t1, s1) := cstep ev s in let '(t2, s2) := crun evs' s1 in (t1 ++ t2, s2)
  end.

(** ** What C requires *)

(** A file: text, and sections made of an #if group and the groups after it. *)
Inductive items : Type :=
  | INil
  | IText (l : nat) (rest : items)
  | ISection (b : bool) (body : items) (rest_groups : groups) (rest : items)
with groups : Type :=
  | GEndif
  | GElse (body : items)
  | GElif (b : bool) (body : items) (rest_groups : groups).

Fixpoint item_events (f : items) : list event :=
  match f with
  | INil => []
  | IText l rest => EvText l :: item_events rest
  | ISection b body gs rest => EvIf b :: item_events body ++ group_events gs ++ item_events rest
  end
with group_events (gs : groups) : list event :=
  match gs with
  | GEndif => [EvEndif]
  | GElse body => EvElse :: item_events body ++ [EvEndif]
  | GElif b body gs => EvElif b :: item_events body ++ group_events gs
  end.

(** The text that is processed: [active] when the enclosing group is, [taken]
    when a group of the section has been selected already. *)
Fixpoint item_text (active : bool) (f : items) : list nat :=
  match f with
  | INil => []
  | IText l rest => (if active then [l] else []) ++ item_text active rest
  | ISection b body gs rest =>
      item_text (active && b) body ++ group_text active b gs ++ item_text active rest
  end
with group_text (active taken : bool) (gs : groups) : list nat :=
  match gs with
  | GEndif => []
  | GElse body => item_text (active && negb taken) body
  | GElif b body gs =>
      item_text (active && negb taken && b) body ++ group_text active (taken || b) gs
  end.

Scheme items_ind2 := Induction for items Sort Prop
  with groups_ind2 := Induction for groups Sort Prop.
Combined Scheme items_groups_ind from items_ind2, groups_ind2.

Lemma crun_app a b s : crun (a ++ b) s =
  let '(t1, s1) := crun a s in let '(t2, s2) := crun b s1 in (t1 ++ t2, s2).
Proof.
  revert s. induction a as [|ev a IH]; intros s; simpl.
  - by destruct (crun b s).
  - destruct (cstep ev s) as [t1 s1]. rewrite IH. destruct (crun a s1) as [t2 s2].
    destruct (crun b s2) as [t3 s3]. by rewrite app_assoc.
Qed.

(** The state inside a group: [taken] tells whether a group has been selected
    up to and including the current one. *)
Lemma crun_items_groups :
  (forall f sk stack, crun (item_events f) (sk, stack) = (item_text (negb sk) f, (sk, stack))) /\
  (forall gs sk was taken stack,
     crun (group_events gs) (sk, (was || taken, was) :: stack)
     = (group_text (negb was) taken gs, (was, stack))).
Proof.
  apply items_groups_ind; simpl.
  - done.
  - intros l f IH sk stack. rewrite IH. by destruct sk.
  - intros b body IHb gs IHg f IHf sk stack. rewrite !crun_app, IHb.
    replace (sk || negb (sk || negb b)) with (sk || b) by (by destruct sk, b).
    rewrite crun_app, IHg, IHf. by destruct sk, b.
  - intros sk was taken stack. by destruct was, taken.
  - intros body IHb sk was taken stack. rewrite crun_app, IHb. simpl.
    rewrite app_nil_r. by destruct was, taken.
  - intros b body IHb gs IHg sk was taken stack.
    destruct (was || taken) eqn:E.
    + rewrite crun_app, IHb. replace true with (was || (taken || b)) by (by destruct was, taken, b).
      rewrite IHg. by destruct was, taken, b.
    + apply orb_false_iff in E as [-> ->]. rewrite crun_app, IHb.
      change (b, false) with (false || (false || b), false). rewrite IHg. by destruct b.
Qed.

(** ** The effect of the handlers *)

(** The conditional directives; the first three open a section (the flag
    IF_COND of the directive table). *)
Inductive directive : Type := D_IF | D_IFDEF | D_IFNDEF | D_ELIF | D_ELSE | D_ENDIF.

Definition opens (d : directive) : bool :=
  match d with D_IF | D_IFDEF | D_IFNDEF => true | _ => false end.

Definition handler (e : env) (d : directive) : R (option unit) :=
  match d with
  | D_IF => do_if e
  | D_IFDEF => do_ifdef ;;r mret (Some tt)
  | D_IFNDEF => do_ifndef ;;r mret (Some tt)
  | D_ELIF => do_elif e
  | D_ELSE => do_else e ;;r mret (Some tt)
  | D_ENDIF => do_endif e ;;r mret (Some tt)
  end.

(** The state the handlers share: the skipping flag, the open sections and the
    include-guard detection. *)
Definition core (r : reader) : bool * list if_stack * option (list byte) * bool :=
  (r_skipping r, r_if_stack r, r_mi_cmacro r, r_mi_valid r).

(** The state in which the condition of an #elif is evaluated. *)
Definition before_elif (r : reader) : reader :=
  match r_if_stack r with
  | [] => r
  | ifs :: rest =>
      set_if_stack (mk_ifs (mi_cmacro' ifs) (skip_elses ifs) (was_skipping ifs) T_ELIF :: rest) r
  end.

Definition truth (p : presult) : bool := match p with PRet b => b | _ => false end.

(** The event a directive amounts to, with the condition as it is tested. *)
Definition event_of (e : env) (d : directive) (r : reader) : event :=
  match d with
  | D_IF => EvIf (truth (out (_cpp_parse_expr e true) r))
  | D_IFDEF => EvIf (match out test_macro r with Some (_, defined) => defined | None => false end)
  | D_IFNDEF =>
      EvIf (match out test_macro r with Some (_, defined) => negb defined | None => false end)
  | D_ELIF => EvElif (truth (out (_cpp_parse_expr e false) (before_elif r)))
  | D_ELSE => EvElse
  | D_ENDIF => EvEndif
  end.

(** The macro an opening directive proposes as the include guard. *)
Definition guard_of (e : env) (d : directive) (r : reader) : option (list byte) :=
  match d with
  | D_IF =>
      if r_skipping r then r_mi_ind_cmacro r
      else r_mi_ind_cmacro (run (_cpp_parse_expr e true) r)
  | D_IFNDEF => if r_skipping r then None else option_map fst (out test_macro r)
  | _ => None
  end.

(** The type it leaves in its entry (#endif leaves none). *)
Definition type_of (d : directive) : cond_type :=
  match d with
  | D_IF => T_IF | D_IFDEF => T_IFDEF | D_IFNDEF => T_IFNDEF | D_ELIF => T_ELIF
  | D_ELSE | D_ENDIF => T_ELSE
  end.

Definition core_step (ev : event) (type : cond_type) (guard : option (list byte))
  (c : bool * list if_stack * option (list byte) * bool) :=
  let '(sk, st, mc, mv) := c in
  match ev, st with
  | EvIf b, _ =>
      let skip := sk || negb b in
      (skip, mk_ifs (if mv && bool_decide (mc = None) then guard else None) (sk || negb skip) sk type :: st,
       mc, mv)
  | EvElif b, ifs :: rest =>
      let skip := skip_elses ifs || negb b in
      (skip, mk_ifs None (skip_elses ifs || b) (was_skipping ifs) type :: rest, mc, mv)
  | EvElse, ifs :: rest =>
      (skip_elses ifs, mk_ifs None true (was_skipping ifs) type :: rest, mc, mv)
  | EvEndif, ifs :: rest =>
      let found := match rest, mi_cmacro' ifs with [], Some cm => Some cm | _, _ => None end in
      (was_skipping ifs, rest,
       match found with Some cm => Some cm | None => mc end,
       match found with Some _ => true | None => mv end)
  | _, _ => c
  end.

Lemma kept_core r r' : kept r r' -> core r' = core r.
Proof. intros (H1 & H2 & H3 & H4 & _). unfold core. by rewrite H1, H2, H3, H4. Qed.

Lemma polite_kept {A} (m : R A) r : polite m -> kept r (run m r).
Proof. intros H. apply calm_kept, H. Qed.

Lemma polite_check_eol w : polite (check_eol_1 w).
Proof. unfold check_eol_1. politely. Qed.

Lemma polite_test_macro : polite test_macro.
Proof.
  unfold test_macro, lex_macro_node, _cpp_lex_token, check_eol. politely.
Qed.

(** Pushing after a computation that leaves the stack alone. *)
Lemma push_after r r1 b type cm : kept r r1 ->
  core (run (push_conditional (r_skipping r || negb b) type cm) r1)
  = core_step (EvIf b) type cm (core r) /\
  r_op_limit r <= r_op_limit (run (push_conditional (r_skipping r || negb b) type cm) r1).
Proof.
  intros (H1 & H2 & H3 & H4 & H5). split; [|done].
  unfold core. cbn. by rewrite H1, H2, H3, H4.
Qed.

Lemma out_ret {A} (x : A) r : out (mret x) r = x.
Proof. done. Qed.
Lemma run_ret {A} (x : A) r : run (mret x) r = r.
Proof. done. Qed.
Lemma run_modify f r : run (modify f) r = f r.
Proof. done. Qed.

Ltac step_run := rewrite ?run_bind, ?out_bind, ?out_gets, ?run_gets, ?out_ret, ?run_ret, ?run_modify.

Definition follows (m : R (option unit)) (e : env) (d : directive) (r : reader) : Prop :=
  core (run m r) = core_step (event_of e d r) (type_of d) (guard_of e d r) (core r) /\
  r_op_limit r <= r_op_limit (run m r).

Lemma ifdef_core e r : follows (handler e D_IFDEF) e D_IFDEF r.
Proof.
  unfold follows. simpl handler. unfold do_ifdef. step_run. destruct (r_skipping r) eqn:Es; simpl negb; cbv iota; step_run.
  - destruct (push_after r r false T_IFDEF None (kept_refl r)) as [H1 H2]. rewrite Es in *.
    split; [|done]. etransitivity; [exact H1|]. unfold core. by rewrite Es.
  - destruct (push_after r (run test_macro r)
      (match out test_macro r with Some (_, d) => d | None => false end) T_IFDEF None) as [H1 H2].
    { apply polite_kept, polite_test_macro. }
    rewrite Es in *. simpl orb in *.
    replace (match out test_macro r with Some (_, d) => negb d | None => true end)
      with (negb (match out test_macro r with Some (_, d) => d | None => false end))
      by (by destruct (out test_macro r) as [[]|]).
    by split.
Qed.

Lemma ifndef_core e r : follows (handler e D_IFNDEF) e D_IFNDEF r.
Proof.
  unfold follows. simpl handler. unfold do_ifndef. step_run.
  destruct (r_skipping r) eqn:Es; simpl negb; cbv iota; step_run.
  - destruct (push_after r r false T_IFNDEF None (kept_refl r)) as [H1 H2]. rewrite Es in *.
    split; [|done]. etransitivity; [exact H1|]. unfold core, guard_of. by rewrite Es.
  - destruct (push_after r (run test_macro r)
      (match out test_macro r with Some (_, d) => negb d | None => false end) T_IFNDEF
      (option_map fst (out test_macro r))) as [H1 H2].
    { apply polite_kept, polite_test_macro. }
    unfold guard_of. rewrite Es in *. simpl orb in *.
    replace (match out test_macro r with Some (_, d) => d | None => true end)
      with (negb (match out test_macro r with Some (_, d) => negb d | None => false end))
      by (destruct (out test_macro r) as [[? []]|]; done).
    by split.
Qed.

Section handlers.
Context (e : env) (Hcc : forall t, Forall not_ice (fst (e_charconst e t))).

Lemma if_core r : 0 < r_op_limit r -> out (handler e D_IF) r = Some tt ->
  follows (handler e D_IF) e D_IF r.
Proof using Hcc.
  intros Hl. simpl handler. unfold follows, do_if. step_run.
  destruct (r_skipping r) eqn:Es; simpl negb; cbv iota; step_run.
  - intros _. destruct (push_after r r false T_IF (r_mi_ind_cmacro r) (kept_refl r)) as [H1 H2].
    rewrite Es in *. split; [|done]. etransitivity; [exact H1|]. unfold core, guard_of. by rewrite Es.
  - destruct (parse_expr_fine e true r Hcc Hl) as (_ & Hk & _).
    destruct (out (_cpp_parse_expr e true) r) as [| | |b] eqn:Eo; try done. intros _. step_run.
    destruct (push_after r _ b T_IF (r_mi_ind_cmacro (run (_cpp_parse_expr e true) r)) Hk) as [H1 H2].
    rewrite Es in *. simpl orb in *. split; [|done]. etransitivity; [exact H1|].
    unfold guard_of, event_of. by rewrite Es, Eo.
Qed.

Lemma else_error_run msg ifs r : run (else_error msg ifs) r = r.
Proof. unfold else_error. destruct (ifs_type ifs); done. Qed.

Lemma elif_core r : 0 < r_op_limit r -> out (handler e D_ELIF) r = Some tt ->
  follows (handler e D_ELIF) e D_ELIF r.
Proof using Hcc.
  intros Hl. simpl handler. unfold follows, do_elif. step_run. unfold core at 2.
  destruct (r_if_stack r) as [|ifs rest] eqn:Est.
  { intros _. step_run. split; [|reflexivity]. unfold core. simpl. unfold run. simpl. by rewrite Est. }
  step_run. rewrite else_error_run. unfold set_top. step_run. rewrite Est. simpl tl.
  destruct (skip_elses ifs) eqn:Ee.
  - intros _. step_run. split; [|done]. unfold core. simpl. by rewrite Ee.
  - unfold event_of, before_elif. rewrite Est, Ee.
    set (r1 := set_if_stack _ r). step_run.
    destruct (parse_expr_fine e false r1 Hcc Hl) as (_ & (H1 & H2 & H3 & H4 & H5) & _).
    destruct (out (_cpp_parse_expr e false) r1) as [| | |b] eqn:Eo; try done.
    intros _. step_run. split; [|exact H5].
    unfold core. simpl. rewrite H2, H3, H4, Ee. done.
Qed.

Lemma labels_core ifs r : let m := whenR (negb (was_skipping ifs) && warn_endif_labels (e_opts e))
  check_eol_endif_labels in kept r (run m r).
Proof. apply polite_kept, polite_when, polite_check_eol. Qed.

Lemma else_core r : follows (handler e D_ELSE) e D_ELSE r.
Proof.
  simpl handler. unfold follows, do_else. step_run. unfold core at 2.
  destruct (r_if_stack r) as [|ifs rest] eqn:Est.
  { split; [|reflexivity]. unfold core. simpl. unfold run. simpl. by rewrite Est. }
  step_run. rewrite else_error_run. unfold set_top. step_run.
  set (r1 := set_if_stack _ _). pose proof (labels_core ifs r1) as Hk.
  split; [rewrite (kept_core _ _ Hk)|apply Hk].
  unfold core, r1. simpl. by rewrite Est.
Qed.

Lemma endif_core r : follows (handler e D_ENDIF) e D_ENDIF r.
Proof.
  simpl handler. unfold follows, do_endif. step_run. unfold core at 2.
  destruct (r_if_stack r) as [|ifs rest] eqn:Est.
  { split; [|reflexivity]. unfold core. simpl. unfold run. simpl. by rewrite Est. }
  step_run. pose proof (labels_core ifs r) as (H1 & H2 & H3 & H4 & H5).
  set (r1 := run (whenR _ _) r) in *. simpl core_step.
  destruct rest as [|f rest]; [destruct (mi_cmacro' ifs)|]; step_run; (split; [|exact H5]); unfold core; simpl;
    by rewrite ?H3, ?H4.
Qed.

Lemma handler_core d r : 0 < r_op_limit r -> out (handler e d) r = Some tt ->
  follows (handler e d) e d r.
Proof using Hcc.
  destruct d; intros ? ?; auto using if_core, ifdef_core, ifndef_core, elif_core, else_core, endif_core.
Qed.
End handlers.

(** ** Files *)

(** A line of a file: a conditional directive with the tokens after its name,
    or any other line, text or directive, with its effect on the identifiers
    (a #define changes them). *)
Inductive line : Type :=
  | LDir (d : directive) (toks : list cpp_token)
  | LText (l : nat) (effect : gmap (list Z) cpp_hashnode -> gmap (list Z) cpp_hashnode).

(** What is not an opening conditional invalidates the control macro. *)
Definition invalidate : R unit := modify (fun r => set_mi (r_mi_cmacro r) false r).

(** Process a line; the other lines are executed unless they are skipped. The
    result lists the ones executed. *)
Definition do_line (e : env) (ln : line) : R (option (list nat)) :=
  match ln with
  | LText l effect =>
      skipping ←r gets r_skipping ;;
      invalidate ;;r
      if skipping then mret (Some [])
      else modify (fun r => set_nodes (effect (r_nodes r)) r) ;;r mret (Some [l])
  | LDir d toks =>
      modify (set_tokens toks []) ;;r
      whenR (negb (opens d)) invalidate ;;r
      o ←r handler e d ;;
      mret (option_map (fun _ => []) o)
  end.

Fixpoint do_lines (e : env) (lns : list line) : R (option (list nat)) :=
  match lns with
  | [] => mret (Some [])
  | ln :: rest =>
      o ←r do_line e ln ;;
      match o with
      | Some t1 => o2 ←r do_lines e rest ;; mret (option_map (fun t2 => t1 ++ t2) o2)
      | None => mret None
      end
  end.

(** The reader a directive's handler starts from. *)
Definition enter (d : directive) (toks : list cpp_token) (r : reader) : reader :=
  let r1 := set_tokens toks [] r in if opens d then r1 else set_mi (r_mi_cmacro r) false r1.

(** The events of a file, each with the value its condition has when it is
    reached. *)
Fixpoint events (e : env) (lns : list line) (r : reader) : list event :=
  match lns with
  | [] => []
  | ln :: rest =>
      match ln with LText l _ => EvText l | LDir d toks => event_of e d (enter d toks r) end
      :: events e rest (run (do_line e ln) r)
  end.

(** The state when a file is entered. *)
Definition at_start (r : reader) : Prop :=
  core r = (false, [], None, true) /\ 0 < r_op_limit r.

Lemma do_line_dir e d toks r :
  run (do_line e (LDir d toks)) r = run (handler e d) (enter d toks r) /\
  out (do_line e (LDir d toks)) r = option_map (fun _ => []) (out (handler e d) (enter d toks r)).
Proof.
  unfold do_line, enter, invalidate, whenR. step_run. by destruct (opens d).
Qed.

Lemma do_lines_cons e ln rest r ts :
  out (do_lines e (ln :: rest)) r = Some ts ->
  exists t1 t2, out (do_line e ln) r = Some t1 /\
    out (do_lines e rest) (run (do_line e ln) r) = Some t2 /\ ts = t1 ++ t2 /\
    run (do_lines e (ln :: rest)) r = run (do_lines e rest) (run (do_line e ln) r).
Proof.
  simpl. step_run. destruct (out (do_line e ln) r) as [t1|]; [|done]. step_run.
  destruct (out (do_lines e rest) _) as [t2|]; [|done]. intros [= <-]. by exists t1, t2.
Qed.

Section files.
Context (e : env) (Hcc : forall t, Forall not_ice (fst (e_charconst e t))).

(** A directive, as a step on the shared state. *)
Lemma dir_core d toks r t : 0 < r_op_limit r -> out (do_line e (LDir d toks)) r = Some t ->
  let r' := run (do_line e (LDir d toks)) r in
  let c := core (enter d toks r) in
  t = [] /\ 0 < r_op_limit r' /\
  core r' = core_step (event_of e d (enter d toks r)) (type_of d) (guard_of e d (enter d toks r)) c.
Proof using Hcc.
  intros Hl. destruct (do_line_dir e d toks r) as [-> ->]. intros Ho.
  assert (r_op_limit (enter d toks r) = r_op_limit r) as El by (unfold enter; by destruct (opens d)).
  destruct (out (handler e d) (enter d toks r)) as [[]|] eqn:E; [|done].
  injection Ho as <-. destruct (handler_core e Hcc d (enter d toks r)) as [H1 H2]; [lia|done|].
  simpl. split; [done|]. split; [lia|done].
Qed.

Definition proj_frame (ifs : if_stack) : frame := (skip_elses ifs, was_skipping ifs).
Definition proj (r : reader) : cstate := (r_skipping r, map proj_frame (r_if_stack r)).

Lemma core_step_proj ev type guard c r r' : core r = c -> core r' = core_step ev type guard c ->
  (forall l, ev <> EvText l) -> ([], proj r') = cstep ev (proj r).
Proof.
  intros <-. unfold core, proj. destruct ev; simpl; intros H Ht; try (by destruct (Ht l)).
  - injection H as -> -> _ _. done.
  - destruct (r_if_stack r) as [|ifs rest]; simpl in *; [by injection H as -> -> _ _|].
    injection H as -> -> _ _. unfold proj_frame at 2. by destruct (skip_elses ifs).
  - destruct (r_if_stack r) as [|ifs rest]; simpl in *; injection H as -> -> _ _; done.
  - destruct (r_if_stack r) as [|ifs rest]; simpl in *; injection H as -> -> _ _; done.
Qed.

Lemma line_refines ln r t : 0 < r_op_limit r -> out (do_line e ln) r = Some t ->
  0 < r_op_limit (run (do_line e ln) r) /\
  (t, proj (run (do_line e ln) r)) = cstep (hd EvElse (events e [ln] r)) (proj r).
Proof using Hcc.
  intros Hl Ho. destruct ln as [d toks|l eff].
  - destruct (dir_core d toks r t Hl Ho) as (-> & Hl' & Hc). split; [done|].
    replace (proj r) with (proj (enter d toks r)) by (unfold enter; by destruct (opens d)).
    apply (core_step_proj _ _ _ _ (enter d toks r) _ eq_refl Hc). by destruct d.
  - revert Ho. simpl. unfold invalidate. step_run.
    destruct (r_skipping r) eqn:Es; simpl; intros [= <-]; (split; [done|]);
      unfold proj; step_run; simpl; by rewrite Es.
Qed.

Lemma lines_refine lns : forall r ts, 0 < r_op_limit r -> out (do_lines e lns) r = Some ts ->
  crun (events e lns r) (proj r) = (ts, proj (run (do_lines e lns) r)).
Proof using Hcc.
  induction lns as [|ln rest IH]; intros r ts Hl Ho.
  - injection Ho as <-. done.
  - apply do_lines_cons in Ho as (t1 & t2 & H1 & H2 & -> & ->).
    destruct (line_refines ln r t1 Hl H1) as [Hl' Hs]. simpl. simpl in Hs. rewrite <- Hs.
    by rewrite (IH _ _ Hl' H2).
Qed.
End files.

(** ** The include guard *)

Definition macro_defined (X : list byte) (r : reader) : bool :=
  let n := cpp_lookup X r in cpp_macro_p n && negb (flag (n_flags n) NODE_CONDITIONAL).

(** No guard can be found any more. *)
Definition dead (r : reader) : Prop :=
  (forall ifs, last (r_if_stack r) = Some ifs -> mi_cmacro' ifs = None) /\
  (r_if_stack r = [] -> r_mi_valid r = false).

Definition skipped_frame (ifs : if_stack) : Prop := skip_elses ifs = true /\ was_skipping ifs = true.

(** A first reading [r] of a file beside a second one [r'] that skips it: both
    are inside the section of the guard [X], or past its #endif. *)
Inductive phase (X : list byte) (r r' : reader) : Prop :=
  | phase_inside above ifs above' ifs' :
      r_if_stack r = above ++ [ifs] -> mi_cmacro' ifs = Some X ->
      r_if_stack r' = above' ++ [ifs'] -> length above' = length above ->
      Forall skipped_frame above' -> r_skipping r' = true ->
      phase X r r'
  | phase_done :
      r_if_stack r = [] -> r_mi_cmacro r = Some X -> phase X r r'.

Lemma core_inv r sk st mc mv : core r = (sk, st, mc, mv) ->
  r_skipping r = sk /\ r_if_stack r = st /\ r_mi_cmacro r = mc /\ r_mi_valid r = mv.
Proof. unfold core. by intros [= -> -> -> ->]. Qed.

Lemma core_enter d toks r :
  core (enter d toks r)
  = (r_skipping r, r_if_stack r, r_mi_cmacro r, if opens d then r_mi_valid r else false).
Proof. unfold enter. by destruct (opens d). Qed.

Lemma text_core e l eff r :
  core (run (do_line e (LText l eff)) r) = (r_skipping r, r_if_stack r, r_mi_cmacro r, false) /\
  r_op_limit (run (do_line e (LText l eff)) r) = r_op_limit r /\
  out (do_line e (LText l eff)) r = Some (if r_skipping r then [] else [l]).
Proof. simpl. unfold invalidate. step_run. by destruct (r_skipping r) eqn:Es; unfold core; step_run; simpl; rewrite ?Es. Qed.

(** A directive that is skipped evaluates nothing, so it returns. *)
Lemma opens_skipping e d toks r : opens d = true -> r_skipping r = true ->
  out (do_line e (LDir d toks)) r = Some [].
Proof.
  intros Ho Hs. rewrite (proj2 (do_line_dir e d toks r)). unfold enter. rewrite Ho.
  destruct d; try done; simpl handler; unfold do_if; step_run; simpl; by rewrite ?Hs; step_run.
Qed.

Lemma others_skipping e d toks r ifs rest :
  opens d = false -> r_if_stack r = ifs :: rest -> skip_elses ifs = true ->
  out (do_line e (LDir d toks)) r = Some [].
Proof.
  intros Ho Hs He. rewrite (proj2 (do_line_dir e d toks r)). unfold enter. rewrite Ho.
  destruct d; try done; simpl handler; unfold do_elif; step_run; try done.
  simpl. rewrite Hs. step_run. by rewrite He.
Qed.

Local Arguments do_line : simpl never.

Section guard.
Context (e : env) (Hcc : forall t, Forall not_ice (fst (e_charconst e t))).

Lemma last_cons_not_nil {A} (x y : A) l : l <> [] -> last (x :: l) = Some y -> last l = Some y.
Proof. by destruct l. Qed.

Lemma dead_line ln r t : dead r -> 0 < r_op_limit r -> out (do_line e ln) r = Some t ->
  dead (run (do_line e ln) r).
Proof using Hcc.
  intros [H1 H2] Hl Ho. destruct ln as [d toks|l eff].
  2: { destruct (text_core e l eff r) as [Hc _]. apply core_inv in Hc as (_ & Hs & _ & Hv).
       unfold dead. rewrite Hs, Hv. done. }
  destruct (dir_core e Hcc d toks r t Hl Ho) as (_ & _ & Hc). rewrite core_enter in Hc.
  unfold dead. destruct d; simpl in Hc.
  1-3: apply core_inv in Hc as (_ & Hs & _ & Hv); rewrite Hs; split; [|done];
    intros ifs; destruct (r_if_stack r) as [|f rest] eqn:E;
    [rewrite (H2 eq_refl); by intros [= <-]|intros Hlast; by apply H1; rewrite <- Hlast].
  all: destruct (r_if_stack r) as [|f rest] eqn:E;
    [apply core_inv in Hc as (_ & Hs & _ & Hv); rewrite Hs, Hv; done|].
  1-2: apply core_inv in Hc as (_ & Hs & _ & Hv); rewrite Hs; split; [|done];
    intros ifs; destruct rest; [by intros [= <-]|apply H1].
  apply core_inv in Hc as (_ & Hs & _ & Hv). rewrite Hs, Hv.
  destruct rest as [|f' rest]; [|split; [apply H1|done]].
  split; [done|]. by rewrite (H1 f eq_refl).
Qed.

Lemma done_line X ln r t : r_if_stack r = [] -> r_mi_cmacro r = Some X ->
  0 < r_op_limit r -> out (do_line e ln) r = Some t -> dead (run (do_line e ln) r).
Proof using Hcc.
  intros Hst Hcm Hl Ho. unfold dead. destruct ln as [d toks|l eff].
  2: { destruct (text_core e l eff r) as [Hc _]. apply core_inv in Hc as (_ & Hs & _ & Hv).
       by rewrite Hs, Hv, Hst. }
  destruct (dir_core e Hcc d toks r t Hl Ho) as (_ & _ & Hc). rewrite core_enter, Hst, Hcm in Hc.
  destruct d; simpl in Hc; apply core_inv in Hc as (_ & Hs & _ & Hv); rewrite Hs, ?Hv; try done.
  all: (split; [|done]); rewrite andb_false_r; by intros ? [= <-].
Qed.

(** An opening directive inside the guarded section. *)
Lemma inside_open X d toks r r' t above ifs above' ifs' :
  opens d = true ->
  r_if_stack r = above ++ [ifs] -> mi_cmacro' ifs = Some X ->
  r_if_stack r' = above' ++ [ifs'] -> length above' = length above ->
  Forall skipped_frame above' -> r_skipping r' = true ->
  0 < r_op_limit r -> 0 < r_op_limit r' -> out (do_line e (LDir d toks)) r = Some t ->
  phase X (run (do_line e (LDir d toks)) r) (run (do_line e (LDir d toks)) r') /\
  out (do_line e (LDir d toks)) r' = Some [].
Proof using Hcc.
  intros Hd Hst Hcm Hst' Hlen Hf Hsk Hl Hl' Ho.
  pose proof (opens_skipping e d toks r' Hd Hsk) as Ho'. split; [|done].
  destruct (dir_core e Hcc d toks r t Hl Ho) as (_ & _ & Hc).
  destruct (dir_core e Hcc d toks r' [] Hl' Ho') as (_ & _ & Hc').
  rewrite core_enter, Hst in Hc. rewrite core_enter, Hst', Hsk in Hc'.
  destruct d; try done; simpl in Hc, Hc';
    apply core_inv in Hc as (_ & Hs & _ & Hv), Hc' as (Hk & Hs' & _ & _);
    (eapply (phase_inside X _ _ (_ :: above) ifs (_ :: above') ifs');
      [exact Hs|done|exact Hs'|simpl; by f_equal|by constructor|done]).
Qed.

(** A directive on a nested section. *)
Lemma inside_above X d toks r r' t a above ifs a' above' ifs' :
  opens d = false ->
  r_if_stack r = (a :: above) ++ [ifs] -> mi_cmacro' ifs = Some X ->
  r_if_stack r' = (a' :: above') ++ [ifs'] -> skipped_frame a' ->
  Forall skipped_frame above' -> r_skipping r' = true ->
  0 < r_op_limit r -> 0 < r_op_limit r' -> out (do_line e (LDir d toks)) r = Some t ->
  length above' = length above ->
  phase X (run (do_line e (LDir d toks)) r) (run (do_line e (LDir d toks)) r') /\
  out (do_line e (LDir d toks)) r' = Some [].
Proof using Hcc.
  intros Hd Hst Hcm Hst' [Ha1 Ha2] Hf Hsk Hl Hl' Ho Hlen.
  pose proof (others_skipping e d toks r' a' _ Hd Hst' Ha1) as Ho'. split; [|done].
  destruct (dir_core e Hcc d toks r t Hl Ho) as (_ & _ & Hc).
  destruct (dir_core e Hcc d toks r' [] Hl' Ho') as (_ & _ & Hc').
  rewrite core_enter, Hst in Hc. rewrite core_enter, Hst', Hsk in Hc'.
  destruct d; try done; simpl in Hc, Hc'; rewrite ?Ha1, ?Ha2 in Hc'.
  1-2: apply core_inv in Hc as (_ & Hs & _ & Hv), Hc' as (Hk & Hs' & _ & _);
    (eapply (phase_inside X _ _ (_ :: above) ifs (_ :: above') ifs');
      [exact Hs|done|exact Hs'|simpl; by f_equal|by constructor|done]).
  apply core_inv in Hc as (_ & Hs & _ & Hv), Hc' as (Hk & Hs' & _ & _).
  by apply (phase_inside X _ _ above ifs above' ifs').
Qed.

(** A directive on the guarded section itself. *)
Lemma inside_bottom X d toks r r' t ifs ifs' :
  opens d = false ->
  r_if_stack r = [ifs] -> mi_cmacro' ifs = Some X -> r_if_stack r' = [ifs'] ->
  0 < r_op_limit r -> 0 < r_op_limit r' -> out (do_line e (LDir d toks)) r = Some t ->
  dead (run (do_line e (LDir d toks)) r) \/
  phase X (run (do_line e (LDir d toks)) r) (run (do_line e (LDir d toks)) r') /\
  out (do_line e (LDir d toks)) r' = Some [].
Proof using Hcc.
  intros Hd Hst Hcm Hst' Hl Hl' Ho.
  destruct (dir_core e Hcc d toks r t Hl Ho) as (_ & _ & Hc). rewrite core_enter, Hst in Hc.
  destruct d; try done; simpl in Hc.
  1-2: left; apply core_inv in Hc as (_ & Hs & _ & _); unfold dead; rewrite Hs;
    split; [by intros ? [= <-]|done].
  rewrite Hcm in Hc. apply core_inv in Hc as (_ & Hs & Hm & _).
  right. split; [by apply phase_done|].
  rewrite (proj2 (do_line_dir e D_ENDIF toks r')). simpl handler. by step_run.
Qed.

(** Both readings make the same line, unless it ends the search. *)
Lemma phase_line X ln r r' t :
  phase X r r' -> 0 < r_op_limit r -> 0 < r_op_limit r' -> out (do_line e ln) r = Some t ->
  dead (run (do_line e ln) r) \/
  (phase X (run (do_line e ln) r) (run (do_line e ln) r') /\ out (do_line e ln) r' = Some []).
Proof using Hcc.
  intros [above ifs above' ifs' Hst Hcm Hst' Hlen Hf Hsk|Hst Hcm] Hl Hl' Ho.
  2: { left. by apply (done_line X ln r t). }
  destruct ln as [d toks|l eff].
  2: { right. destruct (text_core e l eff r) as [Hc _]. destruct (text_core e l eff r') as (Hc' & _ & ->).
       rewrite Hsk. split; [|done].
       apply core_inv in Hc as (_ & Hs & _), Hc' as (Hk & Hs' & _). rewrite Hst in Hs. rewrite Hst' in Hs'.
       rewrite Hsk in Hk. by apply (phase_inside X _ _ above ifs above' ifs'). }
  destruct (opens d) eqn:Eo.
  { right. by apply (inside_open X d toks r r' t above ifs above' ifs'). }
  destruct above as [|a above], above' as [|a' above']; try done.
  - by apply (inside_bottom X d toks r r' t ifs ifs').
  - right. apply Forall_cons_1 in Hf as [Ha Hf].
    by apply (inside_above X d toks r r' t a above ifs a' above' ifs'); [..|injection Hlen].
Qed.

Lemma line_limit ln r t : 0 < r_op_limit r -> out (do_line e ln) r = Some t ->
  0 < r_op_limit (run (do_line e ln) r).
Proof using Hcc. intros Hl Ho. by destruct (line_refines e Hcc ln r t Hl Ho). Qed.

Lemma dead_lines lns : forall r ts, dead r -> 0 < r_op_limit r -> out (do_lines e lns) r = Some ts ->
  dead (run (do_lines e lns) r).
Proof using Hcc.
  induction lns as [|ln rest IH]; intros r ts Hd Hl Ho; [done|].
  apply do_lines_cons in Ho as (t1 & t2 & H1 & H2 & -> & ->).
  apply (IH _ t2); [by apply (dead_line ln r t1)|by apply (line_limit ln r t1)|done].
Qed.

Lemma phase_lines X lns : forall r r' ts,
  phase X r r' -> 0 < r_op_limit r -> 0 < r_op_limit r' -> out (do_lines e lns) r = Some ts ->
  dead (run (do_lines e lns) r) \/
  (phase X (run (do_lines e lns) r) (run (do_lines e lns) r') /\ out (do_lines e lns) r' = Some []).
Proof using Hcc.
  induction lns as [|ln rest IH]; intros r r' ts Hp Hl Hl' Ho; [by right|].
  apply do_lines_cons in Ho as (t1 & t2 & H1 & H2 & -> & ->).
  destruct (phase_line X ln r r' t1 Hp Hl Hl' H1) as [Hd|[Hp1 Ho']].
  { left. apply (dead_lines rest _ t2); [done|by apply (line_limit ln r t1)|done]. }
  pose proof (line_limit ln r t1 Hl H1) as Hl1. pose proof (line_limit ln r' [] Hl' Ho') as Hl1'.
  destruct (IH _ _ t2 Hp1 Hl1 Hl1' H2) as [Hd|[Hp2 Ho2]]; [by left|].
  right. simpl. step_run. rewrite Ho'. step_run. by rewrite Ho2.
Qed.

(** What #ifndef and #ifdef look up. *)
Lemma test_macro_eq r : out test_macro r =
  let name := t_text (out cpp_get_token r) in
  if type_is (out cpp_get_token r) CPP_NAME && negb (flag (n_flags (cpp_lookup name r)) NODE_POISONED)
  then Some (name, macro_defined name r) else None.
Proof.
  assert (forall name, cpp_lookup name (run cpp_get_token r) = cpp_lookup name r) as Hn.
  { intros name. unfold cpp_lookup, run, cpp_get_token. by destruct (r_stream r). }
  unfold test_macro, lex_macro_node, _cpp_lex_token. repeat (progress step_run).
  destruct (type_is (out cpp_get_token r) CPP_NAME).
  - cbn [andb]. repeat (progress step_run). rewrite Hn.
    destruct (flag _ NODE_POISONED); repeat (progress step_run); [done|].
    cbn [negb]. repeat (progress step_run). rewrite Hn. done.
  - destruct (flag _ NAMED_OP); [done|]. by destruct (type_is _ CPP_EOF).
Qed.

Lemma test_macro_name r X d : out test_macro r = Some (X, d) ->
  d = macro_defined X r /\
  forall r', r_stream r' = r_stream r ->
    out test_macro r' = None \/ out test_macro r' = Some (X, macro_defined X r').
Proof.
  rewrite test_macro_eq. simpl. destruct (type_is (out cpp_get_token r) CPP_NAME) eqn:Et; [|done].
  destruct (flag _ NODE_POISONED); [done|]. intros [= <- <-]. split; [done|]. intros r' Hr.
  assert (out cpp_get_token r' = out cpp_get_token r) as Ht.
  { unfold out, cpp_get_token. rewrite Hr. by destruct (r_stream r). }
  rewrite test_macro_eq, Ht, Et. simpl. destruct (flag _ NODE_POISONED); [by left|by right].
Qed.

(** The first line, when it is an #ifndef. *)
Lemma ifndef_start toks r t : at_start r -> out (do_line e (LDir D_IFNDEF toks)) r = Some t ->
  let m := out test_macro (enter D_IFNDEF toks r) in
  let r1 := run (do_line e (LDir D_IFNDEF toks)) r in
  let b := match m with Some (_, d) => negb d | None => false end in
  0 < r_op_limit r1 /\ core r1 = (negb b, [mk_ifs (option_map fst m) b false T_IFNDEF], None, true).
Proof using Hcc.
  intros [Hc Hl] Ho. destruct (dir_core e Hcc D_IFNDEF toks r t Hl Ho) as (_ & Hl' & Hc1).
  split; [done|]. rewrite core_enter in Hc1. apply core_inv in Hc as (H1 & H2 & H3 & H4).
  rewrite Hc1, H1, H2, H3, H4. simpl. rewrite H1, negb_involutive. done.
Qed.

Lemma ifndef_returns toks r : out (do_line e (LDir D_IFNDEF toks)) r = Some [].
Proof. rewrite (proj2 (do_line_dir e D_IFNDEF toks r)). simpl handler. by step_run. Qed.

(** The final state of a file whose guard was found is past the #endif. *)
Lemma found_phase X X' lns r r' ts : phase X' r r' -> 0 < r_op_limit r -> 0 < r_op_limit r' ->
  out (do_lines e lns) r = Some ts -> r_if_stack (run (do_lines e lns) r) = [] ->
  r_mi_valid (run (do_lines e lns) r) = true -> r_mi_cmacro (run (do_lines e lns) r) = Some X ->
  X' = X /\ out (do_lines e lns) r' = Some [].
Proof using Hcc.
  intros Hp Hl Hl' Ho Hs Hv Hm.
  destruct (phase_lines X' lns r r' ts Hp Hl Hl' Ho) as [[_ Hd]|[[a i ? ? Hst|_ Hm'] Ho']].
  - rewrite (Hd Hs) in Hv. done.
  - rewrite Hs in Hst. by destruct a.
  - split; [congruence|done].
Qed.

(** The shape of a file that is guarded: at [depth] sections inside the guarded
    one, which has one group only and ends with the file. *)
Fixpoint guarded (depth : nat) (lns : list line) : bool :=
  match lns with
  | [] => (depth =? 0)%nat
  | LText _ _ :: rest => guarded depth rest
  | LDir d _ :: rest =>
      if opens d then guarded (S depth) rest
      else match depth, d with
           | O, _ => false
           | S k, D_ENDIF => guarded k rest
           | S _, _ => guarded depth rest
           end
  end.

Lemma guarded_lines lns : forall r ts above ifs,
  r_if_stack r = above ++ [ifs] -> guarded (length above) lns = true ->
  0 < r_op_limit r -> out (do_lines e lns) r = Some ts ->
  r_if_stack (run (do_lines e lns) r) = [ifs] /\ 0 < r_op_limit (run (do_lines e lns) r).
Proof using Hcc.
  induction lns as [|ln rest IH]; intros r ts above ifs Hst Hg Hl Ho.
  { by destruct above. }
  apply do_lines_cons in Ho as (t1 & t2 & H1 & H2 & -> & ->).
  pose proof (line_limit ln r t1 Hl H1) as Hl1. destruct ln as [d toks|l eff].
  2: { destruct (text_core e l eff r) as [Hc _]. apply core_inv in Hc as (_ & Hs & _).
       rewrite Hst in Hs. by apply (IH _ t2 above). }
  destruct (dir_core e Hcc d toks r t1 Hl H1) as (_ & _ & Hc). rewrite core_enter, Hst in Hc.
  cbn [guarded] in Hg. destruct (opens d) eqn:Ed.
  { destruct d; try done; simpl in Hc; apply core_inv in Hc as (_ & Hs & _);
      (eapply (IH _ t2 (_ :: above)); [exact Hs|exact Hg|done|done]). }
  destruct above as [|a above]; [done|].
  destruct d; try done; simpl in Hc; apply core_inv in Hc as (_ & Hs & _).
  3: by apply (IH _ t2 above).
  all: (eapply (IH _ t2 (_ :: above)); [exact Hs|exact Hg|done|done]).
Qed.

Lemma do_lines_app a b : forall r ts, out (do_lines e (a ++ b)) r = Some ts ->
  exists t1 t2, out (do_lines e a) r = Some t1 /\
    out (do_lines e b) (run (do_lines e a) r) = Some t2 /\
    run (do_lines e (a ++ b)) r = run (do_lines e b) (run (do_lines e a) r).
Proof.
  induction a as [|ln a IH]; intros r ts Ho; [by exists [], ts|].
  apply do_lines_cons in Ho as (t1 & t2 & H1 & H2 & -> & Hr).
  destruct (IH _ _ H2) as (t3 & t4 & H3 & H4 & H5).
  exists (t1 ++ t3), t4. split; [|split].
  - simpl. step_run. rewrite H1. step_run. by rewrite H3.
  - simpl. step_run. rewrite H1. step_run. done.
  - etransitivity; [exact Hr|]. etransitivity; [exact H5|]. simpl. step_run. rewrite H1. by step_run.
Qed.
End guard.

(** ** Results on conditional groups *)

(** C18: of each section of a file, in any nesting, the lines executed are those
    of the first group whose condition holds, or of the #else group when none
    does, and only when the section itself is in a group that is executed;
    after a complete section the skipping flag and the open sections are as
    before it. [events] gives each condition the value the handler computed
    when the line was reached. *)
Theorem conditional_groups (e : env) (lns : list line) (r : reader) (ts : list nat) (f : items) :
  (forall t, Forall not_ice (fst (e_charconst e t))) -> 0 < r_op_limit r ->
  out (do_lines e lns) r = Some ts -> events e lns r = item_events f ->
  ts = item_text (negb (r_skipping r)) f /\ proj (run (do_lines e lns) r) = proj r.
Proof.
  intros Hcc Hl Ho He. pose proof (lines_refine e Hcc lns r ts Hl Ho) as H.
  rewrite He in H. unfold proj at 1 in H. rewrite (proj1 crun_items_groups) in H.
  split; [exact (eq_sym (f_equal fst H))|exact (eq_sym (f_equal snd H))].
Qed.

Definition sample_env : env :=
  mk_env gnuc17_options (fun _ => mret (0, false)) false (fun _ _ _ => false).

(** #ifdef A / 1 / #elif 0 / 2 / #else / 3 / #ifndef A / 4 / #endif / #endif *)
Definition sample_lines : list line :=
  [LDir D_IFDEF [name_token "A"]; LText 1 id; LDir D_ELIF [tok CPP_NUMBER "0"]; LText 2 id;
   LDir D_ELSE []; LText 3 id; LDir D_IFNDEF [name_token "A"]; LText 4 id; LDir D_ENDIF []; LDir D_ENDIF []].

Lemma conditional_groups_witness :
  out (do_lines sample_env sample_lines) (fresh_reader [] ∅) = Some [3; 4]%nat /\
  [3; 4]%nat = item_text true
    (ISection false (IText 1 INil) (GElif false (IText 2 INil)
      (GElse (IText 3 (ISection true (IText 4 INil) GEndif INil)))) INil).
Proof.
  split; [vm_compute; reflexivity|].
  apply (conditional_groups sample_env sample_lines (fresh_reader [] ∅)); [|by vm_compute..].
  intros t. constructor.
Defined.


(** #ifndef A / 1 (defines A) / #ifdef B / #else / 2 / #endif / #endif *)
Definition sample_header : list line :=
  [LDir D_IFNDEF [name_token "A"];
   LText 1 (fun m => <[bytes "A" := mk_node NT_USER_MACRO 0 [] false]> m);
   LDir D_IFDEF [name_token "B"]; LDir D_ELSE []; LText 2 id; LDir D_ENDIF []; LDir D_ENDIF []].


(** A guarded file is recognised: when a file is one #ifndef section, with
    sections nested in it but no #else or #elif of its own, and nothing before
    or after, then its macro is recorded as the file's guard. *)
Theorem include_guard_found (e : env) (X : list byte) (toks toks' : list cpp_token)
  (body : list line) (r : reader) (ts : list nat) (d : bool) :
  (forall t, Forall not_ice (fst (e_charconst e t))) ->
  let file := LDir D_IFNDEF toks :: body ++ [LDir D_ENDIF toks'] in
  at_start r -> out test_macro (enter D_IFNDEF toks r) = Some (X, d) ->
  guarded 0 body = true -> out (do_lines e file) r = Some ts ->
  core (run (do_lines e file) r) = (false, [], Some X, true).
Proof.
  intros Hcc file Hr Ht Hg Ho. unfold file in *.
  apply do_lines_cons in Ho as (t1 & t2 & H1 & H2 & -> & ->).
  destruct (ifndef_start e Hcc toks r t1 Hr H1) as [Hl1 Hc1]. rewrite Ht in Hc1.
  apply core_inv in Hc1 as (_ & Hst1 & _).
  apply do_lines_app in H2 as (t3 & t4 & H3 & H4 & ->).
  destruct (guarded_lines e Hcc body _ t3 [] _ Hst1 Hg Hl1 H3) as [Hst2 Hl2].
  apply do_lines_cons in H4 as (t5 & t6 & H5 & H6 & -> & ->).
  destruct (dir_core e Hcc D_ENDIF toks' _ t5 Hl2 H5) as (_ & _ & Hc).
  rewrite core_enter, Hst2 in Hc. exact Hc.
Qed.

Lemma include_guard_found_witness :
  core (run (do_lines sample_env sample_header) (fresh_reader [] ∅))
  = (false, [], Some (bytes "A"), true).
Proof.
  apply (include_guard_found sample_env (bytes "A") [name_token "A"] []
           [LText 1 (fun m => <[bytes "A" := mk_node NT_USER_MACRO 0 [] false]> m);
            LDir D_IFDEF [name_token "B"]; LDir D_ELSE []; LText 2 id; LDir D_ENDIF []]
           (fresh_reader [] ∅) [1; 2]%nat false); [intros t; constructor|by vm_compute..].
Defined.
