(* ===== verification/Utf.v ===== *)
(** * Conversions between UTF-8, UTF-16 and UTF-32 (libcpp/charset.c)

    The converters of one character, the loop that converts a string into a
    growing buffer, and what they implement: each encoding is a code given by
    the table at the head of charset.c, and a converted string is the same
    sequence of characters in the other code. *)

From Stdlib Require Import ZArith Lia Bool.
From stdpp Require Import base tactics list numbers.
From S2P Require Import Prelude.

Local Open Scope Z_scope.

(** ** The converters of one character *)

(** The errors, and the outcome of converting a character: the input left and
    the bytes written.  [Wild] is an access outside an array. *)
Inductive errno : Type := EILSEQ | EINVAL | E2BIG.

Inductive conv (A : Type) : Type :=
  | Conv (rest : list byte) (x : A)
  | Fail (err : errno)
  | Wild.
Arguments Conv {A} _ _.
Arguments Fail {A} _.
Arguments Wild {A}.

Definition utf8_masks : list Z := [0x7F; 0x1F; 0x0F; 0x07; 0x03; 0x01].
Definition utf8_patns : list Z := [0x00; 0xC0; 0xE0; 0xF0; 0xF8; 0xFC].
Definition utf8_limits : list Z := [0x80; 0xE0; 0xF0; 0xF8; 0xFC; 0xFE].

(** The number of bytes of a sequence, from its first byte: the search for
    the pattern, from [nbytes] on. *)
Fixpoint utf8_length (c : Z) (nbytes : nat) (tries : nat) : option nat :=
  match tries with
  | O => None
  | S tries =>
      if Z.land c (Z.lnot (nth (nbytes - 1) utf8_masks 0)) =? nth (nbytes - 1) utf8_patns 0
      then Some nbytes
      else utf8_length c (S nbytes) tries
  end.

(** The continuation bytes. *)
Fixpoint utf8_conts (k : nat) (c : Z) (inbuf : list byte) : conv Z :=
  match k with
  | O => Conv inbuf c
  | S k =>
      match inbuf with
      | [] => Wild
      | n :: inbuf =>
          if negb (Z.land n 0xC0 =? 0x80) then Fail EILSEQ
          else utf8_conts k (u32 (u32 (Z.shiftl c 6) + Z.land n 0x3F)) inbuf
      end
  end.

(** "Make sure the shortest possible encoding was used", and a valid
    character. *)
Definition utf8_invalid (c : Z) (nbytes : nat) : bool :=
  ((c <=? 0x7F) && (1 <? nbytes)%nat) || ((c <=? 0x7FF) && (2 <? nbytes)%nat)
  || ((c <=? 0xFFFF) && (3 <? nbytes)%nat) || ((c <=? 0x1FFFFF) && (4 <? nbytes)%nat)
  || ((c <=? 0x3FFFFFF) && (5 <? nbytes)%nat)
  || ((0x7FFFFFFF <? c) || ((0xD800 <=? c) && (c <=? 0xDFFF))).

Definition one_utf8_to_cppchar (inbuf : list byte) : conv Z :=
  match inbuf with
  | [] => Fail EINVAL
  | c :: inbuf' =>
      if c <? 0x80 then Conv inbuf' c
      else
        match utf8_length c 2 5 with
        | None => Fail EILSEQ
        | Some nbytes =>
            if (length inbuf <? nbytes)%nat then Fail EINVAL
            else
              match utf8_conts (nbytes - 1) (Z.land c (nth (nbytes - 1) utf8_masks 0)) inbuf' with
              | Conv rest c => if utf8_invalid c nbytes then Fail EILSEQ else Conv rest c
              | Fail e => Fail e
              | Wild => Wild
              end
        end
  end.

(** The loop that stores the bytes of a character from the last to the second,
    in a buffer with [room] places left before it; then the first byte. *)
Fixpoint utf8_store (room : nat) (c : Z) (nbytes : nat) (p : list byte) : option (list byte) :=
  match room with
  | O => None
  | S room =>
      let p := Z.lor (Z.land c 0x3F) 0x80 :: p in
      let c := Z.shiftr c 6 in
      let nbytes := S nbytes in
      match nth_error utf8_limits (nbytes - 1), nth_error utf8_patns (nbytes - 1), room with
      | Some limit, Some mask, S _ =>
          if (0x3F <=? c) || negb (Z.land c limit =? 0) then utf8_store room c nbytes p
          else Some (u8 (Z.lor c mask) :: p)
      | _, _, _ => None
      end
  end.

(** [Conv [] out] when there is room for the bytes. *)
Definition one_cppchar_to_utf8 (c : Z) (outbytesleft : Z) : conv (list byte) :=
  match (if c <? 0x80 then Some [c] else utf8_store 6 c 1 []) with
  | None => Wild
  | Some p => if outbytesleft <? Z.of_nat (length p) then Fail E2BIG else Conv [] p
  end.

(** The two- and four-byte numbers, in either order. *)
Definition put2 (bigend : bool) (s : Z) : list byte :=
  let lo := Z.land s 0xFF in let hi := Z.shiftr (Z.land s 0xFF00) 8 in
  if bigend then [hi; lo] else [lo; hi].

Definition put4 (bigend : bool) (s : Z) : list byte :=
  let b0 := Z.land s 0xFF in
  let b1 := Z.shiftr (Z.land s 0xFF00) 8 in
  let b2 := Z.shiftr (Z.land s 0xFF0000) 16 in
  let b3 := Z.shiftr (Z.land s 0xFF000000) 24 in
  if bigend then [b3; b2; b1; b0] else [b0; b1; b2; b3].

Definition get2 (bigend : bool) (x y : byte) : Z :=
  if bigend then Z.shiftl x 8 + y else Z.shiftl y 8 + x.

Definition get4 (bigend : bool) (x y z w : byte) : Z :=
  if bigend then u32 (u32 (Z.shiftl x 24) + Z.shiftl y 16 + Z.shiftl z 8 + w)
  else u32 (u32 (Z.shiftl w 24) + Z.shiftl z 16 + Z.shiftl y 8 + x).

Definition one_utf8_to_utf32 (bigend : bool) (inbuf : list byte) (outbytesleft : Z)
  : conv (list byte) :=
  if outbytesleft <? 4 then Fail E2BIG
  else
    match one_utf8_to_cppchar inbuf with
    | Conv rest s => Conv rest (put4 bigend s)
    | Fail e => Fail e
    | Wild => Wild
    end.

Definition one_utf32_to_utf8 (bigend : bool) (inbuf : list byte) (outbytesleft : Z)
  : conv (list byte) :=
  match inbuf with
  | x :: y :: z :: w :: rest =>
      let s := get4 bigend x y z w in
      if (0x7FFFFFFF <=? s) || ((0xD800 <=? s) && (s <=? 0xDFFF)) then Fail EILSEQ
      else
        match one_cppchar_to_utf8 s outbytesleft with
        | Conv _ out => Conv rest out
        | Fail e => Fail e
        | Wild => Wild
        end
  | _ => Fail EINVAL
  end.

Definition one_utf8_to_utf16 (bigend : bool) (inbuf : list byte) (outbytesleft : Z)
  : conv (list byte) :=
  match one_utf8_to_cppchar inbuf with
  | Conv rest s =>
      if 0x10FFFF <? s then Fail EILSEQ
      else if s <=? 0xFFFF then
        if outbytesleft <? 2 then Fail E2BIG else Conv rest (put2 bigend s)
      else if outbytesleft <? 4 then Fail E2BIG
      else
        let hi := (s - 0x10000) / 0x400 + 0xD800 in
        let lo := (s - 0x10000) mod 0x400 + 0xDC00 in
        Conv rest (put2 bigend hi ++ put2 bigend lo)
  | Fail e => Fail e
  | Wild => Wild
  end.

Definition one_utf16_to_utf8 (bigend : bool) (inbuf : list byte) (outbytesleft : Z)
  : conv (list byte) :=
  match inbuf with
  | x :: y :: rest2 =>
      let s := get2 bigend x y in
      if (0xDC00 <=? s) && (s <=? 0xDFFF) then Fail EILSEQ
      else
        match
          if (0xD800 <=? s) && (s <=? 0xDBFF) then
            match rest2 with
            | z :: w :: _ =>
                let lo := get2 bigend z w in
                if (lo <? 0xDC00) || (0xDFFF <? lo) then Fail EILSEQ
                else Conv [] ((s - 0xD800) * 0x400 + (lo - 0xDC00) + 0x10000)
            | _ => Fail EINVAL
            end
          else Conv [] s
        with
        | Conv _ s =>
            match one_cppchar_to_utf8 s outbytesleft with
            | Conv _ out => Conv (if s <=? 0xFFFF then rest2 else drop 2 rest2) out
            | Fail e => Fail e
            | Wild => Wild
            end
        | Fail e => Fail e
        | Wild => Wild
        end
  | _ => Fail EINVAL
  end.

(** ** The conversion of a string *)

(** The string buffer: the text up to [len], and the allocated size. *)
Record strbuf : Type := mk_strbuf { sb_text : list byte; sb_asize : Z }.

Definition sb_len (b : strbuf) : Z := Z.of_nat (length (sb_text b)).

Definition OUTBUF_BLOCK_SIZE : Z := 256.

Inductive loop_result : Type :=
  | LDone (to : strbuf)
  | LFail (err : errno) (to : strbuf)
  | LWild
  | LFuel.

Section loop.
Variable one_conversion : list byte -> Z -> conv (list byte).

(** The loops, with what has been written: a round converts a character or
    extends the buffer. On an error the length of the buffer is as before. *)
Fixpoint conversion_rounds (fuel : nat) (inbuf : list byte) (to : strbuf) (written : list byte)
    (outbytesleft asize : Z) : loop_result :=
  match fuel with
  | O => LFuel
  | S fuel =>
      match one_conversion inbuf outbytesleft with
      | Wild => LWild
      | Conv [] out => LDone (mk_strbuf (sb_text to ++ written ++ out) asize)
      | Conv rest out =>
          conversion_rounds fuel rest to (written ++ out) (outbytesleft - Z.of_nat (length out)) asize
      | Fail err =>
          match inbuf, err with
          | [], _ => LDone (mk_strbuf (sb_text to ++ written) asize)
          | _, E2BIG =>
              conversion_rounds fuel inbuf to written (outbytesleft + OUTBUF_BLOCK_SIZE)
                (asize + OUTBUF_BLOCK_SIZE)
          | _, _ => LFail err (mk_strbuf (sb_text to) asize)
          end
      end
  end.

(** A character takes at most two rounds. *)
Definition conversion_loop (from : list byte) (to : strbuf) : loop_result :=
  conversion_rounds (2 * length from + 2) from to [] (sb_asize to - sb_len to) (sb_asize to).
End loop.

Definition convert_utf8_utf16 (bigend : bool) := conversion_loop (one_utf8_to_utf16 bigend).
Definition convert_utf8_utf32 (bigend : bool) := conversion_loop (one_utf8_to_utf32 bigend).
Definition convert_utf16_utf8 (bigend : bool) := conversion_loop (one_utf16_to_utf8 bigend).
Definition convert_utf32_utf8 (bigend : bool) := conversion_loop (one_utf32_to_utf8 bigend).

(** ** The codes *)

(** The characters: no surrogates. *)
Definition valid_char (c : Z) : Prop := 0 <= c <= 0x7FFFFFFF /\ ~ (0xD800 <= c <= 0xDFFF).

(** The number of continuation bytes, by the ranges of the table. *)
Definition extra (c : Z) : nat :=
  if c <? 0x80 then 0 else if c <? 0x800 then 1 else if c <? 0x10000 then 2
  else if c <? 0x200000 then 3 else if c <? 0x4000000 then 4 else 5.

(** The last [k] bytes of a sequence: six bits each. *)
Fixpoint conts (k : nat) (c : Z) : list byte :=
  match k with
  | O => []
  | S k => 0x80 + (c / 64 ^ Z.of_nat k) mod 64 :: conts k c
  end.

Definition lead (k : nat) : Z := nth k [0x00; 0xC0; 0xE0; 0xF0; 0xF8; 0xFC] 0.

Definition utf8 (c : Z) : list byte :=
  lead (extra c) + c / 64 ^ Z.of_nat (extra c) :: conts (extra c) c.

Definition unit16 (bigend : bool) (x : Z) : list byte :=
  if bigend then [x / 256; x mod 256] else [x mod 256; x / 256].

Definition utf16 (bigend : bool) (c : Z) : list byte :=
  if c <=? 0xFFFF then unit16 bigend c
  else unit16 bigend ((c - 0x10000) / 0x400 + 0xD800)
       ++ unit16 bigend ((c - 0x10000) mod 0x400 + 0xDC00).

Definition utf32 (bigend : bool) (c : Z) : list byte :=
  let bs := [c / 2 ^ 24; c / 2 ^ 16 mod 256; c / 2 ^ 8 mod 256; c mod 256] in
  if bigend then bs else rev bs.

(** ** One character *)

Lemma conts_length k c : length (conts k c) = k.
Proof. induction k; simpl; lia. Qed.

Lemma extra_small c : c < 0x80 -> extra c = 0%nat.
Proof. intros H. unfold extra. by rewrite (proj2 (Z.ltb_lt c 0x80) H). Qed.

Lemma utf8_length_eq c : length (utf8 c) = S (extra c).
Proof. simpl. by rewrite conts_length. Qed.

Lemma extra_le c : (extra c <= 5)%nat.
Proof. unfold extra. repeat case_match; lia. Qed.

(** The range of a character, by its length. *)
Lemma extra_range c k : 0 <= c <= 0x7FFFFFFF -> (1 <= k <= 5)%nat ->
  extra c = k <-> 2 ^ (5 * Z.of_nat k + (if (k =? 1)%nat then 2 else 1)) <= c < 2 ^ (5 * Z.of_nat k + 6).
Proof.
  intros Hc Hk. unfold extra.
  destruct k as [|[|[|[|[|[|k]]]]]]; try lia; simpl; bsplit; lia.
Qed.

(** The tests on single bytes. *)
Lemma cont_byte n : is_byte n ->
  (Z.land n 0xC0 =? 0x80) = ((0x80 <=? n) && (n <? 0xC0)) /\
  (0x80 <= n < 0xC0 -> Z.land n 0x3F = n - 0x80).
Proof.
  intros Hn.
  pose proof (range_check 256 (fun n => Bool.eqb (Z.land n 0xC0 =? 0x80) ((0x80 <=? n) && (n <? 0xC0))
    && (negb ((0x80 <=? n) && (n <? 0xC0)) || (Z.land n 0x3F =? n - 0x80))) eq_refl n Hn) as H.
  apply andb_true_iff in H as [H1 H2]. apply Bool.eqb_prop in H1. split; [done|].
  intros [H3 H4]. apply Z.leb_le in H3. apply Z.ltb_lt in H4. rewrite H3, H4 in H2. by apply Z.eqb_eq.
Qed.

Definition lead_length (c : Z) : option nat :=
  if c <? 0xC0 then None else if c <? 0xE0 then Some 2%nat else if c <? 0xF0 then Some 3%nat
  else if c <? 0xF8 then Some 4%nat else if c <? 0xFC then Some 5%nat
  else if c <? 0xFE then Some 6%nat else None.

Lemma lead_byte c : is_byte c -> 0x80 <= c ->
  utf8_length c 2 5 = lead_length c /\
  forall n, lead_length c = Some n -> Z.land c (nth (n - 1) utf8_masks 0) = c - lead (n - 1).
Proof.
  intros Hc Hl.
  pose proof (range_check 256 (fun c => (c <? 0x80) ||
    match utf8_length c 2 5, lead_length c with
    | Some a, Some b => (a =? b)%nat && (Z.land c (nth (b - 1) utf8_masks 0) =? c - lead (b - 1))
    | None, None => true
    | _, _ => false
    end) eq_refl c Hc) as H.
  cbv beta in H. apply Z.ltb_ge in Hl. rewrite Hl, orb_false_l in H.
  destruct (utf8_length c 2 5) as [a|], (lead_length c) as [b|]; try done.
  apply andb_true_iff in H as [H1 H2]. apply Nat.eqb_eq in H1 as ->. split; [done|].
  intros n [= <-]. by apply Z.eqb_eq.
Qed.

Lemma pow64_succ k : 64 ^ Z.of_nat (S k) = 64 * 64 ^ Z.of_nat k.
Proof. rewrite Nat2Z.inj_succ. apply Z.pow_succ_r. lia. Qed.

Lemma pow64_pos k : 0 < 64 ^ Z.of_nat k.
Proof. apply Z.pow_pos_nonneg; lia. Qed.

Lemma div_pow64_succ c k : c / 64 ^ Z.of_nat (S k) = c / 64 ^ Z.of_nat k / 64.
Proof. rewrite pow64_succ, Z.mul_comm. pose proof (pow64_pos k). by rewrite Z.div_div by lia. Qed.

(** The decoding of the continuation bytes. *)
Lemma conts_decode k : forall acc inp, 0 <= acc -> (acc + 1) * 64 ^ Z.of_nat k <= 2 ^ 32 ->
  Forall is_byte inp -> (k <= length inp)%nat ->
  match utf8_conts k acc inp with
  | Conv rest c => inp = conts k c ++ rest /\ c / 64 ^ Z.of_nat k = acc
  | Fail e => e = EILSEQ /\ forall c rest, inp <> conts k c ++ rest
  | Wild => False
  end.
Proof.
  induction k as [|k IH]; intros acc inp Ha Hb Hf Hl.
  { simpl. by rewrite Z.div_1_r. }
  destruct inp as [|n inp]; [simpl in Hl; lia|]. apply Forall_cons_1 in Hf as [Hn Hf].
  destruct (cont_byte n Hn) as [H1 H2]. cbn [utf8_conts]. rewrite H1.
  destruct (Z.leb_spec 0x80 n), (Z.ltb_spec n 0xC0); cbn [andb negb].
  2-4: split; [done|]; intros c rest [= E _];
    pose proof (Z.mod_pos_bound (c / 64 ^ Z.of_nat k) 64 ltac:(lia)); lia.
  rewrite H2 by lia. rewrite pow64_succ in Hb. pose proof (pow64_pos k) as Hp.
  assert (acc * 64 + 64 <= 2 ^ 32) by nia.
  rewrite Z.shiftl_mul_pow2 by lia. change (2 ^ 6) with 64.
  unfold u32. rewrite (wrapu_small 32 (acc * 64)), wrapu_small by lia.
  specialize (IH (acc * 64 + (n - 0x80)) inp ltac:(lia) ltac:(nia) Hf ltac:(simpl in Hl; lia)).
  destruct (utf8_conts k _ inp) as [rest c|e|]; [| |done].
  - destruct IH as [-> Hc]. rewrite div_pow64_succ. cbn [conts]. rewrite Hc. split.
    + simpl. f_equal. rewrite mod_parts by lia. lia.
    + apply div_parts. lia.
  - destruct IH as [-> IH]. split; [done|]. intros c rest [= _ E]. by apply (IH c rest).
Qed.

Lemma conts_inj k : forall c c' r r', conts k c ++ r = conts k c' ++ r' ->
  c / 64 ^ Z.of_nat k = c' / 64 ^ Z.of_nat k -> c = c' /\ r = r'.
Proof.
  induction k as [|k IH]; intros c c' r r'.
  { simpl. rewrite !Z.div_1_r. done. }
  cbn [conts]. rewrite !div_pow64_succ. intros [= E1 E2] H. apply IH in E2; [done|].
  rewrite (Z.div_mod (c / 64 ^ Z.of_nat k) 64), (Z.div_mod (c' / 64 ^ Z.of_nat k) 64) by lia. lia.
Qed.

(** The first byte of a sequence tells its length. *)
Lemma utf8_lead c : 0 <= c <= 0x7FFFFFFF -> 0x80 <= c ->
  let k := extra c in let b := lead k + c / 64 ^ Z.of_nat k in
  (1 <= k)%nat /\ lead_length b = Some (S k) /\ 0x80 <= b < 256.
Proof.
  intros Hc Hl. unfold extra, lead_length.
  destruct (Z.ltb_spec c 0x80); [lia|].
  destruct (Z.ltb_spec c 0x800); [|destruct (Z.ltb_spec c 0x10000); [|destruct (Z.ltb_spec c 0x200000);
    [|destruct (Z.ltb_spec c 0x4000000)]]]; cbn [lead nth];
    match goal with |- context [c / ?p] =>
      let v := eval vm_compute in p in change p with v;
      pose proof (Z.div_mod c v ltac:(lia)); pose proof (Z.mod_pos_bound c v ltac:(lia)) end;
    (split; [lia|split; [|lia]]); bsplit; lia || done.
Qed.

Lemma lead_length_inv b n : 0x80 <= b < 256 -> lead_length b = Some n ->
  exists k, n = S k /\ (1 <= k <= 5)%nat /\ 0 <= b - lead k /\
    (b - lead k + 1) * 64 ^ Z.of_nat k <= 2 ^ (5 * Z.of_nat k + 6).
Proof.
  intros Hb. unfold lead_length.
  bsplit; intros E; try discriminate E; try lia; injection E as <-;
    eexists; (split; [reflexivity|]); cbn [lead nth]; (split; [lia|]); (split; [lia|]);
    match goal with |- _ * ?p <= ?q => let v := eval vm_compute in p in let w := eval vm_compute in q in
      change p with v; change q with w end; lia.
Qed.

(** The checks after decoding leave the characters of exactly that length. *)
Lemma utf8_invalid_spec c k : (1 <= k <= 5)%nat -> 0 <= c < 2 ^ (5 * Z.of_nat k + 6) ->
  utf8_invalid c (S k) = false <-> valid_char c /\ extra c = k.
Proof.
  intros Hk Hc. unfold utf8_invalid, valid_char, extra.
  destruct k as [|[|[|[|[|[|k]]]]]]; try lia; simpl in Hc; simpl Nat.ltb;
    rewrite ?andb_true_r, ?andb_false_r, ?orb_false_l, ?orb_false_r, ?orb_false_iff, ?andb_false_iff,
      ?Z.leb_gt, ?Z.ltb_ge; bsplit; lia.
Qed.

Lemma utf8_decode_spec inp : Forall is_byte inp ->
  match one_utf8_to_cppchar inp with
  | Conv rest c => valid_char c /\ inp = utf8 c ++ rest
  | Fail e => e <> E2BIG /\ forall c rest, valid_char c -> inp <> utf8 c ++ rest
  | Wild => False
  end.
Proof.
  intros Hf. destruct inp as [|b inp]; [by split|]. pose proof Hf as Hf0.
  apply Forall_cons_1 in Hf0 as [Hb Hf']. cbn [one_utf8_to_cppchar].
  destruct (Z.ltb_spec b 0x80) as [Hs|Hs].
  { unfold valid_char, utf8, extra. unfold is_byte in Hb.
    rewrite (proj2 (Z.ltb_lt b 0x80) Hs). cbn. rewrite Z.div_1_r. split; [lia|done]. }
  destruct (lead_byte b Hb Hs) as [-> Hm].
  assert (forall c rest, valid_char c -> b :: inp = utf8 c ++ rest ->
    lead_length b = Some (S (extra c)) /\ (1 <= extra c <= 5)%nat /\
    b - lead (extra c) = c / 64 ^ Z.of_nat (extra c) /\ inp = conts (extra c) c ++ rest) as Hback.
  { intros c rest [Hv _] [= Eb Ei]. destruct (Z.ltb_spec c 0x80) as [Hc|Hc].
    - unfold extra in Eb. rewrite (proj2 (Z.ltb_lt c 0x80) Hc) in Eb. cbn in Eb. rewrite Z.div_1_r in Eb. lia.
    - destruct (utf8_lead c Hv Hc) as (Hk & Hl & _). pose proof (extra_le c).
      rewrite Eb. repeat split; try done; lia. }
  destruct (lead_length b) as [n|] eqn:El.
  2: { split; [done|]. intros c rest Hv E. by destruct (Hback c rest Hv E). }
  destruct (lead_length_inv b n ltac:(unfold is_byte in Hb; lia) El) as (k & -> & Hk & Hacc & Hmax).
  destruct (Nat.ltb_spec (length (b :: inp)) (S k)) as [Hlen|Hlen].
  { split; [done|]. intros c rest Hv E. destruct (Hback c rest Hv E) as ([= ->] & _).
    rewrite E, length_app, utf8_length_eq in Hlen. lia. }
  rewrite (Hm (S k) eq_refl). replace (S k - 1)%nat with k by lia.
  assert (2 ^ (5 * Z.of_nat k + 6) <= 2 ^ 32) by (apply Z.pow_le_mono_r; lia).
  pose proof (conts_decode k (b - lead k) inp Hacc ltac:(lia) Hf' ltac:(simpl in Hlen; lia)) as Hd.
  destruct (utf8_conts k (b - lead k) inp) as [rest c|e|]; [| |done].
  - destruct Hd as [-> Hc]. pose proof (pow64_pos k) as Hp.
    assert (0 <= c < 2 ^ (5 * Z.of_nat k + 6)) as Hr.
    { pose proof (Z.div_mod c (64 ^ Z.of_nat k) ltac:(lia)).
      pose proof (Z.mod_pos_bound c (64 ^ Z.of_nat k) Hp). nia. }
    destruct (utf8_invalid c (S k)) eqn:Ei.
    + split; [done|]. intros c' rest' Hv E. destruct (Hback c' rest' Hv E) as ([= Ek] & _ & Hq & Ei').
      rewrite <- Ek in Hq, Ei'. apply conts_inj in Ei' as [-> ->]; [|lia].
      rewrite (proj2 (utf8_invalid_spec c' k Hk Hr)) in Ei; [done|by split].
    + apply utf8_invalid_spec in Ei as [Hv <-]; [|done..]. split; [done|].
      unfold utf8. simpl. f_equal. rewrite Hc. lia.
  - destruct Hd as [-> Hd]. split; [done|]. intros c rest Hv E.
    destruct (Hback c rest Hv E) as ([= ->] & _ & _ & E'). by apply (Hd c rest).
Qed.

(** The encoder. *)
Lemma store_byte x : 0 <= x -> Z.lor (Z.land x 0x3F) 0x80 = 0x80 + x mod 64.
Proof.
  intros Hx. change 0x3F with (2 ^ 6 - 1). rewrite land_mask by lia. change (2 ^ 6) with 64.
  pose proof (range_check 64 (fun y => Z.lor y 0x80 =? 0x80 + y) eq_refl (x mod 64)) as H.
  apply Z.eqb_eq, H. apply Z.mod_pos_bound. lia.
Qed.

Lemma limit_check x k : 0 <= x -> (1 <= k <= 5)%nat ->
  ((0x3F <=? x) || negb (Z.land x (nth k utf8_limits 0) =? 0)) = negb (x <? 2 ^ (6 - Z.of_nat k)) /\
  (x < 2 ^ (6 - Z.of_nat k) -> u8 (Z.lor x (nth k utf8_patns 0)) = lead k + x).
Proof.
  intros Hx Hk. destruct (Z.leb_spec 64 x) as [Hl|Hl].
  - assert (2 ^ (6 - Z.of_nat k) <= 2 ^ 5) by (apply Z.pow_le_mono_r; lia).
    rewrite (proj2 (Z.leb_le 0x3F x)), (proj2 (Z.ltb_ge x _)) by lia. split; [done|lia].
  - pose proof (range_check 64 (fun x => forallb (fun k =>
      Bool.eqb ((0x3F <=? x) || negb (Z.land x (nth k utf8_limits 0) =? 0)) (negb (x <? 2 ^ (6 - Z.of_nat k)))
      && (negb (x <? 2 ^ (6 - Z.of_nat k)) || (u8 (Z.lor x (nth k utf8_patns 0)) =? lead k + x)))
      [1; 2; 3; 4; 5]%nat) eq_refl x ltac:(lia)) as H.
    rewrite forallb_forall in H. specialize (H k).
    assert (In k [1; 2; 3; 4; 5]%nat) as Hin by (simpl; lia).
    apply H, andb_true_iff in Hin as [H1 H2]. apply Bool.eqb_prop in H1. split; [done|].
    intros H3. rewrite (proj2 (Z.ltb_lt _ _) H3) in H2. by apply Z.eqb_eq.
Qed.

Lemma extra_limit c k : 0 <= c <= 0x7FFFFFFF -> (1 <= k <= 5)%nat ->
  c / 64 ^ Z.of_nat k < 2 ^ (6 - Z.of_nat k) <-> (extra c <= k)%nat.
Proof.
  intros Hc Hk. pose proof (pow64_pos k) as Hp.
  assert (c / 64 ^ Z.of_nat k < 2 ^ (6 - Z.of_nat k) <-> c < 2 ^ (5 * Z.of_nat k + 6)) as ->.
  { replace (5 * Z.of_nat k + 6) with (6 * Z.of_nat k + (6 - Z.of_nat k)) by lia.
    rewrite Z.pow_add_r, Z.pow_mul_r by lia. change (2 ^ 6) with 64. split; intros H.
    - pose proof (Z.mul_succ_div_gt c _ Hp). nia.
    - by apply Z.div_lt_upper_bound. }
  unfold extra. destruct k as [|[|[|[|[|[|k]]]]]]; try lia; simpl; bsplit; lia.
Qed.

Lemma utf8_store_S room c nbytes p : utf8_store (S (S room)) c nbytes p =
  let p := Z.lor (Z.land c 0x3F) 0x80 :: p in
  let c := Z.shiftr c 6 in
  match nth_error utf8_limits (S nbytes - 1), nth_error utf8_patns (S nbytes - 1) with
  | Some limit, Some mask =>
      if (0x3F <=? c) || negb (Z.land c limit =? 0) then utf8_store (S room) c (S nbytes) p
      else Some (u8 (Z.lor c mask) :: p)
  | _, _ => None
  end.
Proof. done. Qed.

Lemma store_spec c : 0 <= c <= 0x7FFFFFFF -> forall d j, extra c = (j + S d)%nat ->
  utf8_store (6 - j) (c / 64 ^ Z.of_nat j) (S j) (conts j c) = Some (utf8 c).
Proof.
  intros Hc. induction d as [|d IH]; intros j He; pose proof (extra_le c) as Hle;
    (destruct (6 - j)%nat as [|[|room]] eqn:Er; [lia|lia|]); rewrite utf8_store_S; cbv zeta;
    pose proof (pow64_pos j) as Hp; pose proof (Z.div_pos c (64 ^ Z.of_nat j) ltac:(lia) Hp) as Hq;
    rewrite store_byte by exact Hq; rewrite Z.shiftr_div_pow2 by lia; change (2 ^ 6) with 64; rewrite <- div_pow64_succ;
    change (0x80 + (c / 64 ^ Z.of_nat j) mod 64 :: conts j c) with (conts (S j) c);
    replace (S (S j) - 1)%nat with (S j) by lia;
    rewrite (nth_error_nth' utf8_limits 0), (nth_error_nth' utf8_patns 0) by (simpl; lia);
    pose proof (Z.div_pos c (64 ^ Z.of_nat (S j)) ltac:(lia) (pow64_pos (S j))) as Hq';
    destruct (limit_check _ (S j) Hq' ltac:(lia)) as [-> Hlead];
    pose proof (extra_limit c (S j) Hc ltac:(lia)) as Hlim.
  - rewrite (proj2 (Z.ltb_lt _ _)) by (apply Hlim; lia). cbn [negb].
    rewrite Hlead by (apply Hlim; lia). unfold utf8. by replace (extra c) with (S j) by lia.
  - rewrite (proj2 (Z.ltb_ge _ _)); [cbn [negb]|].
    + replace (S room) with (6 - S j)%nat by lia. apply IH. lia.
    + apply Z.le_ngt. intros H. apply Hlim in H. lia.
Qed.

Lemma utf8_encode_spec c outleft : 0 <= c <= 0x7FFFFFFF ->
  one_cppchar_to_utf8 c outleft
  = if outleft <? Z.of_nat (length (utf8 c)) then Fail E2BIG else Conv [] (utf8 c).
Proof.
  intros Hc. unfold one_cppchar_to_utf8. destruct (Z.ltb_spec c 0x80) as [H|H].
  - unfold utf8, extra. rewrite (proj2 (Z.ltb_lt c 0x80) H). cbn. by rewrite Z.div_1_r.
  - destruct (utf8_lead c Hc H) as (Hk & _). pose proof (store_spec c Hc (extra c - 1) 0 ltac:(lia)) as Hs.
    change (utf8_store 6 (c / 64 ^ 0) 1 [] = Some (utf8 c)) in Hs.
    rewrite Z.pow_0_r, Z.div_1_r in Hs. by rewrite Hs.
Qed.

(** The fixed-width numbers. *)
Lemma put2_spec bigend x : 0 <= x < 65536 ->
  put2 bigend x = unit16 bigend x.
Proof.
  intros Hx. unfold put2.
  assert (Z.land x 0xFF = x mod 256) as -> by apply (land_mask x 8 ltac:(lia)).
  assert (Z.shiftr (Z.land x 0xFF00) 8 = x / 256) as ->; [|done].
  rewrite Z.shiftr_land, Z.shiftr_div_pow2 by lia. change (2 ^ 8) with 256.
  change (Z.shiftr 0xFF00 8) with (2 ^ 8 - 1). rewrite land_mask by lia.
  apply Z.mod_small. change (2 ^ 8) with 256. pose proof (Z.div_mod x 256 ltac:(lia)).
  pose proof (Z.mod_pos_bound x 256 ltac:(lia)). lia.
Qed.

Lemma byte_field x k : 0 <= k -> Z.shiftr (Z.land x (Z.shiftl 0xFF k)) k = x / 2 ^ k mod 256.
Proof.
  intros Hk. rewrite Z.shiftr_land, Z.shiftr_shiftl_l, Z.sub_diag by lia.
  change (Z.shiftl 0xFF 0) with (2 ^ 8 - 1). rewrite land_mask by lia. by rewrite Z.shiftr_div_pow2.
Qed.

Lemma put4_spec bigend x : 0 <= x < 2 ^ 32 -> put4 bigend x = utf32 bigend x.
Proof.
  intros Hx. unfold put4, utf32.
  change 0xFF00 with (Z.shiftl 0xFF 8). change 0xFF0000 with (Z.shiftl 0xFF 16).
  change 0xFF000000 with (Z.shiftl 0xFF 24). rewrite !byte_field by lia.
  assert (Z.land x 0xFF = x mod 256) as -> by apply (land_mask x 8 ltac:(lia)).
  rewrite (Z.mod_small (x / 2 ^ 24)); [by destruct bigend|].
  split; [apply Z.div_pos; lia|]. apply Z.div_lt_upper_bound; lia.
Qed.

Lemma get2_spec bigend x y : is_byte x -> is_byte y ->
  get2 bigend x y = if bigend then x * 256 + y else y * 256 + x.
Proof. intros. unfold get2. by rewrite !Z.shiftl_mul_pow2 by lia. Qed.

Lemma get4_spec bigend x y z w : is_byte x -> is_byte y -> is_byte z -> is_byte w ->
  get4 bigend x y z w = if bigend then ((x * 256 + y) * 256 + z) * 256 + w
                        else ((w * 256 + z) * 256 + y) * 256 + x.
Proof.
  unfold is_byte. intros. unfold get4, u32. rewrite !Z.shiftl_mul_pow2 by lia.
  change (2 ^ 24) with 16777216. change (2 ^ 16) with 65536. change (2 ^ 8) with 256.
  destruct bigend; rewrite (wrapu_small 32 (_ * 16777216)), wrapu_small by lia; lia.
Qed.

(** ** Strings *)

(** What a code promises: no sequence is empty, and a text begins with the
    sequence of one character at most. *)
Class Code (enc : Z -> list byte) (ok : Z -> Prop) : Prop := {
  code_cons c : ok c -> enc c <> [];
  code_prefix c c' r r' : ok c -> ok c' -> enc c ++ r = enc c' ++ r' -> c = c' /\ r = r'
}.

(** What a converter promises: it converts the first character if there is
    room for it, and six bytes are room for any. *)
Class Converts (one : list byte -> Z -> conv (list byte)) (enc enc' : Z -> list byte)
  (ok : Z -> Prop) : Prop :=
  converts inp outleft : Forall is_byte inp ->
    match one inp outleft with
    | Conv rest out => exists c, ok c /\ inp = enc c ++ rest /\ out = enc' c /\
                         Z.of_nat (length out) <= outleft
    | Fail E2BIG => outleft < 6
    | Fail _ => forall c rest, ok c -> inp <> enc c ++ rest
    | Wild => False
    end.

(** The characters of a text. *)
Definition decodes (enc : Z -> list byte) (ok : Z -> Prop) (s : list byte) (cs : list Z) : Prop :=
  Forall ok cs /\ s = concat (map enc cs).

Definition well_sized (b : strbuf) : Prop := sb_len b <= sb_asize b.

(** The outcome of converting a string: its characters in the other code are
    appended, or the text of the buffer is as before. *)
Definition converted (enc enc' : Z -> list byte) (ok : Z -> Prop) (from : list byte) (to : strbuf)
  (res : loop_result) : Prop :=
  (exists cs size, decodes enc ok from cs /\
     res = LDone (mk_strbuf (sb_text to ++ concat (map enc' cs)) size) /\
     well_sized (mk_strbuf (sb_text to ++ concat (map enc' cs)) size)) \/
  ((forall cs, ~ decodes enc ok from cs) /\
   exists err size, err <> E2BIG /\ res = LFail err (mk_strbuf (sb_text to) size) /\ sb_asize to <= size).

Section strings.
Context {one : list byte -> Z -> conv (list byte)} {enc enc' : Z -> list byte} {ok : Z -> Prop}.
Context `{!Code enc ok, !Converts one enc enc' ok}.

Lemma decodes_cons c rest s : ok c -> s = enc c ++ rest ->
  forall cs, decodes enc ok s cs -> exists cs', cs = c :: cs' /\ decodes enc ok rest cs'.
Proof using Code0.
  intros Hc -> cs [Hf E]. destruct cs as [|c' cs].
  - simpl in E. apply app_eq_nil in E as [E _]. by destruct (code_cons c Hc).
  - apply Forall_cons_1 in Hf as [Hc' Hf]. simpl in E.
    apply code_prefix in E as [<- ->]; [|done..]. by exists cs.
Qed.

Lemma rounds_converted fuel : forall inp to written outleft asize,
  Forall is_byte inp -> 0 <= outleft ->
  asize = sb_len to + Z.of_nat (length written) + outleft -> sb_asize to <= asize ->
  (2 * length inp + (if (outleft <? 6)%Z then 2 else 1) <= fuel)%nat ->
  (exists cs size, decodes enc ok inp cs /\
     conversion_rounds one fuel inp to written outleft asize
     = LDone (mk_strbuf (sb_text to ++ written ++ concat (map enc' cs)) size) /\
     well_sized (mk_strbuf (sb_text to ++ written ++ concat (map enc' cs)) size)) \/
  ((forall cs, ~ decodes enc ok inp cs) /\
   exists err size, err <> E2BIG /\
     conversion_rounds one fuel inp to written outleft asize = LFail err (mk_strbuf (sb_text to) size) /\
     sb_asize to <= size).
Proof using Code0 Converts0.
  induction fuel as [|fuel IH]; intros inp to written outleft asize Hb Ho Ha Hs Hfuel;
    [destruct (outleft <? 6); lia|].
  cbn [conversion_rounds]. pose proof (converts inp outleft Hb) as H1.
  destruct (one inp outleft) as [rest out|err|]; [| |done].
  - destruct H1 as (c & Hc & Hinp & -> & Hlen).
    assert (Forall is_byte rest) as Hbr by (rewrite Hinp in Hb; by apply Forall_app in Hb as [_ ?]).
    assert (length rest < length inp)%nat as Hlt.
    { rewrite Hinp, length_app. pose proof (code_cons c Hc). destruct (enc c); [done|simpl; lia]. }
    assert (forall cs, decodes enc ok rest cs -> decodes enc ok inp (c :: cs)) as Hup.
    { intros cs [Hf ->]. split; [by constructor|done]. }
    destruct rest as [|b rest].
    + left. exists [c], asize. split; [apply Hup; by split; [constructor|]|].
      simpl. rewrite app_nil_r. split; [done|]. unfold well_sized, sb_len in *. simpl.
      rewrite !length_app. lia.
    + destruct (IH (b :: rest) to (written ++ enc' c) (outleft - Z.of_nat (length (enc' c))) asize)
        as [(cs & size & Hd & HR & Hw)|(Hd & HR)]; try done; try lia.
      { rewrite length_app. lia. }
      { destruct (outleft <? 6) in Hfuel; destruct (_ <? 6); lia. }
      * left. exists (c :: cs), size. split; [by apply Hup|]. simpl.
        by rewrite <- app_assoc in HR, Hw.
      * right. split; [|done]. intros cs Hcs.
        destruct (decodes_cons c _ inp Hc Hinp cs Hcs) as (cs' & _ & Hd'). by apply (Hd cs').
  - destruct inp as [|b inp].
    { left. exists [], asize. split; [by split; [constructor|]|]. simpl. rewrite app_nil_r.
      split; [done|]. unfold well_sized, sb_len in *. simpl. rewrite length_app. lia. }
    destruct err.
    1-2: right; split; [|by eexists _, asize; repeat split];
      intros [|c cs] [Hf E]; [done|]; apply Forall_cons_1 in Hf as [Hc Hf]; by apply (H1 c _ Hc E).
    apply IH; try done; unfold OUTBUF_BLOCK_SIZE in *; try lia.
    rewrite (proj2 (Z.ltb_lt outleft 6) H1) in Hfuel. rewrite (proj2 (Z.ltb_ge _ 6)) by lia. lia.
Qed.

Lemma loop_converted from to : Forall is_byte from -> well_sized to ->
  converted enc enc' ok from to (conversion_loop one from to).
Proof using Code0 Converts0.
  intros Hb Hw. unfold conversion_loop, converted. unfold well_sized in Hw.
  apply (rounds_converted _ from to [] (sb_asize to - sb_len to) (sb_asize to)); try done; simpl; try lia.
  destruct (_ <? 6); lia.
Qed.
End strings.

(** ** The codes and the converters keep their promises *)

Definition char16 (c : Z) : Prop := valid_char c /\ c <= 0x10FFFF.
Definition char31 (c : Z) : Prop := valid_char c /\ c < 0x7FFFFFFF.

Lemma code_weaken enc ok ok' : (forall c, ok' c -> ok c) -> Code enc ok -> Code enc ok'.
Proof. intros H [H1 H2]. split; eauto. Qed.

#[export] Instance utf8_code : Code utf8 valid_char.
Proof.
  split; [done|]. intros c c' r r' [Hc _] [Hc' _] [= Eb Et].
  destruct (Z.ltb_spec c 0x80) as [H|H], (Z.ltb_spec c' 0x80) as [H'|H'].
  - rewrite !extra_small in Eb, Et by done. cbn in Eb, Et. by rewrite !Z.div_1_r in Eb.
  - destruct (utf8_lead c' Hc' H') as (_ & _ & Hb). rewrite <- Eb, (extra_small c) in Hb by done.
    cbn in Hb. rewrite Z.div_1_r in Hb. lia.
  - destruct (utf8_lead c Hc H) as (_ & _ & Hb). rewrite Eb, (extra_small c') in Hb by done.
    cbn in Hb. rewrite Z.div_1_r in Hb. lia.
  - destruct (utf8_lead c Hc H) as (_ & Hl & _), (utf8_lead c' Hc' H') as (_ & Hl' & _).
    rewrite Eb, Hl' in Hl. injection Hl as Hk. rewrite Hk in *. apply conts_inj in Et; [done|lia].
Qed.

Lemma unit16_inj bigend x y r r' : unit16 bigend x ++ r = unit16 bigend y ++ r' -> x = y /\ r = r'.
Proof.
  unfold unit16. pose proof (Z.div_mod x 256 ltac:(lia)). pose proof (Z.div_mod y 256 ltac:(lia)).
  destruct bigend; intros [= E1 E2 ->]; split; try done; lia.
Qed.

Lemma surrogates c : 0x10000 <= c <= 0x10FFFF ->
  0xD800 <= (c - 0x10000) / 0x400 + 0xD800 <= 0xDBFF /\
  0xDC00 <= (c - 0x10000) mod 0x400 + 0xDC00 <= 0xDFFF.
Proof.
  intros. pose proof (Z.div_mod (c - 0x10000) 0x400 ltac:(lia)).
  pose proof (Z.mod_pos_bound (c - 0x10000) 0x400 ltac:(lia)). lia.
Qed.

#[export] Instance utf16_code bigend : Code (utf16 bigend) char16.
Proof.
  split.
  - intros c _. unfold utf16, unit16. by destruct (c <=? 0xFFFF), bigend.
  - intros c c' r r' [[Hc Hs] Hm] [[Hc' Hs'] Hm']. unfold utf16.
    destruct (Z.leb_spec c 0xFFFF), (Z.leb_spec c' 0xFFFF); rewrite <- ?app_assoc; intros E;
      apply unit16_inj in E as [E1 E2].
    + done.
    + pose proof (surrogates c' ltac:(lia)). lia.
    + pose proof (surrogates c ltac:(lia)). lia.
    + apply unit16_inj in E2 as [E2 ->]. split; [|done].
      pose proof (Z.div_mod (c - 0x10000) 0x400 ltac:(lia)).
      pose proof (Z.div_mod (c' - 0x10000) 0x400 ltac:(lia)). lia.
Qed.

Lemma utf32_inj bigend c c' r r' : utf32 bigend c ++ r = utf32 bigend c' ++ r' -> c = c' /\ r = r'.
Proof.
  unfold utf32.
  assert (forall x, x / 2 ^ 16 / 256 = x / 2 ^ 24 /\ x / 2 ^ 8 / 256 = x / 2 ^ 16 /\ x / 256 = x / 2 ^ 8) as Hd.
  { intros x. rewrite !Z.div_div by lia. done. }
  destruct (Hd c) as (D1 & D2 & D3), (Hd c') as (D1' & D2' & D3').
  pose proof (Z.div_mod (c / 2 ^ 16) 256 ltac:(lia)). pose proof (Z.div_mod (c' / 2 ^ 16) 256 ltac:(lia)).
  pose proof (Z.div_mod (c / 2 ^ 8) 256 ltac:(lia)). pose proof (Z.div_mod (c' / 2 ^ 8) 256 ltac:(lia)).
  pose proof (Z.div_mod c 256 ltac:(lia)). pose proof (Z.div_mod c' 256 ltac:(lia)).
  destruct bigend; simpl; intros [= E1 E2 E3 E4 ->]; (split; [|done]); lia.
Qed.

#[export] Instance utf32_code bigend : Code (utf32 bigend) char31.
Proof.
  split; [intros c _; unfold utf32; by destruct bigend|].
  intros c c' r r' _ _. apply utf32_inj.
Qed.

#[export] Instance utf8_utf32 bigend : Converts (one_utf8_to_utf32 bigend) utf8 (utf32 bigend) valid_char.
Proof.
  intros inp outleft Hb. unfold one_utf8_to_utf32. destruct (Z.ltb_spec outleft 4); [lia|].
  pose proof (utf8_decode_spec inp Hb) as H1. destruct (one_utf8_to_cppchar inp) as [rest c|e|]; [| |done].
  - destruct H1 as [Hv ->]. exists c. rewrite put4_spec by (destruct Hv; lia).
    repeat split; try done; try apply Hv. unfold utf32. by destruct bigend.
  - destruct H1 as [He H1]. by destruct e.
Qed.

#[export] Instance utf8_utf16 bigend : Converts (one_utf8_to_utf16 bigend) utf8 (utf16 bigend) char16.
Proof.
  intros inp outleft Hb. unfold one_utf8_to_utf16, char16.
  pose proof (utf8_decode_spec inp Hb) as H1. destruct (one_utf8_to_cppchar inp) as [rest c|e|]; [| |done].
  2: { destruct H1 as [He H1]. destruct e; try done; intros c rest [Hc _]; by apply H1. }
  destruct H1 as [Hv ->]. destruct (Z.ltb_spec 0x10FFFF c) as [Hc|Hc].
  { intros c' rest' [Hv' Hm] E. apply code_prefix in E as [-> _]; [lia|done..]. }
  pose proof Hv as [Hr _]. destruct (Z.leb_spec c 0xFFFF) as [H|H].
  - destruct (Z.ltb_spec outleft 2); [lia|]. exists c. unfold utf16.
    rewrite put2_spec, (proj2 (Z.leb_le c 0xFFFF)) by lia. repeat split; try done; try apply Hv.
    unfold unit16. by destruct bigend.
  - destruct (Z.ltb_spec outleft 4); [lia|]. exists c. unfold utf16. pose proof (surrogates c ltac:(lia)).
    rewrite !put2_spec, (proj2 (Z.leb_gt c 0xFFFF)) by lia. repeat split; try done; try apply Hv.
    unfold unit16. by destruct bigend.
Qed.

Lemma get2_unit bigend x y : is_byte x -> is_byte y ->
  unit16 bigend (get2 bigend x y) = [x; y] /\ 0 <= get2 bigend x y < 65536.
Proof.
  intros Hx Hy. rewrite get2_spec by done. unfold is_byte in *. unfold unit16.
  destruct bigend; rewrite div_parts, mod_parts by lia; split; try done; lia.
Qed.

(** The character encoded by a surrogate pair. *)
Lemma surrogate_pair hi lo : 0xD800 <= hi <= 0xDBFF -> 0xDC00 <= lo <= 0xDFFF ->
  let c := (hi - 0xD800) * 0x400 + (lo - 0xDC00) + 0x10000 in
  0x10000 <= c <= 0x10FFFF /\ (c - 0x10000) / 0x400 + 0xD800 = hi /\ (c - 0x10000) mod 0x400 + 0xDC00 = lo.
Proof.
  intros Hhi Hlo c. unfold c. rewrite Z.add_simpl_r, div_parts, mod_parts by lia. lia.
Qed.

Lemma utf16_head bigend c r x y s : char16 c -> is_byte x -> is_byte y ->
  x :: y :: r = utf16 bigend c ++ s ->
  let u := get2 bigend x y in
  (u = c /\ r = s /\ ~ 0xD800 <= u <= 0xDFFF) \/
  (0xD800 <= u <= 0xDBFF /\ 0x10000 <= c /\ r = unit16 bigend ((c - 0x10000) mod 0x400 + 0xDC00) ++ s).
Proof.
  intros [[Hc Hs] Hm] Hx Hy. destruct (get2_unit bigend x y Hx Hy) as [Hu _].
  change (x :: y :: r) with ([x; y] ++ r). rewrite <- Hu. unfold utf16.
  destruct (Z.leb_spec c 0xFFFF); rewrite <- ?app_assoc; intros E; apply unit16_inj in E as [E ->].
  - left. cbv zeta. rewrite E. done.
  - right. cbv zeta. rewrite E. split; [apply surrogates; lia|]. split; [lia|done].
Qed.

Lemma utf8_fits c outleft : 0 <= c <= 0x7FFFFFFF ->
  match one_cppchar_to_utf8 c outleft with
  | Conv _ out => out = utf8 c /\ Z.of_nat (length out) <= outleft
  | Fail E2BIG => outleft < 6
  | _ => False
  end.
Proof.
  intros Hc. rewrite utf8_encode_spec by done. pose proof (extra_le c).
  destruct (Z.ltb_spec outleft (Z.of_nat (length (utf8 c)))); rewrite utf8_length_eq in *; [lia|done].
Qed.

#[export] Instance utf16_utf8 bigend : Converts (one_utf16_to_utf8 bigend) (utf16 bigend) utf8 char16.
Proof.
  intros inp outleft Hb. unfold one_utf16_to_utf8.
  destruct inp as [|x [|y rest]];
    [intros c rest _; unfold utf16, unit16; by destruct (_ <=? _), bigend
    |intros c rest _; unfold utf16, unit16; by destruct (_ <=? _), bigend|].
  apply Forall_cons_1 in Hb as [Hx Hb]. apply Forall_cons_1 in Hb as [Hy Hb].
  destruct (get2_unit bigend x y Hx Hy) as [Hu Hr].
  pose proof (fun c s Hc => utf16_head bigend c rest x y s Hc Hx Hy) as Hhead. cbv zeta in Hhead.
  set (u := get2 bigend x y) in *.
  destruct (Z.leb_spec 0xDC00 u), (Z.leb_spec u 0xDFFF); cbn [andb];
    [intros c s Hc E; destruct (Hhead c s Hc E) as [(?&?&?)|(?&?&?)]; lia|..].
  all: destruct (Z.leb_spec 0xD800 u), (Z.leb_spec u 0xDBFF); cbn [andb]; try lia.
  2: { destruct rest as [|z [|w rest]].
    1-2: intros c s Hc E; destruct (Hhead c s Hc E) as [(?&?&?)|(?&?&E')]; [lia|];
      unfold unit16 in E'; by destruct bigend.
    apply Forall_cons_1 in Hb as [Hz Hb]. apply Forall_cons_1 in Hb as [Hw Hb].
    destruct (get2_unit bigend z w Hz Hw) as [Hu2 Hr2]. set (l := get2 bigend z w) in *.
    destruct ((l <? 0xDC00) || (0xDFFF <? l)) eqn:El.
    { intros c s Hc E. destruct (Hhead c s Hc E) as [(?&?&?)|(_&H5&E')]; [lia|].
      change (z :: w :: rest) with ([z; w] ++ rest) in E'. rewrite <- Hu2 in E'.
      apply unit16_inj in E' as [E' _]. destruct Hc as [_ Hm]. pose proof (surrogates c ltac:(lia)).
      revert El. bsplit; simpl; try done; lia. }
    assert (0xDC00 <= l <= 0xDFFF) as Hl by (revert El; bsplit; simpl; try done; lia).
    destruct (surrogate_pair u l ltac:(lia) Hl) as (Hc & Hhi & Hlo).
    set (c := (u - 0xD800) * 0x400 + (l - 0xDC00) + 0x10000) in *.
    pose proof (utf8_fits c outleft ltac:(lia)) as Hfit.
    destruct (one_cppchar_to_utf8 c outleft) as [? out|[]|]; try done.
    destruct Hfit as [-> Hlen]. exists c. unfold char16, valid_char, utf16.
    rewrite (proj2 (Z.leb_gt c 0xFFFF)), Hhi, Hlo, Hu, Hu2 by lia. repeat split; try done; lia. }
  all: pose proof (utf8_fits u outleft ltac:(lia)) as Hfit;
    destruct (one_cppchar_to_utf8 u outleft) as [? out|[]|]; try done;
    destruct Hfit as [-> Hlen]; exists u; unfold char16, valid_char, utf16;
    rewrite (proj2 (Z.leb_le u 0xFFFF)), Hu by lia; repeat split; try done; lia.
Qed.

Lemma get4_bytes bigend x y z w : is_byte x -> is_byte y -> is_byte z -> is_byte w ->
  utf32 bigend (get4 bigend x y z w) = [x; y; z; w] /\ 0 <= get4 bigend x y z w < 2 ^ 32.
Proof.
  intros Hx Hy Hz Hw. rewrite get4_spec by done. unfold is_byte in *. unfold utf32.
  assert (forall a b c d, 0 <= a < 256 -> 0 <= b < 256 -> 0 <= c < 256 -> 0 <= d < 256 ->
    let v := ((a * 256 + b) * 256 + c) * 256 + d in
    v / 2 ^ 24 = a /\ v / 2 ^ 16 mod 256 = b /\ v / 2 ^ 8 mod 256 = c /\ v mod 256 = d) as Hv.
  { intros a b c d Ha Hb Hc Hd v. unfold v.
    change (2 ^ 24) with (256 * (256 * 256)). change (2 ^ 16) with (256 * 256). change (2 ^ 8) with 256.
    rewrite <- !Z.div_div by lia. rewrite !div_parts, !mod_parts by lia. done. }
  destruct bigend; [destruct (Hv x y z w) as (-> & -> & -> & ->)|destruct (Hv w z y x) as (-> & -> & -> & ->)];
    try done; split; try done; lia.
Qed.

#[export] Instance utf32_utf8 bigend : Converts (one_utf32_to_utf8 bigend) (utf32 bigend) utf8 char31.
Proof.
  intros inp outleft Hb. unfold one_utf32_to_utf8.
  destruct inp as [|x [|y [|z [|w rest]]]];
    try (intros c rest _; unfold utf32; by destruct bigend).
  apply Forall_cons_1 in Hb as [Hx Hb]. apply Forall_cons_1 in Hb as [Hy Hb].
  apply Forall_cons_1 in Hb as [Hz Hb]. apply Forall_cons_1 in Hb as [Hw Hb].
  destruct (get4_bytes bigend x y z w Hx Hy Hz Hw) as [Hu Hr]. set (u := get4 bigend x y z w) in *.
  destruct ((0x7FFFFFFF <=? u) || ((0xD800 <=? u) && (u <=? 0xDFFF))) eqn:Eu.
  - intros c s Hc E. change (x :: y :: z :: w :: rest) with ([x; y; z; w] ++ rest) in E.
    rewrite <- Hu in E. apply utf32_inj in E as [E _].
    destruct Hc as [[Hc1 Hc2] Hc3]. revert Eu. bsplit; simpl; try done; lia.
  - assert (valid_char u /\ u < 0x7FFFFFFF) as [Hv Hlt].
    { unfold valid_char. revert Eu. bsplit; simpl; try done; lia. }
    pose proof (utf8_fits u outleft ltac:(lia)) as Hfit.
    destruct (one_cppchar_to_utf8 u outleft) as [? out|[]|]; try done.
    destruct Hfit as [-> Hlen]. exists u. rewrite Hu. by repeat split; try apply Hv.
Qed.

(** ** Texts *)

Lemma decodes_unique enc ok s cs cs' `{!Code enc ok} :
  decodes enc ok s cs -> decodes enc ok s cs' -> cs = cs'.
Proof.
  revert s cs'. induction cs as [|c cs IH]; intros s cs' [Hf E] Hd'.
  - destruct Hd' as [Hf' E']. destruct cs' as [|c' cs']; [done|]. apply Forall_cons_1 in Hf' as [Hc' _].
    rewrite E in E'. simpl in E'. symmetry in E'. apply app_eq_nil in E' as [E' _].
    by destruct (code_cons c' Hc').
  - apply Forall_cons_1 in Hf as [Hc Hf].
    destruct (decodes_cons c (concat (map enc cs)) s Hc E cs' Hd') as (cs'' & -> & Hd'').
    f_equal. by apply (IH (concat (map enc cs))).
Qed.

Lemma conts_bytes k c : Forall is_byte (conts k c).
Proof.
  induction k; constructor; [|done]. unfold is_byte.
  pose proof (Z.mod_pos_bound (c / 64 ^ Z.of_nat k) 64 ltac:(lia)). lia.
Qed.

Lemma utf8_bytes c : valid_char c -> Forall is_byte (utf8 c).
Proof.
  intros [Hc _]. constructor; [|apply conts_bytes]. destruct (Z.ltb_spec c 0x80) as [H|H].
  - rewrite extra_small by done. cbn. rewrite Z.div_1_r. unfold is_byte. lia.
  - destruct (utf8_lead c Hc H) as (_ & _ & Hb). unfold is_byte. lia.
Qed.

Lemma unit16_bytes bigend x : 0 <= x < 65536 -> Forall is_byte (unit16 bigend x).
Proof.
  intros Hx. pose proof (Z.div_mod x 256 ltac:(lia)). pose proof (Z.mod_pos_bound x 256 ltac:(lia)).
  unfold unit16, is_byte. destruct bigend; repeat constructor; lia.
Qed.

Lemma utf16_bytes bigend c : char16 c -> Forall is_byte (utf16 bigend c).
Proof.
  intros [[Hc _] Hm]. unfold utf16. destruct (Z.leb_spec c 0xFFFF); [apply unit16_bytes; lia|].
  pose proof (surrogates c ltac:(lia)). apply Forall_app. split; apply unit16_bytes; lia.
Qed.

Lemma text_bytes (enc : Z -> list byte) (ok : Z -> Prop) cs :
  (forall c, ok c -> Forall is_byte (enc c)) -> Forall ok cs -> Forall is_byte (concat (map enc cs)).
Proof. intros H. induction 1; simpl; [constructor|]. apply Forall_app. auto. Qed.

Lemma utf8_text_bytes cs : Forall char16 cs -> Forall is_byte (concat (map utf8 cs)).
Proof. apply text_bytes. intros c [Hc _]. by apply utf8_bytes. Qed.

Lemma utf16_text_bytes bigend cs : Forall char16 cs -> Forall is_byte (concat (map (utf16 bigend) cs)).
Proof. apply text_bytes, utf16_bytes. Qed.

(** ** Results *)



(** A text converted from UTF-8 to UTF-16 and back is the same text,
    whatever its characters up to 10FFFF and whatever buffers are used. *)
Theorem utf16_roundtrip (bigend : bool) (cs : list Z) (size size' : Z) :
  Forall char16 cs -> 0 <= size -> 0 <= size' ->
  let s := concat (map utf8 cs) in
  exists t n, convert_utf8_utf16 bigend s (mk_strbuf [] size) = LDone (mk_strbuf t n) /\
    exists n', convert_utf16_utf8 bigend t (mk_strbuf [] size') = LDone (mk_strbuf s n').
Proof.
  intros Hcs Hs Hs' s.
  pose proof (code_weaken utf8 valid_char char16 ltac:(by intros c [? _]) _) as Hcode.
  assert (Forall is_byte s) as Hb by (by apply utf8_text_bytes).
  assert (decodes utf8 char16 s cs) as Hd by done.
  destruct (loop_converted (one := one_utf8_to_utf16 bigend) (enc := utf8) (enc' := utf16 bigend)
    (ok := char16) s (mk_strbuf [] size) Hb Hs) as [(cs1 & n & Hd1 & HR1 & _)|[Hno _]];
    [|by destruct (Hno cs)].
  pose proof (decodes_unique utf8 char16 s cs cs1 Hd Hd1) as <-.
  exists (concat (map (utf16 bigend) cs)), n. split; [done|].
  assert (Forall is_byte (concat (map (utf16 bigend) cs))) as Hb' by (by apply utf16_text_bytes).
  assert (decodes (utf16 bigend) char16 (concat (map (utf16 bigend) cs)) cs) as Hd' by done.
  destruct (loop_converted (one := one_utf16_to_utf8 bigend) (enc := utf16 bigend) (enc' := utf8)
    (ok := char16) _ (mk_strbuf [] size') Hb' Hs') as [(cs2 & n' & Hd2 & HR & _)|[Hno _]];
    [|by destruct (Hno cs)].
  pose proof (decodes_unique (utf16 bigend) char16 _ cs cs2 Hd' Hd2) as <-. by exists n'.
Qed.

Lemma utf16_roundtrip_witness :
  let s := concat (map utf8 [0x41; 0xE9; 0x20AC; 0x1F600]) in
  exists t n, convert_utf8_utf16 false s (mk_strbuf [] 0) = LDone (mk_strbuf t n) /\
    exists n', convert_utf16_utf8 false t (mk_strbuf [] 3) = LDone (mk_strbuf s n').
Proof.
  apply (utf16_roundtrip false [0x41; 0xE9; 0x20AC; 0x1F600] 0 3); [|lia..].
  repeat constructor; vm_compute; try done; by intros [? ?].
Defined.

(** The last character of the range of UTF-32, 7FFFFFFF, is converted from
    UTF-8 to UTF-32 but not back: the comment gives the range as 00000000 to
    7FFFFFFF, and the test of one_utf32_to_utf8 excludes its end. *)
Theorem utf32_end_of_range (bigend : bool) :
  convert_utf8_utf32 bigend (utf8 0x7FFFFFFF) (mk_strbuf [] 256)
    = LDone (mk_strbuf (utf32 bigend 0x7FFFFFFF) 256) /\
  convert_utf32_utf8 bigend (utf32 bigend 0x7FFFFFFF) (mk_strbuf [] 256) = LFail EILSEQ (mk_strbuf [] 256).
Proof. by destruct bigend; vm_compute. Qed.
