(* ===== verification/StrLit.v ===== *)
(** * String literals and character constants (libcpp/charset.c)

    Escape sequences, the conversion of string literals to the execution
    character set, the value of character constants, and universal character
    names in literals and identifiers.  Source locations are not tracked: the
    functions are modelled as they run without a location reader. *)

From Stdlib Require Import ZArith Lia Bool String Ascii.
From stdpp Require Import base tactics list numbers.
From S2P Require Import Prelude Reader NumLit Utf.

Local Open Scope string_scope.
Local Open Scope list_scope.
Local Open Scope Z_scope.

Lemma W_bind_pair {A B} (x : A) (f : A -> W B) : (y ←w ([], x) ;; f y) = f x.
Proof. apply (W_bind_ret_l x f). Qed.

(** ** Converters *)

(** A converter: the conversion function, which appends to a buffer and tells
    whether it succeeded, and the width of a character of the target. *)
Record cset_converter : Type := mk_cset {
  cs_func : list byte -> strbuf -> bool * strbuf;
  cs_width : Z
}.

Definition convert_no_conversion (from : list byte) (to : strbuf) : bool * strbuf :=
  let len := sb_len to + Z.of_nat (length from) in
  (true, mk_strbuf (sb_text to ++ from)
           (if sb_asize to <? len then len + len / 4 else sb_asize to)).

(** The result of one of the converters of the previous file. *)
Definition loop_func (conv : list byte -> strbuf -> loop_result) (from : list byte) (to : strbuf)
  : bool * strbuf :=
  match conv from to with
  | LDone to' => (true, to')
  | LFail _ to' => (false, to')
  | LWild | LFuel => (false, to)
  end.

(** The five converters of a reader. *)
Record csets : Type := mk_csets {
  narrow_cset_desc : cset_converter;
  utf8_cset_desc : cset_converter;
  char16_cset_desc : cset_converter;
  char32_cset_desc : cset_converter;
  wide_cset_desc : cset_converter
}.

Definition converter_for_type (d : csets) (type : cpp_ttype) : cset_converter :=
  match type with
  | CPP_UTF8CHAR | CPP_UTF8STRING => utf8_cset_desc d
  | CPP_CHAR16 | CPP_STRING16 => char16_cset_desc d
  | CPP_CHAR32 | CPP_STRING32 => char32_cset_desc d
  | CPP_WCHAR | CPP_WSTRING => wide_cset_desc d
  | _ => narrow_cset_desc d
  end.

(** A mask with WIDTH one bits, in a 64-bit size_t. *)
Definition width_to_mask (width : Z) : Z :=
  let width := Z.min width 32 in
  if 64 <=? width then 2 ^ 64 - 1 else Z.shiftl 1 width - 1.

Definition cpp_errno (l : cpp_diagnostic_level) (msg : string) : W unit := cpp_error l msg.

(** ** Universal character names *)

Inductive normalize_level : Type :=
  | normalized_KC | normalized_C | normalized_identifier_C | normalized_none.

Definition level_index (l : normalize_level) : Z :=
  match l with
  | normalized_KC => 0 | normalized_C => 1 | normalized_identifier_C => 2 | normalized_none => 3
  end.
Definition max_level (a b : normalize_level) : normalize_level :=
  if level_index a <? level_index b then b else a.

Record normalize_state : Type := mk_nst { previous : Z; prev_class : Z; level : normalize_level }.

Definition INITIAL_NORMALIZE_STATE : normalize_state := mk_nst 0 0 normalized_KC.
Definition NORMALIZE_STATE_UPDATE_IDNUM (c : Z) (nst : normalize_state) : normalize_state :=
  mk_nst c 0 (level nst).

(** An entry of the table of identifier characters: flags, combining class and
    the last character of the range. *)
Record ucnrange : Type := mk_range { ur_flags : Z; ur_combine : Z; ur_end : Z }.

Definition C99 : Z := 1.
Definition N99 : Z := 2.
Definition CXX : Z := 4.
Definition C11 : Z := 8.
Definition N11 : Z := 16.
Definition CID : Z := 32.
Definition NFC : Z := 64.
Definition NKC : Z := 128.
Definition CTX : Z := 256.

(** The binary search for the entry of [c]; a table of n entries takes fewer
    than n rounds. *)
Fixpoint ucn_search (fuel : nat) (tab : list ucnrange) (c : Z) (mn mx : nat) : nat :=
  match fuel with
  | O => mn
  | S fuel =>
      if (mx =? mn)%nat then mn
      else
        let md := ((mn + mx) / 2)%nat in
        if c <=? ur_end (nth md tab (mk_range 0 0 0)) then ucn_search fuel tab c mn md
        else ucn_search fuel tab c (S md) mx
  end.

Definition hangul_v (c : Z) : bool := (0x1161 <=? c) && (c <=? 0x1175).
Definition hangul_t (c : Z) : bool := (0x11A8 <=? c) && (c <=? 0x11C2).

(** The generated table of ucnid.h and its function. *)
Record ucn_table : Type := mk_table {
  ucnranges : list ucnrange;
  check_nfc : Z -> Z -> W bool
}.

Section ucn.
Context (tab : ucn_table) (o : cpp_options).

(** Can [c] follow the starter [p] in a normalized text? *)
Definition ucn_safe (c p : Z) : W bool :=
  if hangul_v c then mret ((p <? 0x1100) || (0x1112 <? p))
  else if hangul_t c then
    mret ((p <? 0xAC00) || (0xD7A3 <? p) || negb ((p - 0xAC00) mod 28 =? 0))
  else check_nfc tab c p.

(** "Update NST": the new level. *)
Definition ucn_level (r : ucnrange) (c : Z) (nst : normalize_state) : W normalize_level :=
  if negb (ur_combine r =? 0) && (ur_combine r <? prev_class nst) then mret normalized_none
  else if flag (ur_flags r) CTX then
    safe ←w ucn_safe c (previous nst) ;;
    mret (if safe : bool then level nst
          else if hangul_v c || hangul_t c then max_level (level nst) normalized_identifier_C
          else normalized_none)
  else if flag (ur_flags r) NKC then mret (level nst)
  else if flag (ur_flags r) NFC then mret (max_level (level nst) normalized_C)
  else if flag (ur_flags r) CID then mret (max_level (level nst) normalized_identifier_C)
  else mret normalized_none.

(** 1, 2 (not at the start) or 0, with the new normalization state. *)
Definition ucn_valid_in_identifier (c : Z) (nst : normalize_state) : W (Z * normalize_state) :=
  if 0x10FFFF <? c then mret (0, nst)
  else
    let ranges := ucnranges tab in
    let mn := ucn_search (length ranges) ranges c 0 (length ranges - 1) in
    let r := nth mn ranges (mk_range 0 0 0) in
    let valid_flags :=
      if cpp_pedantic o then
        if c11_identifiers o then C11 else if c99 o then C99
        else if cplusplus o then CXX else Z.lor C99 (Z.lor CXX C11)
      else Z.lor C99 (Z.lor CXX C11) in
    if negb (flag (ur_flags r) valid_flags) then mret (0, nst)
    else
      let invalid_start_flags := if c11_identifiers o then N11 else if c99 o then N99 else 0 in
      level' ←w ucn_level r c nst ;;
      let nst' := mk_nst (if ur_combine r =? 0 then c else previous nst) (ur_combine r) level' in
      mret (if flag (ur_flags r) invalid_start_flags then 2 else 1, nst').

(** The digits of a UCN: the number still missing, the value and the text
    left.  [after] is the byte at the limit of the text. *)
Fixpoint ucn_digits (missing : nat) (result : Z) (str : list byte) (after : byte)
  : nat * Z * list byte :=
  match missing with
  | O => (O, result, str)
  | S n =>
      let c := hd after str in
      if negb (ISXDIGIT c) then (S n, result, str)
      else
        let result := u32 (u32 (Z.shiftl result 4) + hex_value c) in
        let str := tl str in
        match str with
        | [] => (n, result, str)
        | _ => ucn_digits n result str after
        end
  end.

(** The result of [_cpp_valid_ucn]: whether the UCN was consumed, the text left,
    the character, the normalization state and the flag warn_dollars. *)
Record ucn_result : Type := mk_ucn {
  uc_consumed : bool; uc_rest : list byte; uc_char : Z; uc_nst : normalize_state; uc_warn_dollars : bool
}.

Definition ucn_language (letter : byte) (identifier_pos : Z) : W unit :=
  if negb (cplusplus o) && negb (c99 o) then
    cpp_error CPP_DL_WARNING "universal character names are only valid in C++ and C99"
  else if (0 <? cpp_warn_c90_c99_compat o) && negb (cplusplus o) then
    cpp_error CPP_DL_WARNING "C99's universal character names are incompatible with C90"
  else when (cpp_warn_traditional o && (identifier_pos =? 0))
         (cpp_warning CPP_W_TRADITIONAL "the meaning of '\%c' is different in traditional C").

(** [letter] is the u or U before the digits. *)
Definition _cpp_valid_ucn (skipping : bool) (letter : byte) (pstr : list byte) (after : byte)
    (identifier_pos : Z) (nst : normalize_state) : W ucn_result :=
  ucn_language letter identifier_pos ;;w
  length ←w (if isc letter "u" then (mret 4%nat : W nat)
             else if isc letter "U" then mret 8%nat
             else cpp_error CPP_DL_ICE "In _cpp_valid_ucn but not a UCN" ;;w mret 4%nat) ;;
  let '(missing, result, str) := ucn_digits length 0 pstr after in
  if negb (missing =? 0)%nat && negb (identifier_pos =? 0) then
    mret (mk_ucn false pstr 0 nst (warn_dollars o))
  else if negb (missing =? 0)%nat then
    cpp_error CPP_DL_ERROR "incomplete universal character name %.*s" ;;w
    mret (mk_ucn true str 1 nst (warn_dollars o))
  else if ((result <? 0xa0) && negb (cplusplus o)
           && (negb (result =? 0x24) && negb (result =? 0x40) && negb (result =? 0x60)))
          || flag result 0x80000000
          || ((0xD800 <=? result) && (result <=? 0xDFFF)) then
    cpp_error CPP_DL_ERROR "%.*s is not a valid universal character" ;;w
    mret (mk_ucn true str 1 nst (warn_dollars o))
  else if negb (identifier_pos =? 0) && (result =? 0x24) && dollars_in_ident o then
    when (warn_dollars o && negb skipping)
      (cpp_error CPP_DL_PEDWARN "'$' in identifier or number") ;;w
    mret (mk_ucn true str result (NORMALIZE_STATE_UPDATE_IDNUM result nst)
            (warn_dollars o && skipping))
  else if negb (identifier_pos =? 0) then
    v ←w ucn_valid_in_identifier result nst ;;
    (if fst v =? 0 then
       cpp_error CPP_DL_ERROR "universal character %.*s is not valid in an identifier"
     else when ((fst v =? 2) && (identifier_pos =? 1))
       (cpp_error CPP_DL_ERROR
          "universal character %.*s is not valid at the start of an identifier")) ;;w
    mret (mk_ucn true str result (snd v) (warn_dollars o))
  else mret (mk_ucn true str result nst (warn_dollars o)).

(** ** Escape sequences *)

(** The text left and the buffer; [None] is an access outside an array. *)
Local Abbreviation escaped := (option (list byte * strbuf)).

(** [from] is at the u or U. *)
Definition convert_ucn (skipping : bool) (from : list byte) (after : byte) (tbuf : strbuf)
    (cvt : cset_converter) : W escaped :=
  r ←w _cpp_valid_ucn skipping (hd after from) (tl from) after 0 INITIAL_NORMALIZE_STATE ;;
  match one_cppchar_to_utf8 (uc_char r) 6 with
  | Wild => mret None
  | Fail _ =>
      cpp_errno CPP_DL_ERROR "converting UCN to source character set" ;;w
      mret (Some (uc_rest r, tbuf))
  | Conv _ buf =>
      let '(ok, tbuf) := cs_func cvt buf tbuf in
      when (negb ok) (cpp_errno CPP_DL_ERROR "converting UCN to execution character set") ;;w
      mret (Some (uc_rest r, tbuf))
  end.

(** The bytes of a number in the target byte order. *)
Fixpoint escape_bytes (k : nat) (n cmask cwidth : Z) : list byte :=
  match k with
  | O => []
  | S k => u8 (Z.land n cmask) :: escape_bytes k (Z.shiftr n cwidth) cmask cwidth
  end.

Definition emit_numeric_escape (n : Z) (tbuf : strbuf) (cvt : cset_converter) : strbuf :=
  let width := cs_width cvt in
  let grow nb := if sb_asize tbuf <? sb_len tbuf + nb then sb_asize tbuf + OUTBUF_BLOCK_SIZE
                 else sb_asize tbuf in
  if negb (width =? char_precision o) then
    let cwidth := char_precision o in
    let nbwc := width / cwidth in
    let bs := escape_bytes (Z.to_nat nbwc) n (width_to_mask cwidth) cwidth in
    mk_strbuf (sb_text tbuf ++ (if bytes_big_endian o then rev bs else bs)) (grow nbwc)
  else mk_strbuf (sb_text tbuf ++ [u8 n]) (grow 1).

(** The digits of a hex escape: whether there are any, overflow, the value and
    the text left. *)
Fixpoint hex_digits (from : list byte) (found : bool) (n overflow : Z) : bool * Z * Z * list byte :=
  match from with
  | [] => (found, n, overflow, [])
  | c :: from' =>
      if negb (ISXDIGIT c) then (found, n, overflow, from)
      else
        hex_digits from' true (u32 (u32 (Z.shiftl n 4) + hex_value c))
          (Z.lor overflow (Z.lxor n (Z.shiftr (u32 (Z.shiftl n 4)) 4)))
  end.

(** [from] is at the x. *)
Definition convert_hex (from : list byte) (tbuf : strbuf) (cvt : cset_converter) : W escaped :=
  let mask := width_to_mask (cs_width cvt) in
  when (cpp_warn_traditional o)
    (cpp_warning CPP_W_TRADITIONAL "the meaning of '\x' is different in traditional C") ;;w
  let '(found, n, overflow, from) := hex_digits (tl from) false 0 0 in
  if negb found then
    cpp_error CPP_DL_ERROR "\x used with no following hex digits" ;;w mret (Some (from, tbuf))
  else
    let bad := negb (overflow =? 0) || negb (n =? Z.land n mask) in
    when bad (cpp_error CPP_DL_PEDWARN "hex escape sequence out of range") ;;w
    mret (Some (from, emit_numeric_escape (if bad then Z.land n mask else n) tbuf cvt)).

(** At most [count] octal digits. *)
Fixpoint oct_digits (count : nat) (from : list byte) (n : Z) : Z * list byte :=
  match count, from with
  | S count, c :: from' =>
      if (c <? 48) || (55 <? c) then (n, from)
      else oct_digits count from' (u32 (u32 (Z.shiftl n 3) + c - 48))
  | _, _ => (n, from)
  end.

Definition convert_oct (from : list byte) (tbuf : strbuf) (cvt : cset_converter) : W escaped :=
  let mask := width_to_mask (cs_width cvt) in
  let '(n, from) := oct_digits 3 from 0 in
  let bad := negb (n =? Z.land n mask) in
  when bad (cpp_error CPP_DL_PEDWARN "octal escape sequence out of range") ;;w
  mret (Some (from, emit_numeric_escape (if bad then Z.land n mask else n) tbuf cvt)).

Definition ISGRAPH (c : byte) : bool := (33 <=? c) && (c <=? 126).

Definition unknown_escape (c : byte) : W byte :=
  cpp_error CPP_DL_PEDWARN
    (if ISGRAPH c then "unknown escape sequence: '\%c'" else "unknown escape sequence: '\%s'") ;;w
  mret c.

(** The character of a simple escape. *)
Definition simple_escape (c : byte) : W byte :=
  if isc c "\" || isc c "'" || (c =? 34) || isc c "?" then mret c
  else if isc c "(" || isc c "{" || isc c "[" || isc c "%" then
    if cpp_pedantic o then unknown_escape c else mret c
  else if isc c "b" then mret 8
  else if isc c "f" then mret 12
  else if isc c "n" then mret 10
  else if isc c "r" then mret 13
  else if isc c "t" then mret 9
  else if isc c "v" then mret 11
  else if isc c "a" then
    when (cpp_warn_traditional o)
      (cpp_warning CPP_W_TRADITIONAL "the meaning of '\a' is different in traditional C") ;;w
    mret 7
  else if isC c "e" "E" then
    when (cpp_pedantic o)
      (cpp_error CPP_DL_PEDWARN "non-ISO-standard escape sequence, '\%c'") ;;w
    mret 27
  else unknown_escape c.

(** [from] is after the backslash. *)
Definition convert_escape (skipping : bool) (from : list byte) (after : byte) (tbuf : strbuf)
    (cvt : cset_converter) : W escaped :=
  let c := hd after from in
  if isc c "u" || isc c "U" then convert_ucn skipping from after tbuf cvt
  else if isc c "x" then convert_hex from tbuf cvt
  else if (48 <=? c) && (c <=? 55) then convert_oct from tbuf cvt
  else
    c ←w simple_escape c ;;
    let '(ok, tbuf) := cs_func cvt [c] tbuf in
    when (negb ok)
      (cpp_errno CPP_DL_ERROR "converting escape sequence to execution character set") ;;w
    mret (Some (tl from, tbuf)).
End ucn.

(** ** String literals *)

(** The outcome: the converted text, an error, an access outside the text (or
    an assertion that fails), the end of the fuel. *)
Inductive sres (A : Type) : Type := SOk (x : A) | SFail | SWild | SFuel.
Arguments SOk {A} _.
Arguments SFail {A}.
Arguments SWild {A}.
Arguments SFuel {A}.

(** The characters up to a backslash. *)
Fixpoint plain_run (p : list byte) : list byte * list byte :=
  match p with
  | [] => ([], [])
  | c :: p' => if isc c "\" then ([], p) else let '(run, rest) := plain_run p' in (c :: run, rest)
  end.

(** The text up to an opening parenthesis, and after it. *)
Fixpoint raw_prefix (p : list byte) : option (list byte * list byte) :=
  match p with
  | [] => None
  | c :: p' =>
      if isc c "(" then Some ([], p')
      else match raw_prefix p' with Some (pre, rest) => Some (c :: pre, rest) | None => None end
  end.

Definition conversion_failed {A} : W (sres A) :=
  cpp_errno CPP_DL_ERROR "converting to execution character set" ;;w mret SFail.

Section strings.
Context (tab : ucn_table) (o : cpp_options) (skipping : bool).

(** The loop over runs of plain characters and escape sequences; [after] is the
    closing quote. *)
Fixpoint interpret_body (fuel : nat) (p : list byte) (after : byte) (cvt : cset_converter)
    (tbuf : strbuf) : W (sres strbuf) :=
  match fuel with
  | O => mret SFuel
  | S fuel =>
      let '(run, rest) := plain_run p in
      let '(ok, tbuf) := match run with [] => (true, tbuf) | _ => cs_func cvt run tbuf end in
      if negb ok then conversion_failed
      else
        match rest with
        | [] => mret (SOk tbuf)
        | _ :: from =>
            e ←w convert_escape tab o skipping from after tbuf cvt ;;
            match e with
            | None => mret SWild
            | Some (p, tbuf) => interpret_body fuel p after cvt tbuf
            end
        end
  end.

(** The encoding prefix. *)
Definition skip_prefix (p : list byte) : list byte :=
  if isc (peek p) "u" then
    if isc (peek (tl p)) "8" then tl (tl p) else tl p
  else if isc (peek p) "L" || isc (peek p) "U" then tl p
  else p.

(** One of the literals that are concatenated. *)
Definition interpret_one (text : list byte) (cvt : cset_converter) (tbuf : strbuf) : W (sres strbuf) :=
  let p := skip_prefix text in
  if isc (peek p) "R" then
    match raw_prefix (drop 2 p) with
    | None => mret SWild
    | Some (pre, rest) =>
        let n := S (length pre) in
        let body := if (S n <=? length rest)%nat then take (length rest - S n) rest else rest in
        let '(ok, tbuf) := cs_func cvt body tbuf in
        if negb ok then conversion_failed else mret (SOk tbuf)
    end
  else if negb (peek p =? 34) && negb (isc (peek p) "'") then mret SWild
  else
    let body := removelast (tl p) in
    interpret_body (S (length body)) body (List.last (tl p) 0) cvt tbuf.

Fixpoint interpret_all (from : list (list byte)) (cvt : cset_converter) (tbuf : strbuf)
  : W (sres strbuf) :=
  match from with
  | [] => mret (SOk tbuf)
  | text :: from =>
      r ←w interpret_one text cvt tbuf ;;
      match r with
      | SOk tbuf => interpret_all from cvt tbuf
      | SFail => mret SFail
      | SWild => mret SWild
      | SFuel => mret SFuel
      end
  end.

Definition cpp_interpret_string (d : csets) (from : list (list byte)) (type : cpp_ttype)
  : W (sres (list byte)) :=
  let cvt := converter_for_type d type in
  let len := Z.of_nat (length (hd [] from)) in
  r ←w interpret_all from cvt (mk_strbuf [] (Z.max OUTBUF_BLOCK_SIZE len)) ;;
  mret (match r with
        | SOk tbuf => SOk (sb_text (emit_numeric_escape o 0 tbuf cvt))
        | SFail => SFail
        | SWild => SWild
        | SFuel => SFuel
        end).

(** Escape sequences only: for the narrow set the identity is used. *)
Definition cpp_interpret_string_notranslate (d : csets) (from : list (list byte))
  : W (sres (list byte)) :=
  cpp_interpret_string
    (mk_csets (mk_cset convert_no_conversion (char_precision o)) (utf8_cset_desc d)
       (char16_cset_desc d) (char32_cset_desc d) (wide_cset_desc d)) from CPP_STRING.

(** A character of the basic source set in the execution set. *)
Definition cpp_host_to_exec_charset (d : csets) (c : Z) : W Z :=
  if 0x7e <? c then
    cpp_error CPP_DL_ICE "character 0x%lx is not in the basic source character set" ;;w mret 0
  else
    let '(ok, tbuf) := cs_func (narrow_cset_desc d) [u8 c] (mk_strbuf [] 1) in
    if negb ok then cpp_errno CPP_DL_ICE "converting to execution character set" ;;w mret 0
    else
      match sb_text tbuf with
      | [c] => mret c
      | _ =>
          cpp_error CPP_DL_ICE "character 0x%lx is not unibyte in execution character set" ;;w mret 0
      end.

(** ** Character constants *)

(** The bytes before the terminating NUL, as one number. *)
Definition narrow_number (width : Z) (s : list byte) : Z :=
  fold_left (fun result b =>
    let c := Z.land b (width_to_mask width) in
    if width <? 32 then Z.lor (u32 (Z.shiftl result width)) c else u32 c) s 0.

(** Truncate to WIDTH bits and extend to 32; [mask] has WIDTH bits. *)
Definition truncate_charconst (width : Z) (unsigned_p : bool) (result : Z) : Z :=
  if width <? 32 then
    let mask := Z.shiftl 1 width - 1 in
    if unsigned_p || (Z.land result (Z.shiftl 1 (width - 1)) =? 0) then Z.land result mask
    else Z.lor result (u32 (Z.lnot mask))
  else result.

(** The value, the number of characters seen and the signedness. *)
Definition narrow_str_to_charconst (str : list byte) : W (Z * Z * bool) :=
  let width := char_precision o in
  let max_chars := int_precision o / width in
  let len := Z.of_nat (length str) - 1 in
  let result := narrow_number width (removelast str) in
  (if max_chars <? len then
     cpp_error CPP_DL_WARNING "character constant too long for its type"
   else when ((1 <? len) && warn_multichar o)
          (cpp_warning CPP_W_MULTICHAR "multi-character character constant")) ;;w
  let i := Z.min len max_chars in
  let unsigned_p := if 1 <? i then false else unsigned_char o in
  let width := if 1 <? i then int_precision o else width in
  mret (truncate_charconst width unsigned_p result, i, unsigned_p).

Fixpoint wide_number (cwidth : Z) (bs : list byte) (result : Z) : Z :=
  match bs with
  | [] => result
  | b :: bs =>
      wide_number cwidth bs
        (Z.lor (u32 (Z.shiftl result cwidth)) (Z.land b (width_to_mask cwidth)))
  end.

(** The bytes [off] to [off + n] of the text, if it has them. *)
Definition slice (off : Z) (n : nat) (str : list byte) : option (list byte) :=
  if (0 <=? off) && (off + Z.of_nat n <=? Z.of_nat (length str))
  then Some (take n (drop (Z.to_nat off) str)) else None.

(** [None] is a read outside the text. *)
Definition wide_str_to_charconst (d : csets) (str : list byte) (type : cpp_ttype)
  : W (option (Z * Z * bool)) :=
  let width := cs_width (converter_for_type d type) in
  let cwidth := char_precision o in
  let nbwc := width / cwidth in
  let unsigned_p :=
    match type with CPP_CHAR16 | CPP_CHAR32 => true | _ => unsigned_wchar o end in
  match slice (u64 (Z.of_nat (length str) - nbwc * 2)) (Z.to_nat nbwc) str with
  | None => mret None
  | Some bs =>
      let result := wide_number cwidth (if bytes_big_endian o then bs else rev bs) 0 in
      when (nbwc * 2 <? Z.of_nat (length str))
        (cpp_error CPP_DL_WARNING "character constant too long for its type") ;;w
      mret (Some (truncate_charconst width unsigned_p result, 1, unsigned_p))
  end.

(** The value of a character constant, [None] for a read outside a text. *)
Definition cpp_interpret_charconst (d : csets) (type : cpp_ttype) (text : list byte)
  : W (option (Z * Z * bool)) :=
  let wide := match type with CPP_CHAR | CPP_UTF8CHAR => false | _ => true end in
  let u8 := match type with CPP_UTF8CHAR => 2 | _ => 0 end in
  if Z.of_nat (length text) =? 2 + b2z wide + u8 then
    cpp_error CPP_DL_ERROR "empty character constant" ;;w mret (Some (0, 0, false))
  else
    r ←w cpp_interpret_string d [text] type ;;
    match r with
    | SOk str =>
        if wide then wide_str_to_charconst d str type
        else v ←w narrow_str_to_charconst str ;; mret (Some v)
    | SFail => mret (Some (0, 0, false))
    | SWild | SFuel => mret None
    end.
End strings.

(** ** Identifiers *)

(** The digits of a UCN in an identifier. *)
Fixpoint ident_digits (length : nat) (id : list byte) (value : Z) : Z * list byte :=
  match length, id with
  | S length, c :: id' =>
      if ISXDIGIT c then ident_digits length id' (u32 (u32 (Z.shiftl value 4) + hex_value c))
      else (value, id)
  | _, _ => (value, id)
  end.

(** The name of an identifier, its UCNs in UTF-8, in a buffer of [len] bytes;
    [None] is an access outside an array. *)
Fixpoint interpret_identifier_loop (fuel : nat) (len : Z) (id buf : list byte)
  : W (option (list byte)) :=
  match fuel with
  | O => mret None
  | S fuel =>
      match id with
      | [] => mret (Some buf)
      | c :: id' =>
          if negb (isc c "\") then interpret_identifier_loop fuel len id' (buf ++ [c])
          else
            let length := if isc (peek id') "u" then 4%nat else 8%nat in
            let '(value, rest) := ident_digits length (tl id') 0 in
            if value =? 0x24 then interpret_identifier_loop fuel len rest (buf ++ [0x24])
            else
              match one_cppchar_to_utf8 value (len - Z.of_nat (List.length buf)) with
              | Conv _ out => interpret_identifier_loop fuel len rest (buf ++ out)
              | Fail _ =>
                  cpp_errno CPP_DL_ERROR "converting UCN to source character set" ;;w mret (Some buf)
              | Wild => mret None
              end
      end
  end.

Definition _cpp_interpret_identifier (id : list byte) : W (option (list byte)) :=
  interpret_identifier_loop (S (length id)) (Z.of_nat (length id)) id [].

(** ** The table of identifier characters *)

Definition ends_sorted (tab : list ucnrange) : Prop :=
  forall i j, (i < j < length tab)%nat ->
    ur_end (nth i tab (mk_range 0 0 0)) < ur_end (nth j tab (mk_range 0 0 0)).

Lemma ucn_search_spec fuel : forall tab c mn mx,
  ends_sorted tab -> (mn <= mx < length tab)%nat -> (mx - mn < fuel)%nat ->
  c <= ur_end (nth mx tab (mk_range 0 0 0)) ->
  (forall j, (j < mn)%nat -> ur_end (nth j tab (mk_range 0 0 0)) < c) ->
  let i := ucn_search fuel tab c mn mx in
  (i < length tab)%nat /\ c <= ur_end (nth i tab (mk_range 0 0 0)) /\
  forall j, (j < i)%nat -> ur_end (nth j tab (mk_range 0 0 0)) < c.
Proof.
  induction fuel as [|fuel IH]; intros tab c mn mx Hs Hm Hf Hx Hn; [lia|]. cbn [ucn_search].
  destruct (Nat.eqb_spec mx mn) as [->|Hne]; [split; [lia|done]|].
  pose proof (Nat.div_mod (mn + mx) 2 ltac:(lia)). pose proof (Nat.mod_upper_bound (mn + mx) 2 ltac:(lia)).
  set (md := ((mn + mx) / 2)%nat) in *. destruct (Z.leb_spec c (ur_end (nth md tab (mk_range 0 0 0)))).
  - apply IH; try done; lia.
  - apply IH; try done; try lia. intros j Hj. destruct (Nat.eq_dec j md) as [->|Hjm]; [lia|].
    pose proof (Hs j md ltac:(lia)). lia.
Qed.

(** ** Every literal is interpreted *)

Lemma ucn_digits_range k : forall res str after missing v rest, 0 <= res < 2 ^ 32 ->
  ucn_digits k res str after = (missing, v, rest) ->
  0 <= v < 2 ^ 32 /\ (length rest <= length str)%nat.
Proof.
  induction k as [|k IH]; intros res str after missing v rest Hr; cbn [ucn_digits].
  - by intros [= <- <- <-].
  - destruct (negb (ISXDIGIT (hd after str))); [by intros [= <- <- <-]|].
    pose proof (wrapu_range 32 (u32 (Z.shiftl res 4) + hex_value (hd after str)) ltac:(lia)).
    destruct str as [|c [|c' str]]; cbn [tl].
    + intros [= <- <- <-]. done.
    + intros [= <- <- <-]. split; [done|simpl; lia].
    + intros H1. apply IH in H1; [|done]. split; [apply H1|simpl in *; lia].
Qed.

Lemma bit31 x : 0 <= x < 2 ^ 32 -> flag x 0x80000000 = (2 ^ 31 <=? x).
Proof.
  intros Hx. unfold flag. change 0x80000000 with (2 ^ 31). rewrite land_bit_eqb, negb_involutive by lia.
  by rewrite testbit_top.
Qed.

Section total.
Context (tab : ucn_table) (o : cpp_options) (skipping : bool) (cvt : cset_converter).

(** Outside identifiers the value delivered can be written in UTF-8. *)
Lemma valid_ucn_range letter str after nst :
  let r := snd (_cpp_valid_ucn tab o skipping letter str after 0 nst) in
  0 <= uc_char r <= 0x7FFFFFFF /\ (length (uc_rest r) <= length str)%nat.
Proof.
  unfold _cpp_valid_ucn. rewrite !snd_W_bind.
  match goal with |- context [ucn_digits ?l 0 str after] => set (len := l) end.
  destruct (ucn_digits len 0 str after) as [[missing v] rest] eqn:Ed.
  destruct (ucn_digits_range len 0 str after missing v rest ltac:(lia) Ed) as [Hv Hl].
  change (negb (0 =? 0)) with false. rewrite andb_false_r. cbn [andb].
  destruct (negb (missing =? 0)%nat); [rewrite snd_W_bind; simpl; split; [lia|done]|].
  destruct (_ || flag v 0x80000000 || _) eqn:Ec; [rewrite snd_W_bind; simpl; split; [lia|done]|].
  simpl. split; [|done]. rewrite bit31 in Ec by done. bprop. lia.
Qed.

Lemma hex_digits_rest from : forall found n ov found' n' ov' rest,
  hex_digits from found n ov = (found', n', ov', rest) -> (length rest <= length from)%nat.
Proof.
  induction from as [|c from IH]; intros found n ov found' n' ov' rest; cbn [hex_digits].
  - by intros [= <- <- <- <-].
  - destruct (negb (ISXDIGIT c)); [by intros [= <- <- <- <-]|]. intros H. apply IH in H. simpl. lia.
Qed.

Lemma oct_digits_rest count : forall from n n' rest,
  oct_digits count from n = (n', rest) -> (length rest <= length from)%nat.
Proof.
  induction count as [|count IH]; intros [|c from] n n' rest; cbn [oct_digits]; try by intros [= <- <-].
  destruct ((c <? 48) || (55 <? c)); [by intros [= <- <-]|]. intros H. apply IH in H. simpl. lia.
Qed.

Lemma convert_escape_total from after tbuf : exists rest tbuf',
  snd (convert_escape tab o skipping from after tbuf cvt) = Some (rest, tbuf') /\
  (length rest <= length from)%nat.
Proof.
  unfold convert_escape. destruct (isc (hd after from) "u" || isc (hd after from) "U").
  { unfold convert_ucn. rewrite snd_W_bind. set (r := snd (_cpp_valid_ucn _ _ _ _ _ _ _ _)).
    destruct (valid_ucn_range (hd after from) (tl from) after INITIAL_NORMALIZE_STATE) as [Hc Hl].
    fold r in Hc, Hl. rewrite utf8_encode_spec by done.
    assert (length (tl from) <= length from)%nat by (destruct from; simpl; lia).
    destruct (6 <? _); [rewrite snd_W_bind; eexists _, _; split; [reflexivity|lia]|].
    destruct (cs_func cvt _ tbuf) as [ok t]. rewrite snd_W_bind. eexists _, _. split; [reflexivity|lia]. }
  destruct (isc (hd after from) "x").
  { unfold convert_hex. rewrite snd_W_bind. destruct (hex_digits (tl from) false 0 0) as [[[f n] ov] rest] eqn:E.
    apply hex_digits_rest in E. assert (length (tl from) <= length from)%nat by (destruct from; simpl; lia).
    destruct (negb f); rewrite snd_W_bind; eexists _, _; (split; [reflexivity|lia]). }
  destruct ((48 <=? hd after from) && (hd after from <=? 55)).
  { unfold convert_oct. destruct (oct_digits 3 from 0) as [n rest] eqn:E. apply oct_digits_rest in E.
    rewrite snd_W_bind. by eexists _, _. }
  rewrite snd_W_bind. destruct (cs_func cvt _ tbuf) as [ok t]. rewrite snd_W_bind. eexists _, _.
  split; [reflexivity|]. destruct from; simpl; lia.
Qed.

Lemma plain_run_app p : forall run rest, plain_run p = (run, rest) ->
  p = run ++ rest /\ match rest with [] => True | c :: _ => isc c "\" = true end.
Proof.
  induction p as [|c p IH]; intros run rest; cbn [plain_run]; [by intros [= <- <-]|].
  destruct (isc c "\") eqn:E; [by intros [= <- <-]|].
  destruct (plain_run p) as [run' rest'] eqn:Ep. intros [= <- <-].
  destruct (IH _ _ eq_refl) as [-> H]. done.
Qed.

Lemma interpret_body_total fuel : forall p after tbuf, (length p < fuel)%nat ->
  (exists tbuf', snd (interpret_body tab o skipping fuel p after cvt tbuf) = SOk tbuf') \/
  snd (interpret_body tab o skipping fuel p after cvt tbuf) = SFail.
Proof.
  induction fuel as [|fuel IH]; intros p after tbuf Hf; [lia|]. cbn [interpret_body].
  destruct (plain_run p) as [run rest] eqn:Ep. destruct (plain_run_app p _ _ Ep) as [-> _].
  destruct (match run with [] => (true, tbuf) | _ => cs_func cvt run tbuf end) as [ok t].
  destruct ok; cbn [negb]; [|by right].
  destruct rest as [|b from]; [left; by exists t|]. rewrite snd_W_bind.
  destruct (convert_escape_total from after t) as (p' & t' & -> & Hl).
  apply IH. rewrite length_app in Hf. simpl in Hf. lia.
Qed.
End total.

(** A literal as the lexer delivers it: a prefix, then a quoted text or a raw
    text with its opening parenthesis. *)
Definition literal_shape (text : list byte) : bool :=
  let p := skip_prefix text in
  if isc (peek p) "R" then match raw_prefix (drop 2 p) with Some _ => true | None => false end
  else (peek p =? 34) || isc (peek p) "'".

Lemma interpret_one_total tab o skipping cvt text tbuf : literal_shape text = true ->
  (exists tbuf', snd (interpret_one tab o skipping text cvt tbuf) = SOk tbuf') \/
  snd (interpret_one tab o skipping text cvt tbuf) = SFail.
Proof.
  unfold literal_shape, interpret_one. destruct (isc (peek (skip_prefix text)) "R").
  - destruct (raw_prefix _) as [[pre rest]|]; [|done]. intros _.
    destruct (cs_func cvt _ tbuf) as [ok t]. destruct ok; [left; by exists t|by right].
  - rewrite <- negb_orb. intros ->. cbn [negb]. apply interpret_body_total. lia.
Qed.

Lemma interpret_all_total tab o skipping cvt from : forall tbuf, Forall (fun t => literal_shape t = true) from ->
  (exists tbuf', snd (interpret_all tab o skipping from cvt tbuf) = SOk tbuf') \/
  snd (interpret_all tab o skipping from cvt tbuf) = SFail.
Proof.
  induction from as [|text from IH]; intros tbuf Hf; [left; by exists tbuf|].
  apply Forall_cons_1 in Hf as [Ht Hf]. cbn [interpret_all]. rewrite snd_W_bind.
  destruct (interpret_one_total tab o skipping cvt text tbuf Ht) as [[t ->]| ->]; [by apply IH|by right].
Qed.

(** ** Numeric escapes *)

Definition hex_number (ds : list byte) : Z := fold_left (fun v c => v * 16 + hex_value c) ds 0.

Lemma hex_value_range c : ISXDIGIT c = true -> 0 <= hex_value c < 16.
Proof.
  unfold ISXDIGIT, hex_value, ISDIGIT. change (chr "0") with 48. change (chr "9") with 57.
  change (chr "a") with 97. change (chr "f") with 102. change (chr "A") with 65. change (chr "F") with 70.
  bsplit; simpl; try done; lia.
Qed.

(** The test for bits lost by a shift of four. *)
Lemma hex_overflow n : 0 <= n < 2 ^ 32 ->
  Z.lxor n (Z.shiftr (u32 (Z.shiftl n 4)) 4) = 0 <-> n < 2 ^ 28.
Proof.
  intros Hn. rewrite Z.shiftl_mul_pow2, Z.shiftr_div_pow2 by lia. unfold u32, wrapu.
  change (2 ^ 4) with 16.
  assert (n = (n * 16) mod 2 ^ 32 / 16 <-> n < 2 ^ 28) as <-.
  { change (2 ^ 32) with (2 ^ 28 * 16). rewrite Z.mul_mod_distr_r by lia. rewrite Z.div_mul by lia. split.
    - intros ->. apply Z.mod_pos_bound. lia.
    - intros. symmetry. apply Z.mod_small. lia. }
  split; [apply Z.lxor_eq|]. intros H. rewrite <- H. apply Z.lxor_nilpotent.
Qed.

Lemma hex_digits_spec ds : forall rest found V n ov,
  Forall (fun c => ISXDIGIT c = true) ds ->
  match rest with [] => True | c :: _ => ISXDIGIT c = false end ->
  0 <= V -> n = V mod 2 ^ 32 -> 0 <= ov -> (ov = 0 <-> V < 2 ^ 32) ->
  let W := fold_left (fun v c => v * 16 + hex_value c) ds V in
  exists ov', hex_digits (ds ++ rest) found n ov = (match ds with [] => found | _ => true end, W mod 2 ^ 32, ov', rest) /\
    (ov' = 0 <-> W < 2 ^ 32).
Proof.
  induction ds as [|c ds IH]; intros rest found V n ov Hds Hrest HV Hn Hov Hiff; cbn [app fold_left].
  - exists ov. split; [|done]. rewrite Hn. destruct rest as [|c rest]; [done|]. cbn [hex_digits]. by rewrite Hrest.
  - apply Forall_cons_1 in Hds as [Hc Hds]. cbn [hex_digits]. rewrite Hc. cbn [negb].
    pose proof (hex_value_range c Hc) as Hh.
    pose proof (Z.mod_pos_bound V (2 ^ 32) ltac:(lia)) as Hm.
    assert (0 <= n < 2 ^ 32) as Hnr by lia. pose proof (hex_overflow n Hnr) as Ho.
    set (x := Z.lxor n _) in *.
    assert (0 <= x) as Hx.
    { unfold x. apply Z.lxor_nonneg. split; [|lia]. intros _. apply Z.shiftr_nonneg, wrapu_range. lia. }
    destruct (IH rest true (V * 16 + hex_value c) (u32 (u32 (Z.shiftl n 4) + hex_value c)) (Z.lor ov x))
      as (ov' & HR & Hi); try done; try lia.
    + unfold u32, wrapu. rewrite Z.shiftl_mul_pow2, Zplus_mod_idemp_l by lia. change (2 ^ 4) with 16.
      rewrite Hn, <- Zplus_mod_idemp_l, Zmult_mod_idemp_l, Zplus_mod_idemp_l. done.
    + apply Z.lor_nonneg. lia.
    + rewrite Z.lor_eq_0_iff, Hiff, Ho. split.
      * intros [H1 H2]. rewrite Hn, Z.mod_small in H2 by lia. lia.
      * intros H1. split; [lia|]. rewrite Hn, Z.mod_small by lia. lia.
    + exists ov'. split; [|done]. rewrite HR. by destruct ds.
Qed.

Lemma mask_spec w : 0 <= w <= 32 -> width_to_mask w = 2 ^ w - 1.
Proof.
  intros Hw. unfold width_to_mask. rewrite Z.min_l by lia.
  rewrite (proj2 (Z.leb_gt 64 w)) by lia. by rewrite Z.shiftl_mul_pow2, Z.mul_1_l by lia.
Qed.

Lemma hex_number_nonneg ds : forall V, 0 <= V -> Forall (fun c => ISXDIGIT c = true) ds ->
  0 <= fold_left (fun v c => v * 16 + hex_value c) ds V.
Proof.
  induction ds as [|c ds IH]; intros V HV Hds; [done|]. apply Forall_cons_1 in Hds as [Hc Hds].
  apply IH; [|done]. pose proof (hex_value_range c Hc). lia.
Qed.

Lemma convert_hex_spec o cvt x ds rest tbuf :
  0 < cs_width cvt <= 32 -> cpp_warn_traditional o = false ->
  ds <> [] -> Forall (fun c => ISXDIGIT c = true) ds ->
  match rest with [] => True | c :: _ => ISXDIGIT c = false end ->
  convert_hex o (x :: ds ++ rest) tbuf cvt
  = (if hex_number ds <? 2 ^ cs_width cvt then []
     else [Diag CPP_DL_PEDWARN CPP_W_NONE "hex escape sequence out of range"],
     Some (rest, emit_numeric_escape o (hex_number ds mod 2 ^ cs_width cvt) tbuf cvt)).
Proof.
  intros Hw Ht Hne Hds Hrest. unfold convert_hex. rewrite Ht. cbn [when tl].
  destruct (hex_digits_spec ds rest false 0 0 0 Hds Hrest ltac:(lia) eq_refl ltac:(lia) ltac:(lia))
    as (ov & -> & Hov). change (fold_left _ ds 0) with (hex_number ds) in *.
  pose proof (hex_number_nonneg ds 0 ltac:(lia) Hds : 0 <= hex_number ds) as Hnn.
  rewrite W_bind_ret_l. destruct ds as [|d ds]; [done|]. set (V := hex_number (d :: ds)) in *. cbn [negb].
  assert (2 ^ cs_width cvt <= 2 ^ 32) as Hle by (apply Z.pow_le_mono_r; lia).
  pose proof (pow2_gt0 (cs_width cvt) ltac:(lia)) as Hpos.
  rewrite mask_spec, land_mask by lia.
  assert (V mod 2 ^ 32 mod 2 ^ cs_width cvt = V mod 2 ^ cs_width cvt) as Hmm.
  { rewrite (Z.div_mod V (2 ^ 32)) at 2 by lia.
    replace 32 with (cs_width cvt + (32 - cs_width cvt)) at 2 by lia.
    rewrite pow2_split, Zplus_mod, <- Z.mul_assoc by lia.
    rewrite (Z.mul_comm (2 ^ cs_width cvt)), Z.mod_mul, Z.add_0_l, Z.mod_mod by lia. done. }
  rewrite Hmm. destruct (Z.ltb_spec V (2 ^ cs_width cvt)) as [Hlt|Hge].
  - rewrite (proj2 Hov) by lia. rewrite !Z.mod_small, !Z.eqb_refl by lia. done.
  - assert ((negb (ov =? 0) || negb (V mod 2 ^ 32 =? V mod 2 ^ cs_width cvt)) = true) as ->; [|done].
    destruct (Z.eqb_spec ov 0) as [E|]; [|done]. simpl. apply negb_true_iff, Z.eqb_neq.
    rewrite Z.mod_small by (apply Hov in E; lia). pose proof (Z.mod_pos_bound V (2 ^ cs_width cvt) Hpos). lia.
Qed.

(** ** What a literal denotes *)

(** What a converter promises: it writes the characters of a text in the code
    [enc'] of the execution set and keeps the buffer large enough. *)
Class ExecSet (cvt : cset_converter) (enc' : Z -> list byte) (ok : Z -> Prop) : Prop := {
  exec_run cs to : Forall ok cs -> well_sized to ->
    exists size, cs_func cvt (concat (map utf8 cs)) to
                 = (true, mk_strbuf (sb_text to ++ concat (map enc' cs)) size) /\
      well_sized (mk_strbuf (sb_text to ++ concat (map enc' cs)) size);
  exec_ascii c : 0 <= c < 0x80 -> ok c;
  exec_valid c : ok c -> valid_char c
}.

Definition xdigits (ds : list byte) : Prop := Forall (fun c => ISXDIGIT c = true) ds.
Definition odigits (ds : list byte) : Prop := Forall (fun c => 48 <= c <= 55) ds.
Definition oct_number (ds : list byte) : Z := fold_left (fun v c => v * 8 + (c - 48)) ds 0.

(** The escape sequences. *)
Inductive escape : Type :=
  | ESimple (letter value : byte)
  | EHex (ds : list byte)
  | EOct (ds : list byte)
  | EUcn (long : bool) (ds : list byte).

Definition simple_table : list (byte * byte) :=
  [(92, 92); (39, 39); (34, 34); (63, 63); (98, 8); (102, 12); (110, 10); (114, 13); (116, 9);
   (118, 11); (97, 7)].

Definition escape_text (e : escape) : list byte :=
  match e with
  | ESimple letter _ => [letter]
  | EHex ds => 120 :: ds
  | EOct ds => ds
  | EUcn long ds => (if long then 85 else 117) :: ds
  end.

Section literals.
Context (tab : ucn_table) (o : cpp_options) (skipping : bool) (cvt : cset_converter)
  (enc' : Z -> list byte) (ok : Z -> Prop).
Context `{!ExecSet cvt enc' ok}.

(** The bytes of a numeric escape. *)
Definition numeric_bytes (n : Z) : list byte :=
  if negb (cs_width cvt =? char_precision o) then
    let bs := escape_bytes (Z.to_nat (cs_width cvt / char_precision o)) n
                (width_to_mask (char_precision o)) (char_precision o) in
    if bytes_big_endian o then rev bs else bs
  else [u8 n].

Definition escape_exec (e : escape) : list byte :=
  match e with
  | ESimple _ value => enc' value
  | EHex ds => numeric_bytes (hex_number ds)
  | EOct ds => numeric_bytes (oct_number ds)
  | EUcn _ ds => enc' (hex_number ds)
  end.

(** A universal character name C accepts in a literal. *)
Definition ucn_ok (c : Z) : Prop :=
  ok c /\ (0xa0 <= c \/ cplusplus o = true \/ In c [0x24; 0x40; 0x60]).

(** A well-formed escape before the text [rest]. *)
Definition escape_ok (e : escape) (rest : list byte) : Prop :=
  match e with
  | ESimple letter value => In (letter, value) simple_table
  | EHex ds =>
      ds <> [] /\ xdigits ds /\ hex_number ds < 2 ^ cs_width cvt /\
      match rest with [] => True | c :: _ => ISXDIGIT c = false end
  | EOct ds =>
      (1 <= length ds <= 3)%nat /\ odigits ds /\ oct_number ds < 2 ^ cs_width cvt /\
      (length ds = 3%nat \/ match rest with [] => True | c :: _ => ~ 48 <= c <= 55 end)
  | EUcn long ds => xdigits ds /\ length ds = (if long then 8 else 4)%nat /\ ucn_ok (hex_number ds)
  end.

(** A literal: runs of characters with escapes between them. *)
Fixpoint lit_text (l : list (list Z * escape)) (last : list Z) : list byte :=
  match l with
  | [] => concat (map utf8 last)
  | (run, e) :: l => concat (map utf8 run) ++ 92 :: escape_text e ++ lit_text l last
  end.

Fixpoint lit_exec (l : list (list Z * escape)) (last : list Z) : list byte :=
  match l with
  | [] => concat (map enc' last)
  | (run, e) :: l => concat (map enc' run) ++ escape_exec e ++ lit_exec l last
  end.

Definition run_ok (cs : list Z) : Prop := Forall (fun c => ok c /\ c <> 92) cs.

Fixpoint lit_ok (l : list (list Z * escape)) (last : list Z) : Prop :=
  match l with
  | [] => run_ok last
  | (run, e) :: l => run_ok run /\ escape_ok e (lit_text l last) /\ lit_ok l last
  end.

(** The options under which no escape of these is diagnosed. *)
Definition quiet_options : Prop :=
  cpp_warn_traditional o = false /\ (cplusplus o = true \/ c99 o = true) /\
  (cplusplus o = true \/ cpp_warn_c90_c99_compat o <= 0).

Context (Hw : 0 < cs_width cvt <= 32) (Hcp : 0 < char_precision o) (Hq : quiet_options).

Lemma emit_text n to : well_sized to -> exists size,
  emit_numeric_escape o n to cvt = mk_strbuf (sb_text to ++ numeric_bytes n) size /\
  well_sized (mk_strbuf (sb_text to ++ numeric_bytes n) size).
Proof using Hw Hcp.
  intros Hs. unfold emit_numeric_escape, numeric_bytes, well_sized, sb_len, OUTBUF_BLOCK_SIZE in *.
  assert (forall k m, length (escape_bytes k m (width_to_mask (char_precision o)) (char_precision o)) = k) as Hlen.
  { induction k; intros; simpl; [done|]. by rewrite IHk. }
  pose proof (Z.div_le_mono 0 (cs_width cvt) (char_precision o) ltac:(lia) ltac:(lia)) as Hd0.
  rewrite Z.div_0_l in Hd0 by lia.
  assert (cs_width cvt / char_precision o <= 32).
  { transitivity (cs_width cvt / 1); [apply Z.div_le_compat_l; lia|rewrite Z.div_1_r; lia]. }
  destruct (negb (cs_width cvt =? char_precision o)); eexists; (split; [reflexivity|]); simpl;
    rewrite length_app; [destruct (bytes_big_endian o); rewrite ?length_rev, Hlen|simpl];
    (match goal with |- context [?a <? ?b] => destruct (Z.ltb_spec a b) end; lia).
Qed.

Lemma utf8_ascii c : 0 <= c < 0x80 -> utf8 c = [c].
Proof. intros H. unfold utf8. rewrite extra_small by lia. cbn. by rewrite Z.div_1_r. Qed.

(** Bytes of a character other than the backslash. *)
Lemma utf8_not_backslash c : valid_char c -> c <> 92 -> Forall (fun b => isc b "\" = false) (utf8 c).
Proof.
  intros [Hc _] Hne. unfold isc. change (chr "\") with 92. destruct (Z.ltb_spec c 0x80) as [H|H].
  - rewrite utf8_ascii by lia. repeat constructor. by apply Z.eqb_neq.
  - constructor.
    + destruct (utf8_lead c Hc H) as (_ & _ & Hb). apply Z.eqb_neq. lia.
    + clear. induction (extra c) as [|k IH]; constructor; [|done]. apply Z.eqb_neq.
      pose proof (Z.mod_pos_bound (c / 64 ^ Z.of_nat k) 64 ltac:(lia)). lia.
Qed.

Lemma plain_run_text s rest : Forall (fun b => isc b "\" = false) s ->
  match rest with [] => True | c :: _ => isc c "\" = true end -> plain_run (s ++ rest) = (s, rest).
Proof.
  intros Hs Hr. induction Hs as [|c s Hc Hs IH]; simpl.
  - destruct rest as [|c rest]; [done|]. simpl. by rewrite Hr.
  - by rewrite Hc, IH.
Qed.

Lemma run_not_backslash cs : run_ok cs -> Forall (fun b => isc b "\" = false) (concat (map utf8 cs)).
Proof using ExecSet0.
  induction 1 as [|c cs [Hc Hne] _ IH]; cbn [map concat]; [constructor|]. apply Forall_app. split; [|done].
  apply utf8_not_backslash; [by apply exec_valid|done].
Qed.

Lemma run_all_ok cs : run_ok cs -> Forall ok cs.
Proof. apply Forall_impl. by intros c [? _]. Qed.

(** An escape delivers what it denotes, with no diagnostic. *)
Definition delivers (e : escape) (rest : list byte) (after : byte) (to : strbuf) : Prop :=
  exists size, convert_escape tab o skipping (escape_text e ++ rest) after to cvt
               = ([], Some (rest, mk_strbuf (sb_text to ++ escape_exec e) size)) /\
    well_sized (mk_strbuf (sb_text to ++ escape_exec e) size).

Lemma simple_delivers letter value rest after to : In (letter, value) simple_table -> well_sized to ->
  delivers (ESimple letter value) rest after to.
Proof using ExecSet0 Hq.
  intros Hin Hs. destruct Hq as [Ht _]. unfold delivers. cbn [escape_text escape_exec].
  assert (0 <= value < 0x80 /\ convert_escape tab o skipping ([letter] ++ rest) after to cvt
    = (let '(ok0, tbuf) := cs_func cvt [value] to in
       when (negb ok0)
         (cpp_errno CPP_DL_ERROR "converting escape sequence to execution character set") ;;w
       mret (Some (rest, tbuf)))) as [Hv ->].
  { assert (0 <= value < 0x80 /\ (isc letter "u" || isc letter "U" || isc letter "x"
              || ((48 <=? letter) && (letter <=? 55))) = false /\ simple_escape o letter = mret value)
      as (Hv & Hf & He).
    { unfold simple_escape. rewrite Ht.
      repeat (destruct Hin as [[= <- <-]|Hin]; [split; [lia|]; split; vm_compute; reflexivity|]). done. }
    split; [done|]. unfold convert_escape. cbn [app hd tl]. apply orb_false_iff in Hf as [Hf ->].
    apply orb_false_iff in Hf as [-> ->]. by rewrite He, W_bind_ret_l. }
  destruct (exec_run [value] to ltac:(repeat constructor; by apply exec_ascii) Hs) as (size & E & Hsz).
  cbn [map concat] in E, Hsz. rewrite !app_nil_r, utf8_ascii in E by done. rewrite app_nil_r in Hsz.
  exists size. by rewrite (E : cs_func cvt [value] to = _).
Qed.

Lemma hex_delivers ds rest after to : escape_ok (EHex ds) rest -> well_sized to ->
  delivers (EHex ds) rest after to.
Proof using Hw Hcp Hq.
  intros (Hne & Hds & Hlt & Hr) Hs. destruct Hq as [Ht _]. unfold delivers.
  change (convert_escape tab o skipping (escape_text (EHex ds) ++ rest) after to cvt)
    with (convert_hex o (120 :: ds ++ rest) to cvt).
  rewrite convert_hex_spec by done. rewrite (proj2 (Z.ltb_lt _ _) Hlt).
  pose proof (hex_number_nonneg ds 0 ltac:(lia) Hds : 0 <= hex_number ds).
  rewrite Z.mod_small by lia. destruct (emit_text (hex_number ds) to Hs) as (size & -> & Hsz). by exists size.
Qed.

Lemma oct_digits_spec ds : forall count rest n, odigits ds -> (length ds <= count)%nat ->
  0 <= n -> (n + 1) * 8 ^ Z.of_nat (length ds) <= 2 ^ 32 ->
  (length ds = count \/ match rest with [] => True | c :: _ => ~ 48 <= c <= 55 end) ->
  oct_digits count (ds ++ rest) n = (fold_left (fun v c => v * 8 + (c - 48)) ds n, rest) /\
  0 <= fold_left (fun v c => v * 8 + (c - 48)) ds n < (n + 1) * 8 ^ Z.of_nat (length ds).
Proof.
  induction ds as [|c ds IH]; intros count rest n Hds Hc Hn Hb Hr; cbn [app fold_left].
  - split; [|simpl length; lia]. destruct count as [|count]; [by destruct rest|].
    destruct rest as [|c rest]; [done|]. destruct Hr as [?|Hr]; [done|]. cbn [oct_digits].
    destruct (Z.ltb_spec c 48), (Z.ltb_spec 55 c); cbn [orb]; try done. lia.
  - destruct count as [|count]; [simpl in Hc; lia|]. apply Forall_cons_1 in Hds as [Hc1 Hds].
    cbn [oct_digits]. rewrite (proj2 (Z.ltb_ge c 48)), (proj2 (Z.ltb_ge 55 c)) by lia. cbn [orb].
    simpl length in Hb. rewrite Nat2Z.inj_succ, Z.pow_succ_r in Hb by lia.
    pose proof (Z.pow_pos_nonneg 8 (Z.of_nat (length ds)) ltac:(lia) ltac:(lia)) as Hp.
    assert (n * 8 + 8 <= 2 ^ 32) by nia.
    rewrite Z.shiftl_mul_pow2 by lia. change (2 ^ 3) with 8. unfold u32.
    rewrite (wrapu_small 32 (n * 8)), wrapu_small by lia.
    replace (n * 8 + c - 48) with (n * 8 + (c - 48)) by lia.
    destruct (IH count rest (n * 8 + (c - 48))) as [-> Hrange]; try done; try (simpl in Hc; lia); try nia.
    { destruct Hr as [Hr|Hr]; [left; simpl in Hr; lia|by right]. }
    split; [done|]. simpl length. rewrite Nat2Z.inj_succ, Z.pow_succ_r by lia. nia.
Qed.

Lemma oct_delivers ds rest after to : escape_ok (EOct ds) rest -> well_sized to ->
  delivers (EOct ds) rest after to.
Proof using Hw Hcp.
  intros (Hlen & Hds & Hlt & Hr) Hs. unfold delivers. cbn [escape_text escape_exec].
  assert (convert_escape tab o skipping (ds ++ rest) after to cvt = convert_oct o (ds ++ rest) to cvt) as ->.
  { destruct ds as [|d ds]; [simpl in Hlen; lia|]. apply Forall_cons_1 in Hds as [Hd _].
    unfold convert_escape. cbn [app hd]. unfold isc.
    change (chr "u") with 117. change (chr "U") with 85. change (chr "x") with 120.
    rewrite !(proj2 (Z.eqb_neq d _)) by lia. cbn [orb].
    by rewrite (proj2 (Z.leb_le 48 d)), (proj2 (Z.leb_le d 55)) by lia. }
  unfold convert_oct.
  destruct (oct_digits_spec ds 3 rest 0 Hds) as [-> Hrange]; try done; try lia.
  { transitivity (8 ^ 3); [|lia]. rewrite Z.mul_1_l. apply Z.pow_le_mono_r; lia. }
  change (fold_left _ ds 0) with (oct_number ds) in *.
  rewrite mask_spec, land_mask, Z.mod_small, Z.eqb_refl by lia. cbn [negb when]. rewrite W_bind_ret_l.
  destruct (emit_text (oct_number ds) to Hs) as (size & -> & Hsz). by exists size.
Qed.

Lemma ucn_digits_spec ds : forall rest after V, xdigits ds -> 0 <= V ->
  (V + 1) * 16 ^ Z.of_nat (length ds) <= 2 ^ 32 ->
  ucn_digits (length ds) V (ds ++ rest) after
  = (0%nat, fold_left (fun v c => v * 16 + hex_value c) ds V, rest).
Proof.
  induction ds as [|c ds IH]; intros rest after V Hds HV Hb; [done|].
  apply Forall_cons_1 in Hds as [Hc Hds]. cbn [length ucn_digits app hd tl fold_left]. rewrite Hc. cbn [negb].
  pose proof (hex_value_range c Hc) as Hh. simpl length in Hb.
  rewrite Nat2Z.inj_succ, Z.pow_succ_r in Hb by lia.
  pose proof (Z.pow_pos_nonneg 16 (Z.of_nat (length ds)) ltac:(lia) ltac:(lia)) as Hp.
  assert (V * 16 + 16 <= 2 ^ 32) by nia.
  rewrite Z.shiftl_mul_pow2 by lia. change (2 ^ 4) with 16. unfold u32.
  rewrite (wrapu_small 32 (V * 16)), wrapu_small by lia.
  rewrite <- (IH rest after) by (try done; nia). destruct (ds ++ rest) eqn:E; [|done].
  apply app_eq_nil in E as [-> ->]. done.
Qed.

Lemma ucn_language_quiet letter : ucn_language o letter 0 = mret tt.
Proof using Hq.
  destruct Hq as (Ht & Hl & Hcompat). unfold ucn_language. rewrite Ht.
  destruct (cplusplus o), (c99 o); try done;
    try (by destruct Hl as [?|?]); rewrite ?andb_false_r; try done;
    destruct Hcompat as [?|Hc]; try done; by rewrite (proj2 (Z.ltb_ge 0 _) Hc).
Qed.

Lemma valid_ucn_spec letter ds rest after : xdigits ds ->
  (letter = 117 /\ length ds = 4%nat) \/ (letter = 85 /\ length ds = 8%nat) -> ucn_ok (hex_number ds) ->
  _cpp_valid_ucn tab o skipping letter (ds ++ rest) after 0 INITIAL_NORMALIZE_STATE
  = mret (mk_ucn true rest (hex_number ds) INITIAL_NORMALIZE_STATE (warn_dollars o)).
Proof using ExecSet0 Hq.
  intros Hds Hlet (Hok & Hr). pose proof (exec_valid (hex_number ds) Hok) as [Hv Hns].
  assert (ucn_digits (length ds) 0 (ds ++ rest) after = (0%nat, hex_number ds, rest)) as Hdig.
  { apply ucn_digits_spec; [done|lia|]. destruct Hlet as [[_ ->]|[_ ->]]; simpl; lia. }
  unfold _cpp_valid_ucn. rewrite ucn_language_quiet, W_bind_ret_l.
  replace (if isc letter "u" then (mret 4%nat : W nat) else if isc letter "U" then mret 8%nat
           else cpp_error CPP_DL_ICE "In _cpp_valid_ucn but not a UCN" ;;w mret 4%nat)
    with (mret (length ds) : W nat) by (by destruct Hlet as [[-> ->]|[-> ->]]).
  rewrite W_bind_ret_l, Hdig. cbn [Nat.eqb negb andb].
  rewrite bit31, (proj2 (Z.leb_gt (2 ^ 31) _)) by lia.
  assert (((hex_number ds <? 0xa0) && negb (cplusplus o)
    && (negb (hex_number ds =? 0x24) && negb (hex_number ds =? 0x40) && negb (hex_number ds =? 0x60)))
    = false) as ->.
  { destruct Hr as [Hr|[-> |Hr]].
    - by rewrite (proj2 (Z.ltb_ge _ _) Hr).
    - by rewrite andb_false_r.
    - destruct Hr as [<-|[<-|[<-|[]]]]; by rewrite andb_false_r. }
  assert (((0xD800 <=? hex_number ds) && (hex_number ds <=? 0xDFFF)) = false) as ->; [|done].
  bsplit; try done; lia.
Qed.

Lemma ucn_delivers long ds rest after to : escape_ok (EUcn long ds) rest -> well_sized to ->
  delivers (EUcn long ds) rest after to.
Proof using ExecSet0 Hq.
  intros (Hds & Hlen & Huc) Hs. pose proof Huc as [Hok _]. pose proof (exec_valid _ Hok) as [Hv _].
  unfold delivers. cbn [escape_exec].
  assert (exists letter : byte, convert_escape tab o skipping (escape_text (EUcn long ds) ++ rest) after to cvt
    = convert_ucn tab o skipping (letter :: ds ++ rest) after to cvt /\
    ((letter = 117 /\ length ds = 4%nat) \/ (letter = 85 /\ length ds = 8%nat))) as (letter & -> & Hlet).
  { destruct long; [exists 85|exists 117]; (split; [done|]); [right|left]; done. }
  unfold convert_ucn. cbn [hd tl]. rewrite valid_ucn_spec, W_bind_ret_l by done. cbn [uc_char uc_rest].
  rewrite utf8_encode_spec by done. rewrite utf8_length_eq. pose proof (extra_le (hex_number ds)).
  rewrite (proj2 (Z.ltb_ge 6 _)) by lia.
  destruct (exec_run [hex_number ds] to ltac:(by repeat constructor) Hs) as (size & E & Hsz).
  cbn [map concat] in E, Hsz. rewrite !app_nil_r in E. rewrite app_nil_r in Hsz.
  exists size. by rewrite (E : cs_func cvt (utf8 (hex_number ds)) to = _).
Qed.

Lemma escape_delivers e rest after to : escape_ok e rest -> well_sized to -> delivers e rest after to.
Proof using ExecSet0 Hw Hcp Hq.
  destruct e; intros; auto using simple_delivers, hex_delivers, oct_delivers, ucn_delivers.
Qed.

(** The conversion of a run, which is skipped when it is empty. *)
Lemma run_delivers cs to : run_ok cs -> well_sized to -> exists size,
  match concat (map utf8 cs) with [] => (true, to) | _ => cs_func cvt (concat (map utf8 cs)) to end
  = (true, mk_strbuf (sb_text to ++ concat (map enc' cs)) size) /\
  well_sized (mk_strbuf (sb_text to ++ concat (map enc' cs)) size).
Proof using ExecSet0.
  intros Hr Hs. destruct cs as [|c cs].
  - exists (sb_asize to). simpl. rewrite app_nil_r. by destruct to.
  - destruct (exec_run (c :: cs) to (run_all_ok _ Hr) Hs) as (size & E & Hsz). exists size.
    split; [|done]. rewrite <- E. done.
Qed.

Lemma body_delivers l last after : forall fuel to, (length l < fuel)%nat -> lit_ok l last -> well_sized to ->
  exists size, interpret_body tab o skipping fuel (lit_text l last) after cvt to
               = ([], SOk (mk_strbuf (sb_text to ++ lit_exec l last) size)) /\
    well_sized (mk_strbuf (sb_text to ++ lit_exec l last) size).
Proof using ExecSet0 Hw Hcp Hq.
  induction l as [|[run e] l IH]; intros fuel to Hf Hl Hs; (destruct fuel as [|fuel]; [simpl in Hf; lia|]);
    cbn [interpret_body lit_text lit_exec] in *.
  - rewrite <- (app_nil_r (concat (map utf8 last))).
    rewrite plain_run_text by (try done; by apply run_not_backslash).
    destruct (run_delivers last to Hl Hs) as (size & E & Hsz). exists size. by rewrite E.
  - destruct Hl as (Hrun & He & Hl).
    rewrite plain_run_text by (try done; by apply run_not_backslash).
    destruct (run_delivers run to Hrun Hs) as (size & E & Hsz). rewrite E. cbn [negb].
    destruct (escape_delivers e (lit_text l last) after _ He Hsz) as (size' & E' & Hsz').
    rewrite E', !W_bind_pair. cbn [sb_text] in *.
    destruct (IH fuel _ ltac:(simpl in Hf; lia) Hl Hsz') as (size'' & E'' & Hsz'').
    exists size''. rewrite E''. cbn [sb_text] in *. rewrite <- !app_assoc in *. done.
Qed.
End literals.

(** A literal token: encoding prefix, quote, contents. *)
Record literal_token : Type := mk_lit {
  lit_prefix : list byte; lit_quote : byte; lit_parts : list (list Z * escape); lit_last : list Z
}.

Definition token_text (t : literal_token) : list byte :=
  lit_prefix t ++ lit_quote t :: lit_text (lit_parts t) (lit_last t) ++ [lit_quote t].

Definition literal_wf (o : cpp_options) (cvt : cset_converter) (ok : Z -> Prop) (t : literal_token) : Prop :=
  In (lit_prefix t) [[]; [117]; [117; 56]; [85]; [76]] /\ In (lit_quote t) [34; 39] /\
  lit_ok o cvt ok (lit_parts t) (lit_last t).

Lemma lit_length l last : (length l <= length (lit_text l last))%nat.
Proof.
  induction l as [|[run e] l IH]; cbn [lit_text length]; [lia|].
  rewrite length_app. cbn [length]. rewrite length_app. lia.
Qed.

Lemma skip_prefix_text pre q X : In pre [[]; [117]; [117; 56]; [85]; [76]] -> In q [34; 39] ->
  skip_prefix (pre ++ q :: X) = q :: X.
Proof.
  intros Hp Hq. repeat (destruct Hp as [<-|Hp]; [by destruct Hq as [<-|[<-|[]]]|]). done.
Qed.

Section tokens.
Context (tab : ucn_table) (o : cpp_options) (skipping : bool) (cvt : cset_converter)
  (enc' : Z -> list byte) (ok : Z -> Prop).
Context `{!ExecSet cvt enc' ok}.
Context (Hw : 0 < cs_width cvt <= 32) (Hcp : 0 < char_precision o) (Hq : quiet_options o).

Definition token_exec (t : literal_token) : list byte :=
  lit_exec o cvt enc' (lit_parts t) (lit_last t).

Lemma one_delivers t to : literal_wf o cvt ok t -> well_sized to -> exists size,
  interpret_one tab o skipping (token_text t) cvt to
  = ([], SOk (mk_strbuf (sb_text to ++ token_exec t) size)) /\
  well_sized (mk_strbuf (sb_text to ++ token_exec t) size).
Proof using ExecSet0 Hw Hcp Hq.
  intros (Hp & Hqu & Hl) Hs. unfold interpret_one, token_text.
  rewrite skip_prefix_text by done. cbn [peek hd tl].
  rewrite removelast_last, last_last.
  assert (isc (lit_quote t) "R" = false /\
    (negb (lit_quote t =? 34) && negb (isc (lit_quote t) "'")) = false) as [-> ->].
  { by destruct Hqu as [<-|[<-|[]]]. }
  apply (body_delivers tab o skipping cvt enc' ok); try done.
  pose proof (lit_length (lit_parts t) (lit_last t)). lia.
Qed.

Lemma all_deliver ts : forall to, Forall (literal_wf o cvt ok) ts -> well_sized to -> exists size,
  interpret_all tab o skipping (map token_text ts) cvt to
  = ([], SOk (mk_strbuf (sb_text to ++ concat (map token_exec ts)) size)) /\
  well_sized (mk_strbuf (sb_text to ++ concat (map token_exec ts)) size).
Proof using ExecSet0 Hw Hcp Hq.
  induction ts as [|t ts IH]; intros to Hf Hs; cbn [map concat interpret_all].
  - exists (sb_asize to). rewrite app_nil_r. by destruct to.
  - apply Forall_cons_1 in Hf as [Ht Hf]. destruct (one_delivers t to Ht Hs) as (size & -> & Hsz).
    rewrite W_bind_pair. destruct (IH _ Hf Hsz) as (size' & -> & Hsz'). exists size'.
    cbn [sb_text] in *. by rewrite <- !app_assoc in *.
Qed.
End tokens.

Lemma interpret_string_spec tab o skipping d type enc' ok ts :
  let cvt := converter_for_type d type in
  ExecSet cvt enc' ok -> 0 < cs_width cvt <= 32 -> 0 < char_precision o -> quiet_options o ->
  Forall (literal_wf o cvt ok) ts ->
  cpp_interpret_string tab o skipping d (map token_text ts) type
  = ([], SOk (concat (map (token_exec o cvt enc') ts) ++ numeric_bytes o cvt 0)).
Proof.
  intros cvt Hex Hw Hcp Hq Hts. unfold cpp_interpret_string. fold cvt.
  destruct (all_deliver tab o skipping cvt enc' ok Hw Hcp Hq ts
    (mk_strbuf [] (Z.max OUTBUF_BLOCK_SIZE (Z.of_nat (length (hd [] (map token_text ts)))))) Hts)
    as (size & -> & Hsz).
  { unfold well_sized, sb_len, OUTBUF_BLOCK_SIZE. cbn [sb_text sb_asize length]. lia. }
  rewrite W_bind_pair. cbn [sb_text app] in *.
  destruct (emit_text o cvt Hw Hcp 0 _ Hsz) as (size' & -> & _). done.
Qed.

(** ** The converters of the source *)

#[export] Instance identity_set w : ExecSet (mk_cset convert_no_conversion w) utf8 valid_char.
Proof.
  split; [|unfold valid_char; lia|done]. intros cs to _ Hs. eexists. split; [reflexivity|].
  unfold well_sized, sb_len in *. cbn [sb_text sb_asize]. rewrite length_app.
  destruct (Z.ltb_spec (sb_asize to) (Z.of_nat (length (sb_text to)) + Z.of_nat (length (concat (map utf8 cs)))));
    [|lia].
  pose proof (Z.div_pos (Z.of_nat (length (sb_text to)) + Z.of_nat (length (concat (map utf8 cs)))) 4
    ltac:(lia) ltac:(lia)). lia.
Qed.

Lemma loop_exec one enc' ok cs to : Code utf8 ok -> Converts one utf8 enc' ok ->
  (forall c, ok c -> valid_char c) -> Forall ok cs -> well_sized to ->
  exists size, loop_func (conversion_loop one) (concat (map utf8 cs)) to
    = (true, mk_strbuf (sb_text to ++ concat (map enc' cs)) size) /\
    well_sized (mk_strbuf (sb_text to ++ concat (map enc' cs)) size).
Proof.
  intros Hcode Hconv Hv Hcs Hs.
  destruct (loop_converted (one := one) (enc := utf8) (enc' := enc') (ok := ok) (concat (map utf8 cs)) to)
    as [(cs' & size & Hd & E & Hsz)|[Hno _]]; [|done| |].
  - apply (text_bytes utf8 ok); [|done]. intros c Hc. by apply utf8_bytes, Hv.
  - pose proof (decodes_unique utf8 ok _ cs cs' ltac:(by split) Hd) as <-.
    exists size. unfold loop_func. by rewrite E.
  - by destruct (Hno cs).
Qed.

#[export] Instance utf16_set bigend w :
  ExecSet (mk_cset (loop_func (convert_utf8_utf16 bigend)) w) (utf16 bigend) char16.
Proof.
  split; [|unfold char16, valid_char; lia|by intros c [? _]]. intros cs to Hcs Hs.
  apply (loop_exec _ _ char16); try done; [|apply _|by intros c [? _]].
  by apply (code_weaken utf8 valid_char); [intros c [? _]|apply _].
Qed.

#[export] Instance utf32_set bigend w :
  ExecSet (mk_cset (loop_func (convert_utf8_utf32 bigend)) w) (utf32 bigend) valid_char.
Proof.
  split; [|unfold valid_char; lia|done]. intros cs to Hcs Hs.
  by apply (loop_exec _ _ valid_char); try apply _.
Qed.

(** The converters of a little-endian target with 8-bit characters and a 32-bit
    wchar_t, the execution set being UTF-8. *)
Definition utf8_csets : csets :=
  mk_csets (mk_cset convert_no_conversion 8) (mk_cset convert_no_conversion 8)
    (mk_cset (loop_func (convert_utf8_utf16 false)) 16)
    (mk_cset (loop_func (convert_utf8_utf32 false)) 32)
    (mk_cset (loop_func (convert_utf8_utf32 false)) 32).

(** ** Character constants *)

(** The value of [r] as a character of [w] bits. *)
Definition char_value (w : Z) (unsigned_p : bool) (r : Z) : Z :=
  let m := r mod 2 ^ w in if unsigned_p || (m <? 2 ^ (w - 1)) then m else m - 2 ^ w.

Definition be_number (bs : list byte) : Z := fold_left (fun v b => v * 256 + b) bs 0.

Lemma lor_high r w : 0 < w < 32 -> 0 <= r < 2 ^ 32 -> Z.lor r (2 ^ 32 - 2 ^ w) = r mod 2 ^ w + (2 ^ 32 - 2 ^ w).
Proof.
  intros Hw Hr. pose proof (pow2_gt0 w ltac:(lia)) as Hp. pose proof (Z.mod_pos_bound r (2 ^ w) Hp) as Hm.
  set (a := r / 2 ^ w). assert (r = Z.lor (a * 2 ^ w) (r mod 2 ^ w)) as Er.
  { rewrite lor_low by lia. unfold a. rewrite (Z.div_mod r (2 ^ w)) at 1 by lia. lia. }
  assert (2 ^ 32 - 2 ^ w = Z.ones (32 - w) * 2 ^ w) as ->.
  { rewrite Z.ones_equiv. replace (2 ^ 32) with (2 ^ (32 - w) * 2 ^ w); [lia|].
    rewrite <- Z.pow_add_r by lia. f_equal. lia. }
  rewrite Er at 1. rewrite <- Z.lor_assoc, (Z.lor_comm (r mod 2 ^ w)), Z.lor_assoc.
  rewrite <- !Z.shiftl_mul_pow2, <- Z.shiftl_lor by lia.
  assert (0 <= a < 2 ^ (32 - w)) as Ha.
  { unfold a. split; [apply Z.div_pos; lia|]. apply Z.div_lt_upper_bound; [lia|].
    rewrite <- Z.pow_add_r by lia. replace (w + (32 - w)) with 32 by lia. lia. }
  rewrite Z.lor_ones_low; [|lia|].
  - rewrite Z.shiftl_mul_pow2, lor_low by lia. lia.
  - destruct (Z.eq_dec a 0) as [-> |]; [simpl; lia|]. apply Z.log2_lt_pow2; lia.
Qed.

Lemma truncate_spec w u r : 0 < w <= 32 -> 0 <= r < 2 ^ 32 ->
  truncate_charconst w u r = u32 (char_value w u r).
Proof.
  intros Hw Hr. unfold truncate_charconst, char_value. pose proof (pow2_gt0 w ltac:(lia)) as Hp.
  pose proof (Z.mod_pos_bound r (2 ^ w) Hp) as Hm. unfold u32.
  destruct (Z.ltb_spec w 32) as [Hlt|Hge].
  - assert (2 ^ w < 2 ^ 32) by (apply Z.pow_lt_mono_r; lia).
    rewrite !Z.shiftl_mul_pow2, !Z.mul_1_l by lia.
    assert ((Z.land r (2 ^ (w - 1)) =? 0) = (r mod 2 ^ w <? 2 ^ (w - 1))) as ->.
    { rewrite land_bit_eqb by lia. rewrite <- (Z.mod_pow2_bits_low r w) by lia.
      rewrite testbit_top by (try lia; by replace (w - 1 + 1) with w by lia).
      by rewrite Z.leb_antisym, negb_involutive. }
    destruct (u || (r mod 2 ^ w <? 2 ^ (w - 1))).
    + rewrite land_mask, wrapu_small by lia. done.
    + assert (wrapu 32 (Z.lnot (2 ^ w - 1)) = 2 ^ 32 - 2 ^ w) as ->.
      { unfold wrapu. symmetry. apply Z.mod_unique with (-1); unfold Z.lnot; lia. }
      rewrite lor_high by lia. unfold wrapu. apply Z.mod_unique with (-1); lia.
  - replace w with 32 in * by lia. rewrite (Z.mod_small r) by lia.
    destruct (u || (r <? 2 ^ (32 - 1))); [by rewrite wrapu_small|].
    unfold wrapu. apply Z.mod_unique with (-1); lia.
Qed.

(** Appending a byte to the accumulated number. *)
Lemma append_byte r b : 0 <= r < 2 ^ 32 -> is_byte b ->
  Z.lor (u32 (Z.shiftl r 8)) (Z.land b (width_to_mask 8)) = (r * 256 + b) mod 2 ^ 32.
Proof.
  intros Hr Hb. unfold is_byte in Hb. rewrite mask_spec, land_mask by lia. change (2 ^ 8) with 256.
  rewrite (Z.mod_small b) by lia. rewrite Z.shiftl_mul_pow2 by lia. unfold u32, wrapu.
  change (2 ^ 8) with 256. change (2 ^ 32) with (2 ^ 24 * 256).
  rewrite Z.mul_mod_distr_r by lia.
  pose proof (lor_low (r mod 2 ^ 24) b 8 ltac:(lia) ltac:(lia)) as E. change (2 ^ 8) with 256 in E.
  rewrite E. apply Z.mod_unique with (r / 2 ^ 24).
  - pose proof (Z.mod_pos_bound r (2 ^ 24) ltac:(lia)). lia.
  - rewrite (Z.div_mod r (2 ^ 24)) at 1 by lia. lia.
Qed.

Lemma narrow_number_spec bs : Forall is_byte bs -> narrow_number 8 bs = be_number bs mod 2 ^ 32.
Proof.
  unfold narrow_number, be_number.
  assert (forall r V, r = V mod 2 ^ 32 -> Forall is_byte bs ->
    fold_left (fun result b => let c := Z.land b (width_to_mask 8) in
      if 8 <? 32 then Z.lor (u32 (Z.shiftl result 8)) c else u32 c) bs r
    = fold_left (fun v b => v * 256 + b) bs V mod 2 ^ 32) as H; [|intros; by apply H].
  induction bs as [|b bs IH]; intros r V Hr Hb; cbn [fold_left]; [done|].
  apply Forall_cons_1 in Hb as [Hb Hbs]. apply IH; [|done]. cbv zeta. change (8 <? 32) with true. cbv iota.
  rewrite append_byte; [|rewrite Hr; apply Z.mod_pos_bound; lia|done].
  rewrite Hr, <- Zplus_mod_idemp_l, Zmult_mod_idemp_l, Zplus_mod_idemp_l. done.
Qed.

Lemma narrow_charconst_spec o bs :
  char_precision o = 8 -> 16 <= int_precision o <= 32 -> Forall is_byte bs -> bs <> [] ->
  let len := Z.of_nat (length bs) in
  let max := int_precision o / 8 in
  let single := len =? 1 in
  narrow_str_to_charconst o (bs ++ [0])
  = (if max <? len then [Diag CPP_DL_WARNING CPP_W_NONE "character constant too long for its type"]
     else if negb single && warn_multichar o
          then [Diag CPP_DL_WARNING CPP_W_MULTICHAR "multi-character character constant"] else [],
     (u32 (char_value (if single then 8 else int_precision o) (single && unsigned_char o)
             (be_number bs mod 2 ^ 32)), Z.min len max, single && unsigned_char o)).
Proof.
  intros Hcp Hip Hb Hne len max single. unfold narrow_str_to_charconst. rewrite Hcp.
  rewrite removelast_last, length_app, narrow_number_spec by done. cbn [length].
  assert (1 <= len) by (unfold len; destruct bs; [done|simpl; lia]).
  assert (2 <= max) as Hmax.
  { unfold max. change 2 with (16 / 8). apply Z.div_le_mono; lia. }
  replace (Z.of_nat (length bs + 1) - 1) with len by (unfold len; lia). fold max.
  assert ((1 <? Z.min len max) = negb single) as ->.
  { unfold single. bsplit; simpl; try done; lia. }
  assert ((1 <? len) = negb single) as -> by (unfold single; bsplit; simpl; try done; lia).
  pose proof (Z.mod_pos_bound (be_number bs) (2 ^ 32) ltac:(lia)).
  destruct single; cbn [negb andb]; rewrite truncate_spec by lia;
    destruct (max <? len); try done; by destruct (warn_multichar o).
Qed.

(** The bytes of a number, least significant first, and back. *)
Lemma wide_number_app cw a b r : wide_number cw (a ++ b) r = wide_number cw b (wide_number cw a r).
Proof. revert r. induction a; intros r; simpl; [done|]. apply IHa. Qed.

Lemma escape_bytes_length k : forall n m w, length (escape_bytes k n m w) = k.
Proof. induction k; intros; simpl; [done|]. by rewrite IHk. Qed.

Lemma wide_number_spec k : forall n, (k <= 4)%nat -> 0 <= n < 2 ^ 32 ->
  wide_number 8 (rev (escape_bytes k n (width_to_mask 8) 8)) 0 = n mod 2 ^ (8 * Z.of_nat k).
Proof.
  induction k as [|k IH]; intros n Hk Hn; [simpl; by rewrite Z.mod_1_r|].
  cbn [escape_bytes rev]. rewrite wide_number_app. rewrite Z.shiftr_div_pow2 by lia.
  pose proof (Z.div_mod n (2 ^ 8) ltac:(lia)). pose proof (Z.mod_pos_bound n (2 ^ 8) ltac:(lia)).
  rewrite IH by lia. cbn [wide_number].
  assert (u8 (Z.land n (width_to_mask 8)) = n mod 256) as ->.
  { rewrite mask_spec, land_mask by lia. unfold u8, wrapu. by rewrite Z.mod_mod by lia. }
  pose proof (Z.mod_pos_bound n 256 ltac:(lia)).
  pose proof (pow2_gt0 (8 * Z.of_nat k) ltac:(lia)) as Hp.
  pose proof (Z.mod_pos_bound (n / 2 ^ 8) (2 ^ (8 * Z.of_nat k)) Hp) as Hm.
  assert (2 ^ (8 * Z.of_nat k) <= 2 ^ 24) by (apply Z.pow_le_mono_r; lia).
  rewrite append_byte by (unfold is_byte; lia).
  replace (8 * Z.of_nat (S k)) with (8 * Z.of_nat k + 8) by lia. rewrite pow2_split by lia.
  change (2 ^ 8) with 256 in *. rewrite Z.mod_small by lia.
  apply Z.mod_unique with (n / 256 / 2 ^ (8 * Z.of_nat k)); [lia|].
  pose proof (Z.div_mod (n / 256) (2 ^ (8 * Z.of_nat k)) ltac:(lia)). lia.
Qed.

Definition wide_unsigned (o : cpp_options) (type : cpp_ttype) : bool :=
  match type with CPP_CHAR16 | CPP_CHAR32 => true | _ => unsigned_wchar o end.

Lemma wide_charconst_spec o d type pre c k :
  let cvt := converter_for_type d type in
  char_precision o = 8 -> cs_width cvt = 8 * Z.of_nat k -> (2 <= k <= 4)%nat -> 0 <= c < 2 ^ cs_width cvt ->
  Z.of_nat (length pre) < 2 ^ 60 ->
  wide_str_to_charconst o d (pre ++ numeric_bytes o cvt c ++ numeric_bytes o cvt 0) type
  = (if bool_decide (pre = []) then []
     else [Diag CPP_DL_WARNING CPP_W_NONE "character constant too long for its type"],
     Some (u32 (char_value (cs_width cvt) (wide_unsigned o type) c), 1, wide_unsigned o type)).
Proof.
  intros cvt Hcp Hw Hk Hc Hlen. unfold wide_str_to_charconst. fold cvt. rewrite Hcp, Hw.
  replace (8 * Z.of_nat k / 8) with (Z.of_nat k) by (rewrite Z.mul_comm, Z.div_mul; lia).
  assert (forall n, numeric_bytes o cvt n = (if bytes_big_endian o then rev (escape_bytes k n (width_to_mask 8) 8)
                                              else escape_bytes k n (width_to_mask 8) 8)) as Hnb.
  { intros n. unfold numeric_bytes. rewrite Hcp, Hw.
    replace (8 * Z.of_nat k / 8) with (Z.of_nat k) by (rewrite Z.mul_comm, Z.div_mul; lia).
    rewrite (proj2 (Z.eqb_neq (8 * Z.of_nat k) 8)), Nat2Z.id by lia. done. }
  assert (forall n, length (numeric_bytes o cvt n) = k) as Hl.
  { intros n. rewrite Hnb. destruct (bytes_big_endian o); by rewrite ?length_rev, escape_bytes_length. }
  rewrite !length_app, !Hl.
  replace (Z.of_nat (length pre + (k + k)) - Z.of_nat k * 2) with (Z.of_nat (length pre)) by lia.
  rewrite u64_small by lia. unfold slice. rewrite !length_app, !Hl.
  rewrite (proj2 (Z.leb_le 0 _)), (proj2 (Z.leb_le (Z.of_nat (length pre) + Z.of_nat (Z.to_nat (Z.of_nat k))) _)) by lia.
  cbn [andb]. rewrite !Nat2Z.id, drop_app_length.
  replace (take k (numeric_bytes o cvt c ++ numeric_bytes o cvt 0)) with (numeric_bytes o cvt c)
    by (symmetry; apply take_app_length'; by rewrite Hl).
  replace (if bytes_big_endian o then numeric_bytes o cvt c else rev (numeric_bytes o cvt c))
    with (rev (escape_bytes k c (width_to_mask 8) 8)) by (rewrite Hnb; by destruct (bytes_big_endian o)).
  rewrite Hw in Hc.
  assert (2 ^ (8 * Z.of_nat k) <= 2 ^ 32) by (apply Z.pow_le_mono_r; lia).
  rewrite wide_number_spec, Z.mod_small, truncate_spec by lia. fold (wide_unsigned o type).
  assert ((Z.of_nat k * 2 <? Z.of_nat (length pre + (k + k))) = negb (bool_decide (pre = []))) as ->; [|by case_bool_decide].
  case_bool_decide as Hp; [subst; simpl; apply Z.ltb_ge; lia|]. apply Z.ltb_lt. destruct pre; [done|simpl; lia].
Qed.

(** ** Identifiers *)

(** A piece of an identifier: a byte or a universal character name. *)
Inductive id_piece : Type := IdByte (b : byte) | IdUcn (long : bool) (ds : list byte).

Definition piece_text (p : id_piece) : list byte :=
  match p with IdByte b => [b] | IdUcn long ds => 92 :: (if long then 85 else 117) :: ds end.
Definition piece_utf8 (p : id_piece) : list byte :=
  match p with IdByte b => [b] | IdUcn _ ds => utf8 (hex_number ds) end.
Definition piece_ok (p : id_piece) : Prop :=
  match p with
  | IdByte b => b <> 92
  | IdUcn long ds => xdigits ds /\ length ds = (if long then 8 else 4)%nat /\ hex_number ds <= 0x7FFFFFFF
  end.

Lemma ident_digits_spec ds : forall rest V, xdigits ds -> 0 <= V ->
  (V + 1) * 16 ^ Z.of_nat (length ds) <= 2 ^ 32 ->
  ident_digits (length ds) (ds ++ rest) V = (fold_left (fun v c => v * 16 + hex_value c) ds V, rest).
Proof.
  induction ds as [|c ds IH]; intros rest V Hds HV Hb; [by destruct rest|].
  apply Forall_cons_1 in Hds as [Hc Hds]. cbn [length ident_digits app fold_left]. rewrite Hc.
  pose proof (hex_value_range c Hc) as Hh. simpl length in Hb.
  rewrite Nat2Z.inj_succ, Z.pow_succ_r in Hb by lia.
  pose proof (Z.pow_pos_nonneg 16 (Z.of_nat (length ds)) ltac:(lia) ltac:(lia)) as Hp.
  assert (V * 16 + 16 <= 2 ^ 32) by nia.
  rewrite Z.shiftl_mul_pow2 by lia. change (2 ^ 4) with 16. unfold u32.
  rewrite (wrapu_small 32 (V * 16)), wrapu_small by lia. apply IH; [done|lia|nia].
Qed.

(** A character name is longer than the bytes it stands for. *)
Lemma piece_shorter p : piece_ok p -> (length (piece_utf8 p) <= length (piece_text p))%nat.
Proof.
  destruct p as [b|long ds]; [done|]. intros (Hds & Hlen & Hmax). cbn [piece_utf8 piece_text length].
  rewrite utf8_length_eq, Hlen. pose proof (extra_le (hex_number ds)). destruct long; [lia|].
  assert (hex_number ds < 16 ^ Z.of_nat (length ds)) as Hlt.
  { clear - Hds. unfold hex_number. rewrite <- (Z.mul_1_l (16 ^ _)). change 1 with (0 + 1) at 1. generalize 0.
    induction ds as [|c ds IH]; intros V; simpl length; [simpl; lia|].
    apply Forall_cons_1 in Hds as [Hc Hds]. pose proof (hex_value_range c Hc). cbn [fold_left].
    eapply Z.lt_le_trans; [by apply IH|]. rewrite Nat2Z.inj_succ, Z.pow_succ_r by lia.
    pose proof (Z.pow_pos_nonneg 16 (Z.of_nat (length ds)) ltac:(lia) ltac:(lia)). nia. }
  rewrite Hlen in Hlt. change (16 ^ Z.of_nat 4) with 0x10000 in Hlt.
  unfold extra. bsplit; lia.
Qed.

Lemma ident_ucn_step letter ds rest fuel len buf : xdigits ds ->
  (letter = 117 /\ length ds = 4%nat) \/ (letter = 85 /\ length ds = 8%nat) -> hex_number ds <= 0x7FFFFFFF ->
  Z.of_nat (length buf) + Z.of_nat (length (utf8 (hex_number ds))) <= len ->
  interpret_identifier_loop (S fuel) len (92 :: letter :: ds ++ rest) buf
  = interpret_identifier_loop fuel len rest (buf ++ utf8 (hex_number ds)).
Proof.
  intros Hds Hlet Hmax Hroom. cbn [interpret_identifier_loop]. change (isc 92 "\") with true. cbn [negb tl].
  replace (if isc (peek (letter :: ds ++ rest)) "u" then 4%nat else 8%nat) with (length ds)
    by (by destruct Hlet as [[-> ->]|[-> ->]]).
  rewrite ident_digits_spec; [|done|lia|destruct Hlet as [[_ ->]|[_ ->]]; simpl; lia].
  change (fold_left _ ds 0) with (hex_number ds).
  pose proof (hex_number_nonneg ds 0 ltac:(lia) Hds : 0 <= hex_number ds) as Hnn.
  destruct (Z.eqb_spec (hex_number ds) 0x24) as [E|_]; [by rewrite E|].
  rewrite utf8_encode_spec by lia.
  by rewrite (proj2 (Z.ltb_ge _ (Z.of_nat (length (utf8 (hex_number ds)))))) by lia.
Qed.

Lemma identifier_spec ps : forall fuel len buf, Forall piece_ok ps ->
  (length ps < fuel)%nat ->
  Z.of_nat (length buf) + Z.of_nat (length (concat (map piece_text ps))) <= len ->
  interpret_identifier_loop fuel len (concat (map piece_text ps)) buf
  = ([], Some (buf ++ concat (map piece_utf8 ps))).
Proof.
  induction ps as [|p ps IH]; intros fuel len buf Hps Hf Hl; (destruct fuel as [|fuel]; [simpl in Hf; lia|]).
  { simpl. by rewrite app_nil_r. }
  apply Forall_cons_1 in Hps as [Hp Hps]. cbn [map concat] in *. simpl length in Hf.
  pose proof (piece_shorter p Hp) as Hsh. rewrite length_app in Hl.
  destruct p as [b|long ds].
  - cbn [piece_text piece_utf8 app interpret_identifier_loop].
    unfold isc. change (chr "\") with 92. simpl in Hp. rewrite (proj2 (Z.eqb_neq b 92) Hp). cbn [negb].
    rewrite IH by (try done; try lia; rewrite ?length_app in *; simpl length in *; lia).
    by rewrite <- app_assoc.
  - destruct Hp as (Hds & Hlen & Hmax). cbn [piece_utf8] in *.
    assert (exists letter : byte, piece_text (IdUcn long ds) = 92 :: letter :: ds /\
      ((letter = 117 /\ length ds = 4%nat) \/ (letter = 85 /\ length ds = 8%nat))) as (letter & E & Hlet).
    { destruct long; [exists 85|exists 117]; (split; [done|]); [right|left]; done. }
    rewrite E in *. cbn [app]. rewrite ident_ucn_step by (try done; lia).
    rewrite IH by (try done; try lia; rewrite ?length_app in *; lia). by rewrite <- app_assoc.
Qed.

(** ** From literals to constants *)

Lemma exec_bytes o cvt enc' ok l last : ExecSet cvt enc' ok ->
  (forall c, ok c -> Forall is_byte (enc' c)) -> cs_width cvt = char_precision o ->
  lit_ok o cvt ok l last -> Forall is_byte (lit_exec o cvt enc' l last).
Proof.
  intros Hex He Hcw. assert (forall n, Forall is_byte (numeric_bytes o cvt n)) as Hn.
  { intros n. unfold numeric_bytes. rewrite Hcw, Z.eqb_refl. simpl. repeat constructor;
      apply (wrapu_range 8); lia. }
  assert (forall cs, run_ok ok cs -> Forall is_byte (concat (map enc' cs))) as Hr.
  { intros cs Hcs. apply (text_bytes enc' ok); [done|]. by apply run_all_ok. }
  induction l as [|[run e] l IH]; cbn [lit_ok lit_exec]; [apply Hr|]. intros (H1 & H2 & H3).
  repeat (apply Forall_app; split); [by apply Hr| |by apply IH].
  destruct e as [letter value|ds|ds|long ds]; cbn [escape_exec]; try apply Hn.
  - apply He, (exec_ascii (ExecSet := Hex)). simpl in H2.
    repeat (destruct H2 as [[= <- <-]|H2]; [lia|]). done.
  - apply He, H2.
Qed.

Lemma token_nonempty o cvt enc' t : token_exec o cvt enc' t <> [] -> lit_text (lit_parts t) (lit_last t) <> [].
Proof.
  unfold token_exec. destruct (lit_parts t) as [|[run e] l]; cbn [lit_text lit_exec].
  - by destruct (lit_last t).
  - intros _ H. apply app_eq_nil in H as [_ H]. done.
Qed.

Lemma token_length t : Z.of_nat (length (token_text t))
  = Z.of_nat (length (lit_prefix t)) + 2 + Z.of_nat (length (lit_text (lit_parts t) (lit_last t))).
Proof. unfold token_text. rewrite length_app. cbn [length]. rewrite length_app. simpl. lia. Qed.

(** ** Results *)


(** L'a', 'b\x10FFFF' and '\u20AC\12' concatenated, in quotes *)
Definition sample_literals : list literal_token :=
  [mk_lit [76] 34 [] [97]; mk_lit [] 34 [([98], EHex (bytes "10FFFF"))] [];
   mk_lit [] 34 [([], EUcn false (bytes "20AC")); ([], EOct [49; 50])] []].




(** The value of a narrow character constant. With 8-bit characters and an
    int of 16 to 32 bits, a constant of one byte has the value of that byte as
    a char, sign- or zero-extended; one of several bytes has the value of the
    int whose bytes they are, the first the most significant, the last ones
    kept when there are too many, which is diagnosed; the number of
    characters and the signedness are reported accordingly. *)
Theorem narrow_charconst_value (tab : ucn_table) (o : cpp_options) (skipping : bool) (d : csets)
  (t : literal_token) :
  narrow_cset_desc d = mk_cset convert_no_conversion 8 ->
  char_precision o = 8 -> 16 <= int_precision o <= 32 -> quiet_options o ->
  literal_wf o (narrow_cset_desc d) valid_char t -> lit_prefix t = [] ->
  let bs := token_exec o (narrow_cset_desc d) utf8 t in
  let len := Z.of_nat (length bs) in
  let single := len =? 1 in
  bs <> [] ->
  cpp_interpret_charconst tab o skipping d CPP_CHAR (token_text t)
  = (if int_precision o / 8 <? len
     then [Diag CPP_DL_WARNING CPP_W_NONE "character constant too long for its type"]
     else if negb single && warn_multichar o
          then [Diag CPP_DL_WARNING CPP_W_MULTICHAR "multi-character character constant"] else [],
     Some (u32 (char_value (if single then 8 else int_precision o) (single && unsigned_char o)
                  (be_number bs mod 2 ^ 32)),
           Z.min len (int_precision o / 8), single && unsigned_char o)).
Proof.
  intros Hd Hcp Hip Hq Hwf Hpre bs len single Hne. unfold cpp_interpret_charconst.
  rewrite token_length, Hpre. cbn [length b2z].
  pose proof (token_nonempty o (narrow_cset_desc d) utf8 t Hne) as Htext.
  rewrite (proj2 (Z.eqb_neq _ _)) by (destruct (lit_text _ _); [done|simpl length; lia]).
  assert (ExecSet (narrow_cset_desc d) utf8 valid_char) as Hex by (rewrite Hd; apply _).
  rewrite (interpret_string_spec tab o skipping d CPP_CHAR utf8 valid_char [t] Hex) at 1;
    [|simpl; rewrite Hd; simpl; lia|lia|done|by apply Forall_singleton].
  rewrite W_bind_pair. cbn [map concat converter_for_type]. rewrite app_nil_r.
  assert (numeric_bytes o (narrow_cset_desc d) 0 = [0]) as ->.
  { unfold numeric_bytes. rewrite Hd, Hcp. done. }
  fold bs. rewrite (narrow_charconst_spec o bs Hcp Hip); [|by apply (exec_bytes _ _ _ valid_char);
    [done|apply utf8_bytes|rewrite Hd, Hcp|apply Hwf]|done].
  fold len single. unfold mbind, W_bind. cbn [fst snd]. by rewrite app_nil_r.
Qed.

Lemma narrow_charconst_value_witness :
  cpp_interpret_charconst (mk_table [] (fun _ _ => mret true)) gnuc17_options false utf8_csets CPP_CHAR
    (token_text (mk_lit [] 39 [([], EHex (bytes "ff"))] []))
  = ([], Some (2 ^ 32 - 1, 1, false)).
Proof.
  apply (narrow_charconst_value (mk_table [] (fun _ _ => mret true)) gnuc17_options false utf8_csets
           (mk_lit [] 39 [([], EHex (bytes "ff"))] [])); try done.
  - split; [done|]. split; [by right|]. right. simpl. lia.
  - split; [simpl; tauto|]. split; [simpl; tauto|]. repeat constructor; vm_compute; try done.
Defined.

(** The value of a wide character constant (L, u or U) of a type of 16, 24
    or 32 bits is that of its last character, whatever comes before it, which
    is diagnosed, in either byte order: the bytes are reassembled as they were
    written, and the value is sign- or zero-extended by the type. *)
Theorem wide_charconst_value (tab : ucn_table) (o : cpp_options) (skipping : bool) (d : csets)
  (type : cpp_ttype) (enc' : Z -> list byte) (ok : Z -> Prop) (t : literal_token) (pre : list byte)
  (c : Z) (k : nat) :
  let cvt := converter_for_type d type in
  In type [CPP_WCHAR; CPP_CHAR16; CPP_CHAR32] -> ExecSet cvt enc' ok ->
  char_precision o = 8 -> cs_width cvt = 8 * Z.of_nat k -> (2 <= k <= 4)%nat -> quiet_options o ->
  literal_wf o cvt ok t -> length (lit_prefix t) = 1%nat ->
  token_exec o cvt enc' t = pre ++ numeric_bytes o cvt c ->
  0 <= c < 2 ^ cs_width cvt -> Z.of_nat (length pre) < 2 ^ 60 ->
  cpp_interpret_charconst tab o skipping d type (token_text t)
  = (if bool_decide (pre = []) then []
     else [Diag CPP_DL_WARNING CPP_W_NONE "character constant too long for its type"],
     Some (u32 (char_value (cs_width cvt) (wide_unsigned o type) c), 1, wide_unsigned o type)).
Proof.
  intros cvt Htype Hex Hcp Hw Hk Hq Hwf Hpre Hexec Hc Hlen. unfold cpp_interpret_charconst.
  assert (token_exec o cvt enc' t <> []) as Hne.
  { rewrite Hexec. intros E. apply app_eq_nil in E as [_ E]. revert E. unfold numeric_bytes.
    rewrite Hw, Hcp, (proj2 (Z.eqb_neq _ 8)) by lia. cbn [negb].
    replace (8 * Z.of_nat k / 8) with (Z.of_nat k) by (rewrite Z.mul_comm, Z.div_mul; lia).
    intros E. apply (f_equal (@length _)) in E. revert E.
    destruct (bytes_big_endian o); rewrite ?length_rev, escape_bytes_length; simpl; lia. }
  pose proof (token_nonempty o cvt enc' t Hne) as Htext.
  assert (match type with CPP_CHAR | CPP_UTF8CHAR => false | _ => true end = true /\
          match type with CPP_UTF8CHAR => 2 | _ => 0 end = 0) as [-> ->].
  { by destruct Htype as [<-|[<-|[<-|[]]]]. }
  rewrite token_length, Hpre. cbn [b2z].
  rewrite (proj2 (Z.eqb_neq _ _)) by (destruct (lit_text _ _); [done|simpl length; lia]).
  rewrite (interpret_string_spec tab o skipping d type enc' ok [t] Hex) at 1;
    [|fold cvt; lia|lia|done|by apply Forall_singleton].
  rewrite W_bind_pair. fold cvt. cbn [map concat]. rewrite app_nil_r, Hexec, <- app_assoc.
  by apply (wide_charconst_spec o d type pre c k).
Qed.

Lemma wide_charconst_value_witness :
  cpp_interpret_charconst (mk_table [] (fun _ _ => mret true)) gnuc17_options false utf8_csets CPP_WCHAR
    (token_text (mk_lit [76] 39 [([97], EHex (bytes "fffffff0"))] []))
  = ([Diag CPP_DL_WARNING CPP_W_NONE "character constant too long for its type"],
     Some (0xfffffff0, 1, false)).
Proof.
  apply (wide_charconst_value (mk_table [] (fun _ _ => mret true)) gnuc17_options false utf8_csets
           CPP_WCHAR (utf32 false) valid_char (mk_lit [76] 39 [([97], EHex (bytes "fffffff0"))] [])
           [97; 0; 0; 0] 0xfffffff0 4); try done.
  - simpl; tauto.
  - apply (utf32_set false 32).
  - lia.
  - split; [done|]. split; [by right|]. right. simpl. lia.
  - split; [simpl; tauto|]. split; [simpl; tauto|]. cbn [lit_parts lit_last lit_ok].
    split; [apply Forall_singleton; unfold valid_char; lia|]. split; [|constructor].
    split; [done|]. split; [repeat constructor|]. split; [by vm_compute|done].
Defined.

(** When the only escape of a wide constant is in error nothing is written
    before the terminator, and the value is read from before the start of the
    text: L'\x' makes wide_str_to_charconst read outside its buffer. *)
Theorem wide_charconst_reads_outside :
  cpp_interpret_charconst (mk_table [] (fun _ _ => mret true)) gnuc17_options false utf8_csets CPP_WCHAR
    [76; 39; 92; 120; 39]
  = ([Diag CPP_DL_ERROR CPP_W_NONE "\x used with no following hex digits"], None).
Proof. by vm_compute. Qed.

(** An identifier with universal character names is spelled in UTF-8, each
    name replaced by its character; the buffer, as long as the identifier, is
    never too small, and nothing is diagnosed. *)
Theorem identifier_utf8 (ps : list id_piece) :
  Forall piece_ok ps ->
  _cpp_interpret_identifier (concat (map piece_text ps)) = ([], Some (concat (map piece_utf8 ps))).
Proof.
  intros Hps. apply identifier_spec; [done| |simpl; lia].
  assert (length ps <= length (concat (map piece_text ps)))%nat; [|lia].
  clear. induction ps as [|p ps IH]; [done|]. cbn [map concat length]. rewrite length_app.
  destruct p; simpl; lia.
Qed.

Lemma identifier_utf8_witness :
  _cpp_interpret_identifier (bytes "a\u00e9\U0001F600$")
  = ([], Some [97; 0xC3; 0xA9; 0xF0; 0x9F; 0x98; 0x80; 36]).
Proof.
  apply (identifier_utf8 [IdByte 97; IdUcn false (bytes "00e9"); IdUcn true (bytes "0001F600"); IdByte 36]).
  repeat constructor; vm_compute; done.
Defined.

(** The binary search of ucn_valid_in_identifier finds, in a table sorted by
    the ends of its ranges that reaches the character, the one range that
    holds it: the first whose end is not below it. *)
Theorem ucn_search_finds (tab : list ucnrange) (c : Z) :
  ends_sorted tab -> tab <> [] -> c <= ur_end (List.last tab (mk_range 0 0 0)) ->
  let i := ucn_search (length tab) tab c 0 (length tab - 1) in
  (i < length tab)%nat /\ c <= ur_end (nth i tab (mk_range 0 0 0)) /\
  forall j, (j < i)%nat -> ur_end (nth j tab (mk_range 0 0 0)) < c.
Proof.
  intros Hs Hne Hc. assert (0 < length tab)%nat by (destruct tab; [done|simpl; lia]).
  apply ucn_search_spec; try done; try lia.
  clear Hs. destruct (exists_last Hne) as (l & x & ->). rewrite last_last in Hc.
  rewrite length_app, app_nth2 by (simpl; lia). simpl length.
  by replace (length l + 1 - 1 - length l)%nat with 0%nat by lia.
Qed.

Lemma ucn_search_finds_witness :
  ucn_search 3 [mk_range 0 0 9; mk_range 1 0 20; mk_range 2 0 30] 15 0 2 = 1%nat /\
  15 <= ur_end (nth 1 [mk_range 0 0 9; mk_range 1 0 20; mk_range 2 0 30] (mk_range 0 0 0)).
Proof.
  split; [reflexivity|].
  apply (ucn_search_finds [mk_range 0 0 9; mk_range 1 0 20; mk_range 2 0 30] 15); [|done|simpl; lia].
  intros i j Hij. destruct i as [|[|[|i]]], j as [|[|[|j]]]; simpl in *; lia.
Defined.

(** A hexadecimal escape of any number of digits is diagnosed as out of
    range exactly when its value does not fit the width of the target
    character, and what is written is its value reduced to that width; the
    test for bits lost at the top of the 32-bit accumulator misses nothing. *)
Theorem hex_escape_exact (o : cpp_options) (cvt : cset_converter) (x : byte) (ds rest : list byte)
  (tbuf : strbuf) :
  0 < cs_width cvt <= 32 -> cpp_warn_traditional o = false ->
  ds <> [] -> Forall (fun c => ISXDIGIT c = true) ds ->
  match rest with [] => True | c :: _ => ISXDIGIT c = false end ->
  convert_hex o (x :: ds ++ rest) tbuf cvt
  = (if hex_number ds <? 2 ^ cs_width cvt then []
     else [Diag CPP_DL_PEDWARN CPP_W_NONE "hex escape sequence out of range"],
     Some (rest, emit_numeric_escape o (hex_number ds mod 2 ^ cs_width cvt) tbuf cvt)).
Proof.
  intros. by apply convert_hex_spec.
Qed.

Lemma hex_escape_exact_witness :
  convert_hex gnuc17_options (bytes "x1FFFFFFFFg") (mk_strbuf [] 4) (mk_cset convert_no_conversion 8)
  = ([Diag CPP_DL_PEDWARN CPP_W_NONE "hex escape sequence out of range"],
     Some (bytes "g", mk_strbuf [0xFF] 4)).
Proof.
  apply (hex_escape_exact gnuc17_options (mk_cset convert_no_conversion 8) 120 (bytes "1FFFFFFFF")
           (bytes "g") (mk_strbuf [] 4)); try done.
  repeat constructor.
Defined.
