(* ===== verification/Symtab.v ===== *)
(** * The identifier table (libcpp/symtab.c)

    An open-addressing hash table with double hashing: every identifier of a
    translation unit has one node in it, which is why the rest of the
    development can take the node table as a finite map keyed by names.  This
    file models the table and shows that it implements that map: look-up,
    insertion, the doubling of the table and the purging of entries. *)

From Stdlib Require Import ZArith Lia Bool Znumtheory String.
From stdpp Require Import base tactics list numbers strings gmap.
From S2P Require Import Prelude Reader Stream.

Local Open Scope Z_scope.

(** ** The table *)

(** A node: the pointer, as a number, and the hash and text it holds. *)
Record hnode : Type := mk_hnode { hn_id : nat; hn_hash : Z; hn_str : list byte }.

Inductive slot : Type := Empty | Deleted | Node (n : hnode).

Record ht : Type := mk_ht {
  entries : list slot;
  nslots : Z;
  nelements : Z;
  searches : Z;
  collisions : Z;
  entries_owned : bool;
  next_node : nat
}.

Inductive ht_lookup_option : Type := HT_NO_INSERT | HT_ALLOC.

#[export] Instance slot_empty_dec (s : slot) : Decision (s = Empty).
Proof. destruct s; [left|right|right]; done. Defined.

Definition HT_HASHSTEP (r c : Z) : Z := u32 (u32 (r * 67) + (c - 113)).
Definition HT_HASHFINISH (r len : Z) : Z := u32 (r + len).

Definition calc_hash (str : list byte) : Z :=
  HT_HASHFINISH (fold_left HT_HASHSTEP str 0) (Z.of_nat (length str)).

Definition ht_create (order : Z) : ht :=
  let nslots := u32 (Z.shiftl 1 order) in
  mk_ht (replicate (Z.to_nat nslots) Empty) nslots 0 0 0 true 0.

Definition slot_at (es : list slot) (i : Z) : slot := default Empty (es !! Z.to_nat i).

(** The lengths are compared at the width of an [unsigned int], the texts over
    the length of [str]. *)
Definition matches (hash : Z) (str : list byte) (n : hnode) : bool :=
  (hn_hash n =? hash)
  && (u32 (Z.of_nat (length (hn_str n))) =? u32 (Z.of_nat (length str)))
  && bytes_eqb (take (length str) (hn_str n)) str.

(** The second hash, which is odd. *)
Definition hash_step (hash sizemask : Z) : Z := Z.lor (Z.land (u32 (hash * 17)) sizemask) 1.

(** What the search ends with: the node, or the empty slot and the deleted slot
    that was noted (the number of slots for none); with the collisions. *)
Inductive found : Type :=
  | Found (n : hnode)
  | Absent (index deleted : Z).

(** The search after the first slot; [None] is the end of the fuel. *)
Fixpoint probe_loop (fuel : nat) (es : list slot) (nslots hash hash2 : Z) (str : list byte)
    (index deleted coll : Z) : option (found * Z) :=
  match fuel with
  | O => None
  | S fuel =>
      let coll := u32 (coll + 1) in
      let index := Z.land (u32 (index + hash2)) (nslots - 1) in
      match slot_at es index with
      | Empty => Some (Absent index deleted, coll)
      | Deleted =>
          probe_loop fuel es nslots hash hash2 str index
            (if negb (deleted =? nslots) then index else deleted) coll
      | Node n =>
          if matches hash str n then Some (Found n, coll)
          else probe_loop fuel es nslots hash hash2 str index deleted coll
      end
  end.

(** The search; the loop visits each slot at most once. *)
Definition ht_search (t : ht) (str : list byte) (hash : Z) : option (found * Z) :=
  let sizemask := nslots t - 1 in
  let index := Z.land hash sizemask in
  let continue deleted :=
    probe_loop (length (entries t)) (entries t) (nslots t) hash (hash_step hash sizemask) str
      index deleted (collisions t) in
  match slot_at (entries t) index with
  | Empty => Some (Absent index (nslots t), collisions t)
  | Deleted => continue index
  | Node n => if matches hash str n then Some (Found n, collisions t) else continue (nslots t)
  end.

(** The first free slot for a node in a table that is being filled. *)
Fixpoint expand_loop (fuel : nat) (es : list slot) (sizemask hash2 index : Z) : option Z :=
  match fuel with
  | O => None
  | S fuel =>
      let index := Z.land (u32 (index + hash2)) sizemask in
      match slot_at es index with
      | Empty => Some index
      | _ => expand_loop fuel es sizemask hash2 index
      end
  end.

Definition expand_put (size : Z) (es : list slot) (n : hnode) : option (list slot) :=
  let sizemask := size - 1 in
  let index := Z.land (hn_hash n) sizemask in
  match slot_at es index with
  | Empty => Some (<[Z.to_nat index := Node n]> es)
  | _ =>
      match expand_loop (length es) es sizemask (hash_step (hn_hash n) sizemask) index with
      | Some index => Some (<[Z.to_nat index := Node n]> es)
      | None => None
      end
  end.

Fixpoint expand_all (size : Z) (old es : list slot) : option (list slot) :=
  match old with
  | [] => Some es
  | Node n :: old =>
      match expand_put size es n with
      | Some es => expand_all size old es
      | None => None
      end
  | _ :: old => expand_all size old es
  end.

(** Double the size of the table. *)
Definition ht_expand (t : ht) : option ht :=
  let size := u32 (nslots t * 2) in
  match expand_all size (entries t) (replicate (Z.to_nat size) Empty) with
  | Some es => Some (mk_ht es size (nelements t) (searches t) (collisions t) true (next_node t))
  | None => None
  end.

(** The node found or allocated, if any; [None] is a search that does not
    end. *)
Definition ht_lookup_with_hash (t : ht) (str : list byte) (hash : Z) (insert : ht_lookup_option)
  : option (ht * option hnode) :=
  match ht_search t str hash with
  | None => None
  | Some (r, coll) =>
      let t := mk_ht (entries t) (nslots t) (nelements t) (u32 (searches t + 1)) coll
                 (entries_owned t) (next_node t) in
      match r, insert with
      | Found n, _ => Some (t, Some n)
      | Absent _ _, HT_NO_INSERT => Some (t, None)
      | Absent index deleted, HT_ALLOC =>
          let index := if negb (deleted =? nslots t) then deleted else index in
          let node := mk_hnode (next_node t) hash str in
          let nelements := u32 (nelements t + 1) in
          let t := mk_ht (<[Z.to_nat index := Node node]> (entries t)) (nslots t) nelements
                     (searches t) (collisions t) (entries_owned t) (S (next_node t)) in
          if u32 (nslots t * 3) <=? u32 (nelements * 4) then
            match ht_expand t with
            | Some t => Some (t, Some node)
            | None => None
            end
          else Some (t, Some node)
      end
  end.

Definition ht_lookup (t : ht) (str : list byte) (insert : ht_lookup_option)
  : option (ht * option hnode) :=
  ht_lookup_with_hash t str (calc_hash str) insert.

(** The nodes the callback sees, up to and including the first on which it
    returns zero. *)
Fixpoint forall_slots (cb : hnode -> bool) (es : list slot) : list hnode :=
  match es with
  | [] => []
  | Node n :: es => n :: (if cb n then forall_slots cb es else [])
  | _ :: es => forall_slots cb es
  end.

Definition ht_forall (t : ht) (cb : hnode -> bool) : list hnode := forall_slots cb (entries t).

Definition purge_slot (cb : hnode -> bool) (s : slot) : slot :=
  match s with Node n => if cb n then Deleted else s | _ => s end.

Definition ht_purge (t : ht) (cb : hnode -> bool) : ht :=
  mk_ht (map (purge_slot cb) (entries t)) (nslots t) (nelements t) (searches t) (collisions t)
    (entries_owned t) (next_node t).

Definition ht_load (t : ht) (es : list slot) (slots elements : Z) (own : bool) : ht :=
  mk_ht es slots elements (searches t) (collisions t) own (next_node t).

(** ** The probe sequence *)

Definition step_of (k hash : Z) : Z := hash_step hash (2 ^ k - 1).

Definition probe (k hash : Z) (j : nat) : Z := (hash + Z.of_nat j * step_of k hash) mod 2 ^ k.

Lemma step_odd k hash : Z.odd (step_of k hash) = true.
Proof.
  unfold step_of, hash_step. rewrite <- Z.bit0_odd, Z.lor_spec. change (Z.testbit 1 0) with true.
  apply orb_true_r.
Qed.

Lemma probe_range k hash j : 0 <= k -> 0 <= probe k hash j < 2 ^ k.
Proof. intros Hk. by apply Z.mod_pos_bound, pow2_gt0. Qed.

(** An odd number has an inverse modulo a power of two. *)
Lemma odd_inverse a k : 0 <= k -> Z.odd a = true -> exists u v, u * a + v * 2 ^ k = 1.
Proof.
  intros Hk [m Hm]%Z.odd_spec. apply Z.gcd_bezout.
  apply (Z.coprime_pow_r a 2 k Hk). change (Z.gcd a 2 = 1). subst a.
  rewrite Z.gcd_comm, <- Z.gcd_mod by lia.
  replace (2 * m + 1) with (1 + m * 2) by lia. by rewrite Z.mod_add by lia.
Qed.

(** An odd step visits every slot. *)
Lemma probe_surjective k hash i : 0 <= k -> 0 <= i < 2 ^ k ->
  exists j, Z.of_nat j < 2 ^ k /\ probe k hash j = i.
Proof.
  intros Hk Hi. pose proof (pow2_gt0 k Hk) as Hp.
  destruct (odd_inverse _ k Hk (step_odd k hash)) as (u & v & Huv).
  pose proof (Z.mod_pos_bound (u * (i - hash)) (2 ^ k) Hp).
  exists (Z.to_nat ((u * (i - hash)) mod 2 ^ k)). unfold probe. rewrite Z2Nat.id by lia.
  split; [lia|]. rewrite <- Zplus_mod_idemp_r, Zmult_mod_idemp_l, Zplus_mod_idemp_r.
  replace (hash + u * (i - hash) * step_of k hash) with (i + (- v * (i - hash)) * 2 ^ k).
  2: { replace (u * (i - hash) * step_of k hash) with ((i - hash) * (u * step_of k hash)) by ring.
       replace (u * step_of k hash) with (1 - v * 2 ^ k) by lia. ring. }
  rewrite Z.mod_add by lia. by apply Z.mod_small.
Qed.

Lemma probe_0 k hash : 0 <= k -> Z.land hash (2 ^ k - 1) = probe k hash 0.
Proof. intros. rewrite land_mask by done. unfold probe. f_equal. lia. Qed.

Lemma probe_S k hash j : 0 <= k <= 32 ->
  Z.land (u32 (probe k hash j + step_of k hash)) (2 ^ k - 1) = probe k hash (S j).
Proof.
  intros Hk. rewrite land_mask, u32_mod by lia. unfold probe at 1.
  rewrite Zplus_mod_idemp_l. unfold probe. f_equal. lia.
Qed.

(** ** The invariant of the entries

    Every node is on the probe path of its hash, no earlier slot of the path
    is empty, and no two nodes have the same text. *)

Definition is_node (s : slot) : bool := match s with Node _ => true | _ => false end.

Definition len_ok (str : list byte) : Prop := Z.of_nat (length str) < 2 ^ 32.

Definition reaches (k : Z) (es : list slot) (hash : Z) (j : nat) : Prop :=
  forall j', (j' < j)%nat -> slot_at es (probe k hash j') <> Empty.

Record wf_entries (k : Z) (es : list slot) : Prop := {
  we_length : Z.of_nat (length es) = 2 ^ k;
  we_path : forall i n, es !! i = Some (Node n) ->
    exists j, probe k (hn_hash n) j = Z.of_nat i /\ reaches k es (hn_hash n) j;
  we_unique : forall i i' n n', es !! i = Some (Node n) -> es !! i' = Some (Node n') ->
    hn_str n = hn_str n' -> i = i';
  we_node : forall i n, es !! i = Some (Node n) -> hn_hash n = calc_hash (hn_str n) /\ len_ok (hn_str n)
}.

(** How many slots are not empty, and how many hold a node. *)
Definition occupied (es : list slot) : nat := length (filter (fun s => s <> Empty) es).
Definition live (es : list slot) : nat := length (filter is_node es).

Lemma live_occupied es : (live es <= occupied es)%nat.
Proof.
  unfold live, occupied. induction es as [|[] es IH]; [done|..];
    rewrite !filter_cons; repeat case_decide; simpl in *; try lia; naive_solver.
Qed.

Lemma occupied_empty es : (occupied es < length es)%nat -> exists i, es !! i = Some Empty.
Proof.
  unfold occupied. induction es as [|s es IH]; simpl; [lia|].
  destruct (decide (s = Empty)) as [->|Hs]; [by exists 0%nat|].
  rewrite filter_cons. rewrite decide_True by done. simpl. intros H. destruct IH as [i Hi]; [lia|]. by exists (S i).
Qed.

Lemma occupied_insert es i n : (occupied (<[i := Node n]> es) <= S (occupied es))%nat.
Proof.
  unfold occupied. revert i. induction es as [|s es IH]; intros [|i]; simpl; [lia|lia|..];
    rewrite !filter_cons; repeat case_decide; simpl in *; try lia; [..|specialize (IH i)| apply IH];
    try lia; naive_solver.
Qed.

(** ** Slots *)

Lemma slot_at_lookup es i s : 0 <= i -> s <> Empty -> slot_at es i = s <-> es !! Z.to_nat i = Some s.
Proof.
  intros Hi Hs. unfold slot_at. destruct (es !! Z.to_nat i) as [s'|]; simpl; split; naive_solver.
Qed.

Lemma slot_at_insert es i i' s : 0 <= i -> 0 <= i' < Z.of_nat (length es) ->
  slot_at (<[Z.to_nat i' := s]> es) i = if i =? i' then s else slot_at es i.
Proof.
  intros Hi Hi'. unfold slot_at. destruct (Z.eqb_spec i i') as [->|Hne].
  - rewrite list_lookup_insert_eq by lia. done.
  - rewrite list_lookup_insert_ne by lia. done.
Qed.

Lemma matches_true hash str n : hash = calc_hash str -> hn_hash n = calc_hash (hn_str n) ->
  len_ok (hn_str n) -> len_ok str -> matches hash str n = true <-> hn_str n = str.
Proof.
  intros -> Hn H1 H2. unfold len_ok in *. unfold matches, bytes_eqb.
  rewrite !andb_true_iff, !Z.eqb_eq, !u32_small, bool_decide_eq_true by lia. split.
  - intros [[_ Hl] Ht]. rewrite <- Ht. symmetry. apply take_ge. lia.
  - intros Hs. split; [split|].
    + congruence.
    + by rewrite Hs.
    + rewrite Hs. by apply take_ge.
Qed.

(** Placing a node on its path keeps the invariant. *)
Lemma put_wf k es n j : 0 <= k -> wf_entries k es ->
  (forall n', slot_at es (probe k (hn_hash n) j) <> Node n') -> reaches k es (hn_hash n) j ->
  (forall n', Node n' ∈ es -> hn_str n' <> hn_str n) ->
  hn_hash n = calc_hash (hn_str n) -> len_ok (hn_str n) ->
  wf_entries k (<[Z.to_nat (probe k (hn_hash n) j) := Node n]> es).
Proof.
  intros Hk [Hlen Hpath Huniq Hnode] Hfree Hreach Hnew Hhash Hok.
  pose proof (probe_range k (hn_hash n) j Hk) as Hr.
  set (p := probe k (hn_hash n) j) in *.
  assert (forall i m, <[Z.to_nat p := Node n]> es !! i = Some (Node m) ->
    (i = Z.to_nat p /\ m = n) \/ (i <> Z.to_nat p /\ es !! i = Some (Node m))) as Hcase.
  { intros i m [(<- & [= <-] & _)|[? ?]]%list_lookup_insert_Some; [by left|right]. split; congruence. }
  assert (forall h j', reaches k es h j' -> reaches k (<[Z.to_nat p := Node n]> es) h j') as Hmono.
  { intros h j' Hj' j'' Hlt. pose proof (probe_range k h j'' Hk).
    rewrite slot_at_insert by lia. destruct (_ =? _); [done|]. by apply Hj'. }
  split.
  - by rewrite length_insert.
  - intros i m [[-> ->]|[_ Hm]]%Hcase.
    + exists j. rewrite Z2Nat.id by lia. eauto.
    + destruct (Hpath _ _ Hm) as (j' & ? & ?). eauto.
  - intros i i' m m' [[-> ->]|[Hi Hm]]%Hcase [[-> ->]|[Hi' Hm']]%Hcase Heq; [done|..].
    + exfalso. eapply Hnew; [|symmetry; exact Heq]. by eapply list_elem_of_lookup_2.
    + exfalso. eapply Hnew; [|exact Heq]. by eapply list_elem_of_lookup_2.
    + by eapply Huniq.
  - intros i m [[-> ->]|[Hi Hm]]%Hcase; [done|]. by eapply Hnode.
Qed.

(** Placing a node where there was none adds it and nothing else. *)
Lemma put_members es i n m : 0 <= i < Z.of_nat (length es) -> (forall n', slot_at es i <> Node n') ->
  Node m ∈ <[Z.to_nat i := Node n]> es <-> m = n \/ Node m ∈ es.
Proof.
  intros Hi Hfree. rewrite !list_elem_of_lookup. split.
  - intros (i' & [(<- & [= <-] & _)|[? ?]]%list_lookup_insert_Some); [by left|right; eauto].
  - intros [->|(i' & Hi')].
    + exists (Z.to_nat i). apply list_lookup_insert_eq. lia.
    + exists i'. rewrite list_lookup_insert_ne; [done|]. intros <-.
      apply (Hfree m). by apply slot_at_lookup; [lia| |].
Qed.

(** ** The search *)

(** The least number with a decidable property. *)
Lemma least (P : nat -> Prop) `{forall x, Decision (P x)} m : P m ->
  exists n, (n <= m)%nat /\ P n /\ forall n', (n' < n)%nat -> ~ P n'.
Proof.
  intros Hm. assert (forall b, (exists n, (n < b)%nat /\ P n /\ forall n', (n' < n)%nat -> ~ P n') \/
    forall n, (n < b)%nat -> ~ P n) as Hb.
  { induction b as [|b [(n & ? & ? & ?)|IH]]; [right; lia|left; exists n; eauto with lia|].
    destruct (decide (P b)) as [|Hnb]; [left; exists b; eauto with lia|right; intros x Hx].
    destruct (decide (x = b)) as [->|]; [done|apply IH; lia]. }
  destruct (Hb (S m)) as [(n & ? & ? & ?)|Hno]; [exists n; eauto with lia|].
  exfalso. by apply (Hno m); [lia|].
Qed.

(** Where the search stops: an empty slot, or the node searched for. *)
Definition stops (hash : Z) (str : list byte) (s : slot) : bool :=
  match s with Empty => true | Deleted => false | Node n => matches hash str n end.

Lemma empty_on_path k es hash : 0 <= k -> Z.of_nat (length es) = 2 ^ k ->
  (occupied es < length es)%nat ->
  exists j, (j < length es)%nat /\ slot_at es (probe k hash j) = Empty.
Proof.
  intros Hk Hlen [i Hi]%occupied_empty. pose proof (lookup_lt_Some _ _ _ Hi).
  destruct (probe_surjective k hash (Z.of_nat i)) as (j & Hj & Hp); [done|lia|].
  exists j. split; [lia|]. rewrite Hp. unfold slot_at. by rewrite Nat2Z.id, Hi.
Qed.

(** The deleted slot the search notes is one of the path. *)
Definition noted (k : Z) (es : list slot) (hash : Z) (J : nat) (d : Z) : Prop :=
  d = 2 ^ k \/
  exists j, (j < J)%nat /\ d = probe k hash j /\ slot_at es (probe k hash j) = Deleted.

Definition search_result (k : Z) (es : list slot) (hash : Z) (J : nat) (r : found) : Prop :=
  match slot_at es (probe k hash J) with
  | Node n => r = Found n
  | _ => exists d, r = Absent (probe k hash J) d /\ noted k es hash J d
  end.

Lemma probe_loop_spec k es hash str J : 0 <= k <= 32 ->
  stops hash str (slot_at es (probe k hash J)) = true ->
  (forall j, (j < J)%nat -> stops hash str (slot_at es (probe k hash j)) = false) ->
  forall fuel j d coll, (j < J <= j + fuel)%nat -> noted k es hash (S j) d ->
  exists r coll',
    probe_loop fuel es (2 ^ k) hash (step_of k hash) str (probe k hash j) d coll = Some (r, coll') /\
    search_result k es hash J r.
Proof.
  intros Hk HJ Hmin. induction fuel as [|fuel IH]; intros j d coll Hj Hd; [lia|]. cbn [probe_loop].
  rewrite probe_S by done.
  destruct (decide (S j = J)) as [<-|Hne].
  - unfold search_result. destruct (slot_at es (probe k hash (S j))) as [| |n]; simpl in HJ; [|done|].
    + eauto 10.
    + rewrite HJ. eauto.
  - assert (S j < J)%nat as Hlt by lia. specialize (Hmin _ Hlt).
    destruct (slot_at es (probe k hash (S j))) as [| |n] eqn:E; simpl in Hmin; [done|..].
    + apply IH; [lia|]. destruct (negb (d =? 2 ^ k)).
      * right. exists (S j). repeat split; [lia|done].
      * destruct Hd as [?|(j0 & ? & ? & ?)]; [by left|right; exists j0; eauto with lia].
    + rewrite Hmin. apply IH; [lia|].
      destruct Hd as [?|(j0 & ? & ? & ?)]; [by left|right; exists j0; eauto with lia].
Qed.

Lemma search_stops t k str hash : 0 <= k <= 32 -> nslots t = 2 ^ k ->
  Z.of_nat (length (entries t)) = 2 ^ k -> (occupied (entries t) < length (entries t))%nat ->
  exists J r coll, ht_search t str hash = Some (r, coll) /\
    stops hash str (slot_at (entries t) (probe k hash J)) = true /\
    (forall j, (j < J)%nat -> stops hash str (slot_at (entries t) (probe k hash j)) = false) /\
    search_result k (entries t) hash J r.
Proof.
  intros Hk Hn Hlen Hocc.
  destruct (empty_on_path k (entries t) hash) as (m & Hm & HE); [lia|done|done|].
  destruct (least (fun j => stops hash str (slot_at (entries t) (probe k hash j)) = true) m)
    as (J & HJm & HJ & Hmin); [by rewrite HE|].
  assert (forall j, (j < J)%nat -> stops hash str (slot_at (entries t) (probe k hash j)) = false)
    as Hmin' by (intros j Hj; apply not_true_iff_false, Hmin, Hj).
  unfold ht_search. rewrite Hn, probe_0 by lia. fold (step_of k hash).
  assert (forall d, (0 < J)%nat -> noted k (entries t) hash 1 d -> exists r coll,
    probe_loop (length (entries t)) (entries t) (2 ^ k) hash (step_of k hash) str (probe k hash 0) d
      (collisions t) = Some (r, coll) /\ search_result k (entries t) hash J r) as Hloop.
  { intros d HJ0 Hd. eapply probe_loop_spec; eauto with lia. }
  exists J. destruct (decide (J = 0%nat)) as [->|HJ0].
  - unfold search_result. destruct (slot_at (entries t) (probe k hash 0)); simpl in HJ; [|done|].
    + do 2 eexists. split; [done|]. split; [done|]. split; [done|]. eexists. split; [done|]. by left.
    + rewrite HJ. do 2 eexists. done.
  - pose proof (Hmin' 0%nat ltac:(lia)) as H0.
    destruct (slot_at (entries t) (probe k hash 0)) eqn:E0; simpl in H0; [done|..].
    + destruct (Hloop (probe k hash 0)) as (r & coll & -> & Hr); [lia| |by eauto 10].
      right. exists 0%nat. repeat split; [lia|done].
    + rewrite H0. destruct (Hloop (2 ^ k)) as (r & coll & -> & Hr); [lia|by left|by eauto 10].
Qed.

(** The outcome of a search for [str] in a table that satisfies the
    invariant. *)
Definition search_ok (k : Z) (es : list slot) (str : list byte) (r : found) : Prop :=
  match r with
  | Found n => Node n ∈ es /\ hn_str n = str
  | Absent index deleted =>
      (forall n, Node n ∈ es -> hn_str n <> str) /\
      exists j, (if negb (deleted =? 2 ^ k) then deleted else index) = probe k (calc_hash str) j /\
        (forall n, slot_at es (probe k (calc_hash str) j) <> Node n) /\
        reaches k es (calc_hash str) j
  end.

Lemma search_correct t k str : 0 <= k <= 32 -> nslots t = 2 ^ k -> wf_entries k (entries t) ->
  (occupied (entries t) < length (entries t))%nat -> len_ok str ->
  exists r coll, ht_search t str (calc_hash str) = Some (r, coll) /\ search_ok k (entries t) str r.
Proof.
  intros Hk Hn Hwf Hocc Hok. pose proof (we_length _ _ Hwf) as Hlen.
  destruct (search_stops t k str (calc_hash str)) as (J & r & coll & HS & HJ & Hmin & Hr); [done..|].
  exists r, coll. split; [done|]. clear HS coll. set (es := entries t) in *.
  assert (reaches k es (calc_hash str) J) as HreachJ.
  { intros j Hj HE. specialize (Hmin j Hj). by rewrite HE in Hmin. }
  unfold search_result in Hr. pose proof (probe_range k (calc_hash str) J ltac:(lia)) as HrJ.
  destruct (slot_at es (probe k (calc_hash str) J)) as [| |n] eqn:EJ; simpl in HJ; [|done|].
  - destruct Hr as (d & -> & Hd). split.
    + intros n Hin Hs. apply list_elem_of_lookup in Hin as [i Hi].
      destruct (we_path _ _ Hwf _ _ Hi) as (j & Hp & Hreach).
      destruct (we_node _ _ Hwf _ _ Hi) as [Hh Hl]. rewrite Hs in Hh. rewrite Hh in *.
      assert (slot_at es (probe k (calc_hash str) j) = Node n) as Ej.
      { rewrite Hp. apply slot_at_lookup; [lia|done|]. by rewrite Nat2Z.id. }
      destruct (Nat.lt_trichotomy j J) as [Hlt|[->|Hgt]]; [|congruence|by apply (Hreach J)].
      specialize (Hmin j Hlt). rewrite Ej in Hmin. simpl in Hmin.
      assert (matches (calc_hash str) str n = true); [|congruence].
      apply matches_true; [done|congruence|done|done|done].
    + destruct Hd as [->|(j & Hj & -> & Ej)].
      * rewrite Z.eqb_refl. exists J. rewrite EJ. done.
      * exists j. rewrite Ej. split; [|split; [done|]].
        -- pose proof (probe_range k (calc_hash str) j ltac:(lia)).
           destruct (Z.eqb_spec (probe k (calc_hash str) j) (2 ^ k)); [lia|done].
        -- intros j' Hj'. apply HreachJ. lia.
  - subst r. apply slot_at_lookup in EJ; [|lia|done]. split; [by eapply list_elem_of_lookup_2|].
    destruct (we_node _ _ Hwf _ _ EJ). by eapply matches_true.
Qed.

(** ** Expansion *)

Lemma expand_loop_spec k es hash J : 0 <= k <= 32 -> slot_at es (probe k hash J) = Empty ->
  reaches k es hash J -> forall fuel j, (j < J <= j + fuel)%nat ->
  expand_loop fuel es (2 ^ k - 1) (step_of k hash) (probe k hash j) = Some (probe k hash J).
Proof.
  intros Hk HJ Hreach. induction fuel as [|fuel IH]; intros j Hj; [lia|]. cbn [expand_loop].
  rewrite probe_S by done. destruct (decide (S j = J)) as [->|Hne]; [by rewrite HJ|].
  pose proof (Hreach (S j) ltac:(lia)). destruct (slot_at es (probe k hash (S j))); [done|apply IH; lia..].
Qed.

Lemma expand_put_spec k es n : 0 <= k <= 32 -> wf_entries k es -> (occupied es < length es)%nat ->
  exists j, expand_put (2 ^ k) es n = Some (<[Z.to_nat (probe k (hn_hash n) j) := Node n]> es) /\
    slot_at es (probe k (hn_hash n) j) = Empty /\ reaches k es (hn_hash n) j.
Proof.
  intros Hk Hwf Hocc.
  destruct (empty_on_path k es (hn_hash n)) as (m & Hm & HE); [lia|apply Hwf|done|].
  destruct (least (fun j => slot_at es (probe k (hn_hash n) j) = Empty) m) as (J & HJm & HJ & Hmin);
    [done|].
  exists J. split; [|done]. unfold expand_put. rewrite probe_0 by lia. fold (step_of k (hn_hash n)).
  destruct (decide (J = 0%nat)) as [->|HJ0]; [by rewrite HJ|].
  pose proof (Hmin 0%nat ltac:(lia)) as H0.
  rewrite (expand_loop_spec k es (hn_hash n) J) by (done || lia).
  by destruct (slot_at es (probe k (hn_hash n) 0)).
Qed.

(** The nodes still to be moved. *)
Lemma expand_all_spec k old es : 0 <= k <= 32 -> wf_entries k es ->
  (occupied es + live old < length es)%nat ->
  (forall i i' n n', old !! i = Some (Node n) -> old !! i' = Some (Node n') ->
    hn_str n = hn_str n' -> i = i') ->
  (forall n, Node n ∈ old -> hn_hash n = calc_hash (hn_str n) /\ len_ok (hn_str n)) ->
  (forall n n', Node n ∈ old -> Node n' ∈ es -> hn_str n' <> hn_str n) ->
  exists es', expand_all (2 ^ k) old es = Some es' /\ wf_entries k es' /\
    (occupied es' <= occupied es + live old)%nat /\
    forall m, Node m ∈ es' <-> Node m ∈ old \/ Node m ∈ es.
Proof.
  intros Hk. revert es. induction old as [|s old IH]; intros es Hwf Hocc Huniq Hnode Hdisj.
  { exists es. split_and!; [done|done|simpl; lia|]. intros m. rewrite elem_of_nil. tauto. }
  assert (forall i i' n n', old !! i = Some (Node n) -> old !! i' = Some (Node n') ->
    hn_str n = hn_str n' -> i = i') as Huniq'.
  { intros i i' n n' H1 H2 H3. specialize (Huniq (S i) (S i') n n' H1 H2 H3). lia. }
  unfold live in Hocc. rewrite filter_cons in Hocc.
  destruct s as [| |n]; cbn [expand_all]; [| |].
  1, 2: rewrite decide_False in Hocc by (intros []); unfold live; rewrite filter_cons, decide_False by (intros []);
    fold (live old) in *;
    destruct (IH es) as (es' & -> & Hwf' & Hocc' & Hmem); try done;
      [intros; apply Hnode; by right|intros; apply Hdisj; [by right|done]|];
    exists es'; split_and!; [done|done|done|]; intros m; rewrite Hmem, elem_of_cons; naive_solver.
  rewrite decide_True in Hocc by done. unfold live. rewrite filter_cons, decide_True by done.
  cbn [length] in *. fold (live old) in *.
  destruct (expand_put_spec k es n) as (j & -> & HE & Hreach); [done|done|lia|].
  destruct (Hnode n) as [Hh Hl]; [by left|].
  pose proof (probe_range k (hn_hash n) j ltac:(lia)) as Hr. pose proof (we_length _ _ Hwf).
  assert (forall n', slot_at es (probe k (hn_hash n) j) <> Node n') as Hfree by (intros; by rewrite HE).
  pose proof (occupied_insert es (Z.to_nat (probe k (hn_hash n) j)) n).
  destruct (IH (<[Z.to_nat (probe k (hn_hash n) j) := Node n]> es)) as (es' & -> & Hwf' & Hocc' & Hmem).
  - apply put_wf; try done; [lia|]. intros n' Hn'. apply Hdisj; [by left|done].
  - rewrite length_insert. lia.
  - done.
  - intros; apply Hnode; by right.
  - intros m m' Hm. rewrite put_members by (done || lia). intros [->|Hm'].
    + intros Hs. apply list_elem_of_lookup in Hm as [i Hi]. by specialize (Huniq 0%nat (S i) n m eq_refl Hi Hs).
    + apply Hdisj; [by right|done].
  - exists es'. split_and!; [done|done|lia|]. intros m.
    rewrite Hmem, elem_of_cons, put_members by (done || lia). naive_solver.
Qed.

(** ** The table invariant

    [2 ^ k] slots, fewer than three quarters of them in use (the deleted ones
    count), and node numbers that are distinct and below the next one. *)

Record wf_ht (k : Z) (t : ht) : Prop := {
  wh_order : 0 <= k <= 30;
  wh_nslots : nslots t = 2 ^ k;
  wh_entries : wf_entries k (entries t);
  wh_occupied : Z.of_nat (occupied (entries t)) <= nelements t;
  wh_load : 4 * nelements t < 3 * 2 ^ k;
  wh_fresh : forall n, Node n ∈ entries t -> (hn_id n < next_node t)%nat;
  wh_ids : forall n n', Node n ∈ entries t -> Node n' ∈ entries t -> hn_id n = hn_id n' -> n = n'
}.

Lemma slot_at_replicate m i : slot_at (replicate m Empty) i = Empty.
Proof.
  unfold slot_at. destruct (replicate m Empty !! Z.to_nat i) eqn:E; [|done].
  by apply lookup_replicate in E as [-> _].
Qed.

Lemma no_node_replicate m i n : ~ replicate m Empty !! i = Some (Node n).
Proof. intros [? _]%lookup_replicate. done. Qed.

Lemma no_node_in_replicate m n : ~ Node n ∈ replicate m Empty.
Proof. intros [i Hi]%list_elem_of_lookup. by eapply no_node_replicate. Qed.

Lemma occupied_replicate m : occupied (replicate m Empty) = 0%nat.
Proof. unfold occupied. induction m; [done|]. simpl. rewrite filter_cons. by rewrite decide_False by naive_solver. Qed.

Lemma replicate_wf k : 0 <= k -> wf_entries k (replicate (Z.to_nat (2 ^ k)) Empty).
Proof.
  intros Hk. pose proof (pow2_gt0 k Hk).
  split; [rewrite length_replicate; lia|intros; by exfalso; eapply no_node_replicate..].
Qed.

Lemma ht_create_wf order : 0 <= order <= 30 -> wf_ht order (ht_create order).
Proof.
  intros Ho. pose proof (pow2_gt0 order ltac:(lia)). pose proof (pow2_le order 30 ltac:(lia)).
  assert (nslots (ht_create order) = 2 ^ order) as E.
  { unfold ht_create; cbn [nslots]. rewrite Z.shiftl_1_l. apply u32_small. lia. }
  assert (entries (ht_create order) = replicate (Z.to_nat (2 ^ order)) Empty) as Ee by (by rewrite <- E).
  split; try done; rewrite ?Ee, ?occupied_replicate; simpl; try lia.
  - apply replicate_wf; lia.
  - intros n ?%no_node_in_replicate. done.
  - intros n n' ?%no_node_in_replicate. done.
Qed.

Lemma live_count_le k t : wf_ht k t -> (occupied (entries t) < length (entries t))%nat.
Proof.
  intros H. pose proof (we_length _ _ (wh_entries _ _ H)). pose proof (wh_occupied _ _ H).
  pose proof (wh_load _ _ H). pose proof (pow2_gt0 k ltac:(apply H)). lia.
Qed.

(** Doubling the table keeps the nodes and satisfies the invariant again. *)
Lemma ht_expand_spec k t : 0 <= k <= 29 -> nslots t = 2 ^ k -> wf_entries k (entries t) ->
  Z.of_nat (occupied (entries t)) <= nelements t -> 4 * nelements t < 3 * 2 ^ (k + 1) ->
  (forall n, Node n ∈ entries t -> (hn_id n < next_node t)%nat) ->
  (forall n n', Node n ∈ entries t -> Node n' ∈ entries t -> hn_id n = hn_id n' -> n = n') ->
  exists t', ht_expand t = Some t' /\ wf_ht (k + 1) t' /\ nelements t' = nelements t /\
    next_node t' = next_node t /\ forall n, Node n ∈ entries t' <-> Node n ∈ entries t.
Proof.
  intros Hk Hn Hwf Hocc Hload Hfresh Hids. pose proof (pow2_le (k + 1) 30 ltac:(lia)).
  pose proof (pow2_gt0 k ltac:(lia)).
  assert (2 ^ (k + 1) = 2 * 2 ^ k) as Hp by (rewrite Z.pow_add_r by lia; lia).
  unfold ht_expand. rewrite Hn. replace (2 ^ k * 2) with (2 ^ (k + 1)) by lia.
  rewrite u32_small by lia.
  pose proof (live_occupied (entries t)). pose proof (we_length _ _ Hwf) as Hlen.
  assert (occupied (entries t) <= length (entries t))%nat by (unfold occupied; apply length_filter).
  destruct (expand_all_spec (k + 1) (entries t) (replicate (Z.to_nat (2 ^ (k + 1))) Empty))
    as (es' & -> & Hwf' & Hocc' & Hmem); [lia|apply replicate_wf; lia|..].
  - rewrite occupied_replicate, length_replicate. lia.
  - apply Hwf.
  - intros n [i Hi]%list_elem_of_lookup. by eapply we_node.
  - intros n n' _ ?%no_node_in_replicate. done.
  - assert (forall n, Node n ∈ es' <-> Node n ∈ entries t) as Hmem'.
    { intros n. rewrite Hmem. pose proof (no_node_in_replicate (Z.to_nat (2 ^ (k + 1))) n). tauto. }
    rewrite occupied_replicate in Hocc'.
    eexists. split; [done|]. split; [|done].
    split; cbn [entries nslots nelements next_node]; try done; try lia.
    + intros n ?%Hmem'. by apply Hfresh.
    + intros n n' ?%Hmem' ?%Hmem'. by apply Hids.
Qed.

(** ** The abstract table

    A finite map from texts to node numbers, and the next number. *)

Record interner : Type := mk_interner { in_map : gmap (list Z) nat; in_next : nat }.

Definition intern (a : interner) (str : list byte) (insert : ht_lookup_option)
  : interner * option nat :=
  match in_map a !! str, insert with
  | Some id, _ => (a, Some id)
  | None, HT_NO_INSERT => (a, None)
  | None, HT_ALLOC => (mk_interner (<[str := in_next a]> (in_map a)) (S (in_next a)), Some (in_next a))
  end.

Definition forget (a : interner) (cb : nat -> list byte -> bool) : interner :=
  mk_interner (filter (fun p => cb p.2 p.1 = false) (in_map a)) (in_next a).

Record represents (t : ht) (a : interner) : Prop := {
  rep_map : forall str id, in_map a !! str = Some id <->
    exists n, Node n ∈ entries t /\ hn_str n = str /\ hn_id n = id;
  rep_next : in_next a = next_node t
}.

(** What a client sees of a node. *)
Definition node_view (n : hnode) : nat * list byte := (hn_id n, hn_str n).
Definition seen (str : list byte) (id : nat) : nat * list byte := (id, str).

Lemma represents_members t t' a : (forall n, Node n ∈ entries t' <-> Node n ∈ entries t) ->
  next_node t' = next_node t -> represents t a -> represents t' a.
Proof.
  intros Hm Hn [Hr He]. split; [|congruence]. intros str id. rewrite Hr.
  split; intros (n & ? & ?); exists n; naive_solver.
Qed.

(** A new node in a table. *)
Lemma represents_put t t' a str node :
  (forall n, Node n ∈ entries t' <-> n = node \/ Node n ∈ entries t) ->
  hn_str node = str -> hn_id node = next_node t -> next_node t' = S (next_node t) ->
  (forall n, Node n ∈ entries t -> hn_str n <> str) ->
  represents t a -> represents t' (mk_interner (<[str := in_next a]> (in_map a)) (S (in_next a))).
Proof.
  intros Hm Hs Hid Hn Hnew [Hr He]. split; simpl; [|congruence]. intros s id.
  rewrite lookup_insert_Some. split.
  - intros [[<- <-]|[Hne (n & ? & ? & ?)%Hr]]; [exists node|exists n]; rewrite Hm; naive_solver congruence.
  - intros (n & [->|Hin]%Hm & <- & <-); [left; split; congruence|right]. split; [|apply Hr; eauto].
    intros Heq. by apply (Hnew n).
Qed.

Lemma represents_lookup k t a str : wf_ht k t -> represents t a ->
  (forall n, Node n ∈ entries t -> hn_str n = str -> in_map a !! str = Some (hn_id n)) /\
  ((forall n, Node n ∈ entries t -> hn_str n <> str) -> in_map a !! str = None).
Proof.
  intros Hwf [Hr _]. split; [intros n ? ?; apply Hr; eauto|]. intros Hno.
  destruct (in_map a !! str) as [id|] eqn:E; [|done]. apply Hr in E as (n & ? & ? & _).
  by exfalso; eapply Hno.
Qed.

(** The budget below which no counter of the table wraps. *)
Definition max_elements : Z := 2 ^ 28.

(** The table after a node was put in it, before the test for expansion. *)
Lemma put_table k t str j : wf_ht k t -> len_ok str -> nelements t + 1 < max_elements ->
  (forall n, Node n ∈ entries t -> hn_str n <> str) ->
  (forall n, slot_at (entries t) (probe k (calc_hash str) j) <> Node n) ->
  reaches k (entries t) (calc_hash str) j ->
  let node := mk_hnode (next_node t) (calc_hash str) str in
  let es := <[Z.to_nat (probe k (calc_hash str) j) := Node node]> (entries t) in
  wf_entries k es /\ Z.of_nat (occupied es) <= nelements t + 1 /\
  (forall n, Node n ∈ es <-> n = node \/ Node n ∈ entries t) /\
  (forall n, Node n ∈ es -> (hn_id n < S (next_node t))%nat) /\
  (forall n n', Node n ∈ es -> Node n' ∈ es -> hn_id n = hn_id n' -> n = n').
Proof.
  intros Hwf Hok Hb Hnew Hfree Hreach node es. pose proof (wh_order _ _ Hwf).
  pose proof (probe_range k (calc_hash str) j ltac:(lia)).
  pose proof (we_length _ _ (wh_entries _ _ Hwf)).
  assert (forall n, Node n ∈ es <-> n = node \/ Node n ∈ entries t) as Hm
    by (intros; apply put_members; [lia|done]).
  split_and!; [| |done| |].
  - apply (put_wf k (entries t) node j); try done; [lia|apply Hwf].
  - pose proof (occupied_insert (entries t) (Z.to_nat (probe k (calc_hash str) j)) node).
    pose proof (wh_occupied _ _ Hwf). unfold es. lia.
  - intros n [->|Hn]%Hm; simpl; [lia|]. pose proof (wh_fresh _ _ Hwf n Hn). lia.
  - intros n n' [->|Hn]%Hm [->|Hn']%Hm Heq; simpl in *; [done|..].
    + pose proof (wh_fresh _ _ Hwf _ Hn'). lia.
    + pose proof (wh_fresh _ _ Hwf _ Hn). lia.
    + by eapply wh_ids.
Qed.

Lemma wf_ht_stats k t s c : wf_ht k t ->
  wf_ht k (mk_ht (entries t) (nslots t) (nelements t) s c (entries_owned t) (next_node t)).
Proof. intros []. by split. Qed.

Lemma nelements_nonneg k t : wf_ht k t -> 0 <= nelements t.
Proof. intros H. pose proof (wh_occupied _ _ H). lia. Qed.

(** A look-up terminates and acts as the abstract table does. *)
Lemma ht_lookup_spec k t a str insert : wf_ht k t -> represents t a -> len_ok str ->
  nelements t + 1 < max_elements ->
  exists k' t' r, ht_lookup t str insert = Some (t', r) /\ wf_ht k' t' /\ k <= k' /\
    nelements t <= nelements t' <= nelements t + 1 /\
    represents t' (fst (intern a str insert)) /\
    option_map node_view r = option_map (seen str) (snd (intern a str insert)).
Proof.
  intros Hwf Hrep Hok Hb. pose proof (wh_order _ _ Hwf) as Hk. pose proof (nelements_nonneg _ _ Hwf).
  destruct (represents_lookup k t a str Hwf Hrep) as [Hin Hout].
  destruct (search_correct t k str) as (r & coll & Hs & Hr);
    [lia|apply Hwf|apply Hwf|by eapply live_count_le|done|].
  unfold ht_lookup, ht_lookup_with_hash, intern. rewrite Hs. destruct r as [n|index deleted].
  - destruct Hr as [Hn Hstr]. rewrite (Hin n Hn Hstr).
    exists k; do 2 eexists. split; [by destruct insert|]. split; [by apply wf_ht_stats|].
    cbn. rewrite <- Hstr. split_and!; try done || lia. by eapply represents_members; [..|exact Hrep].
  - destruct Hr as (Hnew & j & Hidx & Hfree & Hreach). rewrite (Hout Hnew). destruct insert.
    { exists k; do 2 eexists. split; [done|]. split; [by apply wf_ht_stats|].
      cbn. split_and!; try done || lia. by eapply represents_members; [..|exact Hrep]. }
    cbn [nslots nelements entries next_node searches collisions entries_owned].
    rewrite (wh_nslots _ _ Hwf) in *. rewrite Hidx.
    destruct (put_table k t str j) as (Hwfe & Hocc & Hmem & Hfr & Hids); try done.
    set (node := mk_hnode (next_node t) (calc_hash str) str) in *.
    set (es := <[_ := _]> (entries t)) in *.
    unfold max_elements in Hb. pose proof (pow2_le k 30 ltac:(lia)). pose proof (pow2_gt0 k ltac:(lia)).
    pose proof (wh_load _ _ Hwf).
    rewrite (u32_small (nelements t + 1)), !u32_small by lia.
    destruct (Z.leb_spec (2 ^ k * 3) ((nelements t + 1) * 4)) as [Hle|Hgt].
    + assert (k < 29) by (apply (Z.pow_lt_mono_r_iff 2); lia).
      assert (2 ^ (k + 1) = 2 * 2 ^ k) as Hp by (rewrite Z.pow_add_r by lia; lia).
      set (t1 := mk_ht es _ _ _ _ _ _).
      destruct (ht_expand_spec k t1) as (t' & -> & Hwf' & Hne & Hnn & Hm); try done;
        [lia|cbn [nelements t1]; lia|].
      exists (k + 1), t', (Some node). split; [done|]. split; [done|]. rewrite Hne.
      split_and!; [lia|cbn [nelements t1]; lia|cbn [nelements t1]; lia| |by rewrite (rep_next _ _ Hrep)].
      apply (represents_put t _ a str node); [|done|done|exact Hnn|done|exact Hrep]. intros n. rewrite Hm. apply Hmem.
    + exists k. do 2 eexists. split; [done|]. split.
      { split; cbn [entries nslots nelements next_node]; try done; lia. }
      split_and!; [lia|cbn [nelements]; lia|cbn [nelements]; lia| |by rewrite (rep_next _ _ Hrep)].
      apply (represents_put t _ a str node); [|done|done|done|done|exact Hrep]. done.
Qed.

(** ** Purging *)

Lemma purge_empty cb s : purge_slot cb s = Empty <-> s = Empty.
Proof. destruct s as [| |n]; simpl; [done|done|]. by destruct (cb n). Qed.

Lemma purge_slot_at cb es i : slot_at (map (purge_slot cb) es) i = purge_slot cb (slot_at es i).
Proof. unfold slot_at. change (map (purge_slot cb) es) with (purge_slot cb <$> es). rewrite list_lookup_fmap. by destruct (es !! Z.to_nat i). Qed.

Lemma purge_lookup cb es i n : map (purge_slot cb) es !! i = Some (Node n) <->
  es !! i = Some (Node n) /\ cb n = false.
Proof.
  change (map (purge_slot cb) es) with (purge_slot cb <$> es). rewrite list_lookup_fmap.
  destruct (es !! i) as [[| |m]|]; simpl; [naive_solver..| |naive_solver].
  destruct (cb m) eqn:E; naive_solver congruence.
Qed.

Lemma purge_members cb es n : Node n ∈ map (purge_slot cb) es <-> Node n ∈ es /\ cb n = false.
Proof.
  rewrite !list_elem_of_lookup. setoid_rewrite purge_lookup. naive_solver.
Qed.

Lemma purge_occupied cb es : occupied (map (purge_slot cb) es) = occupied es.
Proof.
  unfold occupied. induction es as [|s es IH]; [done|]. cbn [map]. rewrite !filter_cons.
  pose proof (purge_empty cb s). repeat case_decide; simpl; rewrite ?IH; naive_solver.
Qed.

Lemma ht_purge_wf k t cb : wf_ht k t -> wf_ht k (ht_purge t cb).
Proof.
  intros [Hk Hn [Hl Hp Hu Hnode] Ho Hload Hf Hi].
  split; unfold ht_purge; cbn [entries nslots nelements next_node]; rewrite ?purge_occupied; try done.
  - split.
    + by rewrite length_map.
    + intros i n [Hin _]%purge_lookup. destruct (Hp _ _ Hin) as (j & Hj & Hr). exists j. split; [done|].
      intros j' Hj'. rewrite purge_slot_at, purge_empty. by apply Hr.
    + intros i i' n n' [? _]%purge_lookup [? _]%purge_lookup. by apply Hu.
    + intros i n [? _]%purge_lookup. by eapply Hnode.
  - intros n [? _]%purge_members. by apply Hf.
  - intros n n' [? _]%purge_members [? _]%purge_members. by apply Hi.
Qed.

Lemma ht_purge_represents k t a cb : wf_ht k t -> represents t a ->
  represents (ht_purge t (fun n => cb (hn_id n) (hn_str n))) (forget a cb).
Proof.
  intros Hwf [Hr Hn]. split; [|done]. intros str id. simpl. rewrite map_lookup_filter_Some. simpl.
  rewrite Hr. setoid_rewrite purge_members. naive_solver.
Qed.

(** ** Sequences of operations *)

Inductive ht_op : Type :=
  | Lookup (str : list byte) (insert : ht_lookup_option)
  | Purge (cb : nat -> list byte -> bool).

Definition step_ht (t : ht) (o : ht_op) : option (ht * option (nat * list byte)) :=
  match o with
  | Lookup str insert =>
      match ht_lookup t str insert with
      | Some (t, r) => Some (t, option_map node_view r)
      | None => None
      end
  | Purge cb => Some (ht_purge t (fun n => cb (hn_id n) (hn_str n)), None)
  end.

Definition step_spec (a : interner) (o : ht_op) : interner * option (nat * list byte) :=
  match o with
  | Lookup str insert => let '(a, r) := intern a str insert in (a, option_map (seen str) r)
  | Purge cb => (forget a cb, None)
  end.

Fixpoint run_ht (t : ht) (ops : list ht_op) : option (ht * list (option (nat * list byte))) :=
  match ops with
  | [] => Some (t, [])
  | o :: ops =>
      match step_ht t o with
      | None => None
      | Some (t, r) =>
          match run_ht t ops with
          | None => None
          | Some (t, rs) => Some (t, r :: rs)
          end
      end
  end.

Fixpoint run_spec (a : interner) (ops : list ht_op) : interner * list (option (nat * list byte)) :=
  match ops with
  | [] => (a, [])
  | o :: ops =>
      let '(a, r) := step_spec a o in let '(a, rs) := run_spec a ops in (a, r :: rs)
  end.

Definition op_ok (o : ht_op) : Prop :=
  match o with Lookup str _ => len_ok str | Purge _ => True end.

Lemma step_simulates k t a o : wf_ht k t -> represents t a -> op_ok o -> nelements t + 1 < max_elements ->
  exists k' t', step_ht t o = Some (t', snd (step_spec a o)) /\ wf_ht k' t' /\ k <= k' /\
    nelements t <= nelements t' <= nelements t + 1 /\ represents t' (fst (step_spec a o)).
Proof.
  intros Hwf Hrep Hok Hb. destruct o as [str insert|cb]; cbn [step_ht step_spec].
  - destruct (ht_lookup_spec k t a str insert) as (k' & t' & r & -> & Hwf' & Hk & Hne & Hrep' & Hr); try done.
    destruct (intern a str insert) as [a' r']. simpl in *. rewrite Hr. eauto 10.
  - exists k, (ht_purge t (fun n => cb (hn_id n) (hn_str n))). split; [done|].
    split; [by apply ht_purge_wf|]. split; [lia|]. split; [cbn; lia|]. by eapply ht_purge_represents.
Qed.

Lemma run_simulates ops k t a : wf_ht k t -> represents t a -> Forall op_ok ops ->
  nelements t + Z.of_nat (length ops) < max_elements ->
  exists k' t', run_ht t ops = Some (t', snd (run_spec a ops)) /\ wf_ht k' t' /\
    represents t' (fst (run_spec a ops)).
Proof.
  revert k t a. induction ops as [|o ops IH]; intros k t a Hwf Hrep Hok Hb; [by eauto|].
  apply Forall_cons_1 in Hok as [Ho Hops]. cbn [length] in Hb.
  destruct (step_simulates k t a o) as (k1 & t1 & E & Hwf1 & _ & Hne & Hrep1); [done..|lia|].
  cbn [run_ht run_spec]. rewrite E. destruct (step_spec a o) as [a1 r]. simpl in Hrep1.
  destruct (IH k1 t1 a1) as (k2 & t2 & E2 & Hwf2 & Hrep2); [done..|lia|]. cbn [snd].
  rewrite E2. destruct (run_spec a1 ops) as [a2 rs]. simpl in *. eauto.
Qed.

Definition no_names : interner := mk_interner ∅ 0.

Lemma ht_create_represents order : represents (ht_create order) no_names.
Proof.
  split; [|done]. intros str id. simpl. rewrite lookup_empty. split; [done|].
  intros (n & Hn & _). by apply no_node_in_replicate in Hn.
Qed.

(** ** Walking the table *)

Definition every (n : hnode) : bool := true.

Lemma forall_slots_elem es n : n ∈ forall_slots every es <-> Node n ∈ es.
Proof.
  induction es as [|[| |m] es IH]; cbn [forall_slots]; rewrite ?elem_of_nil; [done|..];
    rewrite !elem_of_cons; rewrite ?IH; naive_solver.
Qed.

Lemma forall_slots_nodup es :
  (forall i i' n n', es !! i = Some (Node n) -> es !! i' = Some (Node n') -> n = n' -> i = i') ->
  NoDup (forall_slots every es).
Proof.
  induction es as [|s es IH]; intros Hu; [constructor|].
  assert (NoDup (forall_slots every es)) as Hes.
  { apply IH. intros i i' n n' H1 H2 H3. specialize (Hu (S i) (S i') n n' H1 H2 H3). lia. }
  destruct s as [| |m]; cbn [forall_slots every]; [done|done|]. apply NoDup_cons. split; [|done].
  rewrite forall_slots_elem, list_elem_of_lookup. intros [i Hi].
  by specialize (Hu 0%nat (S i) m m eq_refl Hi eq_refl).
Qed.

(** A callback that stops the walk has seen a prefix of the full one. *)
Lemma forall_slots_prefix cb es : forall_slots cb es `prefix_of` forall_slots every es.
Proof.
  induction es as [|[| |m] es IH]; cbn [forall_slots every]; [done..|].
  apply prefix_cons. destruct (cb m); [done|apply prefix_nil].
Qed.

Lemma wf_same_str k t n n' : wf_ht k t -> Node n ∈ entries t -> Node n' ∈ entries t ->
  hn_str n = hn_str n' -> n = n'.
Proof.
  intros Hwf [i Hi]%list_elem_of_lookup [i' Hi']%list_elem_of_lookup Hs.
  assert (i = i') as <- by (by eapply (we_unique _ _ (wh_entries _ _ Hwf))). congruence.
Qed.

Lemma forall_nodup k t : wf_ht k t -> NoDup (forall_slots every (entries t)).
Proof.
  intros Hwf. apply forall_slots_nodup. intros i i' n n' Hi Hi' ->.
  by eapply (we_unique _ _ (wh_entries _ _ Hwf)).
Qed.

(** The abstract table a table stands for. *)
Definition text_and_id (n : hnode) : list Z * nat := (hn_str n, hn_id n).
Definition abstract (t : ht) : interner :=
  mk_interner (list_to_map (text_and_id <$> forall_slots every (entries t))) (next_node t).

Lemma abstract_keys k t : wf_ht k t -> NoDup (text_and_id <$> forall_slots every (entries t)).*1.
Proof.
  intros Hwf. rewrite <- list_fmap_compose. apply NoDup_fmap_2_strong; [|by eapply forall_nodup].
  intros n n' Hn Hn'. apply (wf_same_str k t); [done|by apply forall_slots_elem..].
Qed.

Lemma abstract_represents k t : wf_ht k t -> represents t (abstract t).
Proof.
  intros Hwf. split; [|done]. intros str id. simpl.
  rewrite <- elem_of_list_to_map by (by eapply abstract_keys).
  rewrite list_elem_of_fmap. setoid_rewrite forall_slots_elem. unfold text_and_id. naive_solver.
Qed.

(** C11: A table made by [ht_create] and used through any sequence of
    [ht_lookup] (with and without insertion) and [ht_purge], with expansions
    whenever the load demands one, behaves as a finite map from texts to
    nodes: every search ends, a text that is present gets the node it was
    given, an absent one gets a fresh node exactly when insertion is asked
    for, and purged nodes are gone.  The bound on the number of operations
    keeps the 32-bit counters from wrapping. *)
Theorem identifier_table_refines (order : Z) (ops : list ht_op) :
  0 <= order <= 30 -> Forall op_ok ops -> Z.of_nat (length ops) < max_elements ->
  exists t, run_ht (ht_create order) ops = Some (t, snd (run_spec no_names ops)) /\
    represents t (fst (run_spec no_names ops)).
Proof.
  intros Ho Hok Hb.
  destruct (run_simulates ops order (ht_create order) no_names) as (k & t & ? & _ & ?);
    [by apply ht_create_wf|apply ht_create_represents|done|cbn [nelements ht_create]; lia|eauto].
Qed.

Definition sample_ops : list ht_op :=
  [Lookup (bytes "foo") HT_ALLOC; Lookup (bytes "bar") HT_NO_INSERT; Lookup (bytes "bar") HT_ALLOC;
   Lookup (bytes "baz") HT_ALLOC; Purge (fun _ s => bytes_eqb s (bytes "bar"));
   Lookup (bytes "foo") HT_NO_INSERT; Lookup (bytes "bar") HT_NO_INSERT;
   Lookup (bytes "bar") HT_ALLOC; Lookup (bytes "qux") HT_ALLOC].

Lemma sample_ops_ok : Forall op_ok sample_ops.
Proof. repeat (apply Forall_cons_2; [by vm_compute|]). apply Forall_nil_2. Qed.

Lemma identifier_table_refines_witness :
  snd (run_spec no_names sample_ops) =
    [Some (0%nat, bytes "foo"); None; Some (1%nat, bytes "bar"); Some (2%nat, bytes "baz"); None;
     Some (0%nat, bytes "foo"); None; Some (3%nat, bytes "bar"); Some (4%nat, bytes "qux")] /\
  exists t, run_ht (ht_create 1) sample_ops = Some (t, snd (run_spec no_names sample_ops)) /\
    represents t (fst (run_spec no_names sample_ops)).
Proof.
  split; [by vm_compute|].
  apply (identifier_table_refines 1 sample_ops); [lia|exact sample_ops_ok|by vm_compute].
Defined.

(** C30: Every operation preserves the invariant of the table: a power of two
    slots, each node reachable on the probe path of its hash without an empty
    slot before it, one node per text, and, deleted slots included, less than
    three quarters of the slots in use, so that an empty slot is always left
    to end a search.  No operation shrinks the table. *)
Theorem identifier_table_invariant (k : Z) (t : ht) (o : ht_op) :
  wf_ht k t -> op_ok o -> nelements t + 1 < max_elements ->
  exists k' t' r, step_ht t o = Some (t', r) /\ wf_ht k' t' /\ k <= k' /\
    (occupied (entries t') < length (entries t'))%nat.
Proof.
  intros Hwf Hok Hb.
  pose proof (abstract_represents k t Hwf) as Hrep.
  destruct (step_simulates k t _ o Hwf Hrep Hok Hb) as (k' & t' & E & Hwf' & Hk & _ & _).
  exists k', t'. eexists. split_and!; [exact E|done|done|by eapply live_count_le].
Qed.

Lemma identifier_table_invariant_witness :
  exists k' t' r, step_ht (ht_create 1) (Lookup (bytes "foo") HT_ALLOC) = Some (t', r) /\
    wf_ht k' t' /\ 1 <= k' /\ (occupied (entries t') < length (entries t'))%nat.
Proof.
  apply (identifier_table_invariant 1 (ht_create 1) (Lookup (bytes "foo") HT_ALLOC));
    [apply ht_create_wf; lia|by vm_compute|by vm_compute].
Defined.

(** [ht_forall] with a callback that never stops it calls back once for
    each name of the table, and for nothing else, deleted slots included; a
    callback that returns zero has seen an initial part of that walk. *)
Theorem ht_forall_visits_names (k : Z) (t : ht) (a : interner) (cb : hnode -> bool) :
  wf_ht k t -> represents t a ->
  text_and_id <$> ht_forall t every ≡ₚ map_to_list (in_map a) /\
  ht_forall t cb `prefix_of` ht_forall t every.
Proof.
  intros Hwf [Hr _]. split; [|apply forall_slots_prefix]. apply NoDup_Permutation.
  - eapply NoDup_fmap_1, abstract_keys, Hwf.
  - apply NoDup_map_to_list.
  - intros [str id]. rewrite elem_of_map_to_list, Hr, list_elem_of_fmap. unfold ht_forall.
    setoid_rewrite forall_slots_elem. unfold text_and_id. naive_solver.
Qed.

Lemma ht_forall_visits_names_witness :
  exists t, run_ht (ht_create 1) sample_ops = Some (t, snd (run_spec no_names sample_ops)) /\
    text_and_id <$> ht_forall t every ≡ₚ map_to_list (in_map (fst (run_spec no_names sample_ops))) /\
    ht_forall t (fun _ => false) `prefix_of` ht_forall t every.
Proof.
  destruct (run_simulates sample_ops 1 (ht_create 1) no_names) as (k & t & E & Hwf & Hrep);
    [apply ht_create_wf; lia|apply ht_create_represents|exact sample_ops_ok|by vm_compute|].
  exists t. split; [exact E|]. exact (ht_forall_visits_names k t _ (fun _ => false) Hwf Hrep).
Defined.
