(* ===== verification/LineMap.v ===== *)
(** * Source locations: the line table (libcpp/line-map.c, include/line-map.h)

    A location is a 32-bit number: the low ones are given out by the ordinary
    maps (a file and a run of its lines each), the high ones by the macro maps
    (the tokens of one macro expansion each), and those with the top bit set
    index a table of ranges and client data.

    A function that can go wrong in the source (an index outside an array, a
    null map, a failed [linemap_assert], a signed overflow) returns [None]
    there: the theorems show that it does not.  Allocation (the growth of the
    arrays) and the printing of statistics are left out. *)

From Stdlib Require Import ZArith Lia Bool String.
From stdpp Require Import base tactics list numbers strings.
From S2P Require Import Prelude Stream.

Local Open Scope Z_scope.

(** ** Data *)

Notation location_t := Z (only parsing).

Definition LINE_MAP_MAX_COLUMN_NUMBER : Z := Z.shiftl 1 12.
Definition LINE_MAP_MAX_LOCATION_WITH_PACKED_RANGES : location_t := 0x50000000.
Definition LINE_MAP_MAX_LOCATION_WITH_COLS : location_t := 0x60000000.
Definition LINE_MAP_MAX_LOCATION : location_t := 0x70000000.
Definition MAX_LOCATION_T : location_t := 0x7FFFFFFF.
Definition RESERVED_LOCATION_COUNT : location_t := 2.

Inductive lc_reason : Type :=
  LC_ENTER | LC_LEAVE | LC_RENAME | LC_RENAME_VERBATIM | LC_ENTER_MACRO.

#[export] Instance lc_reason_eq_dec : EqDecision lc_reason.
Proof. solve_decision. Defined.

Record source_range : Type := mk_range { m_start : location_t; m_finish : location_t }.

#[export] Instance source_range_eq_dec : EqDecision source_range.
Proof. solve_decision. Defined.

(** A null file name is [None]. *)
Record line_map_ordinary : Type := mk_ordinary {
  start_location : location_t;
  reason : lc_reason;
  sysp : Z;
  m_column_and_range_bits : Z;
  m_range_bits : Z;
  to_file : option (list byte);
  to_line : Z;
  included_from : location_t
}.

Record line_map_macro : Type := mk_macro {
  macro_start : location_t;
  n_tokens : Z;
  macro : list byte;
  macro_locations : list location_t;
  expansion : location_t
}.

(** The client's pointer is a number, null is [None]. *)
Record location_adhoc_data : Type := mk_adhoc {
  locus : location_t;
  src_range : source_range;
  data : option nat
}.

#[export] Instance location_adhoc_data_eq_dec : EqDecision location_adhoc_data.
Proof. solve_decision. Defined.

Record line_maps : Type := mk_maps {
  ordinary : list line_map_ordinary;
  ordinary_cache : nat;
  macros : list line_map_macro;
  macro_cache : nat;
  depth : Z;
  highest_location : location_t;
  highest_line : location_t;
  max_column_hint : Z;
  adhoc : list location_adhoc_data;
  builtin_location : location_t;
  default_range_bits : Z;
  num_optimized_ranges : Z;
  num_unoptimized_ranges : Z
}.

(** ** State and failure *)

Definition LM (A : Type) : Type := line_maps -> option (A * line_maps).

Definition lret {A} (x : A) : LM A := fun s => Some (x, s).
Definition lfail {A} : LM A := fun _ => None.
Definition lbind {A B} (m : LM A) (f : A -> LM B) : LM B :=
  fun s => match m s with Some (x, s) => f x s | None => None end.
Definition lget {A} (f : line_maps -> A) : LM A := fun s => Some (f s, s).
Definition lmod (f : line_maps -> line_maps) : LM unit := fun s => Some (tt, f s).
Definition linemap_assert (b : bool) : LM unit := if b then lret tt else lfail.
Definition lopt {A} (x : option A) : LM A := match x with Some x => lret x | None => lfail end.

Notation "x ←l m ;; k" := (lbind m (fun x => k))
  (at level 100, m at next level, k at level 200, right associativity).
Notation "m ;;l k" := (lbind m (fun _ => k)) (at level 100, k at level 200, right associativity).

Definition set_ordinary (o : list line_map_ordinary) (s : line_maps) : line_maps :=
  mk_maps o (ordinary_cache s) (macros s) (macro_cache s) (depth s) (highest_location s)
    (highest_line s) (max_column_hint s) (adhoc s) (builtin_location s) (default_range_bits s)
    (num_optimized_ranges s) (num_unoptimized_ranges s).
Definition set_ordinary_cache (c : nat) (s : line_maps) : line_maps :=
  mk_maps (ordinary s) c (macros s) (macro_cache s) (depth s) (highest_location s)
    (highest_line s) (max_column_hint s) (adhoc s) (builtin_location s) (default_range_bits s)
    (num_optimized_ranges s) (num_unoptimized_ranges s).
Definition set_macros (m : list line_map_macro) (s : line_maps) : line_maps :=
  mk_maps (ordinary s) (ordinary_cache s) m (macro_cache s) (depth s) (highest_location s)
    (highest_line s) (max_column_hint s) (adhoc s) (builtin_location s) (default_range_bits s)
    (num_optimized_ranges s) (num_unoptimized_ranges s).
Definition set_macro_cache (c : nat) (s : line_maps) : line_maps :=
  mk_maps (ordinary s) (ordinary_cache s) (macros s) c (depth s) (highest_location s)
    (highest_line s) (max_column_hint s) (adhoc s) (builtin_location s) (default_range_bits s)
    (num_optimized_ranges s) (num_unoptimized_ranges s).
Definition set_depth (d : Z) (s : line_maps) : line_maps :=
  mk_maps (ordinary s) (ordinary_cache s) (macros s) (macro_cache s) d (highest_location s)
    (highest_line s) (max_column_hint s) (adhoc s) (builtin_location s) (default_range_bits s)
    (num_optimized_ranges s) (num_unoptimized_ranges s).
Definition set_highest (loc line hint : Z) (s : line_maps) : line_maps :=
  mk_maps (ordinary s) (ordinary_cache s) (macros s) (macro_cache s) (depth s) loc
    line hint (adhoc s) (builtin_location s) (default_range_bits s)
    (num_optimized_ranges s) (num_unoptimized_ranges s).
Definition set_adhoc (a : list location_adhoc_data) (opt unopt : Z) (s : line_maps) : line_maps :=
  mk_maps (ordinary s) (ordinary_cache s) (macros s) (macro_cache s) (depth s) (highest_location s)
    (highest_line s) (max_column_hint s) a (builtin_location s) (default_range_bits s) opt unopt.

Definition set_highest_location (loc : location_t) (s : line_maps) : line_maps :=
  set_highest loc (highest_line s) (max_column_hint s) s.

(** The memory is zeroed; the client sets the range bits. *)
Definition linemap_init (builtin_location : location_t) : line_maps :=
  mk_maps [] 0 [] 0 0 (RESERVED_LOCATION_COUNT - 1) (RESERVED_LOCATION_COUNT - 1) 0 []
    builtin_location 0 0 0.

(** ** Accessors *)

Definition IS_ORDINARY_LOC (loc : location_t) : bool := loc <? LINE_MAP_MAX_LOCATION.
Definition IS_ADHOC_LOC (loc : location_t) : bool := MAX_LOCATION_T <? loc.
Definition IS_MACRO_LOC (loc : location_t) : bool :=
  negb (IS_ORDINARY_LOC loc) && negb (IS_ADHOC_LOC loc).

Definition SOURCE_LINE (map : line_map_ordinary) (loc : location_t) : Z :=
  u32 (Z.shiftr (u32 (loc - start_location map)) (m_column_and_range_bits map) + to_line map).

Definition SOURCE_COLUMN (map : line_map_ordinary) (loc : location_t) : Z :=
  Z.shiftr (Z.land (u32 (loc - start_location map))
              (Z.shiftl 1 (m_column_and_range_bits map) - 1))
    (m_range_bits map).

Definition MAIN_FILE_P (map : line_map_ordinary) : bool := included_from map =? 0.

(** [x & ~((1 << bits) - 1)] *)
Definition mask_low (x bits : Z) : Z := Z.ldiff x (Z.shiftl 1 bits - 1).

Definition ordinary_at (i : nat) : LM line_map_ordinary :=
  o ←l lget ordinary ;; lopt (o !! i).
Definition macro_at (i : nat) : LM line_map_macro :=
  m ←l lget macros ;; lopt (m !! i).
Definition last_index : LM nat :=
  o ←l lget ordinary ;; match o with [] => lfail | _ => lret (pred (length o)) end.
Definition update_ordinary (i : nat) (f : line_map_ordinary -> line_map_ordinary) : LM unit :=
  lmod (fun s => set_ordinary (alter f i (ordinary s)) s).

Definition LINEMAPS_MACRO_LOWEST_LOCATION (s : line_maps) : location_t :=
  match last (macros s) with Some m => macro_start m | None => MAX_LOCATION_T + 1 end.

Definition adhoc_at (loc : location_t) : LM location_adhoc_data :=
  a ←l lget adhoc ;; lopt (a !! Z.to_nat (Z.land loc MAX_LOCATION_T)).

(** The locus of an ad-hoc location, and any other location itself. *)
Definition strip_adhoc (loc : location_t) : LM location_t :=
  if IS_ADHOC_LOC loc then a ←l adhoc_at loc ;; lret (locus a) else lret loc.

(** ** Look-up *)

(** The binary search between [mn] and [mx]; each round narrows the gap. *)
Fixpoint ordinary_search (fuel : nat) (maps : list line_map_ordinary) (line : location_t)
    (mn mx : nat) : option nat :=
  match fuel with
  | O => None
  | S fuel =>
      if (1 <? mx - mn)%nat then
        let md := Nat.div2 (mn + mx) in
        match maps !! md with
        | Some m =>
            if line <? start_location m then ordinary_search fuel maps line mn md
            else ordinary_search fuel maps line md mx
        | None => None
        end
      else Some mn
  end.

Definition linemap_ordinary_map_lookup (line : location_t) : LM (option nat) :=
  line ←l strip_adhoc line ;;
  if line <? RESERVED_LOCATION_COUNT then lret None
  else
    maps ←l lget ordinary ;;
    mn ←l lget ordinary_cache ;;
    let mx := length maps in
    cached ←l ordinary_at mn ;;
    let search mn mx :=
      mn ←l lopt (ordinary_search (S (length maps)) maps line mn mx) ;;
      lmod (set_ordinary_cache mn) ;;l
      result ←l ordinary_at mn ;;
      linemap_assert (start_location result <=? line) ;;l
      lret (Some mn) in
    if start_location cached <=? line then
      if (mn + 1 =? mx)%nat then lret (Some mn)
      else
        next ←l ordinary_at (mn + 1) ;;
        if line <? start_location next then lret (Some mn) else search mn mx
    else search 0%nat mn.

(** The macro maps are in decreasing order. *)
Fixpoint macro_search (fuel : nat) (maps : list line_map_macro) (line : location_t)
    (mn mx : nat) : option nat :=
  match fuel with
  | O => None
  | S fuel =>
      if (mn <? mx)%nat then
        let md := Nat.div2 (mx + mn) in
        match maps !! md with
        | Some m =>
            if line <? macro_start m then macro_search fuel maps line (md + 1) mx
            else macro_search fuel maps line mn md
        | None => None
        end
      else Some mx
  end.

Definition linemap_macro_map_lookup (line : location_t) : LM nat :=
  line ←l strip_adhoc line ;;
  lowest ←l lget LINEMAPS_MACRO_LOWEST_LOCATION ;;
  linemap_assert (lowest <=? line) ;;l
  maps ←l lget macros ;;
  mn ←l lget macro_cache ;;
  let mx := length maps in
  cached ←l macro_at mn ;;
  let search mn mx :=
    mx ←l lopt (macro_search (S (length maps)) maps line mn mx) ;;
    lmod (set_macro_cache mx) ;;l
    result ←l macro_at mx ;;
    linemap_assert (macro_start result <=? line) ;;l
    lret mx in
  if macro_start cached <=? line then
    match mn with
    | O => lret mn
    | S prev =>
        before ←l macro_at prev ;;
        if line <? macro_start before then lret mn else search 0%nat prev
    end
  else search mn mx.

(** A pointer to a map. *)
Inductive map_ref : Type := Ordinary (i : nat) | Macro (i : nat).

Definition linemap_location_from_macro_expansion_p (loc : location_t) : LM bool :=
  loc ←l strip_adhoc loc ;; lret (IS_MACRO_LOC loc).

Definition linemap_lookup (line : location_t) : LM (option map_ref) :=
  line ←l strip_adhoc line ;;
  virtual ←l linemap_location_from_macro_expansion_p line ;;
  if virtual then i ←l linemap_macro_map_lookup line ;; lret (Some (Macro i))
  else r ←l linemap_ordinary_map_lookup line ;; lret (option_map Ordinary r).

(** [linemap_check_ordinary] and [linemap_check_macro]: the map a client needs
    to be of one kind. *)
Definition check_ordinary (m : option map_ref) : LM line_map_ordinary :=
  match m with Some (Ordinary i) => ordinary_at i | _ => lfail end.
Definition check_macro (m : option map_ref) : LM (nat * line_map_macro) :=
  match m with Some (Macro i) => m ←l macro_at i ;; lret (i, m) | _ => lfail end.

Definition pure_location_p (loc : location_t) : LM bool :=
  if IS_ADHOC_LOC loc then lret false
  else
    map ←l linemap_lookup loc ;;
    match map with
    | None => lret true
    | Some _ =>
        ordmap ←l check_ordinary map ;;
        lret (Z.land loc (u32 (Z.shiftl 1 (m_range_bits ordmap) - 1)) =? 0)
    end.

Definition get_pure_location (loc : location_t) : LM location_t :=
  loc ←l strip_adhoc loc ;;
  lowest ←l lget LINEMAPS_MACRO_LOWEST_LOCATION ;;
  if lowest <=? loc then lret loc
  else if loc <? RESERVED_LOCATION_COUNT then lret loc
  else
    map ←l linemap_lookup loc ;;
    ordmap ←l check_ordinary map ;;
    lret (mask_low loc (m_range_bits ordmap)).

(** ** File names *)

Definition TOLOWER (c : byte) : byte := if (65 <=? c) && (c <=? 90) then c + 32 else c.

(** The character compared, on a DOS-like host (which folds case) and on
    others. *)
Definition fold_name_char (dos : bool) (c : byte) : byte :=
  if dos then let c := TOLOWER c in if c =? 47 then 92 else c else c.

(** Whether [filename_cmp] returns zero. *)
Definition filename_eqb (dos : bool) (s1 s2 : list byte) : bool :=
  bytes_eqb (fold_name_char dos <$> s1) (fold_name_char dos <$> s2).

(** ** Adding maps *)

Definition set_bits (column_and_range range : Z) (m : line_map_ordinary) : line_map_ordinary :=
  mk_ordinary (start_location m) (reason m) (sysp m) column_and_range range (to_file m) (to_line m)
    (included_from m).
Definition set_included_from (loc : location_t) (m : line_map_ordinary) : line_map_ordinary :=
  mk_ordinary (start_location m) (reason m) (sysp m) (m_column_and_range_bits m) (m_range_bits m)
    (to_file m) (to_line m) loc.
Definition set_target (sp : Z) (file : option (list byte)) (line : Z) (m : line_map_ordinary)
  : line_map_ordinary :=
  mk_ordinary (start_location m) (reason m) sp 0 0 file line (included_from m).

(** The map is appended zeroed but for its start. *)
Definition new_ordinary (start : location_t) : LM nat :=
  o ←l lget ordinary ;;
  lmod (set_ordinary (o ++ [mk_ordinary start LC_ENTER 0 0 0 None 0 0])) ;;l
  lret (length o).

Definition linemap_included_from_linemap (map : line_map_ordinary) : LM (option nat) :=
  linemap_ordinary_map_lookup (included_from map).

(** A location above the highest one, its range bits zero if possible. *)
Definition next_start (s : line_maps) : location_t :=
  if highest_location s <? LINE_MAP_MAX_LOCATION_WITH_COLS then
    let start := u32 (highest_location s + Z.shiftl 1 (default_range_bits s)) in
    if negb (default_range_bits s =? 0) then mask_low start (default_range_bits s) else start
  else u32 (highest_location s + 1).

Definition is_nil {A} (l : list A) : bool := match l with [] => true | _ => false end.

Section host.
Context (dos : bool).

(** The index of the new map; a null pointer when the main file is left. *)
Definition linemap_add (rsn : lc_reason) (sp : Z) (file : option (list byte)) (line : Z)
  : LM (option nat) :=
  start ←l lget next_start ;;
  s ←l lget (fun s => s) ;;
  linemap_assert (negb (highest_location s <? LINE_MAP_MAX_LOCATION_WITH_COLS)
                  || (Z.land start (Z.shiftl 1 (default_range_bits s) - 1) =? 0)) ;;l
  (if is_nil (ordinary s) then lret tt
   else
     i ←l last_index ;; last_map ←l ordinary_at i ;;
     linemap_assert (start_location last_map <=? start)) ;;l
  linemap_assert (negb ((depth s =? 0) && bool_decide (rsn = LC_RENAME))) ;;l
  leaving ←l (if bool_decide (rsn = LC_LEAVE) then
                i ←l last_index ;; last_map ←l ordinary_at i ;;
                lret (MAIN_FILE_P last_map && bool_decide (file = None))
              else lret false) ;;
  if leaving then lmod (fun s => set_depth (u32 (depth s - 1)) s) ;;l lret None
  else
    linemap_assert (negb (bool_decide (rsn = LC_ENTER_MACRO))) ;;l
    let start := if LINE_MAP_MAX_LOCATION <=? start then 0 else start in
    map ←l new_ordinary start ;;
    update_ordinary map (fun m => mk_ordinary (start_location m) rsn (sysp m)
      (m_column_and_range_bits m) (m_range_bits m) (to_file m) (to_line m) (included_from m)) ;;l
    let file :=
      if bool_decide (file = Some []) && negb (bool_decide (rsn = LC_RENAME_VERBATIM))
      then Some (bytes "<stdin>") else file in
    let rsn := match rsn with LC_RENAME_VERBATIM => LC_RENAME | _ => rsn end in
    let previous := pred map in
    target ←l
      (match rsn with
       | LC_LEAVE =>
           prev ←l ordinary_at previous ;;
           linemap_assert (negb (MAIN_FILE_P prev)) ;;l
           from ←l linemap_included_from_linemap prev ;;
           from ←l lopt from ;;
           from_map ←l ordinary_at from ;;
           match file with
           | None =>
               next ←l ordinary_at (S from) ;;
               lret (Some from, sysp from_map, to_file from_map,
                     SOURCE_LINE from_map (start_location next))
           | Some f =>
               name ←l lopt (to_file from_map) ;;
               linemap_assert (filename_eqb dos name f) ;;l
               lret (Some from, sp, file, line)
           end
       | _ => lret (None, sp, file, line)
       end) ;;
    let '(from, sp, file, line) := target in
    update_ordinary map (set_target (u8 sp) file line) ;;l
    lmod (fun s => set_ordinary_cache (pred (length (ordinary s))) s) ;;l
    lmod (set_highest start start 0) ;;l
    pure ←l pure_location_p start ;;
    linemap_assert pure ;;l
    match rsn with
    | LC_ENTER =>
        d ←l lget depth ;;
        included ←l (if d =? 0 then lret 0
                     else
                       this ←l ordinary_at map ;; prev ←l ordinary_at previous ;;
                       lret (u32 (mask_low (u32 (start_location this - 1 - start_location prev))
                                    (m_column_and_range_bits prev)
                                  + start_location prev))) ;;
        update_ordinary map (set_included_from included) ;;l
        lmod (fun s => set_depth (u32 (depth s + 1)) s) ;;l
        lret (Some map)
    | LC_RENAME =>
        prev ←l ordinary_at previous ;;
        update_ordinary map (set_included_from (included_from prev)) ;;l
        lret (Some map)
    | LC_LEAVE =>
        lmod (fun s => set_depth (u32 (depth s - 1)) s) ;;l
        from ←l lopt from ;; from_map ←l ordinary_at from ;;
        update_ordinary map (set_included_from (included_from from_map)) ;;l
        lret (Some map)
    | _ => lret (Some map)
    end.

(** ** Lines and columns *)

(** The least number of column bits, from seven up, that holds the hint. *)
Fixpoint column_bits_for (fuel : nat) (column_bits hint : Z) : option Z :=
  match fuel with
  | O => None
  | S fuel =>
      if u32 (Z.shiftl 1 column_bits) <=? hint then column_bits_for fuel (column_bits + 1) hint
      else Some column_bits
  end.

(** An [int] from an [unsigned int]. *)
Definition s32 (x : Z) : Z := let x := u32 x in if x <? 2 ^ 31 then x else x - 2 ^ 32.

(** Whether the last map cannot hold the line as it is. *)
Definition wants_map (s : line_maps) (map : line_map_ordinary) (line_delta hint : Z) : bool :=
  let highest := highest_location s in
  let effective_column_bits := m_column_and_range_bits map - m_range_bits map in
  (line_delta <? 0)
  || ((10 <? line_delta) && (1000 <? line_delta * m_column_and_range_bits map))
  || (u32 (Z.shiftl 1 effective_column_bits) <=? hint)
  || ((hint <=? 80) && (10 <=? effective_column_bits))
  || ((LINE_MAP_MAX_LOCATION_WITH_PACKED_RANGES <? highest) && (0 <? m_range_bits map))
  || ((LINE_MAP_MAX_LOCATION_WITH_COLS <? highest)
      && (negb (max_column_hint s =? 0) || (LINE_MAP_MAX_LOCATION <=? highest))).

(** Whether columns are given up. *)
Definition gives_up (s : line_maps) (hint : Z) : bool :=
  (LINE_MAP_MAX_COLUMN_NUMBER <? hint) || (LINE_MAP_MAX_LOCATION_WITH_COLS <? highest_location s).

(** The hint, the column bits (those of the range included) and the range
    bits for the line. *)
Definition line_bits (s : line_maps) (hint : Z) : option (Z * Z * Z) :=
  if gives_up s hint then Some (0, 0, 0)
  else
    let range_bits :=
      if highest_location s <=? LINE_MAP_MAX_LOCATION_WITH_PACKED_RANGES
      then default_range_bits s else 0 in
    match column_bits_for 25 7 hint with
    | Some column_bits => Some (u32 (Z.shiftl 1 column_bits), column_bits + range_bits, range_bits)
    | None => None
    end.

(** Whether the bits of the last map cannot just be changed. *)
Definition wants_new_map (s : line_maps) (map : line_map_ordinary)
    (line line_delta last_line column_bits range_bits : Z) : bool :=
  (line_delta <? 0)
  || negb (last_line =? to_line map)
  || (u32 (Z.shiftl 1 (column_bits - range_bits)) <=? SOURCE_COLUMN map (highest_location s))
  || (Z.shiftl 1 (32 - column_bits) <=? u32 (line - to_line map))
  || (range_bits <? m_range_bits map).

(** Record the start of the line. *)
Definition start_line (line r hint : Z) : LM location_t :=
  if LINE_MAP_MAX_LOCATION <=? r then lret 0
  else
    lmod (fun s => set_highest (if highest_location s <? r then r else highest_location s) r hint s) ;;l
    i ←l last_index ;;
    map ←l ordinary_at i ;;
    pure ←l pure_location_p r ;;
    linemap_assert (pure || (LINE_MAP_MAX_LOCATION_WITH_COLS <=? r)
                    || (m_column_and_range_bits map =? 0)) ;;l
    linemap_assert (SOURCE_LINE map r =? line) ;;l
    lret r.

Definition linemap_line_start (line : Z) (hint : Z) : LM location_t :=
  i ←l last_index ;;
  map ←l ordinary_at i ;;
  s ←l lget (fun s => s) ;;
  let last_line := SOURCE_LINE map (highest_line s) in
  let line_delta := s32 (line - last_line) in
  linemap_assert (m_range_bits map <=? m_column_and_range_bits map) ;;l
  linemap_assert ((line_delta <=? 10) || (line_delta * m_column_and_range_bits map <? 2 ^ 31)) ;;l
  if wants_map s map line_delta hint then
    if gives_up s hint && (LINE_MAP_MAX_LOCATION <=? highest_location s) then lret 0
    else
      bits ←l lopt (line_bits s hint) ;;
      let '(hint, column_bits, range_bits) := bits in
      (if wants_new_map s map line line_delta last_line column_bits range_bits
       then linemap_add LC_RENAME (sysp map) (to_file map) line ;;l lret tt
       else lret tt) ;;l
      i ←l last_index ;;
      update_ordinary i (set_bits column_bits range_bits) ;;l
      map ←l ordinary_at i ;;
      start_line line
        (u32 (start_location map + u32 (Z.shiftl (u32 (line - to_line map)) column_bits))) hint
  else
    start_line line
      (u32 (highest_line s + u32 (Z.shiftl line_delta (m_column_and_range_bits map))))
      (max_column_hint s).

Definition linemap_position_for_column (to_column : Z) : LM location_t :=
  i ←l last_index ;;
  s ←l lget (fun s => s) ;;
  let position r :=
    i ←l last_index ;;
    map ←l ordinary_at i ;;
    let r := u32 (r + u32 (Z.shiftl to_column (m_range_bits map))) in
    lmod (fun s => set_highest_location (if highest_location s <=? r then r else highest_location s) s) ;;l
    lret r in
  if max_column_hint s <=? to_column then
    if (LINE_MAP_MAX_LOCATION_WITH_COLS <? highest_line s) || (LINE_MAP_MAX_COLUMN_NUMBER <? to_column)
    then lret (highest_line s)
    else
      map ←l ordinary_at i ;;
      r ←l linemap_line_start (SOURCE_LINE map (highest_line s)) (u32 (to_column + 50)) ;;
      i ←l last_index ;;
      map ←l ordinary_at i ;;
      if m_column_and_range_bits map =? 0 then lret r else position r
  else position (highest_line s).

(** In [_cpp_stack_include], when the line after the #include has been
    started: the location is given back before the file is entered. *)
Definition enter_included_file (sp : Z) (file : option (list byte)) (line : Z) : LM (option nat) :=
  lmod (fun s => set_highest_location (u32 (highest_location s - 1)) s) ;;l
  linemap_add LC_ENTER sp file line.
End host.

Definition linemap_position_for_line_and_column (map : line_map_ordinary) (line column : Z)
  : LM location_t :=
  linemap_assert (to_line map <=? line) ;;l
  let r := u32 (start_location map
                + u32 (Z.shiftl (u32 (line - to_line map)) (m_column_and_range_bits map))) in
  let r :=
    if r <=? LINE_MAP_MAX_LOCATION_WITH_COLS then
      u32 (r + u32 (Z.shiftl (Z.land column (Z.shiftl 1 (m_column_and_range_bits map) - 1))
                      (m_range_bits map)))
    else r in
  upper_limit ←l lget LINEMAPS_MACRO_LOWEST_LOCATION ;;
  let r := if upper_limit <=? r then upper_limit - 1 else r in
  lmod (fun s => if highest_location s <? r then set_highest_location r s else s) ;;l
  lret r.

(** ** Macro expansions *)

Definition linemap_enter_macro (macro_node : list byte) (exp : location_t) (num_tokens : Z)
  : LM (option nat) :=
  lowest ←l lget LINEMAPS_MACRO_LOWEST_LOCATION ;;
  let start := u32 (lowest - num_tokens) in
  if start <? LINE_MAP_MAX_LOCATION then lret None
  else
    m ←l lget macros ;;
    lmod (set_macros (m ++ [mk_macro start num_tokens macro_node
                              (replicate (Z.to_nat (2 * num_tokens)) 0) exp])) ;;l
    lmod (set_macro_cache (length m)) ;;l
    lret (Some (length m)).

Definition set_locations (token_no : Z) (orig_loc parm_loc : location_t) (m : line_map_macro)
  : line_map_macro :=
  mk_macro (macro_start m) (n_tokens m) (macro m)
    (<[Z.to_nat (2 * token_no + 1) := parm_loc]>
       (<[Z.to_nat (2 * token_no) := orig_loc]> (macro_locations m)))
    (expansion m).

Definition linemap_add_macro_token (map : nat) (token_no : Z)
    (orig_loc orig_parm_replacement_loc : location_t) : LM location_t :=
  m ←l macro_at map ;;
  linemap_assert (token_no <? n_tokens m) ;;l
  lmod (fun s => set_macros
    (alter (set_locations token_no orig_loc orig_parm_replacement_loc) map (macros s)) s) ;;l
  lret (u32 (macro_start m + token_no)).

(** The location is one of the map's. *)
Definition covers (map : line_map_macro) (loc : location_t) : bool :=
  (macro_start map <=? loc) && (u32 (loc - macro_start map) <? n_tokens map).

Definition linemap_macro_map_loc_to_exp_point (map : line_map_macro) (loc : location_t)
  : LM location_t :=
  linemap_assert (covers map loc) ;;l lret (expansion map).

Definition linemap_macro_map_loc_to_def_point (map : line_map_macro) (loc : location_t)
  : LM location_t :=
  linemap_assert (covers map loc && (RESERVED_LOCATION_COUNT <=? loc)) ;;l
  lopt (macro_locations map !! Z.to_nat (2 * u32 (loc - macro_start map) + 1)).

Definition linemap_macro_map_loc_unwind_toward_spelling (map : line_map_macro) (loc : location_t)
  : LM location_t :=
  loc ←l strip_adhoc loc ;;
  linemap_assert (covers map loc && (RESERVED_LOCATION_COUNT <=? loc) && negb (IS_ADHOC_LOC loc)) ;;l
  lopt (macro_locations map !! Z.to_nat (2 * u32 (loc - macro_start map))).

(** ** Resolution

    Each loop follows a location through the expansions that led to it; the
    fuel is one round per macro map and one more. *)

Inductive location_resolution_kind : Type :=
  LRK_MACRO_EXPANSION_POINT | LRK_SPELLING_LOCATION | LRK_MACRO_DEFINITION_LOCATION.

Definition rounds (s : line_maps) : nat := S (length (macros s)).

(** The location reached and its map, null for a reserved location. *)
Fixpoint to_spelling_point (fuel : nat) (loc : location_t) : LM (location_t * option nat) :=
  match fuel with
  | O => lfail
  | S fuel =>
      map ←l linemap_lookup loc ;;
      match map with
      | None => lret (loc, None)
      | Some (Ordinary i) => lret (loc, Some i)
      | Some (Macro i) =>
          m ←l macro_at i ;;
          loc ←l linemap_macro_map_loc_unwind_toward_spelling m loc ;;
          to_spelling_point fuel loc
      end
  end.

Definition linemap_macro_loc_to_spelling_point (loc : location_t) : LM (location_t * option nat) :=
  linemap_assert (RESERVED_LOCATION_COUNT <=? loc) ;;l
  n ←l lget rounds ;; to_spelling_point n loc.

Fixpoint to_def_point (fuel : nat) (loc : location_t) : LM (location_t * option nat) :=
  match fuel with
  | O => lfail
  | S fuel =>
      caret_loc ←l strip_adhoc loc ;;
      map ←l linemap_lookup caret_loc ;;
      match map with
      | None => lret (loc, None)
      | Some (Ordinary i) => lret (loc, Some i)
      | Some (Macro i) =>
          m ←l macro_at i ;;
          loc ←l linemap_macro_map_loc_to_def_point m caret_loc ;;
          to_def_point fuel loc
      end
  end.

Definition linemap_macro_loc_to_def_point (loc : location_t) : LM (location_t * option nat) :=
  linemap_assert (RESERVED_LOCATION_COUNT <=? loc) ;;l
  n ←l lget rounds ;; to_def_point n loc.

Fixpoint to_exp_point (fuel : nat) (loc : location_t) : LM (location_t * option map_ref) :=
  match fuel with
  | O => lfail
  | S fuel =>
      map ←l linemap_lookup loc ;;
      match map with
      | Some (Macro i) =>
          m ←l macro_at i ;;
          loc ←l linemap_macro_map_loc_to_exp_point m loc ;;
          to_exp_point fuel loc
      | _ => lret (loc, map)
      end
  end.

(** The map is checked to be ordinary only when it is asked for, but a null
    one is read then. *)
Definition linemap_macro_loc_to_exp_point (loc : location_t) (want_map : bool)
  : LM (location_t * option nat) :=
  loc ←l strip_adhoc loc ;;
  linemap_assert (RESERVED_LOCATION_COUNT <=? loc) ;;l
  n ←l lget rounds ;;
  r ←l to_exp_point n loc ;;
  match snd r with
  | Some (Ordinary i) => lret (fst r, Some i)
  | _ => if want_map then lfail else lret (fst r, None)
  end.

Definition linemap_resolve_location (loc : location_t) (lrk : location_resolution_kind)
    (want_map : bool) : LM (location_t * option nat) :=
  locus ←l strip_adhoc loc ;;
  if locus <? RESERVED_LOCATION_COUNT then lret (loc, None)
  else
    match lrk with
    | LRK_MACRO_EXPANSION_POINT => linemap_macro_loc_to_exp_point loc want_map
    | LRK_SPELLING_LOCATION => linemap_macro_loc_to_spelling_point loc
    | LRK_MACRO_DEFINITION_LOCATION => linemap_macro_loc_to_def_point loc
    end.

Definition linemap_get_expansion_line (loc : location_t) : LM Z :=
  loc ←l strip_adhoc loc ;;
  if loc <? RESERVED_LOCATION_COUNT then lret 0
  else
    r ←l linemap_macro_loc_to_exp_point loc true ;;
    i ←l lopt (snd r) ;; map ←l ordinary_at i ;;
    lret (SOURCE_LINE map (fst r)).

Definition linemap_get_expansion_filename (loc : location_t) : LM (option (list byte)) :=
  loc ←l strip_adhoc loc ;;
  if loc <? RESERVED_LOCATION_COUNT then lret None
  else
    r ←l linemap_macro_loc_to_exp_point loc true ;;
    i ←l lopt (snd r) ;; map ←l ordinary_at i ;;
    lret (to_file map).

Fixpoint in_system_header (fuel : nat) (loc : location_t) : LM Z :=
  match fuel with
  | O => lfail
  | S fuel =>
      map ←l linemap_lookup loc ;;
      match map with
      | None => lret 0
      | Some (Ordinary i) => map ←l ordinary_at i ;; lret (sysp map)
      | Some (Macro i) =>
          m ←l macro_at i ;;
          spelled ←l linemap_macro_map_loc_unwind_toward_spelling m loc ;;
          if spelled <? RESERVED_LOCATION_COUNT then
            loc ←l linemap_macro_map_loc_to_exp_point m loc ;; in_system_header fuel loc
          else in_system_header fuel spelled
      end
  end.

Definition linemap_location_in_system_header_p (loc : location_t) : LM Z :=
  loc ←l strip_adhoc loc ;;
  if loc <? RESERVED_LOCATION_COUNT then lret 0
  else n ←l lget rounds ;; in_system_header n loc.

Fixpoint from_macro_definition (fuel : nat) (loc : location_t) : LM bool :=
  match fuel with
  | O => lfail
  | S fuel =>
      map ←l linemap_lookup loc ;;
      im ←l check_macro map ;;
      s_loc ←l linemap_macro_map_loc_unwind_toward_spelling (snd im) loc ;;
      virtual ←l linemap_location_from_macro_expansion_p s_loc ;;
      if virtual then from_macro_definition fuel s_loc
      else
        def_loc ←l linemap_macro_map_loc_to_def_point (snd im) loc ;;
        lret (s_loc =? def_loc)
  end.

Definition linemap_location_from_macro_definition_p (loc : location_t) : LM bool :=
  loc ←l strip_adhoc loc ;;
  virtual ←l linemap_location_from_macro_expansion_p loc ;;
  if negb virtual then lret false
  else n ←l lget rounds ;; from_macro_definition n loc.

(** Two maps are one when they are the same pointer. *)
Definition same_map (a b : option map_ref) : bool :=
  match a, b with
  | None, None => true
  | Some (Ordinary i), Some (Ordinary j) => (i =? j)%nat
  | Some (Macro i), Some (Macro j) => (i =? j)%nat
  | _, _ => false
  end.

(** The first macro map in common; each round takes one of the locations to
    the expansion point of its map, so there are at most two rounds per map. *)
Fixpoint common_map (fuel : nat) (l0 l1 : location_t) (map0 map1 : option map_ref)
  : LM (option (option map_ref * location_t * location_t)) :=
  match fuel with
  | O => lfail
  | S fuel =>
      match map0, map1 with
      | Some (Macro i0), Some (Macro i1) =>
          if (i0 =? i1)%nat then lret (Some (map0, l0, l1))
          else
            m0 ←l macro_at i0 ;; m1 ←l macro_at i1 ;;
            if macro_start m0 <? macro_start m1 then
              l0 ←l linemap_macro_map_loc_to_exp_point m0 l0 ;;
              map0 ←l linemap_lookup l0 ;; common_map fuel l0 l1 map0 map1
            else
              l1 ←l linemap_macro_map_loc_to_exp_point m1 l1 ;;
              map1 ←l linemap_lookup l1 ;; common_map fuel l0 l1 map0 map1
      | _, _ => lret (if same_map map0 map1 then Some (map0, l0, l1) else None)
      end
  end.

Definition first_map_in_common (loc0 loc1 : location_t)
  : LM (option (option map_ref * location_t * location_t)) :=
  map0 ←l linemap_lookup loc0 ;; map1 ←l linemap_lookup loc1 ;;
  s ←l lget (fun s => s) ;;
  common_map (rounds s + rounds s) loc0 loc1 map0 map1.

(** Positive when [pre] comes before [post]. *)
Definition linemap_compare_locations (pre post : location_t) : LM Z :=
  l0 ←l strip_adhoc pre ;; l1 ←l strip_adhoc post ;;
  if l0 =? l1 then lret 0
  else
    pre_virtual_p ←l linemap_location_from_macro_expansion_p l0 ;;
    l0 ←l (if pre_virtual_p then
             r ←l linemap_resolve_location l0 LRK_MACRO_EXPANSION_POINT false ;; lret (fst r)
           else lret l0) ;;
    post_virtual_p ←l linemap_location_from_macro_expansion_p l1 ;;
    l1 ←l (if post_virtual_p then
             r ←l linemap_resolve_location l1 LRK_MACRO_EXPANSION_POINT false ;; lret (fst r)
           else lret l1) ;;
    if (l0 =? l1) && pre_virtual_p && post_virtual_p then
      c ←l first_map_in_common pre post ;;
      match c with
      | Some (Some (Macro i), l0, l1) =>
          m ←l macro_at i ;;
          lret (s32 (u32 (l1 - macro_start m) - u32 (l0 - macro_start m)))
      | Some (Some (Ordinary i), l0, l1) =>
          m ←l ordinary_at i ;;
          lret (s32 (u32 (l1 - start_location m) - u32 (l0 - start_location m)))
      | _ => lfail
      end
    else
      l0 ←l strip_adhoc l0 ;; l1 ←l strip_adhoc l1 ;; lret (s32 (l1 - l0)).

Definition linemap_unwind_toward_expansion (loc : location_t) (map : option map_ref)
  : LM (location_t * option map_ref) :=
  im ←l check_macro map ;;
  loc ←l strip_adhoc loc ;;
  resolved ←l linemap_macro_map_loc_unwind_toward_spelling (snd im) loc ;;
  resolved_map ←l linemap_lookup resolved ;;
  match resolved_map with
  | Some (Macro _) => lret (resolved, resolved_map)
  | _ =>
      resolved ←l linemap_macro_map_loc_to_exp_point (snd im) loc ;;
      resolved_map ←l linemap_lookup resolved ;;
      lret (resolved, resolved_map)
  end.

(** ** What a location means *)

Record expanded_location : Type := mk_expanded {
  x_file : option (list byte);
  x_line : Z;
  x_column : Z;
  x_data : option nat;
  x_sysp : bool
}.

Definition linemap_expand_location (map : option map_ref) (loc : location_t) : LM expanded_location :=
  data ←l (if IS_ADHOC_LOC loc then a ←l adhoc_at loc ;; lret (data a) else lret None) ;;
  loc ←l strip_adhoc loc ;;
  if loc <? RESERVED_LOCATION_COUNT then lret (mk_expanded None 0 0 data false)
  else
    match map with
    | None => lfail
    | Some _ =>
        virtual ←l linemap_location_from_macro_expansion_p loc ;;
        if virtual then lfail
        else
          ord_map ←l check_ordinary map ;;
          lret (mk_expanded (to_file ord_map) (SOURCE_LINE ord_map loc) (SOURCE_COLUMN ord_map loc)
                  data (negb (sysp ord_map =? 0)))
    end.

(** ** Ad-hoc locations *)

Definition can_be_stored_compactly_p (s : line_maps) (loc : location_t) (range : source_range)
    (data : option nat) : bool :=
  if bool_decide (data <> None) then false
  else if negb (m_start range =? loc) then false
  else if m_finish range <? m_start range then false
  else if m_start range <? RESERVED_LOCATION_COUNT then false
  else if LINE_MAP_MAX_LOCATION_WITH_PACKED_RANGES <=? loc then false
  else
    let lowest_macro_loc := LINEMAPS_MACRO_LOWEST_LOCATION s in
    if lowest_macro_loc <=? loc then false
    else if lowest_macro_loc <=? m_start range then false
    else if lowest_macro_loc <=? m_finish range then false
    else true.

(** The place of an entry in the table, added at the end if it is new: what
    the hash table of the source finds. *)
Definition adhoc_slot (lb : location_adhoc_data) : LM nat :=
  a ←l lget adhoc ;;
  match list_find (fun x => x = lb) a with
  | Some (i, _) => lret i
  | None =>
      lmod (fun s => set_adhoc (a ++ [lb]) (num_optimized_ranges s) (num_unoptimized_ranges s) s) ;;l
      lret (length a)
  end.

(** A location that is not packed: itself when it is its own range, or its
    place in the table. *)
Definition store_adhoc (loc : location_t) (range : source_range) (data : option nat)
  : LM location_t :=
  if (loc =? m_start range) && (loc =? m_finish range) && bool_decide (data = None) then lret loc
  else
    (if bool_decide (data = None) then
       lmod (fun s => set_adhoc (adhoc s) (num_optimized_ranges s)
                        (u32 (num_unoptimized_ranges s + 1)) s)
     else lret tt) ;;l
    slot ←l adhoc_slot (mk_adhoc loc range data) ;;
    lret (Z.lor (u32 (Z.of_nat slot)) 0x80000000).

Definition get_combined_adhoc_loc (loc : location_t) (range : source_range) (data : option nat)
  : LM location_t :=
  loc ←l strip_adhoc loc ;;
  if (loc =? 0) && bool_decide (data = None) then lret 0
  else
    lowest ←l lget LINEMAPS_MACRO_LOWEST_LOCATION ;;
    (if (loc <? RESERVED_LOCATION_COUNT) || (LINE_MAP_MAX_LOCATION_WITH_PACKED_RANGES <=? loc)
        || (lowest <=? loc) then lret tt
     else pure ←l pure_location_p loc ;; linemap_assert pure) ;;l
    s ←l lget (fun s => s) ;;
    if can_be_stored_compactly_p s loc range data then
      pure ←l pure_location_p loc ;;
      linemap_assert pure ;;l
      map ←l linemap_lookup loc ;;
      ordmap ←l check_ordinary map ;;
      let int_diff := u32 (m_finish range - m_start range) in
      let col_diff := Z.shiftr int_diff (m_range_bits ordmap) in
      if col_diff <? u32 (Z.shiftl 1 (m_range_bits ordmap)) then
        lmod (fun s => set_adhoc (adhoc s) (u32 (num_optimized_ranges s + 1))
                         (num_unoptimized_ranges s) s) ;;l
        lret (Z.lor loc col_diff)
      else store_adhoc loc range data
    else store_adhoc loc range data.

Definition get_data_from_adhoc_loc (loc : location_t) : LM (option nat) :=
  linemap_assert (IS_ADHOC_LOC loc) ;;l a ←l adhoc_at loc ;; lret (data a).
Definition get_location_from_adhoc_loc (loc : location_t) : LM location_t :=
  linemap_assert (IS_ADHOC_LOC loc) ;;l a ←l adhoc_at loc ;; lret (locus a).

Definition get_range_from_loc (loc : location_t) : LM source_range :=
  if IS_ADHOC_LOC loc then a ←l adhoc_at loc ;; lret (src_range a)
  else
    lowest ←l lget LINEMAPS_MACRO_LOWEST_LOCATION ;;
    if (RESERVED_LOCATION_COUNT <=? loc) && (loc <? lowest)
       && (loc <=? LINE_MAP_MAX_LOCATION_WITH_PACKED_RANGES) then
      map ←l linemap_lookup loc ;;
      ordmap ←l check_ordinary map ;;
      let offset := Z.land loc (Z.shiftl 1 (m_range_bits ordmap) - 1) in
      let start := u32 (loc - offset) in
      lret (mk_range start (u32 (start + Z.shiftl offset (m_range_bits ordmap))))
    else lret (mk_range loc loc).
