(* ===== verification/LineHist.v ===== *)
(** * The line table keeps its promises: look-up and the history of locations

    Look-up is shown to find, from any state of its cache, the map a linear
    scan finds.  Then the line table is followed through any history of files
    entered, left and renamed and lines and columns recorded in them: every
    location given out means, for ever after, the file, line and column it was
    given out for. *)

From Stdlib Require Import ZArith Lia Bool String.
From stdpp Require Import base tactics list numbers strings.
From S2P Require Import Prelude Stream LineMap.

Local Open Scope Z_scope.

(** ** Running the monad *)

Lemma lbind_some {A B} (m : LM A) (f : A -> LM B) s x s' :
  m s = Some (x, s') -> lbind m f s = f x s'.
Proof. intros E. unfold lbind. by rewrite E. Qed.

Lemma lbind_ret {A B} (x : A) (f : A -> LM B) s : lbind (lret x) f s = f x s.
Proof. done. Qed.

Lemma lbind_get {A B} (g : line_maps -> A) (f : A -> LM B) s : lbind (lget g) f s = f (g s) s.
Proof. done. Qed.

Lemma lbind_mod {B} (g : line_maps -> line_maps) (f : unit -> LM B) s : lbind (lmod g) f s = f tt (g s).
Proof. done. Qed.

Lemma lbind_assert {B} b (f : unit -> LM B) s : b = true -> lbind (linemap_assert b) f s = f tt s.
Proof. by intros ->. Qed.

Lemma lbind_opt {A B} (o : option A) x (f : A -> LM B) s : o = Some x -> lbind (lopt o) f s = f x s.
Proof. by intros ->. Qed.

Lemma lbind_assoc {A B C} (m : LM A) (f : A -> LM B) (g : B -> LM C) s :
  lbind (lbind m f) g s = lbind m (fun x => lbind (f x) g) s.
Proof. unfold lbind. by destruct (m s) as [[x s']|]. Qed.

Lemma ordinary_at_some {B} i m (f : line_map_ordinary -> LM B) s : ordinary s !! i = Some m ->
  lbind (ordinary_at i) f s = f m s.
Proof. intros E. unfold ordinary_at, lbind, lget, lopt. by rewrite E. Qed.

Lemma macro_at_some {B} i m (f : line_map_macro -> LM B) s : macros s !! i = Some m ->
  lbind (macro_at i) f s = f m s.
Proof. intros E. unfold macro_at, lbind, lget, lopt. by rewrite E. Qed.

Lemma last_index_some {B} (f : nat -> LM B) s m : ordinary s !! pred (length (ordinary s)) = Some m ->
  lbind last_index f s = f (pred (length (ordinary s))) s.
Proof. intros E. unfold last_index, lbind, lget, lret. by destruct (ordinary s). Qed.

Lemma strip_adhoc_plain {B} loc (f : location_t -> LM B) s : IS_ADHOC_LOC loc = false ->
  lbind (strip_adhoc loc) f s = f loc s.
Proof. intros E. unfold strip_adhoc. by rewrite E. Qed.

(** ** Ordinary maps *)

(** The map of a location: the last one that starts at or before it. *)
Definition owner (maps : list line_map_ordinary) (loc : location_t) (i : nat) : Prop :=
  exists m, maps !! i = Some m /\ start_location m <= loc /\
    forall m', maps !! S i = Some m' -> loc < start_location m'.

Definition sorted_starts (maps : list line_map_ordinary) : Prop :=
  forall i j mi mj, (i < j)%nat -> maps !! i = Some mi -> maps !! j = Some mj ->
    start_location mi < start_location mj.

Lemma owner_unique maps loc i j : sorted_starts maps -> owner maps loc i -> owner maps loc j -> i = j.
Proof.
  intros Hs (mi & Hi & Hle & Hni) (mj & Hj & Hle' & Hnj).
  destruct (Nat.lt_trichotomy i j) as [Hlt|[->|Hgt]]; [|done|]; exfalso.
  - destruct (lookup_lt_is_Some_2 maps (S i)) as [m Hm];
      [apply lookup_lt_Some in Hj; lia|]. specialize (Hni m Hm).
    destruct (decide (S i = j)) as [Heq|Hne]; [rewrite Heq in Hm; simplify_eq; lia|].
    pose proof (Hs (S i) j m mj ltac:(lia) Hm Hj). lia.
  - destruct (lookup_lt_is_Some_2 maps (S j)) as [m Hm];
      [apply lookup_lt_Some in Hi; lia|]. specialize (Hnj m Hm).
    destruct (decide (S j = i)) as [Heq|Hne]; [rewrite Heq in Hm; simplify_eq; lia|].
    pose proof (Hs (S j) i m mi ltac:(lia) Hm Hi). lia.
Qed.

(** The binary search keeps the location between its two ends. *)
Lemma ordinary_search_owner maps loc : forall fuel mn mx m,
  (mn < mx <= length maps)%nat -> (mx - mn <= fuel)%nat -> maps !! mn = Some m ->
  start_location m <= loc -> (forall m', maps !! mx = Some m' -> loc < start_location m') ->
  exists i, ordinary_search fuel maps loc mn mx = Some i /\ owner maps loc i.
Proof.
  induction fuel as [|fuel IH]; intros mn mx m Hlt Hf Hm Hle Hmx; [lia|]. cbn [ordinary_search].
  destruct (Nat.ltb_spec 1 (mx - mn)) as [Hgap|Hone].
  - pose proof (Nat.div2_odd (mn + mx)). pose proof (Nat.b2n_le_1 (Nat.odd (mn + mx))).
    set (md := Nat.div2 (mn + mx)) in *.
    destruct (lookup_lt_is_Some_2 maps md) as [m' Hm']; [lia|]. rewrite Hm'.
    destruct (Z.ltb_spec loc (start_location m')).
    + apply (IH mn md m); [lia|lia|done|done|naive_solver].
    + apply (IH md mx m'); [lia|lia|done|lia|done].
  - exists mn. split; [done|]. exists m. split; [done|]. split; [done|].
    replace (S mn) with mx by lia. done.
Qed.

Lemma ordinary_search_spec maps loc mn mx m : (mn < mx <= length maps)%nat -> maps !! mn = Some m ->
  start_location m <= loc -> (forall m', maps !! mx = Some m' -> loc < start_location m') ->
  exists i, ordinary_search (S (length maps)) maps loc mn mx = Some i /\ owner maps loc i.
Proof. intros. eapply ordinary_search_owner; eauto; lia. Qed.

(** The caches point into the arrays. *)
Definition caches_ok (s : line_maps) : Prop :=
  (ordinary s = [] \/ (ordinary_cache s < length (ordinary s))%nat) /\
  (macros s = [] \/ (macro_cache s < length (macros s))%nat).

(** Every location at or above the first map's start has a map, and the
    look-up finds it whatever the cache holds. *)
Lemma ordinary_lookup_spec s loc m0 : IS_ADHOC_LOC loc = false -> RESERVED_LOCATION_COUNT <= loc ->
  sorted_starts (ordinary s) -> (ordinary_cache s < length (ordinary s))%nat ->
  ordinary s !! 0%nat = Some m0 -> start_location m0 <= loc ->
  exists i c, linemap_ordinary_map_lookup loc s = Some (Some i, set_ordinary_cache c s) /\
    owner (ordinary s) loc i /\ (c < length (ordinary s))%nat.
Proof.
  intros Ha Hr Hs Hc H0 Hle. unfold linemap_ordinary_map_lookup. rewrite strip_adhoc_plain by done.
  destruct (Z.ltb_spec loc RESERVED_LOCATION_COUNT); [lia|]. rewrite !lbind_get.
  destruct (lookup_lt_is_Some_2 _ _ Hc) as [cm Hcm]. rewrite (ordinary_at_some _ cm) by done.
  assert (forall mn mx m, (mn < mx <= length (ordinary s))%nat -> ordinary s !! mn = Some m ->
    start_location m <= loc -> (forall m', ordinary s !! mx = Some m' -> loc < start_location m') ->
    exists i, lbind (lopt (ordinary_search (S (length (ordinary s))) (ordinary s) loc mn mx))
      (fun mn => lbind (lmod (set_ordinary_cache mn))
        (fun _ => lbind (ordinary_at mn)
          (fun result => lbind (linemap_assert (start_location result <=? loc)) (fun _ => lret (Some mn))))) s
      = Some (Some i, set_ordinary_cache i s) /\ owner (ordinary s) loc i) as Hsearch.
  { intros mn mx m Hlt Hm Hm' Hmx.
    destruct (ordinary_search_spec (ordinary s) loc mn mx m Hlt Hm Hm' Hmx) as (i & E & Hi).
    exists i. split; [|done]. rewrite (lbind_opt _ i) by done. rewrite lbind_mod.
    destruct Hi as (mi & Hmi & Hlei & _). rewrite (ordinary_at_some _ mi) by done.
    rewrite lbind_assert by lia. done. }
  assert (forall i, owner (ordinary s) loc i -> (i < length (ordinary s))%nat) as Hown.
  { intros i (mi & Hi & _). by apply lookup_lt_Some in Hi. }
  assert (s = set_ordinary_cache (ordinary_cache s) s) as Hself by (by destruct s).
  destruct (Z.leb_spec (start_location cm) loc) as [Hcle|Hcgt].
  - destruct (Nat.eqb_spec (ordinary_cache s + 1) (length (ordinary s))) as [Hlast|Hnl].
    + exists (ordinary_cache s), (ordinary_cache s). rewrite <- Hself. split; [done|]. split; [|done].
      exists cm. split; [done|]. split; [done|]. intros m' Hm'%lookup_lt_Some. lia.
    + destruct (lookup_lt_is_Some_2 (ordinary s) (ordinary_cache s + 1)) as [nm Hnm]; [lia|].
      rewrite (ordinary_at_some _ nm) by done. destruct (Z.ltb_spec loc (start_location nm)).
      * exists (ordinary_cache s), (ordinary_cache s). rewrite <- Hself. split; [done|]. split; [|done].
        exists cm. split; [done|]. split; [done|]. intros m'. replace (S (ordinary_cache s)) with (ordinary_cache s + 1)%nat by lia.
        rewrite Hnm. naive_solver.
      * destruct (Hsearch (ordinary_cache s) (length (ordinary s)) cm) as (i & E & Hi); [lia|done|done| |].
        { intros m' Hm'%lookup_lt_Some. lia. }
        exists i, i. rewrite E. eauto.
  - assert (ordinary_cache s <> 0%nat) by (intros E; rewrite E in Hcm; simplify_eq; lia).
    destruct (Hsearch 0%nat (ordinary_cache s) m0) as (i & E & Hi); [lia|done|done|naive_solver|].
    exists i, i. rewrite E. eauto.
Qed.

(** ** Small facts *)

Lemma shiftl_1 k : 0 <= k -> Z.shiftl 1 k = 2 ^ k.
Proof. intros _. apply Z.shiftl_1_l. Qed.

Lemma mask_low_spec x k : 0 <= k -> mask_low x k = x - x mod 2 ^ k.
Proof.
  intros Hk. unfold mask_low. rewrite shiftl_1 by done.
  replace (2 ^ k - 1) with (Z.ones k) by (rewrite Z.ones_equiv; lia).
  rewrite Z.ldiff_ones_r by done. rewrite Z.shiftl_mul_pow2, Z.shiftr_div_pow2 by done.
  pose proof (Z.div_mod x (2 ^ k)). pose proof (pow2_gt0 k Hk). lia.
Qed.

Lemma alter_snoc {A} (f : A -> A) (l : list A) x : alter f (length l) (l ++ [x]) = l ++ [f x].
Proof. induction l as [|y l IH]; [done|]. cbn. f_equal. apply IH. Qed.

Lemma lookup_snoc {A} (l : list A) x : (l ++ [x]) !! length l = Some x.
Proof. by apply list_lookup_middle. Qed.

Lemma lookup_snoc_Some {A} (l : list A) x i y : (l ++ [x]) !! i = Some y <->
  (l !! i = Some y) \/ (i = length l /\ y = x).
Proof.
  rewrite lookup_app_Some. split.
  - intros [?|[Hi H]]; [by left|right]. apply list_lookup_singleton_Some in H as [? ->].
    split; [lia|done].
  - intros [?|[-> ->]]; [by left|right]. rewrite Nat.sub_diag. split; [lia|done].
Qed.

(** ** Meaning of a location in a map *)

Definition decodes (m : line_map_ordinary) (loc : location_t) (line column : Z) : Prop :=
  SOURCE_LINE m loc = line /\ SOURCE_COLUMN m loc = column.

(** A location written as line offset, column and packed range decodes to
    them. *)
Lemma decodes_at m k c p : 0 <= m_range_bits m <= m_column_and_range_bits m ->
  0 <= k -> 0 <= c < 2 ^ (m_column_and_range_bits m - m_range_bits m) -> 0 <= p < 2 ^ m_range_bits m ->
  0 <= to_line m + k < 2 ^ 32 ->
  k * 2 ^ m_column_and_range_bits m + c * 2 ^ m_range_bits m + p < 2 ^ 32 ->
  decodes m (start_location m + k * 2 ^ m_column_and_range_bits m + c * 2 ^ m_range_bits m + p)
    (to_line m + k) c.
Proof.
  intros Hb Hk Hc Hp Hl Hr. unfold decodes, SOURCE_LINE, SOURCE_COLUMN.
  set (bits := m_column_and_range_bits m) in *. set (rb := m_range_bits m) in *.
  assert (2 ^ bits = 2 ^ (bits - rb) * 2 ^ rb) as Hpow by (rewrite <- Z.pow_add_r by lia; f_equal; lia).
  pose proof (pow2_gt0 rb ltac:(lia)). pose proof (pow2_gt0 (bits - rb) ltac:(lia)).
  replace (start_location m + k * 2 ^ bits + c * 2 ^ rb + p - start_location m)
    with (k * 2 ^ bits + (c * 2 ^ rb + p)) by lia.
  assert (0 <= c * 2 ^ rb + p < 2 ^ bits) as Hlow by nia.
  rewrite (u32_small (k * 2 ^ bits + _)) by nia. rewrite shiftl_1 by lia.
  rewrite land_mask by lia. rewrite !Z.shiftr_div_pow2 by lia.
  rewrite div_parts, mod_parts by done. rewrite div_parts by lia.
  split; [|done]. rewrite u32_small by lia. lia.
Qed.

(** ** The state in use

    What holds of the last map and of the counters between operations: the
    current line is [offset] lines below the start of the map. *)

Definition max_line : Z := 2 ^ 26.

Record current (s : line_maps) (m : line_map_ordinary) (offset : Z) : Prop := {
  cur_map : ordinary s !! pred (length (ordinary s)) = Some m;
  cur_start : 2 <= start_location m;
  cur_drb : 0 <= default_range_bits s <= 7;
  cur_bits : 0 <= m_range_bits m <= m_column_and_range_bits m /\ m_column_and_range_bits m <= 20;
  cur_ranges : m_column_and_range_bits m = 0 \/ m_range_bits m = default_range_bits s \/
    (m_range_bits m = 0 /\ LINE_MAP_MAX_LOCATION_WITH_PACKED_RANGES < highest_location s);
  cur_wide : m_column_and_range_bits m = 0 \/ 7 <= m_column_and_range_bits m - m_range_bits m;
  cur_aligned : start_location m <= LINE_MAP_MAX_LOCATION_WITH_COLS ->
    start_location m mod 2 ^ default_range_bits s = 0;
  cur_aligned_range : start_location m mod 2 ^ m_range_bits m = 0;
  cur_line : highest_line s = start_location m + offset * 2 ^ m_column_and_range_bits m;
  cur_offset : 0 <= offset;
  cur_number : 0 <= to_line m /\ to_line m + offset < max_line;
  cur_highest : highest_line s <= highest_location s
    < highest_line s + 2 ^ m_column_and_range_bits m;
  cur_room : highest_location s < LINE_MAP_MAX_LOCATION;
  cur_hint : 0 <= max_column_hint s <= 2 ^ (m_column_and_range_bits m - m_range_bits m);
  cur_no_hint : m_column_and_range_bits m = 0 -> max_column_hint s = 0
}.

(** The maps as a whole. *)
Record wf_maps (s : line_maps) : Prop := {
  wm_sorted : sorted_starts (ordinary s);
  wm_cache : (ordinary_cache s < length (ordinary s))%nat;
  wm_first : forall m, ordinary s !! 0%nat = Some m -> RESERVED_LOCATION_COUNT <= start_location m
}.

Lemma last_starts s m i mi : wf_maps s -> ordinary s !! pred (length (ordinary s)) = Some m ->
  ordinary s !! i = Some mi -> RESERVED_LOCATION_COUNT <= start_location mi <= start_location m.
Proof.
  intros [Hs _ Hf] Hm Hi. pose proof (lookup_lt_Some _ _ _ Hi).
  destruct (lookup_lt_is_Some_2 (ordinary s) 0) as [m0 H0]; [lia|]. pose proof (Hf m0 H0).
  assert (start_location m0 <= start_location mi).
  { destruct (decide (i = 0%nat)) as [->|]; [simplify_eq; lia|].
    pose proof (Hs 0%nat i m0 mi ltac:(lia) H0 Hi). lia. }
  assert (start_location mi <= start_location m); [|lia].
  destruct (decide (i = pred (length (ordinary s)))) as [->|]; [simplify_eq; lia|].
  pose proof (Hs i (pred (length (ordinary s))) mi m ltac:(lia) Hi Hm). lia.
Qed.

Lemma last_owner s m loc : wf_maps s -> ordinary s !! pred (length (ordinary s)) = Some m ->
  start_location m <= loc -> owner (ordinary s) loc (pred (length (ordinary s))).
Proof.
  intros _ Hm Hle. exists m. split; [done|]. split; [done|]. intros m' Hm'%lookup_lt_Some. lia.
Qed.

(** Looking up an ordinary location touches only the cache. *)
Lemma ordinary_lookup_owner s loc i : wf_maps s -> loc < LINE_MAP_MAX_LOCATION ->
  owner (ordinary s) loc i ->
  exists c, (c < length (ordinary s))%nat /\
    linemap_ordinary_map_lookup loc s = Some (Some i, set_ordinary_cache c s).
Proof.
  intros Hwf Hlt Hi. assert (IS_ADHOC_LOC loc = false) as Ha.
  { unfold IS_ADHOC_LOC, MAX_LOCATION_T, LINE_MAP_MAX_LOCATION in *. lia. }
  pose proof Hi as (m & Hm & Hle & Hn). pose proof (lookup_lt_Some _ _ _ Hm).
  destruct (lookup_lt_is_Some_2 (ordinary s) 0) as [m0 H0]; [lia|].
  destruct (lookup_lt_is_Some_2 (ordinary s) (pred (length (ordinary s)))) as [ml Hl]; [lia|].
  pose proof (last_starts s ml i m Hwf Hl Hm). pose proof (wm_first _ Hwf m0 H0).
  assert (start_location m0 <= start_location m).
  { destruct (decide (i = 0%nat)) as [->|]; [simplify_eq; lia|].
    pose proof (wm_sorted _ Hwf 0%nat i m0 m ltac:(lia) H0 Hm). lia. }
  destruct (ordinary_lookup_spec s loc m0) as (j & c & E & Hj & Hc); [done|lia|apply Hwf|apply Hwf|done|lia|].
  assert (j = i) as -> by (eapply owner_unique; [apply Hwf|exact Hj|exact Hi]). eauto.
Qed.

Lemma linemap_lookup_spec s loc i : wf_maps s -> loc < LINE_MAP_MAX_LOCATION ->
  owner (ordinary s) loc i ->
  exists c, (c < length (ordinary s))%nat /\
    linemap_lookup loc s = Some (Some (Ordinary i), set_ordinary_cache c s).
Proof.
  intros Hwf Hlt Hi. assert (IS_ADHOC_LOC loc = false) as Ha.
  { unfold IS_ADHOC_LOC, MAX_LOCATION_T, LINE_MAP_MAX_LOCATION in *. lia. }
  destruct (ordinary_lookup_owner s loc i Hwf Hlt Hi) as (c & Hc & E). exists c. split; [done|].
  unfold linemap_lookup. rewrite strip_adhoc_plain by done.
  unfold linemap_location_from_macro_expansion_p. rewrite !lbind_assoc, strip_adhoc_plain by done.
  rewrite lbind_ret. unfold IS_MACRO_LOC, IS_ORDINARY_LOC.
  destruct (Z.ltb_spec loc LINE_MAP_MAX_LOCATION); [|lia]. cbn [negb andb].
  by rewrite (lbind_some _ _ _ _ _ E).
Qed.

Lemma pure_location_spec s loc i m : wf_maps s ->
  0 <= loc < LINE_MAP_MAX_LOCATION -> owner (ordinary s) loc i -> ordinary s !! i = Some m ->
  0 <= m_range_bits m <= 20 ->
  exists c, (c < length (ordinary s))%nat /\
    pure_location_p loc s = Some (loc mod 2 ^ m_range_bits m =? 0, set_ordinary_cache c s).
Proof.
  intros Hwf Hloc Hi Hm Hr. unfold pure_location_p.
  assert (IS_ADHOC_LOC loc = false) as ->.
  { unfold IS_ADHOC_LOC, MAX_LOCATION_T, LINE_MAP_MAX_LOCATION in *. lia. }
  destruct (linemap_lookup_spec s loc i) as (c & Hc & E); [done|lia|done|].
  exists c. split; [done|]. rewrite (lbind_some _ _ _ _ _ E). cbn [check_ordinary].
  rewrite (ordinary_at_some _ m) by done. unfold lret. rewrite shiftl_1 by lia.
  pose proof (pow2_le (m_range_bits m) 20 ltac:(lia)). pose proof (pow2_gt0 (m_range_bits m) ltac:(lia)).
  rewrite u32_small by lia. by rewrite land_mask by lia.
Qed.

(** ** Adding a map *)

(** Room for one more map or line: locations are left. *)
Definition room (s : line_maps) : Prop := highest_location s + 2 ^ 27 < LINE_MAP_MAX_LOCATION.

Lemma next_start_spec s : 0 <= default_range_bits s <= 7 -> 1 <= highest_location s -> room s ->
  highest_location s < next_start s <= highest_location s + 2 ^ default_range_bits s /\
  (next_start s <= LINE_MAP_MAX_LOCATION_WITH_COLS -> next_start s mod 2 ^ default_range_bits s = 0) /\
  negb (highest_location s <? LINE_MAP_MAX_LOCATION_WITH_COLS)
    || (Z.land (next_start s) (Z.shiftl 1 (default_range_bits s) - 1) =? 0) = true /\
  (LINE_MAP_MAX_LOCATION_WITH_COLS <= highest_location s -> next_start s = highest_location s + 1).
Proof.
  intros Hd Hh Hroom. unfold room, LINE_MAP_MAX_LOCATION in Hroom.
  pose proof (pow2_le (default_range_bits s) 7 ltac:(lia)).
  pose proof (pow2_gt0 (default_range_bits s) ltac:(lia)).
  unfold next_start. rewrite shiftl_1 by lia.
  set (d := default_range_bits s) in *. set (h := highest_location s) in *.
  destruct (Z.ltb_spec h LINE_MAP_MAX_LOCATION_WITH_COLS) as [Hlt|Hge]; cbn [negb orb].
  - rewrite u32_small by lia. destruct (Z.eqb_spec d 0) as [->|Hd0]; cbn [negb].
    + change (2 ^ 0) with 1 in *. rewrite Z.mod_1_r. split_and!; [lia|lia|lia| |lia].
      change (1 - 1) with 0. by rewrite Z.land_0_r.
    + rewrite mask_low_spec by lia. pose proof (Z.mod_pos_bound (h + 2 ^ d) (2 ^ d) ltac:(lia)).
      assert ((h + 2 ^ d - (h + 2 ^ d) mod 2 ^ d) mod 2 ^ d = 0) as Hmod.
      { rewrite Zminus_mod, Z.mod_mod, Z.sub_diag by lia. apply Z.mod_0_l. lia. }
      split_and!; [lia|lia|lia| |lia]. rewrite land_mask, Hmod by lia. done.
  - rewrite u32_small by lia. split_and!; [lia|lia| |done|lia].
    unfold LINE_MAP_MAX_LOCATION_WITH_COLS in *. lia.
Qed.

(** The table after a map was added. *)
Definition add_state (s : line_maps) (rsn : lc_reason) (sp : Z) (file : option (list byte))
    (line : Z) (inc : location_t) (d : Z) (c : nat) : line_maps :=
  mk_maps (ordinary s ++ [mk_ordinary (next_start s) rsn (u8 sp) 0 0 file line inc]) c
    (macros s) (macro_cache s) d (next_start s) (next_start s) 0 (adhoc s) (builtin_location s)
    (default_range_bits s) (num_optimized_ranges s) (num_unoptimized_ranges s).

Lemma snoc_wf s s' rsn sp file line inc : wf_maps s \/ ordinary s = [] ->
  (forall i m, ordinary s !! i = Some m -> start_location m < next_start s) ->
  RESERVED_LOCATION_COUNT <= next_start s ->
  ordinary s' = ordinary s ++ [mk_ordinary (next_start s) rsn sp 0 0 file line inc] ->
  (ordinary_cache s' < length (ordinary s'))%nat -> wf_maps s'.
Proof.
  intros Hwf Hlt Hres E Hc. split; [|done|]; rewrite E.
  - intros i j mi mj Hij [Hi|[-> ->]]%lookup_snoc_Some [Hj|[-> ->]]%lookup_snoc_Some; simpl.
    + destruct Hwf as [Hwf|Hnil]; [|by rewrite Hnil in Hi]. by eapply (wm_sorted _ Hwf).
    + by eapply Hlt.
    + apply lookup_lt_Some in Hj. lia.
    + lia.
  - intros m [Hm|[_ ->]]%lookup_snoc_Some; [|done].
    destruct Hwf as [Hwf|Hnil]; [|by rewrite Hnil in Hm]. by apply (wm_first _ Hwf).
Qed.

(** The assertion at the end of [linemap_add]: the start of the new map is a
    location without a range. *)
Lemma new_start_pure s s' rsn sp file line inc : wf_maps s' ->
  0 <= next_start s < LINE_MAP_MAX_LOCATION ->
  ordinary s' = ordinary s ++ [mk_ordinary (next_start s) rsn sp 0 0 file line inc] ->
  exists c, (c < length (ordinary s'))%nat /\
    pure_location_p (next_start s) s' = Some (true, set_ordinary_cache c s').
Proof.
  intros Hwf Hr E.
  assert (ordinary s' !! length (ordinary s) =
    Some (mk_ordinary (next_start s) rsn sp 0 0 file line inc)) as Hm by (rewrite E; apply lookup_snoc).
  edestruct (pure_location_spec s' (next_start s) (length (ordinary s))) as (c & Hc & E');
    [done|done| |exact Hm|simpl; lia|].
  - eexists. split; [exact Hm|]. split; [simpl; lia|]. intros m' Hm'%lookup_lt_Some.
    rewrite E, length_app in Hm'. simpl in Hm'. lia.
  - exists c. split; [done|]. rewrite E'. simpl. by rewrite Z.mod_1_r.
Qed.

Section host.
Context (dos : bool).

(** The name a map gets for the name it was asked for. *)
Definition named (rsn : lc_reason) (file : option (list byte)) : option (list byte) :=
  if bool_decide (file = Some []) && negb (bool_decide (rsn = LC_RENAME_VERBATIM))
  then Some (bytes "<stdin>") else file.

Definition verbatim (rsn : lc_reason) : lc_reason :=
  match rsn with LC_RENAME_VERBATIM => LC_RENAME | _ => rsn end.

(** What [linemap_add] needs: a last map that starts below, or none. *)
Definition ready (s : line_maps) : Prop :=
  0 <= default_range_bits s <= 7 /\ 1 <= highest_location s /\ room s /\
  ((ordinary s = [] /\ depth s = 0) \/
   (wf_maps s /\ 1 <= depth s < 2 ^ 31 /\
    exists m, ordinary s !! pred (length (ordinary s)) = Some m /\
      start_location m <= highest_location s)).

Lemma ready_starts s : ready s -> forall i m, ordinary s !! i = Some m ->
  start_location m <= highest_location s.
Proof.
  intros (_ & _ & _ & [[E _]|(Hwf & _ & ml & Hl & Hle)]) i m Hm; [by rewrite E in Hm|].
  pose proof (last_starts s ml i m Hwf Hl Hm). lia.
Qed.

Lemma ready_start s : ready s ->
  highest_location s < next_start s < LINE_MAP_MAX_LOCATION /\ 2 <= next_start s.
Proof.
  intros (Hd & Hh & Hroom & _). destruct (next_start_spec s Hd Hh Hroom) as [H1 _].
  unfold room, RESERVED_LOCATION_COUNT in *. pose proof (pow2_le (default_range_bits s) 7 ltac:(lia)). lia.
Qed.

Lemma add_state_wf s rsn sp file line inc d c : ready s -> (c < S (length (ordinary s)))%nat ->
  wf_maps (add_state s rsn sp file line inc d c).
Proof.
  intros Hr Hc. destruct (ready_start s Hr). eapply (snoc_wf s); [| |done|done|].
  - destruct Hr as (_ & _ & _ & [[? _]|[? _]]); auto.
  - intros i m Hm. pose proof (ready_starts s Hr i m Hm). lia.
  - cbn [ordinary_cache add_state ordinary]. rewrite length_app. simpl. lia.
Qed.

(** The checks at the beginning of [linemap_add]. *)
Lemma add_prefix {B} s rsn (f : unit -> LM B) : ready s -> (ordinary s = [] -> rsn = LC_ENTER) ->
  lbind (linemap_assert (negb (highest_location s <? LINE_MAP_MAX_LOCATION_WITH_COLS)
                  || (Z.land (next_start s) (Z.shiftl 1 (default_range_bits s) - 1) =? 0)))
    (fun _ => lbind (if is_nil (ordinary s) then lret tt
      else lbind last_index (fun i => lbind (ordinary_at i) (fun last_map =>
             linemap_assert (start_location last_map <=? next_start s))))
    (fun _ => lbind (linemap_assert (negb ((depth s =? 0) && bool_decide (rsn = LC_RENAME)))) f)) s
  = f tt s.
Proof.
  intros Hr Hfirst. destruct (ready_start s Hr) as [Hs _]. pose proof Hr as (Hd & Hh & Hroom & Hcase).
  destruct (next_start_spec s Hd Hh Hroom) as (_ & _ & Ha & _). rewrite lbind_assert by exact Ha.
  destruct Hcase as [[E E0]|(Hwf & Hdep & m & Hm & Hle)].
  - rewrite E, (Hfirst E). cbn [is_nil]. rewrite lbind_ret. rewrite lbind_assert; [done|].
    rewrite (bool_decide_eq_false_2 (LC_ENTER = LC_RENAME)) by done. by rewrite andb_false_r.
  - destruct (ordinary s) as [|m0 o] eqn:E; [done|]. rewrite <- E in *. cbn [is_nil].
    assert (is_nil (ordinary s) = false) as -> by (by rewrite E).
    rewrite lbind_assoc, (last_index_some _ _ m) by done. rewrite lbind_assoc.
    rewrite (ordinary_at_some _ m) by done. rewrite lbind_assert by lia.
    rewrite lbind_assert; [done|]. destruct (Z.eqb_spec (depth s) 0); [lia|done].
Qed.

(** The table with the new map at its end. *)
Definition fresh_map (s : line_maps) (rsn : lc_reason) (c : nat) : line_maps :=
  set_ordinary_cache c
    (set_ordinary (ordinary s ++ [mk_ordinary (next_start s) rsn 0 0 0 None 0 0]) s).

(** From the target of the new map to the last assertion. *)
Lemma add_middle s rsn c0 sp file line : ready s -> exists c,
  (c < S (length (ordinary s)))%nat /\ forall B (f : unit -> LM B),
  lbind (update_ordinary (length (ordinary s)) (set_target (u8 sp) file line)) (fun _ =>
    lbind (lmod (fun s => set_ordinary_cache (pred (length (ordinary s))) s)) (fun _ =>
    lbind (lmod (set_highest (next_start s) (next_start s) 0)) (fun _ =>
    lbind (pure_location_p (next_start s)) (fun pure =>
    lbind (linemap_assert pure) f)))) (fresh_map s rsn c0)
  = f tt (add_state s rsn sp file line 0 (depth s) c).
Proof.
  intros Hr. destruct (ready_start s Hr) as [Hs Hres].
  edestruct (new_start_pure s (add_state s rsn sp file line 0 (depth s) (length (ordinary s))))
    as (c & Hc & E); [apply add_state_wf; [done|lia]|lia|done|]. exists c.
  cbn [add_state ordinary] in Hc. rewrite length_app in Hc. simpl in Hc. split; [lia|]. intros B f.
  unfold update_ordinary. rewrite lbind_mod. unfold fresh_map.
  cbn [ordinary set_ordinary set_ordinary_cache]. rewrite alter_snoc. rewrite !lbind_mod.
  cbn [set_ordinary set_ordinary_cache set_highest set_target ordinary ordinary_cache macros macro_cache
    depth highest_location highest_line max_column_hint adhoc builtin_location default_range_bits
    num_optimized_ranges num_unoptimized_ranges start_location reason sysp m_column_and_range_bits
    m_range_bits to_file to_line included_from].
  rewrite length_app. cbn [length]. replace (pred (length (ordinary s) + 1)) with (length (ordinary s)) by lia.
  fold (add_state s rsn sp file line 0 (depth s) (length (ordinary s))).
  by rewrite (lbind_some _ _ _ _ _ E), lbind_assert by done.
Qed.

(** The new map, up to the choice of its target. *)
Lemma add_fresh {B} s rsn (f : nat -> LM B) :
  lbind (new_ordinary (next_start s)) (fun map =>
    lbind (update_ordinary map (fun m => mk_ordinary (start_location m) rsn (sysp m)
      (m_column_and_range_bits m) (m_range_bits m) (to_file m) (to_line m) (included_from m)))
      (fun _ => f map)) s
  = f (length (ordinary s)) (fresh_map s rsn (ordinary_cache s)).
Proof.
  unfold new_ordinary. rewrite lbind_assoc, lbind_get, lbind_assoc, lbind_mod, lbind_ret.
  unfold update_ordinary. rewrite lbind_mod. cbn [ordinary set_ordinary]. rewrite alter_snoc. done.
Qed.

Lemma add_included {B} s rsn sp file line c inc (f : unit -> LM B) :
  lbind (update_ordinary (length (ordinary s)) (set_included_from inc)) f
    (add_state s rsn sp file line 0 (depth s) c)
  = f tt (add_state s rsn sp file line inc (depth s) c).
Proof.
  unfold update_ordinary. rewrite lbind_mod. cbn [ordinary add_state]. rewrite alter_snoc. done.
Qed.

Lemma add_state_previous s rsn sp file line inc d c i m : ordinary s !! i = Some m ->
  ordinary (add_state s rsn sp file line inc d c) !! i = Some m.
Proof. intros Hm. cbn [ordinary add_state]. by apply lookup_app_l_Some. Qed.

Lemma last_index_last {A} (l : list A) : last l = l !! pred (length l).
Proof. apply last_lookup. Qed.

Ltac add_start Hr :=
  unfold linemap_add; rewrite !lbind_get; rewrite add_prefix by first [exact Hr|done];
  let H := fresh in let H' := fresh in destruct (ready_start _ Hr) as [H H'].

(** Entering a file. *)
Definition include_location (s : line_maps) : location_t :=
  match last (ordinary s) with
  | Some prev => u32 (mask_low (u32 (next_start s - 1 - start_location prev))
                        (m_column_and_range_bits prev) + start_location prev)
  | None => 0
  end.

Lemma add_enter s sp file line : ready s -> exists c,
  (c < S (length (ordinary s)))%nat /\
  linemap_add dos LC_ENTER sp file line s =
    Some (Some (length (ordinary s)),
          add_state s LC_ENTER sp (named LC_ENTER file) line (include_location s) (depth s + 1) c).
Proof.
  intros Hr. add_start Hr. pose proof Hr as (_ & _ & _ & Hcase).
  rewrite (bool_decide_eq_false_2 (LC_ENTER = LC_LEAVE)) by done. rewrite lbind_ret.
  rewrite lbind_assert by done.
  destruct (Z.leb_spec LINE_MAP_MAX_LOCATION (next_start s)); [lia|].
  rewrite add_fresh, lbind_ret. fold (named LC_ENTER file).
  destruct (add_middle s LC_ENTER (ordinary_cache s) sp (named LC_ENTER file) line Hr) as (c & Hc & E).
  exists c. split; [done|]. rewrite E. clear E.
  rewrite lbind_get. cbn [depth add_state].
  assert (u32 (depth s + 1) = depth s + 1) as Hd1.
  { apply u32_small. destruct Hcase as [[_ ->]|(_ & ? & _)]; lia. }
  unfold include_location. rewrite last_index_last.
  destruct Hcase as [[E E0]|(Hwf & Hdep & m & Hm & Hle)].
  - assert (depth s =? 0 = true) as -> by lia. rewrite lbind_ret, add_included, lbind_mod.
    cbn [depth add_state set_depth]. rewrite Hd1. by rewrite E.
  - destruct (Z.eqb_spec (depth s) 0); [lia|]. rewrite lbind_assoc.
    erewrite ordinary_at_some by apply lookup_snoc. rewrite lbind_assoc.
    rewrite (ordinary_at_some _ m) by (by apply add_state_previous). rewrite lbind_ret, add_included, lbind_mod, Hm.
    cbn [depth set_depth add_state start_location]. rewrite Hd1. done.
Qed.

(** Renaming the current file. *)
Lemma add_rename s rsn sp file line m : ready s -> rsn = LC_RENAME \/ rsn = LC_RENAME_VERBATIM ->
  ordinary s !! pred (length (ordinary s)) = Some m -> exists c,
  (c < S (length (ordinary s)))%nat /\
  linemap_add dos rsn sp file line s =
    Some (Some (length (ordinary s)),
          add_state s rsn sp (named rsn file) line (included_from m) (depth s) c).
Proof.
  intros Hr Hrsn Hm.
  assert (ordinary s <> []) by (intros E; by rewrite E in Hm). add_start Hr.
  rewrite (bool_decide_eq_false_2 (rsn = LC_LEAVE)) by (by destruct Hrsn; subst).
  rewrite lbind_ret. rewrite lbind_assert by (by destruct Hrsn; subst).
  destruct (Z.leb_spec LINE_MAP_MAX_LOCATION (next_start s)); [lia|].
  rewrite add_fresh. fold (named rsn file).
  destruct (add_middle s rsn (ordinary_cache s) sp (named rsn file) line Hr) as (c & Hc & E).
  exists c. split; [done|]. destruct Hrsn as [-> | ->]; rewrite lbind_ret, E;
    by rewrite (ordinary_at_some _ m), add_included by (by apply add_state_previous).
Qed.

Lemma fresh_map_wf s rsn c : ready s -> (c < S (length (ordinary s)))%nat -> wf_maps (fresh_map s rsn c).
Proof.
  intros Hr Hc. destruct (ready_start s Hr). eapply (snoc_wf s); [| |done|done|].
  - destruct Hr as (_ & _ & _ & [[? _]|[? _]]); auto.
  - intros i m Hm. pose proof (ready_starts s Hr i m Hm). lia.
  - cbn [ordinary_cache fresh_map set_ordinary_cache set_ordinary ordinary]. rewrite length_app. simpl. lia.
Qed.

(** A map added at the end takes no location from the others. *)
Lemma owner_snoc maps m' loc j : owner maps loc j -> loc < start_location m' -> owner (maps ++ [m']) loc j.
Proof.
  intros (m & Hm & Hle & Hn) Hlt. exists m. split; [by apply lookup_app_l_Some|]. split; [done|].
  intros m2 [Hm2|[_ ->]]%lookup_snoc_Some; [by apply Hn|done].
Qed.

(** Returning to the including file, with its natural values. *)
Lemma add_leave s sp line m j mj next : ready s ->
  ordinary s !! pred (length (ordinary s)) = Some m -> RESERVED_LOCATION_COUNT <= included_from m ->
  included_from m < start_location m -> owner (ordinary s) (included_from m) j -> ordinary s !! j = Some mj ->
  ordinary s !! S j = Some next -> exists c,
  (c < S (length (ordinary s)))%nat /\
  linemap_add dos LC_LEAVE sp None line s =
    Some (Some (length (ordinary s)),
          add_state s LC_LEAVE (sysp mj) (to_file mj) (SOURCE_LINE mj (start_location next))
            (included_from mj) (depth s - 1) c).
Proof.
  intros Hr Hm Hinc Hlt Hj Hmj Hnext.
  assert (ordinary s <> []) by (intros E; by rewrite E in Hm). add_start Hr.
  pose proof Hr as (_ & _ & _ & [[? _]|(Hwf & Hdep & _)]); [done|].
  assert (MAIN_FILE_P m = false) as Hmain.
  { unfold MAIN_FILE_P, RESERVED_LOCATION_COUNT in *. lia. }
  rewrite bool_decide_eq_true_2 by done. rewrite lbind_assoc, (last_index_some _ _ m) by done.
  rewrite lbind_assoc, (ordinary_at_some _ m) by done. rewrite lbind_ret, Hmain. cbn [andb].
  rewrite lbind_assert by done.
  destruct (Z.leb_spec LINE_MAP_MAX_LOCATION (next_start s)); [lia|]. rewrite add_fresh.
  rewrite (bool_decide_eq_false_2 (None = Some [])) by done. cbn [andb].
  pose proof (ready_starts s Hr _ _ Hm). pose proof (wm_cache _ Hwf).
  assert (wf_maps (fresh_map s LC_LEAVE (ordinary_cache s))) as Hwff by (apply fresh_map_wf; [done|lia]).
  assert (owner (ordinary (fresh_map s LC_LEAVE (ordinary_cache s))) (included_from m) j) as Hown
    by (apply owner_snoc; [done|simpl; lia]).
  destruct (ordinary_lookup_owner _ (included_from m) j Hwff) as (c1 & Hc1 & E1); [lia|done|].
  rewrite lbind_assoc. rewrite (ordinary_at_some _ m) by (by apply lookup_app_l_Some).
  rewrite lbind_assoc, lbind_assert by (by rewrite Hmain).
  unfold linemap_included_from_linemap. rewrite lbind_assoc, (lbind_some _ _ _ _ _ E1).
  change (set_ordinary_cache c1 _) with (fresh_map s LC_LEAVE c1).
  rewrite lbind_assoc, (lbind_opt _ j) by done.
  rewrite lbind_assoc, (ordinary_at_some _ mj) by (by apply lookup_app_l_Some).
  rewrite lbind_assoc, (ordinary_at_some _ next) by (by apply lookup_app_l_Some). rewrite lbind_ret.
  destruct (add_middle s LC_LEAVE c1 (sysp mj) (to_file mj) (SOURCE_LINE mj (start_location next)) Hr)
    as (c & Hc & E).
  exists c. split; [done|]. rewrite E, lbind_mod, (lbind_opt _ j) by done.
  rewrite (ordinary_at_some _ mj) by (by apply lookup_app_l_Some).
  unfold update_ordinary. rewrite lbind_mod. cbn [ordinary set_depth add_state]. rewrite alter_snoc.
  pose proof (u32_small (depth s - 1) ltac:(lia)) as Hd. unfold add_state at 2. rewrite <- Hd. done.
Qed.
End host.

(** ** The state after each operation *)

Lemma current_ready s m offset : current s m offset -> wf_maps s -> room s -> 1 <= depth s < 2 ^ 31 -> ready s.
Proof.
  intros Hc Hwf Hroom Hd. pose proof (cur_drb _ _ _ Hc). pose proof (cur_map _ _ _ Hc) as Hm.
  pose proof (last_starts s m _ m Hwf Hm Hm). unfold RESERVED_LOCATION_COUNT in *.
  pose proof (cur_line _ _ _ Hc). pose proof (cur_highest _ _ _ Hc). pose proof (cur_offset _ _ _ Hc).
  pose proof (pow2_gt0 (m_column_and_range_bits m)). pose proof (cur_bits _ _ _ Hc).
  assert (start_location m <= highest_location s) by nia.
  split_and!; [lia|lia|lia|done|]. right. split_and!; [done|lia|lia|]. by exists m.
Qed.

Lemma add_current s rsn sp file line inc d c : ready s -> 0 <= line < max_line ->
  current (add_state s rsn sp file line inc d c)
    (mk_ordinary (next_start s) rsn (u8 sp) 0 0 file line inc) 0.
Proof.
  intros Hr Hl. destruct (ready_start s Hr) as [Hs Hs2]. pose proof Hr as (Hd & Hh & Hroom & _).
  destruct (next_start_spec s Hd Hh Hroom) as (_ & Ha & _).
  split; cbn [add_state ordinary default_range_bits highest_location highest_line max_column_hint
    m_range_bits m_column_and_range_bits start_location to_line]; try done; try lia.
  - rewrite length_app. cbn [length]. replace (pred (length (ordinary s) + 1)) with (length (ordinary s)) by lia.
    apply lookup_snoc.
  - apply Z.mod_1_r.
Qed.

Lemma wf_maps_ordinary s s' : wf_maps s -> ordinary s' = ordinary s ->
  (ordinary_cache s' < length (ordinary s))%nat -> wf_maps s'.
Proof. intros [Hs Hc Hf] E Hc'. split; rewrite ?E; done. Qed.

Lemma start_line_spec s m line r hint : wf_maps s -> ordinary s !! pred (length (ordinary s)) = Some m ->
  start_location m <= r < LINE_MAP_MAX_LOCATION -> 0 <= m_range_bits m <= 20 ->
  r mod 2 ^ m_range_bits m = 0 -> SOURCE_LINE m r = line ->
  exists c, (c < length (ordinary s))%nat /\
    start_line line r hint s =
      Some (r, set_ordinary_cache c
                 (set_highest (if highest_location s <? r then r else highest_location s) r hint s)).
Proof.
  intros Hwf Hm Hr Hb Hmod Hline. unfold start_line.
  destruct (Z.leb_spec LINE_MAP_MAX_LOCATION r); [lia|]. rewrite lbind_mod.
  set (s1 := set_highest _ r hint s).
  assert (wf_maps s1) as Hwf1 by (apply (wf_maps_ordinary s); [done..|apply Hwf]).
  assert (ordinary s1 !! pred (length (ordinary s1)) = Some m) as Hm1 by done.
  rewrite (last_index_some _ _ m), (ordinary_at_some _ m) by done.
  pose proof (last_starts s m _ m Hwf Hm Hm). unfold RESERVED_LOCATION_COUNT in *.
  destruct (pure_location_spec s1 r (pred (length (ordinary s1))) m Hwf1) as (c & Hc & E);
    [lia|by apply (last_owner s1 m); [..|lia]|done|done|].
  exists c. split; [done|]. rewrite (lbind_some _ _ _ _ _ E), Hmod.
  by rewrite !lbind_assert by (first [done|lia]).
Qed.

(** How the table evolves: nothing given out changes its meaning. *)
Record evolves (s s' : line_maps) : Prop := {
  ev_maps : forall i m, ordinary s !! i = Some m -> (S i < length (ordinary s))%nat ->
    ordinary s' !! i = Some m;
  ev_last : forall m, ordinary s !! pred (length (ordinary s)) = Some m ->
    exists m', ordinary s' !! pred (length (ordinary s)) = Some m' /\
      start_location m' = start_location m /\ to_file m' = to_file m /\ sysp m' = sysp m /\
      included_from m' = included_from m /\
      forall loc, start_location m <= loc <= highest_location s ->
        SOURCE_LINE m' loc = SOURCE_LINE m loc /\ SOURCE_COLUMN m' loc = SOURCE_COLUMN m loc;
  ev_new : forall i m', ordinary s' !! i = Some m' -> (length (ordinary s) <= i)%nat ->
    highest_location s < start_location m';
  ev_highest : highest_location s <= highest_location s'
}.

Lemma evolves_refl s s' : ordinary s' = ordinary s -> highest_location s <= highest_location s' ->
  evolves s s'.
Proof.
  intros E Hh. split; rewrite ?E; [done| | |done].
  - intros m Hm. by exists m.
  - intros i m' Hm'%lookup_lt_Some. lia.
Qed.

Lemma ev_lookup s s' i m : evolves s s' -> ordinary s !! i = Some m ->
  exists m', ordinary s' !! i = Some m' /\ start_location m' = start_location m /\
    to_file m' = to_file m /\ sysp m' = sysp m /\ included_from m' = included_from m /\
    forall loc, start_location m <= loc <= highest_location s ->
        SOURCE_LINE m' loc = SOURCE_LINE m loc /\ SOURCE_COLUMN m' loc = SOURCE_COLUMN m loc.
Proof.
  intros Hev Hm. pose proof (lookup_lt_Some _ _ _ Hm).
  destruct (decide (S i < length (ordinary s))%nat) as [Hlt|Hge].
  - exists m. split; [by apply (ev_maps _ _ Hev)|done].
  - replace i with (pred (length (ordinary s))) in * by lia. by apply (ev_last _ _ Hev).
Qed.

Lemma ev_owner s s' loc i : evolves s s' -> loc <= highest_location s ->
  owner (ordinary s) loc i -> owner (ordinary s') loc i.
Proof.
  intros Hev Hh (m & Hm & Hle & Hn). destruct (ev_lookup _ _ _ _ Hev Hm) as (m' & Hm' & Hst & _).
  exists m'. split; [done|]. split; [lia|]. intros m2 Hm2.
  destruct (ordinary s !! S i) as [m1|] eqn:E1.
  - destruct (ev_lookup _ _ _ _ Hev E1) as (m3 & Hm3 & Hst3 & _). simplify_eq.
    specialize (Hn m1 eq_refl). lia.
  - apply lookup_ge_None in E1. pose proof (ev_new _ _ Hev _ _ Hm2 E1). lia.
Qed.

Lemma evolves_trans s1 s2 s3 : ordinary s1 <> [] -> evolves s1 s2 -> evolves s2 s3 -> evolves s1 s3.
Proof.
  intros Hne H12 H23. assert (forall i m, ordinary s1 !! i = Some m -> (i < length (ordinary s2))%nat) as Hlen.
  { intros i m Hm. destruct (ev_lookup _ _ _ _ H12 Hm) as (m' & ?%lookup_lt_Some & _). done. }
  split.
  - intros i m Hm Hlt. apply (ev_maps _ _ H23); [by apply (ev_maps _ _ H12)|].
    destruct (lookup_lt_is_Some_2 (ordinary s1) (S i)) as [m' Hm']; [lia|]. by eapply Hlen.
  - intros m Hm. destruct (ev_lookup _ _ _ _ H12 Hm) as (m2 & Hm2 & Hst & Hf & Hsy & Hi & Hd).
    destruct (ev_lookup _ _ _ _ H23 Hm2) as (m3 & Hm3 & Hst3 & Hf3 & Hsy3 & Hi3 & Hd3).
    pose proof (ev_highest _ _ H12). exists m3. split_and!; try congruence.
    intros loc Hloc. destruct (Hd loc Hloc) as [<- <-]. apply Hd3. lia.
  - intros i m' Hm' Hge. destruct (decide (i < length (ordinary s2))%nat) as [Hlt|Hge2].
    + destruct (lookup_lt_is_Some_2 (ordinary s2) i) as [m2 Hm2]; [lia|].
      destruct (ev_lookup _ _ _ _ H23 Hm2) as (m3 & Hm3 & Hst3 & _). simplify_eq.
      pose proof (ev_new _ _ H12 _ _ Hm2 Hge). lia.
    + pose proof (ev_new _ _ H23 _ _ Hm' ltac:(lia)). pose proof (ev_highest _ _ H12). lia.
  - pose proof (ev_highest _ _ H12). pose proof (ev_highest _ _ H23). lia.
Qed.

Lemma add_evolves s rsn sp file line inc d c : ready s ->
  evolves s (add_state s rsn sp file line inc d c).
Proof.
  intros Hr. destruct (ready_start s Hr) as [Hs _]. split; cbn [add_state ordinary highest_location].
  - intros i m Hm _. by apply lookup_app_l_Some.
  - intros m Hm. exists m. split; [by apply lookup_app_l_Some|done].
  - intros i m' [Hm%lookup_lt_Some|[-> ->]]%lookup_snoc_Some Hge; [lia|]. simpl. lia.
  - lia.
Qed.

(** ** Starting a line *)

Lemma column_bits_for_spec hint : 0 <= hint <= 4096 ->
  exists b, column_bits_for 25 7 hint = Some b /\ 7 <= b <= 13 /\ hint < 2 ^ b.
Proof.
  intros Hh. cbn [column_bits_for].
  repeat match goal with
  | |- context [u32 (Z.shiftl 1 ?b) <=? hint] =>
      let v := eval vm_compute in (u32 (Z.shiftl 1 b)) in
      change (u32 (Z.shiftl 1 b)) with v; destruct (Z.leb_spec v hint)
  end; first [lia|eexists; split; [reflexivity|]; split; [lia|]; simpl; lia].
Qed.

(** What the bits chosen for a line satisfy. *)
Record good_bits (s : line_maps) (hint column_bits range_bits : Z) : Prop := {
  gb_range : 0 <= range_bits <= column_bits /\ column_bits <= 20;
  gb_wide : column_bits = 0 \/ 7 <= column_bits - range_bits;
  gb_mode : column_bits = 0 \/ range_bits = default_range_bits s \/
    (range_bits = 0 /\ LINE_MAP_MAX_LOCATION_WITH_PACKED_RANGES < highest_location s);
  gb_hint : 0 <= hint <= 2 ^ (column_bits - range_bits);
  gb_no_hint : column_bits = 0 -> hint = 0
}.

Lemma line_bits_good s hint : 0 <= default_range_bits s <= 7 -> 0 <= hint ->
  exists h c r, line_bits s hint = Some (h, c, r) /\ good_bits s h c r /\
    (r = 0 \/ (r = default_range_bits s /\
               highest_location s <= LINE_MAP_MAX_LOCATION_WITH_PACKED_RANGES)) /\
    (gives_up s hint = false -> hint < h /\ c <> 0).
Proof.
  intros Hd Hh. unfold line_bits. destruct (gives_up s hint) eqn:G.
  - exists 0, 0, 0. split; [done|]. split; [|split; [by left|done]]. split; simpl; try done; try lia.
  - unfold gives_up, LINE_MAP_MAX_COLUMN_NUMBER in G. apply orb_false_iff in G as [G1 G2].
    change (Z.shiftl 1 12) with 4096 in G1. apply Z.ltb_ge in G1.
    destruct (column_bits_for_spec hint) as (b & -> & Hb & Hlt); [lia|].
    pose proof (pow2_le b 13 ltac:(lia)). rewrite shiftl_1, u32_small by lia.
    destruct (Z.leb_spec (highest_location s) LINE_MAP_MAX_LOCATION_WITH_PACKED_RANGES).
    + exists (2 ^ b), (b + default_range_bits s), (default_range_bits s). split; [done|].
      split; [|split; [by right|lia]]. split; try lia. replace (b + default_range_bits s - default_range_bits s) with b by lia. lia.
    + exists (2 ^ b), (b + 0), 0. split; [done|]. split; [|split; [by left|lia]]. split; try lia.
      replace (b + 0 - 0) with b by lia. lia.
Qed.

(** The first line of a map. *)
Lemma first_line_decodes m loc : 0 <= m_range_bits m <= m_column_and_range_bits m ->
  m_column_and_range_bits m <= 20 -> start_location m <= loc < start_location m + 2 ^ m_column_and_range_bits m ->
  0 <= to_line m < 2 ^ 32 ->
  SOURCE_LINE m loc = to_line m /\
  SOURCE_COLUMN m loc = (loc - start_location m) / 2 ^ m_range_bits m.
Proof.
  intros Hb Hb20 Hloc Hl. unfold SOURCE_LINE, SOURCE_COLUMN.
  pose proof (pow2_le (m_column_and_range_bits m) 20 ltac:(lia)).
  rewrite (u32_small (loc - start_location m)) by lia. rewrite shiftl_1, land_mask by lia.
  rewrite !Z.shiftr_div_pow2 by lia. rewrite Z.mod_small, (Z.div_small (loc - _)) by lia.
  by rewrite Z.add_0_l, u32_small by lia.
Qed.

Definition rebit (s : line_maps) (column_bits range_bits : Z) : line_maps :=
  set_ordinary (alter (set_bits column_bits range_bits) (pred (length (ordinary s))) (ordinary s)) s.

Lemma rebit_at s m cb rb : ordinary s !! pred (length (ordinary s)) = Some m ->
  ordinary (rebit s cb rb) !! pred (length (ordinary s)) = Some (set_bits cb rb m).
Proof. intros Hm. cbn [ordinary rebit set_ordinary]. by rewrite list_lookup_alter_eq, Hm. Qed.

Lemma rebit_last s m cb rb : ordinary s !! pred (length (ordinary s)) = Some m ->
  ordinary (rebit s cb rb) !! pred (length (ordinary (rebit s cb rb))) = Some (set_bits cb rb m).
Proof.
  intros Hm. rewrite <- (rebit_at s m cb rb Hm). cbn [ordinary rebit set_ordinary]. by rewrite length_alter.
Qed.

Lemma rebit_starts s cb rb i m' : ordinary (rebit s cb rb) !! i = Some m' ->
  exists m, ordinary s !! i = Some m /\ start_location m' = start_location m /\
    (S i < length (ordinary s) -> m' = m)%nat.
Proof.
  cbn [ordinary rebit set_ordinary].
  destruct (decide (i = pred (length (ordinary s)))) as [->|Hne].
  - rewrite list_lookup_alter_eq. destruct (ordinary s !! _) as [m|] eqn:E; [|done].
    intros [= <-]. exists m. split; [done|]. split; [done|]. lia.
  - rewrite list_lookup_alter_ne by lia. intros Hm'. by exists m'.
Qed.

Lemma rebit_wf s cb rb : wf_maps s -> wf_maps (rebit s cb rb).
Proof.
  intros [Hs Hc Hf]. split.
  - intros i j mi mj Hij (ni & Hi & -> & _)%rebit_starts (nj & Hj & -> & _)%rebit_starts. by eapply Hs.
  - cbn [ordinary rebit set_ordinary ordinary_cache]. by rewrite length_alter.
  - intros m (n & Hn & -> & _)%rebit_starts. by apply Hf.
Qed.

(** New bits do not change what the first line means. *)
Lemma rebit_evolves s m cb rb : current s m 0 -> 0 <= rb <= cb -> cb <= 20 ->
  m_column_and_range_bits m = 0 \/ rb = m_range_bits m ->
  highest_location s - start_location m < 2 ^ cb -> evolves s (rebit s cb rb).
Proof.
  intros Hc Hb Hb20 Hsame Hfit. pose proof (cur_map _ _ _ Hc) as Hm. split.
  - intros i m1 Hm1 Hlt. cbn [ordinary rebit set_ordinary]. by rewrite list_lookup_alter_ne by lia.
  - intros m1 Hm1. simplify_eq. exists (set_bits cb rb m). split_and!; try done.
    { cbn [ordinary rebit set_ordinary]. by rewrite list_lookup_alter_eq, Hm. }
    intros loc Hloc. pose proof (cur_bits _ _ _ Hc) as [? ?]. pose proof (cur_highest _ _ _ Hc).
    pose proof (cur_line _ _ _ Hc). pose proof (cur_number _ _ _ Hc) as [? ?]. unfold max_line in *.
    destruct (first_line_decodes m loc) as [-> ->]; [lia|lia|lia|lia|].
    destruct (first_line_decodes (set_bits cb rb m) loc) as [-> ->]; simpl; [lia|lia|lia|lia|].
    split; [done|]. destruct Hsame as [Hz| ->]; [|done].
    assert (2 ^ m_column_and_range_bits m = 1) by (by rewrite Hz).
    replace (loc - start_location m) with 0 by lia. done.
  - intros i m' (m1 & Hm1%lookup_lt_Some & _)%rebit_starts. lia.
  - done.
Qed.

(** What starting a line leads to. *)
Record line_started (s s' : line_maps) (m : line_map_ordinary) (before line hint r : Z) : Prop := {
  ls_wf : wf_maps s';
  ls_evolves : evolves s s';
  ls_depth : depth s' = depth s;
  ls_current : exists m' offset, current s' m' offset /\ to_file m' = to_file m /\
    included_from m' = included_from m /\
    ((gives_up s hint = true /\ m_column_and_range_bits m' = 0) \/
     hint < 2 ^ (m_column_and_range_bits m' - m_range_bits m')) /\
    (line <= before -> r <= highest_location s + 2 ^ 7) /\
    (m_column_and_range_bits m' = 0 -> gives_up s hint = true \/ hint = 0) /\
    r = highest_line s' /\ to_line m' + offset = line /\ r <= highest_location s'
}.

(** The current line decodes to itself. *)
Lemma line_decodes s m offset : current s m offset -> decodes m (highest_line s) (to_line m + offset) 0.
Proof.
  intros Hc. pose proof (cur_bits _ _ _ Hc) as [? ?]. pose proof (cur_number _ _ _ Hc) as [? ?].
  pose proof (cur_offset _ _ _ Hc). pose proof (cur_line _ _ _ Hc) as Hl.
  pose proof (cur_room _ _ _ Hc). pose proof (cur_highest _ _ _ Hc). unfold max_line, LINE_MAP_MAX_LOCATION in *.
  pose proof (pow2_gt0 (m_range_bits m) ltac:(lia)). pose proof (cur_start _ _ _ Hc).
  pose proof (pow2_gt0 (m_column_and_range_bits m - m_range_bits m) ltac:(lia)).
  destruct (decodes_at m offset 0 0) as [E1 E2]; [lia..|].
  replace (start_location m + offset * 2 ^ m_column_and_range_bits m + 0 * 2 ^ m_range_bits m + 0)
    with (highest_line s) in E1, E2 by lia. by split.
Qed.

Lemma line_number s m offset : current s m offset -> SOURCE_LINE m (highest_line s) = to_line m + offset.
Proof. intros Hc. apply (line_decodes _ _ _ Hc). Qed.

(** A jump of at most a hundred lines, and nothing wraps. *)
Definition max_jump : Z := 100.

Lemma shift_bound d b : 0 <= d <= max_jump -> 0 <= b <= 20 ->
  u32 (Z.shiftl d b) = d * 2 ^ b /\ 0 <= d * 2 ^ b < 2 ^ 27.
Proof.
  intros Hd Hb. unfold max_jump in Hd. rewrite Z.shiftl_mul_pow2 by lia.
  pose proof (pow2_le b 20 ltac:(lia)). pose proof (pow2_gt0 b ltac:(lia)).
  assert (0 <= d * 2 ^ b < 2 ^ 27) by nia. split; [|done]. apply u32_small. lia.
Qed.

(** The line is recorded in the last map, [k] lines below its start. *)
Lemma start_line_current s m line hint k r : wf_maps s ->
  ordinary s !! pred (length (ordinary s)) = Some m -> 2 <= start_location m ->
  0 <= default_range_bits s <= 7 ->
  good_bits s hint (m_column_and_range_bits m) (m_range_bits m) ->
  (start_location m <= LINE_MAP_MAX_LOCATION_WITH_COLS ->
    start_location m mod 2 ^ default_range_bits s = 0) ->
  start_location m mod 2 ^ m_range_bits m = 0 ->
  0 <= k -> 0 <= to_line m -> to_line m + k = line -> line < max_line ->
  r = start_location m + k * 2 ^ m_column_and_range_bits m ->
  highest_location s < r + 2 ^ m_column_and_range_bits m -> r < LINE_MAP_MAX_LOCATION ->
  highest_location s < LINE_MAP_MAX_LOCATION ->
  exists s', start_line line r hint s = Some (r, s') /\ wf_maps s' /\ evolves s s' /\
    depth s' = depth s /\ current s' m k /\ r = highest_line s' /\ r <= highest_location s'.
Proof.
  intros Hwf Hm Hst Hd Hg Hal Halr Hk Hl Hline Hmax Hr Hh HrM HhM.
  pose proof (gb_range _ _ _ _ Hg) as [Hb Hb20]. unfold max_line, LINE_MAP_MAX_LOCATION in *.
  pose proof (pow2_gt0 (m_range_bits m) ltac:(lia)). pose proof (pow2_gt0 (m_column_and_range_bits m) ltac:(lia)).
  pose proof (pow2_gt0 (m_column_and_range_bits m - m_range_bits m) ltac:(lia)).
  destruct (decodes_at m k 0 0) as [E _]; [lia..|].
  replace (start_location m + k * 2 ^ m_column_and_range_bits m + 0 * 2 ^ m_range_bits m + 0) with r in E by lia.
  assert (r mod 2 ^ m_range_bits m = 0) as Hmod.
  { rewrite Hr, Zplus_mod, Halr. replace (m_column_and_range_bits m)
      with ((m_column_and_range_bits m - m_range_bits m) + m_range_bits m) by lia.
    rewrite Z.pow_add_r, Z.mul_assoc, Z.mod_mul by lia. by rewrite Z.mod_0_l by lia. }
  destruct (start_line_spec s m line r hint) as (c & Hc & ->); [done|done|unfold LINE_MAP_MAX_LOCATION; nia|lia|done|lia|].
  set (h := if highest_location s <? r then r else highest_location s).
  assert (highest_location s <= h /\ r <= h < r + 2 ^ m_column_and_range_bits m /\ h < LINE_MAP_MAX_LOCATION)
    as (Hh1 & Hh2 & Hh3).
  { unfold h, LINE_MAP_MAX_LOCATION. destruct (Z.ltb_spec (highest_location s) r); lia. }
  eexists. split; [done|]. split_and!; try done.
  - by apply (wf_maps_ordinary s).
  - by apply evolves_refl.
  - split; cbn [set_ordinary_cache set_highest ordinary default_range_bits highest_location highest_line
      max_column_hint]; try done; try lia.
    + destruct (gb_mode _ _ _ _ Hg) as [?|[?|[? ?]]]; [by left|right; by left|right; right; lia].
    + apply (gb_wide _ _ _ _ Hg).
    + unfold max_line. lia.
    + apply (gb_hint _ _ _ _ Hg).
    + apply (gb_no_hint _ _ _ _ Hg).
  - simpl. lia.
Qed.

Section host.
Context (dos : bool).

Lemma s32_small x : - 2 ^ 31 <= x < 2 ^ 31 -> s32 x = x.
Proof.
  intros Hx. unfold s32. destruct (Z.leb_spec 0 x).
  - rewrite u32_small by lia. destruct (Z.ltb_spec x (2 ^ 31)); lia.
  - assert (u32 x = x + 2 ^ 32) as ->.
    { unfold u32, wrapu. replace (x mod 2 ^ 32) with ((x + 1 * 2 ^ 32) mod 2 ^ 32) by (by rewrite Z.mod_add by lia).
      rewrite Z.mod_small; lia. }
    destruct (Z.ltb_spec (x + 2 ^ 32) (2 ^ 31)); lia.
Qed.

(** The last map holds the line as it is. *)
Lemma line_start_same s m offset line delta hint : current s m offset -> wf_maps s -> room s ->
  line < max_line -> delta = line - (to_line m + offset) -> delta <= max_jump -> 0 <= hint ->
  wants_map s m delta hint = false ->
  exists r s', start_line line (u32 (highest_line s + u32 (Z.shiftl delta (m_column_and_range_bits m))))
    (max_column_hint s) s = Some (r, s') /\ line_started s s' m (to_line m + offset) line hint r.
Proof.
  intros Hc Hwf Hfree Hmax Hdelta Hjump Hhint Hw. unfold room in Hfree. unfold wants_map in Hw. rewrite !orb_false_iff in Hw.
  destruct Hw as [[[[[Hneg _] Hfit] _] Hpack] _]. apply Z.ltb_ge in Hneg.
  pose proof (cur_bits _ _ _ Hc) as [Hb Hb20]. pose proof (cur_line _ _ _ Hc) as Hl.
  pose proof (cur_highest _ _ _ Hc) as Hh. pose proof (cur_room _ _ _ Hc) as Hroom.
  pose proof (cur_number _ _ _ Hc) as [Hn0 Hn]. pose proof (cur_offset _ _ _ Hc) as Ho.
  pose proof (cur_start _ _ _ Hc) as Hst.
  destruct (shift_bound delta (m_column_and_range_bits m)) as [-> Hsb]; [lia|lia|].
  pose proof (pow2_gt0 (m_column_and_range_bits m) ltac:(lia)).
  unfold LINE_MAP_MAX_LOCATION in *. rewrite u32_small by nia.
  assert (hint < 2 ^ (m_column_and_range_bits m - m_range_bits m)) as Hhint'.
  { pose proof (pow2_le (m_column_and_range_bits m - m_range_bits m) 20 ltac:(lia)).
    pose proof (pow2_gt0 (m_column_and_range_bits m - m_range_bits m) ltac:(lia)).
    rewrite shiftl_1, u32_small in Hfit by lia. lia. }
  set (r := highest_line s + delta * 2 ^ m_column_and_range_bits m).
  destruct (start_line_current s m line (max_column_hint s) (offset + delta) r)
    as (s' & -> & Hwf' & Hev & Hdep & Hc' & Hr & Hle); try done; try (unfold LINE_MAP_MAX_LOCATION; lia).
  - apply Hc.
  - apply Hc.
  - split; [lia|apply Hc..].
  - apply Hc.
  - apply Hc.
  - exists r, s'. split; [done|]. split; [done..|]. exists m, (offset + delta).
    split_and!; try done; [by right| | |lia].
    { intros Hle'. assert (delta = 0) as Hz by lia. unfold r. rewrite Hz. lia. }
    intros Hz. right. assert (m_column_and_range_bits m - m_range_bits m = 0) as Hz' by lia.
    rewrite Hz' in Hhint'. simpl in Hhint'. lia.
Qed.

(** The bits of the last map, which has one line so far, are changed. *)
Lemma line_start_rebit s m line hint cb rb : current s m 0 -> wf_maps s ->
  start_location m + (line - to_line m) * 2 ^ cb < LINE_MAP_MAX_LOCATION ->
  to_line m <= line < max_line -> line - to_line m <= max_jump ->
  good_bits s hint cb rb -> start_location m mod 2 ^ rb = 0 ->
  m_column_and_range_bits m = 0 \/ rb = m_range_bits m ->
  highest_location s - start_location m < 2 ^ cb ->
  exists r s',
    start_line line (u32 (start_location m + u32 (Z.shiftl (u32 (line - to_line m)) cb))) hint
      (rebit s cb rb) = Some (r, s') /\
    wf_maps s' /\ evolves s s' /\ depth s' = depth s /\
    current s' (set_bits cb rb m) (line - to_line m) /\ r = highest_line s' /\ r <= highest_location s'.
Proof.
  intros Hc Hwf Hfree Hmax Hjump Hg Hal Hsame Hfit. unfold max_line, LINE_MAP_MAX_LOCATION in *.
  pose proof (cur_room _ _ _ Hc) as Hroom. unfold LINE_MAP_MAX_LOCATION in Hroom.
  pose proof (gb_range _ _ _ _ Hg) as [Hb Hb20]. pose proof (cur_start _ _ _ Hc).
  pose proof (cur_line _ _ _ Hc) as Hl. pose proof (cur_highest _ _ _ Hc) as Hh.
  pose proof (cur_number _ _ _ Hc) as [Hn0 Hn]. pose proof (cur_map _ _ _ Hc) as Hm.
  rewrite (u32_small (line - to_line m)) by lia.
  destruct (shift_bound (line - to_line m) cb) as [-> Hsb]; [lia|lia|]. rewrite u32_small by lia.
  assert (ordinary s <> []) by (intros E; by rewrite E in Hm).
  destruct (start_line_current (rebit s cb rb) (set_bits cb rb m) line hint (line - to_line m)
    (start_location m + (line - to_line m) * 2 ^ cb))
    as (s' & -> & Hwf' & Hev & Hdep & Hc' & Hr & Hle); try done; try (unfold LINE_MAP_MAX_LOCATION; simpl; lia).
  - by apply rebit_wf.
  - by apply rebit_last.
  - apply Hc.
  - destruct Hg. by split.
  - apply Hc.
  - unfold max_line. lia.
  - do 2 eexists. split; [done|]. split_and!; try done.
    eapply evolves_trans; [done| |exact Hev]. by apply (rebit_evolves s m).
Qed.

Lemma good_bits_mono s s' h c r : default_range_bits s' = default_range_bits s ->
  highest_location s <= highest_location s' -> good_bits s h c r -> good_bits s' h c r.
Proof.
  intros Hd Hh []. split; try done. rewrite Hd.
  destruct gb_mode0 as [?|[?|[? ?]]]; [by left|right; by left|right; right; lia].
Qed.

Lemma linemap_line_start_spec s m offset line hint : current s m offset -> wf_maps s -> room s ->
  1 <= depth s < 2 ^ 31 -> to_file m <> Some [] -> 0 <= line < max_line ->
  line - (to_line m + offset) <= max_jump -> 0 <= hint < 2 ^ 32 ->
  exists r s', linemap_line_start dos line hint s = Some (r, s') /\ line_started s s' m (to_line m + offset) line hint r.
Proof.
  intros Hc Hwf Hfree Hdep Hfile Hline Hjump Hhint.
  pose proof (cur_map _ _ _ Hc) as Hm. pose proof (cur_bits _ _ _ Hc) as [Hb Hb20].
  pose proof (cur_number _ _ _ Hc) as [Hn0 Hn]. pose proof (cur_offset _ _ _ Hc) as Ho.
  pose proof (cur_start _ _ _ Hc) as Hst. pose proof (cur_highest _ _ _ Hc) as Hh.
  pose proof (cur_line _ _ _ Hc) as Hl. pose proof (cur_drb _ _ _ Hc) as Hd.
  assert (start_location m <= highest_location s) as Hsh
    by (pose proof (pow2_gt0 (m_column_and_range_bits m) ltac:(lia)); nia).
  unfold linemap_line_start.
  rewrite (last_index_some _ _ m), (ordinary_at_some _ m), lbind_get by done.
  rewrite (line_number s m offset Hc). unfold max_line, max_jump in *.
  rewrite s32_small by lia. set (delta := line - (to_line m + offset)) in *.
  rewrite lbind_assert by lia. rewrite lbind_assert.
  2: { destruct (Z.leb_spec delta 10); [done|]. cbn [orb]. apply Z.ltb_lt. nia. }
  destruct (wants_map s m delta hint) eqn:Hw.
  2: { apply (line_start_same s m offset); try done; unfold max_line, max_jump; lia. }
  unfold room in Hfree. assert (LINE_MAP_MAX_LOCATION <=? highest_location s = false) as -> by lia.
  rewrite andb_false_r.
  destruct (line_bits_good s hint Hd ltac:(lia)) as (h & cb & rb & Hlb & Hg & Hpacked & Hh').
  rewrite (lbind_opt _ (h, cb, rb)) by done.
  pose proof (gb_range _ _ _ _ Hg) as [Hcb Hcb20].
  assert ((gives_up s hint = true /\ cb = 0) \/ (hint < 2 ^ (cb - rb) /\ cb <> 0)) as Hroom.
  { destruct (gives_up s hint) eqn:G.
    { left. split; [done|]. unfold line_bits in Hlb. rewrite G in Hlb. congruence. }
    destruct (Hh' eq_refl). right.
    pose proof (gb_hint _ _ _ _ Hg). lia. }
  assert (forall s' (m' : line_map_ordinary) r k, wf_maps s' -> evolves s s' -> depth s' = depth s ->
    current s' (set_bits cb rb m') k -> to_file m' = to_file m -> included_from m' = included_from m ->
    to_line m' + k = line -> r = highest_line s' -> r <= highest_location s' ->
    (line <= to_line m + offset -> r <= highest_location s + 2 ^ 7) ->
    line_started s s' m (to_line m + offset) line hint r) as Hdone.
  { intros s' m' r k ? ? ? ? ? ? ? ? ? ?. split; [done..|]. exists (set_bits cb rb m'), k. split_and!; try done; cbn [set_bits m_column_and_range_bits m_range_bits];
      naive_solver. }
  destruct (wants_new_map s m line delta (to_line m + offset) cb rb) eqn:Hnew.
  - pose proof (current_ready s m offset Hc Hwf ltac:(done) Hdep) as Hr.
    destruct (add_rename dos s LC_RENAME (sysp m) (to_file m) line m Hr ltac:(by left) Hm) as (c & Hcl & E).
    rewrite lbind_assoc, (lbind_some _ _ _ _ _ E), lbind_ret. clear E.
    assert (named LC_RENAME (to_file m) = to_file m) as -> by (unfold named; by rewrite bool_decide_eq_false_2).
    set (s1 := add_state s LC_RENAME _ _ _ _ _ c).
    pose proof (add_current s LC_RENAME (sysp m) (to_file m) line (included_from m) (depth s) c Hr ltac:(done)) as Hc1.
    fold s1 in Hc1. set (m1 := mk_ordinary _ _ _ _ _ _ _ _) in Hc1.
    assert (wf_maps s1) as Hwf1 by (by apply add_state_wf).
    pose proof (cur_map _ _ _ Hc1) as Hm1.
    rewrite (last_index_some _ _ m1) by done. unfold update_ordinary. rewrite lbind_mod. fold (rebit s1 cb rb).
    rewrite (ordinary_at_some _ (set_bits cb rb m1)) by (by apply rebit_at).
    destruct (next_start_spec s) as (Hns & Hal & _ & _); [done|lia|done|].
    destruct (line_start_rebit s1 m1 line h cb rb)
      as (r & s' & Er & Hwf' & Hev & Hdep' & Hc' & Hrr & Hle); try done.
    + cbn [m1 to_line]. rewrite Z.sub_diag, Z.mul_0_l, Z.add_0_r. apply (cur_room _ _ _ Hc1).
    + cbn [m1 to_line]. unfold max_line. lia.
    + cbn [m1 to_line]. unfold max_jump. lia.
    + apply (good_bits_mono s); [done|cbn; lia|done].
    + destruct Hpacked as [->|[-> Hle]]; [apply Z.mod_1_r|]. apply Hal.
      pose proof (pow2_le (default_range_bits s) 7 ltac:(lia)).
      unfold LINE_MAP_MAX_LOCATION_WITH_PACKED_RANGES, LINE_MAP_MAX_LOCATION_WITH_COLS in *. lia.
    + by left.
    + cbn [m1 start_location s1 add_state highest_location]. pose proof (pow2_gt0 cb ltac:(lia)). lia.
    + exists r, s'. split; [exact Er|]. eapply (Hdone s' m1); try done.
      * eapply evolves_trans; [|by apply add_evolves|done]. intros E. by rewrite E in Hm.
      * cbn [m1 to_line]. lia.
      * intros _. rewrite Hrr, (cur_line _ _ _ Hc'). cbn [m1 set_bits start_location to_line].
        pose proof (pow2_le (default_range_bits s) 7 ltac:(lia)). lia.
  - unfold wants_new_map in Hnew. rewrite !orb_false_iff in Hnew.
    destruct Hnew as [[[[Hneg Hfirst] Hcol] _] Hrange].
    apply Z.ltb_ge in Hneg, Hrange. apply negb_false_iff, Z.eqb_eq in Hfirst.
    assert (offset = 0) as -> by lia. rewrite lbind_ret, (last_index_some _ _ m) by done.
    unfold update_ordinary. rewrite lbind_mod. fold (rebit s cb rb).
    rewrite (ordinary_at_some _ (set_bits cb rb m)) by (by apply rebit_at).
    pose proof (pow2_le (cb - rb) 20 ltac:(lia)). pose proof (pow2_gt0 (cb - rb) ltac:(lia)).
    rewrite shiftl_1, u32_small in Hcol by lia. apply Z.leb_gt in Hcol.
    destruct (first_line_decodes m (highest_location s)) as [_ Hcolumn]; [lia..|]. rewrite Hcolumn in Hcol.
    assert (m_column_and_range_bits m = 0 \/ rb = m_range_bits m) as Hsame.
    { destruct (cur_ranges _ _ _ Hc) as [?|[?|[? ?]]]; [by left|right|right];
        destruct Hpacked as [?|[? ?]]; lia. }
    destruct (line_start_rebit s m line h cb rb)
      as (r & s' & Er & Hwf' & Hev & Hdep' & Hc' & Hrr & Hle); try done.
    + destruct (shift_bound (line - to_line m) cb) as [_ Hsb]; [unfold max_jump; lia|lia|]. lia.
    + unfold max_line. lia.
    + unfold max_jump. lia.
    + destruct Hpacked as [->|[-> Hle]]; [apply Z.mod_1_r|]. apply (cur_aligned _ _ _ Hc).
      unfold LINE_MAP_MAX_LOCATION_WITH_PACKED_RANGES, LINE_MAP_MAX_LOCATION_WITH_COLS in *. lia.
    + pose proof (pow2_gt0 cb ltac:(lia)). destruct Hsame as [Hz| ->].
      * assert (2 ^ m_column_and_range_bits m = 1) by (by rewrite Hz). lia.
      * replace cb with ((cb - m_range_bits m) + m_range_bits m) by lia. rewrite Z.pow_add_r by lia.
        pose proof (pow2_gt0 (m_range_bits m) ltac:(lia)).
        apply Z.nle_gt. intros Hge. apply (Z.div_le_mono _ _ (2 ^ m_range_bits m)) in Hge; [|lia].
        rewrite Z.div_mul in Hge by lia. lia.
    + exists r, s'. split; [exact Er|]. eapply (Hdone s' m); try done; [lia|]. intros Hle'.
      rewrite Hrr, (cur_line _ _ _ Hc'). cbn [set_bits start_location to_line].
      replace (line - to_line m) with 0 by lia. lia.
Qed.

(** ** Recording a column *)

Record column_recorded (s s' : line_maps) (m : line_map_ordinary) (line column r : Z) : Prop := {
  cr_wf : wf_maps s';
  cr_evolves : evolves s s';
  cr_depth : depth s' = depth s;
  cr_current : exists m' offset, current s' m' offset /\ to_file m' = to_file m /\
    included_from m' = included_from m /\ to_line m' + offset = line /\
    start_location m' <= r <= highest_location s' /\
    exists c, decodes m' r line c /\
      (c = column \/ (c = 0 /\ (LINE_MAP_MAX_LOCATION_WITH_COLS < highest_location s \/
                                LINE_MAP_MAX_COLUMN_NUMBER < column + 50)))
}.

(** A column that fits the last map. *)
Lemma position_spec s m offset column : current s m offset -> wf_maps s ->
  0 <= column < 2 ^ (m_column_and_range_bits m - m_range_bits m) ->
  highest_line s + 2 ^ 20 < LINE_MAP_MAX_LOCATION ->
  let r := u32 (highest_line s + u32 (Z.shiftl column (m_range_bits m))) in
  let s' := set_highest_location (if highest_location s <=? r then r else highest_location s) s in
  wf_maps s' /\ evolves s s' /\ current s' m offset /\ start_location m <= r <= highest_location s' /\
  decodes m r (to_line m + offset) column.
Proof.
  intros Hc Hwf Hcol Hroom r s'. pose proof (cur_bits _ _ _ Hc) as [Hb Hb20].
  pose proof (cur_line _ _ _ Hc) as Hl. pose proof (cur_highest _ _ _ Hc) as Hh.
  pose proof (cur_number _ _ _ Hc) as [Hn0 Hn]. pose proof (cur_offset _ _ _ Hc) as Ho.
  pose proof (cur_start _ _ _ Hc) as Hst. pose proof (cur_room _ _ _ Hc) as Hr.
  unfold max_line, LINE_MAP_MAX_LOCATION in *.
  pose proof (pow2_gt0 (m_range_bits m) ltac:(lia)). pose proof (pow2_gt0 (m_column_and_range_bits m) ltac:(lia)).
  pose proof (pow2_le (m_column_and_range_bits m) 20 ltac:(lia)).
  assert (2 ^ m_column_and_range_bits m = 2 ^ (m_column_and_range_bits m - m_range_bits m) * 2 ^ m_range_bits m)
    as Hpow by (rewrite <- Z.pow_add_r by lia; f_equal; lia).
  assert (0 <= column * 2 ^ m_range_bits m < 2 ^ m_column_and_range_bits m) as Hlow by nia.
  assert (r = highest_line s + column * 2 ^ m_range_bits m) as Hrr.
  { unfold r. rewrite Z.shiftl_mul_pow2 by lia. rewrite (u32_small (column * _)) by lia.
    apply u32_small. nia. }
  clearbody r.
  assert (highest_location s <= highest_location s' /\ r <= highest_location s'
    < highest_line s + 2 ^ m_column_and_range_bits m) as [Hge Hle].
  { subst s'. cbn [set_highest_location set_highest highest_location].
    destruct (Z.leb_spec (highest_location s) r); lia. }
  split_and!; [by apply (wf_maps_ordinary s); [| |apply Hwf]|by apply evolves_refl| |nia|lia|].
  - destruct Hc. split; try done; cbn [s' set_highest_location set_highest highest_line default_range_bits
      max_column_hint ordinary] in *; try done; try lia.
    unfold LINE_MAP_MAX_LOCATION. lia.
  - rewrite Hrr, Hl. destruct (decodes_at m offset column 0) as [E1 E2]; [lia..|].
    rewrite Z.add_0_r in E1, E2. by split.
Qed.

Lemma linemap_position_for_column_spec s m offset column : current s m offset -> wf_maps s -> room s ->
  1 <= depth s < 2 ^ 31 -> to_file m <> Some [] -> 0 <= column < 2 ^ 31 ->
  exists r s', linemap_position_for_column dos column s = Some (r, s') /\
    column_recorded s s' m (to_line m + offset) column r.
Proof.
  intros Hc Hwf Hfree Hdep Hfile Hcol. pose proof (cur_map _ _ _ Hc) as Hm.
  pose proof (cur_highest _ _ _ Hc) as Hh. pose proof (cur_number _ _ _ Hc) as [Hn0 Hn].
  pose proof (cur_offset _ _ _ Hc) as Ho. pose proof (cur_bits _ _ _ Hc) as [Hb Hb20].
  pose proof (cur_line _ _ _ Hc) as Hl.
  pose proof (pow2_gt0 (m_column_and_range_bits m) ltac:(lia)).
  unfold linemap_position_for_column. rewrite (last_index_some _ _ m), lbind_get by done.
  destruct (Z.leb_spec (max_column_hint s) column) as [Hhint|Hhint].
  - destruct ((LINE_MAP_MAX_LOCATION_WITH_COLS <? highest_line s) || (LINE_MAP_MAX_COLUMN_NUMBER <? column))
      eqn:Hgive.
    + exists (highest_line s), s. split; [done|]. split; [done|by apply evolves_refl|done|].
      exists m, offset. split_and!; try done; [nia|lia|]. exists 0. split.
      * by apply line_decodes.
      * right. split; [done|]. apply orb_true_iff in Hgive as [?|?]; [left; lia|right; lia].
    + rewrite (ordinary_at_some _ m), (line_number _ _ _ Hc) by done. rewrite u32_small by lia.
      destruct (linemap_line_start_spec s m offset (to_line m + offset) (column + 50))
        as (r & s1 & E & [Hwf1 Hev1 Hdep1 (m1 & off1 & Hc1 & Hf1 & Hi1 & Hg1 & Hb1 & Hz1 & Hr1 & Hl1 & Hle1)]);
        try done; try lia; [unfold max_jump; lia|].
      rewrite (lbind_some _ _ _ _ _ E). pose proof (cur_map _ _ _ Hc1) as Hm1.
      rewrite (last_index_some _ _ m1), (ordinary_at_some _ m1) by done.
      pose proof (cur_start _ _ _ Hc1). pose proof (cur_line _ _ _ Hc1). pose proof (cur_offset _ _ _ Hc1).
      pose proof (cur_bits _ _ _ Hc1) as [? ?]. pose proof (pow2_gt0 (m_column_and_range_bits m1) ltac:(lia)).
      destruct (Z.eqb_spec (m_column_and_range_bits m1) 0) as [Hz|Hnz].
      * exists r, s1. split; [done|]. split; [done..|]. exists m1, off1. split_and!; try done; [nia|].
        exists 0. split; [rewrite Hr1, <- Hl1; by apply line_decodes|]. right. split; [done|].
        destruct (Hz1 Hz) as [G|?]; [|lia]. unfold gives_up in G. apply orb_true_iff in G as [?|?]; lia.
      * rewrite (last_index_some _ _ m1), (ordinary_at_some _ m1), lbind_mod by done.
        destruct (position_spec s1 m1 off1 column Hc1 Hwf1) as (Hwf2 & Hev2 & Hc2 & Hle2 & Hd2);
          [destruct Hg1 as [[_ ?]|?]; [done|lia]| |].
        { unfold room in Hfree. specialize (Hb1 ltac:(lia)). lia. }
        rewrite Hr1. do 2 eexists. split; [done|]. split; [done| |done|].
        { eapply evolves_trans; [|exact Hev1|exact Hev2]. intros E'. by rewrite E' in Hm. }
        exists m1, off1. split_and!; try done; [apply Hle2..|]. exists column. rewrite <- Hl1. by split; [|left].
  - pose proof (cur_hint _ _ _ Hc) as [_ Hfit]. rewrite (last_index_some _ _ m), (ordinary_at_some _ m), lbind_mod by done.
    destruct (position_spec s m offset column Hc Hwf) as (Hwf2 & Hev2 & Hc2 & Hle2 & Hd2);
      [lia|unfold room in Hfree; lia|].
    do 2 eexists. split; [done|]. split; [done..|]. exists m, offset. split_and!; try done; [apply Hle2..|].
    exists column. by split; [|left].
Qed.

(** ** Histories *)

(** A location given out: what it was asked for, and the highest location at
    that time. *)
Record given : Type := mk_given {
  g_loc : location_t;
  g_file : option (list byte);
  g_line : Z;
  g_column : Z;
  g_high : location_t
}.

(** Columns are not kept when locations run low or the column is very high. *)
Definition column_kept (g : given) (c : Z) : Prop :=
  c = g_column g \/
  (c = 0 /\ (LINE_MAP_MAX_LOCATION_WITH_COLS < g_high g \/
             LINE_MAP_MAX_COLUMN_NUMBER < g_column g + 50)).

Definition given_ok (s : line_maps) (g : given) : Prop :=
  g_loc g <= highest_location s /\
  exists i m c, owner (ordinary s) (g_loc g) i /\ ordinary s !! i = Some m /\ to_file m = g_file g /\
    decodes m (g_loc g) (g_line g) c /\ column_kept g c.

Lemma given_evolves s s' g : evolves s s' -> given_ok s g -> given_ok s' g.
Proof.
  intros Hev (Hle & i & m & c & Ho & Hm & Hf & [Hl Hc] & Hk). pose proof (ev_highest _ _ Hev).
  split; [lia|]. destruct (ev_lookup _ _ _ _ Hev Hm) as (m' & Hm' & Hst & Hf' & _ & _ & Hd).
  exists i, m', c. split; [by apply (ev_owner s)|]. split; [done|]. split; [congruence|].
  destruct Ho as (m2 & Hm2 & Hle2 & _). simplify_eq. destruct (Hd (g_loc g)) as [E1 E2]; [done|].
  split; [|done]. split; congruence.
Qed.

(** The files being read: the map [i] is of file [file], which was included
    from the others, each to be resumed at the line given. *)
Fixpoint chain (s : line_maps) (i : nat) (file : option (list byte))
    (below : list (option (list byte) * Z)) : Prop :=
  exists m, ordinary s !! i = Some m /\ to_file m = file /\ start_location m <= highest_location s /\
    match below with
    | [] => included_from m = 0
    | (file', line') :: below =>
        RESERVED_LOCATION_COUNT <= included_from m < start_location m /\
        exists j mj next, owner (ordinary s) (included_from m) j /\ ordinary s !! j = Some mj /\
          ordinary s !! S j = Some next /\ SOURCE_LINE mj (start_location next) = line' /\
          chain s j file' below
    end.

Lemma chain_evolves s s' : evolves s s' -> forall below i file,
  chain s i file below -> chain s' i file below.
Proof.
  intros Hev. pose proof (ev_highest _ _ Hev).
  induction below as [|[file' line'] below IH]; intros i file (m & Hm & Hf & Hh & Hrest);
    destruct (ev_lookup _ _ _ _ Hev Hm) as (m' & Hm' & Hst & Hf' & _ & Hi & _);
    exists m'; (split; [done|]; split; [congruence|]; split; [lia|]).
  - congruence.
  - destruct Hrest as (Hinc & j & mj & next & Ho & Hmj & Hnext & Hl & Hc). rewrite Hi, Hst.
    split; [done|]. destruct (ev_lookup _ _ _ _ Hev Hnext) as (next' & Hnext' & Hst' & _).
    exists j, mj, next'. split_and!; [by apply (ev_owner s); [|lia|]| |done|by rewrite Hst'|by apply IH].
    apply (ev_maps _ _ Hev); [done|]. by apply lookup_lt_Some in Hnext.
Qed.

Definition max_depth : Z := 2 ^ 30.

Definition with_range_bits (bits : Z) (s : line_maps) : line_maps :=
  mk_maps (ordinary s) (ordinary_cache s) (macros s) (macro_cache s) (depth s) (highest_location s)
    (highest_line s) (max_column_hint s) (adhoc s) (builtin_location s) bits
    (num_optimized_ranges s) (num_unoptimized_ranges s).

(** The line at which a file that includes another without its next line
    having been started is resumed. *)
Definition line_at_next_map (s : line_maps) : Z :=
  match last (ordinary s) with Some m => SOURCE_LINE m (next_start s) | None => 0 end.

(** The line after the #include has just been started, in a map that keeps
    columns or when locations no longer do. *)
Definition after_include (s : line_maps) : Prop :=
  highest_location s = highest_line s /\
  exists m, last (ordinary s) = Some m /\ start_location m < highest_line s /\
    (m_column_and_range_bits m <> 0 \/ LINE_MAP_MAX_LOCATION_WITH_COLS < highest_location s).

(** [history s file below line h]: the table [s] is reached by entering,
    including, renaming and leaving files and recording lines and columns; the
    current file and line, the files that include it, and the locations given
    out on the way. *)
Inductive history : line_maps -> option (list byte) -> list (option (list byte) * Z) -> Z ->
    list given -> Prop :=
  | h_main b bits sp file line r s :
      0 <= bits <= 7 -> 0 <= line < max_line ->
      linemap_add dos LC_ENTER sp file line (with_range_bits bits (linemap_init b)) = Some (r, s) ->
      history s (named LC_ENTER file) [] line []
  | h_enter s f below l h sp file line r s' :
      history s f below l h -> room s -> Z.of_nat (length below) < max_depth -> 0 <= line < max_line ->
      linemap_add dos LC_ENTER sp file line s = Some (r, s') ->
      history s' (named LC_ENTER file) ((f, line_at_next_map s) :: below) line h
  | h_include s f below l h sp file line r s' :
      history s f below l h -> room s -> Z.of_nat (length below) < max_depth -> 0 <= line < max_line ->
      after_include s ->
      enter_included_file dos sp file line s = Some (r, s') ->
      history s' (named LC_ENTER file) ((f, l) :: below) line
        (filter (fun g => g_loc g <> highest_line s) h)
  | h_rename s f below l h rsn sp file line r s' :
      history s f below l h -> room s -> rsn = LC_RENAME \/ rsn = LC_RENAME_VERBATIM ->
      0 <= line < max_line -> named rsn file <> Some [] ->
      linemap_add dos rsn sp file line s = Some (r, s') ->
      history s' (named rsn file) below line h
  | h_leave s f f' l' below l h sp line r s' :
      history s f ((f', l') :: below) l h -> room s -> 0 <= l' < max_line ->
      linemap_add dos LC_LEAVE sp None line s = Some (r, s') ->
      history s' f' below l' h
  | h_line s f below l h line hint r s' :
      history s f below l h -> room s -> 0 <= line < max_line -> line - l <= max_jump ->
      0 <= hint < 2 ^ 32 ->
      linemap_line_start dos line hint s = Some (r, s') ->
      history s' f below line (mk_given r f line 0 (highest_location s) :: h)
  | h_column s f below l h column r s' :
      history s f below l h -> room s -> 0 <= column < 2 ^ 31 ->
      linemap_position_for_column dos column s = Some (r, s') ->
      history s' f below l (mk_given r f l column (highest_location s) :: h).

(** What holds along every history. *)
Record hist_inv (s : line_maps) (f : option (list byte)) (below : list (option (list byte) * Z))
    (l : Z) (h : list given) : Prop := {
  hi_wf : wf_maps s;
  hi_current : exists m offset, current s m offset /\ to_line m + offset = l;
  hi_chain : chain s (pred (length (ordinary s))) f below;
  hi_depth : depth s = 1 + Z.of_nat (length below) /\ depth s <= 1 + max_depth;
  hi_names : f <> Some [] /\ Forall (fun p => fst p <> Some []) below;
  hi_given : Forall (given_ok s) h
}.

Lemma hist_ready s f below l h : hist_inv s f below l h -> room s -> ready s.
Proof.
  intros [Hwf (m & off & Hc & _) _ [Hd1 Hd2] _ _] Hroom. eapply current_ready; try done.
  unfold max_depth in *. lia.
Qed.

Lemma named_not_empty file : named LC_ENTER file <> Some [].
Proof.
  unfold named. rewrite (bool_decide_eq_false_2 (LC_ENTER = LC_RENAME_VERBATIM)) by done.
  rewrite andb_true_r. case_bool_decide; done.
Qed.

Lemma add_state_last s rsn sp file line inc d c :
  ordinary (add_state s rsn sp file line inc d c) !!
    pred (length (ordinary (add_state s rsn sp file line inc d c))) =
  Some (mk_ordinary (next_start s) rsn (u8 sp) 0 0 file line inc).
Proof.
  cbn [add_state ordinary]. rewrite length_app. cbn [length].
  replace (pred (length (ordinary s) + 1)) with (length (ordinary s)) by lia. apply lookup_snoc.
Qed.

(** A new map, with the history so far. *)
Lemma hist_add s rsn sp file line inc d c below h : ready s -> 0 <= line < max_line ->
  (c < S (length (ordinary s)))%nat -> file <> Some [] ->
  Forall (fun p => fst p <> Some []) below -> Forall (given_ok s) h ->
  d = 1 + Z.of_nat (length below) -> d <= 1 + max_depth ->
  chain (add_state s rsn sp file line inc d c)
    (pred (length (ordinary (add_state s rsn sp file line inc d c)))) file below ->
  hist_inv (add_state s rsn sp file line inc d c) file below line h.
Proof.
  intros Hr Hl Hc Hf Hb Hg Hd Hmax Hch.
  split; [by apply add_state_wf| |done|done|done|].
  - pose proof (add_current s rsn sp file line inc d c Hr Hl). do 2 eexists. split; [done|]. simpl. lia.
  - eapply Forall_impl; [exact Hg|]. intros g. apply given_evolves. by apply add_evolves.
Qed.

(** Where the end of the including map is: inside it. *)
Lemma include_location_inside s m : ready s -> ordinary s !! pred (length (ordinary s)) = Some m ->
  0 <= m_column_and_range_bits m <= 20 ->
  start_location m <= include_location s < next_start s.
Proof.
  intros Hr Hm Hb. destruct (ready_start s Hr) as [Hs Hs2]. pose proof (ready_starts s Hr _ _ Hm) as Hle.
  pose proof Hr as (_ & Hh & _ & [[E _]|(Hwf & _)]); [by rewrite E in Hm|].
  pose proof (last_starts s m _ m Hwf Hm Hm) as Hst. unfold RESERVED_LOCATION_COUNT, LINE_MAP_MAX_LOCATION in *.
  unfold include_location. rewrite last_index_last, Hm.
  rewrite (u32_small (next_start s - 1 - start_location m)) by lia. rewrite mask_low_spec by lia.
  pose proof (Z.mod_pos_bound (next_start s - 1 - start_location m) (2 ^ m_column_and_range_bits m)
    (pow2_gt0 (m_column_and_range_bits m) ltac:(lia))).
  pose proof (Z.mod_le (next_start s - 1 - start_location m) (2 ^ m_column_and_range_bits m)
    ltac:(lia) (pow2_gt0 (m_column_and_range_bits m) ltac:(lia))).
  rewrite u32_small by lia. lia.
Qed.

Lemma hist_enter s m f below h sp file line c : ready s ->
  ordinary s !! pred (length (ordinary s)) = Some m -> 0 <= m_column_and_range_bits m <= 20 ->
  chain s (pred (length (ordinary s))) f below -> Forall (given_ok s) h ->
  f <> Some [] -> Forall (fun p => fst p <> Some []) below ->
  depth s = 1 + Z.of_nat (length below) -> Z.of_nat (length below) < max_depth ->
  0 <= line < max_line -> (c < S (length (ordinary s)))%nat ->
  hist_inv (add_state s LC_ENTER sp (named LC_ENTER file) line (include_location s) (depth s + 1) c)
    (named LC_ENTER file) ((f, line_at_next_map s) :: below) line h.
Proof.
  intros Hr Hm Hb Hch Hg Hf Hbel Hd Hmax Hl Hc. pose proof (lookup_lt_Some _ _ _ Hm) as Hlen.
  pose proof (include_location_inside s m Hr Hm Hb) as Hinc.
  pose proof Hr as (_ & _ & _ & [[E _]|(Hwf & _)]); [by rewrite E in Hm|].
  pose proof (last_starts s m _ m Hwf Hm Hm) as Hst.
  apply hist_add; try done; [apply named_not_empty|by apply Forall_cons_2|simpl length; lia|lia|].
  eexists. split; [apply add_state_last|]. split; [done|]. split; [cbn; lia|].
  cbn [included_from start_location]. split; [lia|].
  exists (pred (length (ordinary s))), m. eexists. split_and!.
  - apply owner_snoc; [|cbn; lia]. exists m. split; [done|]. split; [lia|].
    intros m' Hm'%lookup_lt_Some. lia.
  - by apply add_state_previous.
  - replace (S (pred (length (ordinary s)))) with (length (ordinary s)) by lia. apply lookup_snoc.
  - unfold line_at_next_map. by rewrite last_index_last, Hm.
  - eapply chain_evolves; [|exact Hch]. by apply add_evolves.
Qed.

(** The location given back before an #include. *)
Definition given_back (s : line_maps) : line_maps :=
  set_highest_location (u32 (highest_location s - 1)) s.

Lemma chain_same_maps s s' : ordinary s' = ordinary s ->
  (forall i m, ordinary s !! i = Some m -> start_location m <= highest_location s') ->
  forall below i file, chain s i file below -> chain s' i file below.
Proof.
  intros E Hh. induction below as [|[f l] below IH]; intros i file (m & Hm & Hf & _ & Hrest);
    exists m; rewrite E; (split; [done|]; split; [done|]; split; [by eapply Hh|]); [done|].
  destruct Hrest as (Hinc & j & mj & next & Ho & Hmj & Hn & Hl & Hc).
  split; [done|]. exists j, mj, next. split_and!; try done. by apply IH.
Qed.

Lemma given_back_spec s m offset f below l h : hist_inv s f below l h -> current s m offset -> room s ->
  after_include s ->
  ready (given_back s) /\ next_start (given_back s) = highest_line s /\
  chain (given_back s) (pred (length (ordinary s))) f below /\
  Forall (given_ok (given_back s)) (filter (fun g => g_loc g <> highest_line s) h).
Proof.
  intros Hi Hc Hroom (Hhl & m' & Hm' & Hst' & Hcols). pose proof (cur_map _ _ _ Hc) as Hm.
  rewrite last_index_last in Hm'. assert (m' = m) as -> by congruence. pose proof (cur_start _ _ _ Hc) as Hst.
  pose proof (cur_room _ _ _ Hc) as Hr. unfold LINE_MAP_MAX_LOCATION in Hr.
  assert (highest_location (given_back s) = highest_line s - 1) as Hgb.
  { cbn [given_back set_highest_location set_highest highest_location]. rewrite u32_small; lia. }
  destruct Hi as [Hwf _ Hch [Hd1 Hd2] _ Hg].
  assert (wf_maps (given_back s)) as Hwf' by (apply (wf_maps_ordinary s); [done..|apply Hwf]).
  assert (ready (given_back s)) as Hready.
  { split; [apply Hc|]. split; [lia|]. unfold room in *. split; [lia|]. right.
    split; [done|]. unfold max_depth in *. split; [cbn; lia|]. exists m. split; [done|]. lia. }
  split_and!; [done| | |].
  - destruct (next_start_spec (given_back s)) as (Hn1 & _ & Hn3 & Hn4);
      [apply Hc|lia|unfold room in *; lia|].
    rewrite Hgb in *. change (default_range_bits (given_back s)) with (default_range_bits s) in *.
    destruct (Z.leb_spec LINE_MAP_MAX_LOCATION_WITH_COLS (highest_line s - 1)) as [Hge|Hlt]; [lia|].
    destruct Hcols as [Hbits|?]; [|lia]. pose proof (cur_bits _ _ _ Hc) as [Hb Hb20].
    pose proof (cur_drb _ _ _ Hc) as Hd. pose proof (pow2_gt0 (default_range_bits s) ltac:(lia)).
    assert (highest_line s mod 2 ^ default_range_bits s = 0) as Hal.
    { rewrite (cur_line _ _ _ Hc), Zplus_mod, (cur_aligned _ _ _ Hc) by lia.
      replace (m_column_and_range_bits m) with
        ((m_column_and_range_bits m - default_range_bits s) + default_range_bits s) by lia.
      pose proof (cur_wide _ _ _ Hc).
      rewrite Z.pow_add_r, Z.mul_assoc, Z.mod_mul by lia. by rewrite Z.mod_0_l by lia. }
    apply orb_true_iff in Hn3 as [Hn3|Hn3]; [apply negb_true_iff in Hn3; lia|].
    rewrite shiftl_1, land_mask in Hn3 by lia. apply Z.eqb_eq in Hn3.
    assert ((next_start (given_back s) - highest_line s) mod 2 ^ default_range_bits s = 0) as Hmod
      by (rewrite Zminus_mod, Hn3, Hal; apply Z.mod_0_l; lia).
    rewrite Z.mod_small in Hmod by lia. lia.
  - apply (chain_same_maps s); [done| |exact Hch]. intros i mi Hmi.
    pose proof (last_starts s m i mi Hwf Hm Hmi). lia.
  - apply Forall_forall. intros g [Hne Hin]%list_elem_of_filter. rewrite Forall_forall in Hg.
    destruct (Hg g Hin) as (Hle & Hrest). split; [lia|done].
Qed.

(** ** Every operation succeeds and extends the history *)

Lemma step_main b bits sp file line : 0 <= bits <= 7 -> 0 <= line < max_line ->
  exists r s, linemap_add dos LC_ENTER sp file line (with_range_bits bits (linemap_init b)) = Some (r, s) /\
    hist_inv s (named LC_ENTER file) [] line [].
Proof.
  intros Hb Hl. set (s0 := with_range_bits bits (linemap_init b)).
  assert (ready s0) as Hr by (split; [done|]; split; [done|]; split; [done|by left]).
  destruct (add_enter dos s0 sp file line Hr) as (c & Hc & E). do 2 eexists. split; [exact E|].
  apply hist_add; try done; [apply named_not_empty|].
  eexists. split; [apply add_state_last|]. split; [done|]. split; [|done]. cbn. lia.
Qed.

Lemma step_enter s f below l h sp file line : hist_inv s f below l h -> room s ->
  Z.of_nat (length below) < max_depth -> 0 <= line < max_line ->
  exists r s', linemap_add dos LC_ENTER sp file line s = Some (r, s') /\
    hist_inv s' (named LC_ENTER file) ((f, line_at_next_map s) :: below) line h.
Proof.
  intros Hi Hroom Hd Hl. pose proof (hist_ready _ _ _ _ _ Hi Hroom) as Hr.
  destruct (add_enter dos s sp file line Hr) as (c & Hc & E). do 2 eexists. split; [exact E|].
  destruct Hi as [Hwf (m & off & Hcur & _) Hch [Hd1 _] [Hn1 Hn2] Hg].
  pose proof (cur_bits _ _ _ Hcur) as [? ?].
  apply (hist_enter s m); try done; [apply Hcur|lia].
Qed.

Lemma step_include s f below l h sp file line : hist_inv s f below l h -> room s ->
  Z.of_nat (length below) < max_depth -> 0 <= line < max_line -> after_include s ->
  exists r s', enter_included_file dos sp file line s = Some (r, s') /\
    hist_inv s' (named LC_ENTER file) ((f, l) :: below) line
      (filter (fun g => g_loc g <> highest_line s) h).
Proof.
  intros Hi Hroom Hd Hl Hai. pose proof Hi as [Hwf (m & off & Hcur & Hline) Hch [Hd1 _] [Hn1 Hn2] Hg].
  destruct (given_back_spec s m off f below l h Hi Hcur Hroom Hai) as (Hr & Hnext & Hch' & Hg').
  destruct (add_enter dos (given_back s) sp file line Hr) as (c & Hc & E). do 2 eexists. split; [exact E|].
  pose proof (cur_bits _ _ _ Hcur) as [? ?].
  assert (line_at_next_map (given_back s) = l) as <-.
  { unfold line_at_next_map. rewrite last_index_last, Hnext.
    change (ordinary (given_back s)) with (ordinary s). rewrite (cur_map _ _ _ Hcur), <- Hline.
    by apply line_number. }
  apply (hist_enter (given_back s) m); try done; [apply Hcur|lia].
Qed.

Lemma chain_top s f below m : chain s (pred (length (ordinary s))) f below ->
  ordinary s !! pred (length (ordinary s)) = Some m -> to_file m = f.
Proof. destruct below as [|[? ?] ?]; intros (m' & Hm' & Hf & _) Hm; congruence. Qed.

(** A map of the same file, put after the last one. *)
Lemma chain_snoc s s' f below file m m' : evolves s s' ->
  chain s (pred (length (ordinary s))) f below -> ordinary s !! pred (length (ordinary s)) = Some m ->
  ordinary s' !! pred (length (ordinary s')) = Some m' -> included_from m' = included_from m ->
  to_file m' = file -> start_location m <= start_location m' <= highest_location s' ->
  chain s' (pred (length (ordinary s'))) file below.
Proof.
  intros Hev Hch Hm Hm' Hi Hf Hst. apply (chain_evolves s s' Hev) in Hch.
  destruct (ev_lookup _ _ _ _ Hev Hm) as (m2 & Hm2 & Hst2 & _ & _ & Hi2 & _).
  destruct below as [|[f' l'] below]; destruct Hch as (m3 & Hm3 & _ & _ & Hrest); exists m';
    assert (m3 = m2) as -> by congruence; (split; [done|]; split; [done|]; split; [lia|]).
  - congruence.
  - destruct Hrest as (Hinc & Hrest). rewrite Hi, <- Hi2. split; [lia|exact Hrest].
Qed.

Lemma step_rename s f below l h rsn sp file line : hist_inv s f below l h -> room s ->
  rsn = LC_RENAME \/ rsn = LC_RENAME_VERBATIM -> 0 <= line < max_line -> named rsn file <> Some [] ->
  exists r s', linemap_add dos rsn sp file line s = Some (r, s') /\
    hist_inv s' (named rsn file) below line h.
Proof.
  intros Hi Hroom Hrsn Hl Hne. pose proof (hist_ready _ _ _ _ _ Hi Hroom) as Hr.
  destruct Hi as [Hwf (m & off & Hcur & _) Hch [Hd1 Hd2] [Hn1 Hn2] Hg].
  pose proof (cur_map _ _ _ Hcur) as Hm. destruct (ready_start s Hr).
  destruct (add_rename dos s rsn sp file line m Hr Hrsn Hm) as (c & Hc & E). do 2 eexists. split; [exact E|].
  apply hist_add; try done.
  eapply (chain_snoc s); [by apply add_evolves|exact Hch|exact Hm|apply add_state_last|done|done|].
  pose proof (ready_starts s Hr _ _ Hm). cbn. lia.
Qed.

Lemma step_leave s f f' l' below l h sp line : hist_inv s f ((f', l') :: below) l h -> room s ->
  0 <= l' < max_line ->
  exists r s', linemap_add dos LC_LEAVE sp None line s = Some (r, s') /\ hist_inv s' f' below l' h.
Proof.
  intros Hi Hroom Hl. pose proof (hist_ready _ _ _ _ _ Hi Hroom) as Hr.
  destruct Hi as [Hwf (m & off & Hcur & _) Hch [Hd1 Hd2] [Hn1 Hn2] Hg].
  pose proof (cur_map _ _ _ Hcur) as Hm. destruct (ready_start s Hr).
  destruct Hch as (m' & Hm' & Hf & Hst & Hinc & j & mj & next & Ho & Hmj & Hnext & Hline & Hch).
  assert (m' = m) as -> by congruence. apply Forall_cons_1 in Hn2 as [Hf' Hbel].
  destruct (add_leave dos s sp line m j mj next) as (c & Hc & E); try done; [lia|lia|].
  assert (to_file mj = f') as Hfj
    by (destruct below as [|[? ?] ?]; destruct Hch as (m2 & ? & ? & _); congruence).
  rewrite Hline, Hfj in E. do 2 eexists. split; [exact E|]. cbn [length] in Hd1.
  apply hist_add; try done; [lia|lia|].
  pose proof (ready_starts s Hr _ _ Hmj).
  assert (evolves s (add_state s LC_LEAVE (sysp mj) f' l' (included_from mj) (depth s - 1) c)) as Hev
    by (by apply add_evolves).
  apply (chain_evolves _ _ Hev) in Hch.
  destruct below as [|[f2 l2] below]; destruct Hch as (m2 & Hm2 & _ & _ & Hrest);
    rewrite (add_state_previous _ _ _ _ _ _ _ _ _ _ Hmj) in Hm2; simplify_eq;
    eexists; (split; [apply add_state_last|]; split; [done|]; split; [cbn; lia|]); [done|].
  destruct Hrest as (Hinc2 & Hrest). split; [|exact Hrest]. cbn. lia.
Qed.

(** The current map after lines and columns were recorded in the file. *)
Lemma hist_same_file s s' f below l h m m' offset line : hist_inv s f below l h ->
  ordinary s !! pred (length (ordinary s)) = Some m -> wf_maps s' -> evolves s s' ->
  depth s' = depth s -> current s' m' offset -> to_file m' = to_file m ->
  included_from m' = included_from m -> to_line m' + offset = line ->
  hist_inv s' f below line h.
Proof.
  intros [Hwf _ Hch Hd Hn Hg] Hm Hwf' Hev Hdep Hc' Hf Hi Hl. pose proof (cur_map _ _ _ Hc') as Hm'.
  split; [done|by eauto| |by rewrite Hdep|done|].
  - eapply (chain_snoc s); [done|exact Hch|exact Hm|exact Hm'|done| |].
    + rewrite Hf. by eapply chain_top.
    + destruct (ev_lookup _ _ _ _ Hev Hm) as (m2 & Hm2 & <- & _).
      pose proof (last_starts s' m' _ m2 Hwf' Hm' Hm2). pose proof (cur_highest _ _ _ Hc').
      pose proof (cur_line _ _ _ Hc'). pose proof (cur_offset _ _ _ Hc').
      pose proof (cur_bits _ _ _ Hc'). pose proof (pow2_gt0 (m_column_and_range_bits m') ltac:(lia)). nia.
  - eapply Forall_impl; [exact Hg|]. intros g. by apply given_evolves.
Qed.

Lemma step_line s f below l h line hint : hist_inv s f below l h -> room s -> 0 <= line < max_line ->
  line - l <= max_jump -> 0 <= hint < 2 ^ 32 ->
  exists r s', linemap_line_start dos line hint s = Some (r, s') /\
    hist_inv s' f below line (mk_given r f line 0 (highest_location s) :: h).
Proof.
  intros Hi Hroom Hl Hjump Hhint.
  pose proof Hi as [Hwf (m & off & Hcur & Hline) Hch [Hd1 Hd2] [Hn1 Hn2] Hg].
  pose proof (cur_map _ _ _ Hcur) as Hm. pose proof (chain_top _ _ _ _ Hch Hm) as Hf.
  destruct (linemap_line_start_spec s m off line hint)
    as (r & s' & E & [Hwf' Hev Hdep (m' & off' & Hc' & Hf' & Hi' & _ & _ & _ & Hr & Hl' & Hle)]);
    try done; [unfold max_depth in *; lia|by rewrite Hf|lia|].
  exists r, s'. split; [done|].
  pose proof (hist_same_file s s' f below l h m m' off' line Hi Hm Hwf' Hev Hdep Hc' Hf' Hi' Hl')
    as [Hwf2 Hcur2 Hch2 Hdp2 Hn3 Hg2].
  split; try done. apply Forall_cons_2; [|done]. split; [done|]. cbn [g_loc g_file g_line].
  pose proof (cur_map _ _ _ Hc') as Hm'. exists (pred (length (ordinary s'))), m', 0. split_and!; try done.
  - apply (last_owner s' m'); [done|done|]. rewrite Hr, (cur_line _ _ _ Hc').
    pose proof (cur_offset _ _ _ Hc'). pose proof (cur_bits _ _ _ Hc').
    pose proof (pow2_gt0 (m_column_and_range_bits m') ltac:(lia)). nia.
  - by rewrite Hf'.
  - rewrite Hr, <- Hl'. by apply line_decodes.
  - by left.
Qed.

Lemma step_column s f below l h column : hist_inv s f below l h -> room s -> 0 <= column < 2 ^ 31 ->
  exists r s', linemap_position_for_column dos column s = Some (r, s') /\
    hist_inv s' f below l (mk_given r f l column (highest_location s) :: h).
Proof.
  intros Hi Hroom Hcol. pose proof Hi as [Hwf (m & off & Hcur & Hline) Hch [Hd1 Hd2] [Hn1 Hn2] Hg].
  pose proof (cur_map _ _ _ Hcur) as Hm. pose proof (chain_top _ _ _ _ Hch Hm) as Hf.
  destruct (linemap_position_for_column_spec s m off column)
    as (r & s' & E & [Hwf' Hev Hdep (m' & off' & Hc' & Hf' & Hi' & Hl' & Hr & c & Hdec & Hkept)]);
    try done; [unfold max_depth in *; lia|by rewrite Hf|].
  exists r, s'. split; [done|].
  pose proof (hist_same_file s s' f below l h m m' off' l Hi Hm Hwf' Hev Hdep Hc' Hf' Hi' ltac:(lia))
    as [Hwf2 Hcur2 Hch2 Hdp2 Hn3 Hg2].
  split; try done. apply Forall_cons_2; [|done]. split; [apply Hr|]. cbn [g_loc g_file g_line].
  pose proof (cur_map _ _ _ Hc') as Hm'. exists (pred (length (ordinary s'))), m', c. split_and!; try done.
  - by apply (last_owner s' m'); [| |lia].
  - by rewrite Hf'.
  - by rewrite <- Hline.
Qed.

Lemma history_inv s f below l h : history s f below l h -> hist_inv s f below l h.
Proof.
  induction 1 as [b bits sp file line r s Hb Hl E|s f below l h sp file line r s' _ IH Hroom Hd Hl E
    |s f below l h sp file line r s' _ IH Hroom Hd Hl Ha E|s f below l h rsn sp file line r s' _ IH Hroom Hrsn Hl Hn E
    |s f f' l' below l h sp line r s' _ IH Hroom Hl E|s f below l h line hint r s' _ IH Hroom Hl Hj Hh E
    |s f below l h column r s' _ IH Hroom Hcol E].
  - destruct (step_main b bits sp file line) as (r' & s' & E' & ?); [done..|]. congruence.
  - destruct (step_enter s f below l h sp file line) as (r1 & s1 & E' & ?); [done..|]. congruence.
  - destruct (step_include s f below l h sp file line) as (r1 & s1 & E' & ?); [done..|]. congruence.
  - destruct (step_rename s f below l h rsn sp file line) as (r1 & s1 & E' & ?); [done..|]. congruence.
  - destruct (step_leave s f f' l' below l h sp line) as (r1 & s1 & E' & ?); [done..|]. congruence.
  - destruct (step_line s f below l h line hint) as (r1 & s1 & E' & ?); [done..|]. congruence.
  - destruct (step_column s f below l h column) as (r1 & s1 & E' & ?); [done..|]. congruence.
Qed.

(** The file, line and column of a location. *)
Definition expand_loc (loc : location_t) : LM expanded_location :=
  map ←l linemap_lookup loc ;; linemap_expand_location map loc.

End host.

(** A file that includes another. *)
Definition state_of {A} (x : option (A * line_maps)) : line_maps :=
  match x with Some (_, s) => s | None => linemap_init 0 end.
Definition value_of {A} (d : A) (x : option (A * line_maps)) : A :=
  match x with Some (v, _) => v | None => d end.

Definition sample_1 : line_maps :=
  Eval vm_compute in state_of (linemap_add false LC_ENTER 0 (Some (bytes "a.c")) 1 (with_range_bits 5 (linemap_init 1))).
Definition sample_2 : line_maps :=
  Eval vm_compute in state_of (linemap_line_start false 1 80 sample_1).
Definition sample_3 : line_maps :=
  Eval vm_compute in state_of (linemap_position_for_column false 9 sample_2).
Definition sample_4 : line_maps :=
  Eval vm_compute in state_of (linemap_line_start false 2 200 sample_3).
Definition sample_5 : line_maps :=
  Eval vm_compute in state_of (enter_included_file false 1 (Some (bytes "b.h")) 1 sample_4).
Definition sample_6 : line_maps :=
  Eval vm_compute in state_of (linemap_line_start false 1 80 sample_5).
Definition sample_7 : line_maps :=
  Eval vm_compute in state_of (linemap_position_for_column false 3 sample_6).
Definition sample_8 : line_maps :=
  Eval vm_compute in state_of (linemap_add false LC_LEAVE 0 None 0 sample_7).
Definition sample_9 : line_maps :=
  Eval vm_compute in state_of (linemap_position_for_column false 7 sample_8).

Definition first_column : location_t :=
  Eval vm_compute in value_of 0 (linemap_position_for_column false 9 sample_2).

Ltac history_step := vm_compute; reflexivity.

Lemma sample_history : exists h,
  history false sample_9 (Some (bytes "a.c")) [] 2 h /\
  mk_given first_column (Some (bytes "a.c")) 1 9 (highest_location sample_2) ∈ h.
Proof.
  pose proof (h_main false 1 5 0 (Some (bytes "a.c")) 1 (Some 0%nat) sample_1 ltac:(lia) ltac:(vm_compute; split; congruence)
    ltac:(history_step)) as H1.
  pose proof (h_line false _ _ _ _ _ 1 80 (value_of 0 (linemap_line_start false 1 80 sample_1)) sample_2
    H1 ltac:(history_step) ltac:(vm_compute; split; congruence) ltac:(vm_compute; congruence) ltac:(lia) ltac:(history_step)) as H2.
  pose proof (h_column false _ _ _ _ _ 9 first_column sample_3 H2 ltac:(history_step) ltac:(lia)
    ltac:(history_step)) as H3.
  pose proof (h_line false _ _ _ _ _ 2 200 (value_of 0 (linemap_line_start false 2 200 sample_3)) sample_4
    H3 ltac:(history_step) ltac:(vm_compute; split; congruence) ltac:(vm_compute; congruence) ltac:(lia) ltac:(history_step)) as H4.
  assert (after_include sample_4) as Hai.
  { split; [by vm_compute|]. eexists. split; [by vm_compute|]. split; [by vm_compute|]. left. by vm_compute. }
  pose proof (h_include false _ _ _ _ _ 1 (Some (bytes "b.h")) 1 (Some 1%nat) sample_5 H4 ltac:(history_step)
    ltac:(vm_compute; congruence) ltac:(vm_compute; split; congruence) Hai ltac:(history_step)) as H5.
  pose proof (h_line false _ _ _ _ _ 1 80 (value_of 0 (linemap_line_start false 1 80 sample_5)) sample_6
    H5 ltac:(history_step) ltac:(vm_compute; split; congruence) ltac:(vm_compute; congruence) ltac:(lia) ltac:(history_step)) as H6.
  pose proof (h_column false _ _ _ _ _ 3 (value_of 0 (linemap_position_for_column false 3 sample_6)) sample_7 H6
    ltac:(history_step) ltac:(lia) ltac:(history_step)) as H7.
  pose proof (h_leave false _ _ _ _ _ _ _ 0 0 (Some 2%nat) sample_8 H7 ltac:(history_step)
    ltac:(vm_compute; split; congruence) ltac:(history_step)) as H8.
  pose proof (h_column false _ _ _ _ _ 7 (value_of 0 (linemap_position_for_column false 7 sample_8)) sample_9 H8
    ltac:(history_step) ltac:(lia) ltac:(history_step)) as H9.
  eexists. split; [exact H9|]. do 3 right. apply list_elem_of_filter. split; [by vm_compute|]. right. left.
Qed.


(** Leaving the main file. *)
Lemma leave_main dos s sp line m : ready s -> ordinary s !! pred (length (ordinary s)) = Some m ->
  included_from m = 0 ->
  linemap_add dos LC_LEAVE sp None line s = Some (None, set_depth (u32 (depth s - 1)) s).
Proof.
  intros Hr Hm Hi. assert (ordinary s <> []) by (intros E; by rewrite E in Hm).
  unfold linemap_add. rewrite !lbind_get. rewrite add_prefix by first [exact Hr|done].
  rewrite bool_decide_eq_true_2 by done. rewrite lbind_assoc, (last_index_some _ _ m) by done.
  rewrite lbind_assoc, (ordinary_at_some _ m) by done. rewrite lbind_ret. unfold MAIN_FILE_P. by rewrite Hi.
Qed.

(** C31: In every state of such a history, as long as locations are left, each
    operation succeeds: no map is read outside the arrays, none of the
    assertions of line-map.c fails, and leaving an included file always finds
    the file to return to. *)
Theorem line_table_safe (dos : bool) (s : line_maps) (f : option (list byte))
    (below : list (option (list byte) * Z)) (l : Z) (h : list given) :
  history dos s f below l h -> room s ->
  (forall line hint, 0 <= line < max_line -> line - l <= max_jump -> 0 <= hint < 2 ^ 32 ->
    is_Some (linemap_line_start dos line hint s)) /\
  (forall column, 0 <= column < 2 ^ 31 -> is_Some (linemap_position_for_column dos column s)) /\
  (forall sp file line, Z.of_nat (length below) < max_depth -> 0 <= line < max_line ->
    is_Some (linemap_add dos LC_ENTER sp file line s) /\
    (after_include s -> is_Some (enter_included_file dos sp file line s))) /\
  (forall sp file line, 0 <= line < max_line -> file <> Some [] ->
    is_Some (linemap_add dos LC_RENAME sp file line s)) /\
  (forall sp line, Forall (fun p => 0 <= snd p < max_line) below ->
    is_Some (linemap_add dos LC_LEAVE sp None line s)).
Proof.
  intros Hist Hroom. pose proof (history_inv _ _ _ _ _ _ Hist) as Hi. split_and!.
  - intros line hint H1 H2 H3. destruct (step_line dos s f below l h line hint) as (r & s' & -> & _); done.
  - intros column H1. destruct (step_column dos s f below l h column) as (r & s' & -> & _); done.
  - intros sp file line H1 H2. split.
    + destruct (step_enter dos s f below l h sp file line) as (r & s' & -> & _); done.
    + intros H3. destruct (step_include dos s f below l h sp file line) as (r & s' & -> & _); done.
  - intros sp file line H1 H2.
    destruct (step_rename dos s f below l h LC_RENAME sp file line) as (r & s' & -> & _); try done; [by left|].
    unfold named. by rewrite bool_decide_eq_false_2.
  - intros sp line Hb. destruct below as [|[f' l'] below].
    + pose proof (hist_ready _ _ _ _ _ Hi Hroom) as Hr. destruct (hi_chain _ _ _ _ _ Hi) as (m & Hm & _ & _ & Hinc).
      by rewrite (leave_main dos s sp line m Hr Hm Hinc).
    + apply Forall_cons_1 in Hb as [Hl' _].
      destruct (step_leave dos s f f' l' below l h sp line) as (r & s' & -> & _); done.
Qed.

Lemma line_table_safe_witness :
  is_Some (linemap_line_start false 3 80 sample_9) /\ is_Some (linemap_position_for_column false 40 sample_9) /\
  is_Some (linemap_add false LC_LEAVE 0 None 0 sample_9).
Proof.
  destruct sample_history as (h & Hh & _).
  destruct (line_table_safe false sample_9 _ _ _ _ Hh ltac:(by vm_compute)) as (H1 & H2 & _ & _ & H5).
  split; [apply H1; by vm_compute|]. split; [apply H2; lia|]. apply H5. by apply Forall_nil_2.
Defined.

(** Without a bound on the jump from one line to the next the meaning is
    lost: when [linemap_line_start] reuses a map for a line far below it, the
    test for overflow ignores the start of the map, the sum wraps, and the
    location returned is one of an earlier map.  Line 1048577 of a.c gets a
    location that expands to line 1. *)
Theorem far_line_wraps :
  exists r s' x s'', linemap_line_start false 1048577 80 sample_9 = Some (r, s') /\
    r < highest_location sample_9 /\
    expand_loc r s' = Some (x, s'') /\ x_file x = Some (bytes "a.c") /\ x_line x = 1.
Proof. do 4 eexists. split; [by vm_compute|]. split; [by vm_compute|]. split; [by vm_compute|]. done. Qed.
