(* ===== verification/LineRes.v ===== *)
(** * The line table: look-up, macro expansions and ad-hoc locations

    The binary searches with their caches against linear counts; the macro
    maps, whose tokens refer to older locations, so that resolving a location
    ends; and the round trip of a location with its range and client data
    through one 32-bit number. *)

From Stdlib Require Import ZArith Lia Bool String.
From stdpp Require Import base tactics list numbers strings.
From S2P Require Import Prelude Stream LineMap LineHist.

Local Open Scope Z_scope.

(** ** Counting instead of searching *)

(** In a list in which a property holds of an initial part only, the part is
    as long as the number of elements with the property. *)
Lemma initial_count {A} (P : A -> Prop) `{forall x, Decision (P x)} (l : list A) :
  (forall i j x y, (i < j)%nat -> l !! i = Some x -> l !! j = Some y -> P y -> P x) ->
  forall j x, l !! j = Some x -> P x <-> (j < length (filter P l))%nat.
Proof.
  induction l as [|a l IH]; intros Hmono j x Hj; [done|]. rewrite filter_cons.
  assert (forall i j x y, (i < j)%nat -> l !! i = Some x -> l !! j = Some y -> P y -> P x) as Hl.
  { intros i k y z Hik Hi Hk. apply (Hmono (S i) (S k)); [lia|done|done]. }
  destruct j as [|j]; simpl in Hj.
  - injection Hj as ->. case_decide; simpl; [split; [lia|done]|].
    split; [done|]. destruct (filter P l) as [|y k] eqn:E; simpl; [lia|].
    assert (y ∈ filter P l) as [Hy [n Hn]%list_elem_of_lookup]%list_elem_of_filter by (rewrite E; left).
    exfalso. apply H0. by apply (Hmono 0%nat (S n) x y); [lia|..].
  - rewrite (IH Hl j x Hj). case_decide as Ha; simpl; [lia|].
    assert (filter P l = []) as ->; [|simpl; lia].
    destruct (filter P l) as [|y k] eqn:E; [done|].
    assert (y ∈ filter P l) as [Hy [n Hn]%list_elem_of_lookup]%list_elem_of_filter by (rewrite E; left).
    exfalso. apply Ha. by apply (Hmono 0%nat (S n) a y); [lia|..].
Qed.

(** The map of an ordinary location by a linear scan: the last that does not
    start above it. *)
Definition ordinary_scan (maps : list line_map_ordinary) (loc : location_t) : nat :=
  pred (length (filter (fun m => start_location m <= loc) maps)).

Lemma owner_scan maps loc i : sorted_starts maps -> owner maps loc i -> i = ordinary_scan maps loc.
Proof.
  intros Hs (m & Hm & Hle & Hn). unfold ordinary_scan.
  pose proof (initial_count (fun m => start_location m <= loc) maps) as Hc.
  assert (forall j x, maps !! j = Some x ->
    start_location x <= loc <->
      (j < length (filter (fun m => (start_location m <= loc)%Z) maps))%nat) as Hcount.
  { apply Hc. intros a b x y Hab Hx Hy Hly. pose proof (Hs a b x y Hab Hx Hy). lia. }
  pose proof (proj1 (Hcount i m Hm) Hle).
  destruct (maps !! S i) as [m'|] eqn:E.
  - specialize (Hn m' eq_refl). pose proof (Hcount (S i) m' E). lia.
  - apply lookup_ge_None in E. pose proof (length_filter (fun m => start_location m <= loc) maps). lia.
Qed.

(** ** Macro maps *)

(** The macro maps fill the locations from the top downwards, without gaps. *)
Definition above (ms : list line_map_macro) (i : nat) : location_t :=
  match i with
  | O => MAX_LOCATION_T + 1
  | S i => match ms !! i with Some m => macro_start m | None => 0 end
  end.

Record wf_macros (ms : list line_map_macro) : Prop := {
  wc_adjacent : forall i m, ms !! i = Some m -> macro_start m + n_tokens m = above ms i;
  wc_tokens : forall i m, ms !! i = Some m -> 0 <= n_tokens m;
  wc_low : forall i m, ms !! i = Some m -> LINE_MAP_MAX_LOCATION <= macro_start m;
  wc_locations : forall i m, ms !! i = Some m -> Z.of_nat (length (macro_locations m)) = 2 * n_tokens m
}.

Lemma macros_decrease ms i j mi mj : wf_macros ms -> (i < j)%nat -> ms !! i = Some mi -> ms !! j = Some mj ->
  macro_start mj + n_tokens mj <= macro_start mi.
Proof.
  intros Hwf Hij Hi. revert mj. induction Hij as [|j Hij IH]; intros mj Hj.
  - pose proof (wc_adjacent _ Hwf _ _ Hj) as E. cbn [above] in E. rewrite Hi in E. lia.
  - destruct (lookup_lt_is_Some_2 ms j) as [mp Hp]; [apply lookup_lt_Some in Hj; lia|].
    specialize (IH mp Hp). pose proof (wc_adjacent _ Hwf _ _ Hj) as E. cbn [above] in E. rewrite Hp in E.
    pose proof (wc_tokens _ Hwf _ _ Hp). lia.
Qed.

(** The map of a virtual location: as many maps start above it as come before
    that map. *)
Definition macro_scan (ms : list line_map_macro) (loc : location_t) : nat :=
  length (filter (fun m => loc < macro_start m) ms).

Lemma macro_scan_spec ms loc j m : wf_macros ms -> ms !! j = Some m ->
  loc < macro_start m <-> (j < macro_scan ms loc)%nat.
Proof.
  intros Hwf. apply (initial_count (fun m => loc < macro_start m)).
  intros a b x y Hab Hx Hy Hlt. pose proof (macros_decrease _ _ _ _ _ Hwf Hab Hx Hy).
  pose proof (wc_tokens _ Hwf _ _ Hy). lia.
Qed.

Lemma macro_search_scan ms loc : wf_macros ms -> forall fuel mn mx,
  (mn <= macro_scan ms loc <= mx)%nat -> (mx <= length ms)%nat -> (macro_scan ms loc < length ms)%nat ->
  (mx - mn < fuel)%nat -> macro_search fuel ms loc mn mx = Some (macro_scan ms loc).
Proof.
  intros Hwf. induction fuel as [|fuel IH]; intros mn mx Ht Hmx Hlen Hf; [lia|]. cbn [macro_search].
  destruct (Nat.ltb_spec mn mx) as [Hlt|Hge]; [|f_equal; lia].
  pose proof (Nat.div2_odd (mx + mn)). pose proof (Nat.b2n_le_1 (Nat.odd (mx + mn))).
  set (md := Nat.div2 (mx + mn)) in *.
  destruct (lookup_lt_is_Some_2 ms md) as [m Hm]; [lia|]. rewrite Hm.
  pose proof (macro_scan_spec ms loc md m Hwf Hm).
  destruct (Z.ltb_spec loc (macro_start m)); apply IH; lia.
Qed.

Lemma lowest_spec s : wf_macros (macros s) -> macros s <> [] ->
  exists m, macros s !! pred (length (macros s)) = Some m /\
    LINEMAPS_MACRO_LOWEST_LOCATION s = macro_start m.
Proof.
  intros Hwf Hne. unfold LINEMAPS_MACRO_LOWEST_LOCATION. rewrite last_index_last.
  destruct (lookup_lt_is_Some_2 (macros s) (pred (length (macros s)))) as [m Hm].
  { destruct (macros s); [done|]. simpl. lia. }
  rewrite Hm. eauto.
Qed.

(** A virtual location that was given out. *)
Definition virtual (s : line_maps) (loc : location_t) : Prop :=
  LINEMAPS_MACRO_LOWEST_LOCATION s <= loc <= MAX_LOCATION_T.

Lemma scan_covers s loc : wf_macros (macros s) -> virtual s loc ->
  exists m, macros s !! macro_scan (macros s) loc = Some m /\
    macro_start m <= loc < macro_start m + n_tokens m.
Proof.
  intros Hwf [Hlo Hhi]. assert (macros s <> []) as Hne.
  { intros E. unfold LINEMAPS_MACRO_LOWEST_LOCATION in Hlo. rewrite E in Hlo. simpl in Hlo.
    unfold MAX_LOCATION_T in *. lia. }
  destruct (lowest_spec s Hwf Hne) as (ml & Hml & E). rewrite E in Hlo.
  pose proof (macro_scan_spec _ loc _ _ Hwf Hml) as Hl. apply lookup_lt_Some in Hml as Hlen.
  destruct (lookup_lt_is_Some_2 (macros s) (macro_scan (macros s) loc)) as [m Hm]; [lia|].
  exists m. split; [done|]. pose proof (macro_scan_spec _ loc _ _ Hwf Hm) as Hs.
  pose proof (wc_adjacent _ Hwf _ _ Hm) as Ha. split; [lia|]. rewrite Ha.
  destruct (macro_scan (macros s) loc) as [|p] eqn:Ep; cbn [above]; [unfold MAX_LOCATION_T in *; lia|].
  destruct (lookup_lt_is_Some_2 (macros s) p) as [mp Hp]; [lia|]. rewrite Hp.
  pose proof (macro_scan_spec _ loc _ _ Hwf Hp). lia.
Qed.

Lemma macro_lookup_spec s loc : wf_macros (macros s) -> (macro_cache s < length (macros s))%nat ->
  virtual s loc ->
  exists c, (c < length (macros s))%nat /\
    linemap_macro_map_lookup loc s = Some (macro_scan (macros s) loc, set_macro_cache c s).
Proof.
  intros Hwf Hc Hv. destruct (scan_covers s loc Hwf Hv) as (m & Hm & Hcov).
  pose proof (lookup_lt_Some _ _ _ Hm) as Hlen. destruct Hv as [Hlo Hhi].
  unfold linemap_macro_map_lookup. rewrite strip_adhoc_plain by (unfold IS_ADHOC_LOC; lia).
  rewrite lbind_get, lbind_assert by lia. rewrite !lbind_get.
  destruct (lookup_lt_is_Some_2 (macros s) (macro_cache s) Hc) as [cm Hcm].
  rewrite (macro_at_some _ cm) by done.
  assert (forall mn mx, (mn <= macro_scan (macros s) loc <= mx)%nat -> (mx <= length (macros s))%nat ->
    lbind (lopt (macro_search (S (length (macros s))) (macros s) loc mn mx)) (fun mx =>
      lbind (lmod (set_macro_cache mx)) (fun _ => lbind (macro_at mx) (fun result =>
        lbind (linemap_assert (macro_start result <=? loc)) (fun _ => lret mx)))) s
    = Some (macro_scan (macros s) loc, set_macro_cache (macro_scan (macros s) loc) s)) as Hsearch.
  { intros mn mx H1 H2. rewrite (lbind_opt _ (macro_scan (macros s) loc)) by (apply macro_search_scan; first [done|lia]).
    rewrite lbind_mod, (macro_at_some _ m) by done. by rewrite lbind_assert by lia. }
  assert (s = set_macro_cache (macro_cache s) s) as Hself by (by destruct s).
  pose proof (macro_scan_spec _ loc _ _ Hwf Hcm) as Hcs.
  destruct (Z.leb_spec (macro_start cm) loc) as [Hle|Hgt].
  - destruct (macro_cache s) as [|p] eqn:Ep.
    + exists 0%nat. split; [done|]. rewrite <- Hself. replace (macro_scan (macros s) loc) with 0%nat by lia. done.
    + destruct (lookup_lt_is_Some_2 (macros s) p) as [mp Hp]; [lia|]. rewrite (macro_at_some _ mp) by done.
      pose proof (macro_scan_spec _ loc _ _ Hwf Hp) as Hps. destruct (Z.ltb_spec loc (macro_start mp)).
      * exists (S p). split; [done|]. rewrite <- Hself. replace (macro_scan (macros s) loc) with (S p) by lia. done.
      * exists (macro_scan (macros s) loc). split; [done|]. apply Hsearch; lia.
  - exists (macro_scan (macros s) loc). split; [done|]. apply Hsearch; lia.
Qed.

(** C27: Look-up is a binary search started from a cache of the last result.
    Whatever the cache holds, it delivers the map a linear scan delivers: for
    an ordinary location the last map that starts at or below it, for a
    virtual one the map whose tokens include it; and it changes nothing but
    the cache. *)
Theorem lookup_is_scan (s : line_maps) (loc : location_t) :
  wf_maps s -> wf_macros (macros s) -> caches_ok s ->
  (forall m0, ordinary s !! 0%nat = Some m0 -> start_location m0 <= loc < LINE_MAP_MAX_LOCATION ->
    exists c, linemap_lookup loc s =
      Some (Some (Ordinary (ordinary_scan (ordinary s) loc)), set_ordinary_cache c s)) /\
  (virtual s loc -> exists c, linemap_lookup loc s =
      Some (Some (Macro (macro_scan (macros s) loc)), set_macro_cache c s) /\
    exists m, macros s !! macro_scan (macros s) loc = Some m /\
      macro_start m <= loc < macro_start m + n_tokens m).
Proof.
  intros Hwf Hwm [_ Hcm]. split.
  - intros m0 H0 Hloc. pose proof (wm_first _ Hwf m0 H0).
    destruct (ordinary_lookup_spec s loc m0) as (i & c & _ & Hi & _);
      [unfold IS_ADHOC_LOC, MAX_LOCATION_T, LINE_MAP_MAX_LOCATION in *; lia|lia|apply Hwf|apply Hwf|done|lia|].
    rewrite <- (owner_scan _ _ _ (wm_sorted _ Hwf) Hi).
    destruct (linemap_lookup_spec s loc i Hwf ltac:(lia) Hi) as (c' & _ & E). by exists c'.
  - intros Hv. pose proof Hv as [Hlo Hhi]. destruct (scan_covers s loc Hwm Hv) as (m & Hm & Hcov).
    destruct Hcm as [E|Hc]; [by rewrite E in Hm|].
    destruct (macro_lookup_spec s loc Hwm Hc Hv) as (c & _ & E). exists c. split; [|by exists m].
    pose proof (wc_low _ Hwm _ _ Hm). assert (IS_ADHOC_LOC loc = false) as Ha by (unfold IS_ADHOC_LOC; lia).
    unfold linemap_lookup. rewrite strip_adhoc_plain by done.
    unfold linemap_location_from_macro_expansion_p. rewrite !lbind_assoc, strip_adhoc_plain by done.
    rewrite lbind_ret. unfold IS_MACRO_LOC, IS_ORDINARY_LOC. rewrite Ha.
    destruct (Z.ltb_spec loc LINE_MAP_MAX_LOCATION); [lia|]. cbn [negb andb]. by rewrite (lbind_some _ _ _ _ _ E).
Qed.

(** ** Resolution *)

(** The location behind an ad-hoc one. *)
Definition stripped (s : line_maps) (x y : location_t) : Prop :=
  IS_ADHOC_LOC y = false /\
  if IS_ADHOC_LOC x then exists a, adhoc s !! Z.to_nat (Z.land x MAX_LOCATION_T) = Some a /\ locus a = y
  else x = y.

(** A location that was given out: reserved, ordinary, or virtual and in a map
    before the [i]-th. *)
Definition older (s : line_maps) (i : nat) (x : location_t) : Prop :=
  exists y, stripped s x y /\ 0 <= y /\
    (y < RESERVED_LOCATION_COUNT \/
     (exists m0, ordinary s !! 0%nat = Some m0 /\ start_location m0 <= y < LINE_MAP_MAX_LOCATION) \/
     above (macros s) i <= y).

(** The tokens of an expansion and the point of expansion are older than the
    expansion, and the point is neither an ad-hoc nor a reserved location. *)
Definition expansion_tree (s : line_maps) : Prop :=
  forall i m, macros s !! i = Some m ->
    Forall (older s i) (macro_locations m) /\ older s i (expansion m) /\
    IS_ADHOC_LOC (expansion m) = false /\ RESERVED_LOCATION_COUNT <= expansion m.

Record sound (s : line_maps) : Prop := {
  so_maps : wf_maps s;
  so_macros : wf_macros (macros s);
  so_caches : caches_ok s;
  so_tree : expansion_tree s
}.

(** States that differ in their caches. *)
Definition recached (s s' : line_maps) : Prop :=
  exists c c', s' = set_ordinary_cache c (set_macro_cache c' s).

Lemma recached_refl s : recached s s.
Proof. exists (ordinary_cache s), (macro_cache s). by destruct s. Qed.

Lemma recached_trans s1 s2 s3 : recached s1 s2 -> recached s2 s3 -> recached s1 s3.
Proof. intros (c & c' & ->) (d & d' & ->). by exists d, d'. Qed.

Lemma sound_recached s c c' : sound s -> (c < length (ordinary s))%nat ->
  macros s = [] \/ (c' < length (macros s))%nat -> sound (set_ordinary_cache c (set_macro_cache c' s)).
Proof.
  intros [[Hs Hc Hf] Hm [_ _] Ht] H1 H2.
  split; [by split|done|split; [by right|done]|exact Ht].
Qed.

Lemma stripped_fun s x y z : stripped s x y -> stripped s x z -> y = z.
Proof. intros [_ H1] [_ H2]. destruct (IS_ADHOC_LOC x); naive_solver congruence. Qed.

Lemma stripped_self s x : IS_ADHOC_LOC x = false -> stripped s x x.
Proof. intros E. split; [done|]. by rewrite E. Qed.

Lemma strip_adhoc_spec {B} x y (f : location_t -> LM B) s : stripped s x y ->
  lbind (strip_adhoc x) f s = f y s.
Proof.
  intros [Hy Hx]. unfold strip_adhoc. destruct (IS_ADHOC_LOC x) eqn:Ha.
  - destruct Hx as (a & Ea & <-). unfold adhoc_at. rewrite !lbind_assoc, lbind_get.
    by rewrite (lbind_opt _ a) by done.
  - by subst.
Qed.

Lemma lookup_stripped s x y : stripped s x y -> linemap_lookup x s = linemap_lookup y s.
Proof.
  intros Hs. unfold linemap_lookup. rewrite (strip_adhoc_spec x y) by done.
  by rewrite (strip_adhoc_spec y y) by (apply stripped_self, Hs).
Qed.

(** How far a location is from the ordinary ones. *)
Definition rank (s : line_maps) (y : location_t) : nat :=
  if y <? LINE_MAP_MAX_LOCATION then 0 else S (macro_scan (macros s) y).

Lemma rank_bound s y : (rank s y <= S (length (macros s)))%nat.
Proof.
  unfold rank, macro_scan. destruct (y <? _); [lia|].
  pose proof (length_filter (fun m => (y < macro_start m)%Z) (macros s)). lia.
Qed.

(** An older location has a lower rank. *)
Lemma older_rank s i x y m : sound s -> macros s !! i = Some m -> older s i x -> stripped s x y ->
  (rank s y <= i)%nat.
Proof.
  intros Hs Hm (y' & Hst & H0 & Hcase) Hy. assert (y' = y) as -> by (by eapply stripped_fun).
  unfold rank. destruct (Z.ltb_spec y LINE_MAP_MAX_LOCATION) as [|Hge]; [lia|].
  destruct Hcase as [?|[(m0 & _ & ?)|Hab]]; [unfold RESERVED_LOCATION_COUNT, LINE_MAP_MAX_LOCATION in *; lia|lia|].
  destruct Hst as [Ha _]. unfold IS_ADHOC_LOC in Ha. apply Z.ltb_ge in Ha.
  destruct i as [|p]; cbn [above] in Hab; [lia|].
  destruct (lookup_lt_is_Some_2 (macros s) p) as [mp Hp]; [apply lookup_lt_Some in Hm; lia|].
  rewrite Hp in Hab. pose proof (macro_scan_spec _ y _ _ (so_macros _ Hs) Hp). lia.
Qed.

Definition known (s : line_maps) (x : location_t) : Prop := older s (length (macros s)) x.

Lemma above_last s : above (macros s) (length (macros s)) = LINEMAPS_MACRO_LOWEST_LOCATION s.
Proof.
  unfold LINEMAPS_MACRO_LOWEST_LOCATION. rewrite last_index_last.
  destruct (macros s) as [|m0 ms] eqn:E; [done|]. cbn [length above]. rewrite <- E. cbn [Nat.pred].
  destruct (macros s !! length ms) as [m|] eqn:E'; [done|]. apply lookup_ge_None in E'.
  rewrite E in E'. simpl in E'. lia.
Qed.

Lemma above_mono ms i j : wf_macros ms -> (i <= j <= length ms)%nat -> above ms j <= above ms i.
Proof.
  intros Hwf [Hij Hj]. induction Hij as [|j Hij IH]; [lia|]. specialize (IH ltac:(lia)).
  destruct (lookup_lt_is_Some_2 ms j) as [m Hm]; [lia|]. cbn [above]. rewrite Hm.
  pose proof (wc_adjacent _ Hwf _ _ Hm). pose proof (wc_tokens _ Hwf _ _ Hm). lia.
Qed.

Lemma older_known s i x m : sound s -> macros s !! i = Some m -> older s i x -> known s x.
Proof.
  intros Hs Hm (y & Hst & H0 & Hcase). exists y. split; [done|]. split; [done|].
  destruct Hcase as [?|[?|Hab]]; [by left|by right; left|right; right].
  pose proof (above_mono _ i (length (macros s)) (so_macros _ Hs)). apply lookup_lt_Some in Hm. lia.
Qed.

(** Look-up of a known location. *)
Lemma lookup_known s x y : sound s -> known s x -> stripped s x y ->
  exists r s', linemap_lookup x s = Some (r, s') /\ recached s s' /\ sound s' /\
    match r with
    | None => y < RESERVED_LOCATION_COUNT
    | Some (Ordinary i) => RESERVED_LOCATION_COUNT <= y < LINE_MAP_MAX_LOCATION /\
        i = ordinary_scan (ordinary s) y /\ (i < length (ordinary s))%nat
    | Some (Macro i) => rank s y = S i /\ exists m, macros s !! i = Some m /\
        macro_start m <= y < macro_start m + n_tokens m
    end.
Proof.
  intros Hs Hk Hst. rewrite (lookup_stripped s x y Hst). destruct Hk as (y' & Hst' & H0 & Hcase).
  assert (y' = y) as -> by (by eapply stripped_fun). clear Hst'. pose proof Hst as [Ha _].
  pose proof Hs as [Hwf Hwm [Hco Hcm] _].
  assert (y <= MAX_LOCATION_T) as Hmax by (unfold IS_ADHOC_LOC in Ha; lia).
  destruct (Z.ltb_spec y RESERVED_LOCATION_COUNT) as [Hres|Hres].
  { exists None, s. split_and!; [|apply recached_refl|done|done].
    unfold linemap_lookup. rewrite strip_adhoc_plain by done.
    unfold linemap_location_from_macro_expansion_p. rewrite lbind_assoc, strip_adhoc_plain, lbind_ret by done.
    unfold IS_MACRO_LOC, IS_ORDINARY_LOC, RESERVED_LOCATION_COUNT, LINE_MAP_MAX_LOCATION in *.
    assert (y <? 0x70000000 = true) as -> by lia. cbn [negb andb].
    unfold linemap_ordinary_map_lookup. rewrite lbind_assoc, strip_adhoc_plain by done.
    unfold RESERVED_LOCATION_COUNT. assert (y <? 2 = true) as -> by lia. done. }
  destruct (Z.ltb_spec y LINE_MAP_MAX_LOCATION) as [Hord|Hmac].
  - destruct Hcase as [?|[(m0 & H0' & Hle)|Hab]]; [lia| |].
    2: { exfalso. rewrite above_last in Hab. destruct (macros s) as [|? ?] eqn:E.
         - unfold LINEMAPS_MACRO_LOWEST_LOCATION in Hab. rewrite E in Hab. simpl in Hab.
           unfold MAX_LOCATION_T, LINE_MAP_MAX_LOCATION in *. lia.
         - rewrite <- E in *. destruct (lowest_spec s Hwm) as (ml & Hml & E'); [by rewrite E|].
           pose proof (wc_low _ Hwm _ _ Hml). lia. }
    destruct (ordinary_lookup_spec s y m0) as (i & c & _ & Hi & _); [done|done|apply Hwf|apply Hwf|done|lia|].
    destruct (linemap_lookup_spec s y i Hwf ltac:(lia) Hi) as (c' & Hc' & E).
    exists (Some (Ordinary i)), (set_ordinary_cache c' s). split; [done|].
    split; [exists c', (macro_cache s); by destruct s|]. split.
    { replace (set_ordinary_cache c' s) with (set_ordinary_cache c' (set_macro_cache (macro_cache s) s)) by (by destruct s).
      by apply sound_recached. }
    split; [done|]. split; [by apply owner_scan; [apply Hwf|]|]. destruct Hi as (? & ?%lookup_lt_Some & _). done.
  - assert (virtual s y) as Hv.
    { split; [|done]. destruct Hcase as [?|[(m0 & _ & ?)|Hab]]; [lia|lia|by rewrite <- above_last]. }
    destruct (scan_covers s y Hwm Hv) as (m & Hm & Hcov). destruct Hcm as [E|Hc]; [by rewrite E in Hm|].
    destruct (macro_lookup_spec s y Hwm Hc Hv) as (c & Hcl & E).
    exists (Some (Macro (macro_scan (macros s) y))), (set_macro_cache c s). split.
    { unfold linemap_lookup. rewrite strip_adhoc_plain by done.
      unfold linemap_location_from_macro_expansion_p. rewrite lbind_assoc, strip_adhoc_plain by done.
      rewrite lbind_ret. unfold IS_MACRO_LOC, IS_ORDINARY_LOC. rewrite Ha.
      destruct (Z.ltb_spec y LINE_MAP_MAX_LOCATION); [lia|]. cbn [negb andb]. by rewrite (lbind_some _ _ _ _ _ E). }
    split; [exists (ordinary_cache s), c; by destruct s|]. split.
    { replace (set_macro_cache c s) with (set_ordinary_cache (ordinary_cache s) (set_macro_cache c s)) by (by destruct s).
      apply sound_recached; [done|apply Hwf|by right]. }
    split; [|by exists m]. unfold rank. destruct (Z.ltb_spec y LINE_MAP_MAX_LOCATION); [lia|done].
Qed.

Lemma covers_true m y : LINE_MAP_MAX_LOCATION <= macro_start m -> y <= MAX_LOCATION_T ->
  macro_start m <= y < macro_start m + n_tokens m ->
  covers m y = true /\ u32 (y - macro_start m) = y - macro_start m.
Proof.
  unfold LINE_MAP_MAX_LOCATION, MAX_LOCATION_T. intros Hl Hm Hy. unfold covers.
  rewrite u32_small by lia. split; [|done]. apply andb_true_iff. split; lia.
Qed.

(** The two locations of a token of a map. *)
Lemma token_location ms i m y k : wf_macros ms -> ms !! i = Some m ->
  macro_start m <= y < macro_start m + n_tokens m -> (k = 0 \/ k = 1) ->
  exists x, macro_locations m !! Z.to_nat (2 * (y - macro_start m) + k) = Some x /\ x ∈ macro_locations m.
Proof.
  intros Hwf Hm Hy Hk. pose proof (wc_locations _ Hwf _ _ Hm).
  destruct (lookup_lt_is_Some_2 (macro_locations m) (Z.to_nat (2 * (y - macro_start m) + k))) as [x Hx]; [lia|].
  exists x. split; [done|]. by eapply list_elem_of_lookup_2.
Qed.

(** One round of the loops: the location a virtual one leads to. *)
Inductive toward : Type := Spelling | Definition_ | Expansion.

Definition leads_to (t : toward) (m : line_map_macro) (y x : location_t) : Prop :=
  match t with
  | Spelling => macro_locations m !! Z.to_nat (2 * (y - macro_start m)) = Some x
  | Definition_ => macro_locations m !! Z.to_nat (2 * (y - macro_start m) + 1) = Some x
  | Expansion => expansion m = x
  end.

Lemma leads_to_older t s i m y : sound s -> macros s !! i = Some m ->
  macro_start m <= y < macro_start m + n_tokens m -> exists x, leads_to t m y x /\ older s i x.
Proof.
  intros Hs Hm Hy. destruct (so_tree _ Hs i m Hm) as (Hlocs & Hexp & _).
  rewrite Forall_forall in Hlocs. destruct t; cbn [leads_to].
  - destruct (token_location _ i m y 0 (so_macros _ Hs) Hm Hy) as (x & Hx & Hin); [by left|].
    rewrite Z.add_0_r in Hx. exists x. split; [done|by apply Hlocs].
  - destruct (token_location _ i m y 1 (so_macros _ Hs) Hm Hy) as (x & Hx & Hin); [by right|].
    exists x. split; [done|by apply Hlocs].
  - by exists (expansion m).
Qed.

Lemma step_location t s m x y z : stripped s x y -> LINE_MAP_MAX_LOCATION <= macro_start m ->
  macro_start m <= y < macro_start m + n_tokens m -> leads_to t m y z ->
  match t with
  | Spelling => linemap_macro_map_loc_unwind_toward_spelling m x s = Some (z, s)
  | Definition_ => linemap_macro_map_loc_to_def_point m y s = Some (z, s)
  | Expansion => linemap_macro_map_loc_to_exp_point m y s = Some (z, s)
  end.
Proof.
  intros Hst Hlow Hy Hz. pose proof Hst as [Ha _]. unfold IS_ADHOC_LOC in Ha. apply Z.ltb_ge in Ha.
  destruct (covers_true m y Hlow Ha Hy) as [Hc Hu].
  assert (RESERVED_LOCATION_COUNT <=? y = true) as Hr
    by (unfold RESERVED_LOCATION_COUNT, LINE_MAP_MAX_LOCATION in *; lia).
  assert (IS_ADHOC_LOC y = false) as Hna by (unfold IS_ADHOC_LOC; lia).
  destruct t; cbn [leads_to] in Hz.
  - unfold linemap_macro_map_loc_unwind_toward_spelling. rewrite (strip_adhoc_spec x y) by done.
    rewrite lbind_assert by (by rewrite Hc, Hr, Hna). rewrite Hu, Hz. done.
  - unfold linemap_macro_map_loc_to_def_point. rewrite lbind_assert by (by rewrite Hc, Hr).
    rewrite Hu, Hz. done.
  - unfold linemap_macro_map_loc_to_exp_point. rewrite lbind_assert by done. by rewrite Hz.
Qed.

(** A location with an ordinary or no map. *)
Definition settled (s : line_maps) (r : location_t) : Prop :=
  exists z, stripped s r z /\ z < LINE_MAP_MAX_LOCATION.

(** What a loop ends with. *)
Definition resolves {A} (s : line_maps) (m : option (location_t * A * line_maps)) : Prop :=
  exists r i s', m = Some (r, i, s') /\ recached s s' /\ sound s' /\ settled s r.

Lemma resolves_recached {A} s s' (m : option (location_t * A * line_maps)) :
  recached s s' -> resolves s' m -> resolves s m.
Proof.
  intros Hr (r & i & s2 & E & Hr2 & Hs & Hset). exists r, i, s2. split; [done|].
  split; [by eapply recached_trans|]. split; [done|]. by destruct Hr as (c & c' & ->).
Qed.

(** The next location, of a lower rank, in the state after the look-up. *)
Lemma next_location t s s' x y i m : sound s -> known s x -> stripped s x y -> recached s s' -> sound s' ->
  rank s y = S i -> macros s !! i = Some m -> macro_start m <= y < macro_start m + n_tokens m ->
  exists z w, leads_to t m y z /\ known s' z /\ stripped s' z w /\ (rank s' w <= i)%nat /\
    stripped s' x y /\ macros s' !! i = Some m /\ LINE_MAP_MAX_LOCATION <= macro_start m.
Proof.
  intros Hs Hk Hst (c & c' & ->) Hs' Hrk Hm Hcov.
  destruct (leads_to_older t s i m y Hs Hm Hcov) as (z & Hz & Hold).
  pose proof Hold as (w & Hw & _). exists z, w. split_and!; try done.
  - by apply (older_known _ i z m).
  - by eapply (older_rank _ i z w m).
  - by apply (wc_low _ (so_macros _ Hs) i).
Qed.

Lemma to_spelling_point_ends fuel : forall s x y, sound s -> known s x -> stripped s x y ->
  (rank s y < fuel)%nat -> resolves s (to_spelling_point fuel x s).
Proof.
  induction fuel as [|fuel IH]; intros s x y Hs Hk Hst Hf; [lia|]. cbn [to_spelling_point].
  destruct (lookup_known s x y Hs Hk Hst) as (r & s' & E & Hr & Hs' & Hcase).
  rewrite (lbind_some _ _ _ _ _ E). destruct r as [[i|i]|].
  - exists x, (Some i), s'. split_and!; try done. exists y. split; [done|apply Hcase].
  - destruct Hcase as (Hrk & m & Hm & Hcov).
    destruct (next_location Spelling s s' x y i m) as (z & w & Hz & Hkz & Hw & Hrw & Hst' & Hm' & Hlow); try done.
    rewrite (macro_at_some _ m) by done.
    rewrite (lbind_some _ _ _ _ _ (step_location Spelling s' m x y z Hst' Hlow Hcov Hz)).
    apply (resolves_recached s s'); [done|]. apply (IH s' z w); [done..|lia].
  - exists x, None, s'. split_and!; try done. exists y. split; [done|].
    unfold RESERVED_LOCATION_COUNT, LINE_MAP_MAX_LOCATION in *. lia.
Qed.

Lemma to_def_point_ends fuel : forall s x y, sound s -> known s x -> stripped s x y ->
  (rank s y < fuel)%nat -> resolves s (to_def_point fuel x s).
Proof.
  induction fuel as [|fuel IH]; intros s x y Hs Hk Hst Hf; [lia|]. cbn [to_def_point].
  rewrite (strip_adhoc_spec x y) by done.
  destruct (lookup_known s x y Hs Hk Hst) as (r & s' & E & Hr & Hs' & Hcase).
  rewrite (lookup_stripped s x y Hst) in E. rewrite (lbind_some _ _ _ _ _ E). destruct r as [[i|i]|].
  - exists x, (Some i), s'. split_and!; try done. exists y. split; [done|apply Hcase].
  - destruct Hcase as (Hrk & m & Hm & Hcov).
    destruct (next_location Definition_ s s' x y i m) as (z & w & Hz & Hkz & Hw & Hrw & Hst' & Hm' & Hlow); try done.
    rewrite (macro_at_some _ m) by done.
    rewrite (lbind_some _ _ _ _ _ (step_location Definition_ s' m x y z Hst' Hlow Hcov Hz)).
    apply (resolves_recached s s'); [done|]. apply (IH s' z w); [done..|lia].
  - exists x, None, s'. split_and!; try done. exists y. split; [done|].
    unfold RESERVED_LOCATION_COUNT, LINE_MAP_MAX_LOCATION in *. lia.
Qed.

(** The topmost expansion point has an ordinary map. *)
Lemma to_exp_point_ends fuel : forall s x, sound s -> known s x -> IS_ADHOC_LOC x = false ->
  RESERVED_LOCATION_COUNT <= x -> (rank s x < fuel)%nat ->
  exists r i s', to_exp_point fuel x s = Some (r, Some (Ordinary i), s') /\ recached s s' /\ sound s' /\
    settled s r /\ (i < length (ordinary s))%nat.
Proof.
  induction fuel as [|fuel IH]; intros s x Hs Hk Ha Hres Hf; [lia|]. cbn [to_exp_point].
  pose proof (stripped_self s x Ha) as Hst.
  destruct (lookup_known s x x Hs Hk Hst) as (r & s' & E & Hr & Hs' & Hcase).
  rewrite (lbind_some _ _ _ _ _ E). destruct r as [[i|i]|]; [| |lia].
  - exists x, i, s'. split_and!; try done; [|apply Hcase]. exists x. split; [done|apply Hcase].
  - destruct Hcase as (Hrk & m & Hm & Hcov).
    destruct (next_location Expansion s s' x x i m) as (z & w & Hz & Hkz & Hw & Hrw & Hst' & Hm' & Hlow); try done.
    rewrite (macro_at_some _ m) by done.
    rewrite (lbind_some _ _ _ _ _ (step_location Expansion s' m x x z Hst' Hlow Hcov Hz)).
    destruct (so_tree _ Hs i m Hm) as (_ & _ & Hexp & Hresz). cbn [leads_to] in Hz. rewrite Hz in *.
    assert (w = z) as -> by (eapply stripped_fun; [exact Hw|by apply stripped_self]).
    destruct (IH s' z) as (r & k & s2 & E2 & Hr2 & Hs2 & Hset & Hk2); [done..|lia|].
    exists r, k, s2. split_and!; [done|by eapply recached_trans|done|by destruct Hr as (c & c' & ->)..].
Qed.

Lemma known_stripped s x y : known s x -> stripped s x y -> known s y.
Proof.
  intros (y' & Hst' & H0 & Hcase) Hst. assert (y' = y) as -> by (by eapply stripped_fun).
  exists y. split; [apply stripped_self, Hst|done].
Qed.

Lemma known_rank s x y : sound s -> known s x -> stripped s x y -> (rank s y < rounds s)%nat.
Proof.
  intros Hs (y' & Hst & H0 & Hcase) Hy. assert (y' = y) as -> by (by eapply stripped_fun).
  unfold rank, rounds. destruct (Z.ltb_spec y LINE_MAP_MAX_LOCATION) as [|Hge]; [lia|].
  destruct (scan_covers s y (so_macros _ Hs)) as (m & Hm%lookup_lt_Some & _); [|lia].
  destruct Hy as [Ha _]. unfold IS_ADHOC_LOC in Ha. apply Z.ltb_ge in Ha. split; [|done].
  rewrite <- above_last.
  destruct Hcase as [?|[(m0 & _ & ?)|Hab]]; [|lia|done].
  unfold RESERVED_LOCATION_COUNT, LINE_MAP_MAX_LOCATION in *. lia.
Qed.

(** The topmost expansion point, from the locus. *)
Lemma loc_to_exp_point_ends s x y w : sound s -> known s x -> stripped s x y ->
  RESERVED_LOCATION_COUNT <= y ->
  exists r i s', linemap_macro_loc_to_exp_point x w s = Some (r, Some i, s') /\ sound s' /\ settled s r /\
    (i < length (ordinary s))%nat /\ ordinary s' = ordinary s.
Proof.
  intros Hs Hk Hst Hres. assert (IS_ADHOC_LOC y = false) as Hay by apply Hst.
  pose proof (known_stripped s x y Hk Hst) as Hky.
  destruct (to_exp_point_ends (rounds s) s y) as (r & i & s' & E & Hr & Hs' & Hset & Hi); try done.
  { apply (known_rank s y y); [done|done|by apply stripped_self]. }
  unfold linemap_macro_loc_to_exp_point. rewrite (strip_adhoc_spec x y) by done.
  rewrite lbind_assert by lia. rewrite lbind_get, (lbind_some _ _ _ _ _ E).
  exists r, i, s'. split_and!; try done. by destruct Hr as (c & c' & ->).
Qed.

(** C33: Resolving any location that was given out ends, whichever kind of
    resolution is asked for: with one round per macro map and one more, the
    chain of expansions is left for a location that is not virtual.  The
    topmost expansion point always has an ordinary map, so its file and line
    are never read through a null pointer. *)
Theorem resolution_ends (s : line_maps) (x : location_t) (lrk : location_resolution_kind) :
  sound s -> known s x ->
  exists r i s', linemap_resolve_location x lrk false s = Some (r, i, s') /\ settled s r /\ sound s' /\
    (forall y, stripped s x y -> RESERVED_LOCATION_COUNT <= y ->
      (exists line s2, linemap_get_expansion_line x s = Some (line, s2)) /\
      exists file s2, linemap_get_expansion_filename x s = Some (file, s2)).
Proof.
  intros Hs Hk. pose proof Hk as (y & Hst & H0 & _). pose proof (known_rank s x y Hs Hk Hst) as Hrank.
  assert (RESERVED_LOCATION_COUNT <= y -> RESERVED_LOCATION_COUNT <= x) as Hx.
  { destruct Hst as [_ Hst]. destruct (IS_ADHOC_LOC x) eqn:Ha; [|by subst].
    unfold IS_ADHOC_LOC, MAX_LOCATION_T, RESERVED_LOCATION_COUNT in *. lia. }
  assert (forall y', stripped s x y' -> RESERVED_LOCATION_COUNT <= y' ->
    (exists line s2, linemap_get_expansion_line x s = Some (line, s2)) /\
    exists file s2, linemap_get_expansion_filename x s = Some (file, s2)) as Hlines.
  { intros y' Hst' Hres. assert (y' = y) as -> by (by eapply stripped_fun).
    destruct (loc_to_exp_point_ends s y y true Hs) as (r & i & s' & E & _ & _ & Hi & Ho);
      [by eapply known_stripped|apply stripped_self, Hst|done|].
    destruct (lookup_lt_is_Some_2 (ordinary s) i Hi) as [m Hm].
    unfold linemap_get_expansion_line, linemap_get_expansion_filename.
    rewrite !(strip_adhoc_spec x y) by done. destruct (Z.ltb_spec y RESERVED_LOCATION_COUNT); [lia|].
    rewrite !(lbind_some _ _ _ _ _ E). cbn [snd]. rewrite !(lbind_opt _ i) by done.
    rewrite !(ordinary_at_some _ m) by (by rewrite Ho). split; do 2 eexists; done. }
  unfold linemap_resolve_location. rewrite (strip_adhoc_spec x y) by done.
  destruct (Z.ltb_spec y RESERVED_LOCATION_COUNT) as [Hlt|Hge].
  { exists x, None, s. split_and!; try done. exists y. split; [done|].
    unfold RESERVED_LOCATION_COUNT, LINE_MAP_MAX_LOCATION in *. lia. }
  destruct lrk.
  - destruct (loc_to_exp_point_ends s x y false Hs Hk Hst Hge) as (r & i & s' & E & Hs' & Hset & _).
    exists r, (Some i), s'. by split_and!.
  - destruct (to_spelling_point_ends (rounds s) s x y Hs Hk Hst Hrank) as (r & i & s' & E & _ & Hs' & Hset).
    exists r, i, s'. unfold linemap_macro_loc_to_spelling_point. rewrite lbind_assert, lbind_get by lia.
    by split_and!.
  - destruct (to_def_point_ends (rounds s) s x y Hs Hk Hst Hrank) as (r & i & s' & E & _ & Hs' & Hset).
    exists r, i, s'. unfold linemap_macro_loc_to_def_point. rewrite lbind_assert, lbind_get by lia.
    by split_and!.
Qed.

(** ** Growing the tree of expansions *)

Lemma above_snoc ms m i : (i <= length ms)%nat -> above (ms ++ [m]) i = above ms i.
Proof.
  intros Hi. destruct i as [|i]; [done|]. cbn [above]. by rewrite lookup_app_l by lia.
Qed.

Lemma older_macros s s' i x : ordinary s' = ordinary s -> adhoc s' = adhoc s ->
  above (macros s') i = above (macros s) i -> older s i x -> older s' i x.
Proof. intros Eo Ea Em (y & Hst & H). exists y. unfold stripped. rewrite Eo, Ea, Em. exact (conj Hst H). Qed.

Lemma zero_older s i : older s i 0.
Proof. exists 0. split; [by apply stripped_self|]. split; [lia|]. by left. Qed.

(** Entering a macro. *)
Lemma enter_macro_sound s name exp n : sound s -> known s exp -> IS_ADHOC_LOC exp = false ->
  RESERVED_LOCATION_COUNT <= exp -> 0 <= n ->
  LINE_MAP_MAX_LOCATION <= LINEMAPS_MACRO_LOWEST_LOCATION s - n ->
  LINEMAPS_MACRO_LOWEST_LOCATION s <= MAX_LOCATION_T + 1 ->
  exists s' m, linemap_enter_macro name exp n s = Some (Some (length (macros s)), s') /\ sound s' /\
    macros s' = macros s ++ [m] /\ n_tokens m = n /\ expansion m = exp /\
    macro_start m = LINEMAPS_MACRO_LOWEST_LOCATION s - n /\
    ordinary s' = ordinary s /\ adhoc s' = adhoc s.
Proof.
  intros Hs Hk Ha Hr Hn Hroom Hmax. unfold linemap_enter_macro. rewrite lbind_get.
  unfold LINE_MAP_MAX_LOCATION, MAX_LOCATION_T in *. rewrite u32_small by lia.
  set (lowest := LINEMAPS_MACRO_LOWEST_LOCATION s) in *.
  assert (lowest - n <? 0x70000000 = false) as -> by lia. rewrite lbind_get, !lbind_mod.
  set (m := mk_macro _ _ _ _ _). do 2 eexists. split; [done|].
  split; [|by split_and!].
  assert (forall i x, (i <= length (macros s))%nat -> older s i x ->
    older (set_macro_cache (length (macros s)) (set_macros (macros s ++ [m]) s)) i x) as Hold.
  { intros i x Hi. apply older_macros; [done|done|]. by apply above_snoc. }
  destruct Hs as [Hwf [Hadj Htok Hlow Hloc] _ Ht]. split.
  - by apply (wf_maps_ordinary s); [| |apply Hwf].
  - cbn [macros set_macro_cache set_macros].
    split; intros i m' [Hm'|[-> ->]]%lookup_snoc_Some.
    + rewrite above_snoc by (apply lookup_lt_Some in Hm'; lia). by apply Hadj.
    + rewrite above_snoc, above_last by lia. cbn. fold lowest. lia.
    + by eapply Htok.
    + done.
    + by eapply Hlow.
    + unfold LINE_MAP_MAX_LOCATION. cbn. lia.
    + by eapply Hloc.
    + cbn [m macro_locations n_tokens]. rewrite length_replicate. lia.
  - split; [right; apply Hwf|right]. cbn. rewrite length_app. simpl. lia.
  - intros i m' [Hm'|[-> ->]]%lookup_snoc_Some.
    + destruct (Ht i m' Hm') as (H1 & H2 & H3). pose proof (lookup_lt_Some _ _ _ Hm').
      split; [|split; [apply Hold; [lia|done]|done]].
      eapply Forall_impl; [exact H1|]. intros x. apply Hold. lia.
    + cbn [m macro_locations expansion]. split; [|split; [apply Hold; [lia|done]|done]].
      apply Forall_replicate. apply Hold; [lia|apply zero_older].
Qed.

Lemma above_alter ms f k i : (forall m, macro_start (f m) = macro_start m) ->
  above (alter f k ms) i = above ms i.
Proof.
  intros Hf. destruct i as [|i]; [done|]. cbn [above]. destruct (decide (i = k)) as [->|].
  - rewrite list_lookup_alter_eq. destruct (ms !! k); [apply Hf|done].
  - by rewrite list_lookup_alter_ne.
Qed.

(** Recording a token of an expansion. *)
Lemma add_token_sound s i m k x y : sound s -> macros s !! i = Some m -> 0 <= k < n_tokens m ->
  older s i x -> older s i y ->
  exists s', linemap_add_macro_token i k x y s = Some (macro_start m + k, s') /\ sound s' /\
    macros s' !! i = Some (set_locations k x y m) /\ ordinary s' = ordinary s /\ adhoc s' = adhoc s.
Proof.
  intros Hs Hm Hk Hx Hy. unfold linemap_add_macro_token. rewrite (macro_at_some _ m) by done.
  rewrite lbind_assert, lbind_mod by lia.
  pose proof (wc_low _ (so_macros _ Hs) _ _ Hm). pose proof (wc_adjacent _ (so_macros _ Hs) _ _ Hm) as Hadj.
  assert (above (macros s) i <= MAX_LOCATION_T + 1) as Htop.
  { apply (above_mono (macros s) 0 i); [apply Hs|]. apply lookup_lt_Some in Hm. lia. }
  unfold LINE_MAP_MAX_LOCATION, MAX_LOCATION_T in *.
  unfold lret. rewrite u32_small by lia. eexists. split; [done|].
  set (s' := set_macros _ s).
  assert (macros s' !! i = Some (set_locations k x y m)) as Hm'
    by (cbn; by rewrite list_lookup_alter_eq, Hm).
  assert (forall j z, older s j z -> older s' j z) as Hold
    by (intros j z; apply older_macros; [done|done|]; by apply above_alter).
  split; [|done]. destruct Hs as [Hwf [Hadj' Htok Hlow Hloc] [Hco Hcm] Ht].
  assert (forall j mj, macros s' !! j = Some mj -> exists mo, macros s !! j = Some mo /\
    macro_start mj = macro_start mo /\ n_tokens mj = n_tokens mo /\ expansion mj = expansion mo /\
    length (macro_locations mj) = length (macro_locations mo) /\
    (mj = mo \/ (j = i /\ mo = m /\ mj = set_locations k x y m))) as Hinv.
  { intros j mj Hj. destruct (decide (j = i)) as [->|Hne].
    - exists m. assert (mj = set_locations k x y m) as -> by congruence. split_and!; try done.
      + cbn. by rewrite !length_insert.
      + by right.
    - exists mj. cbn in Hj. rewrite list_lookup_alter_ne in Hj by done. split_and!; try done. by left. }
  split.
  - by apply (wf_maps_ordinary s); [| |apply Hwf].
  - split; intros j mj (mo & Hj & E1 & E2 & E3 & E4 & _)%Hinv; rewrite ?E1, ?E2, ?E4;
      [|by eapply Htok|by eapply Hlow|by eapply Hloc].
    etransitivity; [by apply Hadj'|]. symmetry. by apply above_alter.
  - split; [done|]. destruct Hcm as [E|Hc]; [by rewrite E in Hm|right]. cbn. by rewrite length_alter.
  - intros j mj (mo & Hj & _ & _ & E3 & _ & Hcase)%Hinv. destruct (Ht j mo Hj) as (H1 & H2 & H3 & H4).
    rewrite E3. split; [|split; [by apply Hold|done]].
    assert (Forall (older s' j) (macro_locations mo)) as H1'
      by (eapply Forall_impl; [exact H1|]; intros z; apply Hold).
    destruct Hcase as [->|(-> & -> & ->)]; [done|].
    cbn [set_locations macro_locations]. apply Forall_insert; [apply Forall_insert; [done|]|]; by apply Hold.
Qed.

(** The map whose tokens include a location is the one that is found. *)
Lemma lookup_covering s i m r : sound s -> macros s !! i = Some m ->
  macro_start m <= r < macro_start m + n_tokens m ->
  exists s', linemap_lookup r s = Some (Some (Macro i), s').
Proof.
  intros Hs Hm Hr. pose proof (so_macros _ Hs) as Hwm. pose proof (lookup_lt_Some _ _ _ Hm) as Hlen.
  pose proof (wc_low _ Hwm _ _ Hm). pose proof (wc_adjacent _ Hwm _ _ Hm) as Hadj.
  pose proof (above_mono (macros s) 0 i Hwm ltac:(lia)) as Htop. cbn [above] in Htop.
  assert (IS_ADHOC_LOC r = false) as Ha by (unfold IS_ADHOC_LOC; lia).
  assert (known s r) as Hk.
  { exists r. split; [by apply stripped_self|]. unfold LINE_MAP_MAX_LOCATION in *. split; [lia|]. right. right.
    pose proof (above_mono (macros s) (S i) (length (macros s)) Hwm ltac:(lia)) as Hab.
    assert (above (macros s) (S i) = macro_start m) as Hai by (cbn [above]; by rewrite Hm). lia. }
  destruct (lookup_known s r r Hs Hk (stripped_self s r Ha)) as (q & s' & E & _ & _ & Hcase).
  exists s'. rewrite E. unfold RESERVED_LOCATION_COUNT, LINE_MAP_MAX_LOCATION in *.
  destruct q as [[j|j]|]; [lia| |lia]. destruct Hcase as (_ & mj & Hj & Hcov).
  destruct (Nat.lt_trichotomy i j) as [Hlt|[->|Hlt]]; [|done|]; exfalso.
  - pose proof (macros_decrease _ _ _ _ _ Hwm Hlt Hm Hj). lia.
  - pose proof (macros_decrease _ _ _ _ _ Hwm Hlt Hj Hm). lia.
Qed.

(** C29: Entering a macro and recording its tokens keeps the expansions a tree
    (each token and each expansion point is older than the expansion), the
    maps adjacent and the caches valid; and the virtual location of a token
    leads back to what was recorded for it: the location it came from, the
    location in the macro definition, and the point of expansion. *)
Theorem macro_expansion_invariant (s : line_maps) (name : list byte) (exp n k x y : Z) :
  sound s -> known s exp -> IS_ADHOC_LOC exp = false -> RESERVED_LOCATION_COUNT <= exp -> 0 <= k < n ->
  LINE_MAP_MAX_LOCATION <= LINEMAPS_MACRO_LOWEST_LOCATION s - n ->
  LINEMAPS_MACRO_LOWEST_LOCATION s <= MAX_LOCATION_T + 1 -> known s x -> known s y ->
  exists i s1 r s2 m,
    linemap_enter_macro name exp n s = Some (Some i, s1) /\ sound s1 /\
    linemap_add_macro_token i k x y s1 = Some (r, s2) /\ sound s2 /\
    (exists s3, linemap_lookup r s2 = Some (Some (Macro i), s3)) /\ macros s2 !! i = Some m /\
    linemap_macro_map_loc_unwind_toward_spelling m r s2 = Some (x, s2) /\
    linemap_macro_map_loc_to_def_point m r s2 = Some (y, s2) /\
    linemap_macro_map_loc_to_exp_point m r s2 = Some (exp, s2).
Proof.
  intros Hs Hk Ha Hres Hkn Hroom Hmax Hx Hy.
  destruct (enter_macro_sound s name exp n) as (s1 & m & E1 & Hs1 & Hm & Hn & He & Hst & Ho & Had);
    try done; [lia|].
  assert (macros s1 !! length (macros s) = Some m) as Hm1 by (rewrite Hm; apply lookup_snoc).
  assert (forall z, known s z -> older s1 (length (macros s)) z) as Hold.
  { intros z. apply older_macros; [done|done|]. by rewrite Hm, above_snoc. }
  destruct (add_token_sound s1 (length (macros s)) m k x y) as (s2 & E2 & Hs2 & Hm2 & _ & Had2);
    [done|done|lia|by apply Hold|by apply Hold|].
  exists (length (macros s)), s1, (macro_start m + k), s2, (set_locations k x y m).
  split; [done|]. split; [done|]. split; [done|]. split; [done|].
  pose proof (wc_locations _ (so_macros _ Hs1) _ _ Hm1) as Hlen.
  pose proof (wc_low _ (so_macros _ Hs2) _ _ Hm2) as Hlow. cbn [set_locations macro_start] in Hlow.
  set (r := macro_start m + k).
  assert (macro_start (set_locations k x y m) <= r
    < macro_start (set_locations k x y m) + n_tokens (set_locations k x y m)) as Hr by (cbn; lia).
  assert (stripped s2 r r) as Hstr.
  { apply stripped_self. unfold IS_ADHOC_LOC, MAX_LOCATION_T, LINE_MAP_MAX_LOCATION in *. lia. }
  assert (r - macro_start m = k) as Hrk by lia.
  split; [by eapply lookup_covering|]. split; [done|]. split_and!.
  - apply (step_location Spelling s2 (set_locations k x y m) r r x Hstr Hlow Hr). cbn [leads_to set_locations macro_locations macro_start].
    rewrite Hrk.
    rewrite list_lookup_insert_ne by lia. apply list_lookup_insert_eq. lia.
  - apply (step_location Definition_ s2 (set_locations k x y m) r r y Hstr Hlow Hr). cbn [leads_to set_locations macro_locations macro_start].
    rewrite Hrk.
    apply list_lookup_insert_eq. rewrite length_insert. lia.
  - apply (step_location Expansion s2 (set_locations k x y m) r r exp Hstr Hlow Hr). by rewrite <- He.
Qed.

(** ** Ad-hoc locations *)

(** A pure ordinary location of map [m], with room for a packed range. *)
Record packable (s : line_maps) (loc : location_t) (m : line_map_ordinary) : Prop := {
  pk_maps : wf_maps s;
  pk_loc : RESERVED_LOCATION_COUNT <= loc < LINE_MAP_MAX_LOCATION;
  pk_low : LINE_MAP_MAX_LOCATION <= LINEMAPS_MACRO_LOWEST_LOCATION s <= MAX_LOCATION_T + 1;
  pk_bits : 0 <= m_range_bits m <= 8;
  pk_pure : loc mod 2 ^ m_range_bits m = 0;
  pk_owner : exists i, ordinary s !! i = Some m /\ start_location m <= loc /\
    forall m', ordinary s !! S i = Some m' -> loc + 2 ^ m_range_bits m <= start_location m'
}.

(** The map is found for the location with any packed range. *)
Lemma packable_lookup s s' loc m p : packable s loc m -> ordinary s' = ordinary s ->
  (ordinary_cache s' < length (ordinary s))%nat -> 0 <= p < 2 ^ m_range_bits m ->
  loc + p < LINE_MAP_MAX_LOCATION ->
  exists i c, (c < length (ordinary s))%nat /\ ordinary s !! i = Some m /\ owner (ordinary s) (loc + p) i /\
    linemap_lookup (loc + p) s' = Some (Some (Ordinary i), set_ordinary_cache c s').
Proof.
  intros [Hwf Hloc Hlow Hb Hpure (i & Hm & Hle & Hn)] Eo Hc Hp Hmax.
  assert (wf_maps s') as Hwf' by (by apply (wf_maps_ordinary s)).
  assert (owner (ordinary s) (loc + p) i) as Ho.
  { exists m. split; [done|]. split; [lia|]. intros m' Hm'. specialize (Hn m' Hm'). lia. }
  destruct (linemap_lookup_spec s' (loc + p) i Hwf' Hmax) as (c & Hcl & E); [by rewrite Eo|].
  exists i, c. rewrite Eo in Hcl. done.
Qed.

Lemma packable_pure s loc m : packable s loc m ->
  exists c, (c < length (ordinary s))%nat /\ pure_location_p loc s = Some (true, set_ordinary_cache c s).
Proof.
  intros Hp. pose proof Hp as [Hwf Hloc Hlow Hb Hpure _].
  destruct (packable_lookup s s loc m 0 Hp) as (i & _ & _ & Hm & Ho & _); [done|apply Hwf| |lia|].
  { pose proof (pow2_gt0 (m_range_bits m) ltac:(lia)). lia. }
  rewrite Z.add_0_r in Ho. unfold RESERVED_LOCATION_COUNT in *.
  destruct (pure_location_spec s loc i m Hwf) as (c & Hc & E); [lia|done|done|lia|].
  exists c. by rewrite E, Hpure.
Qed.

Lemma aligned_split x b : 0 <= b -> x mod 2 ^ b = 0 -> x = x / 2 ^ b * 2 ^ b.
Proof. intros Hb Hm. pose proof (Z.div_mod x (2 ^ b)). pose proof (pow2_gt0 b Hb). lia. Qed.

Lemma lor_aligned loc p b : 0 <= b -> loc mod 2 ^ b = 0 -> 0 <= p < 2 ^ b -> Z.lor loc p = loc + p.
Proof. intros Hb Hm Hp. rewrite (aligned_split loc b Hb Hm). by apply lor_low. Qed.

Lemma mask_low_aligned loc p b : 0 <= b -> loc mod 2 ^ b = 0 -> 0 <= p < 2 ^ b -> mask_low (loc + p) b = loc.
Proof.
  intros Hb Hm Hp. rewrite mask_low_spec by done. rewrite (aligned_split loc b Hb Hm) at 2.
  rewrite mod_parts by done. lia.
Qed.

Lemma adhoc_index n : (Z.of_nat n < 2 ^ 31) ->
  let r := Z.lor (u32 (Z.of_nat n)) 0x80000000 in
  IS_ADHOC_LOC r = true /\ Z.to_nat (Z.land r MAX_LOCATION_T) = n.
Proof.
  intros Hn r. unfold r. rewrite u32_small by lia. rewrite Z.lor_comm.
  change 0x80000000 with (1 * 2 ^ 31). rewrite lor_low by lia.
  change MAX_LOCATION_T with (2 ^ 31 - 1). rewrite land_mask, mod_parts by lia.
  split; [|lia]. unfold IS_ADHOC_LOC, MAX_LOCATION_T. lia.
Qed.

(** What is read back: the locus, the range, the client's data. *)
Definition reads_back (s : line_maps) (r loc : location_t) (range : source_range) (data : option nat)
  : Prop :=
  (exists s', get_pure_location r s = Some (loc, s')) /\
  (exists s', get_range_from_loc r s = Some (range, s')) /\
  (if IS_ADHOC_LOC r then exists s', get_data_from_adhoc_loc r s = Some (data, s') else data = None).

(** Reading back a location that is in the table. *)
Lemma adhoc_reads_back s s' loc m range data n : packable s loc m -> ordinary s' = ordinary s ->
  macros s' = macros s -> (ordinary_cache s' < length (ordinary s))%nat ->
  adhoc s' !! n = Some (mk_adhoc loc range data) -> Z.of_nat n < 2 ^ 31 ->
  reads_back s' (Z.lor (u32 (Z.of_nat n)) 0x80000000) loc range data.
Proof.
  intros Hp Eo Em Hc Ha Hn. destruct (adhoc_index n Hn) as [Hadhoc Hidx].
  set (r := Z.lor _ _) in *. pose proof Hp as [Hwf Hloc Hlow Hb Hpure _].
  pose proof (pow2_gt0 (m_range_bits m) ltac:(lia)).
  assert (forall B (f : location_adhoc_data -> LM B), lbind (adhoc_at r) f s' = f (mk_adhoc loc range data) s') as Hat.
  { intros B f. unfold adhoc_at. rewrite lbind_assoc, lbind_get. apply lbind_opt. by rewrite Hidx. }
  unfold reads_back. rewrite Hadhoc. split_and!.
  - unfold get_pure_location, strip_adhoc. rewrite Hadhoc, lbind_assoc, Hat, lbind_ret. cbn [locus].
    rewrite lbind_get. assert (LINEMAPS_MACRO_LOWEST_LOCATION s' = LINEMAPS_MACRO_LOWEST_LOCATION s) as ->
      by (unfold LINEMAPS_MACRO_LOWEST_LOCATION; by rewrite Em).
    destruct (Z.leb_spec (LINEMAPS_MACRO_LOWEST_LOCATION s) loc); [lia|].
    destruct (Z.ltb_spec loc RESERVED_LOCATION_COUNT); [lia|].
    destruct (packable_lookup s s' loc m 0 Hp Eo Hc) as (i & c & Hcl & Hm & _ & E); [lia|lia|].
    rewrite Z.add_0_r in E. rewrite (lbind_some _ _ _ _ _ E). cbn [check_ordinary].
    rewrite (ordinary_at_some _ m) by (cbn; by rewrite Eo). eexists. unfold lret.
    rewrite <- (Z.add_0_r loc) at 1. by rewrite mask_low_aligned by lia.
  - unfold get_range_from_loc. rewrite Hadhoc, Hat. by eexists.
  - unfold get_data_from_adhoc_loc. rewrite Hadhoc, lbind_assert, Hat by done. by eexists.
Qed.

(** Reading back a packed range. *)
Lemma packed_reads_back s s' loc m p : packable s loc m -> ordinary s' = ordinary s ->
  macros s' = macros s -> (ordinary_cache s' < length (ordinary s))%nat -> 0 <= p < 2 ^ m_range_bits m ->
  loc + p <= LINE_MAP_MAX_LOCATION_WITH_PACKED_RANGES \/ p = 0 ->
  reads_back s' (loc + p) loc (mk_range loc (loc + p * 2 ^ m_range_bits m)) None.
Proof.
  intros Hp Eo Em Hc Hlt Hpk. pose proof Hp as [Hwf Hloc Hlow Hb Hpure _].
  assert (loc + p < LINE_MAP_MAX_LOCATION) as Hmax.
  { unfold LINE_MAP_MAX_LOCATION_WITH_PACKED_RANGES, LINE_MAP_MAX_LOCATION in *. lia. }
  assert (IS_ADHOC_LOC (loc + p) = false) as Ha
    by (unfold IS_ADHOC_LOC, MAX_LOCATION_T, LINE_MAP_MAX_LOCATION in *; lia).
  assert (LINEMAPS_MACRO_LOWEST_LOCATION s' = LINEMAPS_MACRO_LOWEST_LOCATION s) as Elow
    by (unfold LINEMAPS_MACRO_LOWEST_LOCATION; by rewrite Em).
  destruct (packable_lookup s s' loc m p Hp Eo Hc Hlt Hmax) as (i & c & Hcl & Hm & _ & E).
  unfold reads_back. rewrite Ha. split_and!; [| |done].
  - unfold get_pure_location. rewrite strip_adhoc_plain, lbind_get, Elow by done.
    destruct (Z.leb_spec (LINEMAPS_MACRO_LOWEST_LOCATION s) (loc + p)); [lia|].
    destruct (Z.ltb_spec (loc + p) RESERVED_LOCATION_COUNT); [lia|].
    rewrite (lbind_some _ _ _ _ _ E). cbn [check_ordinary].
    rewrite (ordinary_at_some _ m) by (cbn; by rewrite Eo). eexists. unfold lret. by rewrite mask_low_aligned by lia.
  - unfold get_range_from_loc. rewrite Ha, lbind_get, Elow.
    assert ((RESERVED_LOCATION_COUNT <=? loc + p) && (loc + p <? LINEMAPS_MACRO_LOWEST_LOCATION s) = true) as ->
      by (apply andb_true_iff; lia).
    destruct (Z.leb_spec (loc + p) LINE_MAP_MAX_LOCATION_WITH_PACKED_RANGES) as [Hle|Hgt]; cbn [andb].
    + rewrite (lbind_some _ _ _ _ _ E). cbn [check_ordinary].
      rewrite (ordinary_at_some _ m) by (cbn; by rewrite Eo). eexists. unfold lret.
      rewrite shiftl_1, land_mask by lia.
      assert ((loc + p) mod 2 ^ m_range_bits m = p) as ->
        by (rewrite Zplus_mod, Hpure, Z.add_0_l, Zmod_mod; by apply Z.mod_small).
      pose proof (pow2_le (m_range_bits m) 8 ltac:(lia)). pose proof (pow2_gt0 (m_range_bits m) ltac:(lia)).
      assert (0 <= p * 2 ^ m_range_bits m <= 2 ^ 16) by nia.
      unfold RESERVED_LOCATION_COUNT, LINE_MAP_MAX_LOCATION in *.
      replace (loc + p - p) with loc by lia. rewrite (u32_small loc), Z.shiftl_mul_pow2, u32_small by lia. done.
    + destruct Hpk as [?| ->]; [lia|]. eexists. unfold lret. by rewrite Z.mul_0_l, Z.add_0_r.
Qed.

(** The entry of the table for a location, its range and data. *)
Lemma adhoc_slot_spec lb s : Z.of_nat (length (adhoc s)) < 2 ^ 31 ->
  exists n s', adhoc_slot lb s = Some (n, s') /\ adhoc s' !! n = Some lb /\ Z.of_nat n < 2 ^ 31 /\
    ordinary s' = ordinary s /\ macros s' = macros s /\ ordinary_cache s' = ordinary_cache s.
Proof.
  intros Hlen. unfold adhoc_slot. rewrite lbind_get.
  destruct (list_find (fun x => x = lb) (adhoc s)) as [[i x]|] eqn:E.
  - apply list_find_Some in E as (Hi & -> & _). pose proof (lookup_lt_Some _ _ _ Hi).
    exists i, s. split_and!; try done. lia.
  - rewrite lbind_mod. do 2 eexists. split; [done|]. split; [apply lookup_snoc|]. split; [lia|done].
Qed.

(** The same tables but for the ad-hoc one, with a valid cache. *)
Definition same_maps (s s' : line_maps) : Prop :=
  ordinary s' = ordinary s /\ macros s' = macros s /\ (ordinary_cache s' < length (ordinary s))%nat.

Lemma store_adhoc_reads_back s s1 loc m range data : packable s loc m -> same_maps s s1 ->
  adhoc s1 = adhoc s -> Z.of_nat (length (adhoc s)) < 2 ^ 31 ->
  exists r s', store_adhoc loc range data s1 = Some (r, s') /\ reads_back s' r loc range data.
Proof.
  intros Hp (Eo & Em & Hc) Ea Hlen. unfold store_adhoc.
  pose proof (pow2_gt0 (m_range_bits m) (proj1 (pk_bits _ _ _ Hp))).
  destruct ((loc =? m_start range) && (loc =? m_finish range) && bool_decide (data = None)) eqn:Hsame.
  - rewrite !andb_true_iff, !Z.eqb_eq, bool_decide_eq_true in Hsame. destruct Hsame as [[E1 E2] ->].
    exists loc, s1. split; [done|].
    pose proof (packed_reads_back s s1 loc m 0 Hp Eo Em Hc ltac:(lia) ltac:(by right)) as Hrb.
    rewrite Z.mul_0_l, !Z.add_0_r in Hrb. destruct range as [a b]. simpl in E1, E2. by subst a b.
  - set (s2 := if bool_decide (data = None) then set_adhoc (adhoc s1) (num_optimized_ranges s1)
                          (u32 (num_unoptimized_ranges s1 + 1)) s1 else s1).
    assert (ordinary s2 = ordinary s /\ macros s2 = macros s /\ adhoc s2 = adhoc s /\
      ordinary_cache s2 = ordinary_cache s1) as (Eo2 & Em2 & Ea2 & Ec2)
      by (unfold s2; by destruct (bool_decide _)).
    destruct (adhoc_slot_spec (mk_adhoc loc range data) s2) as (n & s3 & E & Hn & Hnlt & Eo3 & Em3 & Ec3);
      [by rewrite Ea2|].
    exists (Z.lor (u32 (Z.of_nat n)) 0x80000000), s3. split.
    + rewrite (lbind_some _ _ _ tt s2) by (unfold s2; by destruct (bool_decide _)).
      by rewrite (lbind_some _ _ _ _ _ E).
    + apply (adhoc_reads_back s s3 loc m); [done|congruence|congruence|congruence|done|done].
Qed.

(** The assertion that the location is pure. *)
Lemma checked_pure s loc m : packable s loc m ->
  exists c, (c < length (ordinary s))%nat /\
    (if (loc <? RESERVED_LOCATION_COUNT) || (LINE_MAP_MAX_LOCATION_WITH_PACKED_RANGES <=? loc)
        || (LINEMAPS_MACRO_LOWEST_LOCATION s <=? loc) then lret tt
     else pure ←l pure_location_p loc ;; linemap_assert pure) s = Some (tt, set_ordinary_cache c s).
Proof.
  intros Hp. destruct (_ || _).
  - exists (ordinary_cache s). split; [apply (wm_cache _ (pk_maps _ _ _ Hp))|]. by destruct s.
  - destruct (packable_pure s loc m Hp) as (c & Hc & E). exists c. split; [done|].
    by rewrite (lbind_some _ _ _ _ _ E).
Qed.

Lemma packable_same s s' loc m : packable s loc m -> same_maps s s' -> packable s' loc m.
Proof.
  intros [Hwf Hloc Hlow Hb Hpure Ho] (Eo & Em & Hc).
  split; try done; [by apply (wf_maps_ordinary s)| |by rewrite Eo].
  unfold LINEMAPS_MACRO_LOWEST_LOCATION in *. by rewrite Em.
Qed.

(** Below the limit, the packed range stays below it: the limit is a multiple
    of the range. *)
Lemma packed_fits loc p b : 0 <= b <= 8 -> loc mod 2 ^ b = 0 -> 0 <= p < 2 ^ b ->
  loc < LINE_MAP_MAX_LOCATION_WITH_PACKED_RANGES -> loc + p <= LINE_MAP_MAX_LOCATION_WITH_PACKED_RANGES.
Proof.
  intros Hb Hm Hp. unfold LINE_MAP_MAX_LOCATION_WITH_PACKED_RANGES.
  change 0x50000000 with (0x500000 * 2 ^ 8). replace 8 with ((8 - b) + b) by lia.
  rewrite Z.pow_add_r by lia. rewrite (aligned_split loc b ltac:(lia) Hm).
  pose proof (pow2_gt0 b ltac:(lia)). rewrite Z.mul_assoc. set (q := 0x500000 * 2 ^ (8 - b)).
  intros Hlt. assert (loc / 2 ^ b < q) by (apply Z.mul_lt_mono_pos_r in Hlt; done). nia.
Qed.

(** A location, a range and a datum combined into one 32-bit number by
    [get_combined_adhoc_loc] are read back from it: the location exactly, the
    datum exactly, and the range exactly whenever it goes through the table
    or ends at a location without a range of its own; a short range that is
    packed into the low bits is rounded down to a column. *)
Theorem adhoc_roundtrip (s : line_maps) (loc : location_t) (m : line_map_ordinary)
    (range : source_range) (data : option nat) :
  packable s loc m -> Z.of_nat (length (adhoc s)) < 2 ^ 31 ->
  exists r s', get_combined_adhoc_loc loc range data s = Some (r, s') /\
    (reads_back s' r loc range data \/
     (m_start range = loc /\ data = None /\
      reads_back s' r loc
        (mk_range loc (m_finish range - (m_finish range - loc) mod 2 ^ m_range_bits m)) None)).
Proof.
  intros Hp Hlen. pose proof Hp as [Hwf Hloc Hlow Hb Hpure _].
  pose proof (pow2_gt0 (m_range_bits m) ltac:(lia)) as Hpos. pose proof (pow2_le (m_range_bits m) 8 ltac:(lia)).
  unfold get_combined_adhoc_loc. unfold RESERVED_LOCATION_COUNT, LINE_MAP_MAX_LOCATION in Hloc.
  rewrite strip_adhoc_plain by (unfold IS_ADHOC_LOC, MAX_LOCATION_T; lia).
  destruct (Z.eqb_spec loc 0); [lia|]. cbn [andb]. rewrite lbind_get.
  destruct (checked_pure s loc m Hp) as (c & Hc & E). rewrite (lbind_some _ _ _ _ _ E), lbind_get. clear E.
  set (s1 := set_ordinary_cache c s).
  assert (same_maps s s1) as Hsm by done. pose proof (packable_same s s1 loc m Hp Hsm) as Hp1.
  destruct (can_be_stored_compactly_p s1 loc range data) eqn:Hcompact.
  2: { destruct (store_adhoc_reads_back s s1 loc m range data) as (r & s' & -> & ?); try done. eauto. }
  destruct (packable_pure s1 loc m Hp1) as (c1 & Hc1 & E1).
  rewrite (lbind_some _ _ _ _ _ E1), lbind_assert by done. set (s2 := set_ordinary_cache c1 s1).
  destruct (packable_lookup s s2 loc m 0 Hp) as (i & c2 & Hc2 & Hm & _ & E2); [done|done|lia|unfold LINE_MAP_MAX_LOCATION; lia|].
  rewrite Z.add_0_r in E2. rewrite (lbind_some _ _ _ _ _ E2). set (s3 := set_ordinary_cache c2 s2).
  cbn [check_ordinary]. rewrite (ordinary_at_some _ m) by done.
  rewrite shiftl_1, (u32_small (2 ^ _)) by lia.
  destruct (Z.ltb_spec (Z.shiftr (u32 (m_finish range - m_start range)) (m_range_bits m)) (2 ^ m_range_bits m)) as [Hlt|Hge].
  2: { destruct (store_adhoc_reads_back s s3 loc m range data) as (r & s' & -> & ?); try done. eauto. }
  unfold can_be_stored_compactly_p in Hcompact.
  destruct (bool_decide_reflect (data <> None)) as [|Hdata]; [done|].
  destruct (Z.eqb_spec (m_start range) loc) as [Hs0|]; [|done]. cbn [negb] in Hcompact.
  destruct (Z.ltb_spec (m_finish range) (m_start range)); [done|].
  destruct (Z.ltb_spec (m_start range) RESERVED_LOCATION_COUNT); [done|].
  destruct (Z.leb_spec LINE_MAP_MAX_LOCATION_WITH_PACKED_RANGES loc) as [|Hpk]; [done|].
  destruct (Z.leb_spec (LINEMAPS_MACRO_LOWEST_LOCATION s1) loc); [done|].
  destruct (Z.leb_spec (LINEMAPS_MACRO_LOWEST_LOCATION s1) (m_start range)); [done|].
  destruct (Z.leb_spec (LINEMAPS_MACRO_LOWEST_LOCATION s1) (m_finish range)) as [|Hfin]; [done|].
  change (LINEMAPS_MACRO_LOWEST_LOCATION s1) with (LINEMAPS_MACRO_LOWEST_LOCATION s) in Hfin.
  unfold MAX_LOCATION_T in Hlow. rewrite Hs0 in *. rewrite u32_small in * by lia.
  rewrite Z.shiftr_div_pow2 in * by lia. set (p := (m_finish range - loc) / 2 ^ m_range_bits m) in *.
  assert (0 <= p) by (apply Z.div_pos; lia).
  rewrite lbind_mod. rewrite (lor_aligned loc p (m_range_bits m)) by (done || lia).
  do 2 eexists. split; [done|]. right. split; [done|]. split; [by destruct data; [destruct Hdata|]|].
  replace (m_finish range - (m_finish range - loc) mod 2 ^ m_range_bits m)
    with (loc + p * 2 ^ m_range_bits m)
    by (pose proof (Z.div_mod (m_finish range - loc) (2 ^ m_range_bits m)); unfold p; lia).
  apply (packed_reads_back s); try done. left. apply (packed_fits loc p (m_range_bits m)); try done; lia.
Qed.

(** ** Examples *)

(** The table of the sample history, before and after a macro expansion. *)
Definition sample_10 : line_maps :=
  Eval vm_compute in state_of (linemap_enter_macro (bytes "PLUS") first_column 3 sample_9).

Lemma sample_no_macros : macros sample_9 = [] /\ adhoc sample_9 = [].
Proof. split; vm_compute; reflexivity. Qed.

Lemma sample_sound : sound sample_9.
Proof.
  destruct sample_history as (h & Hh & _).
  pose proof (hi_wf _ _ _ _ _ (history_inv _ _ _ _ _ _ Hh)) as Hwf.
  destruct sample_no_macros as [Em _].
  split; [exact Hwf| |split; [right; exact (wm_cache _ Hwf)|by left]|].
  - rewrite Em. split; intros i m Hm; by rewrite lookup_nil in Hm.
  - intros i m Hm. by rewrite Em, lookup_nil in Hm.
Qed.

Lemma sample_known s : ordinary s = ordinary sample_9 -> adhoc s = [] -> known s first_column.
Proof.
  intros E Ea. exists first_column. split; [by apply stripped_self; vm_compute|]. split; [by vm_compute|].
  right. left. rewrite E. eexists. split; [by vm_compute|]. by vm_compute.
Qed.

Lemma sample_10_sound : sound sample_10.
Proof.
  destruct (enter_macro_sound sample_9 (bytes "PLUS") first_column 3) as (s' & m & E & Hs & _);
    [exact sample_sound|apply sample_known; [reflexivity|apply sample_no_macros]|by vm_compute|by vm_compute|lia|by vm_compute|by vm_compute|].
  replace sample_10 with (state_of (linemap_enter_macro (bytes "PLUS") first_column 3 sample_9))
    by (vm_compute; reflexivity).
  by rewrite E.
Qed.

Lemma lookup_is_scan_witness :
  (exists c, linemap_lookup first_column sample_10 =
    Some (Some (Ordinary 0), set_ordinary_cache c sample_10)) /\
  exists c, linemap_lookup 0x7FFFFFFE sample_10 = Some (Some (Macro 0), set_macro_cache c sample_10).
Proof.
  pose proof sample_10_sound as [H1 H2 H3 _]. split.
  - destruct (lookup_is_scan sample_10 first_column H1 H2 H3) as [Ho _].
    exact (Ho _ eq_refl ltac:(by vm_compute)).
  - destruct (lookup_is_scan sample_10 0x7FFFFFFE H1 H2 H3) as [_ Hv].
    destruct (Hv ltac:(by vm_compute)) as (c & E & _). exists c. exact E.
Defined.

Lemma resolution_ends_witness :
  exists r i s', linemap_resolve_location 0x7FFFFFFD LRK_MACRO_EXPANSION_POINT false sample_10 = Some (r, i, s') /\
    settled sample_10 r.
Proof.
  assert (known sample_10 0x7FFFFFFD) as Hk.
  { exists 0x7FFFFFFD. split; [by apply stripped_self|]. split; [lia|]. right. right. by vm_compute. }
  destruct (resolution_ends sample_10 0x7FFFFFFD LRK_MACRO_EXPANSION_POINT sample_10_sound Hk)
    as (r & i & s' & E & Hset & _). by exists r, i, s'.
Defined.

Lemma macro_expansion_invariant_witness :
  exists i s1 r s2 m,
    linemap_enter_macro (bytes "PLUS") first_column 3 sample_9 = Some (Some i, s1) /\ sound s1 /\
    linemap_add_macro_token i 2 first_column first_column s1 = Some (r, s2) /\ sound s2 /\
    (exists s3, linemap_lookup r s2 = Some (Some (Macro i), s3)) /\ macros s2 !! i = Some m /\
    linemap_macro_map_loc_unwind_toward_spelling m r s2 = Some (first_column, s2) /\
    linemap_macro_map_loc_to_def_point m r s2 = Some (first_column, s2) /\
    linemap_macro_map_loc_to_exp_point m r s2 = Some (first_column, s2).
Proof.
  apply (macro_expansion_invariant sample_9 (bytes "PLUS") first_column 3 2 first_column first_column);
    [exact sample_sound|apply sample_known; [reflexivity|apply sample_no_macros]|by vm_compute|by vm_compute
    |lia|by vm_compute|by vm_compute
    |apply sample_known; [reflexivity|apply sample_no_macros]|apply sample_known; [reflexivity|apply sample_no_macros]].
Defined.

Lemma sample_packable : exists m, ordinary sample_9 !! 0%nat = Some m /\ packable sample_9 first_column m.
Proof.
  eexists. split; [by vm_compute|]. split; [apply sample_sound|by vm_compute|by vm_compute|by vm_compute|by vm_compute|].
  exists 0%nat. split; [by vm_compute|]. split; [by vm_compute|]. intros m' [= <-]. by vm_compute.
Qed.

Lemma adhoc_roundtrip_witness :
  exists m r s', ordinary sample_9 !! 0%nat = Some m /\
    get_combined_adhoc_loc first_column (mk_range first_column (first_column + 96)) None sample_9 = Some (r, s') /\
    (reads_back s' r first_column (mk_range first_column (first_column + 96)) None \/
     (m_start (mk_range first_column (first_column + 96)) = first_column /\ @None nat = None /\
      reads_back s' r first_column
        (mk_range first_column (first_column + 96 - (first_column + 96 - first_column) mod 2 ^ m_range_bits m)) None)).
Proof.
  destruct sample_packable as (m & Hm & Hp). exists m.
  destruct (adhoc_roundtrip sample_9 first_column m (mk_range first_column (first_column + 96)) None Hp
    ltac:(by vm_compute)) as (r & s' & E & H).
  exists r, s'. split; [exact Hm|]. split; [exact E|exact H].
Defined.
