(* ===== verification/LineSearch.v ===== *)
(** * Searching a line a word at a time

    search_line_acc_char of lex.c: the search for the next character that
    matters to the cleaning of a line (a newline, a carriage return, a
    backslash or a question mark), with word-wide arithmetic.  [ws] is
    sizeof (word_type), 4 or 8, and [big] is WORDS_BIGENDIAN.  Memory is a
    function from addresses to bytes, since the aligned words the search loads
    stick out of the buffer at both ends.

    The class [LineSearch] states what the cleaning of lines needs of a
    search; the word-wide search and the plain scan are its instances. *)

From Stdlib Require Import ZArith Lia Bool.
From stdpp Require Import base tactics list numbers.
From S2P Require Import Prelude.

Local Open Scope Z_scope.

(** ** The search, as the source has it *)

Section Words.
  Variable ws : Z.
  Variable big : bool.

  Notation bits := (8 * ws).

Definition wrap_word (x : Z) : Z := wrapu bits x.

(** [*p], the word at an aligned address. *)
Fixpoint bytes_word (bs : list byte) : Z :=
  match bs with [] => 0 | b :: bs => b + 2 ^ 8 * bytes_word bs end.

Definition word_bytes (m : Z -> byte) (p : Z) : list byte :=
  map (fun i => m (p + Z.of_nat i)) (seq 0 (Z.to_nat ws)).

Definition word_of (bs : list byte) : Z := bytes_word (if big then rev bs else bs).

Definition load_word (m : Z -> byte) (p : Z) : Z := word_of (word_bytes m p).

Definition acc_char_mask_misalign (val n : Z) : Z :=
  let mask := 2 ^ bits - 1 in
  let mask := if big then Z.shiftr mask (n * 8) else wrap_word (Z.shiftl mask (n * 8)) in
  Z.land val mask.

Definition acc_char_replicate (x : byte) : Z :=
  let ret := Z.lor (Z.lor (Z.lor (Z.shiftl x 24) (Z.shiftl x 16)) (Z.shiftl x 8)) x in
  if ws =? 8 then Z.lor (wrap_word (Z.shiftl (wrap_word (Z.shiftl ret 16)) 16)) ret else ret.

Definition acc_magic : Z :=
  let magic := 0x7efefefe in
  let magic := if ws =? 8
               then Z.lor (wrap_word (Z.shiftl (wrap_word (Z.shiftl magic 16)) 16)) 0xfefefefe
               else magic in
  Z.lor magic 1.

Definition acc_char_cmp (val c : Z) : Z :=
  let val := Z.lxor val c in
  Z.land (Z.lxor (wrap_word (val + acc_magic)) (wrap_word (Z.lnot val)))
    (wrap_word (Z.lnot acc_magic)).

(** The characters looked for. *)
Definition special (c : byte) : bool := (c =? 10) || (c =? 13) || (c =? 92) || (c =? 63).

Definition val_byte (val i : Z) : byte :=
  Z.land (Z.shiftr val ((if big then ws - i - 1 else i) * 8)) 255.

(** The loop of acc_char_index, over the indices that are left. *)
Fixpoint index_loop (val : Z) (ixs : list nat) : Z :=
  match ixs with
  | [] => -1
  | i :: ixs => if special (val_byte val (Z.of_nat i)) then Z.of_nat i else index_loop val ixs
  end.

Definition acc_char_index (val : Z) : Z := index_loop val (seq 0 (Z.to_nat ws)).

(** The test of the main loop: a word that may hold one of the characters. *)
Definition word_may_match (val : Z) : Z :=
  Z.lor (Z.lor (Z.lor (acc_char_cmp val (acc_char_replicate 10))
                      (acc_char_cmp val (acc_char_replicate 13)))
               (acc_char_cmp val (acc_char_replicate 92)))
        (acc_char_cmp val (acc_char_replicate 63)).

Fixpoint search_words (fuel : nat) (m : Z -> byte) (p val : Z) : option Z :=
  match fuel with
  | O => None
  | S fuel =>
      let next := search_words fuel m (p + ws) (load_word m (p + ws)) in
      if negb (word_may_match val =? 0) then
        let i := acc_char_index val in
        if 0 <=? i then Some (p + i) else next
      else next
  end.

(** [e], the end of the buffer, bounds the number of words looked at. *)
Definition search_line_acc_char (m : Z -> byte) (s e : Z) : option Z :=
  let p := Z.land s (wrapu 64 (- ws)) in
  let val := load_word m p in
  let misalign := Z.land s (ws - 1) in
  let val := if negb (misalign =? 0) then acc_char_mask_misalign val misalign else val in
  search_words (S (Z.to_nat (e - s))) m p val.

End Words.

(** ** What the cleaning of lines needs of a search *)

Class LineSearch (search : (Z -> byte) -> Z -> Z -> option Z) : Prop :=
  search_finds : forall m s e t,
    (forall a, is_byte (m a)) -> 0 <= s <= e -> e <= t < 2 ^ 63 ->
    (forall a, s <= a < e -> special (m a) = false) -> special (m e) = true ->
    search m s t = Some e.

(** ** Bits and bytes of a word *)

Lemma bytes_word_bit bs k : Forall is_byte bs -> 0 <= k ->
  Z.testbit (bytes_word bs) k = Z.testbit (nth (Z.to_nat (k / 8)) bs 0) (k mod 8).
Proof.
  intros Hbs. revert k. induction Hbs as [|b bs Hb Hbs IH]; intros k Hk; cbn [bytes_word].
  - destruct (Z.to_nat (k / 8)); by rewrite !Z.bits_0.
  - rewrite <- Z.lxor_0_r at 1. unfold is_byte in Hb.
    replace (b + 2 ^ 8 * bytes_word bs) with (bytes_word bs * 2 ^ 8 + b) by lia.
    rewrite Z.lxor_0_r, <- lor_low, Z.lor_spec by (change (2 ^ 8) with 256; lia).
    destruct (Z.ltb_spec k 8).
    + rewrite Z.mul_pow2_bits_low by lia. rewrite Z.div_small, Z.mod_small by lia. done.
    + rewrite Z.mul_pow2_bits by lia.
      rewrite (bits_above 8 b) by (change (2 ^ 8) with 256; lia). rewrite orb_false_r, IH by lia.
      replace k with (k - 8 + 1 * 8) at 3 4 by lia. rewrite Z.div_add, Z.mod_add by lia.
      pose proof (Z.div_pos (k - 8) 8 ltac:(lia) ltac:(lia)).
      by replace (Z.to_nat ((k - 8) / 8 + 1)) with (S (Z.to_nat ((k - 8) / 8))) by lia.
Qed.

Lemma bytes_word_range bs : Forall is_byte bs -> 0 <= bytes_word bs < 2 ^ (8 * Z.of_nat (length bs)).
Proof.
  induction 1 as [|b bs Hb Hbs IH]; [done|]. cbn [bytes_word length]. unfold is_byte in Hb.
  replace (8 * Z.of_nat (S (length bs))) with (8 + 8 * Z.of_nat (length bs)) by lia.
  rewrite pow2_split by lia. change (2 ^ 8) with 256. lia.
Qed.

(** Byte [i] of a word, and the exclusive or with a repeated byte. *)
Lemma bytes_word_byte bs i : Forall is_byte bs ->
  Z.land (Z.shiftr (bytes_word bs) (Z.of_nat i * 8)) 255 = nth i bs 0.
Proof.
  intros Hbs. assert (is_byte (nth i bs 0)) as Hi.
  { destruct (nth_in_or_default i bs 0) as [Hin| ->]; [|done].
    exact (proj1 (List.Forall_forall _ _) Hbs _ Hin). }
  apply Z.bits_inj'. intros k Hk. change 255 with (Z.ones 8).
  rewrite Z.land_spec, Z.shiftr_spec by done. destruct (Z.ltb_spec k 8).
  - rewrite Z.ones_spec_low, andb_true_r, bytes_word_bit by (done || lia).
    replace (k + Z.of_nat i * 8) with (k + (Z.of_nat i) * 8) by lia.
    rewrite Z.div_add, Z.mod_add by lia.
    rewrite Z.div_small, Z.mod_small by lia. by rewrite Z.add_0_l, Nat2Z.id.
  - rewrite Z.ones_spec_high, andb_false_r by lia. symmetry. apply (bits_above 8); [exact Hi|lia].
Qed.

Lemma bytes_word_xor bs cs : length bs = length cs -> Forall is_byte bs -> Forall is_byte cs ->
  Z.lxor (bytes_word bs) (bytes_word cs) = bytes_word (zip_with Z.lxor bs cs) /\
  Forall is_byte (zip_with Z.lxor bs cs).
Proof.
  intros Hlen Hbs. revert cs Hlen. induction Hbs as [|b bs Hb Hbs IH]; intros [|c cs] Hlen Hcs;
    [done..|]. apply Forall_cons_1 in Hcs as [Hc Hcs]. cbn [bytes_word zip_with length] in *.
  destruct (IH cs) as [IH1 IH2]; [lia|done|].
  assert (is_byte (Z.lxor b c)) as Hx.
  { unfold is_byte in *. pose proof (Z.lxor_nonneg b c).
    split; [lia|]. destruct (Z.eq_dec (Z.lxor b c) 0) as [->|]; [lia|].
    change 256 with (2 ^ 8). apply Z.log2_lt_pow2; [lia|].
    pose proof (Z.log2_lxor b c ltac:(lia) ltac:(lia)).
    assert (forall x, 0 <= x < 256 -> Z.log2 x < 8) as Hl.
    { intros x Hx. destruct (Z.eq_dec x 0) as [->|]; [done|]. apply Z.log2_lt_pow2; lia. }
    pose proof (Hl b Hb). pose proof (Hl c Hc). lia. }
  split; [|by constructor]. rewrite <- IH1. unfold is_byte in *.
  assert (forall x y, 0 <= y < 256 -> y + 2 ^ 8 * x = Z.lor (Z.shiftl x 8) y) as Hor.
  { intros x y Hy. rewrite Z.shiftl_mul_pow2, lor_low by (change (2 ^ 8) with 256; lia). lia. }
  rewrite !Hor by lia. apply Z.bits_inj'. intros k Hk.
  rewrite !Z.lxor_spec, !Z.lor_spec, !Z.shiftl_spec, !Z.lxor_spec by done.
  destruct (Z.ltb_spec k 8).
  - rewrite !(Z.testbit_neg_r _ (k - 8)) by lia. by rewrite !orb_false_l.
  - rewrite !(bits_above 8 _ k) by (change (2 ^ 8) with 256; lia). by rewrite !orb_false_r.
Qed.

(** ** A byte of a word that is zero always shows in the test *)

Lemma carry_free v g k : 0 <= k -> v mod 2 ^ k + g mod 2 ^ k < 2 ^ k ->
  Z.testbit g k = false -> Z.testbit (v + g) k = Z.testbit v k.
Proof.
  intros Hk Hc Hg. pose proof (pow2_gt0 k Hk) as Hp.
  rewrite Z.testbit_odd, Z.shiftr_div_pow2 in Hg by done.
  rewrite !Z.testbit_odd, !Z.shiftr_div_pow2 by done.
  replace ((v + g) / 2 ^ k) with (v / 2 ^ k + g / 2 ^ k).
  - by rewrite Z.odd_add, Hg, xorb_false_r.
  - apply Z.div_unique with (v mod 2 ^ k + g mod 2 ^ k).
    + pose proof (Z.mod_pos_bound v (2 ^ k)). pose proof (Z.mod_pos_bound g (2 ^ k)). lia.
    + pose proof (Z.div_mod v (2 ^ k)). pose proof (Z.div_mod g (2 ^ k)). lia.
Qed.

(** The bit in which byte [i] shows: the one above it, or its own top bit. *)
Definition hole (ws i : Z) : Z := if i + 1 =? ws then 8 * ws - 1 else 8 * (i + 1).

Lemma magic_holes ws i : ws = 4 \/ ws = 8 -> 0 <= i < ws ->
  2 ^ (8 * i) + acc_magic ws mod 2 ^ hole ws i <= 2 ^ hole ws i /\
  Z.testbit (acc_magic ws) (hole ws i) = false /\ 8 * i < hole ws i < 8 * ws /\
  hole ws i <= 8 * i + 8.
Proof.
  intros [-> | ->] Hi.
  - assert (i = 0 \/ i = 1 \/ i = 2 \/ i = 3) as Hc by lia.
    destruct_or! Hc; subst; vm_compute; intuition congruence.
  - assert (i = 0 \/ i = 1 \/ i = 2 \/ i = 3 \/ i = 4 \/ i = 5 \/ i = 6 \/ i = 7) as Hc by lia.
    destruct_or! Hc; subst; vm_compute; intuition congruence.
Qed.

Lemma zero_byte_mod vs i k : Forall is_byte vs -> nth i vs 0 = 0 ->
  8 * Z.of_nat i <= k <= 8 * Z.of_nat i + 8 ->
  bytes_word vs mod 2 ^ k < 2 ^ (8 * Z.of_nat i).
Proof.
  intros Hvs Hi Hk.
  replace (bytes_word vs mod 2 ^ k) with (bytes_word vs mod 2 ^ (8 * Z.of_nat i)).
  { apply Z.mod_pos_bound, pow2_gt0. lia. }
  apply Z.bits_inj'. intros j Hj. rewrite !Z.testbit_mod_pow2 by lia.
  destruct (Z.ltb_spec j (8 * Z.of_nat i)), (Z.ltb_spec j k); simpl; try done; try lia.
  rewrite bytes_word_bit by done. replace (j / 8) with (Z.of_nat i).
  - rewrite Nat2Z.id, Hi. by rewrite Z.bits_0.
  - apply Z.div_unique with (j - 8 * Z.of_nat i); lia.
Qed.

Lemma zero_byte_shows ws vs i : ws = 4 \/ ws = 8 -> Forall is_byte vs ->
  Z.of_nat (length vs) = ws -> Z.of_nat i < ws -> nth i vs 0 = 0 ->
  Z.land (Z.lxor (wrap_word ws (bytes_word vs + acc_magic ws)) (wrap_word ws (Z.lnot (bytes_word vs))))
    (wrap_word ws (Z.lnot (acc_magic ws))) <> 0.
Proof.
  intros Hws Hvs Hlen Hi H0 Hz. set (k := hole ws (Z.of_nat i)).
  destruct (magic_holes ws (Z.of_nat i) Hws ltac:(lia)) as (Hsum & Hbit & Hk & Hk').
  pose proof (zero_byte_mod vs i k Hvs H0 ltac:(lia)) as Hmod. fold k in Hsum, Hbit, Hk, Hk'.
  assert (Z.testbit (bytes_word vs + acc_magic ws) k = Z.testbit (bytes_word vs) k) as Hc.
  { apply carry_free; [lia|lia|done]. }
  apply (f_equal (fun z => Z.testbit z k)) in Hz. unfold wrap_word, wrapu in Hz.
  rewrite Z.land_spec, Z.lxor_spec, !Z.testbit_mod_pow2, !Z.lnot_spec, Hc, Hbit, Z.bits_0 in Hz by lia.
  rewrite (proj2 (Z.ltb_lt k (8 * ws))) in Hz by lia. by destruct (Z.testbit (bytes_word vs) k).
Qed.

(** ** The test of the main loop misses nothing *)

Lemma replicate_word ws x : ws = 4 \/ ws = 8 -> 0 <= x < 128 ->
  acc_char_replicate ws x = bytes_word (replicate (Z.to_nat ws) x).
Proof.
  intros Hws Hx. apply Z.eqb_eq.
  destruct Hws as [-> | ->]; revert x Hx; by apply (range_check 128 (fun x => _ =? _)).
Qed.

Lemma cmp_misses_nothing ws bs i x : ws = 4 \/ ws = 8 -> Forall is_byte bs ->
  Z.of_nat (length bs) = ws -> Z.of_nat i < ws -> nth i bs 0 = x -> 0 <= x < 128 ->
  acc_char_cmp ws (bytes_word bs) (acc_char_replicate ws x) <> 0.
Proof.
  intros Hws Hbs Hlen Hi Hx Hr. unfold acc_char_cmp. cbv zeta. rewrite replicate_word by done.
  match goal with |- context [Z.lxor _ (bytes_word ?cs)] =>
    destruct (bytes_word_xor bs cs) as [-> Hxor] end.
  { rewrite length_replicate. lia. }
  { done. }
  { apply Forall_replicate. unfold is_byte. lia. }
  apply (zero_byte_shows ws _ i); [done..| |done|].
  - rewrite length_zip_with, length_replicate. unfold byte in *. lia.
  - assert (bs !! i = Some x) as Hl.
    { rewrite nth_lookup in Hx. destruct (lookup_lt_is_Some_2 bs i) as [y Hy]; [lia|].
      rewrite Hy in Hx. simpl in Hx. subst y. exact Hy. }
    rewrite nth_lookup, lookup_zip_with.
    change (@lookup nat Z (list Z) _ i bs) with (@lookup nat byte (list byte) _ i bs).
    rewrite Hl. simpl. rewrite lookup_replicate_2 by lia. simpl. apply Z.lxor_nilpotent.
Qed.

Lemma special_range c : special c = true -> 0 <= c < 128.
Proof. unfold special. intros [[[H|H]%orb_prop|H]%orb_prop|H]%orb_prop; apply Z.eqb_eq in H; lia. Qed.

Lemma word_may_match_spec ws bs i : ws = 4 \/ ws = 8 -> Forall is_byte bs ->
  Z.of_nat (length bs) = ws -> Z.of_nat i < ws -> special (nth i bs 0) = true ->
  word_may_match ws (bytes_word bs) <> 0.
Proof.
  intros Hws Hbs Hlen Hi Hs. pose proof (special_range _ Hs).
  assert (forall x, nth i bs 0 =? x = true -> 0 <= x < 128 ->
    acc_char_cmp ws (bytes_word bs) (acc_char_replicate ws x) <> 0) as Hx.
  { intros x Hx%Z.eqb_eq Hr. by apply (cmp_misses_nothing ws bs i). }
  unfold word_may_match. unfold special in Hs. rewrite !orb_true_iff in Hs.
  destruct Hs as [[[Hc|Hc]|Hc]|Hc]; apply Hx in Hc; try lia; rewrite !Z.lor_eq_0_iff; tauto.
Qed.

(** ** The bytes of a word in the order of their addresses *)

Lemma word_of_bytes big bs : Forall is_byte bs ->
  exists vs, word_of big bs = bytes_word vs /\ Forall is_byte vs /\ length vs = length bs /\
    forall i, (i < length bs)%nat -> nth i vs 0 = nth (if big then length bs - S i else i) bs 0.
Proof.
  intros Hbs. exists (if big then rev bs else bs). split; [done|]. destruct big; [|done].
  split; [by apply Forall_rev|]. split; [apply length_rev|]. intros i Hi. by apply rev_nth.
Qed.

Lemma val_byte_spec ws big bs i : Forall is_byte bs -> Z.of_nat (length bs) = ws ->
  (i < length bs)%nat -> val_byte ws big (word_of big bs) (Z.of_nat i) = nth i bs 0.
Proof.
  intros Hbs Hlen Hi. destruct (word_of_bytes big bs Hbs) as (vs & -> & Hvs & Hl & Hn).
  unfold val_byte.
  replace ((if big then ws - Z.of_nat i - 1 else Z.of_nat i) * 8)
    with (Z.of_nat (if big then length bs - S i else i) * 8) by (destruct big; lia).
  rewrite bytes_word_byte by done. rewrite Hn by (destruct big; lia).
  f_equal. destruct big; lia.
Qed.

Lemma index_loop_none (f : Z -> byte) ws big val k n :
  (forall i, (k <= i < k + n)%nat -> val_byte ws big val (Z.of_nat i) = f (Z.of_nat i)) ->
  (forall i, (k <= i < k + n)%nat -> special (f (Z.of_nat i)) = false) ->
  index_loop ws big val (seq k n) = -1.
Proof.
  revert k. induction n as [|n IH]; intros k Hv Hs; [done|]. cbn [seq index_loop].
  rewrite Hv, Hs by lia. apply IH; intros i Hi; [apply Hv|apply Hs]; lia.
Qed.

Lemma index_loop_first (f : Z -> byte) ws big val k n e :
  (forall i, (k <= i < k + n)%nat -> val_byte ws big val (Z.of_nat i) = f (Z.of_nat i)) ->
  (k <= e < k + n)%nat -> special (f (Z.of_nat e)) = true ->
  (forall i, (k <= i < e)%nat -> special (f (Z.of_nat i)) = false) ->
  index_loop ws big val (seq k n) = Z.of_nat e.
Proof.
  revert k. induction n as [|n IH]; intros k Hv He Hs Hn; [lia|]. cbn [seq index_loop].
  rewrite Hv by lia. destruct (decide (k = e)) as [->|Hne].
  - by rewrite Hs.
  - rewrite Hn by lia. apply IH; [intros i Hi; apply Hv; lia|lia|done|intros i Hi; apply Hn; lia].
Qed.

(** Masking the bytes before the start makes them zero. *)
Definition from_address (m : Z -> byte) (s a : Z) : byte := if a <? s then 0 else m a.

Lemma word_bytes_length ws m p : 0 <= ws -> Z.of_nat (length (word_bytes ws m p)) = ws.
Proof. intros. unfold word_bytes. rewrite length_map, length_seq. lia. Qed.

Lemma word_bytes_range ws m p : (forall a, is_byte (m a)) -> Forall is_byte (word_bytes ws m p).
Proof. intros Hm. unfold word_bytes. apply Forall_map, Forall_true. auto. Qed.

Lemma word_bytes_nth ws m p i : Z.of_nat i < ws -> nth i (word_bytes ws m p) 0 = m (p + Z.of_nat i).
Proof.
  intros Hi. unfold word_bytes.
  rewrite (nth_indep _ 0 (m (p + Z.of_nat 0))) by (rewrite length_map, length_seq; lia).
  rewrite (map_nth (fun i => m (p + Z.of_nat i))). by rewrite seq_nth by lia.
Qed.

Lemma word_bit ws big bs k : Forall is_byte bs -> Z.of_nat (length bs) = ws -> 0 <= k < 8 * ws ->
  Z.testbit (word_of big bs) k =
  Z.testbit (nth (if big then length bs - S (Z.to_nat (k / 8)) else Z.to_nat (k / 8)) bs 0) (k mod 8).
Proof.
  intros Hbs Hlen Hk. destruct (word_of_bytes big bs Hbs) as (vs & -> & Hvs & Hl & Hn).
  pose proof (Z.div_pos k 8 ltac:(lia) ltac:(lia)).
  pose proof (Z.div_lt_upper_bound k 8 ws ltac:(lia) ltac:(lia)).
  rewrite bytes_word_bit by (done || lia). by rewrite Hn by lia.
Qed.

Lemma word_range ws big bs : Forall is_byte bs -> Z.of_nat (length bs) = ws ->
  0 <= word_of big bs < 2 ^ (8 * ws).
Proof.
  intros Hbs Hlen. destruct (word_of_bytes big bs Hbs) as (vs & -> & Hvs & Hl & _).
  pose proof (bytes_word_range vs Hvs) as Hr. by rewrite Hl, Hlen in Hr.
Qed.

Lemma mask_misalign_spec ws big m p n : 0 < ws -> (forall a, is_byte (m a)) -> 0 < n < ws ->
  acc_char_mask_misalign ws big (load_word ws big m p) n = load_word ws big (from_address m (p + n)) p.
Proof.
  intros Hws Hm Hn. unfold acc_char_mask_misalign, load_word.
  set (bs := word_bytes ws m p). set (cs := word_bytes ws (from_address m (p + n)) p).
  assert (Forall is_byte bs) as Hbs by by apply word_bytes_range.
  assert (Forall is_byte cs) as Hcs.
  { apply word_bytes_range. intros a. unfold from_address. by destruct (a <? p + n). }
  pose proof (word_bytes_length ws m p ltac:(lia)) as Hl. fold bs in Hl.
  pose proof (word_bytes_length ws (from_address m (p + n)) p ltac:(lia)) as Hl'. fold cs in Hl'.
  apply Z.bits_inj'. intros k Hk. rewrite Z.land_spec.
  pose proof (word_range ws big bs Hbs Hl). pose proof (word_range ws big cs Hcs Hl').
  destruct (Z.ltb_spec k (8 * ws)).
  2: { rewrite (bits_above (8 * ws) (word_of big bs)), (bits_above (8 * ws) (word_of big cs)); lia || done. }
  pose proof (Z.div_mod k 8). pose proof (Z.mod_pos_bound k 8 ltac:(lia)).
  rewrite !(word_bit ws) by done. replace (length cs) with (length bs) by lia.
  set (j := if big then _ else _). assert (Z.of_nat j < ws) as Hj by (subst j; destruct big; lia).
  unfold bs, cs. rewrite (word_bytes_nth ws m p j), (word_bytes_nth ws _ p j) by done.
  assert (Z.testbit (if big then Z.shiftr (2 ^ (8 * ws) - 1) (n * 8)
                     else wrap_word ws (Z.shiftl (2 ^ (8 * ws) - 1) (n * 8))) k
          = (n <=? Z.of_nat j)) as ->.
  { replace (2 ^ (8 * ws) - 1) with (Z.ones (8 * ws)) by (rewrite Z.ones_equiv; lia).
    subst j. destruct big.
    - rewrite Z.shiftr_spec, Z.testbit_ones_nonneg by lia. bsplit; lia || done.
    - unfold wrap_word, wrapu. rewrite Z.testbit_mod_pow2 by lia.
      rewrite (proj2 (Z.ltb_lt k (8 * ws))), andb_true_l, Z.shiftl_spec by lia.
      destruct (Z.leb_spec (n * 8) k).
      + rewrite Z.testbit_ones_nonneg by lia. bsplit; lia || done.
      + rewrite Z.testbit_neg_r by lia. bsplit; lia || done. }
  unfold from_address. rewrite andb_comm.
  bsplit; try lia; [done|]. by rewrite Z.bits_0.
Qed.

(** ** The search delivers the first of the characters *)

Lemma search_words_spec ws big m s e : ws = 4 \/ ws = 8 -> (forall a, is_byte (m a)) ->
  (forall a, s <= a < e -> special (m a) = false) -> special (m e) = true -> s <= e ->
  forall fuel p, p <= e -> s <= p + ws -> e - p < ws * Z.of_nat fuel ->
  search_words ws big fuel m p (load_word ws big (from_address m s) p) = Some e.
Proof.
  intros Hws Hm Hn He Hse. induction fuel as [|fuel IH]; intros p Hp Hsp Hf; [lia|]. cbn [search_words].
  set (f := from_address m s). set (bs := word_bytes ws f p).
  assert (forall a, is_byte (f a)) as Hfb.
  { intros a. unfold f, from_address. by destruct (a <? s). }
  assert (Forall is_byte bs) as Hbs by by apply word_bytes_range.
  pose proof (word_bytes_length ws f p ltac:(lia)) as Hl. fold bs in Hl.
  assert (forall a, a < e -> special (f a) = false) as Hnf.
  { intros a Ha. unfold f, from_address. bsplit; [done|]. apply Hn. lia. }
  assert (special (f e) = true) as Hef.
  { unfold f, from_address. bsplit; [lia|done]. }
  assert (forall i, (0 <= i < 0 + Z.to_nat ws)%nat ->
    val_byte ws big (load_word ws big f p) (Z.of_nat i) = f (p + Z.of_nat i)) as Hv.
  { intros i Hi. unfold load_word. fold bs. rewrite val_byte_spec by (done || lia).
    apply word_bytes_nth. lia. }
  destruct (Z.ltb_spec e (p + ws)) as [Hin|Hout].
  - assert (acc_char_index ws big (load_word ws big f p) = e - p) as Hix.
    { unfold acc_char_index.
      rewrite (index_loop_first (fun i => f (p + i)) ws big _ 0 _ (Z.to_nat (e - p)));
        [lia|done|lia| |].
      - by rewrite Z2Nat.id, Zplus_minus by lia.
      - intros i Hi. apply Hnf. lia. }
    assert (word_may_match ws (load_word ws big f p) <> 0) as Ht.
    { unfold load_word. destruct (word_of_bytes big bs Hbs) as (vs & Hw & Hvs & Hlv & Hnth).
      fold bs. rewrite Hw.
      set (j := Z.to_nat (e - p)). assert (nth j bs 0 = f e) as Hje.
      { unfold bs. rewrite word_bytes_nth by lia. f_equal. lia. }
      apply (word_may_match_spec ws vs (if big then length bs - S j else j));
        [done|done|lia|destruct big; lia|].
      rewrite Hnth by (destruct big; lia).
      replace (if big then _ else _) with j by (destruct big; lia). by rewrite Hje. }
    apply Z.eqb_neq in Ht. rewrite Ht, Hix. simpl. rewrite (proj2 (Z.leb_le _ _)) by lia. f_equal. lia.
  - assert (acc_char_index ws big (load_word ws big f p) = -1) as ->.
    { unfold acc_char_index. apply (index_loop_none (fun i => f (p + i))); [done|].
      intros i Hi. apply Hnf. lia. }
    replace (load_word ws big m (p + ws)) with (load_word ws big f (p + ws)).
    + subst f. rewrite IH by lia. by destruct (negb _).
    + unfold load_word, word_bytes. f_equal. apply map_ext. intros i. unfold f, from_address.
      by rewrite (proj2 (Z.ltb_ge _ _)) by lia.
Qed.

Lemma align_down ws s : ws = 4 \/ ws = 8 -> 0 <= s < 2 ^ 64 ->
  Z.land s (wrapu 64 (- ws)) = s - s mod ws /\ Z.land s (ws - 1) = s mod ws.
Proof.
  intros Hws Hs. assert (exists k, 0 <= k < 64 /\ ws = 2 ^ k) as (k & Hk & ->).
  { destruct Hws as [-> | ->]; [exists 2|exists 3]; done. }
  split; [|apply land_mask; lia].
  replace (wrapu 64 (- 2 ^ k)) with (2 ^ 64 - 2 ^ k).
  2: { unfold wrapu. pose proof (pow2_gt0 k). pose proof (pow2_lt k 64).
       apply Z.mod_unique with (-1); lia. }
  rewrite <- (Z.mul_1_l (2 ^ k)) at 1.
  replace (2 ^ 64 - 1 * 2 ^ k) with ((2 ^ (64 - k) - 1) * 2 ^ k).
  2: { replace 64 with (64 - k + k) at 2 by lia. rewrite pow2_split by lia. ring. }
  pose proof (pow2_gt0 k ltac:(lia)) as Hp.
  pose proof (Z.div_mod s (2 ^ k) ltac:(lia)). pose proof (Z.mod_pos_bound s (2 ^ k) Hp).
  apply Z.bits_inj'. intros i Hi. rewrite Z.land_spec.
  replace (s - s mod 2 ^ k) with (s / 2 ^ k * 2 ^ k) by lia.
  destruct (Z.ltb_spec i k).
  - rewrite !Z.mul_pow2_bits_low by lia. apply andb_false_r.
  - rewrite !Z.mul_pow2_bits by lia. rewrite Z.div_pow2_bits by lia.
    replace (2 ^ (64 - k) - 1) with (Z.ones (64 - k)) by (rewrite Z.ones_equiv; lia).
    rewrite Z.testbit_ones_nonneg by lia. replace (i - k + k) with i by lia.
    destruct (Z.ltb_spec (i - k) (64 - k)); [apply andb_true_r|].
    by rewrite (bits_above 64 s i) by lia.
Qed.

Lemma acc_char_finds ws big m s e t : ws = 4 \/ ws = 8 -> (forall a, is_byte (m a)) ->
  0 <= s <= e -> e <= t < 2 ^ 64 -> (forall a, s <= a < e -> special (m a) = false) ->
  special (m e) = true -> search_line_acc_char ws big m s t = Some e.
Proof.
  intros Hws Hm Hse Het Hn He. unfold search_line_acc_char.
  destruct (align_down ws s Hws ltac:(lia)) as [-> ->].
  pose proof (Z.mod_pos_bound s ws ltac:(lia)) as Hmod.
  assert ((if negb (s mod ws =? 0)
           then acc_char_mask_misalign ws big (load_word ws big m (s - s mod ws)) (s mod ws)
           else load_word ws big m (s - s mod ws))
    = load_word ws big (from_address m s) (s - s mod ws)) as ->.
  { destruct (Z.eqb_spec (s mod ws) 0) as [H0|H0]; simpl.
    - unfold load_word, word_bytes. f_equal. apply map_ext. intros i. unfold from_address.
      by rewrite (proj2 (Z.ltb_ge _ _)) by lia.
    - rewrite mask_misalign_spec by (done || lia). f_equal. f_equal. lia. }
  apply search_words_spec; try done; lia || (destruct Hws; nia).
Qed.

(** The search in a buffer that lies at the address [base]. *)
Definition search_at (base : Z) (search : (Z -> byte) -> Z -> Z -> option Z) (m : Z -> byte)
  (s t : Z) : option Z :=
  option_map (fun r => r - base) (search (fun a => m (a - base)) (s + base) (t + base)).

#[export] Instance acc_char_search ws big base : (ws = 4 \/ ws = 8) -> 0 <= base <= 2 ^ 63 ->
  LineSearch (search_at base (search_line_acc_char ws big)).
Proof.
  intros Hws Hb m s e t Hm Hse Het Hn He. unfold search_at.
  rewrite (acc_char_finds ws big _ _ (e + base)); simpl; [f_equal; lia|done|auto|lia|lia| |].
  - intros a Ha. apply Hn. lia.
  - by replace (e + base - base) with e by lia.
Qed.

(** C28: the word-wide search for the next newline, carriage return, backslash
    or question mark returns the address of the first one at or after the
    start, for both sizes of word and both byte orders and for any alignment,
    whatever lies in memory around the buffer: the test of a whole word misses
    none of them, and its false alarms are passed over. *)
Theorem search_line_finds (ws : Z) (big : bool) (m : Z -> byte) (s e t : Z) :
  ws = 4 \/ ws = 8 -> (forall a, is_byte (m a)) -> 0 <= s <= e -> e <= t < 2 ^ 64 ->
  (forall a, s <= a < e -> special (m a) = false) -> special (m e) = true ->
  search_line_acc_char ws big m s t = Some e.
Proof. apply acc_char_finds. Qed.

(** A byte 0x8a at the top of the first word, which the test takes for a match, before a
    question mark: from an unaligned address, for a 64-bit little-endian word. *)
Definition sample_memory (a : Z) : byte := nth (Z.to_nat (a - 1003)) [120; 120; 120; 120; 0x8a; 120; 120; 120; 63] 0.

Lemma search_line_finds_witness : search_line_acc_char 8 false sample_memory 1003 2000 = Some 1011.
Proof.
  apply search_line_finds; [by right| |lia|lia| |done].
  - intros a. unfold sample_memory. generalize (Z.to_nat (a - 1003)). intros n.
    do 9 (destruct n as [|n]; [by vm_compute|]). by destruct n.
  - intros a Ha.
    assert (a = 1003 \/ a = 1004 \/ a = 1005 \/ a = 1006 \/ a = 1007 \/ a = 1008 \/ a = 1009 \/ a = 1010)
      as Hc by lia. destruct_or! Hc; by subst.
Defined.
