(* ===== verification/CleanLine.v ===== *)
(** * Cleaning a line: trigraphs and spliced lines

    _cpp_clean_line of lex.c: it turns the next physical lines of a buffer
    into one logical line, in place, replacing trigraphs (phase 1 of
    translation) and deleting each backslash-newline (phase 2), and notes where
    it did so.  [lbuf] is the part of [struct cpp_buffer] the lexer works on:
    the bytes from [buf] to [rlimit], and pointers into them as indices.  A
    read or a write outside these bytes is [None].

    The second half is the reference: the physical lines of a text, the
    trigraphs of a line, and the splicing of lines, as the C standard has
    them; the theorems show that the single pass of the code, with its fast
    path that writes nothing, delivers exactly that. *)

From Stdlib Require Import ZArith Lia Bool String Ascii.
From stdpp Require Import base tactics list numbers option.
From S2P Require Import Prelude Reader LineSearch.

Local Open Scope list_scope.
Local Open Scope Z_scope.

(** ** The buffer *)

(** [ln_type] is the third character of a trigraph, a backslash or a space
    for an escaped newline, a newline for the sentinel, 0 for a note that was
    handled. *)
Record line_note : Type := mk_note { ln_pos : Z; ln_type : Z }.

Record lbuf : Type := mk_lbuf {
  b_mem : list byte;
  b_rlimit : Z;
  b_cur : Z;
  b_line_base : Z;
  b_next_line : Z;
  b_notes : list line_note;
  b_cur_note : nat;
  b_notes_cap : Z;
  b_need_line : bool;
  b_warned_cplusplus_comments : bool;
  b_from_stage3 : bool;
  b_sysp : bool
}.

Definition set_mem (m : list byte) (b : lbuf) : lbuf :=
  mk_lbuf m (b_rlimit b) (b_cur b) (b_line_base b) (b_next_line b) (b_notes b) (b_cur_note b)
    (b_notes_cap b) (b_need_line b) (b_warned_cplusplus_comments b) (b_from_stage3 b) (b_sysp b).
Definition set_cur (c : Z) (b : lbuf) : lbuf :=
  mk_lbuf (b_mem b) (b_rlimit b) c (b_line_base b) (b_next_line b) (b_notes b) (b_cur_note b)
    (b_notes_cap b) (b_need_line b) (b_warned_cplusplus_comments b) (b_from_stage3 b) (b_sysp b).
Definition set_line_base (c : Z) (b : lbuf) : lbuf :=
  mk_lbuf (b_mem b) (b_rlimit b) (b_cur b) c (b_next_line b) (b_notes b) (b_cur_note b)
    (b_notes_cap b) (b_need_line b) (b_warned_cplusplus_comments b) (b_from_stage3 b) (b_sysp b).
Definition set_next_line (p : Z) (b : lbuf) : lbuf :=
  mk_lbuf (b_mem b) (b_rlimit b) (b_cur b) (b_line_base b) p (b_notes b) (b_cur_note b)
    (b_notes_cap b) (b_need_line b) (b_warned_cplusplus_comments b) (b_from_stage3 b) (b_sysp b).
Definition set_notes (ns : list line_note) (cap : Z) (b : lbuf) : lbuf :=
  mk_lbuf (b_mem b) (b_rlimit b) (b_cur b) (b_line_base b) (b_next_line b) ns (b_cur_note b)
    cap (b_need_line b) (b_warned_cplusplus_comments b) (b_from_stage3 b) (b_sysp b).
Definition set_cur_note (n : nat) (b : lbuf) : lbuf :=
  mk_lbuf (b_mem b) (b_rlimit b) (b_cur b) (b_line_base b) (b_next_line b) (b_notes b) n
    (b_notes_cap b) (b_need_line b) (b_warned_cplusplus_comments b) (b_from_stage3 b) (b_sysp b).
Definition set_need_line (n : bool) (b : lbuf) : lbuf :=
  mk_lbuf (b_mem b) (b_rlimit b) (b_cur b) (b_line_base b) (b_next_line b) (b_notes b)
    (b_cur_note b) (b_notes_cap b) n (b_warned_cplusplus_comments b) (b_from_stage3 b) (b_sysp b).
Definition set_warned_comments (w : bool) (b : lbuf) : lbuf :=
  mk_lbuf (b_mem b) (b_rlimit b) (b_cur b) (b_line_base b) (b_next_line b) (b_notes b)
    (b_cur_note b) (b_notes_cap b) (b_need_line b) w (b_from_stage3 b) (b_sysp b).

(** [*p] and [*p = c]. *)
Definition rd (b : lbuf) (p : Z) : option byte :=
  if 0 <=? p then b_mem b !! Z.to_nat p else None.
Definition wr (b : lbuf) (p : Z) (c : byte) : option lbuf :=
  if (0 <=? p) && (p <? Z.of_nat (length (b_mem b)))
  then Some (set_mem (<[Z.to_nat p := c]> (b_mem b)) b) else None.

Definition add_line_note (b : lbuf) (pos type : Z) : lbuf :=
  let cap := b_notes_cap b in
  let cap := if Z.of_nat (length (b_notes b)) =? cap then cap * 2 + 200 else cap in
  set_notes (b_notes b ++ [mk_note pos type]) cap b.

(** init.c: the character a trigraph stands for, by its third character. *)
Definition _cpp_trigraph_map (c : byte) : byte :=
  if c =? 61 then 35 else if c =? 41 then 93 else if c =? 33 then 124
  else if c =? 40 then 91 else if c =? 39 then 94 else if c =? 62 then 125
  else if c =? 47 then 92 else if c =? 60 then 123 else if c =? 45 then 126 else 0.

(** internal.h: horizontal and vertical white space. *)
Definition is_nvspace (c : byte) : bool :=
  (c =? 32) || (c =? 9) || (c =? 12) || (c =? 11) || (c =? 0).
Definition is_vspace (c : byte) : bool := (c =? 10) || (c =? 13).

(** ** _cpp_clean_line *)

Section Clean.
  Variable o : cpp_options.
  Variable search : (Z -> byte) -> Z -> Z -> option Z.

(** [search_line_fast (s, buffer->rlimit)], from the byte at [s]. *)
Definition search_line_fast (b : lbuf) (s : Z) : option Z :=
  search (fun p => default 0 (rd b p)) s (b_rlimit b).

(** How the fast path ends: at a newline or carriage return [s], or at a
    trigraph that was converted, in the slow path. *)
Inductive fast_end : Type :=
  | FBreak (b : lbuf) (s : Z) (c : byte) (pbackslash : option Z)
  | FSlow (b : lbuf) (d s : Z).

Fixpoint fast_path (fuel : nat) (b : lbuf) (s : Z) (pbackslash : option Z) : option fast_end :=
  match fuel with
  | O => None
  | S fuel =>
      s ← search_line_fast b s;
      c ← rd b s;
      if c =? 92 then fast_path fuel b (s + 1) (Some s)
      else if c =? 63 then
        c1 ← rd b (s + 1);
        c2 ← (if c1 =? 63 then rd b (s + 2) else Some 0);
        if (c1 =? 63) && negb (_cpp_trigraph_map c2 =? 0) then
          let b := add_line_note b s c2 in
          if trigraphs o then
            b ← wr b s (_cpp_trigraph_map c2);
            Some (FSlow b s (s + 2))
          else fast_path fuel b (s + 1) pbackslash
        else fast_path fuel b (s + 1) pbackslash
      else Some (FBreak b s c pbackslash)
  end.

(** [while (is_nvspace (p[-1])) p--;], not going below [low] where there is a bound. *)
Fixpoint skip_back (fuel : nat) (b : lbuf) (low : option Z) (p : Z) : option Z :=
  match fuel with
  | O => None
  | S fuel =>
      if bool_decide (low = Some p) then Some p
      else
        c ← rd b (p - 1);
        if is_nvspace c then skip_back fuel b low (p - 1) else Some p
  end.

(** Drop an escaped newline: the note, [d] and [buffer->next_line]. *)
Definition splice (b : lbuf) (p d : Z) : lbuf * Z :=
  (set_next_line (p - 1) (add_line_note b (p - 1) (if negb (p =? d) then 32 else 92)), p - 2).

(** A DOS line ending at [s]: the position of its newline. *)
Definition dos_newline (b : lbuf) (s : Z) (c : byte) : option Z :=
  if (c =? 13) && negb (s =? b_rlimit b) then
    c1 ← rd b (s + 1);
    Some (if c1 =? 10 then s + 1 else s)
  else Some s.

(** The slow path, which delivers the final [d] and [s]. *)
Fixpoint slow_path (fuel : nat) (b : lbuf) (d s : Z) : option (lbuf * Z * Z) :=
  match fuel with
  | O => None
  | S fuel =>
      let s := s + 1 in
      c ← rd b s;
      let d := d + 1 in
      b ← wr b d c;
      if is_vspace c then
        s ← dos_newline b s c;
        if s =? b_rlimit b then Some (b, d, s)
        else
          p ← skip_back (S (length (b_mem b))) b (Some (b_next_line b)) d;
          if p =? b_next_line b then Some (b, d, s)
          else
            c1 ← rd b (p - 1);
            if negb (c1 =? 92) then Some (b, d, s)
            else let '(b, d) := splice b p d in slow_path fuel b d s
      else if c =? 63 then
        c1 ← rd b (s + 1);
        c2 ← (if c1 =? 63 then rd b (s + 2) else Some 0);
        if (c1 =? 63) && negb (_cpp_trigraph_map c2 =? 0) then
          let b := add_line_note b d c2 in
          if trigraphs o then
            b ← wr b d (_cpp_trigraph_map c2);
            slow_path fuel b d (s + 2)
          else slow_path fuel b d s
        else slow_path fuel b d s
      else slow_path fuel b d s
  end.

(** A line of a buffer that went through this phase already. *)
Fixpoint stage3_line (fuel : nat) (b : lbuf) (s : Z) : option (lbuf * Z * Z) :=
  match fuel with
  | O => None
  | S fuel =>
      c ← rd b s;
      if negb (is_vspace c) then stage3_line fuel b (s + 1)
      else s' ← dos_newline b s c; Some (b, s, s')
  end.

(** After the fast path: DOS line endings and the first escaped newline. *)
Definition after_fast (b : lbuf) (s : Z) (c : byte) (pbackslash : option Z)
  : option (lbuf * Z * Z) :=
  let d := s in
  if s =? b_rlimit b then Some (b, d, s)
  else
    s ← dos_newline b s c;
    if s =? b_rlimit b then Some (b, d, s)
    else
      match pbackslash with
      | None => Some (b, d, s)
      | Some pb =>
          p ← skip_back (S (length (b_mem b))) b None d;
          if negb (p - 1 =? pb) then Some (b, d, s)
          else let '(b, d) := splice b p d in slow_path (S (length (b_mem b))) b d s
      end.

(** The buffer at the start of a line. *)
Definition start_clean (b : lbuf) : lbuf :=
  set_need_line false (set_line_base (b_next_line b) (set_cur (b_next_line b)
    (set_notes [] (b_notes_cap b) (set_cur_note 0 b)))).

(** The pass over the line, up to [done:]. *)
Definition line_pass (b : lbuf) : option (lbuf * Z * Z) :=
  let s := b_next_line b in
  if negb (b_from_stage3 b) then
    e ← fast_path (S (length (b_mem b))) b s None;
    match e with
    | FBreak b s c pbackslash => after_fast b s c pbackslash
    | FSlow b d s => slow_path (S (length (b_mem b))) b d s
    end
  else stage3_line (S (length (b_mem b))) b s.

Definition _cpp_clean_line (b : lbuf) : option lbuf :=
  '(b, d, s) ← line_pass (start_clean b);
  b ← wr b d 10;
  let b := add_line_note b (d + 1) 10 in
  Some (set_next_line (s + 1) b).

End Clean.

(** ** The reference: translation phases 1 and 2 *)

(** A line of the text, and what follows its newline, its carriage return or
    its carriage return and newline. *)
Fixpoint physical_line (l : list byte) : list byte * list byte :=
  match l with
  | [] => ([], [])
  | c :: l' =>
      if c =? 10 then ([], l')
      else if c =? 13 then
        ([], match l' with c' :: l'' => if c' =? 10 then l'' else l' | [] => [] end)
      else (c :: fst (physical_line l'), snd (physical_line l'))
  end.

Fixpoint physical_lines_of (fuel : nat) (l : list byte) : list (list byte) :=
  match fuel, l with
  | S fuel, _ :: _ => fst (physical_line l) :: physical_lines_of fuel (snd (physical_line l))
  | _, _ => []
  end.

Definition physical_lines (l : list byte) : list (list byte) := physical_lines_of (length l) l.

(** Whether a text starts with a trigraph, and its third character. *)
Definition trigraph_at (l : list byte) : option byte :=
  match l with
  | c :: c1 :: c2 :: _ =>
      if (c =? 63) && (c1 =? 63) && negb (_cpp_trigraph_map c2 =? 0) then Some c2 else None
  | _ => None
  end.

(** Phase 1 on a line: the trigraphs are replaced if [trig], and noted in any
    case; [pos] is the position at which the line is to stand. *)
Fixpoint phase1 (trig : bool) (pos : Z) (l : list byte) : list byte * list line_note :=
  match l with
  | [] => ([], [])
  | c :: l1 =>
      let plain := (c :: fst (phase1 trig (pos + 1) l1), snd (phase1 trig (pos + 1) l1)) in
      match l1 with
      | c1 :: c2 :: l2 =>
          if (c =? 63) && (c1 =? 63) && negb (_cpp_trigraph_map c2 =? 0) then
            if trig then (_cpp_trigraph_map c2 :: fst (phase1 trig (pos + 1) l2),
                          mk_note pos c2 :: snd (phase1 trig (pos + 1) l2))
            else (fst plain, mk_note pos c2 :: snd plain)
          else plain
      | _ => plain
      end
  end.

(** A line that ends in a backslash and white space: what precedes the
    backslash, and whether there is white space. *)
Fixpoint strip (l : list byte) : list byte :=
  match l with
  | [] => []
  | c :: l' => match strip l' with [] => if is_nvspace c then [] else [c] | r => c :: r end
  end.

Definition escaped (l : list byte) : option (list byte * bool) :=
  let x := strip l in
  if List.last x 0 =? 92
  then Some (removelast x, negb (Nat.eqb (length x) (length l))) else None.

(** Phase 2: a line that ends in an escaped newline, and is not the last one,
    is joined to what follows.  The result is the logical line, the notes and
    the physical lines that are left. *)
Fixpoint splice_lines (trig : bool) (pos : Z) (ls : list (list byte))
  : list byte * list line_note * list (list byte) :=
  match ls with
  | [] => ([], [], [])
  | x :: ls =>
      let '(y, n) := phase1 trig pos x in
      match ls, escaped y with
      | _ :: _, Some (z, sp) =>
          let pos' := pos + Z.of_nat (length z) in
          let '(w, n', ls') := splice_lines trig pos' ls in
          (z ++ w, n ++ mk_note pos' (if sp then 32 else 92) :: n', ls')
      | _, _ => (y, n, ls)
      end
  end.

(** Phase 2 on all the lines of a text. *)
Fixpoint join_lines (trig : bool) (ls : list (list byte)) : list (list byte) :=
  match ls with
  | [] => []
  | x :: ls =>
      let y := fst (phase1 trig 0 x) in
      match escaped y, join_lines trig ls with
      | Some (z, _), w :: ws => (z ++ w) :: ws
      | _, ws => y :: ws
      end
  end.

(** The lines of a buffer, cleaned one after the other for as long as
    _cpp_get_fresh_line asks for one; each is read up to its newline. *)
Fixpoint clean_lines (o : cpp_options) (search : (Z -> byte) -> Z -> Z -> option Z) (fuel : nat)
  (b : lbuf) : option (list (list byte)) :=
  if b_next_line b <? b_rlimit b then
    match fuel with
    | O => None
    | S fuel =>
        b ← _cpp_clean_line o search b;
        let line := fst (physical_line (drop (Z.to_nat (b_cur b)) (b_mem b))) in
        lines ← clean_lines o search fuel b;
        Some (line :: lines)
    end
  else Some [].

(** ** Lines *)

Lemma physical_line_shorter l : l <> [] -> (length (snd (physical_line l)) < length l)%nat.
Proof.
  induction l as [|c l IH]; [done|]. intros _. simpl.
  destruct (c =? 10); [simpl; lia|]. destruct (c =? 13).
  - destruct l as [|c' l]; simpl; [lia|]. destruct (c' =? 10); simpl; lia.
  - simpl. destruct l as [|c' l]; [simpl; lia|]. specialize (IH ltac:(done)). lia.
Qed.

Lemma physical_lines_fuel f f' l : (length l <= f)%nat -> (length l <= f')%nat ->
  physical_lines_of f l = physical_lines_of f' l.
Proof.
  revert f' l. induction f as [|f IH]; intros f' l Hf Hf'.
  - destruct l; [|simpl in Hf; lia]. by destruct f'.
  - destruct l as [|c l]; [by destruct f'|]. destruct f' as [|f']; [simpl in Hf'; lia|].
    cbn [physical_lines_of]. f_equal.
    pose proof (physical_line_shorter (c :: l) ltac:(done)). apply IH; simpl in *; lia.
Qed.

Lemma physical_lines_cons l : l <> [] ->
  physical_lines l = fst (physical_line l) :: physical_lines (snd (physical_line l)).
Proof.
  intros Hl. pose proof (physical_line_shorter l Hl). unfold physical_lines at 1.
  destruct l as [|c l]; [done|]. cbn [length physical_lines_of]. f_equal.
  apply physical_lines_fuel; simpl in *; lia.
Qed.

Lemma physical_lines_nil l : physical_lines l = [] <-> l = [].
Proof.
  split; [|by intros ->]. destruct l as [|c l]; [done|]. by rewrite physical_lines_cons.
Qed.

(** Text and notes in front of the result for what follows. *)
Definition with_prefix (z : list byte) (n : list line_note)
  (r : list byte * list line_note * list (list byte)) : list byte * list line_note * list (list byte) :=
  (z ++ fst (fst r), n ++ snd (fst r), snd r).

Lemma with_prefix_app z n z' n' r :
  with_prefix z n (with_prefix z' n' r) = with_prefix (z ++ z') (n ++ n') r.
Proof. unfold with_prefix. simpl. by rewrite !app_assoc. Qed.

(** A physical line [Y] at [pos] was read, and [rest] follows it. *)
Definition finish_line (trig : bool) (pos : Z) (Y rest : list byte)
  : list byte * list line_note * list (list byte) :=
  match rest, escaped Y with
  | _ :: _, Some (z, sp) =>
      let pos' := pos + Z.of_nat (length z) in
      with_prefix z [mk_note pos' (if sp then 32 else 92)]
        (splice_lines trig pos' (physical_lines rest))
  | _, _ => (Y, [], physical_lines rest)
  end.

(** The part [X] of a line was read, and [l] is left. *)
Definition splice_from (trig : bool) (X : list byte) (pos : Z) (l : list byte)
  : list byte * list line_note * list (list byte) :=
  let '(x, rest) := physical_line l in
  let '(y, n) := phase1 trig (pos + Z.of_nat (length X)) x in
  with_prefix [] n (finish_line trig pos (X ++ y) rest).

Lemma splice_lines_from trig pos l : l <> [] ->
  splice_lines trig pos (physical_lines l) = splice_from trig [] pos l.
Proof.
  intros Hl. rewrite physical_lines_cons by done. unfold splice_from, finish_line.
  destruct (physical_line l) as [x rest]. cbn [fst snd splice_lines length].
  replace (pos + Z.of_nat 0) with pos by lia. destruct (phase1 trig pos x) as [y n].
  rewrite app_nil_l. unfold with_prefix.
  destruct rest as [|c rest]; cbn [fst snd app]; [by rewrite app_nil_r|].
  rewrite (physical_lines_cons (c :: rest)) by done.
  destruct (escaped y) as [[z sp]|]; cbn [fst snd app]; [|by rewrite app_nil_r].
  by destruct (splice_lines _ _ _) as [[w n'] ls'].
Qed.

Lemma physical_line_plain c l : is_vspace c = false ->
  physical_line (c :: l) = (c :: fst (physical_line l), snd (physical_line l)).
Proof. unfold is_vspace. intros H. apply orb_false_iff in H as [H1 H2]. simpl. by rewrite H1, H2. Qed.

(** The test for a trigraph looks at the same characters in a line and in the
    text it is a line of. *)
Lemma trigraph_at_line c l : trigraph_at (c :: fst (physical_line l)) = trigraph_at (c :: l).
Proof.
  assert (forall c1 c2, (c1 =? 63) && negb (_cpp_trigraph_map c2 =? 0) = true ->
    is_vspace c1 = false /\ is_vspace c2 = false) as Hmap.
  { intros c1 c2 [Hc1%Z.eqb_eq Hc2]%andb_true_iff. subst c1. split; [done|]. unfold is_vspace.
    apply orb_false_iff. split; apply Z.eqb_neq; by intros ->. }
  destruct l as [|c1 [|c2 l]]; [done|..].
  - simpl. by destruct (c1 =? 10), (c1 =? 13).
  - destruct ((c1 =? 63) && negb (_cpp_trigraph_map c2 =? 0)) eqn:E.
    + destruct (Hmap _ _ E) as [H1 H2]. by rewrite !physical_line_plain.
    + cbn [trigraph_at]. rewrite <- andb_assoc, E, andb_false_r.
      destruct (is_vspace c1) eqn:H1.
      { simpl. unfold is_vspace in H1. by destruct (c1 =? 10), (c1 =? 13). }
      rewrite physical_line_plain by done. cbn [fst].
      destruct (is_vspace c2) eqn:H2.
      { simpl. unfold is_vspace in H2. by destruct (c2 =? 10), (c2 =? 13). }
      rewrite physical_line_plain by done. cbn [fst trigraph_at].
      by rewrite <- andb_assoc, E, andb_false_r.
Qed.

Lemma phase1_plain trig pos c l : trigraph_at (c :: l) = None ->
  phase1 trig pos (c :: l) = (c :: fst (phase1 trig (pos + 1) l), snd (phase1 trig (pos + 1) l)).
Proof.
  destruct l as [|c1 [|c2 l]]; [done..|]. cbn [trigraph_at]. intros H.
  remember (c1 :: c2 :: l) as l1 eqn:E. cbn [phase1]. rewrite E at 1.
  by destruct ((c =? 63) && (c1 =? 63) && negb (_cpp_trigraph_map c2 =? 0)).
Qed.

Lemma phase1_kept pos c1 c2 l : trigraph_at (63 :: c1 :: c2 :: l) = Some c2 ->
  phase1 false pos (63 :: c1 :: c2 :: l) =
  (63 :: fst (phase1 false (pos + 1) (c1 :: c2 :: l)),
   mk_note pos c2 :: snd (phase1 false (pos + 1) (c1 :: c2 :: l))).
Proof.
  cbn [trigraph_at]. intros H. remember (c1 :: c2 :: l) as l1 eqn:E. cbn [phase1]. rewrite E at 1.
  destruct ((63 =? 63) && (c1 =? 63) && negb (_cpp_trigraph_map c2 =? 0)); [done|discriminate].
Qed.

Lemma phase1_replaced pos c1 c2 l : trigraph_at (63 :: c1 :: c2 :: l) = Some c2 ->
  phase1 true pos (63 :: c1 :: c2 :: l) =
  (_cpp_trigraph_map c2 :: fst (phase1 true (pos + 1) l),
   mk_note pos c2 :: snd (phase1 true (pos + 1) l)).
Proof.
  cbn [trigraph_at]. intros H. remember (c1 :: c2 :: l) as l1 eqn:E. cbn [phase1]. rewrite E at 1.
  destruct ((63 =? 63) && (c1 =? 63) && negb (_cpp_trigraph_map c2 =? 0)); [done|discriminate].
Qed.

(** ** Reading a line character by character *)

Lemma splice_from_plain trig X pos c l : is_vspace c = false -> trigraph_at (c :: l) = None ->
  splice_from trig X pos (c :: l) = splice_from trig (X ++ [c]) pos l.
Proof.
  intros Hc Ht. unfold splice_from. rewrite physical_line_plain by done.
  destruct (physical_line l) as [x rest] eqn:E. cbn [fst snd].
  pose proof (trigraph_at_line c l) as Hl. rewrite E, Ht in Hl. rewrite phase1_plain by done.
  rewrite length_app. cbn [length].
  replace (pos + Z.of_nat (length X + 1)) with (pos + Z.of_nat (length X) + 1) by lia.
  destruct (phase1 trig _ x) as [y n]. cbn [fst snd]. by rewrite <- (assoc_L app X [c] y).
Qed.

Lemma trigraph_at_Some l c2 : trigraph_at l = Some c2 ->
  exists l', l = 63 :: 63 :: c2 :: l' /\ negb (_cpp_trigraph_map c2 =? 0) = true /\ is_vspace c2 = false.
Proof.
  destruct l as [|c [|c1 [|c' l]]]; [done..|]. cbn [trigraph_at]. intros H.
  destruct ((c =? 63) && (c1 =? 63) && negb (_cpp_trigraph_map c' =? 0)) eqn:E; [|done].
  injection H as <-. apply andb_true_iff in E as [[->%Z.eqb_eq ->%Z.eqb_eq]%andb_true_iff Hm].
  exists l. split; [done|]. split; [done|]. unfold is_vspace.
  apply orb_false_iff. split; apply Z.eqb_neq; by intros ->.
Qed.

Lemma splice_from_kept X pos l c2 : trigraph_at (63 :: l) = Some c2 ->
  splice_from false X pos (63 :: l) =
  with_prefix [] [mk_note (pos + Z.of_nat (length X)) c2] (splice_from false (X ++ [63]) pos l).
Proof.
  intros Ht. destruct (trigraph_at_Some _ _ Ht) as (l' & [= ->] & Hm & Hv).
  unfold splice_from. rewrite !physical_line_plain by done.
  destruct (physical_line l') as [x rest]. cbn [fst snd].
  rewrite phase1_kept by (cbn [trigraph_at]; by rewrite Hm).
  rewrite length_app. cbn [length].
  replace (pos + Z.of_nat (length X + 1)) with (pos + Z.of_nat (length X) + 1) by lia.
  destruct (phase1 _ _ _) as [y n]. cbn [fst snd].
  by rewrite with_prefix_app, <- (assoc_L app X [63] y).
Qed.

Lemma splice_from_trigraph X pos l c2 : trigraph_at (63 :: 63 :: c2 :: l) = Some c2 ->
  splice_from true X pos (63 :: 63 :: c2 :: l) =
  with_prefix [] [mk_note (pos + Z.of_nat (length X)) c2]
    (splice_from true (X ++ [_cpp_trigraph_map c2]) pos l).
Proof.
  intros Ht. destruct (trigraph_at_Some _ _ Ht) as (l' & [= <-] & Hm & Hv).
  unfold splice_from. rewrite !physical_line_plain by done.
  destruct (physical_line l) as [x rest]. cbn [fst snd].
  rewrite phase1_replaced by (cbn [trigraph_at]; by rewrite Hm). cbn [fst snd].
  rewrite length_app. cbn [length].
  replace (pos + Z.of_nat (length X + 1)) with (pos + Z.of_nat (length X) + 1) by lia.
  destruct (phase1 _ _ _) as [y n]. cbn [fst snd].
  by rewrite with_prefix_app, <- (assoc_L app X [_] y).
Qed.

(** The end of a physical line. *)
Definition after_newline (c : byte) (l : list byte) : list byte :=
  match l with c' :: l' => if (c =? 13) && (c' =? 10) then l' else l | [] => [] end.

Lemma splice_from_newline trig X pos c l : is_vspace c = true ->
  splice_from trig X pos (c :: l) = finish_line trig pos X (after_newline c l).
Proof.
  intros Hc. unfold splice_from. assert (physical_line (c :: l) = ([], after_newline c l)) as ->.
  { unfold is_vspace in Hc. simpl. unfold after_newline.
    destruct (Z.eqb_spec c 10) as [->|]; [by destruct l|]. simpl in Hc. rewrite Hc.
    by destruct l. }
  cbn [phase1]. rewrite app_nil_r. unfold with_prefix. simpl. by destruct (finish_line _ _ _ _) as [[??]?].
Qed.

(** ** Memory *)

Local Notation zlen l := (Z.of_nat (length l)).

Lemma rd_app b a c r p : b_mem b = a ++ c :: r -> p = zlen a -> rd b p = Some c.
Proof.
  intros Hm ->. unfold rd. rewrite (proj2 (Z.leb_le _ _)) by lia. rewrite Nat2Z.id, Hm.
  by rewrite lookup_app_r, Nat.sub_diag by lia.
Qed.

Lemma wr_app b a c c' r p : b_mem b = a ++ c :: r -> p = zlen a ->
  wr b p c' = Some (set_mem (a ++ c' :: r) b).
Proof.
  intros Hm ->. unfold wr. rewrite Hm, length_app. simpl.
  rewrite (proj2 (Z.leb_le _ _)), (proj2 (Z.ltb_lt _ _)), Nat2Z.id by lia. simpl.
  rewrite insert_app_r_alt, Nat.sub_diag by lia. done.
Qed.

(** Equations between lengths. *)
Ltac len := unfold byte in *; rewrite ?length_app in *; cbn [length] in *;
  rewrite ?length_app in *; cbn [length] in *; lia.

(** A text that ends with a newline or a carriage return, as a buffer does. *)
Definition ends_line (l : list byte) : Prop := exists l0 t, l = l0 ++ [t] /\ is_vspace t = true.

Lemma ends_line_cons c l : ends_line (c :: l) -> l <> [] -> ends_line l.
Proof.
  intros (l0 & t & E & Ht) Hl. destruct l0 as [|c' l0]; [by injection E as _ ->|].
  injection E as -> ->. by exists l0, t.
Qed.

Lemma ends_line_more c l : ends_line (c :: l) -> is_vspace c = false -> l <> [] /\ ends_line l.
Proof.
  intros H Hc. assert (l <> []) as Hl.
  { intros ->. destruct H as ([|c' l0] & t & E & Ht); [injection E as ->; congruence|].
    injection E as _ E. by destruct l0. }
  split; [done|]. by apply (ends_line_cons c).
Qed.

Lemma ends_line_suffix k l : ends_line (k ++ l) -> l <> [] -> ends_line l.
Proof.
  induction k as [|c k IH]; [done|]. intros H Hl. apply IH; [|done].
  apply (ends_line_cons c); [done|]. by destruct k.
Qed.

(** ** The pieces of the pass *)

Lemma dos_newline_spec b a c l s : b_mem b = a ++ l -> zlen a = s + 1 ->
  b_rlimit b = zlen (b_mem b) - 1 -> is_vspace c = true ->
  dos_newline b s c = Some (b_rlimit b - zlen (after_newline c l)).
Proof.
  intros Hm Ha Hr Hc. rewrite Hm, length_app in Hr. unfold dos_newline, after_newline.
  destruct l as [|c' l]; cbn [length] in *.
  - rewrite (proj2 (Z.eqb_eq s _)) by lia. rewrite andb_false_r. f_equal. lia.
  - rewrite (proj2 (Z.eqb_neq s _)) by lia. rewrite andb_true_r.
    destruct (c =? 13) eqn:E.
    + rewrite (rd_app b a c' l) by done.
      simpl. destruct (c' =? 10); f_equal; simpl; lia.
    + simpl. f_equal. lia.
Qed.

Lemma after_newline_suffix c l : exists k, l = k ++ after_newline c l.
Proof.
  destruct l as [|c' l]; [by exists []|]. unfold after_newline.
  destruct ((c =? 13) && (c' =? 10)); [by exists [c']|by exists []].
Qed.

Lemma strip_snoc X c : strip (X ++ [c]) = if is_nvspace c then strip X else X ++ [c].
Proof.
  induction X as [|x X IH]; simpl; [done|]. rewrite IH. destruct (is_nvspace c); [done|].
  by destruct (X ++ [c]) eqn:E; [destruct X|].
Qed.

Lemma strip_prefix X : exists sp, X = strip X ++ sp.
Proof.
  induction X as [|c X [sp IH]] using rev_ind; [by exists []|]. rewrite strip_snoc.
  destruct (is_nvspace c); [|exists []; by rewrite app_nil_r].
  exists (sp ++ [c]). rewrite IH at 1. by rewrite app_assoc.
Qed.

Lemma skip_back_spec b pre X r low : b_mem b = pre ++ X ++ r ->
  low = Some (zlen pre) \/ (low = None /\ strip X <> []) ->
  forall fuel, (length X < fuel)%nat ->
  skip_back fuel b low (zlen (pre ++ X)) = Some (zlen (pre ++ strip X)).
Proof.
  revert r. induction X as [|c X IH] using rev_ind; intros r Hm Hlow fuel Hf.
  - destruct Hlow as [->|[_ H]]; [|done]. destruct fuel; [lia|]. simpl.
    rewrite app_nil_r, bool_decide_true; done.
  - rewrite length_app in Hf. simpl in Hf. destruct fuel as [|fuel]; [lia|]. cbn [skip_back].
    rewrite bool_decide_false.
    2: { rewrite app_assoc, length_app. simpl. destruct Hlow as [->|[-> _]]; [|done].
         intros [= E]. rewrite length_app in E. lia. }
    rewrite (rd_app b (pre ++ X) c r) by (rewrite ?Hm, <- ?app_assoc, ?length_app; simpl; done || lia).
    simpl. rewrite strip_snoc in *. destruct (is_nvspace c); [|done].
    rewrite <- (IH (c :: r)) with (fuel := fuel); [f_equal|by rewrite Hm, <- app_assoc|done|lia].
    rewrite !length_app. simpl. lia.
Qed.

Lemma escaped_spec X z : strip X = z ++ [92] ->
  escaped X = Some (z, negb (zlen (strip X) =? zlen X)).
Proof.
  intros E. unfold escaped. rewrite E, List.last_last, removelast_last. simpl. do 2 f_equal.
  unfold byte in *.
  destruct (Nat.eqb_spec (length (z ++ [92])) (length X)), (Z.eqb_spec (zlen (z ++ [92])) (zlen X));
    done || lia.
Qed.

Lemma escaped_none X z c : strip X = z ++ [c] -> c <> 92 -> escaped X = None.
Proof. intros E Hc. unfold escaped. rewrite E, List.last_last. by rewrite (proj2 (Z.eqb_neq _ _)). Qed.

(** The test for a trigraph, as the code reads the bytes. *)
Lemma look_ahead b a l p : b_mem b = a ++ l -> zlen a = p + 1 -> ends_line (63 :: l) ->
  exists c1 c2, rd b (p + 1) = Some c1 /\
    (if c1 =? 63 then rd b (p + 2) else Some 0) = Some c2 /\
    match trigraph_at (63 :: l) with
    | Some c' => (c1 =? 63) && negb (_cpp_trigraph_map c2 =? 0) = true /\ c2 = c'
    | None => (c1 =? 63) && negb (_cpp_trigraph_map c2 =? 0) = false
    end.
Proof.
  intros Hm Ha Hl. destruct (ends_line_more _ _ Hl eq_refl) as [Hne Hl1].
  destruct l as [|c1 l]; [done|]. exists c1. rewrite (rd_app b a c1 l) by done.
  destruct (Z.eqb_spec c1 63) as [->|Hc1].
  - destruct (ends_line_more _ _ Hl1 eq_refl) as [Hne2 _]. destruct l as [|c2 l]; [done|].
    exists c2. rewrite (rd_app b (a ++ [63]) c2 l)
      by (rewrite ?Hm, <- ?app_assoc, ?length_app; simpl; done || lia).
    split; [done|]. split; [done|]. cbn [trigraph_at]. simpl.
    by destruct (negb (_cpp_trigraph_map c2 =? 0)).
  - exists 0. split; [done|]. split; [done|]. cbn [trigraph_at]. destruct l; [done|].
    by rewrite (proj2 (Z.eqb_neq c1 63) Hc1).
Qed.

Lemma trigraph_at_other c l : c <> 63 -> trigraph_at (c :: l) = None.
Proof. intros Hc. destruct l as [|?[|??]]; [done..|]. cbn [trigraph_at]. by rewrite (proj2 (Z.eqb_neq c 63) Hc). Qed.

(** ** The slow path *)

(** The fields the cleaning of a line leaves alone once it has started. *)
Definition fixed (b : lbuf) :=
  (b_rlimit b, b_cur b, b_line_base b, b_cur_note b, b_need_line b,
   b_warned_cplusplus_comments b, b_from_stage3 b, b_sysp b).

(** From [b], with [l] to read, the pass has produced [r] behind [pre ++ Y]:
    the text ends at [d'], and [s'] is the last byte that was read. *)
Definition cleaned (b b' : lbuf) (d' s' : Z) (pre Y l : list byte)
  (r : list byte * list line_note * list (list byte)) : Prop :=
  exists junk src k,
    b_mem b' = pre ++ Y ++ fst (fst r) ++ junk ++ src /\ junk <> [] /\
    length (b_mem b') = length (b_mem b) /\ l = k ++ src /\
    d' = zlen (pre ++ Y ++ fst (fst r)) /\ s' + 1 = b_rlimit b + 1 - zlen src /\
    physical_lines src = snd r /\ b_notes b' = b_notes b ++ snd (fst r) /\ fixed b' = fixed b.

Lemma cleaned_step b b1 b' d' s' pre Y z l l' k n r :
  cleaned b1 b' d' s' pre (Y ++ z) l' r -> l = k ++ l' -> fixed b1 = fixed b ->
  length (b_mem b1) = length (b_mem b) -> b_notes b1 = b_notes b ++ n ->
  cleaned b b' d' s' pre Y l (with_prefix z n r).
Proof.
  intros (junk & src & k' & Hm & Hj & Hlen & Hl' & Hd & Hs & Hp & Hn & Hf) Hl Hf1 Hlen1 Hn1.
  assert (b_rlimit b1 = b_rlimit b) as Hr by (unfold fixed in Hf1; congruence).
  exists junk, src, (k ++ k'). unfold with_prefix. cbn [fst snd].
  split_and!; [by rewrite Hm, !app_assoc|done|lia|by rewrite Hl, Hl', app_assoc| |lia|done| |congruence].
  - by rewrite Hd, !app_assoc.
  - by rewrite Hn, Hn1, app_assoc.
Qed.

Lemma with_prefix_nil r : with_prefix [] [] r = r.
Proof. by destruct r as [[??]?]. Qed.

(** The notes and the next line of a splice. *)
Lemma splice_fields b p d : let b' := fst (splice b p d) in
  b_mem b' = b_mem b /\ fixed b' = fixed b /\ b_next_line b' = p - 1 /\
  b_notes b' = b_notes b ++ [mk_note (p - 1) (if negb (p =? d) then 32 else 92)].
Proof. done. Qed.

Section CleanProofs.
  Variable o : cpp_options.

Definition slow_from (l : list byte) : Prop :=
  forall fuel b pre Y X junk,
    b_mem b = pre ++ Y ++ X ++ junk ++ l -> b_next_line b = zlen (pre ++ Y) ->
    b_rlimit b = zlen (b_mem b) - 1 -> ends_line l -> (length l < fuel)%nat ->
    exists b' d' s',
      slow_path o fuel b (zlen (pre ++ Y ++ X) - 1) (zlen (pre ++ Y ++ X ++ junk) - 1) = Some (b', d', s') /\
      cleaned b b' d' s' pre Y l (splice_from (trigraphs o) X (zlen (pre ++ Y)) l).

(** Writing one character behind the text moves the gap by one. *)
Lemma write_gap (a junk : list byte) c l : exists x junk',
  a ++ junk ++ c :: l = a ++ x :: junk' ++ l /\ length junk' = length junk.
Proof.
  destruct junk as [|j junk]; [by exists c, []|]. exists j, (junk ++ [c]).
  split; [by rewrite <- app_assoc|]. rewrite length_app. simpl. lia.
Qed.

(** The end of a physical line in the slow path. *)
Lemma slow_newline l c fuel b pre Y X junk :
  (forall l', (length l' <= length l)%nat -> slow_from l') ->
  b_mem b = pre ++ Y ++ X ++ [c] ++ junk ++ l -> b_next_line b = zlen (pre ++ Y) ->
  b_rlimit b = zlen (b_mem b) - 1 -> ends_line (c :: l) -> is_vspace c = true ->
  (length l < fuel)%nat ->
  exists b' d' s',
    (let d := zlen (pre ++ Y ++ X) in
     s ← Some (b_rlimit b - zlen (after_newline c l));
     if s =? b_rlimit b then Some (b, d, s)
     else
       p ← skip_back (S (length (b_mem b))) b (Some (b_next_line b)) d;
       if p =? b_next_line b then Some (b, d, s)
       else
         c1 ← rd b (p - 1);
         if negb (c1 =? 92) then Some (b, d, s)
         else let '(b, d) := splice b p d in slow_path o fuel b d s) = Some (b', d', s') /\
    cleaned b b' d' s' pre Y (c :: l) (finish_line (trigraphs o) (zlen (pre ++ Y)) X (after_newline c l)).
Proof.
  intros IH Hm Hnl Hr Hend Hc Hf. cbv zeta. cbn [mbind option_bind].
  destruct (after_newline_suffix c l) as [k Hk]. set (l' := after_newline c l) in *.
  assert (cleaned b b (zlen (pre ++ Y ++ X)) (b_rlimit b - zlen l') pre Y (c :: l)
            (X, [], physical_lines l')) as Hstop.
  { exists ([c] ++ junk ++ k), l', (c :: k). cbn [fst snd].
    split_and!; try done; [by rewrite Hm, Hk, <- !app_assoc|by rewrite Hk|lia|by rewrite app_nil_r]. }
  unfold finish_line.
  assert (l' = [] \/ l' <> []) as [Hl'|Hne'] by (destruct l'; [by left|by right]).
  { rewrite Hl' in *. cbn [length] in *. rewrite (proj2 (Z.eqb_eq _ _)) by lia. eauto. }
  rewrite (proj2 (Z.eqb_neq _ _)) by (destruct l'; simpl; done || lia).
  replace (match l' with [] => _ | _ :: _ => _ end) with
    (match escaped X with
     | Some (z, sp) =>
         let pos' := zlen (pre ++ Y) + zlen z in
         with_prefix z [mk_note pos' (if sp : bool then 32 else 92)]
           (splice_lines (trigraphs o) pos' (physical_lines l'))
     | None => (X, [], physical_lines l')
     end) by by destruct l'.
  rewrite Hnl, (app_assoc pre Y X).
  rewrite (skip_back_spec b (pre ++ Y) X (c :: junk ++ l)); cycle 1.
  { by rewrite Hm, <- !app_assoc. }
  { by left. }
  { rewrite Hm, !length_app. lia. }
  cbn [mbind option_bind]. destruct (strip_prefix X) as [sp Hsp].
  destruct (strip X) as [|c1 z _] eqn:Ez using rev_ind.
  { rewrite app_nil_r, Z.eqb_refl. rewrite <- app_assoc. unfold escaped. rewrite Ez. eauto. }
  rewrite (app_assoc (pre ++ Y) z [c1]), length_app. cbn [length].
  rewrite (proj2 (Z.eqb_neq _ _)) by (rewrite !length_app; lia).
  rewrite (rd_app b ((pre ++ Y) ++ z) c1 (sp ++ c :: junk ++ l)) by (
    rewrite ?Hm, 1?Hsp, <- ?app_assoc; done || lia).
  cbn [mbind option_bind]. destruct (Z.eqb_spec c1 92) as [->|Hne]; simpl negb; cbv iota.
  2: { rewrite (escaped_none X z c1) by done. rewrite <- app_assoc. eauto. }
  rewrite (escaped_spec X z) by done.
  set (p := Z.of_nat (length ((pre ++ Y) ++ z) + 1)). set (d := zlen ((pre ++ Y) ++ X)).
  destruct (splice_fields b p d) as (Hm1 & Hf1 & Hnl1 & Hn1).
  destruct (IH l' ltac:(rewrite Hk, length_app; lia) fuel (fst (splice b p d)) pre (Y ++ z) []
              (92 :: sp ++ c :: junk ++ k)) as (b' & d' & s' & Hrun & Hcl).
  { rewrite Hm1, Hm, Hk, Hsp. simpl. by rewrite <- !app_assoc; simpl; rewrite <- !app_assoc. }
  { rewrite Hnl1. subst p. rewrite !length_app. lia. }
  { unfold fixed in Hf1. congruence. }
  { apply (ends_line_suffix (c :: k)); [by rewrite <- app_comm_cons, <- Hk|done]. }
  { rewrite Hk, length_app in Hf. lia. }
  exists b', d', s'. split.
  - unfold splice in Hrun |- *. rewrite <- Hrun. cbn [fst].
    f_equal; [subst p; rewrite !length_app; simpl; lia|].
    pose proof (f_equal length Hm) as Lm. pose proof (f_equal length Hk) as Lk.
    pose proof (f_equal length Hsp) as Ls. rewrite Hr.
    repeat first [rewrite !length_app in * | progress simpl length in * ]. unfold byte in *. lia.
  - eapply cleaned_step; [|by rewrite Hk, app_comm_cons|done|by rewrite Hm1|].
    + rewrite splice_lines_from by done.
      replace (zlen (pre ++ Y) + zlen z) with (zlen (pre ++ Y ++ z)) by (rewrite !length_app; lia).
      exact Hcl.
    + rewrite Hn1, Ez. replace (p - 1) with (zlen (pre ++ Y) + zlen z)
        by (subst p; rewrite !length_app; lia).
      replace (p =? d) with (zlen (z ++ [92]) =? zlen X); [done|].
      unfold byte in *. apply eq_true_iff_eq. rewrite !Z.eqb_eq.
      subst p d. rewrite !length_app. simpl. lia.
Qed.

Lemma slow_step l : (forall l', (length l' < length l)%nat -> slow_from l') -> slow_from l.
Proof.
  intros IH fuel b pre Y X junk Hm Hnl Hr Hend Hf.
  destruct fuel as [|fuel]; [lia|]. destruct l as [|c l].
  { destruct Hend as ([|??] & ? & ? & _); discriminate. }
  cbn [length] in *. cbn [slow_path].
  replace (zlen (pre ++ Y ++ X ++ junk) - 1 + 1) with (zlen (pre ++ Y ++ X ++ junk)) by lia.
  replace (zlen (pre ++ Y ++ X) - 1 + 1) with (zlen (pre ++ Y ++ X)) by lia.
  rewrite (rd_app b (pre ++ Y ++ X ++ junk) c l) by (rewrite ?Hm, <- ?app_assoc; done).
  cbn [mbind option_bind].
  destruct (write_gap (pre ++ Y ++ X) junk c l) as (x & junk' & Hgap & Hj).
  assert (b_mem b = (pre ++ Y ++ X) ++ x :: junk' ++ l) as Hm'.
  { rewrite <- Hgap, Hm. by rewrite <- !app_assoc. }
  rewrite (wr_app b (pre ++ Y ++ X) x c (junk' ++ l)) by done. cbn [mbind option_bind].
  set (b1 := set_mem _ b).
  assert (b_mem b1 = (pre ++ Y ++ X) ++ c :: junk' ++ l) as Hm1 by done.
  assert (length (b_mem b1) = length (b_mem b)) as Hlen.
  { rewrite Hm1, Hm', !length_app. simpl. lia. }
  (* every character but a newline is text *)
  assert (forall c' n b2, is_vspace c = false -> b_mem b2 = (pre ++ Y ++ X) ++ c' :: junk' ++ l ->
    fixed b2 = fixed b -> b_next_line b2 = b_next_line b -> b_notes b2 = b_notes b ++ n ->
    forall k l', l = k ++ l' -> l' <> [] -> forall r,
      with_prefix [] n (splice_from (trigraphs o) (X ++ [c']) (zlen (pre ++ Y)) l') = r ->
      exists b' d' s',
        slow_path o fuel b2 (zlen (pre ++ Y ++ X)) (zlen (pre ++ Y ++ X ++ junk) + zlen k)
          = Some (b', d', s') /\ cleaned b b' d' s' pre Y (c :: l) r) as Htext.
  { intros c' n b2 Hc Hm2 Hf2 Hnl2 Hn2 k l' Hl' Hne r Hres.
    destruct (IH l' ltac:(rewrite Hl', length_app; lia) fuel b2 pre Y (X ++ [c']) (junk' ++ k))
      as (b' & d' & s' & Hrun & Hcl).
    - rewrite Hm2, Hl'. by rewrite <- !app_assoc.
    - by rewrite Hnl2.
    - replace (b_rlimit b2) with (b_rlimit b) by (unfold fixed in Hf2; congruence).
      rewrite Hr, Hm', Hm2. rewrite !length_app. done.
    - apply (ends_line_suffix (c :: k)); [by rewrite <- app_comm_cons, <- Hl'|done].
    - rewrite Hl', length_app in Hf. lia.
    - exists b', d', s'. split.
      + rewrite <- Hrun. f_equal; rewrite !length_app; simpl; lia.
      + rewrite <- Hres. apply (cleaned_step b b2 _ _ _ _ _ [] (c :: l) l' (c :: k));
          [by rewrite app_nil_r|by rewrite Hl'|done|by rewrite Hm2, Hm', !length_app|done]. }
  destruct (is_vspace c) eqn:Hc.
  - destruct (slow_newline l c fuel b1 pre Y X junk') as (b' & d' & s' & Hrun & Hcl); try done; try lia.
    + intros l' Hl'. apply IH. lia.
    + rewrite Hm1. by rewrite <- !app_assoc.
    + by rewrite Hlen.
    + exists b', d', s'. split.
      * rewrite <- Hrun. cbv zeta. rewrite (dos_newline_spec b1 ((pre ++ Y ++ X) ++ c :: junk') c l).
        -- done.
        -- by rewrite Hm1, <- !app_assoc.
        -- rewrite !length_app. simpl. lia.
        -- by rewrite Hlen.
        -- done.
      * rewrite splice_from_newline by done. rewrite <- with_prefix_nil.
        apply (cleaned_step b b1 _ _ _ _ _ [] (c :: l) (c :: l) []); try done; by rewrite ?app_nil_r.
  - assert (l <> [] /\ ends_line l) as [Hne Hend'] by by apply (ends_line_more c).
    assert (zlen (pre ++ Y ++ X ++ junk) = zlen (pre ++ Y ++ X ++ junk) + zlen (@nil byte)) as Hs
      by (simpl; lia).
    destruct (Z.eqb_spec c 63) as [->|Hq].
    2: { rewrite Hs. apply (Htext c [] b1 eq_refl Hm1 eq_refl eq_refl (eq_sym (app_nil_r _)) [] l eq_refl Hne).
         rewrite with_prefix_nil. symmetry. apply splice_from_plain; [done|]. by apply trigraph_at_other. }
    destruct (look_ahead b1 ((pre ++ Y ++ X) ++ 63 :: junk') l (zlen (pre ++ Y ++ X ++ junk)))
      as (c1 & c2 & -> & Hc2 & Htri).
    { by rewrite Hm1, <- !app_assoc. }
    { rewrite !length_app. simpl. lia. }
    { done. }
    cbn [mbind option_bind]. rewrite Hc2. cbn [mbind option_bind].
    destruct (trigraph_at (63 :: l)) as [c'|] eqn:Ht; [destruct Htri as [-> ->]|rewrite Htri].
    2: { rewrite Hs. apply (Htext 63 [] b1 eq_refl Hm1 eq_refl eq_refl (eq_sym (app_nil_r _)) [] l eq_refl Hne).
         rewrite with_prefix_nil. symmetry. by apply splice_from_plain. }
    destruct (trigraphs o) eqn:Hopt.
    + destruct (trigraph_at_Some _ _ Ht) as (l' & [= El] & Hmap & Hv). subst l.
      rewrite (wr_app (add_line_note b1 _ c') (pre ++ Y ++ X) 63 _ (junk' ++ 63 :: c' :: l')) by done.
      cbn [mbind option_bind].
      change (zlen (pre ++ Y ++ X ++ junk) + 2) with (zlen (pre ++ Y ++ X ++ junk) + zlen [63; c']).
      refine (Htext _ [mk_note (zlen (pre ++ Y ++ X)) c'] _ eq_refl _ _ _ _ [63; c'] l' eq_refl _ _ _);
        [done|done|done|done|..].
      * intros ->. destruct (ends_line_more _ _ Hend' eq_refl) as [_ H2].
        by destruct (ends_line_more _ _ H2 Hv).
      * rewrite splice_from_trigraph by done. do 3 f_equal. rewrite !length_app. lia.
    + rewrite Hs.
      refine (Htext 63 [mk_note (zlen (pre ++ Y ++ X)) c'] _ eq_refl _ _ _ _ [] l eq_refl Hne _ _);
        [done|done|done|done|].
      rewrite (splice_from_kept _ _ _ c') by done. do 3 f_equal. rewrite !length_app. lia.
Qed.

Lemma slow_path_spec l : slow_from l.
Proof.
  induction l as [l IH] using (induction_ltof1 _ (@length byte)). apply slow_step. exact IH.
Qed.

(** ** The fast path *)

Lemma first_special l : ends_line l -> exists n c l',
  l = n ++ c :: l' /\ Forall (fun x => special x = false) n /\ special c = true.
Proof.
  intros (l0 & t & -> & Ht). assert (special t = true) as Hs.
  { unfold is_vspace in Ht. unfold special. by rewrite Ht. }
  induction l0 as [|c l0 IH]; [by exists [], t, []|].
  destruct (special c) eqn:E; [by exists [], c, (l0 ++ [t])|].
  destruct IH as (n & c' & l' & El & Hn & Hc). exists (c :: n), c', l'.
  split; [|by auto]. simpl. by rewrite El.
Qed.

Lemma not_special c : special c = false -> is_vspace c = false /\ c <> 63 /\ c <> 92.
Proof.
  unfold special, is_vspace. intros [[[H1 H2]%orb_false_iff H3]%orb_false_iff H4]%orb_false_iff.
  rewrite H1, H2. repeat split; by apply Z.eqb_neq.
Qed.

Lemma splice_from_run trig n X pos l : Forall (fun x => special x = false) n ->
  splice_from trig X pos (n ++ l) = splice_from trig (X ++ n) pos l.
Proof.
  intros Hn. revert X. induction Hn as [|c n Hc Hn IH]; intros X; [by rewrite app_nil_r|].
  destruct (not_special _ Hc) as (? & ? & ?). rewrite <- app_comm_cons.
  rewrite splice_from_plain, IH by (done || by apply trigraph_at_other).
  by rewrite <- (assoc_L app X [c] n).
Qed.

(** What [pbackslash] holds: the last backslash of the line, if any. *)
Definition backslash_at (pre X : list byte) (pb : option Z) : Prop :=
  match pb with
  | None => 92 ∉ X
  | Some q => exists x1 x2, X = x1 ++ 92 :: x2 /\ 92 ∉ x2 /\ q = zlen (pre ++ x1)
  end.

Lemma backslash_at_app pre X n pb : 92 ∉ n -> backslash_at pre X pb -> backslash_at pre (X ++ n) pb.
Proof.
  intros Hn. destruct pb as [q|]; simpl.
  - intros (x1 & x2 & -> & Hx & ->). exists x1, (x2 ++ n). rewrite <- app_assoc. simpl.
    split; [done|]. split; [|done]. rewrite elem_of_app. tauto.
  - rewrite elem_of_app. tauto.
Qed.

Context (search : (Z -> byte) -> Z -> Z -> option Z) `{!LineSearch search}.

Lemma search_line_fast_spec b a n c l : b_mem b = a ++ n ++ c :: l ->
  Forall is_byte (b_mem b) -> b_rlimit b = zlen (b_mem b) - 1 -> b_rlimit b < 2 ^ 63 ->
  Forall (fun x => special x = false) n -> special c = true ->
  search_line_fast search b (zlen a) = Some (zlen (a ++ n)).
Proof.
  intros Hm Hb Hr Hmax Hn Hc. unfold search_line_fast. apply search_finds.
  - intros p. unfold rd. destruct (0 <=? p); [|done].
    destruct (b_mem b !! Z.to_nat p) eqn:E; simpl; [|done]. by eapply Forall_lookup_1.
  - rewrite length_app. lia.
  - rewrite Hr, Hm, !length_app. simpl. rewrite Hr, Hm, !length_app in Hmax. simpl in Hmax. lia.
  - intros p Hp. rewrite length_app in Hp. unfold rd. rewrite (proj2 (Z.leb_le _ _)) by lia.
    rewrite Hm, lookup_app_r, lookup_app_l by lia.
    destruct (lookup_lt_is_Some_2 n (Z.to_nat p - length a)) as [x Hx]; [lia|].
    rewrite Hx. simpl. apply (Forall_lookup_1 _ _ _ _ Hn Hx).
  - by rewrite (rd_app b (a ++ n) c l) by (rewrite <- ?app_assoc; done).
Qed.

Definition fast_ends (b : lbuf) (pre X l : list byte) (e : fast_end) : Prop :=
  match e with
  | FBreak b1 s c pb => exists X1 n l1 k,
      b_mem b1 = b_mem b /\ b_mem b = pre ++ X1 ++ c :: l1 /\ s = zlen (pre ++ X1) /\
      is_vspace c = true /\ backslash_at pre X1 pb /\ l = k ++ c :: l1 /\
      fixed b1 = fixed b /\ b_next_line b1 = b_next_line b /\ b_notes b1 = b_notes b ++ n /\
      splice_from (trigraphs o) X (zlen pre) l =
        with_prefix [] n (finish_line (trigraphs o) (zlen pre) X1 (after_newline c l1))
  | FSlow b1 d s => exists X1 junk n l1 k,
      length (b_mem b1) = length (b_mem b) /\ b_mem b1 = pre ++ X1 ++ junk ++ l1 /\
      d = zlen (pre ++ X1) - 1 /\ s = zlen (pre ++ X1 ++ junk) - 1 /\ ends_line l1 /\ l = k ++ l1 /\
      fixed b1 = fixed b /\ b_next_line b1 = b_next_line b /\ b_notes b1 = b_notes b ++ n /\
      splice_from (trigraphs o) X (zlen pre) l =
        with_prefix [] n (splice_from (trigraphs o) X1 (zlen pre) l1)
  end.

(** What was found after reading a bit of the line holds of the whole. *)
Lemma fast_ends_step b b1 pre X X' k l n e :
  fast_ends b1 pre X' l e -> b_mem b1 = b_mem b -> fixed b1 = fixed b ->
  b_next_line b1 = b_next_line b -> b_notes b1 = b_notes b ++ n ->
  splice_from (trigraphs o) X (zlen pre) (k ++ l) =
    with_prefix [] n (splice_from (trigraphs o) X' (zlen pre) l) ->
  fast_ends b pre X (k ++ l) e.
Proof.
  intros He Hm Hf Hnl Hn Hs. destruct e as [b2 s c pb|b2 d s]; simpl in *.
  - destruct He as (X1 & n1 & l1 & k1 & H1 & H2 & H3 & H4 & H5 & -> & H7 & H8 & H9 & H10).
    exists X1, (n ++ n1), l1, (k ++ k1). rewrite Hs, H10, with_prefix_app.
    split_and!; try done; try congruence; [by rewrite app_assoc|by rewrite H9, Hn, app_assoc].
  - destruct He as (X1 & junk & n1 & l1 & k1 & H1 & H2 & H3 & H4 & H5 & -> & H7 & H8 & H9 & H10).
    exists X1, junk, (n ++ n1), l1, (k ++ k1). rewrite Hs, H10, with_prefix_app.
    split_and!; try done; try congruence; [by rewrite app_assoc|by rewrite H9, Hn, app_assoc].
Qed.

Definition fast_from (l : list byte) : Prop :=
  forall fuel b pre X pb,
    b_mem b = pre ++ X ++ l -> Forall is_byte (b_mem b) -> b_rlimit b = zlen (b_mem b) - 1 ->
    b_rlimit b < 2 ^ 63 -> ends_line l -> (length l < fuel)%nat -> backslash_at pre X pb ->
    exists e, fast_path o search fuel b (zlen (pre ++ X)) pb = Some e /\ fast_ends b pre X l e.

Lemma fast_step l : (forall l', (length l' < length l)%nat -> fast_from l') -> fast_from l.
Proof.
  intros IH fuel b pre X pb Hm Hb Hr Hmax Hend Hf Hpb. destruct fuel as [|fuel]; [lia|].
  destruct (first_special l Hend) as (n & c & l' & -> & Hn & Hc). cbn [fast_path].
  rewrite (search_line_fast_spec b (pre ++ X) n c l') by (done || by rewrite Hm, <- app_assoc).
  cbn [mbind option_bind].
  rewrite <- (app_assoc pre X n).
  rewrite (rd_app b (pre ++ X ++ n) c l' (zlen (pre ++ X ++ n))) by (done || by rewrite Hm, <- !app_assoc).
  cbn [mbind option_bind].
  assert (ends_line (c :: l')) as Hend' by (by apply (ends_line_suffix n)).
  assert (92 ∉ n) as Hn92.
  { intros Hin. rewrite Forall_forall in Hn. apply list_elem_of_In, Hn in Hin. done. }
  pose proof (splice_from_run (trigraphs o) n X (zlen pre) (c :: l') Hn) as Hrun.
  assert (b_mem b = (pre ++ X ++ n) ++ c :: l') as Hm1 by (by rewrite Hm, <- !app_assoc).
  (* the text up to and with [c] stays as it is *)
  assert (forall b1 ns pb', is_vspace c = false -> b_mem b1 = b_mem b -> fixed b1 = fixed b ->
    b_next_line b1 = b_next_line b -> b_notes b1 = b_notes b ++ ns ->
    backslash_at pre (X ++ n ++ [c]) pb' ->
    splice_from (trigraphs o) (X ++ n) (zlen pre) (c :: l') =
      with_prefix [] ns (splice_from (trigraphs o) (X ++ n ++ [c]) (zlen pre) l') ->
    exists e, fast_path o search fuel b1 (zlen (pre ++ X ++ n) + 1) pb' = Some e /\
      fast_ends b pre X (n ++ c :: l') e) as Hnext.
  { intros b1 ns pb' Hv Hmem Hfix Hnl Hns Hpb' Hs.
    destruct (ends_line_more _ _ Hend' Hv) as [Hne Hend1].
    assert (b_rlimit b1 = b_rlimit b) as Hrl by (unfold fixed in Hfix; congruence).
    destruct (IH l' ltac:(rewrite length_app; simpl; lia) fuel b1 pre (X ++ n ++ [c]) pb')
      as (e & He1 & He2); try done.
    - by rewrite Hmem, Hm, <- !app_assoc.
    - by rewrite Hmem.
    - by rewrite Hmem, Hrl.
    - by rewrite Hrl.
    - rewrite length_app in Hf. simpl in Hf. lia.
    - exists e. split; [rewrite <- He1; f_equal; rewrite !length_app; simpl; lia|].
      replace (n ++ c :: l') with ((n ++ [c]) ++ l') by (by rewrite <- app_assoc).
      eapply fast_ends_step; try done. rewrite <- app_assoc. simpl. by rewrite Hrun. }
  destruct (Z.eqb_spec c 92) as [->|H92].
  { apply (Hnext b []); try done.
    - by rewrite app_nil_r.
    - exists (X ++ n), []. rewrite <- app_assoc. split; [done|]. split; [|done]. by apply not_elem_of_nil.
    - rewrite with_prefix_nil, splice_from_plain by (done || by apply trigraph_at_other). by rewrite <- app_assoc. }
  assert (backslash_at pre (X ++ n ++ [c]) pb) as Hpbc.
  { apply backslash_at_app; [|done]. rewrite elem_of_app, list_elem_of_singleton.
    intros [?|?]; [done|congruence]. }
  destruct (Z.eqb_spec c 63) as [->|H63].
  2: { assert (is_vspace c = true) as Hv.
       { unfold special in Hc. rewrite (proj2 (Z.eqb_neq c 92)), (proj2 (Z.eqb_neq c 63)) in Hc by done.
         by rewrite !orb_false_r in Hc. }
       eexists. split; [done|]. exists (X ++ n), [], l', n.
       split_and!; try done; [by rewrite Hm1, <- app_assoc| |by rewrite app_nil_r|].
       - by apply backslash_at_app.
       - by rewrite Hrun, splice_from_newline, with_prefix_nil. }
  destruct (look_ahead b ((pre ++ X ++ n) ++ [63]) l' (zlen (pre ++ X ++ n))) as (c1 & c2 & -> & Hc2 & Htri).
  { by rewrite Hm1, <- (app_assoc _ [63]). }
  { rewrite length_app. simpl. lia. }
  { done. }
  cbn [mbind option_bind]. rewrite Hc2. cbn [mbind option_bind].
  destruct (trigraph_at (63 :: l')) as [c'|] eqn:Ht; [destruct Htri as [-> ->]|rewrite Htri].
  2: { apply (Hnext b []); try done; [by rewrite app_nil_r|].
       by rewrite with_prefix_nil, splice_from_plain, <- app_assoc. }
  destruct (trigraphs o) eqn:Hopt.
  - destruct (trigraph_at_Some _ _ Ht) as (l1 & [= El] & Hmap & Hv). subst l'.
    rewrite (wr_app (add_line_note b _ c') (pre ++ X ++ n) 63 _ (63 :: c' :: l1)) by done.
    cbn [mbind option_bind]. eexists. split; [done|].
    exists (X ++ n ++ [_cpp_trigraph_map c']), [63; c'], [mk_note (zlen (pre ++ X ++ n)) c'], l1, (n ++ [63; 63; c']).
    destruct (ends_line_more _ _ Hend' eq_refl) as [_ He1].
    destruct (ends_line_more _ _ He1 eq_refl) as [_ He2].
    destruct (ends_line_more _ _ He2 Hv) as [_ He3].
    split_and!; try done.
    + cbn [b_mem set_mem]. rewrite Hm1, !length_app. simpl. done.
    + cbn [b_mem set_mem]. by rewrite <- !app_assoc.
    + rewrite !length_app. simpl. lia.
    + rewrite !length_app. simpl. lia.
    + by rewrite <- app_assoc.
    + rewrite Hopt, Hrun, splice_from_trigraph by done. rewrite <- !app_assoc.
      do 3 f_equal. rewrite !length_app. lia.
  - apply (Hnext (add_line_note b (zlen (pre ++ X ++ n)) c') [mk_note (zlen (pre ++ X ++ n)) c']); try done.
    rewrite (splice_from_kept _ _ _ c') by done. rewrite <- app_assoc. do 3 f_equal.
    rewrite !length_app. lia.
Qed.

Lemma fast_path_spec l : fast_from l.
Proof.
  induction l as [l IH] using (induction_ltof1 _ (@length byte)). apply fast_step. exact IH.
Qed.

(** ** The line *)

(** A buffer: its bytes end at [rlimit] with a newline or a carriage return,
    and the next line starts inside. *)
Record wf_lbuf (b : lbuf) : Prop := {
  wb_bytes : Forall is_byte (b_mem b);
  wb_rlimit : b_rlimit b = zlen (b_mem b) - 1 /\ b_rlimit b < 2 ^ 63;
  wb_next : 0 <= b_next_line b <= b_rlimit b;
  wb_end : ends_line (b_mem b)
}.

Definition unread (b : lbuf) : list byte := drop (Z.to_nat (b_next_line b)) (b_mem b).

(** The line, the notes and the lines left, by translation phases 1 and 2. *)
Definition next_logical_line (b : lbuf) : list byte * list line_note * list (list byte) :=
  if b_from_stage3 b
  then (fst (physical_line (unread b)), [], physical_lines (snd (physical_line (unread b))))
  else splice_lines (trigraphs o) (b_next_line b) (physical_lines (unread b)).

Lemma unread_ends b : wf_lbuf b -> ends_line (unread b) /\
  b_mem b = take (Z.to_nat (b_next_line b)) (b_mem b) ++ unread b /\
  zlen (take (Z.to_nat (b_next_line b)) (b_mem b)) = b_next_line b.
Proof.
  intros [_ [Hr _] Hn Hend]. unfold unread.
  split; [|split; [by rewrite take_drop|rewrite length_take; lia]].
  apply (ends_line_suffix (take (Z.to_nat (b_next_line b)) (b_mem b))); [by rewrite take_drop|].
  intros E. apply (f_equal length) in E. rewrite length_drop in E. simpl in E. lia.
Qed.

Lemma vspace_first l : ends_line l -> exists n c l',
  l = n ++ c :: l' /\ Forall (fun x => is_vspace x = false) n /\ is_vspace c = true.
Proof.
  intros (l0 & t & -> & Ht). induction l0 as [|c l0 IH]; [by exists [], t, []|].
  destruct (is_vspace c) eqn:E; [by exists [], c, (l0 ++ [t])|].
  destruct IH as (n & c' & l' & El & Hn & Hc). exists (c :: n), c', l'.
  split; [|by auto]. simpl. by rewrite El.
Qed.

Lemma physical_line_run n c l : Forall (fun x => is_vspace x = false) n -> is_vspace c = true ->
  physical_line (n ++ c :: l) = (n, after_newline c l).
Proof.
  intros Hn Hc. induction Hn as [|x n Hx Hn IH].
  - unfold is_vspace in Hc. simpl. unfold after_newline.
    destruct (Z.eqb_spec c 10) as [->|]; [by destruct l|]. simpl in Hc. rewrite Hc. by destruct l.
  - rewrite <- app_comm_cons, physical_line_plain by done. by rewrite IH.
Qed.

Lemma stage3_line_spec fuel b a n c l : b_mem b = a ++ n ++ c :: l ->
  b_rlimit b = zlen (b_mem b) - 1 -> Forall (fun x => is_vspace x = false) n ->
  is_vspace c = true -> (length n < fuel)%nat ->
  stage3_line fuel b (zlen a) =
    Some (b, zlen (a ++ n), b_rlimit b - zlen (after_newline c l)).
Proof.
  intros Hm Hr Hn Hc. revert fuel a Hm. induction Hn as [|x n Hx Hn IH]; intros [|fuel] a Hm Hf;
    simpl in Hf; try lia; cbn [stage3_line].
  - rewrite (rd_app b a c l) by done. cbn [mbind option_bind]. rewrite Hc. simpl negb. cbv iota.
    rewrite (dos_newline_spec b (a ++ [c]) c l), app_nil_r; try done.
    + by rewrite Hm, <- app_assoc.
    + rewrite length_app. simpl. lia.
  - rewrite (rd_app b a x (n ++ c :: l)) by done. cbn [mbind option_bind]. rewrite Hx. simpl negb.
    cbv iota. replace (zlen a + 1) with (zlen (a ++ [x])) by (rewrite length_app; simpl; lia).
    rewrite IH; [|by rewrite Hm, <- app_assoc|lia]. by rewrite <- app_assoc.
Qed.

Lemma strip_backslash x1 x2 : strip (x1 ++ 92 :: x2) = x1 ++ 92 :: strip x2.
Proof.
  induction x1 as [|c x1 IH]; simpl.
  - by destruct (strip x2).
  - rewrite IH. by destruct x1.
Qed.

Lemma strip_elem x X : x ∈ strip X -> x ∈ X.
Proof. intros H. destruct (strip_prefix X) as [sp ->]. rewrite elem_of_app. by left. Qed.

Lemma escaped_no_backslash X : 92 ∉ X -> escaped X = None.
Proof.
  intros HX. destruct (strip X) as [|c z _] eqn:E using rev_ind.
  - unfold escaped. by rewrite E.
  - apply (escaped_none X z c); [done|]. intros ->. apply HX, strip_elem. rewrite E, elem_of_app.
    right. by apply list_elem_of_singleton.
Qed.

(** After the fast path: the line ends, or goes on in the slow path. *)
Lemma after_fast_spec b pre X c l pb : b_mem b = pre ++ X ++ c :: l -> b_next_line b = zlen pre ->
  b_rlimit b = zlen (b_mem b) - 1 -> ends_line (c :: l) -> is_vspace c = true ->
  backslash_at pre X pb ->
  exists b' d' s', after_fast o b (zlen (pre ++ X)) c pb = Some (b', d', s') /\
    cleaned b b' d' s' pre [] (c :: l) (finish_line (trigraphs o) (zlen pre) X (after_newline c l)).
Proof.
  intros Hm Hnl Hr Hend Hc Hpb. destruct (after_newline_suffix c l) as [k Hk].
  assert (cleaned b b (zlen (pre ++ X)) (b_rlimit b - zlen (after_newline c l)) pre [] (c :: l)
            (X, [], physical_lines (after_newline c l))) as Hstop.
  { exists (c :: k), (after_newline c l), (c :: k). cbn [fst snd].
    split_and!; try done; [|by rewrite Hk at 1|lia|by rewrite app_nil_r].
    rewrite Hm. by rewrite Hk at 1. }
  assert (finish_line (trigraphs o) (zlen pre) X (after_newline c l) =
            (X, [], physical_lines (after_newline c l)) \/
          exists z sp, escaped X = Some (z, sp) /\ after_newline c l <> []) as Hcases.
  { unfold finish_line. destruct (after_newline c l); [by left|].
    destruct (escaped X) as [[z sp]|]; [right; eauto|by left]. }
  unfold after_fast. destruct (Z.eqb_spec (zlen (pre ++ X)) (b_rlimit b)) as [Hs|Hs].
  { assert (l = []) as ->. { rewrite Hr, Hm, !length_app in Hs. simpl in Hs. destruct l; [done|simpl in Hs; lia]. }
    destruct Hcases as [->|(z & sp & _ & H)]; [|done]. do 3 eexists. split; [done|].
    by replace (b_rlimit b - zlen (after_newline c [])) with (zlen (pre ++ X)) in Hstop by (simpl; lia). }
  rewrite (dos_newline_spec b ((pre ++ X) ++ [c]) c l);
    [|by rewrite Hm, <- !app_assoc|rewrite length_app; simpl; lia|done|done].
  cbn [mbind option_bind].
  destruct (Z.eqb_spec (b_rlimit b - zlen (after_newline c l)) (b_rlimit b)) as [He|He].
  { destruct Hcases as [->|(z & sp & _ & H)]; [eauto|].
    destruct (after_newline c l); [done|simpl in He; lia]. }
  destruct pb as [q|]; simpl in Hpb.
  2: { rewrite (escaped_no_backslash X Hpb) in Hcases.
       destruct Hcases as [->|(z & sp & [=] & _)]. eauto. }
  destruct Hpb as (x1 & x2 & EX & Hx2 & ->). assert (strip X = x1 ++ 92 :: strip x2) as Estrip
    by (by rewrite EX, strip_backslash).
  rewrite (skip_back_spec b pre X (c :: l) None); [|done|right; split; [done|by rewrite Estrip; destruct x1]|].
  2: { rewrite Hm, !length_app. lia. }
  cbn [mbind option_bind]. rewrite Estrip.
  destruct (strip x2) as [|c2 sx] eqn:E2.
  2: { rewrite (proj2 (Z.eqb_neq _ _)) by (unfold byte in *; rewrite !length_app; cbn [length]; lia). simpl negb. cbv iota.
       assert (escaped X = None) as Enone.
       { destruct sx as [|c3 z _] eqn:E3 using rev_ind.
         - apply (escaped_none X (x1 ++ [92]) c2); [by rewrite Estrip, <- app_assoc|].
           intros ->. apply Hx2, strip_elem. rewrite E2. by left.
         - apply (escaped_none X (x1 ++ 92 :: c2 :: z) c3); [by rewrite Estrip, <- app_assoc|].
           intros ->. apply Hx2, strip_elem. rewrite E2. right. apply elem_of_app. right. by left. }
       rewrite Enone in Hcases. destruct Hcases as [->|(z & sp & [=] & _)]. eauto. }
  rewrite (proj2 (Z.eqb_eq _ _)) by (unfold byte in *; rewrite !length_app; cbn [length]; lia). simpl negb. cbv iota.
  assert (after_newline c l <> []) as Hne by (intros E; rewrite E in He; simpl in He; lia).
  set (p := zlen (pre ++ x1 ++ [92])). set (d := zlen (pre ++ X)).
  destruct (splice_fields b p d) as (Hm1 & Hf1 & Hnl1 & Hn1).
  destruct (strip_prefix X) as [sp Hsp]. rewrite Estrip in Hsp.
  destruct (slow_path_spec (after_newline c l) (S (length (b_mem b))) (fst (splice b p d)) pre x1 []
              (92 :: sp ++ c :: k)) as (b' & d' & s' & Hrun & Hcl).
  { rewrite Hm1, Hm. rewrite Hsp at 1. rewrite Hk at 1. simpl. by rewrite <- !app_assoc. }
  { rewrite Hnl1. subst p. len. }
  { by rewrite Hm1. }
  { apply (ends_line_suffix (c :: k)); [by rewrite <- app_comm_cons, <- Hk|done]. }
  { pose proof (f_equal length Hk). pose proof (f_equal length Hm). len. }
  exists b', d', s'. split.
  - unfold splice in Hrun |- *. rewrite <- Hrun. cbn [fst].
    f_equal; [subst p; len|].
    pose proof (f_equal length Hm) as Lm. pose proof (f_equal length Hk) as Lk.
    pose proof (f_equal length Hsp) as Ls. rewrite Hr.
    len.
  - unfold finish_line. rewrite (escaped_spec X x1) by done.
    destruct (after_newline c l) as [|a0 l0] eqn:Ea; [done|]. rewrite <- Ea in *.
    eapply (cleaned_step b _ b' d' s' pre [] x1 (c :: l) (after_newline c l) (c :: k));
      [|by rewrite <- app_comm_cons, <- Hk|done|by rewrite Hm1|].
    + rewrite splice_lines_from by done.
      match goal with |- context [splice_from _ [] ?q _] =>
        replace q with (zlen (pre ++ x1)) by len end.
      exact Hcl.
    + rewrite Hn1, Estrip. replace (p - 1) with (zlen pre + zlen x1)
        by (subst p; len).
      replace (p =? d) with (zlen (x1 ++ [92]) =? zlen X); [done|].
      unfold byte in *. apply eq_true_iff_eq. rewrite !Z.eqb_eq.
      subst p d. len.
Qed.

(** Where the pass stops before the newline is written and noted. *)
Lemma clean_pass b : wf_lbuf b -> let pre := take (Z.to_nat (b_next_line b)) (b_mem b) in
  exists b' d' s',
    line_pass o search b = Some (b', d', s') /\
    cleaned b b' d' s' pre [] (unread b) (next_logical_line b).
Proof.
  intros Hwf pre. pose proof Hwf as [Hb [Hr Hmax] Hn _].
  destruct (unread_ends b Hwf) as (Hend & Hm & Hpre). fold pre in Hm, Hpre.
  unfold next_logical_line, line_pass. destruct (b_from_stage3 b); simpl negb; cbv iota.
  - destruct (vspace_first _ Hend) as (n & c & l & El & Hnl & Hc).
    rewrite El, physical_line_run by done. rewrite <- Hpre.
    assert (length n < S (length (b_mem b)))%nat.
    { rewrite Hm, El, !length_app. simpl. lia. }
    rewrite (stage3_line_spec _ b pre n c l) by (done || by rewrite <- El).
    do 3 eexists. split; [done|]. destruct (after_newline_suffix c l) as [k Hk].
    exists (c :: k), (after_newline c l), (n ++ c :: k). cbn [fst snd].
    split_and!; try done.
    + etrans; [exact Hm|]. rewrite El. rewrite Hk at 1. done.
    + rewrite Hk at 1. by rewrite <- app_assoc.
    + lia.
    + by rewrite app_nil_r.
  - assert (length (unread b) < S (length (b_mem b)))%nat as Hlen.
    { unfold unread. rewrite length_drop. lia. }
    assert (unread b <> []) as Hne by (destruct Hend as (? & ? & -> & _); by destruct x).
    rewrite splice_lines_from by done.
    destruct (fast_path_spec (unread b) (S (length (b_mem b))) b pre [] None) as (e & He1 & He2);
      try done; try lia.
    { by apply not_elem_of_nil. }
    rewrite app_nil_r, Hpre in He1. rewrite He1. cbn [mbind option_bind]. rewrite <- Hpre.
    destruct e as [b1 s c pb|b1 d s].
    + destruct He2 as (X & n & l & k & H1 & H2 & -> & Hc & Hpb & H6 & H7 & H8 & H9 & ->).
      assert (b_rlimit b1 = b_rlimit b) as Hr1 by (unfold fixed in H7; congruence).
      destruct (after_fast_spec b1 pre X c l pb) as (b' & d' & s' & Hrun & Hcl); try done.
      * by rewrite H1.
      * by rewrite H8, Hpre.
      * by rewrite Hr1, H1.
      * apply (ends_line_suffix k); [by rewrite <- H6|done].
      * exists b', d', s'. split; [exact Hrun|].
        apply (cleaned_step b b1 _ _ _ _ [] [] _ (c :: l) k); try done. by rewrite H1.
    + destruct He2 as (X & junk & n & l & k & H1 & H2 & -> & -> & He & H6 & H7 & H8 & H9 & ->).
      assert (b_rlimit b1 = b_rlimit b) as Hr1 by (unfold fixed in H7; congruence).
      destruct (slow_path_spec l (S (length (b_mem b1))) b1 pre [] X junk) as (b' & d' & s' & Hrun & Hcl);
        try done.
      * by rewrite H8, app_nil_r, Hpre.
      * by rewrite Hr1, H1.
      * rewrite H6, length_app in Hlen. lia.
      * exists b', d', s'. rewrite !app_nil_l in Hrun. split; [exact Hrun|].
        rewrite app_nil_r in Hcl. apply (cleaned_step b b1 _ _ _ _ [] [] _ l k); done.
Qed.

(** ** Bytes stay bytes *)

Lemma rd_byte b p c : Forall is_byte (b_mem b) -> rd b p = Some c -> is_byte c.
Proof. unfold rd. intros Hb H. destruct (0 <=? p); [|done]. by eapply Forall_lookup_1. Qed.

Lemma wr_byte b b' p c : wr b p c = Some b' -> is_byte c -> Forall is_byte (b_mem b) ->
  Forall is_byte (b_mem b').
Proof.
  unfold wr. intros H Hc Hb. destruct (_ && _); [|done]. injection H as <-.
  by apply Forall_insert.
Qed.

Lemma trigraph_byte c : is_byte (_cpp_trigraph_map c).
Proof. unfold _cpp_trigraph_map. repeat (destruct (_ =? _); [done|]). done. Qed.

Hint Resolve rd_byte wr_byte trigraph_byte : core.

Lemma slow_path_byte fuel b d s r : slow_path o fuel b d s = Some r ->
  Forall is_byte (b_mem b) -> Forall is_byte (b_mem (fst (fst r))).
Proof.
  revert b d s. induction fuel as [|fuel IH]; intros b d s H Hb; [done|]. cbn [slow_path] in H.
  apply bind_Some in H as (c & Hc & H). apply bind_Some in H as (b1 & Hb1 & H).
  assert (Forall is_byte (b_mem b1)) as Hb1' by eauto.
  repeat (case_match || (apply bind_Some in H as (? & ? & H))); simplify_eq; eauto;
    (eapply IH; [eassumption|]); simpl; eauto.
  by match goal with H : splice _ _ _ = _ |- _ => injection H as <- _ end.
Qed.

Lemma fast_path_byte fuel b s pb e : fast_path o search fuel b s pb = Some e ->
  Forall is_byte (b_mem b) ->
  Forall is_byte (b_mem (match e with FBreak b _ _ _ | FSlow b _ _ => b end)).
Proof.
  revert b s pb. induction fuel as [|fuel IH]; intros b s pb H Hb; [done|]. cbn [fast_path] in H.
  apply bind_Some in H as (s1 & Hs1 & H). apply bind_Some in H as (c & Hc & H).
  repeat (case_match || (apply bind_Some in H as (? & ? & H))); simplify_eq; eauto.
  all: eapply IH; eauto.
Qed.

Lemma stage3_line_same fuel b s r : stage3_line fuel b s = Some r -> fst (fst r) = b.
Proof.
  revert s. induction fuel as [|fuel IH]; intros s H; [done|]. cbn [stage3_line] in H.
  repeat (case_match || (apply bind_Some in H as (? & ? & H))); simplify_eq; eauto.
Qed.

Lemma line_pass_byte b r : line_pass o search b = Some r -> Forall is_byte (b_mem b) ->
  Forall is_byte (b_mem (fst (fst r))).
Proof.
  unfold line_pass. intros H Hb. destruct (negb _).
  - apply bind_Some in H as (e & He & H). apply fast_path_byte in He; [|done].
    destruct e as [b3 s3 c pb|b3 d3 s3]; [|by apply slow_path_byte in H].
    unfold after_fast in H.
    destruct (s3 =? b_rlimit b3); [by injection H as <-|].
    apply bind_Some in H as (x & Hx & H). destruct (x =? b_rlimit b3); [by injection H as <-|].
    destruct pb as [q|]; [|by injection H as <-].
    apply bind_Some in H as (p & Hp & H). destruct (negb _); [by injection H as <-|].
    by apply slow_path_byte in H.
  - by apply stage3_line_same in H as ->.
Qed.

(** What a call leaves: the line, its notes, and the text that is not read. *)
Lemma clean_line_spec b : wf_lbuf b ->
  let '(line, notes, rest) := next_logical_line b in
  exists b', _cpp_clean_line o search b = Some b' /\
    b_cur b' = b_next_line b /\ b_line_base b' = b_next_line b /\ b_need_line b' = false /\
    take (length line + 1) (drop (Z.to_nat (b_cur b')) (b_mem b')) = line ++ [10] /\
    b_cur_note b' = 0%nat /\
    b_notes b' = notes ++ [mk_note (b_next_line b + zlen line + 1) 10] /\
    physical_lines (unread b') = rest /\ (exists k, k <> [] /\ unread b = k ++ unread b') /\
    take (Z.to_nat (b_next_line b)) (b_mem b') = take (Z.to_nat (b_next_line b)) (b_mem b) /\
    b_next_line b < b_next_line b' <= b_rlimit b + 1 /\
    b_rlimit b' = b_rlimit b /\ zlen (b_mem b') = zlen (b_mem b) /\ Forall is_byte (b_mem b') /\
    b_from_stage3 b' = b_from_stage3 b.
Proof.
  intros Hwf. assert (wf_lbuf (start_clean b)) as Hwf1 by (by destruct Hwf).
  pose proof (clean_pass (start_clean b) Hwf1) as (b1 & d & s & Hrun & Hcl).
  change (unread (start_clean b)) with (unread b) in Hcl.
  change (next_logical_line (start_clean b)) with (next_logical_line b) in Hcl.
  destruct (next_logical_line b) as [[line notes] rest].
  set (pre := take (Z.to_nat (b_next_line b)) (b_mem b)) in *. change (take _ _) with pre in Hcl.
  destruct Hcl as (junk & src & k & Hm & Hj & Hlen & Hl & Hd & Hs & Hp & Hn & Hf).
  cbn [fst snd] in *. destruct junk as [|j junk]; [done|].
  destruct (unread_ends b Hwf) as (Hend & Hm0 & Hpre). fold pre in Hpre.
  pose proof (line_pass_byte _ _ Hrun (wb_bytes _ Hwf)) as Hb1. simpl in Hb1.
  unfold _cpp_clean_line. rewrite Hrun. cbn [mbind option_bind].
  rewrite (wr_app b1 (pre ++ [] ++ line) j 10 (junk ++ src)); [|by rewrite Hm, <- !app_assoc|done].
  cbn [mbind option_bind]. eexists. split; [done|].
  set (b2 := set_next_line _ _). unfold fixed in Hf. simpl in Hf, Hn, Hlen, Hs, Hd.
  assert (b_mem b2 = (pre ++ line) ++ 10 :: junk ++ src) as Hm2 by done.
  assert (b_mem b2 = ((pre ++ line) ++ 10 :: junk) ++ src) as Hm3 by (by rewrite Hm2, <- (app_assoc _ _ src)).
  assert (b_mem b2 = pre ++ (line ++ [10]) ++ junk ++ src) as Hm4 by (by rewrite Hm2, <- !app_assoc).
  assert (length (b_mem b2) = length (b_mem b)) as Hlen2 by (rewrite Hm2, <- Hlen, Hm; len).
  pose proof (wb_rlimit _ Hwf) as [Hr _].
  assert (b_next_line b2 = b_rlimit b + 1 - zlen src) as Hnl2 by (simpl; lia).
  assert (unread b2 = src) as Hun.
  { unfold unread. rewrite Hnl2. replace (Z.to_nat _) with (length ((pre ++ line) ++ 10 :: junk)).
    - by rewrite Hm3, drop_app_length.
    - rewrite Hm2 in Hlen2. unfold byte in *. rewrite !length_app in *. cbn [length] in *.
      rewrite !length_app in *. lia. }
  assert (b_cur b2 = b_next_line b) as Hcur by (change (b_cur b2) with (b_cur b1); congruence).
  split_and!.
  - done.
  - change (b_line_base b2) with (b_line_base b1). congruence.
  - change (b_need_line b2) with (b_need_line b1). congruence.
  - rewrite Hcur, Hm4. replace (Z.to_nat (b_next_line b)) with (length pre) by lia.
    rewrite drop_app_length, take_app_length'; [done|]. by rewrite length_app.
  - change (b_cur_note b2) with (b_cur_note b1). congruence.
  - change (b_notes b2) with (b_notes b1 ++ [mk_note (d + 1) 10]). rewrite Hn.
    do 3 f_equal. rewrite Hd. len.
  - by rewrite Hun.
  - exists k. rewrite Hun. split; [|done]. intros ->.
    pose proof (f_equal length Hl) as Ll. pose proof (f_equal length Hm2) as L2.
    pose proof (f_equal length Hm0) as L0. fold pre in L0. clear - Ll L2 L0 Hlen2. len.
  - rewrite Hm4. replace (Z.to_nat (b_next_line b)) with (length pre) by lia.
    by rewrite take_app_length.
  - rewrite Hnl2, Hr. rewrite Hm2 in Hlen2. len.
  - lia.
  - change (b_rlimit b2) with (b_rlimit b1). congruence.
  - by rewrite Hlen2.
  - rewrite Hm, app_nil_l in Hb1. rewrite Hm4.
    apply Forall_app in Hb1 as [Hb1 [Hb2 [Hb3 Hb4]%Forall_app]%Forall_app].
    apply Forall_cons_1 in Hb3 as [_ Hb3].
    apply Forall_app. split; [done|]. apply Forall_app. split; [|apply Forall_app; by split].
    apply Forall_app. split; [done|]. by repeat constructor.
  - change (b_from_stage3 b2) with (b_from_stage3 b1). congruence.
Qed.

(** ** The buffer *)

Lemma phase1_pos trig p q l : fst (phase1 trig p l) = fst (phase1 trig q l).
Proof.
  revert p q. induction l as [l IH] using (induction_ltof1 _ (@length byte)). unfold ltof in IH.
  intros p q. destruct l as [|c l]; [done|]. destruct (trigraph_at (c :: l)) as [c2|] eqn:E.
  - destruct (trigraph_at_Some _ _ E) as (l' & [= -> ->] & _). destruct trig.
    + rewrite !phase1_replaced by done. cbn [fst]. f_equal. apply IH. simpl. lia.
    + rewrite !phase1_kept by done. cbn [fst]. f_equal. apply IH. simpl. lia.
  - rewrite !phase1_plain by done. cbn [fst]. f_equal. apply IH. simpl. lia.
Qed.

Lemma splice_lines_cons trig pos x ls : ls <> [] ->
  splice_lines trig pos (x :: ls) =
  match escaped (fst (phase1 trig pos x)) with
  | Some (z, sp) =>
      let pos' := pos + Z.of_nat (length z) in
      with_prefix z (snd (phase1 trig pos x) ++ [mk_note pos' (if sp then 32 else 92)])
        (splice_lines trig pos' ls)
  | None => (phase1 trig pos x, ls)
  end.
Proof.
  intros Hls. destruct ls as [|x' ls]; [done|]. remember (x' :: ls) as l1 eqn:E.
  cbn [splice_lines]. destruct (phase1 trig pos x) as [y n]. cbn [fst snd]. rewrite E at 1.
  destruct (escaped y) as [[z sp]|]; [|done].
  destruct (splice_lines _ _ l1) as [[w n'] ls']. unfold with_prefix. cbn [fst snd].
  by rewrite <- app_assoc.
Qed.

Lemma join_lines_splice trig pos x ls : let r := splice_lines trig pos (x :: ls) in
  join_lines trig (x :: ls) = fst (fst r) :: join_lines trig (snd r).
Proof.
  revert pos x. induction ls as [|x' ls IH]; intros pos x.
  - cbn [splice_lines join_lines]. rewrite (phase1_pos trig 0 pos x).
    destruct (phase1 trig pos x) as [y n]. cbn [fst]. by destruct (escaped y) as [[z sp]|].
  - remember (x' :: ls) as l1 eqn:E. rewrite splice_lines_cons by (by rewrite E).
    cbn [join_lines]. rewrite (phase1_pos trig 0 pos x).
    destruct (escaped (fst (phase1 trig pos x))) as [[z sp]|]; [|done]. subst l1.
    cbv zeta in *. by rewrite (IH (pos + Z.of_nat (length z)) x').
Qed.

(** A logical line holds no newline or carriage return. *)
Definition one_line (l : list byte) : Prop := Forall (fun c => is_vspace c = false) l.

Lemma physical_line_one l : one_line (fst (physical_line l)).
Proof.
  induction l as [|c l IH]; [by constructor|]. destruct (is_vspace c) eqn:E.
  - unfold is_vspace in E. simpl. destruct (c =? 10); [by constructor|]. simpl in E. rewrite E. by constructor.
  - rewrite physical_line_plain by done. by constructor.
Qed.

Lemma physical_lines_one l : Forall one_line (physical_lines l).
Proof.
  unfold physical_lines. generalize (length l). intros n. revert l. induction n as [|n IH]; intros l.
  - by constructor.
  - destruct l as [|c l]; [by constructor|]. cbn [physical_lines_of]. constructor; [|done].
    apply physical_line_one.
Qed.

Lemma trigraph_not_vspace c : is_vspace (_cpp_trigraph_map c) = false.
Proof. unfold _cpp_trigraph_map. repeat (destruct (_ =? _); [done|]). done. Qed.

Lemma phase1_one trig p l : one_line l -> one_line (fst (phase1 trig p l)).
Proof.
  revert p. induction l as [l IH] using (induction_ltof1 _ (@length byte)). unfold ltof in IH.
  intros p Hl. destruct l as [|c l]; [done|].
  destruct (trigraph_at (c :: l)) as [c2|] eqn:E; [|rewrite phase1_plain by done].
  - destruct (trigraph_at_Some _ _ E) as (l' & [= -> ->] & _).
    apply Forall_cons_1 in Hl as [Hc Hl]. pose proof Hl as [_ [_ Hl']%Forall_cons_1]%Forall_cons_1.
    destruct trig; [rewrite phase1_replaced by done|rewrite phase1_kept by done]; cbn [fst];
      (constructor; [done || apply trigraph_not_vspace|]); apply IH; simpl; done || lia.
  - apply Forall_cons_1 in Hl as [Hc Hl]. cbn [fst]. constructor; [done|]. apply IH; simpl; done || lia.
Qed.

Lemma strip_one l : one_line l -> one_line (strip l).
Proof. intros H. destruct (strip_prefix l) as [sp E]. rewrite E in H. by apply Forall_app in H as [? _]. Qed.

Lemma escaped_one l z sp : escaped l = Some (z, sp) -> one_line l -> one_line z.
Proof.
  unfold escaped. intros H Hl%strip_one. destruct (_ =? 92); [|done]. injection H as <- _.
  destruct (strip l) as [|c s _] using rev_ind; [done|]. rewrite removelast_last.
  by apply Forall_app in Hl as [? _].
Qed.

Lemma splice_lines_one trig pos ls : Forall one_line ls -> one_line (fst (fst (splice_lines trig pos ls))).
Proof.
  intros Hls. revert pos. induction Hls as [|x ls Hx Hls IH]; intros pos; [by constructor|].
  pose proof (phase1_one trig pos x Hx) as Hy. destruct (decide (ls = [])) as [->|Hne].
  - cbn [splice_lines]. by destruct (phase1 trig pos x).
  - rewrite splice_lines_cons by done. destruct (escaped _) as [[z sp]|] eqn:E; [|done].
    apply Forall_app. split; [by apply (escaped_one _ z sp E)|apply IH].
Qed.

Lemma next_logical_line_one b : one_line (fst (fst (next_logical_line b))).
Proof.
  unfold next_logical_line. destruct (b_from_stage3 b).
  - apply physical_line_one.
  - apply splice_lines_one, physical_lines_one.
Qed.

(** The rest of a buffer is again a buffer. *)
Lemma clean_line_wf b b' : wf_lbuf b -> _cpp_clean_line o search b = Some b' ->
  b_next_line b' < b_rlimit b' -> wf_lbuf b'.
Proof.
  intros Hwf Hrun Hnl. pose proof (clean_line_spec b Hwf) as H.
  destruct (next_logical_line b) as [[line notes] rest]. destruct H as (b1 & Hrun1 & H).
  rewrite Hrun in Hrun1. injection Hrun1 as <-.
  destruct H as (_ & _ & _ & _ & _ & _ & _ & (k & _ & Hk) & Hpre & Hn & Hr & Hlen & Hb & _).
  pose proof (wb_rlimit _ Hwf) as [Hr1 Hr2]. pose proof (wb_next _ Hwf).
  split; [done|split; congruence|lia|].
  destruct (unread_ends b Hwf) as (Hend & _ & _). rewrite Hk in Hend. apply ends_line_suffix in Hend.
  - destruct Hend as (l0 & t & E & Ht). exists (take (Z.to_nat (b_next_line b')) (b_mem b') ++ l0), t.
    split; [|done]. rewrite <- app_assoc, <- E. unfold unread. by rewrite take_drop.
  - intros E. apply (f_equal length) in E. unfold unread in E. rewrite length_drop in E. simpl in E. lia.
Qed.

Lemma line_text_read line r : one_line line -> fst (physical_line (line ++ 10 :: r)) = line.
Proof. intros H. by rewrite physical_line_run. Qed.

Lemma clean_lines_spec fuel b : b_from_stage3 b = false -> (length (unread b) <= fuel)%nat ->
  (b_next_line b < b_rlimit b -> wf_lbuf b) ->
  (b_next_line b >= b_rlimit b -> physical_lines (unread b) = [] \/ physical_lines (unread b) = [[]]) ->
  exists ls tail, clean_lines o search fuel b = Some ls /\
    join_lines (trigraphs o) (physical_lines (unread b)) = ls ++ tail /\ (tail = [] \/ tail = [[]]).
Proof.
  revert b. induction fuel as [|fuel IH]; intros b H3 Hf Hwf Hstop; cbn [clean_lines].
  all: destruct (Z.ltb_spec (b_next_line b) (b_rlimit b)) as [Hlt|Hge].
  2, 4: exists [], (physical_lines (unread b)); split; [done|]; destruct Hstop as [E|E]; rewrite ?E; auto; lia.
  - specialize (Hwf Hlt). destruct (unread_ends b Hwf) as ((l0 & t & E & _) & _). rewrite E in Hf.
    rewrite length_app in Hf. simpl in Hf. lia.
  - specialize (Hwf Hlt). pose proof (clean_line_spec b Hwf) as H.
    destruct (next_logical_line b) as [[line notes] rest] eqn:En.
    destruct H as (b1 & Hrun & H). rewrite Hrun. cbn [mbind option_bind].
    pose proof (clean_line_wf b b1 Hwf Hrun) as Hwf1.
    destruct H as (Hcur & _ & _ & Htext & _ & _ & Hrest & (k & Hkne & Hk) & _ & Hn & Hr & Hlen & _ & Hs3).
    destruct (IH b1) as (ls & tail & Hls & Hj & Ht).
    + congruence.
    + rewrite Hk, length_app in Hf. destruct k; [done|]. simpl in Hf. lia.
    + exact Hwf1.
    + intros Hge. destruct (decide (unread b1 = [])) as [->|Hne]; [by left|right].
      destruct (unread_ends b Hwf) as (Hend & _ & _). rewrite Hk in Hend.
      apply ends_line_suffix in Hend; [|done]. destruct Hend as (l0 & t & E & Ht).
      assert (l0 = []) as ->.
      { apply (f_equal length) in E. unfold unread in E. rewrite length_drop, length_app in E.
        simpl in E. pose proof (wb_rlimit _ Hwf) as [Hr1 _]. destruct l0; [done|simpl in E; lia]. }
      rewrite E. rewrite physical_lines_cons by done. unfold is_vspace in Ht. simpl.
      destruct (t =? 10); [done|]. simpl in Ht. by rewrite Ht.
    + rewrite Hls. cbn [mbind option_bind]. do 2 eexists. split; [done|]. split; [|exact Ht].
      pose proof (next_logical_line_one b) as Hone. rewrite En in Hone. cbn [fst] in Hone.
      unfold next_logical_line in En. rewrite H3 in En.
      destruct (physical_lines (unread b)) as [|x xs] eqn:Ep.
      { apply physical_lines_nil in Ep. destruct (unread_ends b Hwf) as ((l0 & t & E & _) & _).
        rewrite Ep in E. by destruct l0. }
      rewrite (join_lines_splice _ (b_next_line b)), En. cbn [fst snd]. rewrite <- Hrest, Hj.
      rewrite <- app_comm_cons. f_equal. symmetry.
      rewrite <- (take_drop (length line + 1) (drop _ _)), Htext, <- app_assoc. simpl.
      by apply line_text_read.
Qed.

(** C5: _cpp_clean_line delivers translation phases 1 and 2.  Called on a
    buffer that ends with a newline, it reads and writes inside the buffer,
    leaves at [cur] the logical line that replacing trigraphs and deleting
    escaped newlines gives, and a newline behind it, records a note for each
    of them in order and the sentinel, moves [next_line] to the first physical
    line it did not use, and changes nothing before the line or after it. *)
Theorem clean_line_phases (b : lbuf) :
  wf_lbuf b ->
  let '(line, notes, rest) := next_logical_line b in
  exists b', _cpp_clean_line o search b = Some b' /\
    b_cur b' = b_next_line b /\ b_line_base b' = b_next_line b /\ b_need_line b' = false /\
    take (length line + 1) (drop (Z.to_nat (b_cur b')) (b_mem b')) = line ++ [10] /\
    b_cur_note b' = 0%nat /\
    b_notes b' = notes ++ [mk_note (b_next_line b + zlen line + 1) 10] /\
    physical_lines (unread b') = rest /\ (exists k, k <> [] /\ unread b = k ++ unread b') /\
    take (Z.to_nat (b_next_line b)) (b_mem b') = take (Z.to_nat (b_next_line b)) (b_mem b) /\
    b_next_line b < b_next_line b' <= b_rlimit b + 1 /\ zlen (b_mem b') = zlen (b_mem b).
Proof.
  intros Hwf. pose proof (clean_line_spec b Hwf) as H.
  destruct (next_logical_line b) as [[line notes] rest]. destruct H as (b' & H). exists b'. tauto.
Qed.

(** Reading a buffer from its start to its end, a line at a time, delivers
    the lines of the text with trigraphs replaced and escaped newlines deleted,
    as the C standard has them (what follows the last newline, if it is empty,
    is not a line); the fast path, the slow path and the work in place do not
    show. *)
Theorem clean_lines_file (b : lbuf) :
  wf_lbuf b -> b_from_stage3 b = false -> b_next_line b = 0 -> 0 < b_rlimit b ->
  exists ls tail, clean_lines o search (length (b_mem b)) b = Some ls /\
    join_lines (trigraphs o) (physical_lines (b_mem b)) = ls ++ tail /\ (tail = [] \/ tail = [[]]).
Proof.
  intros Hwf H3 H0 Hr. assert (unread b = b_mem b) as Hu by (unfold unread; by rewrite H0).
  pose proof (clean_lines_spec (length (b_mem b)) b H3) as H. rewrite Hu in H.
  apply H; [lia|done|lia].
Qed.
End CleanProofs.

(** A buffer of the text, with a newline at its end, as _cpp_convert_input
    leaves it. *)
Definition buffer_of (text : list byte) : lbuf :=
  mk_lbuf (text ++ [10]) (Z.of_nat (length text)) 0 0 0 [] 0 0 true false false false.

(** Two trigraphs, an escaped newline written with one of them, one with white
    space before a DOS line ending, and a backslash before the last newline. *)
Definition sample_text : list byte :=
  bytes "x ??( ??/" ++ [10] ++ bytes "y\" ++ [32; 13; 10] ++ bytes "z" ++ [10] ++ bytes "w\" ++ [10].

Definition std_options : cpp_options := cpp_set_lang CLK_STDC17 gnuc17_options.
Definition word_search := search_at 1003 (search_line_acc_char 8 false).

#[export] Instance word_search_ok : LineSearch word_search.
Proof. apply acc_char_search; [by right|lia]. Qed.

Lemma sample_buffer_wf : wf_lbuf (buffer_of sample_text).
Proof.
  split; simpl; [|lia|lia|by exists sample_text, 10].
  apply (bool_decide_unpack (Forall (fun c => 0 <= c < 256) _)). by vm_compute.
Qed.

Lemma clean_line_phases_witness :
  exists b', _cpp_clean_line std_options word_search (buffer_of sample_text) = Some b' /\
    take 7 (drop 0 (b_mem b')) = bytes "x [ yz" ++ [10].
Proof.
  pose proof (clean_line_phases std_options word_search (buffer_of sample_text) sample_buffer_wf) as H.
  set (r := next_logical_line std_options (buffer_of sample_text)) in H. vm_compute in r. subst r.
  destruct H as (b' & Hrun & Hcur & _ & _ & Htext & _). rewrite Hcur in Htext. exists b'. by split.
Defined.

Lemma clean_lines_file_witness : exists ls tail,
  clean_lines std_options word_search (length (b_mem (buffer_of sample_text))) (buffer_of sample_text) = Some ls /\
  [bytes "x [ yz"; bytes "w"] = ls ++ tail /\ (tail = [] \/ tail = [[]]).
Proof. apply (clean_lines_file std_options word_search (buffer_of sample_text) sample_buffer_wf); done. Defined.
