(* ===== verification/Lex.v ===== *)
(** * Lexing a token

    The scanners of lex.c that read one token from a cleaned logical line:
    identifiers, numbers, strings and character constants, operators, and the
    dispatch of _cpp_lex_direct on the first character.  The text under
    [buffer->cur] is a list of bytes: the rest of the line, its newline, and
    whatever lies behind it; a scanner returns what is left.  Reading at the
    end of the list gives a newline; LexSpec.v shows that nothing behind the
    newline of the line matters.

    Also here: spelling a token, and the test whether two tokens would lex
    differently when written next to each other. *)

From Stdlib Require Import ZArith Lia Bool String Ascii.
From stdpp Require Import base tactics list numbers.
From S2P Require Import Prelude Reader CppNum NumLit Stream Utf StrLit Symtab CleanLine.

Local Open Scope string_scope.
Local Open Scope list_scope.
Local Open Scope Z_scope.

(** [buffer->cur[i]]. *)
Definition look (r : list byte) (i : nat) : byte := nth i r 10.

(** safe-ctype.h: the characters of identifiers. *)
Definition ISIDST (c : byte) : bool :=
  ((chr "a" <=? c) && (c <=? chr "z")) || ((chr "A" <=? c) && (c <=? chr "Z")) || isc c "_".
Definition ISIDNUM (c : byte) : bool := ISIDST c || ISDIGIT c.

Definition NODE_OPERATOR : Z := 1.
Definition NODE_DIAGNOSTIC : Z := 4.
Definition NODE_WARN_OPERATOR : Z := 128.

(** What the lexer reads of the node of an identifier: its flags, the type of
    a named operator, and whether it is a macro. *)
Record lex_node : Type := mk_lnode {
  ln_flags : Z;
  ln_directive_index : cpp_ttype;
  ln_macro : bool
}.

Definition no_node : lex_node := mk_lnode 0 CPP_NAME false.

(** init.c: the nodes of the C++ named operators. *)
Definition operator_array : list (list byte * cpp_ttype) :=
  [(bytes "and", CPP_AND_AND); (bytes "and_eq", CPP_AND_EQ); (bytes "bitand", CPP_AND);
   (bytes "bitor", CPP_OR); (bytes "compl", CPP_COMPL); (bytes "not", CPP_NOT);
   (bytes "not_eq", CPP_NOT_EQ); (bytes "or", CPP_OR_OR); (bytes "or_eq", CPP_OR_EQ);
   (bytes "xor", CPP_XOR); (bytes "xor_eq", CPP_XOR_EQ)].

Definition mark_named_operators (flags : Z) (node : list byte -> lex_node) (name : list byte)
  : lex_node :=
  match find (fun b => bytes_eqb (fst b) name) operator_array with
  | Some (_, value) => mk_lnode (Z.lor (ln_flags (node name)) flags) value (ln_macro (node name))
  | None => node name
  end.

(** The fields of [struct lexer_state], and of the buffer, that the scanners read. *)
Record lex_flags : Type := mk_lflags {
  in_directive : bool;
  skipping : bool;
  angled_headers : bool;
  va_args_ok : bool;
  poisoned_ok : bool;
  in_system_header : bool
}.

Definition plain_flags : lex_flags := mk_lflags false false false false false false.

Definition set_warn_dollars (w : bool) (o : cpp_options) : cpp_options := {|
  lang := lang o; cplusplus := cplusplus o; c99 := c99 o; cpp_pedantic := cpp_pedantic o;
  traditional := traditional o; cpp_warn_traditional := cpp_warn_traditional o;
  cpp_warn_long_long := cpp_warn_long_long o;
  cpp_warn_c90_c99_compat := cpp_warn_c90_c99_compat o;
  cpp_warn_deprecated := cpp_warn_deprecated o;
  ext_numeric_literals := ext_numeric_literals o; user_literals := user_literals o;
  digit_separators := digit_separators o; binary_constants := binary_constants o;
  extended_numbers := extended_numbers o; c11_identifiers := c11_identifiers o;
  dollars_in_ident := dollars_in_ident o; warn_dollars := w;
  warn_undef := warn_undef o; warn_num_sign_change := warn_num_sign_change o;
  warn_multichar := warn_multichar o; warn_expansion_to_defined := warn_expansion_to_defined o;
  warn_endif_labels := warn_endif_labels o; precision := precision o;
  char_precision := char_precision o; int_precision := int_precision o;
  wchar_precision := wchar_precision o; unsigned_char := unsigned_char o;
  unsigned_wchar := unsigned_wchar o; bytes_big_endian := bytes_big_endian o;
  objc := objc o; trigraphs := trigraphs o; digraphs := digraphs o;
  uliterals := uliterals o; utf8_char_literals := utf8_char_literals o;
  rliterals := rliterals o; extended_identifiers := extended_identifiers o;
  va_opt := va_opt o; warn_trigraphs := warn_trigraphs o; warn_comments := warn_comments o;
  warn_literal_suffix := warn_literal_suffix o; warn_normalize := warn_normalize o;
  cpp_warn_cxx11_compat := cpp_warn_cxx11_compat o |}.

Section Lex.
  Context (tab : ucn_table) (o : cpp_options) (st : lex_flags) (node : list byte -> lex_node).

(** What a scanner changes beside the text: the normalization state, and the
    option warn_dollars, which the first warning turns off. *)
Record scan : Type := mk_scan { sc_nst : normalize_state; sc_warn_dollars : bool }.

(** ** Identifiers *)

(** Whether the text goes on (or starts, for [first]) an identifier with a
    dollar or a UCN, which is then read. *)
Definition forms_identifier_p (first : bool) (s : scan) (r : list byte) : W (bool * scan * list byte) :=
  if isc (look r 0) "$" then
    if negb (dollars_in_ident o) then mret (false, s, r)
    else
      let warn := sc_warn_dollars s && negb (skipping st) in
      when warn (cpp_error CPP_DL_PEDWARN "'$' in identifier or number") ;;w
      mret (true, mk_scan (sc_nst s) (sc_warn_dollars s && negb warn), drop 1 r)
  else if extended_identifiers o && isc (look r 0) "\" && (isc (look r 1) "u" || isc (look r 1) "U") then
    u ←w _cpp_valid_ucn tab (set_warn_dollars (sc_warn_dollars s) o) (skipping st) (look r 1)
           (drop 2 r) 10 (if first then 1 else 2) (sc_nst s) ;;
    mret (uc_consumed u, mk_scan (uc_nst u) (uc_warn_dollars u),
          if uc_consumed u then uc_rest u else r)
  else mret (false, s, r).

(** The longest run of identifier characters, and what follows it. *)
Fixpoint idnum_run (r : list byte) : list byte * list byte :=
  match r with
  | c :: r' => if ISIDNUM c then let run := idnum_run r' in (c :: fst run, snd run) else ([], r)
  | [] => ([], [])
  end.

Definition update_idnums (cs : list byte) (s : scan) : scan :=
  mk_scan (fold_left (fun nst c => NORMALIZE_STATE_UPDATE_IDNUM c nst) cs (sc_nst s))
    (sc_warn_dollars s).

Definition maybe_va_opt_error : W unit :=
  if cpp_pedantic o && negb (va_opt o) then
    when (negb (in_system_header st))
      (cpp_error CPP_DL_PEDWARN "__VA_OPT__ is not available until C++2a")
  else when (negb (va_args_ok st))
         (cpp_error CPP_DL_PEDWARN
            "__VA_OPT__ can only appear in the expansion of a C++2a variadic macro").

(** The diagnostics an identifier can ask for. *)
Definition identifier_diagnostics (name : list byte) : W unit :=
  let flags := ln_flags (node name) in
  when (flag flags NODE_DIAGNOSTIC && negb (skipping st))
    (when (flag flags NODE_POISONED && negb (poisoned_ok st))
       (cpp_error CPP_DL_ERROR "attempt to use poisoned '%s'") ;;w
     when (bytes_eqb name (bytes "__VA_ARGS__") && negb (va_args_ok st))
       (cpp_error CPP_DL_PEDWARN
          (if cplusplus o
           then "__VA_ARGS__ can only appear in the expansion of a C++11 variadic macro"
           else "__VA_ARGS__ can only appear in the expansion of a C99 variadic macro")) ;;w
     when (bytes_eqb name (bytes "__VA_OPT__")) maybe_va_opt_error ;;w
     when (flag flags NODE_WARN_OPERATOR)
       (cpp_warning CPP_W_CXX_OPERATOR_NAMES "identifier '%s' is a special operator name in C++")).

(** The name and the spelling of an identifier, and the hash its name is
    looked up with ([None] where cpp_lookup computes it). *)
Record lexed_ident : Type := mk_ident {
  li_name : list byte;
  li_spelling : list byte;
  li_hash : option Z
}.

(** The loop over runs of characters and UCNs or dollars. *)
Fixpoint ident_loop (fuel : nat) (s : scan) (r : list byte) : W (scan * list byte) :=
  match fuel with
  | O => mret (s, r)
  | S fuel =>
      let '(run, r) := idnum_run r in
      f ←w forms_identifier_p false (update_idnums run s) r ;;
      let '(more, s, r) := f in
      if more : bool then ident_loop fuel s r else mret (s, r)
  end.

(** The text of [base] up to [r]. *)
Definition text_to (base r : list byte) : list byte := take (length base - length r) base.

Definition identifier_hash (base run : list byte) : Z :=
  HT_HASHFINISH (fold_left HT_HASHSTEP run (HT_HASHSTEP 0 (look base 0)))
    (Z.of_nat (S (length run))).

(** Lex an identifier that starts at [base]; [r] follows its first character,
    or its first UCN. *)
Definition lex_identifier (base r : list byte) (starts_ucn : bool) (s : scan)
  : W (option lexed_ident * scan * list byte) :=
  let '(run, r1) := if starts_ucn then ([], r) else idnum_run r in
  let s := if starts_ucn then s
           else mk_scan (NORMALIZE_STATE_UPDATE_IDNUM (List.last run (look base 0)) (sc_nst s))
                  (sc_warn_dollars s) in
  f ←w (if starts_ucn then mret (true, s, r1) else forms_identifier_p false s r1) ;;
  let '(slow, s, r) := f in
  i ←w (if slow : bool then
          l ←w ident_loop (S (length r)) s r ;;
          let '(s, r) := l in
          let spelling := text_to base r in
          name ←w _cpp_interpret_identifier spelling ;;
          mret (match name with
                | Some n => Some (mk_ident n spelling None)
                | None => None end, s, r)
        else
          let name := text_to base r in
          mret (Some (mk_ident name name (Some (identifier_hash base run))), s, r)) ;;
  match fst (fst i) with
  | Some id => identifier_diagnostics (li_name id)
  | None => mret tt
  end ;;w
  mret i.

(** ** Numbers *)

Definition VALID_SIGN (c prevc : byte) : bool :=
  (isc c "+" || isc c "-")
  && (isc prevc "e" || isc prevc "E" || ((isc prevc "p" || isc prevc "P") && extended_numbers o)).

Definition is_number_char (prev c : byte) : bool :=
  ISIDNUM c || isc c "." || DIGIT_SEP o c || VALID_SIGN c prev.

(** A run of the characters of a number; [prev] is [cur[-1]]. *)
Fixpoint number_run (prev : byte) (r : list byte) : list byte * list byte :=
  match r with
  | c :: r' =>
      if is_number_char prev c
      then let run := number_run c r' in (c :: fst run, snd run) else ([], r)
  | [] => ([], [])
  end.

(** A number can't end with a digit separator: the separators at the end of
    the run are given back. *)
Fixpoint drop_separators (run : list byte) : list byte :=
  match run with
  | [] => []
  | c :: run => match drop_separators run with
                | [] => if DIGIT_SEP o c then [] else [c]
                | run => c :: run end
  end.

Fixpoint number_loop (fuel : nat) (prev : byte) (s : scan) (r : list byte) : W (scan * list byte) :=
  match fuel with
  | O => mret (s, r)
  | S fuel =>
      let '(run, _) := number_run prev r in
      let s := update_idnums run s in
      let r := drop (length (drop_separators run)) r in
      f ←w forms_identifier_p false s r ;;
      let '(more, s, r') := f in
      if more : bool then number_loop fuel (List.last (text_to r r') 0) s r' else mret (s, r)
  end.

(** The number that starts at [base]; [r] follows its first character. *)
Definition lex_number (base r : list byte) (s : scan) : W (list byte * scan * list byte) :=
  l ←w number_loop (S (length r)) (look base 0) s r ;;
  let '(s, r) := l in
  mret (text_to base r, s, r).

(** ** Strings, character constants and header names *)

Definition is_macro (r : list byte) : bool :=
  ISIDST (look r 0) && ln_macro (node (fst (idnum_run r))).

Definition is_macro_not_literal_suffix (r : list byte) : bool :=
  if isc (look r 0) "_" && negb (isc (look r 1) "_") then false else is_macro r.

(** The loop up to the terminator; [None] is the end of the line.  The flag
    tells whether a NUL was seen. *)
Fixpoint string_body (terminator : byte) (saw_NUL : bool) (r : list byte)
  : option (list byte) * bool * list byte :=
  match r with
  | [] => (None, saw_NUL, [])
  | c :: r' =>
      if isc c "\" && negb (angled_headers st) && negb (look r' 0 =? 10) then
        match r' with
        | _ :: r'' => string_body terminator saw_NUL r''
        | [] => (None, saw_NUL, [])
        end
      else if c =? terminator then (Some r', saw_NUL, r')
      else if c =? 10 then (None, saw_NUL, r)
      else string_body terminator (saw_NUL || (c =? 0)) r'
  end.

(** The prefix of a literal: the terminator, and what follows it. *)
Definition string_prefix (base : list byte) : byte * list byte :=
  let c := look base 0 in
  let r := drop 1 base in
  if isc c "L" || isc c "U" then (look r 0, drop 1 r)
  else if isc c "u" then
    if isc (look r 0) "8" then (look r 1, drop 2 r) else (look r 0, drop 1 r)
  else (c, r).

Definition string_type (base : list byte) (terminator : byte) : byte * cpp_ttype :=
  let c := look base 0 in
  if terminator =? 34 then
    (34, if isc c "L" then CPP_WSTRING else if isc c "U" then CPP_STRING32
         else if isc c "u" then if isc (look base 1) "8" then CPP_UTF8STRING else CPP_STRING16
         else CPP_STRING)
  else if isc terminator "'" then
    (chr "'", if isc c "L" then CPP_WCHAR else if isc c "U" then CPP_CHAR32
              else if isc c "u" then if isc (look base 1) "8" then CPP_UTF8CHAR else CPP_CHAR16
              else CPP_CHAR)
  else (chr ">", CPP_HEADER_NAME).

(** A user-defined suffix behind a literal. *)
Definition literal_suffix (type : cpp_ttype) (r : list byte) : W (cpp_ttype * list byte) :=
  if user_literals o then
    if is_macro_not_literal_suffix r then
      when (warn_literal_suffix o && negb (skipping st))
        (cpp_warning CPP_W_LITERAL_SUFFIX
           "invalid suffix on literal; C++11 requires a space between literal and string macro") ;;w
      mret (type, r)
    else if ISIDST (look r 0) then
      mret (cpp_userdef_string_add_type (cpp_userdef_char_add_type type), snd (idnum_run (drop 1 r)))
    else mret (type, r)
  else
    when (cpp_warn_cxx11_compat o && is_macro r && negb (skipping st))
      (cpp_warning CPP_W_CXX11_COMPAT "C++11 requires a space between string literal and macro") ;;w
    mret (type, r).

(** The literal at [base], which is not a raw string: its type and what
    follows it; CPP_LESS for a header name without its closing bracket. *)
Definition lex_string (base : list byte) : W (cpp_ttype * list byte) :=
  let '(terminator, r) := string_prefix base in
  let '(terminator, type) := string_type base terminator in
  let '(closed, saw_NUL, r) := string_body terminator false r in
  let ends := match closed with Some _ => true | None => false end in
  if negb ends && isc terminator ">" then mret (CPP_LESS, drop 1 base)
  else
    let type := if ends then type else CPP_OTHER in
    when (saw_NUL && negb (skipping st))
      (cpp_error CPP_DL_WARNING "null character(s) preserved in literal") ;;w
    when (ttype_eqb type CPP_OTHER && negb (c_lang_index (lang o) =? c_lang_index CLK_ASM))
      (cpp_error CPP_DL_PEDWARN "missing terminating %c character") ;;w
    literal_suffix type r.

(** ** Operators *)

Definition next_is (r : list byte) (i : nat) (a : ascii) : bool := isc (look r i) a.

(** The operator that starts with [c], the text [r] following it: its type,
    whether it is a digraph, and how many characters of [r] belong to it.
    [None] for a character that starts no operator. *)
Definition lex_operator (c : byte) (r : list byte) : option (cpp_ttype * bool * nat) :=
  let op (ty : cpp_ttype) (n : nat) := Some (ty, false, n) in
  let if_next_is (a : ascii) then_type else_type :=
    if next_is r 0 a then op then_type 1%nat else op else_type 0%nat in
  if isc c "/" then if next_is r 0 "=" then op CPP_DIV_EQ 1%nat else op CPP_DIV 0%nat
  else if isc c "<" then
    if next_is r 0 "=" then op CPP_LESS_EQ 1%nat
    else if next_is r 0 "<" then if next_is r 1 "=" then op CPP_LSHIFT_EQ 2%nat else op CPP_LSHIFT 1%nat
    else if digraphs o then
      if next_is r 0 ":" then
        if cplusplus o && negb (c_lang_index (lang o) =? c_lang_index CLK_CXX98)
           && negb (c_lang_index (lang o) =? c_lang_index CLK_GNUCXX) && next_is r 1 ":"
           && negb (next_is r 2 ":") && negb (next_is r 2 ">")
        then op CPP_LESS 0%nat
        else Some (CPP_OPEN_SQUARE, true, 1%nat)
      else if next_is r 0 "%" then Some (CPP_OPEN_BRACE, true, 1%nat)
      else op CPP_LESS 0%nat
    else op CPP_LESS 0%nat
  else if isc c ">" then
    if next_is r 0 "=" then op CPP_GREATER_EQ 1%nat
    else if next_is r 0 ">" then if next_is r 1 "=" then op CPP_RSHIFT_EQ 2%nat else op CPP_RSHIFT 1%nat
    else op CPP_GREATER 0%nat
  else if isc c "%" then
    if next_is r 0 "=" then op CPP_MOD_EQ 1%nat
    else if digraphs o then
      if next_is r 0 ":" then
        if next_is r 1 "%" && next_is r 2 ":" then Some (CPP_PASTE, true, 3%nat)
        else Some (CPP_HASH, true, 1%nat)
      else if next_is r 0 ">" then Some (CPP_CLOSE_BRACE, true, 1%nat)
      else op CPP_MOD 0%nat
    else op CPP_MOD 0%nat
  else if isc c "." then
    if next_is r 0 "." && next_is r 1 "." then op CPP_ELLIPSIS 2%nat
    else if next_is r 0 "*" && cplusplus o then op CPP_DOT_STAR 1%nat
    else op CPP_DOT 0%nat
  else if isc c "+" then
    if next_is r 0 "+" then op CPP_PLUS_PLUS 1%nat else if next_is r 0 "=" then op CPP_PLUS_EQ 1%nat
    else op CPP_PLUS 0%nat
  else if isc c "-" then
    if next_is r 0 ">" then
      if next_is r 1 "*" && cplusplus o then op CPP_DEREF_STAR 2%nat else op CPP_DEREF 1%nat
    else if next_is r 0 "-" then op CPP_MINUS_MINUS 1%nat else if next_is r 0 "=" then op CPP_MINUS_EQ 1%nat
    else op CPP_MINUS 0%nat
  else if isc c "&" then
    if next_is r 0 "&" then op CPP_AND_AND 1%nat else if next_is r 0 "=" then op CPP_AND_EQ 1%nat
    else op CPP_AND 0%nat
  else if isc c "|" then
    if next_is r 0 "|" then op CPP_OR_OR 1%nat else if next_is r 0 "=" then op CPP_OR_EQ 1%nat
    else op CPP_OR 0%nat
  else if isc c ":" then
    if next_is r 0 ":" && cplusplus o then op CPP_SCOPE 1%nat
    else if next_is r 0 ">" && digraphs o then Some (CPP_CLOSE_SQUARE, true, 1%nat)
    else op CPP_COLON 0%nat
  else if isc c "*" then if_next_is "="%char CPP_MULT_EQ CPP_MULT
  else if isc c "=" then if_next_is "="%char CPP_EQ_EQ CPP_EQ
  else if isc c "!" then if_next_is "="%char CPP_NOT_EQ CPP_NOT
  else if isc c "^" then if_next_is "="%char CPP_XOR_EQ CPP_XOR
  else if isc c "#" then if_next_is "#"%char CPP_PASTE CPP_HASH
  else if isc c "?" then op CPP_QUERY 0%nat
  else if isc c "~" then op CPP_COMPL 0%nat
  else if isc c "," then op CPP_COMMA 0%nat
  else if isc c "(" then op CPP_OPEN_PAREN 0%nat
  else if isc c ")" then op CPP_CLOSE_PAREN 0%nat
  else if isc c "[" then op CPP_OPEN_SQUARE 0%nat
  else if isc c "]" then op CPP_CLOSE_SQUARE 0%nat
  else if isc c "{" then op CPP_OPEN_BRACE 0%nat
  else if isc c "}" then op CPP_CLOSE_BRACE 0%nat
  else if isc c ";" then op CPP_SEMICOLON 0%nat
  else if isc c "@" then op CPP_ATSIGN 0%nat
  else None.

(** ** White space and comments *)

(** skip_whitespace: [c] is the first character, [r] follows it. *)
Fixpoint skip_whitespace_loop (c : byte) (r : list byte) (saw_NUL : bool) : W (bool * list byte) :=
  when (negb ((c =? 32) || (c =? 9)) && negb (c =? 0) && in_directive st && cpp_pedantic o)
    (cpp_error CPP_DL_PEDWARN "%s in preprocessing directive") ;;w
  let saw_NUL := saw_NUL || (c =? 0) in
  match r with
  | c' :: r' => if is_nvspace c' then skip_whitespace_loop c' r' saw_NUL else mret (saw_NUL, r)
  | [] => mret (saw_NUL, r)
  end.

Definition skip_whitespace (c : byte) (r : list byte) : W (list byte) :=
  l ←w skip_whitespace_loop c r false ;;
  when (fst l) (cpp_error CPP_DL_WARNING "null character(s) ignored") ;;w
  mret (snd l).

(** The part of a block comment on this line: [prev] is the character before
    [r].  What follows the comment, or [None] if it is not closed here. *)
Fixpoint block_comment_line (prev : byte) (r : list byte) : W (option (list byte)) :=
  match r with
  | [] => mret None
  | c :: r' =>
      if isc c "/" then
        if isc prev "*" then mret (Some r')
        else
          when (warn_comments o && next_is r' 0 "*" && negb (next_is r' 1 "/"))
            (cpp_warning CPP_W_COMMENTS "'/*' within comment") ;;w
          block_comment_line c r'
      else if c =? 10 then mret None
      else block_comment_line c r'
  end.

(** _cpp_skip_block_comment from the asterisk at the head of [r]. *)
Definition block_comment (r : list byte) : W (option (list byte)) :=
  let r := drop 1 r in
  if next_is r 0 "/" then block_comment_line (chr "/") (drop 1 r)
  else block_comment_line (chr "*") r.

(** skip_line_comment: up to the newline. *)
Fixpoint line_comment (r : list byte) : list byte :=
  match r with
  | c :: r' => if c =? 10 then r else line_comment r'
  | [] => []
  end.

(** Whether "//" starts a comment ([r] is at the second slash), and whether
    the warning about it has been given. *)
Definition cplusplus_comment (warned : bool) (r : list byte) : W (bool * bool) :=
  let is_lang (l : c_lang) := c_lang_index (lang o) =? c_lang_index l in
  if in_system_header st then mret (true, warned)
  else if is_lang CLK_GNUC89 && cpp_pedantic o && negb warned then
    cpp_error CPP_DL_PEDWARN "C++ style comments are not allowed in ISO C90" ;;w
    cpp_error CPP_DL_NOTE "(this will be reported only once per input file)" ;;w
    mret (true, true)
  else if (0 <? cpp_warn_c90_c99_compat o) && negb (cplusplus o) && negb warned then
    cpp_error CPP_DL_WARNING "C++ style comments are incompatible with C90" ;;w
    cpp_error CPP_DL_NOTE "(this will be reported only once per input file)" ;;w
    mret (true, true)
  else if is_lang CLK_STDC89 || is_lang CLK_STDC94 then
    if next_is r 1 "*" || in_directive st || skipping st then mret (false, warned)
    else
      when (negb warned)
        (cpp_error CPP_DL_ERROR "C++ style comments are not allowed in ISO C90" ;;w
         cpp_error CPP_DL_NOTE "(this will be reported only once per input file)") ;;w
      mret (true, true)
  else mret (true, warned).

(** ** The dispatch on the first character *)

(** What a lexer remembers between tokens: the option warn_dollars and
    buffer->warned_cplusplus_comments. *)
Record lexer : Type := mk_lexer { lx_warn_dollars : bool; lx_warned_comments : bool }.

(** The end of the line, white space or a comment that was skipped, a token, a
    block comment that goes on on the next line, a raw string, or an access
    outside an array. *)
Inductive lexed : Type :=
  | LexNewline
  | LexWhite (r : list byte)
  | LexComment (r : list byte)
  | LexToken (t : cpp_token) (r : list byte)
  | LexOpenComment
  | LexRawString
  | LexWild.

Definition DIGRAPH : Z := 2.

Definition simple_token (ty : cpp_ttype) (flags : Z) (base r : list byte) : lexed :=
  LexToken (mk_token ty flags (text_to base r) [] 0 false) r.

Definition warn_about_normalization (s : scan) : W unit :=
  when ((warn_normalize o <? level_index (level (sc_nst s))) && negb (skipping st))
    (cpp_warning CPP_W_NORMALIZE
       (match level (sc_nst s) with
        | normalized_C => "`%.*s' is not in NFKC" | _ => "`%.*s' is not in NFC" end)).

(** A name, which can be a named operator. *)
Definition lex_name_token (flags : Z) (id : lexed_ident) (r : list byte) : lexed :=
  let n := node (li_name id) in
  let named := flag (ln_flags n) NODE_OPERATOR in
  LexToken (mk_token (if named then ln_directive_index n else CPP_NAME)
              (if named then Z.lor flags NAMED_OP else flags) (li_name id) (li_spelling id) 0 false) r.

Definition lex_name (flags : Z) (base r : list byte) (starts_ucn : bool) (s : scan) (x : lexer)
  : W (lexed * lexer) :=
  i ←w lex_identifier base r starts_ucn s ;;
  let '(id, s, r) := i in
  match id with
  | None => mret (LexWild, x)
  | Some id =>
      warn_about_normalization s ;;w
      mret (lex_name_token flags id r, mk_lexer (sc_warn_dollars s) (lx_warned_comments x))
  end.

Definition lex_number_token (flags : Z) (base r : list byte) (x : lexer) : W (lexed * lexer) :=
  l ←w lex_number base r (mk_scan INITIAL_NORMALIZE_STATE (lx_warn_dollars x)) ;;
  let '(text, s, r) := l in
  warn_about_normalization s ;;w
  mret (LexToken (mk_token CPP_NUMBER flags text [] 0 false) r,
        mk_lexer (sc_warn_dollars s) (lx_warned_comments x)).

(** Whether [c], one of L, u, U and R, starts a literal. *)
Definition literal_prefix (c : byte) (r : list byte) : bool :=
  (isc c "L" || rliterals o || (negb (isc c "R") && uliterals o))
  && ((next_is r 0 "'" && negb (isc c "R"))
      || (look r 0 =? 34)
      || (next_is r 0 "R" && negb (isc c "R") && (look r 1 =? 34) && rliterals o)
      || (next_is r 0 "8" && isc c "u"
          && ((look r 1 =? 34) || (next_is r 1 "'" && utf8_char_literals o)
              || (next_is r 1 "R" && (look r 2 =? 34) && rliterals o)))).

Definition lex_literal (flags : Z) (base : list byte) (x : lexer) : W (lexed * lexer) :=
  if isc (fst (string_prefix base)) "R" then mret (LexRawString, x)
  else
    l ←w lex_string base ;;
    mret (simple_token (fst l) flags base (snd l), x).

(** A slash: a comment, or an operator. *)
Definition lex_slash (flags : Z) (base r : list byte) (x : lexer) : W (lexed * lexer) :=
  let operator (ty : cpp_ttype) (n : nat) := simple_token ty flags base (drop n r) in
  if next_is r 0 "*" then
    c ←w block_comment r ;;
    mret (match c with Some r => LexComment r | None => LexOpenComment end, x)
  else if next_is r 0 "/" && negb (traditional o) then
    c ←w cplusplus_comment (lx_warned_comments x) r ;;
    let x := mk_lexer (lx_warn_dollars x) (snd c) in
    mret (if (fst c : bool) then LexComment (line_comment r) else operator CPP_DIV 0%nat, x)
  else mret (operator (if next_is r 0 "=" then CPP_DIV_EQ else CPP_DIV)
               (if next_is r 0 "=" then 1%nat else 0%nat), x).

(** An operator, or one character that is no token of its own. *)
Definition lex_punctuator (flags : Z) (c : byte) (base r : list byte) : lexed :=
  match lex_operator c r with
  | Some (ty, dg, n) => simple_token ty (if dg then Z.lor flags DIGRAPH else flags) base (drop n r)
  | None => simple_token CPP_OTHER flags base r
  end.

(** The switch of _cpp_lex_direct, on the first character of [base]; the text
    of the token starts there. *)
Definition lex_token (flags : Z) (base : list byte) (x : lexer) : W (lexed * lexer) :=
  let c := look base 0 in
  let r := drop 1 base in
  let s := mk_scan INITIAL_NORMALIZE_STATE (lx_warn_dollars x) in
  if is_nvspace c then r ←w skip_whitespace c r ;; mret (LexWhite r, x)
  else if c =? 10 then mret (LexNewline, x)
  else if ISDIGIT c then lex_number_token flags base r x
  else if (isc c "L" || isc c "u" || isc c "U" || isc c "R") && literal_prefix c r
  then lex_literal flags base x
  else if ISIDST c then lex_name flags base r false s x
  else if isc c "'" || (c =? 34) then lex_literal flags base x
  else if isc c "/" then lex_slash flags base r x
  else if isc c "<" && angled_headers st then
    l ←w lex_string base ;;
    mret (if ttype_eqb (fst l) CPP_LESS then lex_punctuator flags c base r
          else simple_token (fst l) flags base (snd l), x)
  else if isc c "." && ISDIGIT (look r 0) then lex_number_token flags base r x
  else if isc c "$" || isc c "\" then
    f ←w forms_identifier_p true s base ;;
    let '(starts, s, r') := f in
    if starts : bool then lex_name flags base r' true s x
    else mret (lex_punctuator flags c base r,
               mk_lexer (sc_warn_dollars s) (lx_warned_comments x))
  else mret (lex_punctuator flags c base r, x).

End Lex.

(** ** Spelling a token *)

(** The operators of TTYPE_TABLE. *)
Definition TOKEN_NAME (ty : cpp_ttype) : list byte :=
  bytes match ty with
  | CPP_EQ => "=" | CPP_NOT => "!" | CPP_GREATER => ">" | CPP_LESS => "<" | CPP_PLUS => "+"
  | CPP_MINUS => "-" | CPP_MULT => "*" | CPP_DIV => "/" | CPP_MOD => "%" | CPP_AND => "&"
  | CPP_OR => "|" | CPP_XOR => "^" | CPP_RSHIFT => ">>" | CPP_LSHIFT => "<<" | CPP_COMPL => "~"
  | CPP_AND_AND => "&&" | CPP_OR_OR => "||" | CPP_QUERY => "?" | CPP_COLON => ":"
  | CPP_COMMA => "," | CPP_OPEN_PAREN => "(" | CPP_CLOSE_PAREN => ")" | CPP_EQ_EQ => "=="
  | CPP_NOT_EQ => "!=" | CPP_GREATER_EQ => ">=" | CPP_LESS_EQ => "<=" | CPP_PLUS_EQ => "+="
  | CPP_MINUS_EQ => "-=" | CPP_MULT_EQ => "*=" | CPP_DIV_EQ => "/=" | CPP_MOD_EQ => "%="
  | CPP_AND_EQ => "&=" | CPP_OR_EQ => "|=" | CPP_XOR_EQ => "^=" | CPP_RSHIFT_EQ => ">>="
  | CPP_LSHIFT_EQ => "<<=" | CPP_HASH => "#" | CPP_PASTE => "##" | CPP_OPEN_SQUARE => "["
  | CPP_CLOSE_SQUARE => "]" | CPP_OPEN_BRACE => "{" | CPP_CLOSE_BRACE => "}"
  | CPP_SEMICOLON => ";" | CPP_ELLIPSIS => "..." | CPP_PLUS_PLUS => "++"
  | CPP_MINUS_MINUS => "--" | CPP_DEREF => "->" | CPP_DOT => "." | CPP_SCOPE => "::"
  | CPP_DEREF_STAR => "->*" | CPP_DOT_STAR => ".*" | CPP_ATSIGN => "@" | _ => "" end.

(** The spelling of the digraph for a type, by its position from CPP_FIRST_DIGRAPH. *)
Definition digraph_spellings : list (list byte) :=
  [bytes "%:"; bytes "%:%:"; bytes "<:"; bytes ":>"; bytes "<%"; bytes "%>"].

Definition cpp_digraph2name (ty : cpp_ttype) : list byte :=
  nth (Z.to_nat (ttype_index ty - ttype_index CPP_HASH)) digraph_spellings [].

(** The UCN for the UTF-8 sequence at the head of [name], and the length of
    the sequence; [None] for the abort on one that is ill-formed. *)
Fixpoint leading_ones (n : nat) (t : Z) : nat :=
  match n with
  | O => 0
  | S n => if negb (Z.land t 128 =? 0) then S (leading_ones n (Z.shiftl t 1)) else 0
  end.

Definition hex_digit_char (d : Z) : byte := if d <? 10 then 48 + d else 97 + (d - 10).

Fixpoint utf8_tail (n : nat) (name : list byte) (utf32 : Z) : option Z :=
  match n, name with
  | O, _ => Some utf32
  | S n, c :: name =>
      if Z.land c 0xC0 =? 0x80
      then utf8_tail n name (Z.lor (Z.shiftl utf32 6) (Z.land c 63)) else None
  | S _, [] => None
  end.

Definition utf8_to_ucn (name : list byte) : option (list byte * nat) :=
  let ucn_len := leading_ones 8 (look name 0) in
  utf32 ← utf8_tail (ucn_len - 1) (drop 1 name)
            (Z.land (look name 0) (Z.shiftr 127 (Z.of_nat ucn_len)));
  Some (bytes "\U" ++ map (fun j => hex_digit_char (Z.land (Z.shiftr utf32 (4 * j)) 15))
          [7; 6; 5; 4; 3; 2; 1; 0], ucn_len).

Fixpoint spell_ident_loop (fuel : nat) (name : list byte) : option (list byte) :=
  match fuel, name with
  | _, [] => Some []
  | O, _ => None
  | S fuel, c :: name' =>
      if 128 <=? c then
        '(ucn, n) ← utf8_to_ucn name;
        rest ← spell_ident_loop fuel (drop n name);
        Some (ucn ++ rest)
      else rest ← spell_ident_loop fuel name'; Some (c :: rest)
  end.

Definition _cpp_spell_ident_ucns (name : list byte) : option (list byte) :=
  spell_ident_loop (length name) name.

(** cpp_spell_token, with the original spelling of identifiers for
    [forstring] and UCNs otherwise; a token without a spelling has none. *)
Definition cpp_spell_token (t : cpp_token) (forstring : bool) : option (list byte) :=
  let spell_ident := if forstring then Some (t_spelling t) else _cpp_spell_ident_ucns (t_text t) in
  match TOKEN_SPELL (t_type t) with
  | SPELL_OPERATOR =>
      if flag (t_flags t) DIGRAPH then Some (cpp_digraph2name (t_type t))
      else if flag (t_flags t) NAMED_OP then spell_ident
      else Some (TOKEN_NAME (t_type t))
  | SPELL_IDENT => spell_ident
  | SPELL_LITERAL => Some (t_text t)
  | SPELL_NONE => Some []
  end.

(** An upper bound on the length of the spelling. *)
Definition cpp_token_len (t : cpp_token) : Z :=
  match TOKEN_SPELL (t_type t) with
  | SPELL_LITERAL => Z.of_nat (length (t_text t))
  | SPELL_IDENT => Z.of_nat (length (t_text t)) * 10
  | _ => 6
  end.

(** Whether a number has only the characters of a name. *)
Definition name_p (o : cpp_options) (text : list byte) : bool :=
  forallb (fun c => ISIDNUM c || (isc c "$" && dollars_in_ident o)) text.

(** Whether a space should be written between two tokens; [c] is the first
    character of the second if it is an operator (-1, EOF, if it is not). *)
Definition cpp_avoid_paste (o : cpp_options) (token1 token2 : cpp_token) : bool :=
  let a := if flag (t_flags token1) NAMED_OP then CPP_NAME else t_type token1 in
  let b := if flag (t_flags token2) NAMED_OP then CPP_NAME else t_type token2 in
  let c := if flag (t_flags token2) DIGRAPH then look (cpp_digraph2name b) 0
           else match TOKEN_SPELL b with SPELL_OPERATOR => look (TOKEN_NAME b) 0 | _ => -1 end in
  let isb ty := ttype_eqb b ty in
  if (ttype_index a <=? ttype_index CPP_LSHIFT) && isc c "=" then true
  else match a with
  | CPP_GREATER => isc c ">"
  | CPP_LESS => isc c "<" || isc c "%" || isc c ":"
  | CPP_PLUS => isc c "+"
  | CPP_MINUS => isc c "-" || isc c ">"
  | CPP_DIV => isc c "/" || isc c "*"
  | CPP_MOD => isc c ":" || isc c ">"
  | CPP_AND => isc c "&"
  | CPP_OR => isc c "|"
  | CPP_COLON => isc c ":" || isc c ">"
  | CPP_DEREF => isc c "*"
  | CPP_DOT => isc c "." || isc c "%" || isb CPP_NUMBER
  | CPP_HASH => isc c "#" || isc c "%"
  | CPP_NAME => (isb CPP_NUMBER && name_p o (t_text token2)) || isb CPP_NAME || isb CPP_CHAR
                || isb CPP_STRING
  | CPP_NUMBER => isb CPP_NUMBER || isb CPP_NAME || isc c "." || isc c "+" || isc c "-"
  | CPP_OTHER => (isc (look (t_text token1) 0) "\" && isb CPP_NAME)
                 || (objc o && isc (look (t_text token1) 0) "@" && (isb CPP_NAME || isb CPP_STRING))
  | CPP_STRING | CPP_WSTRING | CPP_UTF8STRING | CPP_STRING16 | CPP_STRING32 =>
      user_literals o
      && (isb CPP_NAME
          || (match TOKEN_SPELL (t_type token2) with
              | SPELL_LITERAL => ISIDST (look (t_text token2) 0) | _ => false end))
  | _ => false
  end.
