(* ===== verification/LexGrammar.v ===== *)
(** * The preprocessing tokens as a grammar, and the scanners

    What the scanners of lex.c recognise: the pieces of identifiers and
    numbers, the bodies of literals, the punctuators, put together in the
    grammar [pp_token].  Each scanner is shown to read a text of the grammar,
    and the longest one at that place.  The grammar is that of C11 6.4 with
    the choices the options make, and with the source's own reading where it
    departs from the standard (a sign can follow a universal character name
    whose last digit is e in a number). *)

From Stdlib Require Import ZArith Lia Bool String Ascii.
From stdpp Require Import base tactics list numbers.
From S2P Require Import Prelude Reader CppNum NumLit Stream Utf StrLit Symtab CleanLine Lex.

Local Open Scope string_scope.
Local Open Scope list_scope.
Local Open Scope Z_scope.

(** ** Pieces of identifiers and numbers *)

(** The text starts with [n] hexadecimal digits. *)
Fixpoint hex_run (n : nat) (r : list byte) : bool :=
  match n with
  | O => true
  | S n => ISXDIGIT (look r 0) && hex_run n (drop 1 r)
  end.

(** The length of the dollar or UCN at the head of the text, 0 if there is none. *)
Definition ext_len (o : cpp_options) (r : list byte) : nat :=
  if isc (look r 0) "$" then if dollars_in_ident o then 1 else 0
  else if extended_identifiers o && isc (look r 0) "\" then
    if isc (look r 1) "u" then if hex_run 4 (drop 2 r) then 6 else 0
    else if isc (look r 1) "U" then if hex_run 8 (drop 2 r) then 10 else 0
    else 0
  else 0.

(** The length of the piece of an identifier at the head of the text: a
    character, a dollar or a UCN. *)
Definition piece_len (o : cpp_options) (r : list byte) : nat :=
  if ISIDNUM (look r 0) then 1 else ext_len o r.

Inductive id_tail (o : cpp_options) : list byte -> Prop :=
  | id_nil : id_tail o []
  | id_piece p t : p <> [] -> piece_len o p = length p -> id_tail o t -> id_tail o (p ++ t).

Inductive num_tail (o : cpp_options) : byte -> list byte -> Prop :=
  | num_nil prev : num_tail o prev []
  | num_char prev c t : is_number_char o prev c = true -> DIGIT_SEP o c = false ->
      num_tail o c t -> num_tail o prev (c :: t)
  | num_sep prev c d t : DIGIT_SEP o c = true -> is_number_char o c d = true ->
      num_tail o c (d :: t) -> num_tail o prev (c :: d :: t)
  | num_ext prev p t : p <> [] -> ext_len o p = length p -> num_tail o (List.last p 0) t ->
      num_tail o prev (p ++ t).

Lemma look_drop r i j : look (drop i r) j = look r (i + j).
Proof. unfold look. revert r. induction i as [|i IH]; intros [|c r]; simpl; try done. by destruct j. Qed.

Lemma look_app_l p r i : (i < length p)%nat -> look (p ++ r) i = look p i.
Proof. intros H. unfold look. by apply app_nth1. Qed.

Lemma look_end p i : (length p <= i)%nat -> look p i = 10.
Proof. intros H. unfold look. by apply nth_overflow. Qed.

Lemma ISXDIGIT_nl : ISXDIGIT 10 = false. Proof. done. Qed.

Lemma hex_run_length n : forall r, hex_run n r = true -> (n <= length r)%nat.
Proof.
  induction n as [|n IH]; intros [|c r] H; try done; simpl in *; [lia|].
  apply andb_true_iff in H as [_ H]. rewrite drop_0 in H. specialize (IH _ H). lia.
Qed.

Lemma hex_run_app n : forall p r, (n <= length p)%nat -> hex_run n (p ++ r) = hex_run n p.
Proof.
  induction n as [|n IH]; intros [|c p] r H; try done; simpl in *; [lia|].
  by rewrite !drop_0, IH by lia.
Qed.

(** The dollar, the short and the long UCN. *)
Lemma ext_len_cases o r :
  (ext_len o r = 0)%nat \/
  (ext_len o r = 1 /\ isc (look r 0) "$" = true)%nat \/
  (ext_len o r = 6 /\ isc (look r 0) "\" = true /\ isc (look r 1) "u" = true
   /\ hex_run 4 (drop 2 r) = true)%nat \/
  (ext_len o r = 10 /\ isc (look r 0) "\" = true /\ isc (look r 1) "U" = true
   /\ hex_run 8 (drop 2 r) = true)%nat.
Proof. unfold ext_len. repeat case_match; bprop; naive_solver. Qed.

Lemma isc_length r i a : isc (look r i) a = true -> chr a <> 10 -> (i < length r)%nat.
Proof.
  intros H Ha. destruct (Nat.lt_ge_cases i (length r)) as [|Hi]; [done|].
  unfold isc in H. rewrite look_end in H by done. apply Z.eqb_eq in H. congruence.
Qed.

Lemma ext_len_length o r : (ext_len o r <= length r)%nat.
Proof.
  destruct (ext_len_cases o r) as [->|[[-> H]|[(->&H&H1&H2)|(->&H&H1&H2)]]]; [lia|..].
  - by apply isc_length in H.
  - apply hex_run_length in H2. apply isc_length in H1; [|done]. rewrite length_drop in H2. lia.
  - apply hex_run_length in H2. apply isc_length in H1; [|done]. rewrite length_drop in H2. lia.
Qed.

Lemma piece_len_length o r : (piece_len o r <= length r)%nat.
Proof.
  unfold piece_len. destruct (ISIDNUM _) eqn:E; [|apply ext_len_length].
  destruct r; [done|simpl; lia].
Qed.

(** A dollar or UCN is recognised whatever follows it. *)
Lemma ext_len_agree o p r : (ext_len o p <> 0)%nat -> ext_len o (p ++ r) = ext_len o p.
Proof.
  intros Hn. destruct (ext_len_cases o p) as [H|[[H H0]|[(H&H0&H1&H2)|(H&H0&H1&H2)]]]; [done|..];
    pose proof (isc_length _ _ _ H0 ltac:(done)) as L0;
    try pose proof (isc_length _ _ _ H1 ltac:(done)) as L1;
    try (pose proof (hex_run_length _ _ H2) as L2; rewrite length_drop in L2);
    unfold ext_len; rewrite (look_app_l p r 0) by done; rewrite ?H0; [done|..];
    rewrite (look_app_l p r 1) by done; rewrite H1; cbv iota; rewrite !drop_app_le by lia;
    rewrite !hex_run_app by (rewrite ?length_drop; lia); done.
Qed.

Lemma piece_len_agree o p r : (piece_len o p <> 0)%nat -> piece_len o (p ++ r) = piece_len o p.
Proof.
  intros Hn. pose proof (piece_len_length o p) as Hl. revert Hn. unfold piece_len in *.
  destruct p as [|c p]; [simpl in *; lia|]. cbn [app].
  change (look (c :: p ++ r) 0) with c. change (look (c :: p) 0) with c.
  destruct (ISIDNUM c); [done|]. intros Hn. by apply (ext_len_agree o (c :: p)).
Qed.

Lemma look_take k r i : (i < k)%nat -> look (take k r) i = look r i.
Proof.
  intros H. destruct (Nat.lt_ge_cases i (length r)).
  - rewrite <- (take_drop k r) at 2. rewrite look_app_l; [done|]. rewrite length_take. lia.
  - rewrite !look_end by (rewrite ?length_take; lia). done.
Qed.

Lemma hex_run_take n : forall k r, (n <= k)%nat -> hex_run n (take k r) = hex_run n r.
Proof.
  induction n as [|n IH]; intros k r H; [done|]. cbn [hex_run].
  rewrite look_take, skipn_firstn_comm, IH by lia. done.
Qed.

Lemma ext_len_nil o : ext_len o [] = 0%nat.
Proof. pose proof (ext_len_length o []). simpl in *. lia. Qed.

Lemma ext_len_take o r : ext_len o (take (ext_len o r) r) = ext_len o r.
Proof.
  destruct (ext_len_cases o r) as [H'|[[H' H0]|[(H'&H0&H1&H2)|(H'&H0&H1&H2)]]]; rewrite H';
    [apply ext_len_nil|..]; revert H'; unfold ext_len; rewrite !(look_take _ r 0) by lia; rewrite ?H0; [done|..];
    rewrite !(look_take _ r 1) by lia; rewrite ?H1; cbv iota;
    rewrite !skipn_firstn_comm, !hex_run_take by (simpl; lia); done.
Qed.

Lemma piece_len_take o r : piece_len o (take (piece_len o r) r) = piece_len o r.
Proof.
  unfold piece_len at 2 3. destruct (ISIDNUM (look r 0)) eqn:E.
  - unfold piece_len. by rewrite look_take, E by lia.
  - destruct (decide (ext_len o r = 0)%nat) as [H|H]; [rewrite H; apply ext_len_nil|].
    unfold piece_len. rewrite look_take, E, ext_len_take by lia. done.
Qed.

Lemma ext_not_idnum o p : ext_len o p <> 0%nat -> ISIDNUM (look p 0) = false.
Proof.
  destruct (ext_len_cases o p) as [?|[[_ H0]|[(_&H0&_)|(_&H0&_)]]]; [done|..];
    apply Z.eqb_eq in H0; by rewrite H0.
Qed.

(** ** The scanners *)

Lemma ucn_digits_hex n : forall v r,
  (fst (fst (ucn_digits n v r 10%Z)) =? 0)%nat = hex_run n r /\
  (hex_run n r = true -> snd (ucn_digits n v r 10%Z) = drop n r).
Proof.
  induction n as [|n IH]; intros v r; [done|]. destruct r as [|c r]; [done|].
  cbn [ucn_digits hex_run hd]. change (look (c :: r) 0) with c.
  destruct (ISXDIGIT c) eqn:E; cbn [negb andb tl]; [|done].
  change (drop 1 (c :: r)) with r. destruct r as [|c' r]; [|apply IH].
  by destruct n.
Qed.

Section Scan.
Context (tab : ucn_table) (o : cpp_options) (st : lex_flags) (node : list byte -> lex_node).

Lemma valid_ucn_text (o' : cpp_options) letter r pos nst :
  pos <> 0 -> (isc letter "u" = true \/ isc letter "U" = true) ->
  let n := if isc letter "u" then 4%nat else 8%nat in
  let u := snd (_cpp_valid_ucn tab o' (skipping st) letter r 10%Z pos nst) in
  uc_consumed u = hex_run n r /\ (hex_run n r = true -> uc_rest u = drop n r).
Proof.
  intros Hpos Hl n u. subst u. unfold _cpp_valid_ucn. rewrite !snd_W_bind.
  match goal with |- context [ucn_digits ?x] => assert (x = n) as -> end.
  { unfold n. destruct (isc letter "u"); [done|]. by destruct Hl as [| ->]. }
  destruct (ucn_digits_hex n 0 r) as [Hm Hr].
  destruct (ucn_digits n 0%Z r 10%Z) as [[m v] rest]. cbn [fst snd] in *.
  rewrite <- Hm in *. apply Z.eqb_neq in Hpos. rewrite Hpos. cbn [negb].
  destruct (m =? 0)%nat; cbn [negb andb]; [|done].
  specialize (Hr eq_refl). repeat case_match; rewrite ?snd_W_bind; cbn; done.
Qed.

Lemma forms_spec first s r : exists s',
  snd (forms_identifier_p tab o st first s r)
  = (negb (ext_len o r =? 0)%nat, s', drop (ext_len o r) r).
Proof.
  unfold forms_identifier_p, ext_len. destruct (isc (look r 0) "$").
  - destruct (dollars_in_ident o); cbn; eauto.
  - destruct (extended_identifiers o && isc (look r 0) "\"); cbn [andb]; [|cbn; eauto].
    destruct (isc (look r 1) "u") eqn:Eu; cbn [orb].
    + rewrite snd_W_bind. eexists. cbn [snd mret W_ret].
      edestruct (valid_ucn_text (set_warn_dollars (sc_warn_dollars s) o) (look r 1) (drop 2 r)
        (if first then 1 else 2) (sc_nst s)) as [Hc Hr]; [by destruct first|by left|].
      rewrite Eu in *. rewrite Hc. destruct (hex_run 4 _); [|done]. by rewrite Hr, drop_drop.
    + destruct (isc (look r 1) "U") eqn:EU; [|cbn; eauto].
      rewrite snd_W_bind. eexists. cbn [snd mret W_ret].
      edestruct (valid_ucn_text (set_warn_dollars (sc_warn_dollars s) o) (look r 1) (drop 2 r)
        (if first then 1 else 2) (sc_nst s)) as [Hc Hr]; [by destruct first|by right|].
      rewrite Eu in *. rewrite Hc. destruct (hex_run 8 _); [|done]. by rewrite Hr, drop_drop.
Qed.

Lemma idnum_run_spec r : r = fst (idnum_run r) ++ snd (idnum_run r) /\
  forallb ISIDNUM (fst (idnum_run r)) = true /\ ISIDNUM (look (snd (idnum_run r)) 0) = false.
Proof.
  induction r as [|c r IH]; [done|]. cbn [idnum_run]. destruct (ISIDNUM c) eqn:E; cbn.
  - destruct IH as (H1 & H2 & H3). rewrite E, H2. split_and!; [by f_equal|done..].
  - done.
Qed.

Lemma id_tail_run run t : forallb ISIDNUM run = true -> id_tail o t -> id_tail o (run ++ t).
Proof.
  intros H Ht. induction run as [|c run IH]; [done|]. simpl in H. bprop.
  change ((c :: run) ++ t) with ([c] ++ (run ++ t)). apply id_piece; [done| |auto].
  unfold piece_len. cbn. by rewrite H.
Qed.

Lemma id_tail_ext r t : ext_len o r <> 0%nat -> ISIDNUM (look r 0) = false ->
  id_tail o t -> id_tail o (take (ext_len o r) r ++ t).
Proof.
  intros Hn Hc Ht. pose proof (ext_len_length o r). apply id_piece; [|..|done].
  - destruct r; simpl in *; [rewrite ext_len_nil in Hn; done|]. by destruct (ext_len _ _).
  - assert (piece_len o r = ext_len o r) as E by (unfold piece_len; by rewrite Hc).
    rewrite <- E, piece_len_take, length_take, E. lia.
Qed.

(** The text a loop has read: a tail of an identifier which cannot go on. *)
Lemma ident_loop_spec fuel : forall s r, (length r < fuel)%nat -> exists s' t r',
  snd (ident_loop tab o st fuel s r) = (s', r') /\ r = t ++ r' /\ id_tail o t /\ piece_len o r' = 0%nat.
Proof.
  induction fuel as [|fuel IH]; intros s r Hf; [lia|]. cbn [ident_loop].
  destruct (idnum_run_spec r) as (Hr & Hrun & Hstop).
  destruct (idnum_run r) as [run r1]. cbn [fst snd] in *. rewrite snd_W_bind.
  destruct (forms_spec false (update_idnums run s) r1) as [s1 ->].
  destruct (ext_len o r1 =? 0)%nat eqn:E; cbn [negb].
  - apply Nat.eqb_eq in E. eexists _, run, _. split; [done|]. rewrite E, drop_0.
    split_and!; [done| |].
    + rewrite <- (app_nil_r run). apply id_tail_run; [done|constructor].
    + unfold piece_len. by rewrite Hstop.
  - apply Nat.eqb_neq in E. pose proof (ext_len_length o r1) as Hl. subst r. rewrite length_app in Hf.
    destruct (IH s1 (drop (ext_len o r1) r1)) as (s' & t & r' & -> & Hr' & Ht & Hp).
    { rewrite length_drop. lia. }
    exists s', (run ++ take (ext_len o r1) r1 ++ t), r'. split_and!; [done| | |done].
    + rewrite <- !app_assoc, <- Hr'. by rewrite take_drop.
    + apply id_tail_run; [done|]. by apply id_tail_ext.
Qed.

(** Nothing longer is a tail of an identifier: the pieces are a prefix code. *)
Lemma id_tail_longest t r t' r' : id_tail o t' -> id_tail o t -> piece_len o r = 0%nat ->
  t' ++ r' = t ++ r -> (length t' <= length t)%nat.
Proof.
  intros Ht'. revert t. induction Ht' as [|p t' Hp Hl Ht' IH]; intros t Ht Hr Heq; [simpl; lia|].
  assert (length p <> 0)%nat as Hne by (by destruct p).
  assert (piece_len o ((p ++ t') ++ r') = length p) as Hlp.
  { rewrite <- app_assoc, piece_len_agree; lia. }
  rewrite Heq in Hlp. destruct Ht as [|q t Hq Hlq Ht]; [simpl in Hlp; lia|].
  rewrite <- app_assoc, piece_len_agree in Hlp by (rewrite Hlq; by destruct q).
  rewrite Hlq in Hlp. rewrite <- !app_assoc in Heq.
  apply app_inj_1 in Heq as [-> Heq]; [|done]. rewrite !length_app.
  specialize (IH t Ht Hr Heq). lia.
Qed.

(** ** Identifiers *)

Lemma text_to_app (p r : list byte) : text_to (p ++ r) r = p.
Proof. unfold text_to. rewrite length_app, Nat.add_sub. apply take_app_length. Qed.

Definition ident_name (text : list byte) : option (list byte) :=
  snd (_cpp_interpret_identifier text).

Lemma interpret_plain text : forall fuel len buf, Forall (fun c => isc c "\" = false) text ->
  (length text < fuel)%nat ->
  snd (interpret_identifier_loop fuel len text buf) = Some (buf ++ text).
Proof.
  induction text as [|c text IH]; intros [|fuel] len buf Hc Hf; simpl in Hf; try lia.
  - cbn. by rewrite app_nil_r.
  - apply Forall_cons_1 in Hc as [Hc Ht]. cbn [interpret_identifier_loop]. rewrite Hc. cbn [negb].
    rewrite IH by (done || lia). by rewrite <- app_assoc.
Qed.

Lemma idnum_not_backslash c : ISIDNUM c = true -> isc c "\" = false.
Proof.
  intros H. destruct (isc c "\") eqn:E; [|done]. apply Z.eqb_eq in E. by subst c.
Qed.

Lemma ident_name_plain text : forallb ISIDNUM text = true -> ident_name text = Some text.
Proof.
  intros H. unfold ident_name, _cpp_interpret_identifier. apply (interpret_plain text _ _ []); [|lia].
  apply List.Forall_forall. intros c Hc. rewrite forallb_forall in H. by apply idnum_not_backslash, H.
Qed.

Lemma hash_run base run : forall h, fold_left HT_HASHSTEP run (HT_HASHSTEP h (look base 0))
  = fold_left HT_HASHSTEP (look base 0 :: run) h.
Proof. done. Qed.

Lemma id_tail_app t1 t2 : id_tail o t1 -> id_tail o t2 -> id_tail o (t1 ++ t2).
Proof. induction 1; intros H2; [done|]. rewrite <- app_assoc. apply id_piece; auto. Qed.

Lemma lex_identifier_spec p r (starts_ucn : bool) s :
  (if starts_ucn then True else exists c, p = [c] /\ ISIDST c = true) ->
  exists h s' t r',
    snd (lex_identifier tab o st node (p ++ r) r starts_ucn s)
    = (option_map (fun n => mk_ident n (p ++ t) h) (ident_name (p ++ t)), s', r') /\
    r = t ++ r' /\ id_tail o t /\ piece_len o r' = 0%nat /\
    (forall x, h = Some x -> ident_name (p ++ t) = Some (p ++ t) /\ x = calc_hash (p ++ t)).
Proof.
  intros Hp.
  assert (forall s r1 t1, r = t1 ++ r1 -> id_tail o t1 -> exists s' t r',
    (l ←w ident_loop tab o st (S (length r1)) s r1 ;;
     let '(s, r) := l in
     let spelling := text_to (p ++ t1 ++ r1) r in
     name ←w _cpp_interpret_identifier spelling ;;
     mret (match name with Some n => Some (mk_ident n spelling None) | None => None end, s, r)).2
    = (option_map (fun n => mk_ident n (p ++ t) None) (ident_name (p ++ t)), s', r') /\
    r = t ++ r' /\ id_tail o t /\ piece_len o r' = 0%nat) as Hslow.
  { intros s1 r1 t1 -> Ht1. rewrite snd_W_bind.
    destruct (ident_loop_spec (S (length r1)) s1 r1 ltac:(lia)) as (s' & t & r' & -> & -> & Ht & Hr').
    exists s', (t1 ++ t), r'. rewrite snd_W_bind, !app_assoc, text_to_app, <- !app_assoc.
    split_and!; [|done| |done].
    - unfold ident_name. by destruct (snd (_cpp_interpret_identifier _)).
    - by apply id_tail_app. }
  unfold lex_identifier. destruct starts_ucn.
  - destruct (Hslow s r [] eq_refl (id_nil o)) as (s' & t & r' & Hl & Hr & Ht & Hr').
    exists None, s', t, r'. split; [exact Hl|]. by split_and!.
  - destruct Hp as (c & -> & Hc). destruct (idnum_run_spec r) as (Hr & Hrun & Hstop).
    cbn [app look nth]. destruct (idnum_run r) as [run r1]. cbn [fst snd] in *.
    destruct (forms_spec false (mk_scan (NORMALIZE_STATE_UPDATE_IDNUM (List.last run c) (sc_nst s))
      (sc_warn_dollars s)) r1) as [s1 Hf].
    destruct (ext_len o r1 =? 0)%nat eqn:E; cbn [negb] in Hf.
    + apply Nat.eqb_eq in E. rewrite E, drop_0 in Hf.
      assert (forallb ISIDNUM (c :: run) = true) as Hall.
      { cbn [forallb]. unfold ISIDNUM at 1. by rewrite Hc. }
      exists (Some (identifier_hash (c :: r) run)), s1, run, r1.
      cbn [app]. rewrite ident_name_plain by done. split_and!; [|done| | |].
      * rewrite !snd_W_bind, Hf, !snd_W_bind. subst r. change (c :: run ++ r1) with ((c :: run) ++ r1).
        cbn -[text_to app]. by rewrite text_to_app.
      * rewrite <- (app_nil_r run). apply id_tail_run; [|constructor]. by simpl in Hall; bprop.
      * unfold piece_len. by rewrite Hstop.
      * intros x [= <-]. done.
    + apply Nat.eqb_neq in E.
      destruct (Hslow s1 (drop (ext_len o r1) r1) (run ++ take (ext_len o r1) r1))
        as (s' & t & r' & Hl & Hr0 & Ht & Hr').
      { by rewrite <- app_assoc, take_drop. }
      { apply id_tail_run; [done|]. rewrite <- (app_nil_r (take _ _)). apply id_tail_ext; [done..|constructor]. }
      exists None, s', t, r'. split; [|by split_and!].
      rewrite !snd_W_bind, Hf, !snd_W_bind. rewrite <- app_assoc, take_drop in Hl. subst r. exact Hl.
Qed.

(** ** Numbers *)

Lemma number_run_spec prev r : r = fst (number_run o prev r) ++ snd (number_run o prev r).
Proof.
  revert prev. induction r as [|c r IH]; intros prev; [done|]. cbn [number_run].
  destruct (is_number_char o prev c); cbn; [|done]. by f_equal.
Qed.

Lemma ext_not_number prev r : ext_len o r <> 0%nat -> is_number_char o prev (look r 0) = false.
Proof.
  intros H. destruct (ext_len_cases o r) as [?|[[_ H0]|[(_&H0&_)|(_&H0&_)]]]; [done|..];
    unfold isc in H0; apply Z.eqb_eq in H0; rewrite H0; unfold is_number_char, DIGIT_SEP, VALID_SIGN;
    cbn; done.
Qed.

(** The kept part of a run is the tail of a number; a tail of a number that
    goes further starts with the whole run, and a dollar or UCN follows. *)
Lemma number_run_tail r : forall prev, num_tail o prev (drop_separators o (fst (number_run o prev r))).
Proof.
  induction r as [|c r IH]; intros prev; [constructor|]. cbn [number_run].
  destruct (is_number_char o prev c) eqn:E; [|constructor]. cbn [fst drop_separators].
  specialize (IH c). destruct (drop_separators o (fst (number_run o c r))) as [|d k] eqn:Ek.
  - destruct (DIGIT_SEP o c) eqn:Es; [constructor|]. constructor; [done..|constructor].
  - destruct (DIGIT_SEP o c) eqn:Es; [|by apply num_char]. apply num_sep; [done| |done].
    destruct r as [|d' r]; [done|]. cbn [number_run] in Ek.
    destruct (is_number_char o c d') eqn:Ed; [|done]. cbn [fst drop_separators] in Ek.
    repeat case_match; congruence.
Qed.

Lemma num_tail_run prev t' : num_tail o prev t' -> forall x r, t' ++ x = r ->
  let run := fst (number_run o prev r) in let kept := drop_separators o run in
  (length t' <= length kept)%nat \/
  (kept = run /\ exists p t, p <> [] /\ ext_len o p = length p /\ t' = run ++ p ++ t /\
                           num_tail o (List.last p 0) t).
Proof.
  induction 1 as [prev|prev c t Hc Hs Ht IH|prev c d t Hc Hd Ht IH|prev p t Hp Hl Ht IH];
    intros x r <-; cbn zeta.
  - left. simpl. lia.
  - cbn [app number_run]. rewrite Hc. cbn [fst drop_separators]. rewrite Hs.
    destruct (IH x _ eq_refl) as [H|[H (p & u & Hp & Hl & Heq & Hu)]].
    + left. destruct (drop_separators o _); simpl in *; lia.
    + right. rewrite H. split; [by destruct (fst _)|].
      exists p, u. split_and!; try done. by rewrite Heq at 1.
  - assert (is_number_char o prev c = true) as Hc'.
    { unfold is_number_char. by rewrite Hc, !orb_true_r. }
    change ((c :: d :: t) ++ x) with (c :: ((d :: t) ++ x)). cbn [number_run]. rewrite Hc'.
    cbn [fst drop_separators].
    destruct (IH x _ eq_refl) as [H|[H (p & u & Hp & Hl & Heq & Hu)]].
    + left. destruct (drop_separators o _); simpl in *; lia.
    + right. rewrite H.
      destruct (fst (number_run o c ((d :: t) ++ x))) as [|e run] eqn:Er.
      { cbn [app number_run] in Er. by rewrite Hd in Er. }
      split; [done|]. exists p, u. split_and!; try done. by rewrite Heq.
  - right. assert (ext_len o ((p ++ t) ++ x) = length p) as He.
    { rewrite <- app_assoc, ext_len_agree; [done|]. rewrite Hl. by destruct p. }
    assert (fst (number_run o prev ((p ++ t) ++ x)) = []) as ->.
    { destruct ((p ++ t) ++ x) as [|c r] eqn:Er; [done|]. cbn [number_run].
      pose proof (ext_not_number prev (c :: r) ltac:(rewrite He; by destruct p)) as Hn.
      cbn in Hn. by rewrite Hn. }
    split; [done|]. by exists p, t.
Qed.

Lemma num_tail_then_ext prev k p t : num_tail o prev k -> p <> [] -> ext_len o p = length p ->
  num_tail o (List.last p 0) t -> num_tail o prev (k ++ p ++ t).
Proof.
  intros Hk Hp Hl Ht. induction Hk; cbn [app] in *.
  - by apply num_ext.
  - by apply num_char.
  - by apply num_sep.
  - rewrite <- app_assoc. apply num_ext; auto.
Qed.

Lemma ext_unique p x q y : p <> [] -> q <> [] -> ext_len o p = length p -> ext_len o q = length q ->
  p ++ x = q ++ y -> p = q /\ x = y.
Proof.
  intros Hp Hq Hlp Hlq Heq. apply app_inj_1; [|done].
  rewrite <- Hlp, <- Hlq, <- (ext_len_agree o p x), <- (ext_len_agree o q y), Heq; [done|..];
    rewrite ?Hlp, ?Hlq; (by destruct p) || (by destruct q).
Qed.

Lemma drop_separators_prefix run : exists k, run = drop_separators o run ++ k.
Proof.
  induction run as [|c run [k IH]]; [by exists []|]. cbn [drop_separators].
  destruct (drop_separators o run) as [|d kept] eqn:E.
  - destruct (DIGIT_SEP o c); [by exists (c :: run)|by exists run].
  - exists k. rewrite IH at 1. done.
Qed.

Lemma number_loop_spec fuel : forall prev s r, (length r < fuel)%nat -> exists s' t r',
  snd (number_loop tab o st fuel prev s r) = (s', r') /\ r = t ++ r' /\ num_tail o prev t /\
  (forall t' x, num_tail o prev t' -> t' ++ x = r -> (length t' <= length t)%nat).
Proof.
  induction fuel as [|fuel IH]; intros prev s r Hf; [lia|]. cbn [number_loop].
  pose proof (number_run_spec prev r) as Hr. pose proof (number_run_tail r prev) as Hk.
  pose proof (fun t' Ht' x => num_tail_run prev t' Ht' x r) as Hmax.
  destruct (number_run o prev r) as [run rest] eqn:Er. cbn [fst snd] in *. cbn zeta in *.
  destruct (drop_separators_prefix run) as [seps Hseps].
  set (kept := drop_separators o run) in *.
  assert (r = kept ++ drop (length kept) r) as Hsplit.
  { rewrite Hr, Hseps, <- app_assoc. by rewrite drop_app_length. }
  rewrite snd_W_bind. set (r1 := drop (length kept) r) in *.
  destruct (forms_spec false (update_idnums run s) r1) as [s1 ->].
  destruct (ext_len o r1 =? 0)%nat eqn:E; cbn [negb].
  - apply Nat.eqb_eq in E. eexists _, kept, r1. split_and!; try done.
    intros t' x Ht' Hx. destruct (Hmax t' Ht' x Hx) as [H|[H (p & u & Hp & Hl & -> & Hu)]]; [done|].
    exfalso. rewrite <- H, Hsplit, <- !app_assoc in Hx. apply app_inv_head in Hx.
    assert (length p <> 0)%nat by (by destruct p).
    rewrite <- Hx, ext_len_agree in E; lia.
  - apply Nat.eqb_neq in E. pose proof (ext_len_length o r1) as Hl1.
    assert (length r = length kept + length r1)%nat as Hlen by (rewrite Hsplit at 1; by rewrite length_app).
    destruct (IH (List.last (take (ext_len o r1) r1) 0) s1 (drop (ext_len o r1) r1))
      as (s' & t & r' & Hl & Hr' & Ht & Hm).
    { rewrite length_drop. lia. }
    assert (text_to r1 (drop (ext_len o r1) r1) = take (ext_len o r1) r1) as ->.
    { rewrite <- (take_drop (ext_len o r1) r1) at 1. apply text_to_app. }
    assert (take (ext_len o r1) r1 <> []) as Hne.
    { intros H0. apply (f_equal length) in H0. rewrite length_take in H0. simpl in H0. lia. }
    assert (ext_len o (take (ext_len o r1) r1) = length (take (ext_len o r1) r1)) as Hle.
    { rewrite ext_len_take, length_take. lia. }
    exists s', (kept ++ take (ext_len o r1) r1 ++ t), r'. split_and!; [done| | |].
    + rewrite Hsplit at 1. rewrite <- !app_assoc, <- Hr'. by rewrite take_drop.
    + by apply num_tail_then_ext.
    + intros t' x Ht' Hx. destruct (Hmax t' Ht' x Hx) as [H|[H (p & u & Hp & Hlp & -> & Hu)]].
      { rewrite length_app. lia. }
      rewrite <- H, Hsplit, <- !app_assoc in Hx. apply app_inv_head in Hx.
      rewrite <- (take_drop (ext_len o r1) r1) in Hx.
      apply ext_unique in Hx as [-> Hx]; [|done..]. rewrite <- H, !length_app.
      specialize (Hm u x Hu Hx). lia.
Qed.
End Scan.

(** ** The grammar of preprocessing tokens *)

(** The body of a literal up to and with its closing quote [q]. *)
Inductive str_body (q : byte) : list byte -> Prop :=
  | sb_end : str_body q [q]
  | sb_escape c t : c <> 10 -> str_body q t -> str_body q (chr "\" :: c :: t)
  | sb_char c t : isc c "\" = false -> c <> q -> c <> 10 -> str_body q t -> str_body q (c :: t).

(** The prefixes and quotes of literals, with the type they make. *)
Definition literal_prefixes (o : cpp_options) : list (list byte * byte * cpp_ttype) :=
  [([], 34, CPP_STRING); ([], chr "'", CPP_CHAR);
   (bytes "L", 34, CPP_WSTRING); (bytes "L", chr "'", CPP_WCHAR)]
  ++ (if rliterals o || uliterals o then
        [(bytes "u", 34, CPP_STRING16); (bytes "u", chr "'", CPP_CHAR16);
         (bytes "U", 34, CPP_STRING32); (bytes "U", chr "'", CPP_CHAR32);
         (bytes "u8", 34, CPP_UTF8STRING)]
        ++ (if utf8_char_literals o then [(bytes "u8", chr "'", CPP_UTF8CHAR)] else [])
      else []).

(** The punctuators: spelling, type and whether it is a digraph. *)
Definition punctuators (o : cpp_options) : list (list byte * cpp_ttype * bool) :=
  map (fun ty => (TOKEN_NAME ty, ty, false))
    ([CPP_EQ; CPP_NOT; CPP_GREATER; CPP_LESS; CPP_PLUS; CPP_MINUS; CPP_MULT; CPP_DIV; CPP_MOD;
      CPP_AND; CPP_OR; CPP_XOR; CPP_RSHIFT; CPP_LSHIFT; CPP_COMPL; CPP_AND_AND; CPP_OR_OR; CPP_QUERY;
      CPP_COLON; CPP_COMMA; CPP_OPEN_PAREN; CPP_CLOSE_PAREN; CPP_EQ_EQ; CPP_NOT_EQ; CPP_GREATER_EQ;
      CPP_LESS_EQ; CPP_PLUS_EQ; CPP_MINUS_EQ; CPP_MULT_EQ; CPP_DIV_EQ; CPP_MOD_EQ; CPP_AND_EQ;
      CPP_OR_EQ; CPP_XOR_EQ; CPP_RSHIFT_EQ; CPP_LSHIFT_EQ; CPP_HASH; CPP_PASTE; CPP_OPEN_SQUARE;
      CPP_CLOSE_SQUARE; CPP_OPEN_BRACE; CPP_CLOSE_BRACE; CPP_SEMICOLON; CPP_ELLIPSIS; CPP_PLUS_PLUS;
      CPP_MINUS_MINUS; CPP_DEREF; CPP_DOT; CPP_ATSIGN]
     ++ (if cplusplus o then [CPP_SCOPE; CPP_DEREF_STAR; CPP_DOT_STAR] else []))
  ++ (if digraphs o then
        [(bytes "<:", CPP_OPEN_SQUARE, true); (bytes ":>", CPP_CLOSE_SQUARE, true);
         (bytes "<%", CPP_OPEN_BRACE, true); (bytes "%>", CPP_CLOSE_BRACE, true);
         (bytes "%:", CPP_HASH, true); (bytes "%:%:", CPP_PASTE, true)] else []).

Inductive pp_kind : Type :=
  | PPName | PPNumber | PPLiteral (ty : cpp_ttype) | PPPunct (ty : cpp_ttype) (digraph : bool).

Inductive pp_token (o : cpp_options) : pp_kind -> list byte -> Prop :=
  | pp_name c t : ISIDST c = true -> id_tail o t -> pp_token o PPName (c :: t)
  | pp_ext_name p t : p <> [] -> ext_len o p = length p -> id_tail o t -> pp_token o PPName (p ++ t)
  | pp_number c t : ISDIGIT c = true -> num_tail o c t -> pp_token o PPNumber (c :: t)
  | pp_dot_number c t : ISDIGIT c = true -> num_tail o (chr ".") (c :: t) ->
      pp_token o PPNumber (chr "." :: c :: t)
  | pp_literal pre q ty body : In (pre, q, ty) (literal_prefixes o) -> str_body q body ->
      pp_token o (PPLiteral ty) (pre ++ q :: body)
  | pp_userdef pre q ty body c t : In (pre, q, ty) (literal_prefixes o) -> str_body q body ->
      user_literals o = true -> ISIDST c = true -> forallb ISIDNUM t = true ->
      pp_token o (PPLiteral (cpp_userdef_string_add_type (cpp_userdef_char_add_type ty)))
        (pre ++ q :: body ++ c :: t)
  | pp_punct s ty dg : In (s, ty, dg) (punctuators o) -> pp_token o (PPPunct ty dg) s.

(** The exception of C++11: in "<::" not followed by a colon or ">" the first
    character stands alone. *)
Definition less_scope (o : cpp_options) (r : list byte) : bool :=
  digraphs o && cplusplus o && negb (c_lang_index (lang o) =? c_lang_index CLK_CXX98)
  && negb (c_lang_index (lang o) =? c_lang_index CLK_GNUCXX)
  && next_is r 0 "<" && next_is r 1 ":" && next_is r 2 ":" && negb (next_is r 3 ":")
  && negb (next_is r 3 ">").

(** ** Operators *)

Lemma next_is_at r i a : next_is r i a = true -> look r i = chr a.
Proof. intros H. by apply Z.eqb_eq in H. Qed.

Lemma take_looks n r : (n <= length r)%nat -> take n r = map (look r) (seq 0 n).
Proof.
  revert r. induction n as [|n IH]; intros [|c r] H; simpl in *; try done; [lia|].
  rewrite IH by lia. f_equal. rewrite <- seq_shift, map_map. done.
Qed.

(** Evaluate the tests of characters that are known. *)
Ltac known_chars :=
  repeat match goal with
  | |- context [isc (chr ?a) ?b] =>
      let v := eval vm_compute in (isc (chr a) b) in change (isc (chr a) b) with v
  end; cbv iota; cbn [andb orb negb].

Ltac operator_leaf :=
  rewrite ?drop_0; unfold lex_operator, next_is, look; cbn [nth]; known_chars;
  repeat match goal with H : cplusplus _ = true |- _ => rewrite ?H; clear H
                    | H : digraphs _ = true |- _ => rewrite ?H; clear H end; cbv iota; cbn [andb];
  repeat match goal with |- context [if ?b then _ else _] => destruct b eqn:? end;
  (eexists _, _, _; split; [reflexivity|simpl; lia]).

Lemma operator_longest o s ty dg x : In (s, ty, dg) (punctuators o) -> less_scope o (s ++ x) = false ->
  exists ty' dg' n, lex_operator o (look (s ++ x) 0) (drop 1 (s ++ x)) = Some (ty', dg', n) /\
                    (length s <= S n)%nat.
Proof.
  intros Hin Hx. unfold punctuators in Hin. apply in_app_or in Hin as [Hin|Hin].
  - apply in_map_iff in Hin as (ty0 & [= <- <- <-] & Hin). clear Hx.
    apply in_app_or in Hin as [Hin|Hin]; [|destruct (cplusplus o) eqn:Ecpp; [|done]];
      cbn [In] in Hin; repeat destruct Hin as [<-|Hin]; try done; cbn; operator_leaf.
  - destruct (digraphs o) eqn:Ed; [|done]. unfold less_scope in Hx. rewrite Ed in Hx.
    cbn [In] in Hin. repeat destruct Hin as [[= <- <- <-]|Hin]; [..|done]; cbn in *;
      try (clear Hx; operator_leaf).
    revert Hx. rewrite ?drop_0. unfold lex_operator, next_is, look. cbn [nth]. known_chars.
    change (c_lang_index CLK_CXX98) with 12. change (c_lang_index CLK_GNUCXX) with 11.
    rewrite !andb_true_r. intros ->. operator_leaf.
Qed.

Ltac find_in := cbn [In]; repeat first [left; reflexivity | right].

(** The text of an operator is a punctuator. *)
Lemma operator_sound o c r ty dg n : lex_operator o c r = Some (ty, dg, n) ->
  (n <= length r)%nat /\ In (c :: take n r, ty, dg) (punctuators o).
Proof.
  unfold lex_operator, punctuators, next_is. intros H.
  repeat match type of H with (if ?b then _ else _) = _ => destruct b eqn:? end; try done;
    injection H as <- <- <-; bprop;
    repeat match goal with E : isc _ _ = false |- _ => clear E end; unfold isc in *; bprop; subst c;
    repeat match goal with E : look r ?i = _ |- _ =>
      pose proof (isc_length r i _ (proj2 (Z.eqb_eq _ _) E) ltac:(done)); revert E end;
    (split; [lia|]); intros; rewrite take_looks by lia; cbn [map seq];
    repeat match goal with E : look r ?i = _ |- _ => rewrite E; clear E end;
    repeat match goal with E : _ = true |- _ => rewrite ?E; clear E end;
    apply in_or_app;
    first [left; match goal with |- In (_, ?t, false) _ =>
                   apply (List.in_map (fun ty => (TOKEN_NAME ty, ty, false)) _ t) end;
                 apply in_or_app; first [left; solve [find_in]|right; solve [find_in]]
          |right; solve [find_in]].
Qed.

(** ** Literals *)

Lemma str_body_unique q t t' x x' : isc q "\" = false -> str_body q t -> str_body q t' ->
  t ++ x = t' ++ x' -> t = t'.
Proof.
  intros Hq Ht. revert t'. induction Ht as [|c t Hc Ht IH|c t Hb Hne Hn Ht IH]; intros t' Ht' Heq;
    destruct Ht' as [|c' t' Hc' Ht'|c' t' Hb' Hne' Hn' Ht']; simplify_eq/=; try done.
  - by do 2 f_equal; apply IH.
  - by f_equal; apply IH.
Qed.

Section Strings.
Context (o : cpp_options) (st : lex_flags) (Hang : angled_headers st = false).

(** The loop of lex_string reads the body if it is closed on the line, the
    rest of the line otherwise. *)
Lemma string_body_spec q (Hq : isc q "\" = false) (Hq10 : q <> 10) : forall n r saw, (length r <= n)%nat ->
  let '(closed, saw', r') := string_body st q saw r in
  match closed with
  | Some r1 => r1 = r' /\ exists t, r = t ++ r' /\ str_body q t
  | None => (exists t, r = t ++ r' /\ ~ In 10 t) /\ (r' = [] \/ look r' 0 = 10) /\
            forall t x, str_body q t -> t ++ x <> r
  end.
Proof.
  induction n as [|n IH]; intros r saw Hn; (destruct r as [|c r];
    [cbn; split_and!; [exists []; split; [done|by intros []]|by left|by intros ? ? []]|]); simpl in Hn; [lia|].
  cbn [string_body]. rewrite Hang, andb_true_r.
  destruct (isc c "\" && negb (look r 0 =? 10)) eqn:Eb.
  - bprop. destruct r as [|d r]; [done|]. change (look (d :: r) 0) with d in *. simpl in Hn.
    specialize (IH r saw ltac:(lia)). unfold isc in *. bprop. subst c.
    destruct (string_body st q saw r) as [[[r1|] saw'] r'].
    + destruct IH as [-> (t & -> & Ht)]. split; [done|]. exists (chr "\" :: d :: t).
      split; [done|]. by constructor.
    + destruct IH as [(t & -> & Ht) [Hr Hno]]. split_and!; [|done|].
      * exists (chr "\" :: d :: t). split; [done|]. simpl. intros [?|[?|?]]; done.
      * intros u x Hu Heq. destruct Hu; simplify_eq/=; try done. by eapply Hno.
  - destruct (Z.eqb_spec c q) as [->|Hcq].
    { split; [done|]. exists [q]. split; [done|constructor]. }
    destruct (Z.eqb_spec c 10) as [->|Hc10].
    { split_and!; [exists []; split; [done|by intros []]|by right|]. intros t x Ht Heq. destruct Ht; simplify_eq/=. }
    assert (isc c "\" = false \/ (isc c "\" = true /\ look r 0 = 10)) as Hb.
    { destruct (isc c "\"); [right|by left]. cbn in Eb. bprop. done. }
    specialize (IH r (saw || (c =? 0)) ltac:(lia)).
    destruct (string_body st q (saw || (c =? 0)) r) as [[[r1|] saw'] r'] eqn:Es.
    + destruct IH as [-> (t & -> & Ht)]. split; [done|]. exists (c :: t). split; [done|].
      destruct Hb as [Hb|[Hb Hl]]; [by apply sb_char|]. exfalso.
      unfold look in Hl. destruct Ht; simpl in Hl; [congruence|done|congruence].
    + destruct IH as [(t & -> & Ht) [Hr Hno]]. split_and!; [|done|].
      * exists (c :: t). split; [done|]. simpl. intros [?|?]; [congruence|done].
      * intros u x Hu Heq. destruct Hu as [|d u Hd Hu|d u Hd Hdq Hdn Hu]; simplify_eq/=.
        -- destruct Hb as [Hb|[_ Hl]]; [by vm_compute in Hb|]. cbn in Hl. rewrite <- H0 in Hl. done.
        -- by eapply Hno.
Qed.
End Strings.
