(* ===== verification/LexSpec.v ===== *)
(** * What the lexer promises

    The theorems about the dispatch of lex.c, on the grammar of LexGrammar.v:
    a token is the longest text of the grammar at its place (maximal munch), it
    is spelled as it was read, and its spelling fits the length cpp_token_len
    gives. *)

From Stdlib Require Import ZArith Lia Bool String Ascii.
From stdpp Require Import base tactics list numbers.
From S2P Require Import Prelude Reader CppNum NumLit Stream Utf StrLit Symtab CleanLine Lex LexGrammar.

Local Open Scope string_scope.
Local Open Scope list_scope.
Local Open Scope Z_scope.

(** The token of a text of the grammar. *)
Definition token_of (node : list byte -> lex_node) (flags : Z) (k : pp_kind) (s : list byte)
  : option cpp_token :=
  match k with
  | PPName =>
      n ← ident_name s;
      let named := flag (ln_flags (node n)) NODE_OPERATOR in
      Some (mk_token (if named then ln_directive_index (node n) else CPP_NAME)
              (if named then Z.lor flags NAMED_OP else flags) n s 0 false)
  | PPNumber => Some (mk_token CPP_NUMBER flags s [] 0 false)
  | PPLiteral ty => Some (mk_token ty flags s [] 0 false)
  | PPPunct ty dg => Some (mk_token ty (if dg then Z.lor flags DIGRAPH else flags) s [] 0 false)
  end.

Section Munch.
Context (tab : ucn_table) (o : cpp_options) (st : lex_flags) (node : list byte -> lex_node).
Context (Hang : angled_headers st = false).

(** [s] is not empty, [r] follows it, and no longer text at the head of
    [base] is in the grammar, except where a macro keeps its name from being
    read as the suffix of a literal. *)
Definition longest_text (base s r : list byte) : Prop :=
  base = s ++ r /\ s <> [] /\
  forall k s' y, pp_token o k s' -> base = s' ++ y ->
    (forall ty, k = PPLiteral ty -> user_literals o = true ->
                is_macro_not_literal_suffix node r = false) ->
    (length s' <= length s)%nat.

(** What CPP_OTHER stands for: one character, or a literal left open. *)
Definition stray (s : list byte) : Prop :=
  length s = 1%nat \/ exists pre q ty y, In (pre, q, ty) (literal_prefixes o) /\ s = pre ++ q :: y.

(** [t] is the token whose text is [s]: a token of the grammar, or else a
    stray character or a literal without its closing quote. *)
Definition text_of_token (flags : Z) (s : list byte) (t : cpp_token) : Prop :=
  (exists k, pp_token o k s /\ token_of node flags k s = Some t) \/
  (t = mk_token CPP_OTHER flags s [] 0 false /\ (forall k, ~ pp_token o k s) /\ stray s).

(** [t] is the token of the longest text at the head of [base]. *)
Definition longest_token (flags : Z) (base : list byte) (t : cpp_token) (r : list byte) : Prop :=
  exists s, longest_text base s r /\ text_of_token flags s t.

(** The characters a punctuator can start with. *)
Lemma punct_head s ty dg : In (s, ty, dg) (punctuators o) ->
  s <> [] /\ ISIDNUM (look s 0) = false /\ isc (look s 0) "'" = false /\ (look s 0 =? 34) = false /\
  isc (look s 0) "$" = false /\ isc (look s 0) "\" = false /\ is_nvspace (look s 0) = false /\
  (look s 0 =? 10) = false.
Proof.
  assert (forallb (fun e => negb (Nat.eqb (length (fst (fst e))) 0)
    && negb (ISIDNUM (look (fst (fst e)) 0)) && negb (isc (look (fst (fst e)) 0) "'")
    && negb (look (fst (fst e)) 0 =? 34) && negb (isc (look (fst (fst e)) 0) "$")
    && negb (isc (look (fst (fst e)) 0) "\") && negb (is_nvspace (look (fst (fst e)) 0))
    && negb (look (fst (fst e)) 0 =? 10)) (punctuators o) = true) as H.
  { unfold punctuators. by destruct (cplusplus o), (digraphs o). }
  rewrite forallb_forall in H. intros Hin. specialize (H _ Hin). cbn [fst] in H. bprop.
  split_and!; try done; [by destruct s|apply Z.eqb_neq; done..].
Qed.

Lemma prefix_head pre q ty : In (pre, q, ty) (literal_prefixes o) ->
  isc q "\" = false /\ q <> 10 /\ (q = 34 \/ q = chr "'") /\
  (pre = [] \/ pre = bytes "L" \/ pre = bytes "U" \/ pre = bytes "u" \/ pre = bytes "u8").
Proof.
  unfold literal_prefixes. intros H. apply in_app_or in H as [H|H].
  - cbn [In] in H. repeat destruct H as [[= <- <- <-]|H]; try done; split_and!; try done; tauto.
  - destruct (rliterals o || uliterals o); [|done]. apply in_app_or in H as [H|H].
    + cbn [In] in H. repeat destruct H as [[= <- <- <-]|H]; try done; split_and!; try done; tauto.
    + destruct (utf8_char_literals o); [|done]. destruct H as [[= <- <- <-]|[]].
      split_and!; try done; tauto.
Qed.

(** The first character of a text decides its kind, up to the prefixes of
    literals and the dot. *)
Definition kind_head (k : pp_kind) (s : list byte) : Prop :=
  match k with
  | PPName => ISIDST (look s 0) = true \/ isc (look s 0) "$" = true \/ isc (look s 0) "\" = true
  | PPNumber => ISDIGIT (look s 0) = true \/ (isc (look s 0) "." = true /\ ISDIGIT (look s 1) = true)
  | PPLiteral _ => isc (look s 0) "'" = true \/ look s 0 = 34 \/
      exists pre q ty y, pre <> [] /\ In (pre, q, ty) (literal_prefixes o) /\ s = pre ++ q :: y
  | PPPunct ty dg => In (s, ty, dg) (punctuators o)
  end.

Lemma pp_head k s : pp_token o k s -> kind_head k s.
Proof.
  destruct 1 as [c t Hc Ht|p t Hp Hl Ht|c t Hc Ht|c t Hc Ht|pre q ty body Hin Hb
                |pre q ty body c t Hin Hb Hu Hc Ht|s ty dg Hin]; cbn [kind_head].
  - by left.
  - right. assert (length p <> 0)%nat as Hn by (by destruct p). rewrite look_app_l by lia.
    destruct (ext_len_cases o p) as [?|[[_ H0]|[(_&H0&_)|(_&H0&_)]]]; [lia|auto..].
  - by left.
  - by right.
  - destruct pre as [|b pre]; [|right; right; by exists (b :: pre), q, ty, body].
    apply prefix_head in Hin as (_ & _ & [->| ->] & _); [by right; left|by left].
  - destruct pre as [|b pre]; [|right; right; by exists (b :: pre), q, ty, (body ++ c :: t)].
    apply prefix_head in Hin as (_ & _ & [->| ->] & _); [by right; left|by left].
  - done.
Qed.

Lemma punct_dot s ty dg : In (s, ty, dg) (punctuators o) -> look s 0 = chr "." ->
  s = [chr "."] \/ look s 1 = chr "." \/ look s 1 = chr "*".
Proof using o.
  assert (forallb (fun e => let s := fst (fst e) in negb (isc (look s 0) ".") || bytes_eqb s [chr "."]
    || isc (look s 1) "." || isc (look s 1) "*") (punctuators o) = true) as H.
  { unfold punctuators. by destruct (cplusplus o), (digraphs o). }
  rewrite forallb_forall in H. intros Hin Hs. specialize (H _ Hin). cbn [fst] in H. cbn zeta in H.
  unfold isc in H. rewrite Hs in H. cbn [negb orb] in H. change (chr "." =? chr ".") with true in H.
  cbn [negb orb] in H. rewrite !orb_true_iff, !Z.eqb_eq in H. unfold bytes_eqb in H.
  rewrite bool_decide_eq_true in H. destruct H as [[H|H]|H]; [by left|by right; left|by right; right].
Qed.

Lemma digit_not_name c : ISDIGIT c = true ->
  ISIDST c = false /\ isc c "$" = false /\ isc c "\" = false /\ isc c "." = false /\
  isc c "'" = false /\ c <> 34 /\ ISIDNUM c = true.
Proof.
  unfold ISIDNUM, ISIDST, ISDIGIT, isc. intros H. rewrite H, orb_true_r. bprop.
  change (chr "0") with 48 in *. change (chr "9") with 57 in *.
  change (chr "a") with 97. change (chr "z") with 122. change (chr "A") with 65. change (chr "Z") with 90.
  change (chr "_") with 95. change (chr "$") with 36. change (chr "\") with 92. change (chr ".") with 46.
  change (chr "'") with 39. split_and!; try lia.
Qed.

(** A prefix of a literal starts with one of three letters. *)
Lemma prefix_letter pre q ty y s : pre <> [] -> In (pre, q, ty) (literal_prefixes o) -> s = pre ++ q :: y ->
  isc (look s 0) "L" = true \/ isc (look s 0) "U" = true \/ isc (look s 0) "u" = true.
Proof. intros Hp Hin ->. apply prefix_head in Hin as (_&_&_&[->|[->|[->|[->| ->]]]]); [done|auto..]. Qed.

Lemma letter_name c : isc c "L" = true \/ isc c "U" = true \/ isc c "u" = true -> ISIDST c = true.
Proof. intros [H|[H|H]]; apply Z.eqb_eq in H; by subst c. Qed.

(** What can be at the head of a text whose first character is not one of
    an identifier. *)
Lemma kind_head_other k s : kind_head k s -> ISIDST (look s 0) = false -> isc (look s 0) "$" = false ->
  isc (look s 0) "\" = false ->
  match k with
  | PPName => False
  | PPLiteral _ => isc (look s 0) "'" = true \/ look s 0 = 34
  | _ => kind_head k s end.
Proof.
  destruct k; cbn [kind_head]; intros H H1 H2 H3; [|done| |done].
  - by destruct H as [?|[?|?]]; congruence.
  - destruct H as [H|[H|(pre & q & ty' & y & Hp & Hin & Hs)]]; [tauto..|].
    pose proof (letter_name _ (prefix_letter pre q ty' y s Hp Hin Hs)). congruence.
Qed.

Lemma lex_number_munch flags c r x t r' x' :
  ISDIGIT c = true \/ (isc c "." = true /\ ISDIGIT (look r 0) = true) ->
  snd (lex_number_token tab o st flags (c :: r) r x) = (LexToken t r', x') ->
  longest_token flags (c :: r) t r'.
Proof.
  intros Hc H. unfold lex_number_token, lex_number in H. rewrite !snd_W_bind in H.
  change (look (c :: r) 0) with c in H.
  destruct (number_loop_spec tab o st (S (length r)) c (mk_scan INITIAL_NORMALIZE_STATE (lx_warn_dollars x)) r
    ltac:(lia)) as (s1 & u & r1 & Hl & -> & Hu & Hmax).
  rewrite Hl in H. cbn [snd mret W_ret] in H. rewrite !snd_W_bind in H. cbn [snd mret W_ret] in H.
  change (c :: u ++ r1) with ((c :: u) ++ r1) in H. rewrite text_to_app in H. injection H as <- <- <-.
  exists (c :: u). split; [split; [done|split; [done|]]|left; exists PPNumber; split; [|done]]; cycle 1.
  - destruct Hc as [Hc|[Hc Hd]]; [by constructor|]. apply Z.eqb_eq in Hc. subst c.
    destruct u as [|d u].
    + exfalso. destruct r1 as [|d r1]; [done|]. change (look ([] ++ d :: r1) 0) with d in Hd.
      apply digit_not_name in Hd as (_&_&_&_&Hq&_&Hd).
      assert (1 <= 0)%nat; [|lia]. apply (Hmax [d] r1); [|done].
      apply num_char; [by unfold is_number_char; rewrite Hd| |constructor].
      unfold DIGIT_SEP. unfold isc in Hq. by rewrite Hq.
    + by apply pp_dot_number.
  - intros k s' y Hk Heq _. pose proof (pp_head k s' Hk) as Hh.
    destruct s' as [|c' s']; [simpl; lia|]. injection Heq as <- Heq.
    cbn [length]. apply le_n_S.
    assert (ISIDST c = false /\ isc c "$" = false /\ isc c "\" = false /\ isc c "'" = false /\ c <> 34)
      as (H1 & H2 & H3 & H4 & H5).
    { destruct Hc as [Hc|[Hc _]]; [apply digit_not_name in Hc; tauto|]. apply Z.eqb_eq in Hc. by subst c. }
    apply kind_head_other in Hh; [|done..]. change (look (c :: s') 0) with c in Hh.
    destruct k as [| |ty|ty dg]; [done| |destruct Hh; congruence|].
    + apply (Hmax s' y); [|done]. inversion Hk; subst; try done.
      all: match goal with H : ISDIGIT (chr ".") = true |- _ => done | _ => done end.
    + cbn [kind_head] in Hh. destruct Hc as [Hc|[Hc Hd]].
      * apply punct_head in Hh as (_ & Hh & _). change (look (c :: s') 0) with c in Hh.
        apply digit_not_name in Hc as (_&_&_&_&_&_&Hc). congruence.
      * apply Z.eqb_eq in Hc. subst c. destruct s' as [|d s']; [simpl; lia|]. rewrite Heq in Hd.
        change (look ((d :: s') ++ y) 0) with (look (chr "." :: d :: s') 1) in Hd.
        by apply punct_dot in Hh as [Hs|[Hs|Hs]]; [|rewrite Hs in Hd..|].
Qed.

Lemma pp_name_tail s : pp_token o PPName s -> id_tail o s.
Proof.
  inversion 1 as [c t Hc Ht|p t Hp Hl Ht| | | | |]; subst.
  - apply (id_piece o [c] t); [done| |done]. unfold piece_len, ISIDNUM.
    change (look [c] 0) with c. by rewrite Hc.
  - apply id_piece; [done| |done]. unfold piece_len.
    assert (length p <> 0)%nat by (by destruct p).
    by rewrite (ext_not_idnum o) by lia.
Qed.

(** The characters an identifier can start with. *)
Lemma name_head c : ISIDST c = true \/ isc c "$" = true \/ isc c "\" = true ->
  ISDIGIT c = false /\ isc c "." = false /\ isc c "'" = false /\ c <> 34 /\
  forall s ty dg, In (s, ty, dg) (punctuators o) -> look s 0 <> c.
Proof.
  intros H. assert (forall s ty dg, In (s, ty, dg) (punctuators o) -> look s 0 <> c) as Hp.
  { intros s ty dg Hin Hs. apply punct_head in Hin as (_ & Hn & _ & _ & H1 & H2 & _). subst c.
    unfold ISIDNUM in Hn. bprop. destruct H as [?|[?|?]]; congruence. }
  assert (ISDIGIT c = false) as Hd.
  { destruct (ISDIGIT c) eqn:E; [|done]. apply digit_not_name in E as (E1&E2&E3&_).
    destruct H as [?|[?|?]]; congruence. }
  split_and!; [done|..|done].
  - destruct (isc c ".") eqn:E; [|done]. apply Z.eqb_eq in E. subst c. by destruct H as [?|[?|?]].
  - destruct (isc c "'") eqn:E; [|done]. apply Z.eqb_eq in E. subst c. by destruct H as [?|[?|?]].
  - intros ->. by destruct H as [?|[?|?]].
Qed.

(** The text of an identifier is the longest one, whether its name can be
    formed or not. *)
Lemma lex_name_munch flags p r (starts_ucn : bool) s x :
  (if starts_ucn then p <> [] /\ ext_len o p = length p else exists c, p = [c] /\ ISIDST c = true) ->
  (forall pre q ty y, pre <> [] -> In (pre, q, ty) (literal_prefixes o) -> p ++ r <> pre ++ q :: y) ->
  exists u r' x', longest_text (p ++ r) u r' /\ pp_token o PPName u /\
    snd (lex_name tab o st node flags (p ++ r) r starts_ucn s x)
    = match token_of node flags PPName u with
      | Some t => (LexToken t r', x')
      | None => (LexWild, x)
      end.
Proof.
  intros Hp Hlit. unfold lex_name. rewrite snd_W_bind.
  destruct (lex_identifier_spec tab o st node p r starts_ucn s) as (h & s1 & u & r1 & Hl & -> & Hu & Hr1 & _);
    [by destruct starts_ucn|].
  assert (pp_token o PPName (p ++ u)) as Hpp.
  { destruct starts_ucn; [by destruct Hp; apply pp_ext_name|]. destruct Hp as (c & -> & Hc). by apply pp_name. }
  assert (p ++ u <> []) as Hne.
  { destruct starts_ucn; [by destruct Hp as [Hp _]; destruct p|]. by destruct Hp as (c & -> & _). }
  exists (p ++ u), r1, (mk_lexer (sc_warn_dollars s1) (lx_warned_comments x)).
  split; [split; [by rewrite <- app_assoc|split; [done|]]|split; [done|]]; cycle 1.
  - rewrite Hl. unfold token_of. destruct (ident_name (p ++ u)) as [n|]; [|done].
    cbn [option_map]. by rewrite snd_W_bind.
  - intros k s' y Hk Heq _. pose proof (pp_head _ _ Hpp) as Hh. cbn [kind_head] in Hh.
    pose proof (pp_head _ _ Hk) as Hh'.
    destruct s' as [|c s']; [simpl; lia|]. destruct (p ++ u) as [|c' w] eqn:Ew; [done|].
    rewrite app_assoc, Ew in Heq. injection Heq as <- Heq.
    change (look (c' :: w) 0) with c' in Hh. apply name_head in Hh as (H1 & H2 & H3 & H4 & H5).
    destruct k as [| |ty|ty dg]; cbn [kind_head] in Hh'; try change (look (c' :: s') 0) with c' in Hh'.
    + apply pp_name_tail in Hk, Hpp. apply (id_tail_longest o (c' :: w) r1 (c' :: s') y); try done.
      simpl. by f_equal.
    + destruct Hh' as [?|[? _]]; congruence.
    + destruct Hh' as [?|[?|(pre & q & ty' & z & Hpre & Hin & Hs)]]; [congruence..|].
      exfalso. apply (Hlit pre q ty' (z ++ y) Hpre Hin). rewrite app_assoc, Ew.
      change (c' :: w) with ([c'] ++ w). rewrite <- app_assoc, Heq.
      change ([c'] ++ s' ++ y) with ((c' :: s') ++ y). rewrite Hs, <- app_assoc. done.
    + by destruct (H5 _ _ _ Hh').
Qed.

(** ** Literals *)

Lemma prefix_computed pre q ty r : In (pre, q, ty) (literal_prefixes o) ->
  string_prefix (pre ++ q :: r) = (q, r) /\ string_type (pre ++ q :: r) q = (q, ty).
Proof.
  unfold literal_prefixes. intros H. apply in_app_or in H as [H|H].
  - cbn [In] in H. by repeat destruct H as [[= <- <- <-]|H].
  - destruct (rliterals o || uliterals o); [|done]. apply in_app_or in H as [H|H].
    + cbn [In] in H. by repeat destruct H as [[= <- <- <-]|H].
    + destruct (utf8_char_literals o); [|done]. by destruct H as [[= <- <- <-]|[]].
Qed.

Lemma prefix_unique pre q ty r pre' q' ty' r' : In (pre, q, ty) (literal_prefixes o) ->
  In (pre', q', ty') (literal_prefixes o) -> pre ++ q :: r = pre' ++ q' :: r' ->
  pre = pre' /\ q = q' /\ ty = ty' /\ r = r'.
Proof.
  intros H H' Heq. pose proof (prefix_computed pre q ty r H) as [Hp Ht].
  pose proof (prefix_computed pre' q' ty' r' H') as [Hp' Ht'].
  rewrite Heq in Hp, Ht. rewrite Hp in Hp'. injection Hp' as -> ->. rewrite Ht in Ht'. injection Ht' as ->.
  split_and!; try done. by apply app_inv_tail in Heq.
Qed.

Lemma run_longest t x s r : forallb ISIDNUM t = true -> ISIDNUM (look r 0) = false ->
  t ++ x = s ++ r -> (length t <= length s)%nat.
Proof.
  revert s. induction t as [|c t IH]; intros s Ht Hr Heq; [simpl; lia|].
  destruct s as [|d s]; simpl in *; bprop.
  - subst r. change (look (c :: t ++ x) 0) with c in Hr. congruence.
  - injection Heq as -> Heq. specialize (IH s ltac:(done) Hr Heq). lia.
Qed.

Lemma literal_suffix_spec type r : exists sfx r' type',
  snd (literal_suffix o st node type r) = (type', r') /\ r = sfx ++ r' /\
  ((sfx = [] /\ type' = type /\
    (user_literals o = false \/ is_macro_not_literal_suffix node r = true \/ ISIDST (look r 0) = false)) \/
   (exists c t, sfx = c :: t /\ user_literals o = true /\ ISIDST c = true /\ forallb ISIDNUM t = true /\
      ISIDNUM (look r' 0) = false /\
      type' = cpp_userdef_string_add_type (cpp_userdef_char_add_type type))).
Proof.
  unfold literal_suffix. destruct (user_literals o) eqn:Eu.
  - destruct (is_macro_not_literal_suffix node r) eqn:Em.
    + rewrite snd_W_bind. exists [], r, type. split_and!; try done. left. auto.
    + destruct (ISIDST (look r 0)) eqn:Ei.
      * destruct r as [|c r]; [done|]. change (look (c :: r) 0) with c in Ei.
        change (drop 1 (c :: r)) with r. destruct (idnum_run_spec r) as (Hr & Hn & Hs).
        destruct (idnum_run r) as [run rest]. cbn [fst snd] in *. exists (c :: run), rest. eexists.
        split; [done|]. split; [by rewrite Hr|]. right. by exists c, run.
      * exists [], r, type. split_and!; try done. left. auto.
  - rewrite snd_W_bind. exists [], r, type. split_and!; try done. left. auto.
Qed.

Lemma prefix_tail pre q ty : In (pre, q, ty) (literal_prefixes o) -> id_tail o pre.
Proof.
  intros H. apply prefix_head in H as (_&_&_&[->|[->|[->|[->| ->]]]]); try constructor.
  all: rewrite <- (app_nil_r (bytes _)); apply id_tail_run; [done|constructor].
Qed.

Lemma quote_stops q r : q = 34 \/ q = chr "'" -> piece_len o (q :: r) = 0%nat.
Proof.
  intros [-> | ->]; unfold piece_len, ext_len; cbn; by rewrite andb_false_r.
Qed.

(** What can be read at a literal: its prefix as a name, or the literal. *)
Lemma literal_rivals pre q ty r k s y : In (pre, q, ty) (literal_prefixes o) -> pp_token o k s ->
  pre ++ q :: r = s ++ y ->
  (length s <= length pre)%nat \/
  exists ty' body sfx, k = PPLiteral ty' /\ str_body q body /\
    (sfx = [] \/ exists c t, sfx = c :: t /\ user_literals o = true /\ ISIDST c = true /\
                            forallb ISIDNUM t = true) /\
    s = pre ++ q :: body ++ sfx /\ r = body ++ sfx ++ y.
Proof.
  intros Hin Hk Heq. pose proof (prefix_head _ _ _ Hin) as (Hq & Hq10 & Hqq & Hpre).
  pose proof (pp_head _ _ Hk) as Hh.
  assert (forall c, c = look (pre ++ q :: r) 0 -> (pre = [] /\ (c = 34 \/ c = chr "'")) \/ ISIDST c = true)
    as Hc.
  { intros c ->. destruct Hpre as [->|[->|[->|[->| ->]]]]; [by left|by right..]. }
  destruct s as [|c s]; [left; simpl; lia|]. specialize (Hc c ltac:(by rewrite Heq)).
  destruct k as [| |ty'|ty' dg].
  - left. destruct Hc as [[-> Hc]|Hc].
    + cbn [kind_head] in Hh. change (look (c :: s) 0) with c in Hh.
      apply name_head in Hh as (_ & _ & H1 & H2 & _). destruct Hc as [->| ->]; done.
    + apply (id_tail_longest o pre (q :: r) (c :: s) y); [by apply pp_name_tail|by eapply prefix_tail|
        by apply quote_stops|done].
  - cbn [kind_head] in Hh. change (look (c :: s) 0) with c in Hh. exfalso.
    destruct Hc as [[-> [->| ->]]|Hc]; [by destruct Hh as [?|[? _]]..|].
    destruct (name_head c) as (H1 & H2 & _); [by left|]. destruct Hh as [?|[? _]]; congruence.
  - right. exists ty'. inversion Hk; subst; repeat match goal with H : _ = c :: s |- _ => rewrite <- H in * end.
    + match goal with H : In (?p, ?q', ?t) _ |- _ => rename H into Hin' end. rewrite <- app_assoc in Heq.
      cbn [app] in Heq. destruct (prefix_unique _ _ _ _ _ _ _ _ Hin Hin' Heq) as (<- & <- & <- & ->).
      exists body, []. rewrite app_nil_r. split_and!; auto.
    + match goal with H : In (?p, ?q', ?t) _ |- _ => rename H into Hin' end. rewrite <- app_assoc in Heq.
      cbn [app] in Heq. destruct (prefix_unique _ _ _ _ _ _ _ _ Hin Hin' Heq) as (<- & <- & <- & ->).
      eexists body, (_ :: _). rewrite <- app_assoc. split_and!; eauto 10.
  - exfalso. cbn [kind_head] in Hh. apply punct_head in Hh as (_ & H1 & H2 & H3 & _).
    change (look (c :: s) 0) with c in *. destruct Hc as [[-> [->| ->]]|Hc]; [done..|].
    unfold ISIDNUM in H1. by rewrite Hc in H1.
Qed.

Lemma lex_string_munch flags pre q ty r ty' r' : In (pre, q, ty) (literal_prefixes o) ->
  snd (lex_string o st node (pre ++ q :: r)) = (ty', r') ->
  longest_token flags (pre ++ q :: r) (mk_token ty' flags (text_to (pre ++ q :: r) r') [] 0 false) r'.
Proof.
  intros Hin H. pose proof (prefix_head _ _ _ Hin) as (Hq & Hq10 & Hqq & Hpre).
  destruct (prefix_computed pre q ty r Hin) as [Hp Ht]. unfold lex_string in H. rewrite Hp, Ht in H.
  pose proof (string_body_spec st Hang q Hq Hq10 (length r) r false (le_n _)) as Hb.
  destruct (string_body st q false r) as [[closed saw] r1]. cbv zeta in H.
  assert (isc q ">" = false) as Hgt by (by destruct Hqq as [-> | ->]).
  rewrite Hgt, andb_false_r in H. rewrite !snd_W_bind in H.
  set (type := if match closed with Some _ => true | None => false end then ty else CPP_OTHER) in H.
  destruct (literal_suffix_spec type r1) as (sfx & r2 & type' & Hl & -> & Hsfx). rewrite Hl in H.
  injection H as <- <-.
  assert (exists body, r = body ++ sfx ++ r2 /\
    (match closed with Some _ => str_body q body | None => True end)) as (body & Hr & Hbody).
  { destruct closed as [r3|].
    - destruct Hb as [_ (t & -> & Hb)]. by exists t.
    - destruct Hb as [(t & -> & Hb) _]. by exists t. }
  replace (pre ++ q :: r) with ((pre ++ q :: body ++ sfx) ++ r2)
    by (rewrite Hr, <- !app_assoc; cbn [app]; by rewrite <- app_assoc).
  rewrite text_to_app. exists (pre ++ q :: body ++ sfx).
  split; [split; [done|split; [by destruct pre|]]|]; cycle 1.
  - destruct closed as [r3|]; subst type; cbn iota in *.
    + left. destruct Hsfx as [(-> & -> & _)|(c & t & -> & Hu & Hc & Htn & _ & ->)].
      * exists (PPLiteral ty). rewrite app_nil_r. split; [by apply pp_literal|done].
      * eexists (PPLiteral _). split; [by apply pp_userdef|done].
    + right. split; [by destruct Hsfx as [(_ & -> & _)|(c & t & _ & _ & _ & _ & _ & ->)]|].
      split; [|right; by exists pre, q, ty, (body ++ sfx)]. intros k Hk. destruct (literal_rivals pre q ty (body ++ sfx) k _ [] Hin Hk (eq_sym (app_nil_r _)))
        as [Hle|(ty2 & body2 & sfx2 & _ & Hb2 & _ & _ & Heq)].
      * rewrite !length_app in Hle. simpl in Hle. lia.
      * destruct Hb as (_ & _ & Hno). apply (Hno body2 (sfx2 ++ r2) Hb2).
        rewrite app_nil_r in Heq. by rewrite app_assoc, <- Heq, <- app_assoc.
  - intros k s' y Hk Heq Hm. rewrite <- app_assoc in Heq. cbn [app] in Heq. rewrite <- app_assoc in Heq.
    apply (literal_rivals pre q ty _ k s' y Hin Hk) in Heq as
      [Hle|(ty2 & body2 & sfx2 & -> & Hb2 & Hs2 & -> & Heq)]; [rewrite length_app; lia|].
    rewrite <- Hr in Heq. destruct closed as [r3|].
    + rewrite Hr in Heq. pose proof (str_body_unique q body body2 _ _ Hq Hbody Hb2 Heq) as <-.
      apply app_inv_head in Heq. rewrite !length_app. cbn [length]. rewrite !length_app.
      destruct Hs2 as [->|(c & t & -> & Hu & Hc & Htn)]; [simpl; lia|].
      destruct Hsfx as [(-> & _ & Hno)|(c' & t' & -> & _ & Hc' & Htn' & Hstop & _)].
      * exfalso. rewrite (app_nil_l r2) in Hno. rewrite (app_nil_l r2) in Heq. rewrite Heq in Hno, Hm. specialize (Hm ty2 eq_refl Hu).
        destruct Hno as [?|[?|Hno]]; [congruence..|]. change (look ((c :: t) ++ y) 0) with c in Hno. congruence.
      * injection Heq as -> Heq. pose proof (run_longest t y t' r2 Htn Hstop (eq_sym Heq)). simpl. lia.
    + exfalso. destruct Hb as (_ & _ & Hno). apply (Hno body2 (sfx2 ++ y) Hb2). by rewrite Heq.
Qed.

(** ** Operators and stray characters *)

Lemma name_ext s y : pp_token o PPName s -> ISIDST (look s 0) = false -> ext_len o (s ++ y) <> 0%nat.
Proof.
  inversion 1 as [c t Hc Ht|p t Hp Hl Ht| | | | |]; subst; intros H0.
  - change (look (c :: t) 0) with c in H0. congruence.
  - assert (length p <> 0)%nat by (by destruct p). rewrite <- app_assoc, ext_len_agree; lia.
Qed.

Lemma lex_punctuator_munch flags c r t r' : less_scope o (c :: r) = false ->
  ISIDST c = false -> ISDIGIT c = false -> isc c "'" = false -> c <> 34 ->
  (isc c "." = true -> ISDIGIT (look r 0) = false) -> ext_len o (c :: r) = 0%nat ->
  lex_punctuator o flags c (c :: r) r = LexToken t r' -> longest_token flags (c :: r) t r'.
Proof.
  intros Hls Hid Hdig Hq Hqq Hdot Hext H.
  assert (forall k s' y, pp_token o k s' -> c :: r = s' ++ y -> s' <> [] ->
    exists ty dg, In (s', ty, dg) (punctuators o)) as Hrivals.
  { intros k s' y Hk Heq Hne. pose proof (pp_head _ _ Hk) as Hh. destruct s' as [|c' s']; [done|].
    injection Heq as <- Heq. change (look (c :: s') 0) with c in Hh.
    destruct k as [| |ty|ty dg].
    - exfalso. apply (name_ext _ y Hk); [done|]. cbn [app]. by rewrite <- Heq.
    - exfalso. cbn [kind_head] in Hh. change (look (c :: s') 0) with c in Hh.
      destruct Hh as [?|[Hc Hd]]; [congruence|]. specialize (Hdot Hc).
      destruct s' as [|d s']; [done|]. subst r. change (look ((d :: s') ++ y) 0) with d in Hdot.
      change (look (c :: d :: s') 1) with d in Hd. congruence.
    - exfalso. cbn [kind_head] in Hh. change (look (c :: s') 0) with c in Hh.
      destruct Hh as [Hh|[Hh|(pre & q & ty' & z & Hp & Hin & Hs)]]; [by rewrite Hh in Hq|done|].
      pose proof (letter_name _ (prefix_letter pre q ty' z _ Hp Hin Hs)) as Hl.
      change (look (c :: s') 0) with c in Hl. congruence.
    - by exists ty, dg. }
  unfold lex_punctuator in H. destruct (lex_operator o c r) as [[[ty dg] n]|] eqn:Eop.
  - apply operator_sound in Eop as Hs. destruct Hs as [Hn Hin]. unfold simple_token in H.
    assert (c :: r = (c :: take n r) ++ drop n r) as Hsplit by (cbn [app]; by rewrite take_drop).
    rewrite Hsplit, text_to_app in H. injection H as <- <-.
    exists (c :: take n r). split; [split; [done|split; [done|]]|]; cycle 1.
    + left. exists (PPPunct ty dg). split; [by apply pp_punct|done].
    + intros k s' y Hk Heq _. destruct s' as [|c' s']; [simpl; lia|].
      destruct (Hrivals _ _ _ Hk Heq) as (ty' & dg' & Hin'); [done|].
      destruct (operator_longest o _ _ _ y Hin') as (ty2 & dg2 & n2 & Hop & Hle); [by rewrite <- Heq|].
      rewrite <- Heq in Hop. change (look (c :: r) 0) with c in Hop. change (drop 1 (c :: r)) with r in Hop.
      rewrite Eop in Hop. injection Hop as <- <- <-. cbn [length] in *. rewrite length_take. lia.
  - injection H as <- <-. unfold simple_token. change (c :: r) with ([c] ++ r) at 2.
    rewrite text_to_app.
    assert (forall k s' y, pp_token o k s' -> c :: r = s' ++ y -> s' = []) as Hnone.
    { intros k s' y Hk Heq. destruct s' as [|c' s']; [done|]. exfalso.
    destruct (Hrivals _ _ _ Hk Heq) as (ty' & dg' & Hin'); [done|].
    destruct (operator_longest o _ _ _ y Hin') as (ty2 & dg2 & n2 & Hop & Hle); [by rewrite <- Heq|].
    rewrite <- Heq in Hop. change (look (c :: r) 0) with c in Hop. change (drop 1 (c :: r)) with r in Hop.
    congruence. }
    exists [c]. split; [split; [done|split; [done|]]|right; split; [done|split; [|by left]]].
    + intros k s' y Hk Heq _. rewrite (Hnone k s' y Hk Heq). simpl. lia.
    + intros k Hk. by specialize (Hnone k [c] r Hk eq_refl).
Qed.

(** ** The dispatch *)

Lemma look_cons r c : look r 0 = c -> c <> 10 -> r = c :: drop 1 r.
Proof. destruct r as [|d r]; [done|]. by intros <- _. Qed.

Lemma literal_prefix_complete c r pre q ty y : pre <> [] -> In (pre, q, ty) (literal_prefixes o) ->
  c :: r = pre ++ q :: y ->
  isc c "L" || isc c "u" || isc c "U" || isc c "R" = true /\ literal_prefix o c r = true.
Proof.
  intros Hp Hin Heq. unfold literal_prefixes in Hin. apply in_app_or in Hin as [Hin|Hin].
  - cbn [In] in Hin. repeat destruct Hin as [[= <- <- <-]|Hin]; try done; by injection Heq as -> ->.
  - unfold literal_prefix. destruct (rliterals o || uliterals o) eqn:E; [|done].
    apply in_app_or in Hin as [Hin|Hin];
      [cbn [In] in Hin; repeat destruct Hin as [[= <- <- <-]|Hin]; [..|done]|
       destruct (utf8_char_literals o); [|done]; destruct Hin as [[= <- <- <-]|[]]];
      injection Heq as -> ->; (split; [done|]); unfold next_is, look; cbn -[nth];
      apply orb_true_iff in E as [-> | ->]; rewrite ?orb_true_r; done.
Qed.

Lemma literal_prefix_sound c r : isc c "L" || isc c "u" || isc c "U" || isc c "R" = true ->
  literal_prefix o c r = true -> isc (fst (string_prefix (c :: r))) "R" = false ->
  exists pre q ty r1, c :: r = pre ++ q :: r1 /\ In (pre, q, ty) (literal_prefixes o).
Proof.
  intros Hc Hl Hraw. unfold literal_prefix, next_is in Hl. apply andb_true_iff in Hl as [Ho Hl].
  assert (forall q n, look r n = q -> (q = 34 \/ q = chr "'") -> q <> 10) as Hne by (by intros q n _ [-> | ->]).
  assert (forall pre, c :: r = pre ++ look r (length pre - 1) :: drop (length pre) r ->
    (rliterals o || uliterals o = true \/ pre = bytes "L") ->
    ((look r (length pre - 1) = 34 /\ (pre = bytes "L" \/ pre = bytes "U" \/ pre = bytes "u" \/ pre = bytes "u8")) \/
     (look r (length pre - 1) = chr "'" /\ (pre = bytes "L" \/ pre = bytes "U" \/ pre = bytes "u" \/
        (pre = bytes "u8" /\ utf8_char_literals o = true)))) ->
    exists pre q ty r1, c :: r = pre ++ q :: r1 /\ In (pre, q, ty) (literal_prefixes o)) as Hgoal.
  { intros pre Heq Hopt Hq. unfold literal_prefixes.
    destruct Hq as [[Hq Hpre]|[Hq Hpre]]; rewrite Hq in Heq;
      repeat destruct Hpre as [Hpre|Hpre]; try (destruct Hpre as [Hpre Hu8]; rewrite Hu8); subst pre;
      try (destruct Hopt as [-> |?]; [|done]);
      (eexists _, _, _, _; split; [exact Heq|]); apply in_or_app;
      solve [left; find_in|right; find_in|right; apply in_or_app; left; find_in|right; apply in_or_app; right; find_in]. }
  assert (isc c "L" = true \/ isc c "u" = true \/ isc c "U" = true \/ isc c "R" = true) as Hc'.
  { rewrite !orb_true_iff in Hc. tauto. }
  destruct Hc' as [E|[E|[E|E]]]; apply Z.eqb_eq in E; subst c.
  - change (isc (look r 0) "R" = false) in Hraw. rewrite Hraw in Hl.
    change (isc (chr "L") "R") with false in Hl. change (isc (chr "L") "u") with false in Hl.
    cbn [negb] in Hl. rewrite !andb_true_r, !andb_false_r, !andb_false_l, !orb_false_r in Hl.
    apply (Hgoal (bytes "L")); [|by right|].
    + apply orb_true_iff in Hl as [Hl|Hl]; apply Z.eqb_eq in Hl; cbn [bytes length app Nat.sub]; rewrite Hl;
        f_equal; by apply look_cons.
    + apply orb_true_iff in Hl as [Hl|Hl]; apply Z.eqb_eq in Hl; auto 10.
  - change (rliterals o || uliterals o = true) in Ho.
    change (isc (fst (if isc (look r 0) "8" then (look r 1, drop 2 r) else (look r 0, drop 1 r))) "R" = false) in Hraw.
    change (isc (chr "u") "R") with false in Hl. change (isc (chr "u") "u") with true in Hl.
    cbn [negb] in Hl. rewrite !andb_true_r in Hl.
    destruct (isc (look r 0) "8") eqn:E8; cbn [fst] in Hraw; rewrite Hraw in Hl.
    + apply Z.eqb_eq in E8. rewrite E8 in Hl. cbn [andb orb] in Hl.
      change (isc (chr "8") "'") with false in Hl. change (chr "8" =? 34) with false in Hl.
      change (isc (chr "8") "R") with false in Hl. cbn [andb orb] in Hl. rewrite orb_false_r in Hl.
      assert (look r 1 = 34 \/ (look r 1 = chr "'" /\ utf8_char_literals o = true)) as Hl'.
      { apply orb_true_iff in Hl as [Hl|Hl]; [left; by apply Z.eqb_eq|right].
        apply andb_true_iff in Hl as [Hl ->]. split; [by apply Z.eqb_eq|done]. }
      apply look_cons in E8; [|done]. apply (Hgoal (bytes "u8")); [|by left|].
      * change (chr "u" :: r = chr "u" :: chr "8" :: look r 1 :: drop 2 r). f_equal.
        rewrite E8 at 1. f_equal. change (drop 2 r) with (drop (1 + 1) r). rewrite <- (drop_drop r 1 1).
        change (look r 1) with (look r (1 + 0)). rewrite <- (look_drop r 1 0).
        apply look_cons; [done|]. rewrite look_drop. change (1 + 0)%nat with 1%nat.
        by destruct Hl' as [->|[-> _]].
      * change (length (bytes "u8") - 1)%nat with 1%nat. tauto.
    + cbn [andb orb] in Hl. rewrite ?orb_false_r in Hl.
      apply (Hgoal (bytes "u")); [|by left|].
      * apply orb_true_iff in Hl as [Hl|Hl]; apply Z.eqb_eq in Hl; cbn [bytes length app Nat.sub]; rewrite Hl;
          f_equal; by apply look_cons.
      * apply orb_true_iff in Hl as [Hl|Hl]; apply Z.eqb_eq in Hl; auto 10.
  - change (rliterals o || uliterals o = true) in Ho.
    change (isc (look r 0) "R" = false) in Hraw. rewrite Hraw in Hl.
    change (isc (chr "U") "R") with false in Hl. change (isc (chr "U") "u") with false in Hl.
    cbn [negb] in Hl. rewrite !andb_true_r, !andb_false_r, !andb_false_l, !orb_false_r in Hl.
    apply (Hgoal (bytes "U")); [|by left|].
    + apply orb_true_iff in Hl as [Hl|Hl]; apply Z.eqb_eq in Hl; cbn [bytes length app Nat.sub]; rewrite Hl;
        f_equal; by apply look_cons.
    + apply orb_true_iff in Hl as [Hl|Hl]; apply Z.eqb_eq in Hl; auto 10.
  - done.
Qed.

(** The prefixes of raw strings. *)
Definition raw_prefixes : list (list byte) := [bytes "R"; bytes "LR"; bytes "UR"; bytes "uR"; bytes "u8R"].

Lemma literal_prefix_raw c r : isc c "L" || isc c "u" || isc c "U" || isc c "R" = true ->
  literal_prefix o c r = true -> isc (fst (string_prefix (c :: r))) "R" = true ->
  exists p z, In p raw_prefixes /\ c :: r = p ++ 34 :: z.
Proof.
  intros Hc Hl Hraw. unfold literal_prefix, next_is in Hl. apply andb_true_iff in Hl as [_ Hl].
  assert (forall n, look r n = 34 -> drop n r = 34 :: drop (S n) r) as Hq.
  { intros n Hn. replace (S n) with (n + 1)%nat by lia. rewrite <- drop_drop. apply look_cons; [|done].
    by rewrite look_drop, Nat.add_0_r. }
  assert (forall n a, look r n = chr a -> chr a <> 10 -> drop n r = chr a :: drop (S n) r) as Hr.
  { intros n d Hn Hd. replace (S n) with (n + 1)%nat by lia. rewrite <- drop_drop. apply look_cons; [|done].
    by rewrite look_drop, Nat.add_0_r. }
  assert (isc c "L" = true \/ isc c "u" = true \/ isc c "U" = true \/ isc c "R" = true) as Hc'.
  { rewrite !orb_true_iff in Hc. tauto. }
  destruct Hc' as [E|[E|[E|E]]]; apply Z.eqb_eq in E; subst c.
  - exists (bytes "LR"), (drop 2 r). split; [by find_in|].
    change (isc (look r 0) "R" = true) in Hraw. apply Z.eqb_eq in Hraw.
    rewrite Hraw in Hl. change (((look r 1 =? 34) && rliterals o) || false = true) in Hl.
    rewrite orb_false_r in Hl. apply andb_true_iff in Hl as [Hl _]. apply Z.eqb_eq in Hl.
    change (chr "L" :: drop 0 r = chr "L" :: chr "R" :: 34 :: drop 2 r).
    by rewrite (Hr 0%nat _ Hraw), (Hq 1%nat Hl).
  - change (isc (fst (if isc (look r 0) "8" then (look r 1, drop 2 r) else (look r 0, drop 1 r))) "R" = true) in Hraw.
    destruct (isc (look r 0) "8") eqn:E8; cbn [fst] in Hraw; apply Z.eqb_eq in Hraw.
    + exists (bytes "u8R"), (drop 3 r). split; [by find_in|]. apply Z.eqb_eq in E8.
      rewrite Hraw, E8 in Hl. change ((look r 2 =? 34) && rliterals o = true) in Hl.
      apply andb_true_iff in Hl as [Hl _]. apply Z.eqb_eq in Hl.
      change (chr "u" :: drop 0 r = chr "u" :: chr "8" :: chr "R" :: 34 :: drop 3 r).
      by rewrite (Hr 0%nat _ E8), (Hr 1%nat _ Hraw), (Hq 2%nat Hl).
    + exists (bytes "uR"), (drop 2 r). split; [by find_in|].
      rewrite Hraw in Hl. change (((look r 1 =? 34) && rliterals o) || false = true) in Hl.
      rewrite orb_false_r in Hl. apply andb_true_iff in Hl as [Hl _]. apply Z.eqb_eq in Hl.
      change (chr "u" :: drop 0 r = chr "u" :: chr "R" :: 34 :: drop 2 r).
      by rewrite (Hr 0%nat _ Hraw), (Hq 1%nat Hl).
  - exists (bytes "UR"), (drop 2 r). split; [by find_in|].
    change (isc (look r 0) "R" = true) in Hraw. apply Z.eqb_eq in Hraw.
    rewrite Hraw in Hl. change (((look r 1 =? 34) && rliterals o) || false = true) in Hl.
    rewrite orb_false_r in Hl. apply andb_true_iff in Hl as [Hl _]. apply Z.eqb_eq in Hl.
    change (chr "U" :: drop 0 r = chr "U" :: chr "R" :: 34 :: drop 2 r).
    by rewrite (Hr 0%nat _ Hraw), (Hq 1%nat Hl).
  - exists (bytes "R"), (drop 1 r). split; [by find_in|].
    change (isc (chr "R") "R") with true in Hl. change (isc (chr "R") "u") with false in Hl.
    cbn [negb] in Hl. rewrite !andb_false_r, !andb_false_l, !orb_false_r, orb_false_l in Hl.
    apply Z.eqb_eq in Hl. change (chr "R" :: drop 0 r = chr "R" :: 34 :: drop 1 r). by rewrite (Hq 0%nat Hl).
Qed.

(** What the dispatch delivers, and for what text. *)
Definition lexed_right (flags : Z) (base : list byte) (l : lexed) : Prop :=
  match l with
  | LexToken t r => longest_token flags base t r
  | LexWild => exists s r, longest_text base s r /\ pp_token o PPName s /\ ident_name s = None
  | LexNewline => look base 0 = 10
  | LexWhite _ => is_nvspace (look base 0) = true
  | LexComment _ | LexOpenComment =>
      look base 0 = chr "/" /\ (look base 1 = chr "*" \/ look base 1 = chr "/")
  | LexRawString => exists p z, In p raw_prefixes /\ base = p ++ 34 :: z
  end.

Lemma lexed_name flags base l (x' : lexer) :
  (exists u r' (x1 x2 : lexer), longest_text base u r' /\ pp_token o PPName u /\
    (l, x') = match token_of node flags PPName u with
              | Some t => (LexToken t r', x1) | None => (LexWild, x2) end) ->
  lexed_right flags base l.
Proof.
  intros (u & r' & x1 & x2 & Hu & Hpp & Hl). destruct (token_of node flags PPName u) as [t|] eqn:Et;
    injection Hl as -> _.
  - exists u. split; [done|]. left. by exists PPName.
  - exists u, r'. split_and!; [done..|]. unfold token_of in Et. by destruct (ident_name u).
Qed.

Lemma lexed_string flags pre q ty r x : In (pre, q, ty) (literal_prefixes o) ->
  isc (fst (string_prefix (pre ++ q :: r))) "R" = false ->
  lexed_right flags (pre ++ q :: r)
    (fst (snd (lex_literal o st node flags (pre ++ q :: r) x))).
Proof.
  intros Hin HR. unfold lex_literal. rewrite HR, snd_W_bind.
  destruct (snd (lex_string _ _ _ _)) as [ty' r'] eqn:Els. cbn [fst snd mret W_ret].
  by apply (lex_string_munch flags pre q ty r ty' r' Hin).
Qed.

Lemma lexed_slash flags b x : less_scope o (chr "/" :: b) = false ->
  lexed_right flags (chr "/" :: b) (fst (snd (lex_slash o st flags (chr "/" :: b) b x))).
Proof.
  intros Hls. assert (forall l, l = lex_punctuator o flags (chr "/") (chr "/" :: b) b ->
    lexed_right flags (chr "/" :: b) l) as Hop.
  { intros l ->. unfold lex_punctuator. pose proof (lex_punctuator_munch flags (chr "/") b) as Hm.
    unfold lex_punctuator in Hm.
    destruct (lex_operator o (chr "/") b) as [[[ty dg] n]|]; apply Hm; try done;
      unfold ext_len; by rewrite andb_false_r. }
  unfold lex_slash. destruct (next_is b 0 "*") eqn:Est.
  { rewrite snd_W_bind. apply Z.eqb_eq in Est. cbn [fst snd mret W_ret].
    destruct (snd _); by split; [|left]. }
  assert (lex_operator o (chr "/") b
    = if next_is b 0 "=" then Some (CPP_DIV_EQ, false, 1%nat) else Some (CPP_DIV, false, 0%nat)) as Heq by done.
  destruct (next_is b 0 "/" && negb (traditional o)) eqn:Esl.
  - apply andb_true_iff in Esl as [Esl _]. apply Z.eqb_eq in Esl. rewrite snd_W_bind. cbn [fst snd mret W_ret].
    destruct (fst _); [by split; [|right]|]. apply Hop. unfold lex_punctuator. rewrite Heq.
    unfold next_is. by rewrite Esl.
  - apply Hop. unfold lex_punctuator. rewrite Heq. by destruct (next_is b 0 "=").
Qed.

Lemma lexed_quote flags c b x : isc c "'" || (c =? 34) = true ->
  lexed_right flags (c :: b) (fst (snd (lex_literal o st node flags (c :: b) x))).
Proof.
  intros Eq. assert (exists ty, In ([], c, ty) (literal_prefixes o)) as [ty Hin].
    { apply orb_true_iff in Eq as [Eq|Eq]; apply Z.eqb_eq in Eq; subst c;
        eexists; unfold literal_prefixes; apply in_or_app; left; find_in. }
    apply (lexed_string flags [] c ty b x Hin). destruct (prefix_computed [] c ty b Hin) as [-> _].
    apply orb_true_iff in Eq as [Eq|Eq]; apply Z.eqb_eq in Eq; by subst c.
Qed.

(** "$" and a backslash, where an identifier can start. *)
Lemma lexed_dollar_or_ucn flags c b x :
  (forall pre q ty y, pre <> [] -> In (pre, q, ty) (literal_prefixes o) -> c :: b <> pre ++ q :: y) ->
  (ext_len o (c :: b) = 0%nat -> lexed_right flags (c :: b) (lex_punctuator o flags c (c :: b) b)) ->
  lexed_right flags (c :: b) (fst (snd (
    f ←w forms_identifier_p tab o st true (mk_scan INITIAL_NORMALIZE_STATE (lx_warn_dollars x)) (c :: b) ;;
    let '(starts, s, r') := f in
    if starts : bool then lex_name tab o st node flags (c :: b) r' true s x
    else mret (lex_punctuator o flags c (c :: b) b,
               mk_lexer (sc_warn_dollars s) (lx_warned_comments x))))).
Proof.
  intros Hno Hop.
  rewrite snd_W_bind.
  destruct (forms_spec tab o st true (mk_scan INITIAL_NORMALIZE_STATE (lx_warn_dollars x)) (c :: b)) as [s' Hf].
  rewrite Hf. destruct (ext_len o (c :: b) =? 0)%nat eqn:Ee; cbn [negb].
  + apply Nat.eqb_eq in Ee. by apply Hop.
  + apply Nat.eqb_neq in Ee. pose proof (ext_len_length o (c :: b)) as Hl.
    assert (exists p r1, c :: b = p ++ r1 /\ p = take (ext_len o (c :: b)) (c :: b) /\
      r1 = drop (ext_len o (c :: b)) (c :: b)) as (p & r1 & Hs & Hp & Hr).
    { eexists _, _. by rewrite take_drop. }
    rewrite <- Hr. assert (p <> [] /\ ext_len o p = length p) as Hext'.
    { rewrite Hp, ext_len_take, length_take. split; [|lia].
      intros H0. apply (f_equal length) in H0. rewrite length_take in H0. simpl in *. lia. }
    rewrite Hs in Hno |- *.
    destruct (lex_name_munch flags p r1 true s' x) as (u & r' & x' & Hu & Hpp & Hln); [done..|]. rewrite Hln.
    apply (lexed_name flags _ _ (snd (match token_of node flags PPName u with
                      | Some t => (LexToken t r', x') | None => (LexWild, x) end))).
    exists u, r', x', x. split_and!; try done. by destruct (token_of _ _ _ _).
Qed.

Lemma lex_token_right flags base x : less_scope o base = false ->
  lexed_right flags base (fst (snd (lex_token tab o st node flags base x))).
Proof.
  intros Hls. unfold lex_token. destruct base as [|c b]; [done|].
  change (look (c :: b) 0) with c. change (drop 1 (c :: b)) with b.
  destruct (is_nvspace c) eqn:Ews; [by rewrite snd_W_bind|].
  destruct (Z.eqb_spec c 10) as [->|Hnl]; [done|].
  destruct (ISDIGIT c) eqn:Edig.
  { destruct (snd (lex_number_token _ _ _ _ _ _ _)) as [l x'] eqn:El. cbn [fst].
    pose proof El as El'. unfold lex_number_token in El'. rewrite snd_W_bind in El'.
    destruct (snd (lex_number _ _ _ _ _ _)) as [[text s'] r']. rewrite snd_W_bind in El'.
    injection El' as <- _. by eapply lex_number_munch; [left|]. }
  destruct ((isc c "L" || isc c "u" || isc c "U" || isc c "R") && literal_prefix o c b) eqn:Elit.
  { apply andb_true_iff in Elit as [Hc Hl].
    destruct (isc (fst (string_prefix (c :: b))) "R") eqn:Eraw.
    - unfold lex_literal. rewrite Eraw. by apply literal_prefix_raw.
    - destruct (literal_prefix_sound c b Hc Hl Eraw) as (pre & q & ty & r1 & Heq & Hin).
      rewrite Heq in *. by eapply lexed_string. }
  assert (forall pre q ty y, pre <> [] -> In (pre, q, ty) (literal_prefixes o) -> c :: b <> pre ++ q :: y) as Hno.
  { intros pre q ty y Hp Hin Heq. destruct (literal_prefix_complete c b pre q ty y Hp Hin Heq) as [H1 H2].
    by rewrite H1, H2 in Elit. }
  destruct (ISIDST c) eqn:Eid.
  { destruct (lex_name_munch flags [c] b false (mk_scan INITIAL_NORMALIZE_STATE (lx_warn_dollars x)) x)
      as (u & r' & x' & Hu & Hpp & Hl); [by exists c|done|]. cbn [app] in Hl. rewrite Hl.
    apply (lexed_name flags _ _ (snd (match token_of node flags PPName u with
                      | Some t => (LexToken t r', x') | None => (LexWild, x) end))).
    exists u, r', x', x. split_and!; try done. by destruct (token_of _ _ _ _). }
  destruct (isc c "'" || (c =? 34)) eqn:Eq.
  { by apply lexed_quote. }
  apply orb_false_iff in Eq as [Eq Eqq]. apply Z.eqb_neq in Eqq.
  assert (isc c "$" = false -> isc c "\" = false -> ext_len o (c :: b) = 0%nat) as Hext.
  { intros H1 H2. unfold ext_len. change (look (c :: b) 0) with c. by rewrite H1, H2, andb_false_r. }
  destruct (isc c "/") eqn:Eslash.
  { apply Z.eqb_eq in Eslash. subst c. by apply lexed_slash. }
  rewrite Hang, andb_false_r.
  destruct (isc c "." && ISDIGIT (look b 0)) eqn:Edot.
  { apply andb_true_iff in Edot as [Ed Ed'].
    destruct (snd (lex_number_token _ _ _ _ _ _ _)) as [l x'] eqn:El. cbn [fst].
    pose proof El as El'. unfold lex_number_token in El'. rewrite snd_W_bind in El'.
    destruct (snd (lex_number _ _ _ _ _ _)) as [[text s'] r']. rewrite snd_W_bind in El'.
    injection El' as <- _. by eapply lex_number_munch; [right|]. }
  assert (isc c "." = true -> ISDIGIT (look b 0) = false) as Hdot.
  { intros Hd. by rewrite Hd in Edot. }
  assert (ext_len o (c :: b) = 0%nat -> lexed_right flags (c :: b) (lex_punctuator o flags c (c :: b) b)) as Hop.
  { intros He. pose proof (lex_punctuator_munch flags c b) as Hm. unfold lex_punctuator in *.
    destruct (lex_operator o c b) as [[[ty dg] n]|]; by apply Hm. }
  destruct (isc c "$" || isc c "\") eqn:Edl.
  - by apply lexed_dollar_or_ucn.
  - apply orb_false_iff in Edl as [H1 H2]. apply Hop. auto.
Qed.
End Munch.

(** ** Spelling *)

(** The nodes as the initialization leaves them: only the named operators are
    marked as operators. *)
Definition operators_marked (node : list byte -> lex_node) : Prop :=
  forall name, flag (ln_flags (node name)) NODE_OPERATOR = true ->
    In (name, ln_directive_index (node name)) operator_array.

Lemma mark_named_operators_marked node flags :
  (forall name, flag (ln_flags (node name)) NODE_OPERATOR = false) ->
  operators_marked (mark_named_operators flags node).
Proof.
  intros Hn name. unfold mark_named_operators.
  destruct (find _ operator_array) as [[name' value]|] eqn:E; [|by rewrite Hn].
  intros _. apply find_some in E as [Hin Heq]. cbn [fst] in Heq. unfold bytes_eqb in Heq.
  apply bool_decide_eq_true in Heq as <-. done.
Qed.

Lemma operator_array_ok name ty : In (name, ty) operator_array ->
  TOKEN_SPELL ty = SPELL_OPERATOR /\ (length name <= 6)%nat /\ Forall (fun c => 0 <= c < 128) name.
Proof.
  cbn [In operator_array]. intros H. repeat destruct H as [[= <- <-]|H]; [..|done];
    (split_and!; [done|simpl; lia|repeat constructor; done]).
Qed.

Lemma literal_spell o pre q ty : In (pre, q, ty) (literal_prefixes o) ->
  TOKEN_SPELL ty = SPELL_LITERAL /\
  TOKEN_SPELL (cpp_userdef_string_add_type (cpp_userdef_char_add_type ty)) = SPELL_LITERAL.
Proof.
  unfold literal_prefixes. intros H. apply in_app_or in H as [H|H].
  - cbn [In] in H. by repeat destruct H as [[= <- <- <-]|H].
  - destruct (rliterals o || uliterals o); [|done]. apply in_app_or in H as [H|H].
    + cbn [In] in H. by repeat destruct H as [[= <- <- <-]|H].
    + destruct (utf8_char_literals o); [|done]. by destruct H as [[= <- <- <-]|[]].
Qed.

Lemma punct_spell o s ty dg : In (s, ty, dg) (punctuators o) ->
  TOKEN_SPELL ty = SPELL_OPERATOR /\ s = (if dg then cpp_digraph2name ty else TOKEN_NAME ty) /\
  (length s <= 6)%nat.
Proof.
  assert (forallb (fun '(s, ty, dg) => match TOKEN_SPELL ty with SPELL_OPERATOR => true | _ => false end
     && bytes_eqb s (if dg : bool then cpp_digraph2name ty else TOKEN_NAME ty) && (length s <=? 6)%nat)
     (punctuators o) = true) as H.
  { unfold punctuators. by destruct (cplusplus o), (digraphs o). }
  rewrite forallb_forall in H. intros Hin. specialize (H _ Hin). cbn beta iota in H.
  rewrite !andb_true_iff, Nat.leb_le in H. destruct H as [[H1 H2] H3].
  unfold bytes_eqb in H2. apply bool_decide_eq_true in H2. split_and!; [|done..]. by destruct (TOKEN_SPELL ty).
Qed.

(** Flags a token can have before it is lexed. *)
Definition plain_token_flags (flags : Z) : Prop :=
  flag flags DIGRAPH = false /\ flag flags NAMED_OP = false.

Lemma flag_lor a b f : flag (Z.lor a b) f = flag a f || flag b f.
Proof.
  unfold flag. rewrite Z.land_lor_distr_l.
  destruct (Z.eqb_spec (Z.land a f) 0) as [->|Ha]; [by rewrite Z.lor_0_l|].
  destruct (Z.eqb_spec (Z.lor (Z.land a f) (Z.land b f)) 0) as [E|E]; [|done].
  by apply Z.lor_eq_0_iff in E as [E _].
Qed.

Lemma token_of_spelling o node flags k s t : operators_marked node -> plain_token_flags flags ->
  pp_token o k s -> token_of node flags k s = Some t -> cpp_spell_token t true = Some s.
Proof.
  intros Hop [Hd Hn] Hk Ht. unfold cpp_spell_token. destruct k as [| |ty|ty dg].
  - unfold token_of in Ht. destruct (ident_name s) as [n|] eqn:En; [|done].
    cbn [mbind option_bind] in Ht. injection Ht as <-. cbn [t_type t_flags t_spelling].
    destruct (flag (ln_flags (node n)) NODE_OPERATOR) eqn:Eo; [|done].
    apply Hop, operator_array_ok in Eo as (-> & _). by rewrite !flag_lor, Hd, Hn.
  - by injection Ht as <-.
  - injection Ht as <-. cbn [t_type t_text].
    inversion Hk; subst; match goal with Hin : In _ (literal_prefixes o) |- _ => destruct (literal_spell _ _ _ _ Hin) as [E1 E2] end;
      by rewrite ?E1, ?E2.
  - injection Ht as <-. cbn [t_type t_flags]. inversion Hk; subst.
    match goal with Hin : In _ (punctuators o) |- _ => destruct (punct_spell _ _ _ _ Hin) as (-> & -> & _) end.
    destruct dg; [by rewrite flag_lor, Hd|by rewrite Hd, Hn].
Qed.

(** ** The grammar is unambiguous *)

Lemma punct_unique o s ty dg ty' dg' : In (s, ty, dg) (punctuators o) -> In (s, ty', dg') (punctuators o) ->
  ty = ty' /\ dg = dg'.
Proof.
  assert (forallb (fun '(s, ty, dg) => forallb (fun '(s', ty', dg') =>
     negb (bytes_eqb s s') || (ttype_eqb ty ty' && eqb dg dg')) (punctuators o)) (punctuators o) = true) as H.
  { unfold punctuators. destruct (cplusplus o), (digraphs o); vm_compute; done. }
  rewrite forallb_forall in H. intros Hin Hin'. specialize (H _ Hin). cbn beta iota in H.
  rewrite forallb_forall in H. specialize (H _ Hin'). cbn beta iota in H.
  unfold bytes_eqb in H. rewrite bool_decide_eq_true_2 in H by done. cbn [negb orb] in H. bprop.
  match goal with E : ttype_eqb _ _ = true |- _ => destruct (ttype_eqb_spec ty ty'); [|done] end.
  split; [done|]. by apply eqb_prop.
Qed.

(** A literal has one prefix, one body and one suffix. *)
Lemma literal_unique o ty ty' s : pp_token o (PPLiteral ty) s -> pp_token o (PPLiteral ty') s -> ty = ty'.
Proof.
  assert (forall pre q ty body x pre' q' ty' body' x', In (pre, q, ty) (literal_prefixes o) ->
    In (pre', q', ty') (literal_prefixes o) -> str_body q body -> str_body q' body' ->
    pre ++ q :: body ++ x = pre' ++ q' :: body' ++ x' -> ty = ty' /\ x = x') as H.
  { intros pre q ty0 body x pre' q' ty0' body' x' Hin Hin' Hb Hb' Heq.
    destruct (prefix_unique o _ _ _ _ _ _ _ _ Hin Hin' Heq) as (<- & <- & <- & Heq').
    pose proof (prefix_head o _ _ _ Hin) as (Hq & _).
    pose proof (str_body_unique q _ _ _ _ Hq Hb Hb' Heq') as <-. apply app_inv_head in Heq'. done. }
  intros H1 H2. inversion H1 as [| | | |pre q ty0 body Hin Hb|pre q ty0 body c t Hin Hb Hu Hc Ht|]; subst;
    inversion H2 as [| | | |pre' q' ty0' body' Hin' Hb' Heq|pre' q' ty0' body' c' t' Hin' Hb' Hu' Hc' Ht' Hty Heq|]; subst.
  - destruct (H _ _ _ body [] _ _ _ body' [] Hin Hin' Hb Hb') as [<- _]; [by rewrite !app_nil_r|done].
  - destruct (H _ _ _ body [] _ _ _ body' (c' :: t') Hin Hin' Hb Hb') as [_ ?]; [by rewrite app_nil_r|done].
  - destruct (H _ _ _ body (c :: t) _ _ _ body' [] Hin Hin' Hb Hb') as [_ ?]; [by rewrite app_nil_r|done].
  - destruct (H _ _ _ body (c :: t) _ _ _ body' (c' :: t') Hin Hin' Hb Hb') as [<- _]; done.
Qed.

Lemma pp_nonempty o k s : pp_token o k s -> s <> [].
Proof.
  destruct 1 as [| |? ? ? ?|? ? ? ?|pre| pre|s ty dg Hin]; try done.
  - by destruct p.
  - by destruct pre.
  - by destruct pre.
  - by apply punct_head in Hin as [? _].
Qed.

(** Kinds whose first characters exclude each other. *)
Lemma pp_kind_unique o k k' s : pp_token o k s -> pp_token o k' s -> k = k'.
Proof.
  intros H H'. pose proof (pp_nonempty _ _ _ H) as Hne.
  assert (forall ty k, pp_token o (PPLiteral ty) s -> pp_token o k s -> exists ty', k = PPLiteral ty') as Hlit.
  { intros ty k0 Hl Hk. inversion Hl as [| | | |pre q ty0 body Hin Hb|pre q ty0 body c t Hin Hb Hu Hc Ht|]; subst.
    - destruct (literal_rivals o pre q ty body k0 _ [] Hin Hk) as [Hle|(ty' & ? & ? & -> & _)];
        [by rewrite app_nil_r|rewrite length_app in Hle; simpl in Hle; lia|by exists ty'].
    - destruct (literal_rivals o pre q ty0 (body ++ c :: t) k0 _ [] Hin Hk) as [Hle|(ty' & ? & ? & -> & _)];
        [by rewrite app_nil_r|rewrite length_app in Hle; simpl in Hle; lia|by exists ty']. }
  assert (forall ty dg k, In (s, ty, dg) (punctuators o) -> pp_token o k s ->
     k = PPName \/ k = PPNumber -> False) as Hpun.
  { intros ty dg k0 Hin Hk Hor. pose proof (pp_head _ _ _ Hk) as Hh. destruct Hor as [-> | ->]; cbn [kind_head] in Hh.
    - by destruct (name_head o _ Hh) as (_&_&_&_&Hp); apply (Hp s ty dg).
    - destruct Hh as [Hh|[Hh Hh']].
      + apply punct_head in Hin as (_ & Hn & _). by apply digit_not_name in Hh as (_&_&_&_&_&_&Hh); congruence.
      + apply Z.eqb_eq in Hh. destruct (punct_dot o s ty dg Hin Hh) as [->|[E|E]]; [done|by rewrite E in Hh'..]. }
  assert (pp_token o PPName s -> pp_token o PPNumber s -> False) as Hnn.
  { intros H1 H2. apply pp_head in H1, H2. cbn [kind_head] in *.
    apply (name_head o) in H1 as (E1 & E2 & _). destruct H2 as [?|[? _]]; congruence. }
  destruct k as [| |ty|ty dg], k' as [| |ty'|ty' dg']; try done;
    try (by exfalso; eauto);
    try (destruct (Hlit _ _ H H'); done); try (destruct (Hlit _ _ H' H); done).
  all: repeat match goal with H : pp_token _ (PPPunct _ _) _ |- _ => inversion H; clear H; subst end;
    try (exfalso; eauto; fail).
  - by rewrite (literal_unique o ty ty' s).
  - edestruct (punct_unique o s ty dg ty' dg') as [-> ->]; done.
Qed.

(** ** The length of a spelling *)

Lemma spell_ident_length fuel : forall name sp, spell_ident_loop fuel name = Some sp ->
  (length sp <= 10 * fuel)%nat.
Proof.
  induction fuel as [|fuel IH]; intros [|c name] sp H; cbn [spell_ident_loop] in H; simplify_eq/=; try lia.
  destruct (128 <=? c).
  - destruct (utf8_to_ucn (c :: name)) as [[ucn n]|] eqn:Eu; [|done]. cbn [mbind option_bind] in H.
    destruct (spell_ident_loop fuel (drop n (c :: name))) as [rest|] eqn:Er; [|done].
    injection H as <-. apply IH in Er. unfold utf8_to_ucn in Eu. destruct (utf8_tail _ _ _); [|done].
    injection Eu as <- _. rewrite length_app. cbn [bytes app length map]. lia.
  - destruct (spell_ident_loop fuel name) as [rest|] eqn:Er; [|done]. cbn [mbind option_bind] in H.
    injection H as <-. apply IH in Er. simpl. lia.
Qed.

Lemma spell_ident_ascii name : Forall (fun c => 0 <= c < 128) name ->
  _cpp_spell_ident_ucns name = Some name.
Proof.
  unfold _cpp_spell_ident_ucns. induction 1 as [|c name Hc Hn IH]; [done|]. cbn [length spell_ident_loop].
  destruct (Z.leb_spec 128 c); [lia|]. by rewrite IH.
Qed.

Lemma token_of_len o node flags k s t sp : operators_marked node -> plain_token_flags flags ->
  pp_token o k s -> token_of node flags k s = Some t -> cpp_spell_token t false = Some sp ->
  Z.of_nat (length sp) <= cpp_token_len t.
Proof.
  intros Hop [Hd Hn] Hk Ht. unfold cpp_spell_token, cpp_token_len. destruct k as [| |ty|ty dg].
  - unfold token_of in Ht. destruct (ident_name s) as [n|] eqn:En; [|done].
    cbn [mbind option_bind] in Ht. injection Ht as <-. cbn [t_type t_flags t_spelling t_text].
    destruct (flag (ln_flags (node n)) NODE_OPERATOR) eqn:Eo.
    + apply Hop, operator_array_ok in Eo as (-> & Hl & Ha). rewrite !flag_lor, Hd, Hn. cbn [orb].
      change (flag NAMED_OP DIGRAPH) with false. change (flag NAMED_OP NAMED_OP) with true. cbn [orb].
      rewrite spell_ident_ascii by done. intros [= <-]. lia.
    + cbn. intros H. apply spell_ident_length in H. lia.
  - injection Ht as <-. cbn. by intros [= <-].
  - injection Ht as <-. cbn [t_type t_text].
    inversion Hk; subst; match goal with Hin : In _ (literal_prefixes o) |- _ => destruct (literal_spell _ _ _ _ Hin) as [E1 E2] end;
      rewrite ?E1, ?E2; by intros [= <-].
  - injection Ht as <-. cbn [t_type t_flags]. inversion Hk; subst.
    match goal with Hin : In _ (punctuators o) |- _ => destruct (punct_spell _ _ _ _ Hin) as (-> & -> & Hl) end.
    destruct dg; [rewrite flag_lor, Hd|rewrite Hd, Hn]; cbn [orb]; intros [= <-]; lia.
Qed.

(** ** Results *)

(** C3: maximal munch. A token of _cpp_lex_direct is the longest text at its
    place that the grammar of preprocessing tokens allows (identifiers,
    numbers, literals with their prefixes and user-defined suffixes, the
    punctuators and digraphs of the language), with the type, flags and name
    that text stands for; only where no text of the grammar starts is one
    character, or a literal without its closing quote, delivered as CPP_OTHER.
    The exceptions are those of the source: "<::" in C++11, and a macro name
    right behind a literal. *)
Theorem maximal_munch (tab : ucn_table) (o : cpp_options) (st : lex_flags)
  (node : list byte -> lex_node) flags base x t r x' :
  angled_headers st = false -> less_scope o base = false ->
  snd (lex_token tab o st node flags base x) = (LexToken t r, x') ->
  longest_token o node flags base t r.
Proof.
  intros Hang Hls H. pose proof (lex_token_right tab o st node Hang flags base x Hls) as Hr.
  by rewrite H in Hr.
Qed.

Definition sample_table : ucn_table := mk_table [] (fun _ _ => mret true).

Lemma maximal_munch_witness :
  longest_token gnuc17_options (fun _ => no_node) 0 (bytes "0x1.p-3+++y")
    (mk_token CPP_NUMBER 0 (bytes "0x1.p-3") [] 0 false) (bytes "+++y").
Proof.
  apply (maximal_munch sample_table gnuc17_options plain_flags (fun _ => no_node) 0
    (bytes "0x1.p-3+++y") (mk_lexer false false) _ _ (mk_lexer false false)); by vm_compute.
Defined.

(** C20: a token is spelled as it was read. Whatever the text, cpp_spell_token
    gives back exactly the characters lex.c consumed for the token: digraphs,
    named operators and the original spelling of identifiers included. *)
Theorem spelled_as_read (tab : ucn_table) (o : cpp_options) (st : lex_flags)
  (node : list byte -> lex_node) flags base x t r x' :
  angled_headers st = false -> less_scope o base = false -> operators_marked node ->
  plain_token_flags flags ->
  snd (lex_token tab o st node flags base x) = (LexToken t r, x') ->
  exists s, cpp_spell_token t true = Some s /\ base = s ++ r /\ (length r < length base)%nat.
Proof.
  intros Hang Hls Hop Hf H. pose proof (lex_token_right tab o st node Hang flags base x Hls) as Hr.
  rewrite H in Hr. cbn [fst lexed_right] in Hr. destruct Hr as (s & (-> & Hne & _) & Hs). exists s.
  split; [|split; [done|rewrite length_app; destruct s; simpl; done || lia]].
  destruct Hs as [(k & Hk & Ht)|[-> _]]; [by eapply token_of_spelling|done].
Qed.

Lemma spelled_as_read_witness :
  exists s, cpp_spell_token (mk_token CPP_HASH 3 (bytes "%:") [] 0 false) true = Some s /\
    bytes "%:define" = s ++ bytes "define" /\ (length (bytes "define") < length (bytes "%:define"))%nat.
Proof.
  apply (spelled_as_read sample_table gnuc17_options plain_flags
    (mark_named_operators NODE_OPERATOR (fun _ => no_node)) 1 (bytes "%:define") (mk_lexer false false) _ _
    (mk_lexer false false)); try (by vm_compute).
  by apply mark_named_operators_marked.
Defined.

(** C35: cpp_token_len bounds the spelling of every token the lexer delivers,
    when identifiers are written with UCNs: the buffers sized by it are large
    enough. *)
Theorem token_len_bounds (tab : ucn_table) (o : cpp_options) (st : lex_flags)
  (node : list byte -> lex_node) flags base x t r x' sp :
  angled_headers st = false -> less_scope o base = false -> operators_marked node ->
  plain_token_flags flags ->
  snd (lex_token tab o st node flags base x) = (LexToken t r, x') ->
  cpp_spell_token t false = Some sp -> Z.of_nat (length sp) <= cpp_token_len t.
Proof.
  intros Hang Hls Hop Hf H Hsp. pose proof (lex_token_right tab o st node Hang flags base x Hls) as Hr.
  rewrite H in Hr. cbn [fst lexed_right] in Hr. destruct Hr as (s & _ & Hs).
  destruct Hs as [(k & Hk & Ht)|[-> _]]; [by eapply token_of_len|]. by injection Hsp as <-.
Qed.

Lemma token_len_bounds_witness :
  Z.of_nat (length (bytes "\U000000e9x"))
  <= cpp_token_len (mk_token CPP_NAME 0 [0xC3; 0xA9; 120] (bytes "\u00e9x") 0 false).
Proof.
  apply (token_len_bounds sample_table gnuc17_options plain_flags
    (mark_named_operators NODE_OPERATOR (fun _ => no_node)) 0 (bytes "\u00e9x+") (mk_lexer false false) _ (bytes "+")
    (mk_lexer false false)); try (by vm_compute).
  by apply mark_named_operators_marked.
Defined.

(** It does not bound the original spelling of a named operator written
    with UCNs: in C++ \U00000061nd is diagnosed, but lexed as the operator
    "and", for which cpp_token_len gives 6, and spelling it as it was written,
    as stringify_arg and paste_tokens do, takes 12 bytes. *)
Theorem named_operator_overflows :
  let o := cpp_set_lang CLK_GNUCXX17 gnuc17_options in
  let t := mk_token CPP_AND_AND NAMED_OP (bytes "and") (bytes "\U00000061nd") 0 false in
  snd (lex_token sample_table o plain_flags (mark_named_operators NODE_OPERATOR (fun _ => no_node)) 0
         (bytes "\U00000061nd x") (mk_lexer false false)) = (LexToken t (bytes " x"), mk_lexer false false) /\
  cpp_token_len t = 6 /\
  cpp_spell_token t true = Some (bytes "\U00000061nd") /\ length (bytes "\U00000061nd") = 12%nat.
Proof. by vm_compute. Qed.

(** An identifier with a UCN above 7FFFFFFF is diagnosed by
    _cpp_valid_ucn but kept, and the conversion of its name leaves the six
    bytes one_cppchar_to_utf8 has for it. *)
Theorem wide_ucn_leaves_buffer :
  lex_token sample_table gnuc17_options plain_flags (fun _ => no_node) 0 (bytes "\U80000000") (mk_lexer false false)
  = ([Diag CPP_DL_ERROR CPP_W_NONE "%.*s is not a valid universal character"],
     (LexWild, mk_lexer false false)).
Proof. by vm_compute. Qed.

(** The hash lex_identifier computes while it reads is the one symtab.c
    computes: interning an identifier with it is ht_lookup of its name. *)
Theorem identifier_hash_agrees (tab : ucn_table) (o : cpp_options) (st : lex_flags)
  (node : list byte -> lex_node) c r s id s' r' hash t insert :
  ISIDST c = true ->
  snd (lex_identifier tab o st node (c :: r) r false s) = (Some id, s', r') -> li_hash id = Some hash ->
  ht_lookup_with_hash t (li_name id) hash insert = ht_lookup t (li_name id) insert /\
  c :: r = li_name id ++ r'.
Proof.
  intros Hc H Hh. destruct (lex_identifier_spec tab o st node [c] r false s) as (h & s1 & u & r1 & Hl & -> & Hu & _ & Hx);
    [by exists c|]. cbn [app] in *. rewrite Hl in H.
  destruct (ident_name (c :: u)) as [n|] eqn:En; [|done]. injection H as <- <- <-. cbn [li_name li_hash] in *.
  destruct (Hx hash Hh) as [[= ->] ->]. done.
Qed.

Lemma identifier_hash_agrees_witness :
  ht_lookup_with_hash (ht_create 5) (bytes "x1") (calc_hash (bytes "x1")) HT_ALLOC
  = ht_lookup (ht_create 5) (bytes "x1") HT_ALLOC /\ bytes "x1+y" = bytes "x1" ++ bytes "+y".
Proof.
  apply (identifier_hash_agrees sample_table gnuc17_options plain_flags (fun _ => no_node) (chr "x") (bytes "1+y")
    (mk_scan INITIAL_NORMALIZE_STATE true) (mk_ident (bytes "x1") (bytes "x1") (Some (calc_hash (bytes "x1"))))
    (mk_scan (mk_nst (chr "1") 0 normalized_KC) true) (bytes "+y") (calc_hash (bytes "x1"))); by vm_compute.
Defined.
