(* ===== verification/LexPaste.v ===== *)
(** * Printing tokens so that they are read back

    cpp_avoid_paste decides whether two tokens that were not next to each other
    in the source need a space between them when the result of preprocessing is
    printed.  Here it is shown what its answer "no" is worth: the second token
    is then not read into the first one, except in the cases of [paste_gap],
    which the function does not think of. *)

From Stdlib Require Import ZArith Lia Bool String Ascii.
From stdpp Require Import base tactics list numbers.
From S2P Require Import Prelude Reader CppNum NumLit Stream Utf StrLit Symtab CleanLine Lex LexGrammar LexSpec.

Local Open Scope string_scope.
Local Open Scope list_scope.
Local Open Scope Z_scope.

Definition is_quote (c : byte) : bool := (c =? 34) || isc c "'".

(** The encoding prefixes, which a name can be. *)
Definition encoding_prefixes : list (list byte) :=
  map bytes ["L"; "U"; "u"; "u8"; "R"; "LR"; "UR"; "uR"; "u8R"].

(** The pairs cpp_avoid_paste misses, by the type of the first token: a name
    before a literal it is, or becomes, a prefix of, or before a number that
    starts with a digit and has a dot or a sign; a number before a literal with
    a prefix, or before an apostrophe that separates digits; a literal before a
    name that becomes its suffix, or goes on with it; "." before "*"; the
    digraph "<:" before ":".  A lone backslash or an open literal next to
    another token also counts. *)
Definition paste_gap (o : cpp_options) (token1 token2 : cpp_token) : bool :=
  let a := if flag (t_flags token1) NAMED_OP then CPP_NAME else t_type token1 in
  let b := if flag (t_flags token2) NAMED_OP then CPP_NAME else t_type token2 in
  let lit := match TOKEN_SPELL b with SPELL_LITERAL => true | _ => false end in
  let d := look (t_text token2) 0 in
  let isb ty := ttype_eqb b ty in
  match a with
  | CPP_NAME =>
      lit && (ISIDNUM d || isc d "\"
              || (is_quote d && existsb (bytes_eqb (t_text token1)) encoding_prefixes))
  | CPP_NUMBER => lit && (ISIDNUM d || isc d "\" || DIGIT_SEP o d)
  | CPP_OTHER => is_quote (look (t_text token1) 0) || ISIDST (look (t_text token1) 0)
  | CPP_CHAR | CPP_WCHAR | CPP_CHAR16 | CPP_CHAR32 | CPP_UTF8CHAR =>
      user_literals o && (isb CPP_NAME || (lit && ISIDST d))
  | CPP_CHAR_USERDEF | CPP_WCHAR_USERDEF | CPP_CHAR16_USERDEF | CPP_CHAR32_USERDEF
  | CPP_UTF8CHAR_USERDEF | CPP_STRING_USERDEF | CPP_WSTRING_USERDEF | CPP_STRING16_USERDEF
  | CPP_STRING32_USERDEF | CPP_UTF8STRING_USERDEF => isb CPP_NAME || (lit && ISIDNUM d)
  | CPP_DOT => cplusplus o && (isb CPP_MULT || isb CPP_MULT_EQ)
  | CPP_OPEN_SQUARE => cplusplus o && isb CPP_COLON
  | _ => false
  end.

(** ** How a text of the grammar can go on *)

Lemma id_tail_cut o t w : id_tail o t -> id_tail o (t ++ w) -> w <> [] -> piece_len o w <> 0%nat.
Proof.
  intros Ht Htw Hw Hz. assert (length (t ++ w) <= length t)%nat as Hl.
  { apply (id_tail_longest o t w (t ++ w) []); [done..|by rewrite app_nil_r]. }
  rewrite length_app in Hl. destruct w; [done|simpl in Hl; lia].
Qed.

Lemma number_char_not_ext o prev c r : is_number_char o prev c = true -> ext_len o (c :: r) = 0%nat.
Proof.
  intros H. destruct (decide (ext_len o (c :: r) = 0)%nat) as [|Hne]; [done|].
  pose proof (ext_not_number o prev (c :: r) Hne) as Hn. change (look (c :: r) 0) with c in Hn. congruence.
Qed.

Lemma num_tail_step o q prev c r : is_number_char o q c = true -> num_tail o prev (c :: r) -> num_tail o c r.
Proof.
  intros Hc H. remember (c :: r) as z eqn:Ez.
  destruct H as [prev|prev c' u Hc' Hs Hu|prev c' d u Hc' Hd Hu|prev p u Hp Hl Hu]; [done| | |].
  - by injection Ez as -> ->.
  - by injection Ez as -> <-.
  - destruct p as [|e p]; [done|]. injection Ez as -> Ez. by rewrite (number_char_not_ext o q c p Hc) in Hl.
Qed.

Lemma num_tail_cut o prev t w : num_tail o prev t -> num_tail o prev (t ++ w) -> w <> [] ->
  (exists p, is_number_char o p (look w 0) = true) \/ ext_len o w <> 0%nat.
Proof.
  intros Ht Htw Hw.
  assert (forall p c, DIGIT_SEP o c = true -> is_number_char o p c = true) as Hsep.
  { intros p c H. unfold is_number_char. by rewrite H, !orb_true_r. }
  induction Ht as [prev|prev c t Hc Hs Ht IH|prev c d t Hc Hd Ht IH|prev p t Hp Hl Ht IH].
  - cbn [app] in Htw. destruct Htw as [|prev c t Hc|prev c d t Hc Hd|prev p t Hp Hl]; [done|..].
    + left. by exists prev.
    + left. exists prev. by apply Hsep.
    + right. assert (length p <> 0)%nat by (by destruct p). rewrite ext_len_agree; lia.
  - apply IH. by apply (num_tail_step o prev prev).
  - apply IH. apply (num_tail_step o prev prev); [by apply Hsep|done].
  - apply IH. rewrite <- app_assoc in Htw. remember (p ++ t ++ w) as z eqn:Ez.
    assert (forall q c r, z = c :: r -> is_number_char o q c = true -> False) as Hno.
    { intros q c r -> Hc. destruct p as [|e p]; [done|]. injection Ez as <- _.
      by rewrite (number_char_not_ext o q c p Hc) in Hl. }
    destruct Htw as [prev|prev c u Hc Hs Hu|prev c d u Hc Hd Hu|prev q u Hq Hlq Hu].
    + by destruct p.
    + by destruct (Hno prev c u).
    + destruct (Hno prev c (d :: u)); [done|by apply Hsep].
    + apply (ext_unique o) in Ez as [-> ->]; done.
Qed.

(** ** Operators next to each other *)

Definition op_token (s : list byte) (ty : cpp_ttype) (dg : bool) : cpp_token :=
  mk_token ty (if dg then DIGRAPH else 0) s [] 0 false.

(** Each character of an operator is an operator. *)
Lemma punct_chars o s ty dg i : In (s, ty, dg) (punctuators o) -> (i < length s)%nat ->
  exists ty', In ([look s i], ty', false) (punctuators o).
Proof.
  assert (forallb (fun '(s, _, _) => forallb (fun c => existsb (fun '(s', _, dg') =>
    negb dg' && bytes_eqb s' [c]) (punctuators o)) s) (punctuators o) = true) as H.
  { unfold punctuators. by destruct (cplusplus o), (digraphs o). }
  rewrite forallb_forall in H. intros Hin Hi. specialize (H _ Hin). cbn beta iota in H.
  rewrite forallb_forall in H. specialize (H (look s i) (nth_In s 10 Hi)).
  apply existsb_exists in H as ([[s' ty'] dg'] & Hin' & H). bprop. unfold bytes_eqb in *.
  match goal with E : bool_decide _ = true |- _ => apply bool_decide_eq_true in E as -> end.
  destruct dg'; [done|]. by exists ty'.
Qed.

Definition starts_with (p s : list byte) : bool := bytes_eqb (take (length p) s) p.

Lemma ops_table o : forallb (fun '(s1, ty1, dg1) => forallb (fun '(s, _, _) =>
    negb (starts_with s1 s && (length s1 <? length s)%nat) ||
    forallb (fun '(s2, ty2, dg2) =>
      negb (look s2 0 =? look s (length s1))
      || cpp_avoid_paste o (op_token s1 ty1 dg1) (op_token s2 ty2 dg2)
      || paste_gap o (op_token s1 ty1 dg1) (op_token s2 ty2 dg2)) (punctuators o))
    (punctuators o)) (punctuators o) = true.
Proof.
  unfold punctuators, paste_gap. destruct (cplusplus o), (digraphs o); vm_compute; done.
Qed.

Section Paste.
Context (o : cpp_options).

(** The type cpp_avoid_paste looks at. *)
Definition paste_type (t : cpp_token) : cpp_ttype :=
  if flag (t_flags t) NAMED_OP then CPP_NAME else t_type t.

Lemma name_type (node : list byte -> lex_node) flags s t : plain_token_flags flags -> token_of node flags PPName s = Some t ->
  paste_type t = CPP_NAME /\ flag (t_flags t) DIGRAPH = false /\ ident_name s = Some (t_text t).
Proof.
  intros [Hd Hn] Ht. unfold token_of in Ht. destruct (ident_name s) as [n|]; [|done].
  cbn [mbind option_bind] in Ht. injection Ht as <-. unfold paste_type. cbn [t_flags t_type t_text].
  destruct (flag (ln_flags (node n)) NODE_OPERATOR).
  - by rewrite !flag_lor, Hd, Hn.
  - by rewrite Hd, Hn.
Qed.

(** The second token: a name, a number, a literal (or what CPP_OTHER stands
    for), or an operator. *)
Definition second_name (s : list byte) (t : cpp_token) : Prop :=
  paste_type t = CPP_NAME /\ flag (t_flags t) DIGRAPH = false /\ pp_token o PPName s.
Definition second_number (s : list byte) (t : cpp_token) : Prop :=
  paste_type t = CPP_NUMBER /\ flag (t_flags t) DIGRAPH = false /\ t_text t = s /\ pp_token o PPNumber s.
Definition second_literal (s : list byte) (t : cpp_token) : Prop :=
  paste_type t = t_type t /\ flag (t_flags t) DIGRAPH = false /\ t_text t = s /\
  TOKEN_SPELL (t_type t) = SPELL_LITERAL /\ t_type t <> CPP_NUMBER /\
  ((exists ty, pp_token o (PPLiteral ty) s) \/ ((forall k, ~ pp_token o k s) /\ stray o s)).
Definition second_op (s : list byte) (t : cpp_token) : Prop :=
  exists dg, paste_type t = t_type t /\ flag (t_flags t) DIGRAPH = dg /\
             In (s, t_type t, dg) (punctuators o) /\ t_text t = s.

Lemma literal_not_number pre q ty : In (pre, q, ty) (literal_prefixes o) ->
  ty <> CPP_NUMBER /\ cpp_userdef_string_add_type (cpp_userdef_char_add_type ty) <> CPP_NUMBER.
Proof.
  unfold literal_prefixes. intros H. apply in_app_or in H as [H|H].
  - cbn [In] in H. by repeat destruct H as [[= <- <- <-]|H].
  - destruct (rliterals o || uliterals o); [|done]. apply in_app_or in H as [H|H].
    + cbn [In] in H. by repeat destruct H as [[= <- <- <-]|H].
    + destruct (utf8_char_literals o); [|done]. by destruct H as [[= <- <- <-]|[]].
Qed.

Lemma second_cases (node : list byte -> lex_node) flags s t : plain_token_flags flags -> text_of_token o node flags s t ->
  second_name s t \/ second_number s t \/ second_literal s t \/ second_op s t.
Proof.
  intros Hf Ht. pose proof Hf as [Hd Hn]. destruct Ht as [(k & Hk & Ht)|(-> & Hno & Hs)].
  - destruct k as [| |ty|ty dg].
    + left. apply name_type in Ht as (H1 & H2 & _); done.
    + right; left. injection Ht as <-. unfold second_number, paste_type. cbn. by rewrite Hn.
    + right; right; left. injection Ht as <-. unfold second_literal, paste_type. cbn [t_flags t_type t_text].
      rewrite Hn. inversion Hk; subst; match goal with Hin : In _ (literal_prefixes o) |- _ =>
        destruct (literal_spell _ _ _ _ Hin) as [E1 E2]; destruct (literal_not_number _ _ _ Hin) as [E3 E4] end;
        split_and!; eauto.
    + right; right; right. injection Ht as <-. unfold second_op, paste_type. cbn [t_flags t_type t_text].
      exists dg. inversion Hk; subst. destruct dg; [by rewrite !flag_lor, Hd, Hn|by rewrite Hd, Hn].
  - right; right; left. unfold second_literal, paste_type. cbn [t_flags t_type t_text]. rewrite Hn. split_and!; auto.
Qed.

Lemma stray_head s : stray o s -> (exists c, s = [c]) \/ is_quote (look s 0) = true \/ ISIDST (look s 0) = true.
Proof.
  intros [Hl|(pre & q & ty & y & Hin & ->)].
  - left. destruct s as [|c [|? ?]]; try done. by exists c.
  - right. pose proof (prefix_head o _ _ _ Hin) as (_ & _ & Hq & [->|[->|[->|[->| ->]]]]); [left|by right..].
    unfold is_quote. change (look ([] ++ q :: y) 0) with q. by destruct Hq as [->| ->].
Qed.

Lemma literal_head s ty : pp_token o (PPLiteral ty) s -> is_quote (look s 0) = true \/ ISIDST (look s 0) = true.
Proof.
  intros H. apply pp_head in H. unfold is_quote. destruct H as [H|[H|(pre & q & ty' & y & Hp & Hin & Hs)]].
  - left. by rewrite H, orb_true_r.
  - left. by rewrite H.
  - right. by apply letter_name, (prefix_letter o pre q ty' y).
Qed.

Lemma second_literal_head s t : second_literal s t ->
  is_quote (look s 0) = true \/ ISIDST (look s 0) = true \/ ((forall k, ~ pp_token o k s) /\ exists c, s = [c]).
Proof.
  intros (_ & _ & _ & _ & _ & [[ty H]|[Hno Hs]]).
  - apply literal_head in H. tauto.
  - apply stray_head in Hs. tauto.
Qed.

(** A character of operators starts an operator, the dot also a number. *)
Lemma second_at_op s t d ty : look s 0 = d -> In ([d], ty, false) (punctuators o) ->
  second_name s t \/ second_number s t \/ second_literal s t \/ second_op s t ->
  second_op s t \/ (second_number s t /\ d = chr ".").
Proof.
  intros Hd Hin. pose proof (punct_head o _ _ _ Hin) as (_ & Hid & Hq & Hqq & Hdl & Hbs & _).
  change (look [d] 0) with d in *. intros [H|[H|[H|H]]]; [exfalso|right|exfalso|by left].
  - destruct H as (_ & _ & H). apply pp_head in H. cbn [kind_head] in H. rewrite Hd in H.
    unfold ISIDNUM in Hid. apply orb_false_iff in Hid as [Hid _]. destruct H as [?|[?|?]]; congruence.
  - split; [done|]. destruct H as (_ & _ & _ & H). apply pp_head in H. cbn [kind_head] in H. rewrite Hd in H.
    unfold ISIDNUM in Hid. apply orb_false_iff in Hid as [_ Hid].
    destruct H as [?|[H _]]; [congruence|]. by apply Z.eqb_eq.
  - destruct (second_literal_head _ _ H) as [H'|[H'|[Hno [c ->]]]].
    + unfold is_quote in H'. rewrite Hd in H'. rewrite Hq, Hqq in H'. done.
    + rewrite Hd in H'. unfold ISIDNUM in Hid. by rewrite H' in Hid.
    + change (look [c] 0) with c in Hd. subst c. by apply (Hno (PPPunct ty false)), pp_punct.
Qed.

Lemma second_at_idnum s t : ISIDNUM (look s 0) = true ->
  second_name s t \/ second_number s t \/ second_literal s t \/ second_op s t ->
  second_name s t \/ second_number s t \/ (second_literal s t /\ ISIDST (look s 0) = true).
Proof.
  intros Hd [H|[H|[H|H]]]; [tauto|tauto| |].
  - right; right. split; [done|]. destruct (second_literal_head _ _ H) as [H'|[H'|[Hno [c ->]]]]; [|done|].
    + exfalso. unfold is_quote in H'. apply orb_true_iff in H' as [H'|H']; apply Z.eqb_eq in H'; by rewrite H' in Hd.
    + exfalso. change (look [c] 0) with c in Hd. unfold ISIDNUM in Hd. apply orb_true_iff in Hd as [Hd|Hd].
      * apply (Hno PPName). apply pp_name; [done|constructor].
      * apply (Hno PPNumber). apply pp_number; [done|constructor].
  - exfalso. destruct H as (dg & _ & _ & H & _). apply punct_head in H as (_ & H & _). congruence.
Qed.

(** A dollar or UCN starts a name, unless a backslash stands alone. *)
Lemma second_at_ext s t y : s <> [] -> ext_len o (s ++ y) <> 0%nat ->
  second_name s t \/ second_number s t \/ second_literal s t \/ second_op s t ->
  second_name s t \/ (second_literal s t /\ isc (look s 0) "\" = true).
Proof.
  intros Hne He H. assert (length s <> 0)%nat as Hl by (by destruct s).
  assert ((look s 0 = chr "$" /\ dollars_in_ident o = true) \/ look s 0 = chr "\") as Hc.
  { rewrite <- (look_app_l s y 0) by lia. unfold ext_len in He. destruct (isc (look (s ++ y) 0) "$") eqn:E.
    - left. split; [by apply Z.eqb_eq|]. by destruct (dollars_in_ident o).
    - right. destruct (extended_identifiers o && isc (look (s ++ y) 0) "\") eqn:E'; [|done].
      apply andb_true_iff in E' as [_ E']. by apply Z.eqb_eq. }
  destruct H as [H|[H|[H|H]]]; [by left|exfalso| |exfalso].
  - destruct H as (_ & _ & _ & H). apply pp_head in H. cbn [kind_head] in H.
    destruct Hc as [[Hc _]|Hc]; rewrite Hc in H; by destruct H as [?|[? _]].
  - right. split; [done|]. destruct Hc as [[Hc Hdol]|Hc]; [exfalso|by rewrite Hc].
    destruct (second_literal_head _ _ H) as [H'|[H'|[Hno [c ->]]]]; [by rewrite Hc in H'..|].
    change (look [c] 0) with c in Hc. subst c. apply (Hno PPName).
    apply (pp_ext_name o [chr "$"] []); [done| |constructor]. unfold ext_len. cbn. by rewrite Hdol.
  - destruct H as (dg & _ & _ & H & _). apply punct_head in H as (_ & _ & _ & _ & H1 & H2 & _).
    destruct Hc as [[Hc _]|Hc]; by rewrite Hc in *.
Qed.

Lemma second_at_quote s t : is_quote (look s 0) = true ->
  second_name s t \/ second_number s t \/ second_literal s t \/ second_op s t -> second_literal s t.
Proof.
  intros Hq. assert (look s 0 = 34 \/ look s 0 = chr "'") as Hc.
  { unfold is_quote in Hq. apply orb_true_iff in Hq as [Hq|Hq]; apply Z.eqb_eq in Hq; auto. }
  intros [H|[H|[H|H]]]; [exfalso|exfalso|done|exfalso].
  - destruct H as (_ & _ & H). apply pp_head in H. cbn [kind_head] in H.
    destruct Hc as [Hc|Hc]; rewrite Hc in H; by destruct H as [?|[?|?]].
  - destruct H as (_ & _ & _ & H). apply pp_head in H. cbn [kind_head] in H.
    destruct Hc as [Hc|Hc]; rewrite Hc in H; by destruct H as [?|[? _]].
  - destruct H as (dg & _ & _ & H & _). apply punct_head in H as (_ & _ & H1 & H2 & _).
    destruct Hc as [Hc|Hc]; by rewrite Hc in *.
Qed.

(** ** What "no" from cpp_avoid_paste says *)

Definition second (s : list byte) (t : cpp_token) : Prop :=
  second_name s t \/ second_number s t \/ second_literal s t \/ second_op s t.

Definition may_touch (t1 t2 : cpp_token) : Prop :=
  cpp_avoid_paste o t1 t2 = false /\ paste_gap o t1 t2 = false.

(** The first character cpp_avoid_paste sees of an operator. *)
Lemma op_first s t : second_op s t ->
  (if flag (t_flags t) DIGRAPH then look (cpp_digraph2name (paste_type t)) 0
   else match TOKEN_SPELL (paste_type t) with
        | SPELL_OPERATOR => look (TOKEN_NAME (paste_type t)) 0 | _ => -1 end) = look s 0.
Proof.
  intros (dg & -> & -> & H & _). apply punct_spell in H as (-> & -> & _). by destruct dg.
Qed.

Lemma touch_name t1 t2 s2 : paste_type t1 = CPP_NAME -> may_touch t1 t2 -> second s2 t2 ->
  ISIDNUM (look s2 0) = false /\ (isc (look s2 0) "\" = true -> ~ second_literal s2 t2) /\ ~ second_name s2 t2 /\
  (is_quote (look s2 0) = true -> ~ In (t_text t1) encoding_prefixes).
Proof.
  intros Ha [Hav Hgap] H2. unfold cpp_avoid_paste, paste_gap in *. fold (paste_type t1) (paste_type t2) in *.
  rewrite Ha in Hav, Hgap. cbn iota zeta in *.
  assert (~ second_name s2 t2) as Hn.
  { intros (E & E' & _). rewrite E, E' in Hav. by cbn in Hav. }
  assert (second_literal s2 t2 -> ISIDNUM (look s2 0) = false /\ isc (look s2 0) "\" = false /\
    (is_quote (look s2 0) = true -> ~ In (t_text t1) encoding_prefixes)) as Hl.
  { intros (E & E' & Et & Es & _). rewrite E, Es, Et in Hgap. cbn [andb] in Hgap.
    apply orb_false_iff in Hgap as [Hgap Hq]. apply orb_false_iff in Hgap as [Hi Hb]. split_and!; [done..|].
    intros Hquote Hin. rewrite Hquote in Hq. cbn [andb] in Hq. apply not_true_iff_false in Hq. apply Hq.
    apply existsb_exists. exists (t_text t1). split; [done|]. by apply bool_decide_eq_true. }
  assert (ISIDNUM (look s2 0) = false) as Hi.
  { destruct (ISIDNUM (look s2 0)) eqn:Ei; [|done]. exfalso.
    destruct (second_at_idnum _ _ Ei H2) as [?|[Hnum|[Hlit _]]]; [done| |by destruct (Hl Hlit)].
    destruct Hnum as (E & E' & Et & _). rewrite E, Et, Ei in Hgap. done. }
  split_and!; [done| |done|].
  - intros Hb Hlit. destruct (Hl Hlit) as (_ & ? & _). congruence.
  - intros Hq. destruct (Hl (second_at_quote _ _ Hq H2)) as (_ & _ & H). by apply H.
Qed.

Lemma touch_number t1 t2 s2 y : paste_type t1 = CPP_NUMBER -> may_touch t1 t2 -> second s2 t2 -> s2 <> [] ->
  (forall p, is_number_char o p (look s2 0) = false) /\ ext_len o (s2 ++ y) = 0%nat.
Proof.
  intros Ha [Hav Hgap] H2 Hne. unfold cpp_avoid_paste, paste_gap in *. fold (paste_type t1) (paste_type t2) in *.
  rewrite Ha in Hav, Hgap. cbn iota zeta in *.
  change (ttype_index CPP_NUMBER <=? ttype_index CPP_LSHIFT) with false in Hav. cbn [andb] in Hav. cbn iota in Hav.
  rewrite !orb_false_iff in Hav. destruct Hav as [[[[Hnum Hname] Hdot] Hplus] Hminus].
  assert (~ second_name s2 t2) as Hn by (intros (E & _); by rewrite E in Hname).
  assert (~ second_number s2 t2) as Hnu by (intros (E & _); by rewrite E in Hnum).
  assert (second_literal s2 t2 -> ISIDNUM (look s2 0) = false /\ isc (look s2 0) "\" = false /\
    DIGIT_SEP o (look s2 0) = false) as Hl.
  { intros (E & E' & Et & Es & _). rewrite E, Es, Et in Hgap. cbn [andb] in Hgap.
    apply orb_false_iff in Hgap as [Hgap Hq]. by apply orb_false_iff in Hgap as [Hi Hb]. }
  assert (second_op s2 t2 -> isc (look s2 0) "." = false /\ isc (look s2 0) "+" = false /\
    isc (look s2 0) "-" = false) as Hop2.
  { intros Hs. by rewrite (op_first _ _ Hs) in Hdot, Hplus, Hminus. }
  assert (forall a ty, In ([chr a], ty, false) (punctuators o) -> isc (look s2 0) a = true -> second_op s2 t2) as Hat.
  { intros a ty Hin E. apply Z.eqb_eq in E. by destruct (second_at_op s2 t2 (chr a) ty E Hin H2) as [?|[? _]]. }
  assert (forall a ty, In ty [CPP_DOT; CPP_PLUS; CPP_MINUS] -> TOKEN_NAME ty = [chr a] ->
    In ([chr a], ty, false) (punctuators o)) as Hin.
  { intros a ty Hty <-. unfold punctuators. apply in_or_app. left.
    apply (List.in_map (fun ty => (TOKEN_NAME ty, ty, false))). apply in_or_app. left.
    cbn [In] in Hty. repeat destruct Hty as [<-|Hty]; [find_in..|done]. }
  split.
  - intros p. unfold is_number_char.
    assert (ISIDNUM (look s2 0) = false) as ->.
    { destruct (ISIDNUM (look s2 0)) eqn:Ei; [|done]. exfalso.
      destruct (second_at_idnum _ _ Ei H2) as [?|[?|[Hlit _]]]; [done..|]. by destruct (Hl Hlit). }
    assert (isc (look s2 0) "." = false) as ->.
    { destruct (isc (look s2 0) ".") eqn:E; [|done]. pose proof (Hat "."%char CPP_DOT (Hin _ _ ltac:(by left) eq_refl) E) as Hs.
      by destruct (Hop2 Hs) as [? _]; congruence. }
    assert (DIGIT_SEP o (look s2 0) = false) as ->.
    { destruct (DIGIT_SEP o (look s2 0)) eqn:E; [|done]. exfalso. assert (is_quote (look s2 0) = true) as Hq.
      { unfold DIGIT_SEP in E. apply andb_true_iff in E as [E _]. unfold is_quote, isc. by rewrite E, orb_true_r. }
      destruct (Hl (second_at_quote _ _ Hq H2)) as (_ & _ & ?). congruence. }
    cbn [orb]. unfold VALID_SIGN. apply andb_false_iff. left. apply orb_false_iff. split.
    + destruct (isc (look s2 0) "+") eqn:E; [|done].
      pose proof (Hat "+"%char CPP_PLUS (Hin _ _ ltac:(by right; left) eq_refl) E) as Hs.
      by destruct (Hop2 Hs) as (_ & ? & _); congruence.
    + destruct (isc (look s2 0) "-") eqn:E; [|done].
      pose proof (Hat "-"%char CPP_MINUS (Hin _ _ ltac:(by right; right; left) eq_refl) E) as Hs.
      by destruct (Hop2 Hs) as (_ & _ & ?); congruence.
  - destruct (decide (ext_len o (s2 ++ y) = 0)%nat) as [|He]; [done|]. exfalso.
    destruct (second_at_ext s2 t2 y Hne He H2) as [?|[Hlit Hb]]; [done|]. destruct (Hl Hlit) as (_ & ? & _). congruence.
Qed.

Lemma paste_same t1 t2 u1 u2 : paste_type t1 = paste_type u1 -> paste_type t2 = paste_type u2 ->
  t_type t2 = t_type u2 -> t_text t1 = t_text u1 -> t_text t2 = t_text u2 ->
  flag (t_flags t2) DIGRAPH = flag (t_flags u2) DIGRAPH ->
  cpp_avoid_paste o t1 t2 = cpp_avoid_paste o u1 u2 /\ paste_gap o t1 t2 = paste_gap o u1 u2.
Proof.
  intros H1 H2 H3 H4 H5 H6. unfold cpp_avoid_paste, paste_gap.
  fold (paste_type t1) (paste_type t2) (paste_type u1) (paste_type u2). by rewrite H1, H2, H3, H4, H5, H6.
Qed.

Lemma op_token_same s t dg : paste_type t = t_type t -> flag (t_flags t) DIGRAPH = dg -> t_text t = s ->
  let u := op_token s (t_type t) dg in
  paste_type t = paste_type u /\ t_type t = t_type u /\ t_text t = t_text u /\
  flag (t_flags t) DIGRAPH = flag (t_flags u) DIGRAPH.
Proof. intros H1 H2 H3 u. subst u. rewrite H1, H2, H3. by destruct dg. Qed.

Lemma op_before_dot s1 ty1 dg1 z ty dg : In (s1, ty1, dg1) (punctuators o) ->
  In (s1 ++ chr "." :: z, ty, dg) (punctuators o) -> ty1 = CPP_DOT.
Proof.
  assert (forallb (fun '(s1, ty1, _) => forallb (fun '(s, _, _) =>
    negb (starts_with s1 s && isc (look s (length s1)) ".") || ttype_eqb ty1 CPP_DOT) (punctuators o))
    (punctuators o) = true) as H.
  { unfold punctuators. destruct (cplusplus o), (digraphs o); vm_compute; done. }
  rewrite forallb_forall in H. intros H1 H2. specialize (H _ H1). cbn beta iota in H.
  rewrite forallb_forall in H. specialize (H _ H2). cbn beta iota in H. unfold starts_with in H.
  rewrite take_app_length in H. unfold bytes_eqb in H. rewrite bool_decide_eq_true_2 in H by done.
  unfold look in H. rewrite app_nth2, Nat.sub_diag in H by lia. cbn in H. by destruct (ttype_eqb_spec ty1 CPP_DOT).
Qed.

Lemma touch_op s1 t1 t2 s2 d z ty dg : second_op s1 t1 -> may_touch t1 t2 -> second s2 t2 ->
  look s2 0 = d -> In (s1 ++ d :: z, ty, dg) (punctuators o) -> False.
Proof.
  intros (dg1 & P1 & F1 & I1 & T1) [Hav Hgap] H2 Hd Hin.
  destruct (punct_chars o _ _ _ (length s1) Hin) as [ty' Hc]; [rewrite length_app; simpl; lia|].
  unfold look in Hc. rewrite app_nth2, Nat.sub_diag in Hc by lia. cbn [nth] in Hc.
  destruct (second_at_op s2 t2 d ty' Hd Hc H2) as [(dg2 & P2 & F2 & I2 & T2)|[(P2 & F2 & _) ->]].
  - pose proof (op_token_same s1 t1 dg1 P1 F1 T1) as (A1 & A2 & A3 & A4).
    pose proof (op_token_same s2 t2 dg2 P2 F2 T2) as (B1 & B2 & B3 & B4).
    destruct (paste_same t1 t2 _ _ A1 B1 B2 A3 B3 B4) as [E1 E2]. rewrite E1 in Hav. rewrite E2 in Hgap.
    pose proof (ops_table o) as Ht. rewrite forallb_forall in Ht. specialize (Ht _ I1). cbn beta iota in Ht.
    rewrite forallb_forall in Ht. specialize (Ht _ Hin). cbn beta iota in Ht. apply orb_true_iff in Ht as [Ht|Ht].
    + unfold starts_with in Ht. rewrite take_app_length in Ht. unfold bytes_eqb in Ht.
      rewrite bool_decide_eq_true_2 in Ht by done. rewrite length_app in Ht. cbn [length andb] in Ht.
      apply negb_true_iff, Nat.ltb_ge in Ht. lia.
    + rewrite forallb_forall in Ht. specialize (Ht _ I2). cbn beta iota in Ht.
      rewrite Hav, Hgap, !orb_false_r in Ht. apply negb_true_iff, Z.eqb_neq in Ht. apply Ht.
      unfold look at 2. rewrite app_nth2, Nat.sub_diag by lia. done.
  - apply (op_before_dot s1 (t_type t1) dg1 z ty dg I1) in Hin.
    unfold cpp_avoid_paste in Hav. fold (paste_type t1) (paste_type t2) in Hav.
    rewrite P1, Hin, P2, F2 in Hav. done.
Qed.

(** ** The first token is not read further *)

Lemma app_longer (s1 t s r : list byte) : s1 ++ t = s ++ r -> (length s1 <= length s)%nat ->
  exists w, s = s1 ++ w /\ t = w ++ r.
Proof.
  revert s. induction s1 as [|c s1 IH]; intros s Heq Hl.
  - exists s. done.
  - destruct s as [|d s]; simpl in Hl; [lia|]. injection Heq as -> Heq.
    destruct (IH s Heq ltac:(lia)) as (w & -> & ->). by exists w.
Qed.

(** The shapes of what the lexer can read: texts of the grammar and literals,
    closed or not. *)
Definition shape (s : list byte) : Prop :=
  (exists k, pp_token o k s /\ forall ty, k <> PPLiteral ty) \/
  exists pre q ty v, In (pre, q, ty) (literal_prefixes o) /\ s = pre ++ q :: v.

Lemma text_shape (node : list byte -> lex_node) flags s t : text_of_token o node flags s t -> (1 < length s)%nat -> shape s.
Proof.
  intros [(k & Hk & _)|(_ & _ & [Hl|H])] Hlen; [|lia|by right].
  destruct k as [| |ty|ty dg]; try (left; by eexists; split; [exact Hk|]).
  right. inversion Hk; subst; by eauto 10.
Qed.

Lemma prefix_idnum pre q ty : In (pre, q, ty) (literal_prefixes o) ->
  forallb ISIDNUM pre = true /\ is_quote q = true /\ (pre <> [] -> In pre encoding_prefixes) /\ pre <> bytes "R".
Proof.
  intros H. apply prefix_head in H as (_ & _ & Hq & Hp). unfold is_quote.
  destruct Hq as [-> | ->]; destruct Hp as [->|[->|[->|[->| ->]]]]; split_and!; try done;
    intros _; unfold encoding_prefixes; find_in.
Qed.

Lemma raw_idnum p : In p raw_prefixes -> forallb ISIDNUM p = true /\ In p encoding_prefixes /\ ISIDST (look p 0) = true /\ p <> [].
Proof.
  cbn [raw_prefixes In]. intros H. repeat destruct H as [<-|H]; [..|done];
    (split_and!; [done|unfold encoding_prefixes; find_in|done|done]).
Qed.

(** A name is not the beginning of a prefix and its quote. *)
Lemma name_no_prefix t1 t2 s1 s2 y p q z : s2 <> [] -> paste_type t1 = CPP_NAME -> ident_name s1 = Some (t_text t1) ->
  pp_token o PPName s1 -> may_touch t1 t2 -> second s2 t2 ->
  forallb ISIDNUM p = true -> is_quote q = true -> In p encoding_prefixes -> s1 ++ s2 ++ y <> p ++ q :: z.
Proof.
  intros Hne Ha Hid Hpp Ht H2 Hp Hq Hin Heq. pose proof (touch_name _ _ _ Ha Ht H2) as (Hnum & _ & _ & Hqq).
  assert (id_tail o p) as Htail.
  { rewrite <- (app_nil_r p). apply id_tail_run; [done|constructor]. }
  assert (length s1 <= length p)%nat as Hl.
  { apply (id_tail_longest o p (q :: z) s1 (s2 ++ y)); [by apply pp_name_tail|done| |done].
    apply quote_stops. unfold is_quote in Hq. apply orb_true_iff in Hq as [Hq|Hq]; apply Z.eqb_eq in Hq; auto. }
  apply eq_sym in Heq as Heq'. destruct (app_longer s1 (s2 ++ y) p (q :: z) Heq Hl) as (w & -> & Hw).
  rewrite <- (look_app_l s2 y 0) in Hnum, Hqq by (destruct s2; simpl; [done|lia]). rewrite Hw in Hnum, Hqq.
  destruct w as [|d w].
  - rewrite app_nil_r in *. apply Hqq; [done|]. rewrite ident_name_plain in Hid by done. injection Hid as <-. done.
  - rewrite forallb_app in Hp. apply andb_true_iff in Hp as [_ Hp]. cbn [forallb] in Hp.
    apply andb_true_iff in Hp as [Hp _]. change (look ((d :: w) ++ q :: z) 0) with d in Hnum. congruence.
Qed.

Lemma name_not_longer t1 t2 s1 s2 y s r : s2 <> [] -> paste_type t1 = CPP_NAME ->
  ident_name s1 = Some (t_text t1) ->
  pp_token o PPName s1 -> may_touch t1 t2 -> second s2 t2 -> shape s -> s1 ++ s2 ++ y = s ++ r ->
  (length s1 <= length s)%nat -> s = s1.
Proof.
  intros Hne Ha Hid Hpp Ht H2 Hs Heq Hl. destruct (app_longer s1 (s2 ++ y) s r Heq Hl) as (w & -> & Hw).
  destruct w as [|d w]; [by rewrite app_nil_r|]. exfalso.
  pose proof (touch_name _ _ _ Ha Ht H2) as (Hnum & Hbs & Hnn & _).
  pose proof (pp_nonempty _ _ _ Hpp) as Hne1. pose proof (pp_head _ _ _ Hpp) as Hh. cbn [kind_head] in Hh.
  apply (name_head o) in Hh as (H3 & H4 & H5 & H6 & H7).
  assert (look (s1 ++ d :: w) 0 = look s1 0) as H0 by (apply look_app_l; destruct s1; simpl; [done|lia]).
  destruct Hs as [(k & Hk & Hnl)|(pre & q & ty & v & Hin & Hs)].
  - destruct k as [| |ty|ty dg]; [| |by destruct (Hnl ty)|].
    + apply pp_name_tail in Hk, Hpp. pose proof (id_tail_cut o s1 (d :: w) Hpp Hk ltac:(done)) as Hpl.
      rewrite <- (piece_len_agree o (d :: w) r Hpl), <- Hw in Hpl. unfold piece_len in Hpl.
      rewrite look_app_l, Hnum in Hpl by (destruct s2; simpl; [done|lia]).
      destruct (second_at_ext s2 t2 y Hne Hpl H2) as [?|[Hlit Hb]]; [done|]. by apply (Hbs Hb).
    + apply pp_head in Hk. cbn [kind_head] in Hk. rewrite H0 in Hk. destruct Hk as [?|[? _]]; congruence.
    + inversion Hk; subst. match goal with Hi : In _ (punctuators o) |- _ => by apply H7 in Hi end.
  - destruct (prefix_idnum _ _ _ Hin) as (Hp1 & Hp2 & Hp3 & _).
    assert (pre <> []) as Hpne.
    { intros ->. rewrite Hs in H0. change (look ([] ++ q :: v) 0) with q in H0. rewrite <- H0 in *.
      unfold is_quote in Hp2. rewrite H5, orb_false_r in Hp2. by apply Z.eqb_eq in Hp2. }
    apply (name_no_prefix t1 t2 s1 s2 y pre q (v ++ r)); try done; [by apply Hp3|].
    rewrite Heq, Hs, <- app_assoc. done.
Qed.

Lemma number_not_longer t1 t2 s1 s2 y s r : s2 <> [] -> paste_type t1 = CPP_NUMBER ->
  pp_token o PPNumber s1 -> may_touch t1 t2 -> second s2 t2 -> shape s -> s1 ++ s2 ++ y = s ++ r ->
  (length s1 <= length s)%nat -> s = s1.
Proof.
  intros Hne Ha Hpp Ht H2 Hs Heq Hl. destruct (app_longer s1 (s2 ++ y) s r Heq Hl) as (w & -> & Hw).
  destruct w as [|d w]; [by rewrite app_nil_r|]. exfalso.
  pose proof (touch_number _ _ _ y Ha Ht H2 Hne) as (Hnum & Hext).
  pose proof (pp_nonempty _ _ _ Hpp) as Hne1. pose proof (pp_head _ _ _ Hpp) as Hh. cbn [kind_head] in Hh.
  assert (look (s1 ++ d :: w) 0 = look s1 0) as H0 by (apply look_app_l; destruct s1; simpl; [done|lia]).
  assert (forall c, look s1 0 = c -> ISIDST c = false /\ isc c "$" = false /\ isc c "\" = false /\ is_quote c = false) as Hc.
  { intros c Hc. destruct Hh as [Hh|[Hh _]].
    - rewrite Hc in Hh. apply digit_not_name in Hh as (E1 & E2 & E3 & _ & E4 & E5 & _). unfold is_quote.
      apply Z.eqb_neq in E5. by rewrite E4, E5.
    - apply Z.eqb_eq in Hh. rewrite Hh in Hc. by subst c. }
  destruct (Hc _ eq_refl) as (E1 & E2 & E3 & E4).
  destruct Hs as [(k & Hk & Hnl)|(pre & q & ty & v & Hin & Hs)].
  - destruct k as [| |ty|ty dg]; [| |by destruct (Hnl ty)|].
    + apply pp_head in Hk. cbn [kind_head] in Hk. rewrite H0 in Hk. destruct Hk as [?|[?|?]]; congruence.
    + assert (forall prev t, s1 = prev :: t -> num_tail o prev t -> num_tail o prev (t ++ d :: w) -> False) as Hcut.
      { intros prev t -> Ht1 Ht2. destruct (num_tail_cut o prev t (d :: w) Ht1 Ht2 ltac:(done)) as [[p Hp]|He].
        - specialize (Hnum p). rewrite <- (look_app_l s2 y 0), Hw in Hnum by (destruct s2; simpl; [done|lia]).
          change (look ((d :: w) ++ r) 0) with d in Hnum. change (look (d :: w) 0) with d in Hp. congruence.
        - rewrite <- (ext_len_agree o (d :: w) r He), <- Hw in He. done. }
      inversion Hpp as [| |c t Hd Ht1|c t Hd Ht1| | |]; subst.
      * apply (Hcut c t eq_refl Ht1). inversion Hk as [| |c' t' Hd' Ht'|c' t' Hd' Ht'| | |]; subst; [done|].
        done.
      * apply (Hcut (chr ".") (c :: t) eq_refl Ht1). inversion Hk as [| |c' t' Hd' Ht'|c' t' Hd' Ht'| | |]; subst; [|done].
        done.
    + inversion Hk; subst. match goal with Hi : In _ (punctuators o) |- _ => rename Hi into Hin end.
      destruct Hh as [Hh|[Hh Hh']].
      * apply punct_head in Hin as (_ & Hi & _). rewrite H0 in Hi. apply digit_not_name in Hh as (_&_&_&_&_&_&Hh). congruence.
      * apply Z.eqb_eq in Hh. rewrite <- H0 in Hh.
        assert (1 < length s1)%nat as Hl1.
        { destruct s1 as [|a [|b s1]]; [done|done|simpl; lia]. }
        rewrite <- (look_app_l s1 (d :: w) 1 Hl1) in Hh'.
        destruct (punct_dot o _ _ _ Hin Hh) as [E|[E|E]]; [|by rewrite E in Hh'..].
        apply (f_equal length) in E. rewrite length_app in E. simpl in E. lia.
  - destruct (prefix_idnum _ _ _ Hin) as (Hp1 & Hp2 & Hp3 & _). rewrite Hs in H0.
    destruct pre as [|b pre].
    + change (look ([] ++ q :: v) 0) with q in H0. congruence.
    + pose proof (letter_name _ (prefix_letter o (b :: pre) q ty v _ ltac:(done) Hin eq_refl)) as Hb. congruence.
Qed.

Lemma op_heads s1 dg ty : In (s1, ty, dg) (punctuators o) ->
  ISIDST (look s1 0) = false /\ ISDIGIT (look s1 0) = false /\ isc (look s1 0) "$" = false /\
  isc (look s1 0) "\" = false /\ is_quote (look s1 0) = false.
Proof.
  intros H. apply punct_head in H as (_ & H1 & H2 & H3 & H4 & H5 & _). unfold ISIDNUM in H1.
  apply orb_false_iff in H1 as [H1 H1']. unfold is_quote. by rewrite H2, H3.
Qed.

(** An operator is extended by an operator, or a dot by a digit. *)
Lemma op_not_longer t1 t2 s1 s2 y s r : s2 <> [] -> second_op s1 t1 -> may_touch t1 t2 -> second s2 t2 ->
  shape s -> s1 ++ s2 ++ y = s ++ r -> (length s1 <= length s)%nat -> s = s1.
Proof.
  intros Hne Hop1 Ht H2 Hs Heq Hl. destruct (app_longer s1 (s2 ++ y) s r Heq Hl) as (w & -> & Hw).
  destruct w as [|d w]; [by rewrite app_nil_r|]. exfalso.
  assert (look s2 0 = d) as Hd.
  { rewrite <- (look_app_l s2 y 0), Hw by (destruct s2; simpl; [done|lia]). done. }
  pose proof Hop1 as (dg1 & P1 & F1 & I1 & T1). destruct (op_heads _ _ _ I1) as (E1 & E2 & E3 & E4 & E5).
  pose proof (punct_head o _ _ _ I1) as (Hne1 & _).
  assert (look (s1 ++ d :: w) 0 = look s1 0) as H0 by (apply look_app_l; destruct s1; simpl; [done|lia]).
  destruct Hs as [(k & Hk & Hnl)|(pre & q & ty & v & Hin & Hs)].
  - destruct k as [| |ty|ty dg]; [| |by destruct (Hnl ty)|].
    + apply pp_head in Hk. cbn [kind_head] in Hk. rewrite H0 in Hk. destruct Hk as [?|[?|?]]; congruence.
    + apply pp_head in Hk. cbn [kind_head] in Hk. rewrite H0 in Hk. destruct Hk as [?|[Hdot Hdig]]; [congruence|].
      apply Z.eqb_eq in Hdot. destruct (punct_dot o _ _ _ I1 Hdot) as [->|Hs1].
      * change (look ([chr "."] ++ d :: w) 1) with d in Hdig.
        assert (ISIDNUM (look s2 0) = true) as Hid by (rewrite Hd; by apply digit_not_name).
        destruct Ht as [Hav Hgap]. pose proof (op_token_same _ t1 dg1 P1 F1 T1) as (A1 & _).
        assert (t_type t1 = CPP_DOT) as Ety.
        { destruct (punct_unique o [chr "."] (t_type t1) dg1 CPP_DOT false I1) as [-> _]; [|done].
          unfold punctuators. apply in_or_app. left.
          apply (List.in_map (fun ty => (TOKEN_NAME ty, ty, false)) _ CPP_DOT). apply in_or_app. left. find_in. }
        destruct (second_at_idnum _ _ Hid H2) as [(N1 & N2 & N3)|[(N1 & N2 & _)|[Hlit Hst]]].
        -- apply pp_head in N3. cbn [kind_head] in N3. rewrite Hd in N3. apply digit_not_name in Hdig as (D1&D2&D3&_).
           destruct N3 as [?|[?|?]]; congruence.
        -- unfold cpp_avoid_paste in Hav. fold (paste_type t1) (paste_type t2) in Hav.
           rewrite P1, Ety, N1, N2 in Hav. done.
        -- rewrite Hd in Hst. apply digit_not_name in Hdig as (D1&_). congruence.
      * assert (1 < length s1)%nat as Hl1.
        { destruct s1 as [|a [|b s1]]; [done| |simpl; lia]. by destruct Hs1. }
        rewrite look_app_l in Hdig by done. by destruct Hs1 as [Hs1|Hs1]; rewrite Hs1 in Hdig.
    + assert (In (s1 ++ d :: w, ty, dg) (punctuators o)) as Hin by (by inversion Hk).
      by apply (touch_op s1 t1 t2 s2 d w ty dg).
  - destruct (prefix_idnum _ _ _ Hin) as (Hp1 & Hp2 & Hp3 & _). rewrite Hs in H0.
    destruct pre as [|b pre].
    + change (look ([] ++ q :: v) 0) with q in H0. congruence.
    + pose proof (letter_name _ (prefix_letter o (b :: pre) q ty v _ ltac:(done) Hin eq_refl)) as Hb. congruence.
Qed.

(** The text of a literal starts with a prefix and a quote. *)
Lemma second_literal_shape s t : second_literal s t -> (exists c, s = [c] /\ forall k, ~ pp_token o k s) \/
  exists pre q ty v, In (pre, q, ty) (literal_prefixes o) /\ s = pre ++ q :: v.
Proof.
  intros (_ & _ & _ & _ & _ & [[ty H]|[Hno [Hl|H]]]).
  - right. inversion H; subst; by eauto 10.
  - left. destruct s as [|c [|? ?]]; try done. by exists c.
  - by right.
Qed.

Lemma quote_not_hex q : is_quote q = true -> ISXDIGIT q = false.
Proof. unfold is_quote. intros H. apply orb_true_iff in H as [H|H]; apply Z.eqb_eq in H; by subst q. Qed.

Lemma stray_ext t1 t2 c s2 y : s2 <> [] -> (forall k, ~ pp_token o k [c]) ->
  paste_type t1 = CPP_OTHER -> isc (look (t_text t1) 0) "\" = isc c "\" -> may_touch t1 t2 -> second s2 t2 ->
  ext_len o (c :: s2 ++ y) <> 0%nat -> False.
Proof.
  intros Hne Hno Ha Htx [Hav _] H2 He.
  assert (isc c "\" = true /\ ((isc (look s2 0) "u" = true /\ hex_run 4 (drop 1 (s2 ++ y)) = true) \/
    (isc (look s2 0) "U" = true /\ hex_run 8 (drop 1 (s2 ++ y)) = true))) as [Hc Hu].
  { rewrite <- (look_app_l s2 y 0) by (destruct s2; simpl; [done|lia]). unfold ext_len in He.
    change (look (c :: s2 ++ y) 0) with c in He. change (look (c :: s2 ++ y) 1) with (look (s2 ++ y) 0) in He.
    change (drop 2 (c :: s2 ++ y)) with (drop 1 (s2 ++ y)) in He.
    destruct (isc c "$") eqn:Ed.
    - exfalso. apply Z.eqb_eq in Ed. subst c. apply (Hno PPName).
      apply (pp_ext_name o [chr "$"] []); [done| |constructor]. unfold ext_len. cbn.
      by destruct (dollars_in_ident o).
    - destruct (extended_identifiers o && isc c "\") eqn:E; [|done]. apply andb_true_iff in E as [_ ->].
      split; [done|]. destruct (isc (look (s2 ++ y) 0) "u"); [left; by destruct (hex_run 4 _)|right].
      destruct (isc (look (s2 ++ y) 0) "U"); [by destruct (hex_run 8 _)|done]. }
  assert (ISIDST (look s2 0) = true) as Hst.
  { destruct Hu as [[H _]|[H _]]; apply letter_name; auto. }
  assert (ISIDNUM (look s2 0) = true) as Hid by (unfold ISIDNUM; by rewrite Hst).
  destruct (second_at_idnum _ _ Hid H2) as [(N1 & N2 & _)|[(_ & _ & _ & Hn)|[Hlit _]]].
  - unfold cpp_avoid_paste in Hav. fold (paste_type t1) (paste_type t2) in Hav.
    rewrite Ha, N1, N2 in Hav. cbn iota in Hav. rewrite Htx, Hc in Hav. done.
  - apply pp_head in Hn. cbn [kind_head] in Hn. destruct Hn as [Hn|[Hn _]].
    + apply digit_not_name in Hn as (Hn & _). congruence.
    + apply Z.eqb_eq in Hn. by rewrite Hn in Hst.
  - destruct (second_literal_shape _ _ Hlit) as [(d & -> & Hno2)|(pre & q & ty & v & Hin & ->)].
    + apply (Hno2 PPName). apply pp_name; [done|constructor].
    + destruct (prefix_idnum _ _ _ Hin) as (_ & Hq & _). apply quote_not_hex in Hq as Hx.
      apply prefix_head in Hin as (_ & _ & _ & [->|[->|[->|[->| ->]]]]).
      * change (look ([] ++ q :: v) 0) with q in Hst. unfold is_quote in Hq.
        apply orb_true_iff in Hq as [Hq|Hq]; apply Z.eqb_eq in Hq; by subst q.
      * by destruct Hu as [[H _]|[H _]].
      * destruct Hu as [[H _]|[_ H]]; [done|].
        change (ISXDIGIT q && hex_run 7 (drop 1 (q :: v ++ y)) = true) in H. by rewrite Hx in H.
      * destruct Hu as [[_ H]|[H _]]; [|done].
        change (ISXDIGIT q && hex_run 3 (drop 1 (q :: v ++ y)) = true) in H. by rewrite Hx in H.
      * destruct Hu as [[_ H]|[H _]]; [|done].
        change (ISXDIGIT q && hex_run 2 (drop 1 (q :: v ++ y)) = true) in H. by rewrite Hx in H.
Qed.

(** A stray character starts nothing, unless it is a backslash before the
    letter of a UCN. *)
Lemma stray_not_longer t1 t2 c s2 y s r : s2 <> [] -> (forall k, ~ pp_token o k [c]) -> is_quote c = false ->
  t_type t1 = CPP_OTHER -> paste_type t1 = CPP_OTHER -> t_text t1 = [c] ->
  may_touch t1 t2 -> second s2 t2 -> shape s -> [c] ++ s2 ++ y = s ++ r -> s <> [] -> s = [c].
Proof.
  intros Hne Hno Hq Hty Ha Htx Ht H2 Hs Heq Hsn. exfalso.
  destruct s as [|c' s]; [done|]. injection Heq as <- Heq.
  assert (ISIDST c = false) as Hst.
  { destruct (ISIDST c) eqn:E; [|done]. destruct (Hno PPName). apply pp_name; [done|constructor]. }
  assert (ISDIGIT c = false) as Hdig.
  { destruct (ISDIGIT c) eqn:E; [|done]. destruct (Hno PPNumber). apply pp_number; [done|constructor]. }
  assert (forall u ty dg, In (c :: u, ty, dg) (punctuators o) -> False) as Hnop.
  { intros u ty dg Hin. destruct (punct_chars o _ _ _ 0 Hin) as [ty' Hc]; [simpl; lia|].
    apply (Hno (PPPunct ty' false)). by apply pp_punct. }
  destruct Hs as [(k & Hk & Hnl)|(pre & q & ty & v & Hin & Hs)].
  - destruct k as [| |ty|ty dg]; [| |by destruct (Hnl ty)|].
    + pose proof (name_ext o _ r Hk Hst) as He. cbn [app] in He. rewrite <- Heq in He.
      apply (stray_ext t1 t2 c s2 y); try done. by rewrite Htx.
    + apply pp_head in Hk. cbn [kind_head] in Hk. change (look (c :: s) 0) with c in Hk.
      destruct Hk as [?|[Hdot _]]; [congruence|]. apply Z.eqb_eq in Hdot. subst c.
      apply (Hnop [] CPP_DOT false). unfold punctuators. apply in_or_app. left.
      apply (List.in_map (fun ty => (TOKEN_NAME ty, ty, false)) _ CPP_DOT). apply in_or_app. left. find_in.
    + inversion Hk; subst. by eapply Hnop.
  - destruct (prefix_idnum _ _ _ Hin) as (Hp1 & Hp2 & Hp3 & _).
    destruct pre as [|b pre].
    + injection Hs as <- _. congruence.
    + pose proof (letter_name _ (prefix_letter o (b :: pre) q ty v _ ltac:(done) Hin eq_refl)) as Hb.
      rewrite <- Hs in Hb. change (look (c :: s) 0) with c in Hb. congruence.
Qed.
End Paste.

(** ** The same token is read again *)

Section Reread.
Context (tab : ucn_table) (o : cpp_options) (st : lex_flags) (node : list byte -> lex_node).
Context (Hang : angled_headers st = false).

Lemma lex_token_first flags base x t r x' :
  snd (lex_token tab o st node flags base x) = (LexToken t r, x') ->
  is_nvspace (look base 0) = false /\ look base 0 <> 10.
Proof.
  unfold lex_token. destruct (is_nvspace (look base 0)); [by rewrite snd_W_bind|].
  by destruct (Z.eqb_spec (look base 0) 10).
Qed.

Lemma less_scope_starts r : less_scope o r = true ->
  digraphs o = true /\ cplusplus o = true /\ look r 0 = chr "<" /\ look r 1 = chr ":" /\ look r 2 = chr ":" /\
  look r 3 <> chr ":" /\ look r 3 <> chr ">".
Proof.
  unfold less_scope, next_is, isc. intros H. bprop. split_and!; done.
Qed.

(** The text a token was read from alone is its text. *)
Lemma read_alone flags s x t x' :
  snd (lex_token tab o st node flags (s ++ [10]) x) = (LexToken t [10], x') -> s <> [] ->
  less_scope o (s ++ [10]) = false -> text_of_token o node flags s t.
Proof.
  intros H Hne Hls. pose proof (lex_token_right tab o st node Hang flags (s ++ [10]) x Hls) as Hr.
  rewrite H in Hr. cbn [fst lexed_right] in Hr. destruct Hr as (s' & (Heq & _) & Ht).
  by apply app_inv_tail in Heq as <-.
Qed.

(** In "<::" the first character stands alone. *)
Lemma lex_less_scope flags r x : less_scope o r = true ->
  fst (snd (lex_token tab o st node flags r x)) = simple_token CPP_LESS flags r (drop 1 r).
Proof.
  intros Hls. destruct (less_scope_starts _ Hls) as (H1 & H2 & H3 & H4 & H5 & H6 & H7).
  destruct r as [|a r]; [done|]. change (look (a :: r) 0) with a in H3. subst a.
  assert (lex_operator o (chr "<") r = Some (CPP_LESS, false, 0%nat)) as Hlo.
  { unfold lex_operator. known_chars. unfold less_scope in Hls. unfold next_is in *.
    change (look (chr "<" :: r) 1) with (look r 0) in *. change (look (chr "<" :: r) 2) with (look r 1) in *.
    change (look (chr "<" :: r) 3) with (look r 2) in *. change (look (chr "<" :: r) 0) with (chr "<") in *.
    rewrite H4 in *. change (isc (chr ":") "=") with false. change (isc (chr ":") "<") with false.
    change (isc (chr ":") ":") with true in *. change (isc (chr "<") "<") with true in Hls.
    rewrite H1. cbv iota. rewrite H1, !andb_true_r in Hls. cbn [andb] in Hls. by rewrite Hls. }
  assert (lex_punctuator o flags (chr "<") (chr "<" :: r) r
    = simple_token CPP_LESS flags (chr "<" :: r) (drop 0 r)) as Hlp by (unfold lex_punctuator; by rewrite Hlo).
  unfold lex_token. change (look (chr "<" :: r) 0) with (chr "<"). cbv zeta.
  change (drop 1 (chr "<" :: r)) with r.
  change (is_nvspace (chr "<")) with false. change (chr "<" =? 10) with false.
  change (ISDIGIT (chr "<")) with false. change (ISIDST (chr "<")) with false.
  change (chr "<" =? 34) with false. known_chars. rewrite Hang, Hlp. done.
Qed.

Lemma alone_not_less_scope flags s x t x' :
  snd (lex_token tab o st node flags (s ++ [10]) x) = (LexToken t [10], x') ->
  less_scope o (s ++ [10]) = false.
Proof.
  intros H. destruct (less_scope o (s ++ [10])) eqn:E; [|done]. exfalso.
  pose proof (lex_less_scope flags _ x E) as Hl. rewrite H in Hl. injection Hl as _ Hr.
  apply less_scope_starts in E as (_ & _ & H0 & H1 & H2 & _).
  destruct s as [|a [|b s]]; [done|done|].
  change (drop 1 ((a :: b :: s) ++ [10])) with (b :: s ++ [10]) in Hr. by destruct s.
Qed.

(** Literals: the body and the suffix are read the same way, whatever follows
    them. *)
Lemma string_body_app q body w saw : isc q "\" = false -> str_body q body ->
  exists saw', string_body st q saw (body ++ w) = (Some w, saw', w).
Proof.
  intros Hq H. revert saw. induction H as [|c t Hc Ht IH|c t Hb Hne Hn Ht IH]; intros saw.
  - exists saw. cbn [app string_body]. by rewrite Hq, Z.eqb_refl.
  - destruct (IH saw) as [saw' E]. exists saw'. cbn [app string_body]. rewrite Hang.
    change (isc (chr "\") "\") with true. change (look (c :: t ++ w) 0) with c.
    apply Z.eqb_neq in Hc. by rewrite Hc.
  - destruct (IH (saw || (c =? 0))) as [saw' E]. exists saw'. cbn [app string_body]. rewrite Hb. cbn [andb].
    apply Z.eqb_neq in Hne, Hn. by rewrite Hne, Hn.
Qed.

Lemma idnum_run_app t w : forallb ISIDNUM t = true -> ISIDNUM (look w 0) = false -> idnum_run (t ++ w) = (t, w).
Proof.
  induction t as [|c t IH]; intros Ht Hw.
  - destruct w as [|d w]; [done|]. cbn [app idnum_run]. change (look (d :: w) 0) with d in Hw. by rewrite Hw.
  - simpl in Ht. apply andb_true_iff in Ht as [Hc Ht]. cbn [app idnum_run]. by rewrite Hc, IH.
Qed.

(** Whether the text at a suffix is a macro does not depend on what follows it. *)
Lemma macro_suffix_same c t w w' : forallb ISIDNUM t = true -> ISIDNUM (look w 0) = false ->
  ISIDNUM (look w' 0) = false ->
  is_macro_not_literal_suffix node (c :: t ++ w) = is_macro_not_literal_suffix node (c :: t ++ w').
Proof.
  intros Ht Hw Hw'. unfold is_macro_not_literal_suffix, is_macro.
  assert (isc (look (c :: t ++ w) 1) "_" = isc (look (c :: t ++ w') 1) "_") as ->.
  { destruct t as [|d t]; [|done]. cbn [app]. change (look (c :: w) 1) with (look w 0).
    change (look (c :: w') 1) with (look w' 0).
    destruct (isc (look w 0) "_") eqn:E; [apply Z.eqb_eq in E; by rewrite E in Hw|].
    destruct (isc (look w' 0) "_") eqn:E'; [apply Z.eqb_eq in E'; by rewrite E' in Hw'|]. done. }
  change (look (c :: t ++ w) 0) with c. change (look (c :: t ++ w') 0) with c.
  cbn [idnum_run]. rewrite !idnum_run_app by done. by destruct (ISIDNUM c).
Qed.

(** The suffix read alone is read again, if what follows cannot be part of it. *)
Lemma literal_suffix_same ty sfx ty' w : snd (literal_suffix o st node ty (sfx ++ [10])) = (ty', [10]) ->
  (user_literals o = true -> sfx = [] -> ISIDST (look w 0) = false) ->
  (sfx <> [] -> ISIDNUM (look w 0) = false) ->
  snd (literal_suffix o st node ty (sfx ++ w)) = (ty', w).
Proof.
  intros H Hst Hid. destruct (literal_suffix_spec o st node ty (sfx ++ [10])) as (s1 & r1 & ty1 & Hl & Heq & Hs).
  rewrite H in Hl. injection Hl as <- <-. apply app_inv_tail in Heq as <-.
  destruct Hs as [(-> & -> & _)|(c & t & -> & Hu & Hc & Ht & _ & ->)].
  - cbn [app]. destruct (literal_suffix_spec o st node ty w) as (s2 & r2 & ty2 & -> & -> & Hs).
    destruct Hs as [(-> & -> & _)|(c & t & -> & Hu & Hc & _)]; [done|].
    exfalso. specialize (Hst Hu eq_refl). change (look ((c :: t) ++ r2) 0) with c in Hst. congruence.
  - specialize (Hid ltac:(done)). unfold literal_suffix in *. rewrite Hu in H |- *.
    change ((c :: t) ++ w) with (c :: t ++ w). change ((c :: t) ++ [10]) with (c :: t ++ [10]) in H.
    rewrite (macro_suffix_same c t w [10] Ht Hid eq_refl).
    destruct (is_macro_not_literal_suffix node (c :: t ++ [10])) eqn:Em.
    + rewrite snd_W_bind in H. apply (f_equal (fun p => length (snd p))) in H.
      cbn [snd mret W_ret length] in H. rewrite length_app in H. simpl in H. lia.
    + change (look (c :: t ++ w) 0) with c. change (drop 1 (c :: t ++ w)) with (t ++ w). rewrite Hc.
      by rewrite idnum_run_app.
Qed.

Definition plain_literals : list cpp_ttype :=
  [CPP_STRING; CPP_WSTRING; CPP_UTF8STRING; CPP_STRING16; CPP_STRING32;
   CPP_CHAR; CPP_WCHAR; CPP_CHAR16; CPP_CHAR32; CPP_UTF8CHAR].

Lemma prefix_type pre q ty : In (pre, q, ty) (literal_prefixes o) -> In ty plain_literals.
Proof.
  unfold literal_prefixes. intros H. apply in_app_or in H as [H|H].
  - cbn [In] in H. by repeat destruct H as [[= <- <- <-]|H]; [find_in..|].
  - destruct (rliterals o || uliterals o); [|done]. apply in_app_or in H as [H|H].
    + cbn [In] in H. by repeat destruct H as [[= <- <- <-]|H]; [find_in..|].
    + destruct (utf8_char_literals o); [|done]. destruct H as [[= <- <- <-]|[]]. find_in.
Qed.

Lemma touch_literal t1 t2 s2 ty : In ty plain_literals -> paste_type t1 = ty -> may_touch o t1 t2 ->
  second o s2 t2 -> user_literals o = true -> ISIDST (look s2 0) = false.
Proof.
  intros Hty Ha [Hav Hgap] H2 Hu. destruct (ISIDST (look s2 0)) eqn:Hst; [|done]. exfalso.
  assert (ISIDNUM (look s2 0) = true) as Hid by (unfold ISIDNUM; by rewrite Hst).
  unfold cpp_avoid_paste, paste_gap in *. fold (paste_type t1) (paste_type t2) in *. rewrite Ha in *.
  destruct (second_at_idnum o s2 t2 Hid H2) as [(N1 & N2 & _)|[(_ & _ & _ & Hn)|[(N1 & N2 & N3 & N4 & _) _]]].
  - cbn [In plain_literals] in Hty.
    repeat destruct Hty as [<-|Hty]; [..|done]; 
      rewrite ?N1, ?N2, ?Hu in Hav; rewrite ?N1, ?N2, ?Hu in Hgap; first [by vm_compute in Hav|by vm_compute in Hgap].
  - apply pp_head in Hn. cbn [kind_head] in Hn. destruct Hn as [Hn|[Hn _]].
    + apply digit_not_name in Hn as (Hn & _). congruence.
    + apply Z.eqb_eq in Hn. by rewrite Hn in Hst.
  - cbn [In plain_literals] in Hty.
    repeat destruct Hty as [<-|Hty]; [..|done]; 
      rewrite ?N1, ?N2, ?N3, ?N4, ?Hu, ?Hst, ?orb_true_r in Hav; rewrite ?N1, ?N2, ?N3, ?N4, ?Hu, ?Hst, ?orb_true_r in Hgap; first [by vm_compute in Hav|by vm_compute in Hgap].
Qed.

Lemma touch_userdef t1 t2 s2 ty : In ty plain_literals ->
  paste_type t1 = cpp_userdef_string_add_type (cpp_userdef_char_add_type ty) -> may_touch o t1 t2 ->
  second o s2 t2 -> ISIDNUM (look s2 0) = false.
Proof.
  intros Hty Ha [Hav Hgap] H2. destruct (ISIDNUM (look s2 0)) eqn:Hid; [|done]. exfalso.
  unfold paste_gap in *. fold (paste_type t1) (paste_type t2) in *. rewrite Ha in *.
  destruct (second_at_idnum o s2 t2 Hid H2) as [(N1 & N2 & _)|[(N1 & N2 & N3 & _)|[(N1 & N2 & N3 & N4 & _) _]]];
    cbn [In plain_literals] in Hty;
    repeat destruct Hty as [<-|Hty]; try done;
    rewrite N1 in Hgap; try done; rewrite N3, ?N4, Hid, ?orb_true_r in Hgap; done.
Qed.

Lemma lex_token_literal flags pre q ty r x : In (pre, q, ty) (literal_prefixes o) ->
  snd (lex_token tab o st node flags (pre ++ q :: r) x)
  = (simple_token (fst (snd (lex_string o st node (pre ++ q :: r)))) flags (pre ++ q :: r)
       (snd (snd (lex_string o st node (pre ++ q :: r)))), x).
Proof.
  intros Hin. pose proof (prefix_computed o pre q ty r Hin) as [Hp _].
  pose proof (prefix_head o _ _ _ Hin) as (_ & _ & Hq & Hpre).
  assert (forall base, isc (fst (string_prefix base)) "R" = false ->
    snd (lex_literal o st node flags base x) = (simple_token (fst (snd (lex_string o st node base))) flags base
       (snd (snd (lex_string o st node base))), x)) as Hl.
  { intros base Hb. unfold lex_literal. by rewrite Hb, snd_W_bind. }
  rewrite <- Hl by (rewrite Hp; by destruct Hq as [-> | ->]). clear Hl Hp.
  unfold lex_token. destruct pre as [|b pre].
  - cbn [app]. change (look (q :: r) 0) with q. change (drop 1 (q :: r)) with r.
    destruct Hq as [-> | ->]; done.
  - destruct (literal_prefix_complete o b (pre ++ q :: r) (b :: pre) q ty r) as [H1 H2]; [done..|].
    cbn [app]. change (look (b :: pre ++ q :: r) 0) with b.
    change (drop 1 (b :: pre ++ q :: r)) with (pre ++ q :: r). rewrite H1, H2.
    destruct Hpre as [?|[[= -> ->]|[[= -> ->]|[[= -> ->]|[= -> ->]]]]]; done.
Qed.

Lemma reread_literal flags1 s1 t1 x1 x1' t2 s2 y x ty : plain_token_flags flags1 ->
  snd (lex_token tab o st node flags1 (s1 ++ [10]) x1) = (LexToken t1 [10], x1') ->
  pp_token o (PPLiteral ty) s1 -> t1 = mk_token ty flags1 s1 [] 0 false -> s2 <> [] ->
  may_touch o t1 t2 -> second o s2 t2 ->
  snd (lex_token tab o st node flags1 (s1 ++ s2 ++ y) x) = (LexToken t1 (s2 ++ y), x).
Proof.
  intros [_ Hn] H Hpp Ht1 Hne Ht H2.
  assert (paste_type t1 = ty) as Hty by (subst t1; unfold paste_type; cbn; by rewrite Hn).
  assert (exists pre q ty0 body sfx, In (pre, q, ty0) (literal_prefixes o) /\ str_body q body /\
    s1 = pre ++ q :: body ++ sfx /\
    ((sfx = [] /\ ty = ty0) \/
     (sfx <> [] /\ ty = cpp_userdef_string_add_type (cpp_userdef_char_add_type ty0))))
    as (pre & q & ty0 & body & sfx & Hin & Hb & Hs1 & Hsfx).
  { inversion Hpp as [| | | |pre q ty0 body Hin Hb|pre q ty0 body c t Hin Hb|]; subst.
    - exists pre, q, ty, body, []. rewrite app_nil_r. auto 10.
    - exists pre, q, ty0, body, (c :: t). auto 10. }
  pose proof (prefix_head o _ _ _ Hin) as (Hq & _ & Hqq & _).
  assert (forall w saw' ty' r', string_body st q false (body ++ sfx ++ w) = (Some (sfx ++ w), saw', sfx ++ w) ->
    snd (literal_suffix o st node ty0 (sfx ++ w)) = (ty', r') ->
    snd (lex_string o st node (pre ++ q :: body ++ sfx ++ w)) = (ty', r')) as Hls.
  { intros w saw' ty' r' Hsb Hsf. unfold lex_string.
    destruct (prefix_computed o pre q ty0 (body ++ sfx ++ w) Hin) as [-> ->]. rewrite Hsb. cbv zeta.
    cbn [negb andb]. rewrite !snd_W_bind. done. }
  assert (snd (literal_suffix o st node ty0 (sfx ++ [10])) = (ty, [10])) as Hsuf.
  { rewrite Hs1, <- app_assoc in H. cbn [app] in H. rewrite <- app_assoc in H.
    rewrite (lex_token_literal flags1 pre q ty0 _ x1 Hin) in H.
    destruct (string_body_app q body (sfx ++ [10]) false Hq Hb) as [saw' Hsb].
    destruct (snd (literal_suffix o st node ty0 (sfx ++ [10]))) as [ty' r'] eqn:E.
    rewrite (Hls _ _ _ _ Hsb E) in H. cbn [fst snd] in H. unfold simple_token in H.
    injection H as H -> _. rewrite Ht1 in H. by injection H as ->. }
  assert (snd (literal_suffix o st node ty0 (sfx ++ s2 ++ y)) = (ty, s2 ++ y)) as Hsuf2.
  { apply literal_suffix_same; [done|..]; rewrite look_app_l by (destruct s2; simpl; [done|lia]).
    - intros Hu Hs. destruct Hsfx as [[_ Hty0]|[? _]]; [|done]. subst ty0.
      apply (touch_literal t1 t2 s2 ty); try done. by eapply prefix_type.
    - intros Hs. destruct Hsfx as [[? _]|[_ Hty0]]; [done|].
      apply (touch_userdef t1 t2 s2 ty0); try done; [by eapply prefix_type|congruence]. }
  destruct (string_body_app q body (sfx ++ s2 ++ y) false Hq Hb) as [saw' Hsb].
  replace (s1 ++ s2 ++ y) with (pre ++ q :: body ++ sfx ++ s2 ++ y)
    by (rewrite Hs1, <- app_assoc; cbn [app]; by rewrite <- app_assoc).
  rewrite (lex_token_literal flags1 pre q ty0 _ x Hin), (Hls _ _ _ _ Hsb Hsuf2). cbn [fst snd].
  unfold simple_token. do 2 f_equal. rewrite Ht1. f_equal.
  replace (pre ++ q :: body ++ sfx ++ s2 ++ y) with (s1 ++ s2 ++ y)
    by (rewrite Hs1, <- app_assoc; cbn [app]; by rewrite <- app_assoc).
  apply text_to_app.
Qed.

(** The first token, by its text. *)
Definition first_text (s : list byte) (t : cpp_token) : Prop :=
  (paste_type t = CPP_NAME /\ ident_name s = Some (t_text t) /\ pp_token o PPName s) \/
  (paste_type t = CPP_NUMBER /\ pp_token o PPNumber s) \/
  second_op o s t \/
  (exists c, s = [c] /\ (forall k, ~ pp_token o k [c]) /\ is_quote c = false /\ ISIDST c = false /\
     t_type t = CPP_OTHER /\ paste_type t = CPP_OTHER /\ t_text t = [c]).

Lemma first_cases flags s t t2 : plain_token_flags flags -> text_of_token o node flags s t ->
  may_touch o t t2 ->
  first_text s t \/ exists ty, pp_token o (PPLiteral ty) s /\ t = mk_token ty flags s [] 0 false.
Proof.
  intros Hf Ht [_ Hgap]. pose proof Hf as [Hd Hn]. destruct Ht as [(k & Hk & Ht)|(-> & Hno & Hs)].
  - destruct k as [| |ty|ty dg].
    + left; left. apply (name_type node flags s t Hf) in Ht as (H1 & _ & H2). done.
    + left; right; left. injection Ht as <-. unfold paste_type. cbn. by rewrite Hn.
    + right. injection Ht as <-. by exists ty.
    + left; right; right; left. injection Ht as <-. unfold second_op, paste_type. cbn [t_flags t_type t_text].
      exists dg. inversion Hk; subst. destruct dg; [by rewrite !flag_lor, Hd, Hn|by rewrite Hd, Hn].
  - left; right; right; right. unfold paste_gap in Hgap. cbn [t_flags t_type t_text] in Hgap. rewrite Hn in Hgap.
    cbn iota zeta in Hgap. apply orb_false_iff in Hgap as [Hq Hi].
    destruct (stray_head o s Hs) as [[c ->]|[?|?]]; [|congruence..]. exists c.
    change (look [c] 0) with c in *. unfold paste_type. cbn [t_flags t_type t_text]. rewrite Hn. by split_and!.
Qed.

Lemma first_head s t : first_text s t -> s <> [] /\
  (isc (look s 0) "/" = true \/ isc (look s 0) "<" = true -> second_op o s t) /\
  (ISIDST (look s 0) = true -> paste_type t = CPP_NAME /\ ident_name s = Some (t_text t) /\ pp_token o PPName s).
Proof.
  intros [(H1 & H2 & H3)|[(H1 & H2)|[H|(c & -> & Hno & Hq & Hi & H)]]].
  - split; [by eapply pp_nonempty|]. split; [|done]. intros Hc. apply pp_head in H3. cbn [kind_head] in H3.
    exfalso. destruct Hc as [Hc|Hc]; apply Z.eqb_eq in Hc; rewrite Hc in H3; by destruct H3 as [?|[?|?]].
  - split; [by eapply pp_nonempty|]. apply pp_head in H2. cbn [kind_head] in H2. split; intros Hc; exfalso.
    + destruct Hc as [Hc|Hc]; apply Z.eqb_eq in Hc; rewrite Hc in H2; by destruct H2 as [?|[? _]].
    + destruct H2 as [H2|[H2 _]]; [apply digit_not_name in H2 as (H2 & _); congruence|].
      apply Z.eqb_eq in H2. by rewrite H2 in Hc.
  - pose proof H as (dg & _ & _ & Hin & _). pose proof (op_heads o _ _ _ Hin) as (E & _).
    apply punct_head in Hin as (Hne & _). split_and!; [done|done|]. intros Hc. congruence.
  - split; [done|]. change (look [c] 0) with c. split; [|congruence]. intros Hc. exfalso.
    destruct Hc as [Hc|Hc]; apply Z.eqb_eq in Hc; subst c.
    + apply (Hno (PPPunct CPP_DIV false)), pp_punct. unfold punctuators. apply in_or_app. left.
      apply (List.in_map (fun ty => (TOKEN_NAME ty, ty, false)) _ CPP_DIV). apply in_or_app. left. find_in.
    + apply (Hno (PPPunct CPP_LESS false)), pp_punct. unfold punctuators. apply in_or_app. left.
      apply (List.in_map (fun ty => (TOKEN_NAME ty, ty, false)) _ CPP_LESS). apply in_or_app. left. find_in.
Qed.

Lemma not_longer t1 t2 s1 s2 y s r : s2 <> [] -> first_text s1 t1 -> may_touch o t1 t2 -> second o s2 t2 ->
  shape o s -> s1 ++ s2 ++ y = s ++ r -> (length s1 <= length s)%nat -> s <> [] -> s = s1.
Proof.
  intros Hne [(H1 & H3 & H4)|[(H1 & H3)|[H|(c & -> & Hno & Hq & Hi & H3 & H4 & H5)]]] Ht H2 Hs Heq Hl Hsn.
  - by apply (name_not_longer o t1 t2 s1 s2 y s r).
  - by apply (number_not_longer o t1 t2 s1 s2 y s r).
  - by apply (op_not_longer o t1 t2 s1 s2 y s r).
  - by apply (stray_not_longer o t1 t2 c s2 y s r).
Qed.

Lemma op_shapes s ty dg : In (s, ty, dg) (punctuators o) ->
  (look s 0 = chr "/" -> s = [chr "/"] \/ s = bytes "/=") /\
  (look s 0 = chr "<" -> s = [chr "<"] \/ s = bytes "<:" \/ (1 < length s)%nat /\ look s 1 <> chr ":").
Proof.
  assert (forallb (fun e => let s := fst (fst e) in
    (negb (isc (look s 0) "/") || bytes_eqb s [chr "/"] || bytes_eqb s (bytes "/=")) &&
    (negb (isc (look s 0) "<") || bytes_eqb s [chr "<"] || bytes_eqb s (bytes "<:")
     || (1 <? length s)%nat && negb (isc (look s 1) ":"))) (punctuators o) = true) as H.
  { unfold punctuators. by destruct (cplusplus o), (digraphs o). }
  rewrite forallb_forall in H. intros Hin. specialize (H _ Hin). cbn [fst] in H. cbn zeta in H.
  apply andb_true_iff in H as [H1 H2]. unfold bytes_eqb in *.
  rewrite !orb_true_iff, !bool_decide_eq_true in H1. rewrite !orb_true_iff, !bool_decide_eq_true in H2.
  split; intros E; [rewrite E in H1|rewrite E in H2].
  - destruct H1 as [[H1|H1]|H1]; [done|by left|by right].
  - destruct H2 as [[[H2|H2]|H2]|H2]; [done|by left|by right; left|right; right].
    apply andb_true_iff in H2 as [H2 H3]. split; [by apply Nat.ltb_lt|]. intros Hc. by rewrite Hc in H3.
Qed.

Lemma op_colon s ty dg : In (s, ty, dg) (punctuators o) -> look s 0 = chr ":" ->
  s = [chr ":"] \/ (1 < length s)%nat /\ (look s 1 = chr ":" \/ look s 1 = chr ">").
Proof.
  assert (forallb (fun e => let s := fst (fst e) in
    negb (isc (look s 0) ":") || bytes_eqb s [chr ":"]
     || (1 <? length s)%nat && (isc (look s 1) ":" || isc (look s 1) ">")) (punctuators o) = true) as H.
  { unfold punctuators. by destruct (cplusplus o), (digraphs o). }
  rewrite forallb_forall in H. intros Hin E. specialize (H _ Hin). cbn [fst] in H. cbn zeta in H.
  unfold bytes_eqb, isc in *. rewrite E in H. rewrite !orb_true_iff, !bool_decide_eq_true in H.
  destruct H as [[H|H]|H]; [done|by left|right]. apply andb_true_iff in H as [H H'].
  rewrite orb_true_iff, !Z.eqb_eq in H'. split; [by apply Nat.ltb_lt|done].
Qed.

Lemma op_listed ty : In ty [CPP_MULT; CPP_DIV; CPP_COLON; CPP_LESS; CPP_DOT] ->
  In (TOKEN_NAME ty, ty, false) (punctuators o).
Proof.
  intros H. unfold punctuators. apply in_or_app. left.
  apply (List.in_map (fun ty => (TOKEN_NAME ty, ty, false))). apply in_or_app. left.
  cbn [In] in H. repeat destruct H as [<-|H]; [find_in..|done].
Qed.

(** A comment is not made. *)
Lemma no_comment t1 t2 s1 s2 y : s2 <> [] -> first_text s1 t1 -> may_touch o t1 t2 -> second o s2 t2 ->
  look (s1 ++ s2 ++ y) 0 = chr "/" ->
  look (s1 ++ s2 ++ y) 1 = chr "*" \/ look (s1 ++ s2 ++ y) 1 = chr "/" -> False.
Proof.
  intros Hne H1 [Hav _] H2 E0 E1. destruct (first_head _ _ H1) as (Hne1 & Hop1 & _).
  rewrite look_app_l in E0 by (destruct s1; simpl; [done|lia]).
  destruct (Hop1 ltac:(left; by rewrite E0)) as (dg & P1 & F1 & I1 & T1).
  destruct (op_shapes _ _ _ I1) as [Hs1 _]. destruct (Hs1 E0) as [-> | ->].
  - change (look ([chr "/"] ++ s2 ++ y) 1) with (look (s2 ++ y) 0) in E1.
    rewrite look_app_l in E1 by (destruct s2; simpl; [done|lia]).
    assert (second_op o s2 t2) as Hop2.
    { destruct E1 as [E1|E1].
      - destruct (second_at_op o s2 t2 _ CPP_MULT E1 (op_listed CPP_MULT ltac:(find_in)) H2) as [?|[_ ?]]; done.
      - destruct (second_at_op o s2 t2 _ CPP_DIV E1 (op_listed CPP_DIV ltac:(find_in)) H2) as [?|[_ ?]]; done. }
    assert (t_type t1 = CPP_DIV) as Ety.
    { by destruct (punct_unique o _ _ _ _ _ I1 (op_listed CPP_DIV ltac:(find_in))). }
    unfold cpp_avoid_paste in Hav. fold (paste_type t1) (paste_type t2) in Hav.
    rewrite (op_first o _ _ Hop2), P1, Ety in Hav. by destruct E1 as [E1|E1]; rewrite E1 in Hav.
  - by destruct E1.
Qed.

(** "<::" is not made. *)
Lemma no_less_scope t1 t2 s1 s2 y : s2 <> [] -> first_text s1 t1 -> may_touch o t1 t2 -> second o s2 t2 ->
  less_scope o (s1 ++ s2 ++ y) = false.
Proof.
  intros Hne H1 Ht H2. destruct (less_scope o (s1 ++ s2 ++ y)) eqn:E; [|done]. exfalso.
  destruct (less_scope_starts _ E) as (Hd & Hcpp & E0 & E1 & E2 & E3 & E4).
  destruct (first_head _ _ H1) as (Hne1 & Hop1 & _).
  rewrite look_app_l in E0 by (destruct s1; simpl; [done|lia]).
  pose proof (Hop1 ltac:(right; by rewrite E0)) as Hs1. pose proof Hs1 as (dg & P1 & F1 & I1 & T1).
  destruct (op_shapes _ _ _ I1) as [_ Hsh]. destruct (Hsh E0) as [->|[->|[Hl Hn]]].
  - change (look ([chr "<"] ++ s2 ++ y) 1) with (look (s2 ++ y) 0) in E1.
    rewrite look_app_l in E1 by (destruct s2; simpl; [done|lia]).
    apply (touch_op o [chr "<"] t1 t2 s2 (chr ":") [] CPP_OPEN_SQUARE true); try done.
    unfold punctuators. rewrite Hd. apply in_or_app. right. find_in.
  - change (look ((bytes "<:") ++ s2 ++ y) 2) with (look (s2 ++ y) 0) in E2.
    change (look ((bytes "<:") ++ s2 ++ y) 3) with (look (s2 ++ y) 1) in E3, E4.
    rewrite look_app_l in E2 by (destruct s2; simpl; [done|lia]).
    destruct (second_at_op o s2 t2 _ CPP_COLON E2 (op_listed CPP_COLON ltac:(find_in)) H2) as [Hs2|[_ ?]]; [|done].
    destruct Hs2 as (dg2 & P2 & F2 & I2 & T2).
    destruct (op_colon _ _ _ I2 E2) as [->|[Hl2 Hc2]].
    + assert (t_type t2 = CPP_COLON) as Ety2.
      { by destruct (punct_unique o _ _ _ _ _ I2 (op_listed CPP_COLON ltac:(find_in))). }
      assert (t_type t1 = CPP_OPEN_SQUARE) as Ety1.
      { destruct (punct_unique o _ _ _ CPP_OPEN_SQUARE true I1); [|done].
        unfold punctuators. rewrite Hd. apply in_or_app. right. find_in. }
      destruct Ht as [_ Hgap]. unfold paste_gap in Hgap. fold (paste_type t1) (paste_type t2) in Hgap.
      by rewrite P1, P2, Ety1, Ety2, Hcpp in Hgap.
    + rewrite look_app_l in E3, E4 by lia. by destruct Hc2.
  - rewrite look_app_l in E1 by lia. done.
Qed.

Lemma text_unique flags s t t' : text_of_token o node flags s t -> text_of_token o node flags s t' -> t = t'.
Proof.
  intros [(k & Hk & Ht)|(-> & Hno & _)] [(k' & Hk' & Ht')|(-> & Hno' & _)].
  - rewrite (pp_kind_unique o _ _ _ Hk' Hk), Ht in Ht'. congruence.
  - by apply Hno' in Hk.
  - by apply Hno in Hk'.
  - done.
Qed.

Lemma reread flags1 flags2 s1 t1 x1 x1' s2 t2 y x : plain_token_flags flags1 -> plain_token_flags flags2 ->
  s1 <> [] -> s2 <> [] ->
  snd (lex_token tab o st node flags1 (s1 ++ [10]) x1) = (LexToken t1 [10], x1') ->
  text_of_token o node flags2 s2 t2 -> may_touch o t1 t2 ->
  exists x', snd (lex_token tab o st node flags1 (s1 ++ s2 ++ y) x) = (LexToken t1 (s2 ++ y), x').
Proof.
  intros Hf1 Hf2 Hne1 Hne2 H Ht2 Ht. pose proof (second_cases o node flags2 s2 t2 Hf2 Ht2) as H2.
  pose proof (read_alone _ _ _ _ _ H Hne1 (alone_not_less_scope _ _ _ _ _ H)) as Ht1.
  destruct (first_cases flags1 s1 t1 t2 Hf1 Ht1 Ht) as [Hfirst|(ty & Hpp & Heq)];
    [|exists x; by eapply reread_literal].
  pose proof (no_less_scope t1 t2 s1 s2 y Hne2 Hfirst Ht H2) as Hls.
  pose proof (lex_token_right tab o st node Hang flags1 (s1 ++ s2 ++ y) x Hls) as Hr.
  apply lex_token_first in H as [Hws Hnl].
  assert (forall w, look (s1 ++ w) 0 = look s1 0) as Hlook.
  { intros w. apply look_app_l. destruct s1; simpl; [done|lia]. }
  rewrite Hlook in Hws, Hnl.
  destruct (snd (lex_token tab o st node flags1 (s1 ++ s2 ++ y) x)) as [l x']. cbn [fst] in Hr. exists x'.
  destruct (first_head _ _ Hfirst) as (_ & _ & Hname).
  assert (forall s r, longest_text o node (s1 ++ s2 ++ y) s r -> (length s1 <= length s)%nat) as Hmin.
  { intros s r (_ & Hsn & Hm). destruct Ht1 as [(k & Hk & _)|(_ & Hno & _)].
    - apply (Hm k s1 (s2 ++ y) Hk eq_refl). intros ty ->. exfalso.
      destruct Hfirst as [(_ & _ & F)|[(_ & F)|[(dg & _ & _ & F & _)|(c & -> & F & _)]]]; [..|by apply F in Hk];
        (by pose proof (pp_kind_unique o _ _ _ F Hk)) || (by pose proof (pp_kind_unique o _ _ _ (pp_punct o _ _ _ F) Hk)).
    - destruct Hfirst as [(_ & _ & F)|[(_ & F)|[(dg & _ & _ & F & _)|(c & -> & _)]]];
        [by apply Hno in F..|by destruct (Hno _ (pp_punct o _ _ _ F))|]. destruct s; simpl; [done|lia]. }
  assert (forall s r, longest_text o node (s1 ++ s2 ++ y) s r -> shape o s \/ length s = 1%nat -> s = s1) as Hsame.
  { intros s r Hlt Hsh. pose proof (Hmin s r Hlt) as Hle. destruct Hlt as (Heq & Hsn & _).
    destruct Hsh as [Hsh|Hl1].
    - by apply (not_longer t1 t2 s1 s2 y s r).
    - destruct (app_longer s1 (s2 ++ y) s r Heq Hle) as (w & -> & _). rewrite length_app in Hl1.
      assert (length s1 <> 0)%nat by (by destruct s1). destruct w; [by rewrite app_nil_r|]. cbn [length] in Hl1. unfold byte in *. lia. }
  destruct l as [|r|r|t r| | |]; cbn [lexed_right] in Hr.
  - by rewrite Hlook in Hr.
  - rewrite Hlook in Hr. congruence.
  - destruct Hr as [E0 E1]. by destruct (no_comment t1 t2 s1 s2 y Hne2 Hfirst Ht H2 E0 E1).
  - destruct Hr as (s & Hlt & Htx). assert (s = s1) as ->.
    { apply (Hsame s r Hlt). destruct (decide (1 < length s)%nat) as [Hl|Hl]; [left; by eapply text_shape|right].
      destruct Hlt as (_ & Hsn & _). destruct s as [|? [|? ?]]; simpl in *; done || lia. }
    destruct Hlt as (Heq & _). apply app_inv_head in Heq as <-. by rewrite (text_unique flags1 s1 t t1).
  - destruct Hr as [E0 E1]. by destruct (no_comment t1 t2 s1 s2 y Hne2 Hfirst Ht H2 E0 E1).
  - destruct Hr as (p & z & Hp & Heq). destruct (raw_idnum p Hp) as (P1 & P2 & P3 & P4). exfalso.
    assert (ISIDST (look s1 0) = true) as Hst.
    { rewrite <- (Hlook (s2 ++ y)), Heq, look_app_l by (destruct p; simpl; [done|lia]). done. }
    destruct (Hname Hst) as (N1 & N2 & N3).
    by apply (name_no_prefix o t1 t2 s1 s2 y p 34 z) in Heq.
  - destruct Hr as (s & r & Hlt & Hpp & Hid). exfalso.
    assert (s = s1) as -> by (apply (Hsame s r Hlt); left; left; exists PPName; split; [exact Hpp|done]).
    destruct Ht1 as [(k & Hk & Hk')|(_ & Hno & _)]; [|by apply Hno in Hpp].
    rewrite (pp_kind_unique o _ _ _ Hk Hpp) in Hk'. unfold token_of in Hk'. by rewrite Hid in Hk'.
Qed.
End Reread.
