(* ===== verification/LexLine.v ===== *)
(** * The tokens of a line, printed and read again

    The loop of _cpp_lex_direct over one logical line, which skips white space
    and comments and notes them in the flags of the next token; printing a list
    of tokens with the spaces PREV_WHITE and cpp_avoid_paste ask for; and the
    round trip: reading the printed text gives the tokens back. *)

From Stdlib Require Import ZArith Lia Bool String Ascii.
From stdpp Require Import base tactics list numbers.
From S2P Require Import Prelude Reader CppNum NumLit Stream Utf StrLit Symtab CleanLine Lex LexGrammar LexSpec LexPaste.

Local Open Scope string_scope.
Local Open Scope list_scope.
Local Open Scope Z_scope.

(** The next token of the line: "goto skipped_white" and, behind a comment
    that is not saved, "goto update_tokens_line". *)
Fixpoint lex_direct (tab : ucn_table) (o : cpp_options) (st : lex_flags) (node : list byte -> lex_node)
  (fuel : nat) (flags : Z) (base : list byte) (x : lexer) : W (option (lexed * lexer)) :=
  match fuel with
  | O => mret None
  | S fuel =>
      l ←w lex_token tab o st node flags base x ;;
      match fst l with
      | LexWhite r | LexComment r => lex_direct tab o st node fuel (Z.lor flags PREV_WHITE) r (snd l)
      | _ => mret (Some l)
      end
  end.

(** The tokens up to the end of the line; [flags] are those of its first
    token.  [None] where the line does not end here: at a raw string or a block
    comment that is not closed on it. *)
Fixpoint lex_line (tab : ucn_table) (o : cpp_options) (st : lex_flags) (node : list byte -> lex_node)
  (fuel : nat) (flags : Z) (base : list byte) (x : lexer) : W (option (list cpp_token * lexer)) :=
  match fuel with
  | O => mret None
  | S fuel =>
      l ←w lex_direct tab o st node (S (length base)) flags base x ;;
      match l with
      | Some (LexToken t r, x) =>
          ts ←w lex_line tab o st node fuel 0 r x ;;
          mret (match ts with Some (ts, x) => Some (t :: ts, x) | None => None end)
      | Some (LexNewline, x) => mret (Some ([], x))
      | _ => mret None
      end
  end.

(** Printing tokens behind [prev]: a space where one was, and where
    cpp_avoid_paste wants one. *)
Fixpoint print_line (o : cpp_options) (prev : option cpp_token) (ts : list cpp_token) : option (list byte) :=
  match ts with
  | [] => Some []
  | t :: ts =>
      sp ← cpp_spell_token t true;
      rest ← print_line o (Some t) ts;
      Some ((if flag (t_flags t) PREV_WHITE
                || match prev with Some p => cpp_avoid_paste o p t | None => false end
             then [32] else []) ++ sp ++ rest)
  end.

(** A token without the flags of its place. *)
Definition bare (t : cpp_token) : cpp_token :=
  mk_token (t_type t) (Z.land (t_flags t) (Z.lor DIGRAPH NAMED_OP)) (t_text t) (t_spelling t)
    (t_no t) (t_in_macro t).

Definition same_token (t t' : cpp_token) : Prop :=
  bare t' = bare t /\ (flag (t_flags t) PREV_WHITE = true -> flag (t_flags t') PREV_WHITE = true).

(** A literal left open takes the rest of the line; no space ends it. *)
Definition open_end (t : cpp_token) : bool :=
  ttype_eqb (t_type t) CPP_OTHER && (is_quote (look (t_text t) 0) || ISIDST (look (t_text t) 0)).

(** No literal is left open, and between neighbours there is a space, or
    cpp_avoid_paste puts one, or they are none of the pairs it misses. *)
Fixpoint gap_free (o : cpp_options) (ts : list cpp_token) : bool :=
  match ts with
  | [] => true
  | t1 :: rest =>
      negb (open_end t1)
      && match rest with
         | t2 :: _ => flag (t_flags t2) PREV_WHITE || cpp_avoid_paste o t1 t2 || negb (paste_gap o t1 t2)
         | [] => true
         end
      && gap_free o rest
  end.

Definition add_flags (flags : Z) (l : lexed) : lexed :=
  match l with
  | LexToken t r => LexToken (mk_token (t_type t) (Z.lor flags (t_flags t)) (t_text t) (t_spelling t)
                                (t_no t) (t_in_macro t)) r
  | l => l
  end.

Section Line.
Context (tab : ucn_table) (o : cpp_options) (st : lex_flags) (node : list byte -> lex_node).
Context (Hang : angled_headers st = false).

(** The flags a token has before it is lexed are kept, and decide nothing. *)
Lemma simple_token_flags ty f g base r :
  simple_token ty (Z.lor f g) base r = add_flags f (simple_token ty g base r).
Proof. done. Qed.

Lemma lex_punctuator_flags flags c base r :
  lex_punctuator o flags c base r = add_flags flags (lex_punctuator o 0 c base r).
Proof.
  unfold lex_punctuator. destruct (lex_operator o c r) as [[[ty [|]] n]|]; cbn; by rewrite ?Z.lor_0_r.
Qed.

Lemma lex_name_flags flags base r starts s x :
  snd (lex_name tab o st node flags base r starts s x)
  = (add_flags flags (fst (snd (lex_name tab o st node 0 base r starts s x))),
     snd (snd (lex_name tab o st node 0 base r starts s x))).
Proof.
  unfold lex_name. rewrite !snd_W_bind. destruct (snd (lex_identifier _ _ _ _ _ _ _ _)) as [[[id|] s'] r']; [|done].
  rewrite !snd_W_bind. cbn [fst snd mret W_ret]. unfold lex_name_token. cbv zeta.
  destruct (flag (ln_flags (node (li_name id))) NODE_OPERATOR); cbn [fst snd add_flags t_type t_flags t_text t_spelling t_no t_in_macro];
    by rewrite ?Z.lor_0_l, ?Z.lor_0_r.
Qed.

Lemma lex_token_flags flags base x :
  snd (lex_token tab o st node flags base x)
  = (add_flags flags (fst (snd (lex_token tab o st node 0 base x))),
     snd (snd (lex_token tab o st node 0 base x))).
Proof.
  assert (forall ty b r, simple_token ty flags b r = add_flags flags (simple_token ty 0 b r)) as Hsim.
  { intros. cbn. by rewrite Z.lor_0_r. }
  unfold lex_token. cbv zeta. destruct (is_nvspace _); [by rewrite !snd_W_bind|].
  destruct (_ =? 10); [done|].
  assert (forall b r y, snd (lex_number_token tab o st flags b r y)
    = (add_flags flags (fst (snd (lex_number_token tab o st 0 b r y))), snd (snd (lex_number_token tab o st 0 b r y)))) as Hnum.
  { intros b r y. unfold lex_number_token. rewrite !snd_W_bind. destruct (snd (lex_number _ _ _ _ _ _)) as [[text s'] r'].
    rewrite !snd_W_bind. cbn. by rewrite Z.lor_0_r. }
  assert (forall b y, snd (lex_literal o st node flags b y)
    = (add_flags flags (fst (snd (lex_literal o st node 0 b y))), snd (snd (lex_literal o st node 0 b y)))) as Hlit.
  { intros b y. unfold lex_literal. destruct (isc _ _); [done|]. rewrite !snd_W_bind. cbn. by rewrite Z.lor_0_r. }
  destruct (ISDIGIT _); [apply Hnum|]. destruct ((_ || _ || _ || _) && _); [apply Hlit|].
  destruct (ISIDST _); [apply lex_name_flags|]. destruct (_ || _); [apply Hlit|].
  destruct (isc _ "/").
  { unfold lex_slash. cbv zeta. destruct (next_is _ _ _); [rewrite !snd_W_bind; cbn [fst snd mret W_ret]; by destruct (snd (block_comment _ _))|].
    destruct (_ && _).
    - rewrite !snd_W_bind. cbn. destruct (fst (snd _)); cbn; by rewrite ?Z.lor_0_r.
    - cbn. by rewrite Z.lor_0_r. }
  rewrite Hang, andb_false_r. destruct (_ && _); [apply Hnum|]. destruct (_ || _).
  - rewrite !snd_W_bind. destruct (snd (forms_identifier_p _ _ _ _ _ _)) as [[[|] s'] r']; [apply lex_name_flags|].
    cbn. by rewrite lex_punctuator_flags.
  - cbn. by rewrite lex_punctuator_flags.
Qed.

Lemma flag_land a m f : Z.land m f = f -> flag (Z.land a m) f = flag a f.
Proof. intros H. unfold flag. by rewrite <- Z.land_assoc, H. Qed.

Lemma bare_digraph t : flag (t_flags (bare t)) DIGRAPH = flag (t_flags t) DIGRAPH.
Proof. by apply flag_land. Qed.
Lemma bare_named_op t : flag (t_flags (bare t)) NAMED_OP = flag (t_flags t) NAMED_OP.
Proof. by apply flag_land. Qed.

Lemma bare_spell t b : cpp_spell_token (bare t) b = cpp_spell_token t b.
Proof. unfold cpp_spell_token. by rewrite bare_digraph, bare_named_op. Qed.

Lemma bare_avoid_paste t1 t2 : cpp_avoid_paste o (bare t1) (bare t2) = cpp_avoid_paste o t1 t2.
Proof. unfold cpp_avoid_paste. by rewrite !bare_named_op, bare_digraph. Qed.

Lemma bare_paste_gap t1 t2 : paste_gap o (bare t1) (bare t2) = paste_gap o t1 t2.
Proof. unfold paste_gap. by rewrite !bare_named_op. Qed.

Lemma bare_add_flags flags t : plain_token_flags flags ->
  bare (mk_token (t_type t) (Z.lor flags (t_flags t)) (t_text t) (t_spelling t) (t_no t) (t_in_macro t)) = bare t.
Proof.
  intros [Hd Hn]. unfold bare. cbn. f_equal. rewrite Z.land_lor_distr_l.
  replace (Z.land flags (Z.lor DIGRAPH NAMED_OP)) with 0; [by rewrite Z.lor_0_l|].
  unfold flag in *. apply negb_false_iff, Z.eqb_eq in Hd, Hn. by rewrite Z.land_lor_distr_r, Hd, Hn.
Qed.

(** White space as a second token. *)
Definition white (c : byte) : cpp_token := mk_token CPP_OTHER 0 [c] [] 0 false.

Lemma white_text c : c = 32 \/ c = 10 -> text_of_token o node 0 [c] (white c).
Proof.
  intros Hc. right. split_and!; [done| |by left]. intros k Hk. apply pp_head in Hk.
  destruct k as [| |ty|ty dg]; cbn [kind_head] in Hk; change (look [c] 0) with c in *.
  - destruct Hc as [-> | ->]; by destruct Hk as [?|[?|?]].
  - destruct Hc as [-> | ->]; by destruct Hk as [?|[? ?]].
  - destruct Hk as [Hk|[Hk|(pre & q & ty' & y & Hne & _ & Heq)]]; [by destruct Hc as [-> | ->]..|].
    apply (f_equal length) in Heq. rewrite length_app in Heq. destruct pre; [done|simpl in Heq; lia].
  - apply punct_head in Hk as (_ & _ & _ & _ & _ & _ & H1 & H2). change (look [c] 0) with c in *.
    by destruct Hc as [-> | ->].
Qed.

Lemma white_touch t c : c = 32 \/ c = 10 -> open_end t = false -> flag (t_flags t) NAMED_OP = false \/ t_type t <> CPP_OTHER ->
  may_touch o t (white c).
Proof.
  intros Hc Ho Hn. split.
  - unfold cpp_avoid_paste. change (t_type (white c)) with CPP_OTHER. change (t_flags (white c)) with 0.
    change (t_text (white c)) with [c].
    change (flag 0 NAMED_OP) with false. change (flag 0 DIGRAPH) with false. cbv zeta iota.
    change (TOKEN_SPELL CPP_OTHER) with SPELL_LITERAL. cbv iota. change (look [c] 0) with c.
    destruct (if flag (t_flags t) NAMED_OP then CPP_NAME else t_type t); cbn;
      try (by destruct (_ <=? _)); rewrite ?andb_false_r; try done;
      destruct Hc as [-> | ->]; cbn; by rewrite ?andb_false_r.
  - unfold paste_gap. change (t_type (white c)) with CPP_OTHER. change (t_flags (white c)) with 0.
    change (t_text (white c)) with [c].
    change (flag 0 NAMED_OP) with false. cbv zeta iota.
    change (TOKEN_SPELL CPP_OTHER) with SPELL_LITERAL. cbv iota. change (look [c] 0) with c.
    destruct (flag (t_flags t) NAMED_OP) eqn:En.
    + by destruct Hc as [-> | ->].
    + unfold open_end in Ho. destruct (t_type t); try done; try (by destruct Hc as [-> | ->]);
        try (destruct Hc as [-> | ->]; cbn; unfold DIGIT_SEP; by rewrite ?andb_false_r, ?orb_false_r).
Qed.

(** A token as it is lexed, alone on its line. *)
Definition alone (s : list byte) (t : cpp_token) : Prop :=
  s <> [] /\ exists x x',
    snd (lex_token tab o st node 0 (s ++ [10]) x) = (LexToken (bare t) [10], x').

Lemma plain_zero : plain_token_flags 0.
Proof. done. Qed.
Lemma plain_white : plain_token_flags PREV_WHITE.
Proof. done. Qed.

Lemma alone_text s t : alone s t -> text_of_token o node 0 s (bare t).
Proof.
  intros [Hne (x & x' & H)]. eapply read_alone; [done|exact H|done|]. by eapply alone_not_less_scope.
Qed.

Lemma alone_spell s t : operators_marked node -> alone s t -> cpp_spell_token t true = Some s.
Proof.
  intros Hop H. apply alone_text in H. rewrite <- (bare_spell t true).
  destruct H as [(k & Hk & Ht)|(-> & _)]; [|done]. by apply (token_of_spelling o node 0 k s (bare t) Hop plain_zero Hk).
Qed.

Lemma open_end_bare t : open_end (bare t) = open_end t.
Proof. done. Qed.

Lemma bare_idem t : bare (bare t) = bare t.
Proof. unfold bare. cbn. f_equal. by rewrite <- Z.land_assoc, Z.land_diag. Qed.

(** A CPP_OTHER token is no named operator. *)
Lemma alone_other s t : operators_marked node -> alone s t ->
  flag (t_flags t) NAMED_OP = false \/ t_type t <> CPP_OTHER.
Proof.
  intros Hop H. apply alone_text in H. rewrite <- (bare_named_op t). change (t_type t) with (t_type (bare t)).
  generalize dependent (bare t). intros b H.
  destruct H as [(k & Hk & Ht)|(-> & _)]; [|by left].
  destruct k as [| |ty|ty dg]; [|left..]; try (by injection Ht as <-).
  - unfold token_of in Ht. destruct (ident_name s) as [n|]; [|done]. cbn [mbind option_bind] in Ht.
    injection Ht as <-. cbn. destruct (flag (ln_flags (node n)) NODE_OPERATOR) eqn:E; [right|by left].
    apply Hop, operator_array_ok in E as [E _]. intros E'. by rewrite E' in E.
  - injection Ht as <-. by destruct dg.
Qed.

(** Whatever is printed behind a token: it is read again, and the rest is left. *)
Lemma read_again s1 t1 s2 t2 y flags x : plain_token_flags flags -> alone s1 t1 -> s2 <> [] ->
  text_of_token o node 0 s2 t2 -> may_touch o (bare t1) t2 ->
  exists t1' x', bare t1' = bare t1 /\
    (flag flags PREV_WHITE = true -> flag (t_flags t1') PREV_WHITE = true) /\
    snd (lex_token tab o st node flags (s1 ++ s2 ++ y) x) = (LexToken t1' (s2 ++ y), x').
Proof.
  intros Hf [Hne (x1 & x1' & H)] Hne2 H2 Ht.
  destruct (reread tab o st node Hang 0 0 s1 (bare t1) x1 x1' s2 t2 y x plain_zero plain_zero Hne Hne2 H H2 Ht) as [x' Hr].
  change (snd (lex_token tab o st node 0 (s1 ++ s2 ++ y) x) = (LexToken (bare t1) (s2 ++ y), x')) in Hr.
  pose proof (lex_token_flags flags (s1 ++ s2 ++ y) x) as E. rewrite Hr in E. cbn [fst snd add_flags] in E.
  eexists _, x'. split; [|split; [|exact E]]; [by rewrite bare_add_flags, bare_idem|].
  intros Hw. cbn [t_flags]. by rewrite flag_lor, Hw.
Qed.

Lemma lex_direct_token fuel flags base x t r x' :
  snd (lex_token tab o st node flags base x) = (LexToken t r, x') ->
  snd (lex_direct tab o st node (S fuel) flags base x) = Some (LexToken t r, x').
Proof. intros H. cbn [lex_direct]. rewrite snd_W_bind, H. done. Qed.

(** One space is skipped. *)
Lemma lex_direct_space fuel flags base x : is_nvspace (look base 0) = false -> base <> [] ->
  snd (lex_direct tab o st node (S fuel) flags (32 :: base) x)
  = snd (lex_direct tab o st node fuel (Z.lor flags PREV_WHITE) base x).
Proof.
  intros Hw Hne. cbn [lex_direct]. rewrite snd_W_bind. unfold lex_token.
  change (look (32 :: base) 0) with 32. change (drop 1 (32 :: base)) with base.
  change (is_nvspace 32) with true. cbv iota zeta. rewrite snd_W_bind. cbn [fst snd mret W_ret].
  unfold skip_whitespace. rewrite snd_W_bind. destruct base as [|c base]; [done|].
  change (look (c :: base) 0) with c in Hw. cbn [skip_whitespace_loop]. rewrite !snd_W_bind, Hw. done.
Qed.

Lemma printed_alone_head s t w : alone s t -> is_nvspace (look (s ++ w) 0) = false /\ s ++ w <> [].
Proof.
  intros [Hne (x & x' & H)]. apply lex_token_first in H as [H _].
  rewrite look_app_l in H |- * by (destruct s; simpl; [done|lia]). split; [done|]. by destruct s.
Qed.

(** What is printed behind a token starts with a text that may touch it. *)
Lemma print_tail_touch s1 t1 ts p : operators_marked node -> Forall (fun t => exists s, alone s t) ts ->
  alone s1 t1 -> gap_free o (t1 :: ts) = true -> print_line o (Some t1) ts = Some p ->
  exists s2 t2 y, s2 <> [] /\ text_of_token o node 0 s2 t2 /\ may_touch o (bare t1) t2 /\ p ++ [10] = s2 ++ y.
Proof.
  intros Hop Hall H1 Hgap Hp. cbn [gap_free] in Hgap. rewrite !andb_true_iff, negb_true_iff in Hgap.
  destruct Hgap as [[Ho Hpair] _].
  assert (flag (t_flags (bare t1)) NAMED_OP = false \/ t_type (bare t1) <> CPP_OTHER) as Hno.
  { rewrite bare_named_op. by destruct (alone_other s1 t1 Hop H1); [left|right]. }
  destruct ts as [|t2 ts].
  - injection Hp as <-. exists [10], (white 10), []. split_and!; [done|apply white_text; by right| |done].
    by apply white_touch; [right|..].
  - cbn [print_line] in Hp. inversion Hall as [|? ? [s2 H2] _]; subst.
    rewrite (alone_spell s2 t2 Hop H2) in Hp. cbn [mbind option_bind] in Hp.
    destruct (print_line o (Some t2) ts) as [rest|]; [|done]. cbn [mbind option_bind] in Hp. injection Hp as <-.
    destruct (flag (t_flags t2) PREV_WHITE || cpp_avoid_paste o t1 t2) eqn:E.
    + exists [32], (white 32), ((s2 ++ rest) ++ [10]). split_and!; [done|apply white_text; by left| |done].
      by apply white_touch; [left|..].
    + exists s2, (bare t2), (rest ++ [10]). cbn [orb] in Hpair. apply negb_true_iff in Hpair.
      apply orb_false_iff in E as [_ E]. split_and!; [by destruct H2|by apply alone_text| |cbn [app]; by rewrite <- app_assoc].
      split; [by rewrite bare_avoid_paste|by rewrite bare_paste_gap].
Qed.

(** The printed text, read from the flags [flags] on. *)
Lemma reprint_read ts : operators_marked node -> Forall (fun t => exists s, alone s t) ts ->
  gap_free o ts = true -> forall prev flags fuel x, plain_token_flags flags ->
  exists p, print_line o prev ts = Some p /\
    ((length p < fuel)%nat -> exists ts' x',
       snd (lex_line tab o st node fuel flags (p ++ [10]) x) = Some (ts', x') /\ Forall2 same_token ts ts').
Proof.
  intros Hop Hall. induction Hall as [|t ts [s H] Hall IH]; intros Hgap prev flags fuel x Hf.
  - exists []. split; [done|]. intros Hl. destruct fuel as [|fuel]; [simpl in Hl; lia|]. by exists [], x.
  - assert (gap_free o ts = true) as Hgap' by (cbn [gap_free] in Hgap; by apply andb_true_iff in Hgap as [_ ?]).
    destruct (IH Hgap' (Some t) 0 0%nat x plain_zero) as (p & Hp & _).
    destruct (print_tail_touch s t ts p Hop Hall H Hgap Hp) as (s2 & t2 & y & Hne2 & H2 & Ht & Heq).
    cbn [print_line]. rewrite (alone_spell s t Hop H), Hp. cbn [mbind option_bind].
    set (sp := flag (t_flags t) PREV_WHITE || _). eexists. split; [done|]. intros Hl.
    destruct fuel as [|fuel]; [lia|].
    assert ((length p < fuel)%nat) as Hl'.
    { destruct H as [Hne _]. rewrite !length_app in Hl. destruct s; [done|]. cbn [length] in Hl. unfold byte in *. lia. }
    cbn [lex_line]. rewrite snd_W_bind.
    match goal with |- context [lex_direct _ _ _ _ _ _ ?b _] => set (base := b) end.
    assert (base = (if sp then [32] else []) ++ s ++ s2 ++ y) as Hbase.
    { unfold base. rewrite <- !app_assoc. by rewrite <- Heq. }
    assert (exists t' x1, same_token t t' /\ snd (lex_direct tab o st node (S (length base)) flags base x)
      = Some (LexToken t' (p ++ [10]), x1)) as (t' & x1 & Hsame & ->).
    { rewrite Heq, Hbase. destruct sp eqn:Esp.
      - cbn [app length]. destruct (printed_alone_head s t (s2 ++ y) H) as [Hw Hne].
        rewrite lex_direct_space by done.
        assert (plain_token_flags (Z.lor flags PREV_WHITE)) as Hf'.
        { destruct Hf as [Hd Hn]. split; rewrite flag_lor; [by rewrite Hd|by rewrite Hn]. }
        destruct (read_again s t s2 t2 y _ x Hf' H Hne2 H2 Ht) as (t' & x' & Hb & Hpw & Hr).
        exists t', x'. split; [split; [done|]|by apply lex_direct_token].
        intros _. apply Hpw. rewrite flag_lor. by rewrite orb_true_r.
      - cbn [app]. destruct (read_again s t s2 t2 y _ x Hf H Hne2 H2 Ht) as (t' & x' & Hb & _ & Hr).
        exists t', x'. split; [split; [done|]|by apply lex_direct_token].
        intros Hw. unfold sp in Esp. by rewrite Hw in Esp. }
    rewrite snd_W_bind. destruct (IH Hgap' (Some t) 0 fuel x1 plain_zero) as (p' & Hp' & Hr).
    rewrite Hp in Hp'. injection Hp' as <-. destruct (Hr Hl') as (ts' & x' & -> & Hts).
    exists (t' :: ts'), x'. split; [done|by constructor].
Qed.
End Line.

(** ** Results *)

(** C17: printing tokens and reading them again gives them back. The text has a
    space where a token had one before it and where cpp_avoid_paste asks for
    one; the tokens read from it have the types, the texts and spellings, and
    the digraph and named-operator flags they had, and none loses its
    PREV_WHITE. No neighbours may be one of the pairs cpp_avoid_paste misses
    (paste_gap), and no literal is left open. *)
Theorem printed_tokens_read_back (tab : ucn_table) (o : cpp_options) (st : lex_flags)
  (node : list byte -> lex_node) ts flags x :
  angled_headers st = false -> operators_marked node -> plain_token_flags flags ->
  Forall (fun t => exists s, alone tab o st node s t) ts -> gap_free o ts = true ->
  exists p ts' x', print_line o None ts = Some p /\
    snd (lex_line tab o st node (S (length p)) flags (p ++ [10]) x) = Some (ts', x') /\
    Forall2 same_token ts ts'.
Proof.
  intros Hang Hop Hf Hall Hgap.
  destruct (reprint_read tab o st node Hang ts Hop Hall Hgap None flags 0%nat x Hf) as (p & Hp & _).
  destruct (reprint_read tab o st node Hang ts Hop Hall Hgap None flags (S (length p)) x Hf) as (p' & Hp' & Hr).
  rewrite Hp in Hp'. injection Hp' as <-. destruct Hr as (ts' & x' & H1 & H2); [lia|]. by exists p, ts', x'.
Qed.

(** The tokens of "x+ +f(.5)": the two plus signs stand together, as behind a
    macro expansion. *)
Definition sample_line : list cpp_token :=
  [mk_token CPP_NAME 0 (bytes "x") (bytes "x") 0 false; mk_token CPP_PLUS 0 (bytes "+") [] 0 false;
   mk_token CPP_PLUS 0 (bytes "+") [] 0 false; mk_token CPP_NAME PREV_WHITE (bytes "f") (bytes "f") 0 false;
   mk_token CPP_OPEN_PAREN 0 (bytes "(") [] 0 false; mk_token CPP_NUMBER 0 (bytes ".5") [] 0 false;
   mk_token CPP_CLOSE_PAREN 0 (bytes ")") [] 0 false].

Lemma printed_tokens_read_back_witness :
  exists p ts' x', print_line gnuc17_options None sample_line = Some p /\
    snd (lex_line sample_table gnuc17_options plain_flags (mark_named_operators 0 (fun _ => no_node)) (S (length p))
           0 (p ++ [10]) (mk_lexer false false)) = Some (ts', x') /\
    Forall2 same_token sample_line ts'.
Proof.
  apply printed_tokens_read_back; [done| |done| |by vm_compute].
  - by apply mark_named_operators_marked.
  - repeat constructor;
      match goal with |- exists s, alone _ _ _ _ s ?t =>
        exists (match cpp_spell_token t true with Some s => s | None => [] end) end;
      (split; [by vm_compute|exists (mk_lexer false false), (mk_lexer false false); by vm_compute]).
Defined.

(** Whether two texts are tokens when they stand alone, are printed without a
    space by cpp_avoid_paste, and are read differently then. *)
Definition misread (o : cpp_options) (s1 s2 : list byte) : bool :=
  let x := mk_lexer false false in
  let lex s := fst (snd (lex_token sample_table o plain_flags (fun _ => no_node) 0 s x)) in
  match lex (s1 ++ [10]), lex (s2 ++ [10]), lex (s1 ++ s2 ++ [10]) with
  | LexToken t1 r1, LexToken t2 r2, l =>
      bytes_eqb r1 [10] && bytes_eqb r2 [10] && negb (cpp_avoid_paste o t1 t2) && paste_gap o t1 t2
      && match l with LexToken t r => negb (bytes_eqb (t_text t) (t_text t1)) | _ => true end
  | _, _, _ => false
  end.

(** Cpp_avoid_paste, said to be conservative, is not: each of these pairs
    of tokens is printed without a space and read differently then. *)
Theorem avoid_paste_misses_pairs :
  let cxx := cpp_set_lang CLK_GNUCXX17 gnuc17_options in
  forallb (fun p => misread gnuc17_options (bytes (fst p)) (bytes (snd p)))
    [("x", "L'a'"); ("x", "1.5"); ("x", "u'a'"); ("L", "u'b'"); ("1", "L'a'")] = true /\
  forallb (fun p => misread cxx (bytes (fst p)) (bytes (snd p)))
    [(".", "*"); ("<:", ":"); ("1", "'2'"); ("'a'", "x"); ("R", "u'b'")] = true.
Proof. by vm_compute. Qed.
