(* ===== verification/MacroDef.v ===== *)
(** * Macro definitions

    The part of macro.c behind #define and #undef: the tracker of __VA_OPT__,
    parameter lists, the replacement list with its # and ## operators, the
    comparison of redefinitions, and entering a definition.  The tokens of the
    line are a list, as _cpp_lex_direct delivers them; at its end it delivers
    CPP_EOF.

    MacroDefSpec has the theorems. *)

From Stdlib Require Import ZArith Lia Bool String Ascii.
From stdpp Require Import base tactics list numbers gmap.
From S2P Require Import Prelude Reader CppNum NumLit Stream Utf StrLit Symtab CleanLine Lex.

Local Open Scope string_scope.
Local Open Scope list_scope.
Local Open Scope Z_scope.

(** ** Flags, macros and nodes *)

Definition STRINGIFY_ARG : Z := 4.
Definition PASTE_LEFT : Z := 8.
Definition BOL : Z := 64.
Definition SP_DIGRAPH : Z := 256.
Definition SP_PREV_WHITE : Z := 512.
Definition NO_EXPAND : Z := 1024.
Definition NODE_WARN : Z := 8.

Definition set_flags (f : Z) (t : cpp_token) : cpp_token :=
  mk_token (t_type t) f (t_text t) (t_spelling t) (t_no t) (t_in_macro t).
Definition add_flag (f : Z) (t : cpp_token) : cpp_token := set_flags (Z.lor (t_flags t) f) t.
Definition drop_flag (f : Z) (t : cpp_token) : cpp_token := set_flags (Z.land (t_flags t) (Z.lnot f)) t.
Definition has (f : Z) (t : cpp_token) : bool := flag (t_flags t) f.

(** A macro: [m_params] are the spellings of its parameters, [m_tokens] the
    [count] tokens of its replacement list. *)
Record cpp_macro : Type := mk_macro {
  m_params : list (list byte);
  m_paramc : Z;
  m_fun_like : bool;
  m_variadic : bool;
  m_syshdr : bool;
  m_extra_tokens : bool;
  m_tokens : list cpp_token
}.

Inductive node_value : Type := NVoid | NUser (m : cpp_macro) | NBuiltin.

Record macro_node : Type := mk_mnode { mn_value : node_value; mn_flags : Z }.

(** The options only macros read. *)
Record macro_options : Type := mk_mopts {
  std : bool;
  track_macro_expansion : Z;
  discard_comments_in_macro_exp : bool;
  warn_variadic_macros : bool;
  warn_builtin_macro_redefined : bool
}.

Definition default_macro_options : macro_options := mk_mopts false 2 true true true.

(** ** The tracker of __VA_OPT__ *)

Inductive update_type : Type := VERROR | VDROP | VINCLUDE | VBEGIN | VEND.
#[export] Instance update_type_eq_dec : EqDecision update_type.
Proof. solve_decision. Defined.

Record vaopt_state : Type := mk_vaopt {
  m_allowed : bool;
  m_vvariadic : bool;
  m_last_was_paste : bool;
  m_state : Z
}.

Definition vaopt_init (is_variadic any_args : bool) : vaopt_state :=
  mk_vaopt any_args is_variadic false 0.

Definition vaopt_paste_error : string := "'##' cannot appear at either end of __VA_OPT__".

Definition names_node (name : string) (t : cpp_token) : bool :=
  type_is t CPP_NAME && bytes_eqb (t_text t) (bytes name).

(** vaopt_state::update. *)
Definition vaopt_update (v : vaopt_state) (token : cpp_token) : W (update_type * vaopt_state) :=
  let at_state n := mk_vaopt (m_allowed v) (m_vvariadic v) (m_last_was_paste v) n in
  if negb (m_vvariadic v) then mret (VINCLUDE, v)
  else if names_node "__VA_OPT__" token then
    if 0 <? m_state v then
      cpp_error CPP_DL_ERROR "__VA_OPT__ may not appear in a __VA_OPT__" ;;w mret (VERROR, v)
    else mret (VBEGIN, at_state (m_state v + 1))
  else if m_state v =? 1 then
    if negb (type_is token CPP_OPEN_PAREN) then
      cpp_error CPP_DL_ERROR "__VA_OPT__ must be followed by an open parenthesis" ;;w mret (VERROR, v)
    else mret (VDROP, at_state (m_state v + 1))
  else if 2 <=? m_state v then
    if (m_state v =? 2) && type_is token CPP_PASTE then
      cpp_error CPP_DL_ERROR vaopt_paste_error ;;w mret (VERROR, v)
    else
      let n := if m_state v =? 2 then m_state v + 1 else m_state v in
      let was_paste := m_last_was_paste v in
      let after last n := mk_vaopt (m_allowed v) (m_vvariadic v) last n in
      let include := if m_allowed v then VINCLUDE else VDROP in
      if type_is token CPP_PASTE then mret (include, after true n)
      else if type_is token CPP_OPEN_PAREN then mret (include, after false (n + 1))
      else if type_is token CPP_CLOSE_PAREN then
        if n - 1 =? 2 then
          if was_paste then
            cpp_error CPP_DL_ERROR vaopt_paste_error ;;w mret (VERROR, after false 0)
          else mret (VEND, after false 0)
        else mret (include, after false (n - 1))
      else mret (include, after false n)
  else mret (VINCLUDE, v).

(** vaopt_state::completed. *)
Definition vaopt_completed (v : vaopt_state) : W bool :=
  when (m_vvariadic v && negb (m_state v =? 0)) (cpp_error CPP_DL_ERROR "unterminated __VA_OPT__") ;;w
  mret (m_state v =? 0).

Section Define.
Context (o : cpp_options) (mo : macro_options) (syshdr : bool).

(** ** Parameter lists *)

(** What _cpp_save_parameter has saved: the canonical name and the spelling of
    a parameter.  [None] is an entry that was counted but not written. *)
Definition saved_param : Type := option (list byte * list byte).

(** The node of a parameter is an NT_MACRO_ARG while its definition is read;
    its index is an unsigned short, counted from 1. *)
Fixpoint arg_index_from (n : Z) (ps : list saved_param) (name : list byte) : option Z :=
  match ps with
  | [] => None
  | Some (node, _) :: ps => if bytes_eqb node name then Some (n mod 2 ^ 16) else arg_index_from (n + 1) ps name
  | None :: ps => arg_index_from (n + 1) ps name
  end.
Definition arg_index : list saved_param -> list byte -> option Z := arg_index_from 1.

Definition _cpp_save_parameter (ps : list saved_param) (node spelling : list byte)
  : W (bool * list saved_param) :=
  match arg_index ps node with
  | Some _ => cpp_error CPP_DL_ERROR "duplicate macro parameter '%s'" ;;w mret (false, ps ++ [None])
  | None => mret (true, ps ++ [Some (node, spelling)])
  end.

(** The error of parse_params, by what it has read. *)
Definition bad_parameter (prev_ident variadic eof : bool) : W unit :=
  cpp_error CPP_DL_ERROR
    (if variadic then "expected ')' after '...'"
     else match prev_ident, eof with
          | false, false => "expected parameter name, found '%s'"
          | true, false => "expected ',' or ')', found '%s'"
          | false, true => "expected parameter name before end of line"
          | true, true => "expected ')' before end of line"
          end).

Definition ellipsis_diagnostics (prev_ident : bool) : W unit :=
  if negb prev_ident then
    if negb (c99 o) && cpp_pedantic o && warn_variadic_macros mo then
      cpp_pedwarning CPP_W_VARIADIC_MACROS
        (if cplusplus o then "anonymous variadic macros were introduced in C++11"
         else "anonymous variadic macros were introduced in C99")
    else when ((0 <? cpp_warn_c90_c99_compat o) && negb (cplusplus o))
           (cpp_error CPP_DL_WARNING "anonymous variadic macros were introduced in C99")
  else when (cpp_pedantic o && warn_variadic_macros mo)
         (cpp_pedwarning CPP_W_VARIADIC_MACROS
            (if cplusplus o then "ISO C++ does not permit named variadic macros"
             else "ISO C does not permit named variadic macros")).

(** The state of parse_params when it returns: whether the list was right, the
    parameters, whether the macro is variadic, and the tokens left. *)
Record params_result : Type := mk_params {
  pr_ok : bool;
  pr_params : list saved_param;
  pr_variadic : bool;
  pr_rest : list cpp_token
}.

Fixpoint parse_params_loop (ps : list saved_param) (prev_ident variadic : bool) (ts : list cpp_token)
  : W params_result :=
  let bad token rest :=
    bad_parameter prev_ident variadic (type_is token CPP_EOF) ;;w
    mret (mk_params false ps variadic rest) in
  match ts with
  | [] => bad eof_token []
  | token :: ts =>
      match t_type token with
      | CPP_COMMENT =>
          if negb (discard_comments_in_macro_exp mo) then parse_params_loop ps prev_ident variadic ts
          else bad token ts
      | CPP_NAME =>
          if prev_ident || variadic then bad token ts
          else
            s ←w _cpp_save_parameter ps (t_text token) (t_spelling token) ;;
            if fst s : bool then parse_params_loop (snd s) true variadic ts
            else mret (mk_params false ps variadic ts)
      | CPP_CLOSE_PAREN =>
          if prev_ident || (match ps with [] => true | _ => false end) || variadic
          then mret (mk_params true ps variadic ts)
          else bad token ts
      | CPP_COMMA =>
          if negb prev_ident || variadic then bad token ts
          else parse_params_loop ps false variadic ts
      | CPP_ELLIPSIS =>
          if variadic then bad token ts
          else
            s ←w (if negb prev_ident
                  then _cpp_save_parameter ps (bytes "__VA_ARGS__") (bytes "__VA_ARGS__")
                  else mret (true, ps)) ;;
            ellipsis_diagnostics prev_ident ;;w
            parse_params_loop (snd s) prev_ident true ts
      | _ => bad token ts
      end
  end.

Definition parse_params (ts : list cpp_token) : W params_result := parse_params_loop [] false false ts.

(** ** Replacement lists *)

Fixpoint idchars (r : list byte) : list byte * list byte :=
  match r with
  | c :: r' => if ISIDNUM c || (isc c "$" && dollars_in_ident o)
               then let run := idchars r' in (c :: fst run, snd run) else ([], r)
  | [] => ([], [])
  end.

Fixpoint skip_to_id (r : list byte) : list byte :=
  match r with
  | c :: r' => if ISIDST c || (isc c "$" && dollars_in_ident o) then r else skip_to_id r'
  | [] => []
  end.

(** check_trad_stringification, on the text between the quotes. *)
Fixpoint check_trad_loop (fuel : nat) (params : list (list byte)) (r : list byte) : W unit :=
  match fuel, r with
  | S fuel, _ :: _ =>
      let '(id, r) := idchars (skip_to_id r) in
      when (existsb (bytes_eqb id) params)
        (cpp_warning CPP_W_TRADITIONAL "macro argument '%s' would be stringified in traditional C") ;;w
      check_trad_loop fuel params r
  | _, _ => mret tt
  end.

Definition check_trad_stringification (params : list (list byte)) (string : list byte) : W unit :=
  let inside := removelast (drop 1 string) in
  check_trad_loop (length inside) params inside.

(** A parameter becomes a CPP_MACRO_ARG with its index. *)
Definition lex_expansion_token (ps : list saved_param) (token : cpp_token) : W cpp_token :=
  match (if type_is token CPP_NAME then arg_index ps (t_text token) else None) with
  | Some n => mret (mk_token CPP_MACRO_ARG (t_flags token) [] (t_spelling token) n false)
  | None =>
      when (cpp_warn_traditional o && negb (Z.of_nat (length ps) mod 2 ^ 16 =? 0)
            && (type_is token CPP_STRING || type_is token CPP_CHAR))
        (check_trad_stringification (omap (option_map snd) ps) (t_text token)) ;;w
      mret token
  end.

Definition paste_op_error_msg : string := "'##' cannot appear at either end of a macro expansion".

(** The loop over the replacement list.  [rev] has the tokens of the macro so
    far, the last one first; [count] is their number. *)
Record expansion : Type := mk_exp {
  x_rev : list cpp_token;
  x_following_paste_op : bool;
  x_extra : bool;
  x_vaopt : vaopt_state
}.

Definition stringify_flags (hash token : cpp_token) : cpp_token :=
  let t := if has PREV_WHITE token then add_flag SP_PREV_WHITE token else token in
  let t := if has DIGRAPH hash then add_flag SP_DIGRAPH t else t in
  let t := add_flag STRINGIFY_ARG (drop_flag PREV_WHITE t) in
  add_flag (Z.land (t_flags hash) PREV_WHITE) t.

Definition is_asm : bool := c_lang_index (lang o) =? c_lang_index CLK_ASM.

(** The token behind the tokens [rev] of the list; [None] when the definition is
    rejected. *)
Definition append_token (x : expansion) (rev : list cpp_token) (token : cpp_token) : W (option expansion) :=
  if type_is token CPP_PASTE then
    match rev with
    | [] => cpp_error CPP_DL_ERROR paste_op_error_msg ;;w mret None
    | prev :: rev' =>
        v ←w vaopt_update (x_vaopt x) token ;;
        mret match fst v with
             | VERROR => None
             | _ =>
                 if x_following_paste_op x then
                   Some (mk_exp (mk_token (t_type token) (t_flags token) (t_text token) (t_spelling token)
                                   (Z.of_nat (length rev)) (t_in_macro token) :: rev) true true (snd v))
                 else
                   let prev := add_flag PASTE_LEFT prev in
                   let prev := if has DIGRAPH token then add_flag SP_DIGRAPH prev else prev in
                   let prev := if has PREV_WHITE token then add_flag SP_PREV_WHITE prev else prev in
                   Some (mk_exp (prev :: rev') true (x_extra x) (snd v))
             end
    end
  else
    v ←w vaopt_update (x_vaopt x) token ;;
    mret match fst v with
         | VERROR => None
         | _ => Some (mk_exp (token :: rev) false (x_extra x) (snd v))
         end.

(** One token of the list, with the check on the # before it. *)
Definition expansion_step (fun_like : bool) (x : expansion) (token : cpp_token) : W (option expansion) :=
  match x_rev x with
  | hash :: rev =>
      if type_is hash CPP_HASH && fun_like then
        if type_is token CPP_MACRO_ARG then append_token x rev (stringify_flags hash token)
        else if negb is_asm then
          cpp_error CPP_DL_ERROR "'#' is not followed by a macro parameter" ;;w mret None
        else append_token x (x_rev x) token
      else append_token x (x_rev x) token
  | [] => append_token x [] token
  end.

(** At the end of the line. *)
Definition expansion_end (fun_like : bool) (x : expansion) : W (option expansion) :=
  if (match x_rev x with hash :: _ => type_is hash CPP_HASH | [] => false end) && fun_like && negb is_asm then
    cpp_error CPP_DL_ERROR "'#' is not followed by a macro parameter" ;;w mret None
  else if x_following_paste_op x then
    cpp_error CPP_DL_ERROR paste_op_error_msg ;;w mret None
  else
    c ←w vaopt_completed (x_vaopt x) ;;
    mret (if (c : bool) then Some x else None).

Fixpoint expansion_loop (fun_like : bool) (ps : list saved_param) (x : expansion) (ts : list cpp_token)
  : W (option expansion) :=
  match ts with
  | [] => expansion_end fun_like x
  | token :: ts =>
      if type_is token CPP_EOF then expansion_end fun_like x
      else
        t ←w lex_expansion_token ps token ;;
        s ←w expansion_step fun_like x t ;;
        match s with
        | None => mret None
        | Some x => expansion_loop fun_like ps x ts
        end
  end.

(** White space is cleared on the first token, and the second and further ##
    of a sequence are moved to the end. *)
Definition finish_expansion (x : expansion) : list cpp_token :=
  let ts := rev (x_rev x) in
  let ts := match ts with t :: ts => drop_flag PREV_WHITE t :: ts | [] => [] end in
  if x_extra x
  then filter (fun t => type_is t CPP_PASTE = false) ts ++ filter (fun t => type_is t CPP_PASTE = true) ts
  else ts.

(** The diagnostic for a name that is not followed by white space. *)
Definition missing_whitespace (token : cpp_token) : W unit :=
  if c99 o then
    cpp_error CPP_DL_PEDWARN
      (if cplusplus o then "ISO C++11 requires whitespace after the macro name"
       else "ISO C99 requires whitespace after the macro name")
  else
    cpp_error
      (match t_type token with
       | CPP_ATSIGN | CPP_AT_NAME | CPP_OBJC_STRING => CPP_DL_PEDWARN
       | CPP_OTHER =>
           if bool_decide (look (t_text token) 0 ∈ (34 :: bytes "!#%&'()*+,-./:;<=>?[\]^{|}~"))
           then CPP_DL_WARNING else CPP_DL_PEDWARN
       | _ => CPP_DL_WARNING
       end) "missing whitespace after the macro name".

(** What create_iso_definition makes of a line: a macro, nothing, or an access
    to a saved parameter that was never written (_cpp_unsave_parameters). *)
Inductive definition : Type := Defined (m : cpp_macro) | Rejected | Uninitialized.

Definition unsave (ps : list saved_param) (m : option cpp_macro) : definition :=
  if existsb (fun p => match p with None => true | Some _ => false end) ps then Uninitialized
  else match m with Some m => Defined m | None => Rejected end.

Definition new_macro (ps : list saved_param) (fun_like variadic : bool) (x : expansion) : cpp_macro :=
  mk_macro (omap (option_map snd) ps) (Z.of_nat (length ps) mod 2 ^ 16) fun_like variadic syshdr
    (x_extra x) (finish_expansion x).

Definition create_iso_definition (ts : list cpp_token) : W definition :=
  let object_like token ts :=
    s ←w expansion_step false (mk_exp [] false false (vaopt_init false true)) token ;;
    match s with
    | None => mret (unsave [] None)
    | Some x =>
        r ←w expansion_loop false [] x ts ;;
        mret (unsave [] (option_map (new_macro [] false false) r))
    end in
  match ts with
  | [] => r ←w expansion_end false (mk_exp [] false false (vaopt_init false true)) ;;
          mret (unsave [] (option_map (new_macro [] false false) r))
  | token :: ts =>
      if type_is token CPP_EOF then
        r ←w expansion_end false (mk_exp [] false false (vaopt_init false true)) ;;
        mret (unsave [] (option_map (new_macro [] false false) r))
      else if has PREV_WHITE token then object_like token ts
      else if type_is token CPP_OPEN_PAREN then
        p ←w parse_params ts ;;
        if pr_ok p then
          r ←w expansion_loop true (pr_params p) (mk_exp [] false false (vaopt_init (pr_variadic p) true)) (pr_rest p) ;;
          mret (unsave (pr_params p) (option_map (new_macro (pr_params p) true (pr_variadic p)) r))
        else mret (unsave (pr_params p) None)
      else
        when (negb (type_is token CPP_COMMENT && negb (discard_comments_in_macro_exp mo)))
          (missing_whitespace token) ;;w
        object_like token ts
  end.
(** ** Entering a definition *)

(** Whether a redefinition is warned about. *)
Definition same_macro (macro1 macro2 : cpp_macro) : bool :=
  (m_paramc macro1 =? m_paramc macro2) && eqb (m_fun_like macro1) (m_fun_like macro2)
  && eqb (m_variadic macro1) (m_variadic macro2)
  && bool_decide (m_params macro1 = m_params macro2)
  && (length (m_tokens macro1) =? length (m_tokens macro2))%nat
  && forallb (fun p => _cpp_equiv_tokens (fst p) (snd p)) (combine (m_tokens macro1) (m_tokens macro2)).

Definition warn_of_redefinition (node : macro_node) (macro2 : cpp_macro) : bool :=
  if flag (mn_flags node) NODE_WARN then true
  else match mn_value node with
       | NBuiltin => warn_builtin_macro_redefined mo
       | NVoid => false
       | NUser macro1 => if flag (mn_flags node) NODE_CONDITIONAL then false
                         else negb (same_macro macro1 macro2)
       end.

(** Names whose redefinition is always warned about. *)
Definition reserved_name (name : list byte) : bool :=
  bytes_eqb (take 7 name) (bytes "__STDC_") && negb (bytes_eqb name (bytes "__STDC_FORMAT_MACROS"))
  && negb (bytes_eqb name (bytes "__STDC_LIMIT_MACROS")) && negb (bytes_eqb name (bytes "__STDC_CONSTANT_MACROS")).

Definition free_definition (node : macro_node) : macro_node :=
  mk_mnode NVoid (Z.land (mn_flags node) (Z.lnot (Z.lor NODE_DISABLED NODE_USED))).

Definition enter_definition (name : list byte) (node : macro_node) (macro : cpp_macro) : W macro_node :=
  node' ←w match mn_value node with
           | NVoid => mret node
           | v =>
               let builtin := match v with NBuiltin => true | _ => false end in
               when (warn_of_redefinition node macro)
                 (cpp_pedwarning (if builtin && negb (flag (mn_flags node) NODE_WARN)
                                  then CPP_W_BUILTIN_MACRO_REDEFINED else CPP_W_NONE) "'%s' redefined" ;;w
                  when (negb builtin)
                    (cpp_error CPP_DL_NOTE "this is the location of the previous definition")) ;;w
               mret (free_definition node)
           end ;;
  mret (mk_mnode (NUser macro)
          (Z.land (if reserved_name name then Z.lor (mn_flags node') NODE_WARN else mn_flags node')
             (Z.lnot NODE_CONDITIONAL))).

(** _cpp_create_definition on the tokens behind the name, and what do_define
    does to the node; [None] for the access to uninitialized memory. *)
Definition _cpp_create_definition (name : list byte) (node : macro_node) (ts : list cpp_token)
  : W (option (bool * macro_node)) :=
  d ←w create_iso_definition ts ;;
  match d with
  | Defined macro => node ←w enter_definition name node macro ;; mret (Some (true, node))
  | Rejected => mret (Some (false, node))
  | Uninitialized => mret None
  end.

Definition drop_node_used (node : macro_node) : macro_node :=
  mk_mnode (mn_value node) (Z.land (mn_flags node) (Z.lnot NODE_USED)).

Definition do_define (name : list byte) (node : macro_node) (ts : list cpp_token)
  : W (option macro_node) :=
  d ←w _cpp_create_definition name node ts ;;
  mret (option_map (fun p => drop_node_used (snd p)) d).

Definition do_undef (node : macro_node) : W macro_node :=
  match mn_value node with
  | NVoid => mret node
  | v =>
      (if flag (mn_flags node) NODE_WARN then cpp_error CPP_DL_WARNING "undefining '%s'"
       else when (match v with NBuiltin => true | _ => false end && warn_builtin_macro_redefined mo)
              (cpp_warning CPP_W_BUILTIN_MACRO_REDEFINED "undefining '%s'")) ;;w
      mret (free_definition node)
  end.

(** *** A sequence of directives *)

Inductive macro_directive : Type := DDefine (name : list byte) (ts : list cpp_token) | DUndef (name : list byte).

Definition node_of (m : gmap (list Z) macro_node) (name : list byte) : macro_node :=
  default (mk_mnode NVoid 0) (m !! name).

(** [None] where a definition reads uninitialized memory. *)
Definition run_directive (m : gmap (list Z) macro_node) (d : macro_directive) : option (gmap (list Z) macro_node) :=
  match d with
  | DDefine name ts => n ← snd (do_define name (node_of m name) ts); Some (<[name := n]> m)
  | DUndef name => Some (<[name := snd (do_undef (node_of m name))]> m)
  end.

Fixpoint run_directives (m : gmap (list Z) macro_node) (ds : list macro_directive) : option (gmap (list Z) macro_node) :=
  match ds with
  | [] => Some m
  | d :: ds => m ← run_directive m d; run_directives m ds
  end.
End Define.

(** The number of tokens of the replacement list without the ## at its end. *)
Fixpoint last_not_paste (ts : list cpp_token) : nat :=
  match ts with
  | [] => O
  | t :: ts => match last_not_paste ts with
               | O => if type_is t CPP_PASTE then O else 1%nat
               | n => S n
               end
  end.
Definition macro_real_token_count (macro : cpp_macro) : nat :=
  if m_extra_tokens macro then last_not_paste (m_tokens macro) else length (m_tokens macro).

Definition real_tokens (macro : cpp_macro) : list cpp_token :=
  take (macro_real_token_count macro) (m_tokens macro).

(** ** Printing a definition *)

Fixpoint print_params (variadic : bool) (params : list (list byte)) : list byte :=
  match params with
  | [] => []
  | p :: ps =>
      (if bytes_eqb p (bytes "__VA_ARGS__") then [] else p)
      ++ match ps with [] => if variadic then bytes "..." else [] | _ => bytes "," end
      ++ print_params variadic ps
  end.

Definition print_expansion_token (t : cpp_token) : option (list byte) :=
  sp ← (if type_is t CPP_MACRO_ARG then Some (t_spelling t) else cpp_spell_token t true);
  Some ((if has PREV_WHITE t then bytes " " else []) ++ (if has STRINGIFY_ARG t then bytes "#" else [])
        ++ sp ++ (if has PASTE_LEFT t then bytes " ##" else [])).

Fixpoint print_expansion (ts : list cpp_token) : option (list byte) :=
  match ts with
  | [] => Some []
  | t :: ts => p ← print_expansion_token t; rest ← print_expansion ts; Some (p ++ rest)
  end.

(** The text of a definition, to be read back or for debug information. *)
Definition cpp_macro_definition (name : list byte) (macro : cpp_macro) : option (list byte) :=
  spelled ← _cpp_spell_ident_ucns name;
  body ← print_expansion (real_tokens macro);
  Some (spelled
        ++ (if m_fun_like macro then bytes "(" ++ print_params (m_variadic macro) (m_params macro) ++ bytes ")" else [])
        ++ bytes " " ++ body).

(** The length of the buffer cpp_macro_definition writes to. *)
Definition definition_length (name : list byte) (macro : cpp_macro) : Z :=
  let b (x : bool) n := if x then n else 0 in
  Z.of_nat (length name) * 10 + 2
  + (if m_fun_like macro then 4 + foldr (fun p n => Z.of_nat (length p) + 1 + n) 0 (m_params macro) else 0)
  + foldr (fun t n => (if type_is t CPP_MACRO_ARG then Z.of_nat (length (t_spelling t)) else cpp_token_len t)
                      + b (has STRINGIFY_ARG t) 1 + b (has PASTE_LEFT t) 3 + b (has PREV_WHITE t) 1 + n)
      0 (real_tokens macro).
