(* ===== verification/MacroDefSpec.v ===== *)
(** * What an accepted macro definition looks like

    The expansion of macros relies on what create_iso_definition checks: every
    parameter of the replacement list has an argument, # stands before
    parameters only, no ## is left at an end, and each __VA_OPT__ is closed. *)

From Stdlib Require Import ZArith Lia Bool String Ascii.
From stdpp Require Import base tactics list numbers.
From S2P Require Import Prelude Reader CppNum NumLit Stream Utf StrLit Symtab CleanLine Lex LexGrammar LexSpec LexLine MacroDef.

Local Open Scope string_scope.
Local Open Scope list_scope.
Local Open Scope Z_scope.

(** ** What an accepted definition looks like *)

(** A token as the lexer delivers it for a definition. *)
Definition lexed_plain (t : cpp_token) : Prop :=
  t_type t <> CPP_MACRO_ARG /\ t_type t <> CPP_PADDING /\ has PASTE_LEFT t = false /\ has STRINGIFY_ARG t = false.

(** The tracker over a replacement list; [None] for an error. *)
Fixpoint vaopt_run (v : vaopt_state) (ts : list cpp_token) : option vaopt_state :=
  match ts with
  | [] => Some v
  | t :: ts => match snd (vaopt_update v t) with
               | (VERROR, _) => None
               | (_, v) => vaopt_run v ts
               end
  end.

(** A token of a replacement list with [n] parameters. *)
Definition token_ok (n : Z) (t : cpp_token) : Prop :=
  t_type t <> CPP_EOF /\ t_type t <> CPP_PADDING /\
  (t_type t = CPP_MACRO_ARG -> 1 <= t_no t <= n) /\
  (has STRINGIFY_ARG t = true -> t_type t = CPP_MACRO_ARG).

Record macro_ok (m : cpp_macro) : Prop := {
  mo_paramc : m_paramc m = Z.of_nat (length (m_params m));
  mo_object : m_fun_like m = false -> m_params m = [] /\ m_variadic m = false;
  mo_variadic : m_variadic m = true -> m_params m <> [];
  mo_tokens : Forall (token_ok (m_paramc m)) (real_tokens m);
  mo_no_paste : Forall (fun t => type_is t CPP_PASTE = false) (real_tokens m);
  mo_last : has PASTE_LEFT (List.last (real_tokens m) eof_token) = false;
  mo_vaopt : forall allowed, exists v, vaopt_run (vaopt_init (m_variadic m) allowed) (real_tokens m) = Some v /\
               m_state v = 0
}.

Lemma type_is_spec t ty : reflect (t_type t = ty) (type_is t ty).
Proof. apply ttype_eqb_spec. Qed.

(** *** The tracker and the tokens that are dropped *)

(** The state after a token, without the error for ## at the end of the group. *)
Definition vaopt_next (n : Z) (t : cpp_token) : option Z :=
  if names_node "__VA_OPT__" t then if 0 <? n then None else Some (n + 1)
  else if n =? 1 then if type_is t CPP_OPEN_PAREN then Some (n + 1) else None
  else if 2 <=? n then
    if (n =? 2) && type_is t CPP_PASTE then None
    else
      let n := if n =? 2 then 3 else n in
      if type_is t CPP_OPEN_PAREN then Some (n + 1)
      else if type_is t CPP_CLOSE_PAREN then Some (if n - 1 =? 2 then 0 else n - 1)
      else Some n
  else Some n.

Lemma vaopt_update_next v t u v' : m_vvariadic v = true -> snd (vaopt_update v t) = (u, v') -> u <> VERROR ->
  vaopt_next (m_state v) t = Some (m_state v') /\ m_vvariadic v' = true /\ m_allowed v' = m_allowed v.
Proof.
  intros Hv. unfold vaopt_update, vaopt_next. rewrite Hv. cbn [negb]. cbv zeta.
  destruct (names_node "__VA_OPT__" t) eqn:Ev.
  { destruct (0 <? m_state v); [rewrite snd_W_bind|]; cbn; intros [= <- <-] Hu; [done|]. by cbn. }
  destruct (m_state v =? 1) eqn:E1.
  { destruct (type_is t CPP_OPEN_PAREN); cbn; intros [= <- <-] Hu; [by cbn|done]. }
  destruct (2 <=? m_state v) eqn:E2; [|cbn; intros [= <- <-] _; by cbn].
  destruct ((m_state v =? 2) && type_is t CPP_PASTE) eqn:E3; [cbn; by intros [= <- <-]|].
  destruct (type_is_spec t CPP_PASTE) as [Ep|Np].
  { assert (type_is t CPP_OPEN_PAREN = false /\ type_is t CPP_CLOSE_PAREN = false) as [-> ->].
    { unfold type_is. by rewrite Ep. }
    intros [= <- <-] _. cbn. by destruct (m_state v =? 2) eqn:E; [apply Z.eqb_eq in E as ->|]. }
  destruct (type_is t CPP_OPEN_PAREN) eqn:E4.
  { intros [= <- <-] _. cbn. by destruct (m_state v =? 2) eqn:E; [apply Z.eqb_eq in E as ->|]. }
  destruct (type_is t CPP_CLOSE_PAREN) eqn:E5.
  - assert ((if m_state v =? 2 then m_state v + 1 else m_state v) = (if m_state v =? 2 then 3 else m_state v)) as ->.
    { destruct (Z.eqb_spec (m_state v) 2); [lia|done]. }
    destruct (_ - 1 =? 2); [|intros [= <- <-] _; by cbn].
    destruct (m_last_was_paste v); cbn; intros [= <- <-] Hu; [done|by cbn].
  - intros [= <- <-] _. cbn. by destruct (m_state v =? 2) eqn:E; [apply Z.eqb_eq in E as ->|].
Qed.

Fixpoint vaopt_states (n : Z) (ts : list cpp_token) : option Z :=
  match ts with [] => Some n | t :: ts => n ← vaopt_next n t; vaopt_states n ts end.

Lemma vaopt_states_app n ts ts' : vaopt_states n (ts ++ ts') = (n ← vaopt_states n ts; vaopt_states n ts').
Proof. revert n. induction ts as [|t ts IH]; intros n; [done|]. cbn. by destruct (vaopt_next n t) as [k|]; [apply IH|]. Qed.

Lemma vaopt_states_snoc n ts t k : vaopt_states n ts = Some k -> vaopt_states n (ts ++ [t]) = vaopt_next k t.
Proof. intros H. rewrite vaopt_states_app, H. cbn. by destruct (vaopt_next k t). Qed.

(** The states that occur. *)
Lemma vaopt_next_range n t k : 0 <= n -> vaopt_next n t = Some k -> 0 <= k.
Proof.
  unfold vaopt_next. destruct (names_node _ _); [destruct (Z.ltb_spec 0 n); [done|intros ? [= <-]; lia]|].
  destruct (n =? 1); [destruct (type_is t CPP_OPEN_PAREN); [intros ? [= <-]; lia|done]|].
  destruct (Z.leb_spec 2 n); [|intros ? [= <-]; lia].
  destruct (_ && _); [done|]. cbv zeta. assert (2 <= (if n =? 2 then 3 else n)) by (destruct (n =? 2); lia).
  destruct (type_is t CPP_OPEN_PAREN); [intros ? [= <-]; lia|].
  destruct (type_is t CPP_CLOSE_PAREN); [|intros ? [= <-]; lia].
  intros _. destruct (_ - 1 =? 2); intros [= <-]; lia.
Qed.

Lemma vaopt_states_range n ts k : 0 <= n -> vaopt_states n ts = Some k -> 0 <= k.
Proof.
  revert n. induction ts as [|t ts IH]; cbn; intros n Hn; [by intros [= <-]|].
  destruct (vaopt_next n t) eqn:E; [|done]. apply IH. by eapply vaopt_next_range.
Qed.

(** A # or ## in between changes nothing for the token behind it. *)
Lemma vaopt_next_paste n t k : 0 <= n -> t_type t = CPP_PASTE -> vaopt_next n t = Some k -> k = n.
Proof.
  intros Hn Ht. unfold vaopt_next, names_node, type_is. rewrite Ht. cbn [ttype_eqb andb].
  change (ttype_eqb CPP_PASTE CPP_NAME) with false. change (ttype_eqb CPP_PASTE CPP_OPEN_PAREN) with false.
  change (ttype_eqb CPP_PASTE CPP_CLOSE_PAREN) with false. change (ttype_eqb CPP_PASTE CPP_PASTE) with true.
  cbn [andb]. rewrite andb_true_r. destruct (Z.eqb_spec n 1); [done|].
  destruct (Z.eqb_spec n 2); [destruct (2 <=? n); [done|by intros [= <-]]|]. by destruct (2 <=? n); intros [= <-].
Qed.

Lemma vaopt_next_hash n hash t k : 0 <= n -> t_type hash = CPP_HASH -> t_type t = CPP_MACRO_ARG ->
  vaopt_next n hash = Some k -> vaopt_next n t = vaopt_next k t.
Proof.
  intros Hn Hh Ht. unfold vaopt_next, names_node, type_is. rewrite Hh, Ht.
  change (ttype_eqb CPP_HASH CPP_NAME) with false. change (ttype_eqb CPP_HASH CPP_OPEN_PAREN) with false.
  change (ttype_eqb CPP_HASH CPP_CLOSE_PAREN) with false. change (ttype_eqb CPP_HASH CPP_PASTE) with false.
  change (ttype_eqb CPP_MACRO_ARG CPP_NAME) with false. change (ttype_eqb CPP_MACRO_ARG CPP_OPEN_PAREN) with false.
  change (ttype_eqb CPP_MACRO_ARG CPP_CLOSE_PAREN) with false. change (ttype_eqb CPP_MACRO_ARG CPP_PASTE) with false.
  cbn [andb]. rewrite !andb_false_r. destruct (Z.eqb_spec n 1); [done|]. destruct (Z.leb_spec 2 n).
  - destruct (Z.eqb_spec n 2) as [->|]; intros [= <-]; [done|].
    destruct (Z.eqb_spec n 1); [lia|]. destruct (Z.leb_spec 2 n); [|lia]. by destruct (Z.eqb_spec n 2).
  - intros [= <-]. destruct (Z.eqb_spec n 1); [lia|]. destruct (Z.leb_spec 2 n); [lia|done].
Qed.

(** The tracker, with any arguments, over a list without ##. *)
Lemma vaopt_run_states ts : Forall (fun t => type_is t CPP_PASTE = false) ts -> forall v k,
  m_vvariadic v = true -> m_last_was_paste v = false -> vaopt_states (m_state v) ts = Some k ->
  exists v', vaopt_run v ts = Some v' /\ m_state v' = k.
Proof.
  induction 1 as [|t ts Ht Hts IH]; intros v k Hv Hl Hs; [injection Hs as <-; by exists v|].
  cbn [vaopt_states vaopt_run] in *. destruct (vaopt_next (m_state v) t) as [n|] eqn:En; [|done].
  cbn [mbind option_bind] in Hs.
  destruct (snd (vaopt_update v t)) as [u v'] eqn:Eu.
  assert (u <> VERROR /\ m_last_was_paste v' = false) as [Hu Hl'].
  { revert Eu En. unfold vaopt_update, vaopt_next. rewrite Hv. cbn [negb]. cbv zeta.
    destruct (names_node _ _).
    { destruct (0 <? m_state v); [done|]. intros [= <- <-] _. by split. }
    destruct (m_state v =? 1).
    { destruct (type_is t CPP_OPEN_PAREN); [|done]. intros [= <- <-] _. by split. }
    destruct (2 <=? m_state v); [|intros [= <- <-] _; by split].
    destruct (_ && _); [done|]. rewrite Ht.
    destruct (type_is t CPP_OPEN_PAREN); [intros [= <- <-] _; split; [by destruct (m_allowed v)|done]|].
    destruct (type_is t CPP_CLOSE_PAREN); [|intros [= <- <-] _; split; [by destruct (m_allowed v)|done]].
    rewrite Hl. destruct (_ =? 2); intros [= <- <-] _; (split; [by destruct (m_allowed v)|done]). }
  destruct (vaopt_update_next v t u v' Hv Eu Hu) as (En' & Hv' & _). rewrite En in En'. injection En' as ->.
  destruct (IH v' k Hv' Hl' Hs) as (v'' & Hr & Hk). exists v''. split; [|done]. by destruct u.
Qed.

Lemma vaopt_run_not_variadic v ts : m_vvariadic v = false -> vaopt_run v ts = Some v.
Proof. intros Hv. induction ts as [|t ts IH]; [done|]. cbn. unfold vaopt_update. by rewrite Hv. Qed.

(** *** Flags *)

Lemma has_add f g t : has f (add_flag g t) = has f t || flag g f.
Proof. apply flag_lor. Qed.

Lemma has_drop f g t : Z.land (Z.lnot g) f = f -> has f (drop_flag g t) = has f t.
Proof. apply flag_land. Qed.

(** Tokens the checks do not tell apart. *)
Definition alike (t t' : cpp_token) : Prop :=
  t_type t = t_type t' /\ t_text t = t_text t' /\ t_no t = t_no t' /\
  has PASTE_LEFT t = has PASTE_LEFT t' /\ has STRINGIFY_ARG t = has STRINGIFY_ARG t'.

Lemma vaopt_next_shape n t t' : t_type t = t_type t' -> t_text t = t_text t' -> vaopt_next n t = vaopt_next n t'.
Proof. unfold vaopt_next, names_node, type_is. by intros -> ->. Qed.

Lemma vaopt_states_shape ts ts' : Forall2 (fun t t' => t_type t = t_type t' /\ t_text t = t_text t') ts ts' ->
  forall n, vaopt_states n ts = vaopt_states n ts'.
Proof.
  induction 1 as [|t t' ts ts' (Ht & Hx) _ IH]; intros n; [done|]. cbn.
  rewrite (vaopt_next_shape n t t' Ht Hx). by destruct (vaopt_next n t'); [apply IH|].
Qed.

Lemma token_ok_alike n t t' : alike t t' -> token_ok n t -> token_ok n t'.
Proof. unfold token_ok. by intros (-> & _ & -> & _ & ->). Qed.

Lemma Forall_alike (P : cpp_token -> Prop) ts ts' : (forall t t', alike t t' -> P t -> P t') ->
  Forall2 alike ts ts' -> Forall P ts -> Forall P ts'.
Proof. intros HP. induction 1 as [|t t' l l' Ht _ IH]; [done|]. intros H. inversion H; subst. constructor; eauto. Qed.

(** The tokens of a replacement list that are not extra. *)
Definition reals : list cpp_token -> list cpp_token := filter (fun t => type_is t CPP_PASTE = false).

Lemma reals_plain t ts : type_is t CPP_PASTE = false -> reals (t :: ts) = t :: reals ts.
Proof. intros H. unfold reals. by rewrite filter_cons_True. Qed.

Lemma reals_paste t ts : type_is t CPP_PASTE = true -> reals (t :: ts) = reals ts.
Proof. intros H. unfold reals. rewrite filter_cons_False; [done|]. by rewrite H. Qed.

Lemma reals_rev ts : reals (rev ts) = rev (reals ts).
Proof.
  induction ts as [|t ts IH]; [done|]. cbn [rev]. unfold reals in *. rewrite list.filter_app, IH.
  destruct (type_is t CPP_PASTE) eqn:E.
  - rewrite !(filter_cons_False _ t) by (by rewrite E). apply app_nil_r.
  - by rewrite !(filter_cons_True _ t) by done.
Qed.

Lemma reals_alike ts ts' : Forall2 alike ts ts' -> Forall2 alike (reals ts) (reals ts').
Proof.
  induction 1 as [|t t' ts ts' Ht _ IH]; [constructor|]. destruct (type_is t CPP_PASTE) eqn:E.
  - rewrite !reals_paste; [done|destruct Ht as [Ht _]; unfold type_is in *; by rewrite <- Ht|done].
  - rewrite !reals_plain; [by constructor|destruct Ht as [Ht _]; unfold type_is in *; by rewrite <- Ht|done].
Qed.

Lemma reals_all ts : Forall (fun t => type_is t CPP_PASTE = false) (reals ts).
Proof. apply Forall_forall. by intros t [H _]%list_elem_of_In%list_elem_of_filter. Qed.

(** *** The loop over the replacement list *)

Section Invariant.
Context (n : Z) (variadic : bool).

(** The state after some tokens of a replacement list with [n] parameters. *)
Record exp_inv (x : expansion) : Prop := {
  ei_tokens : Forall (token_ok n) (reals (x_rev x));
  ei_head : has PASTE_LEFT (hd eof_token (reals (x_rev x))) = x_following_paste_op x;
  ei_top : x_following_paste_op x = false -> type_is (hd eof_token (x_rev x)) CPP_PASTE = false;
  ei_extra : x_extra x = false -> Forall (fun t => type_is t CPP_PASTE = false) (x_rev x);
  ei_var : m_vvariadic (x_vaopt x) = variadic;
  ei_nonneg : 0 <= m_state (x_vaopt x);
  ei_vaopt : variadic = true -> vaopt_states 0 (rev (reals (x_rev x))) = Some (m_state (x_vaopt x))
}.

(** A token as lex_expansion_token delivers it. *)
Definition fresh (t : cpp_token) : Prop := token_ok n t /\ has PASTE_LEFT t = false.

Lemma tracked v t u v' : m_vvariadic v = variadic -> 0 <= m_state v -> vaopt_update v t = (u, v') ->
  fst v' <> VERROR -> m_vvariadic (snd v') = variadic /\ 0 <= m_state (snd v') /\
  (variadic = true -> vaopt_next (m_state v) t = Some (m_state (snd v'))).
Proof.
  intros Hv H0 E Hu. destruct v' as [w v']. cbn [fst snd] in *. destruct variadic.
  - assert (snd (vaopt_update v t) = (w, v')) as E' by by rewrite E.
    destruct (vaopt_update_next v t w v' Hv E' Hu) as (Hn & Hv' & _).
    split_and!; [done|by eapply vaopt_next_range|done].
  - unfold vaopt_update in E. rewrite Hv in E. cbn [negb] in E. by injection E as <- <- <-.
Qed.

(** A token is put behind the tokens [rev]; the tracker may have seen a #
    that is gone. *)
Lemma append_plain x rev t x' : type_is t CPP_PASTE = false -> fresh t ->
  Forall (token_ok n) (reals rev) -> (x_extra x = false -> Forall (fun t => type_is t CPP_PASTE = false) rev) ->
  m_vvariadic (x_vaopt x) = variadic -> 0 <= m_state (x_vaopt x) ->
  (variadic = true -> exists k, vaopt_states 0 (List.rev (reals rev)) = Some k /\
                                (forall j, vaopt_next (m_state (x_vaopt x)) t = Some j -> vaopt_next k t = Some j)) ->
  snd (append_token x rev t) = Some x' -> exp_inv x'.
Proof.
  intros Hp [Hok Hl] Hrev Hex Hv H0 Hst. unfold append_token. rewrite Hp, snd_W_bind.
  destruct (vaopt_update (x_vaopt x) t) as [u v'] eqn:E. cbn [fst snd].
  destruct (decide (fst v' = VERROR)) as [->|Hu]; [done|].
  destruct (tracked _ _ _ _ Hv H0 E Hu) as (Hv' & H0' & Hn).
  intros H. assert (x' = mk_exp (t :: rev) false (x_extra x) (snd v')) as -> by (destruct (fst v'); by inversion H).
  split; cbn [x_rev x_following_paste_op x_extra x_vaopt hd]; rewrite ?reals_plain by done; auto.
  intros Hvar. destruct (Hst Hvar) as (k & Hk & Hj). cbn [List.rev].
  rewrite (vaopt_states_snoc _ _ _ _ Hk). auto.
Qed.

Lemma append_paste x t x' : type_is t CPP_PASTE = true -> exp_inv x ->
  snd (append_token x (x_rev x) t) = Some x' -> exp_inv x'.
Proof.
  intros Hp [Htok Hhd Htop Hex Hv H0 Hst]. unfold append_token. rewrite Hp.
  destruct (x_rev x) as [|prev rev'] eqn:Er; [done|]. rewrite snd_W_bind.
  destruct (vaopt_update (x_vaopt x) t) as [u v'] eqn:E. cbn [fst snd].
  destruct (decide (fst v' = VERROR)) as [->|Hu]; [done|].
  destruct (tracked _ _ _ _ Hv H0 E Hu) as (Hv' & H0' & Hn).
  assert (variadic = true -> m_state (snd v') = m_state (x_vaopt x)) as Hsame.
  { intros Hvar. apply (vaopt_next_paste _ t); [done|by destruct (type_is_spec t CPP_PASTE)|auto]. }
  destruct (x_following_paste_op x) eqn:Ef; intros H.
  - assert (x' = mk_exp (mk_token (t_type t) (t_flags t) (t_text t) (t_spelling t)
              (Z.of_nat (length (prev :: rev'))) (t_in_macro t) :: prev :: rev') true true (snd v')) as ->
      by (destruct (fst v'); by inversion H).
    split; cbn [x_rev x_following_paste_op x_extra x_vaopt hd]; rewrite ?(reals_paste (mk_token _ _ _ _ _ _)) by done; auto; try done.
    intros Hvar. rewrite Hsame; auto.
  - specialize (Htop eq_refl). cbn [hd] in Htop. rewrite reals_plain in Htok, Hhd, Hst by done.
    set (prev' := add_flag PASTE_LEFT prev) in H.
    assert (exists p, x' = mk_exp (p :: rev') true (x_extra x) (snd v') /\ t_type p = t_type prev /\
              t_text p = t_text prev /\ t_no p = t_no prev /\ has STRINGIFY_ARG p = has STRINGIFY_ARG prev /\
              has PASTE_LEFT p = true) as (p & -> & Et & Ex & En & Es & Epl).
    { destruct (fst v'); try done; injection H as <-; eexists; (split; [reflexivity|]);
        unfold prev'; destruct (has DIGRAPH t), (has PREV_WHITE t);
        cbv zeta; rewrite !has_add; cbn; rewrite ?orb_false_r, ?orb_true_r; by split_and!. }
    assert (type_is p CPP_PASTE = false) as Hpp by (unfold type_is in *; by rewrite Et).
    split; cbn [x_rev x_following_paste_op x_extra x_vaopt hd]; rewrite ?reals_plain by done; auto.
    + inversion Htok as [|? ? Hprev Hrest]; subst. constructor; [|done].
      revert Hprev. unfold token_ok. by rewrite Et, En, Es.
    + intros Hx. specialize (Hex Hx). inversion Hex; subst. by constructor.
    + intros Hvar. rewrite (Hsame Hvar), <- (Hst Hvar). apply vaopt_states_shape. cbn [rev].
      apply Forall2_app; [|by repeat constructor]. apply Forall_Forall2_diag, Forall_true. by intros.
Qed.

Lemma stringify_flags_fresh hash t : type_is t CPP_MACRO_ARG = true -> fresh t -> fresh (stringify_flags hash t).
Proof.
  intros Ht [(He & Hp & Hno & _) Hl].
  assert (t_type (stringify_flags hash t) = t_type t /\ t_no (stringify_flags hash t) = t_no t) as [E1 E2]
    by (unfold stringify_flags; cbv zeta; by destruct (has PREV_WHITE t), (has DIGRAPH hash)).
  split; [unfold token_ok; rewrite E1, E2; split_and!; try done; intros _; by destruct (type_is_spec t CPP_MACRO_ARG)|].
  unfold stringify_flags. cbv zeta. rewrite has_add, has_add, has_drop by done.
  assert (flag (Z.land (t_flags hash) PREV_WHITE) PASTE_LEFT = false) as ->.
  { unfold flag. by rewrite <- Z.land_assoc, Z.land_0_r. }
  by destruct (has DIGRAPH hash), (has PREV_WHITE t); rewrite ?has_add, Hl.
Qed.

Lemma append_inv x t x' : exp_inv x -> fresh t -> snd (append_token x (x_rev x) t) = Some x' -> exp_inv x'.
Proof.
  intros Hx Ht H. destruct (type_is t CPP_PASTE) eqn:Hp; [by eapply append_paste|].
  destruct Hx as [Htok Hhd Htop Hex Hv H0 Hst]. eapply append_plain; try done.
  intros Hvar. exists (m_state (x_vaopt x)). auto.
Qed.

Lemma step_inv o fun_like x t x' : exp_inv x -> fresh t -> snd (expansion_step o fun_like x t) = Some x' -> exp_inv x'.
Proof.
  intros Hx Ht. unfold expansion_step. pose proof (fun H => append_inv x t x' Hx Ht H) as Happ.
  destruct (x_rev x) as [|hash rev'] eqn:Er; [done|].
  destruct (type_is hash CPP_HASH && fun_like) eqn:Eh; [|done].
  destruct (type_is t CPP_MACRO_ARG) eqn:Ea; [|by destruct (negb (is_asm o))].
  apply andb_prop in Eh as [Eh _]. intros H. clear Happ.
  destruct (type_is_spec hash CPP_HASH) as [Eh'|]; [|done]. destruct (type_is_spec t CPP_MACRO_ARG) as [Ea'|]; [|done].
  assert (type_is hash CPP_PASTE = false) as Hh by (unfold type_is; by rewrite Eh').
  destruct Hx as [Htok Hhd Htop Hex Hv H0 Hst]. rewrite Er in Htok, Hex, Hst. rewrite reals_plain in Htok, Hst by done.
  assert (t_type (stringify_flags hash t) = CPP_MACRO_ARG) as Es.
  { unfold stringify_flags. cbv zeta. by destruct (has PREV_WHITE t), (has DIGRAPH hash). }
  eapply append_plain; [| | | | | | |exact H]; try done.
  - unfold type_is. by rewrite Es.
  - apply stringify_flags_fresh; [|done]. unfold type_is. by rewrite Ea'.
  - by inversion Htok.
  - intros Hxx. specialize (Hex Hxx). by inversion Hex.
  - intros Hvar. specialize (Hst Hvar). cbn [rev] in Hst. rewrite vaopt_states_app in Hst.
    destruct (vaopt_states 0 (rev (reals rev'))) as [k|] eqn:Ek; [|done]. exists k. split; [done|].
    cbn in Hst. destruct (vaopt_next k hash) as [k'|] eqn:Ek'; [|done]. injection Hst as ->. intros j <-.
    apply (vaopt_next_hash _ hash); [|done..]. eapply vaopt_states_range; [|exact Ek]. lia.
Qed.

Lemma start_inv allowed : exp_inv (mk_exp [] false false (vaopt_init variadic allowed)).
Proof. by split. Qed.

(** At the end of the line. *)
Lemma end_inv o fun_like x x' : snd (expansion_end o fun_like x) = Some x' -> 
  x' = x /\ x_following_paste_op x = false /\ m_state (x_vaopt x) = 0.
Proof.
  unfold expansion_end. destruct (_ && _); [done|]. destruct (x_following_paste_op x); [done|].
  rewrite snd_W_bind. unfold vaopt_completed. rewrite snd_W_bind. cbn [snd mret W_ret].
  destruct (Z.eqb_spec (m_state (x_vaopt x)) 0); [by intros [= ->]|done].
Qed.
End Invariant.

(** The tokens in the list, and what they become in the macro. *)
Lemma last_not_paste_app ts ts' : Forall (fun t => type_is t CPP_PASTE = false) ts ->
  Forall (fun t => type_is t CPP_PASTE = true) ts' -> last_not_paste (ts ++ ts') = length ts.
Proof.
  intros H1 H2. induction H1 as [|t ts Ht Hts IH]; cbn.
  - induction H2 as [|t ts Ht Hts IH]; [done|]. cbn. by rewrite IH, Ht.
  - rewrite IH. by destruct ts; cbn; rewrite ?Ht.
Qed.

Lemma real_tokens_new syshdr ps fun_like variadic x :
  (x_extra x = false -> Forall (fun t => type_is t CPP_PASTE = false) (x_rev x)) ->
  Forall2 alike (rev (reals (x_rev x))) (real_tokens (new_macro syshdr ps fun_like variadic x)).
Proof.
  intros Hex. set (ts := rev (x_rev x)).
  set (ts' := match ts with t :: ts => drop_flag PREV_WHITE t :: ts | [] => [] end).
  assert (Forall2 alike ts ts') as Hts.
  { assert (forall l, Forall2 alike l l) as Hrefl by (intros l; by apply Forall_Forall2_diag, Forall_true).
    unfold ts'. destruct ts as [|t l]; [constructor|]. constructor; [|apply Hrefl].
    split_and!; try done; by rewrite has_drop. }
  assert (real_tokens (new_macro syshdr ps fun_like variadic x) = reals ts') as ->.
  2: { rewrite <- reals_rev. by apply reals_alike. }
  unfold real_tokens, macro_real_token_count, new_macro, finish_expansion. cbn [m_extra_tokens m_tokens].
  fold ts ts'. destruct (x_extra x).
  - rewrite last_not_paste_app, take_app_length; [done|apply reals_all|].
    apply Forall_forall. by intros t [H _]%list_elem_of_In%list_elem_of_filter.
  - rewrite firstn_all. assert (Forall (fun t => type_is t CPP_PASTE = false) ts') as H.
    { specialize (Hex eq_refl). assert (Forall (fun t => type_is t CPP_PASTE = false) ts) as H.
      { apply Forall_forall. intros t Ht%in_rev. revert t Ht. by apply Forall_forall. }
      revert H. unfold ts'. destruct ts; [done|]. intros H. inversion H; subst. by constructor. }
    clear -H. induction H as [|t l Ht _ IH]; [done|]. by rewrite reals_plain, <- IH.
Qed.

(** *** Parameters *)

Lemma arg_index_range ps name i k : 0 <= i -> i + Z.of_nat (length ps) <= 2 ^ 16 ->
  arg_index_from i ps name = Some k -> i <= k < i + Z.of_nat (length ps).
Proof.
  revert i. induction ps as [|[[node spelling]|] ps IH]; intros i Hi Hlen; cbn [arg_index_from length] in *; [done|..].
  - destruct (bytes_eqb node name).
    + intros [= <-]. rewrite Z.mod_small; lia.
    + intros H. apply IH in H; lia.
  - intros H. apply IH in H; lia.
Qed.

Lemma lexed_fresh o ps t : Z.of_nat (length ps) < 2 ^ 16 -> lexed_plain t -> t_type t <> CPP_EOF ->
  fresh (Z.of_nat (length ps)) (snd (lex_expansion_token o ps t)).
Proof.
  intros Hlen (Ha & Hp & Hl & Hs) He. unfold lex_expansion_token.
  destruct (if type_is t CPP_NAME then arg_index ps (t_text t) else None) as [i|] eqn:Ei.
  - destruct (type_is t CPP_NAME); [|done]. apply arg_index_range in Ei; [|lia..].
    split; [|done]. unfold token_ok. cbn. split_and!; try done. intros _. lia.
  - rewrite snd_W_bind. split; [|done]. unfold token_ok. cbn. split_and!; try done. by rewrite Hs.
Qed.

Lemma save_parameter_params ps node spelling : snd (snd (_cpp_save_parameter ps node spelling)) <> [].
Proof. unfold _cpp_save_parameter. by destruct (arg_index ps node), ps. Qed.

Lemma parse_params_inv (P : cpp_token -> Prop) o mo ts : Forall P ts -> forall ps prev_ident variadic,
  (prev_ident || variadic = true -> ps <> []) ->
  let r := snd (parse_params_loop o mo ps prev_ident variadic ts) in
  Forall P (pr_rest r) /\ (pr_variadic r = true -> pr_params r <> []).
Proof.
  induction 1 as [|t ts Ht Hts IH]; intros ps prev_ident variadic Hps; cbn [parse_params_loop];
    [rewrite snd_W_bind; cbn; split; [constructor|]; intros ->; apply Hps, orb_true_r|].
  assert (Forall P ts /\ (variadic = true -> ps <> [])) as Hbad
    by (split; [done|intros ->; apply Hps, orb_true_r]).
  destruct (t_type t); try exact Hbad.
  - destruct prev_ident, variadic; cbn [negb orb]; try exact Hbad. apply IH. intros _. by apply Hps.
  - by destruct (prev_ident || _ || variadic).
  - destruct variadic; [exact Hbad|]. rewrite snd_W_bind.
    destruct prev_ident; cbn [negb]; rewrite snd_W_bind; apply IH; intros _; [by apply Hps|].
    apply save_parameter_params.
  - destruct (prev_ident || variadic) eqn:E; [exact Hbad|]. rewrite snd_W_bind.
    apply orb_false_elim in E as [-> ->].
    pose proof (save_parameter_params ps (t_text t) (t_spelling t)) as Hs.
    destruct (fst (snd (_cpp_save_parameter ps (t_text t) (t_spelling t)))); [by apply IH|by split].
  - destruct (negb _); [by apply IH|exact Hbad].
Qed.

Lemma saved_params_length (ps : list saved_param) : Forall (fun p => p <> None) ps ->
  length (omap (option_map snd) ps) = length ps.
Proof. induction 1 as [|p ps Hp _ IH]; [done|]. destruct p as [[]|]; [|done]. cbn in *. by f_equal. Qed.

(** *** Definitions *)

Lemma expansion_loop_inv o n variadic fun_like ps ts : n = Z.of_nat (length ps) -> n < 2 ^ 16 ->
  Forall lexed_plain ts -> forall x x', exp_inv n variadic x ->
  snd (expansion_loop o fun_like ps x ts) = Some x' ->
  exp_inv n variadic x' /\ x_following_paste_op x' = false /\ m_state (x_vaopt x') = 0.
Proof.
  intros -> Hlen. induction 1 as [|t ts Ht Hts IH]; intros x x' Hx H; cbn [expansion_loop] in H.
  { destruct (end_inv _ _ _ _ H) as (-> & ? & ?). done. }
  destruct (type_is t CPP_EOF) eqn:Ee.
  { destruct (end_inv _ _ _ _ H) as (-> & ? & ?). done. }
  rewrite !snd_W_bind in H.
  destruct (snd (expansion_step o fun_like x (snd (lex_expansion_token o ps t)))) as [x1|] eqn:E1; [|done].
  apply (IH x1); [|done]. eapply step_inv; [exact Hx| |exact E1].
  apply lexed_fresh; [done|done|]. by destruct (type_is_spec t CPP_EOF).
Qed.

Lemma macro_ok_new syshdr ps fun_like variadic x : Z.of_nat (length ps) < 2 ^ 16 ->
  Forall (fun p => p <> None) ps -> (fun_like = false -> ps = [] /\ variadic = false) -> (variadic = true -> ps <> []) ->
  exp_inv (Z.of_nat (length ps)) variadic x -> x_following_paste_op x = false -> m_state (x_vaopt x) = 0 ->
  macro_ok (new_macro syshdr ps fun_like variadic x).
Proof.
  intros Hlen Hall Hobj Hvar [Htok Hhd Htop Hex Hv H0 Hst] Hf Hs0.
  pose proof (real_tokens_new syshdr ps fun_like variadic x Hex) as Hr.
  pose proof (saved_params_length ps Hall) as Hl.
  set (m := new_macro syshdr ps fun_like variadic x) in *.
  assert (Forall (fun t => type_is t CPP_PASTE = false) (real_tokens m)) as Hnp.
  { eapply Forall_alike; [|exact Hr|rewrite <- reals_rev; apply reals_all].
    intros t t' (Et & _). unfold type_is. by rewrite Et. }
  assert (m_paramc m = Z.of_nat (length ps)) as Hpc by (unfold m; cbn; apply Z.mod_small; lia).
  change (omap (option_map snd) ps) with (m_params m) in Hl.
  split; rewrite ?Hpc, ?Hl; try done.
  - intros Hfl. unfold m. cbn. by destruct (Hobj Hfl) as [-> ->].
  - intros Hva Hnil. apply (Hvar Hva). rewrite Hnil in Hl. by destruct ps.
  - eapply Forall_alike; [apply token_ok_alike|exact Hr|].
    apply Forall_forall. intros t Ht%in_rev. revert t Ht. by apply Forall_forall.
  - destruct (reals (x_rev x)) as [|t l]; cbn [rev hd] in *.
    + by inversion Hr.
    + apply Forall2_app_inv_l in Hr as (l1 & l2 & _ & H2 & ->). inversion H2 as [|? t' ? ? Ht H3]; subst. inversion H3; subst.
      rewrite List.last_last. destruct Ht as (_ & _ & _ & <- & _). by rewrite Hhd.
  - intros allowed. change (m_variadic m) with variadic. destruct variadic.
    + apply vaopt_run_states; [done..|]. rewrite <- Hs0, <- (Hst eq_refl). symmetry.
      apply vaopt_states_shape. eapply Forall2_impl; [|exact Hr]. by intros t t' (-> & -> & _).
    + exists (vaopt_init false allowed). split; [by apply vaopt_run_not_variadic|done].
Qed.

Lemma unsave_defined ps r m : unsave ps r = Defined m -> Forall (fun p => p <> None) ps /\ r = Some m.
Proof.
  unfold unsave. intros H. match type of H with (if ?b then _ else _) = _ => destruct b eqn:Ee end; [done|].
  destruct r as [m'|]; [|done]. injection H as ->. split; [|done]. apply Forall_forall. intros p Hp ->.
  apply not_true_iff_false in Ee. apply Ee, existsb_exists. by exists None.
Qed.

(** A definition out of the state at its end. *)
Lemma defined_inv o syshdr fun_like variadic ps ts x m : Forall lexed_plain ts ->
  (fun_like = false -> ps = [] /\ variadic = false) -> (variadic = true -> ps <> []) ->
  (Z.of_nat (length ps) < 2 ^ 16 -> exp_inv (Z.of_nat (length ps)) variadic x) ->
  unsave ps (option_map (new_macro syshdr ps fun_like variadic) (snd (expansion_loop o fun_like ps x ts))) = Defined m ->
  Z.of_nat (length (m_params m)) < 2 ^ 16 -> macro_ok m.
Proof.
  intros Hts Hobj Hvar Hx [Hall H]%unsave_defined Hlen.
  destruct (snd (expansion_loop o fun_like ps x ts)) as [x'|] eqn:El; [|done]. injection H as <-.
  pose proof (saved_params_length ps Hall) as Hl.
  cbn [m_params new_macro] in Hlen. rewrite Hl in Hlen.
  destruct (expansion_loop_inv o _ variadic fun_like ps ts eq_refl Hlen Hts x x' (Hx Hlen) El) as (Hx' & Hf & Hs).
  by apply macro_ok_new.
Qed.

(** Every macro that is created is well formed. *)
Lemma created_macro_ok o mo syshdr ts m : Forall lexed_plain ts ->
  snd (create_iso_definition o mo syshdr ts) = Defined m -> Z.of_nat (length (m_params m)) < 2 ^ 16 -> macro_ok m.
Proof.
  intros Hts. unfold create_iso_definition.
  destruct Hts as [|t ts Ht Hts].
  { rewrite snd_W_bind. by apply (defined_inv o syshdr false false [] []). }
  destruct (type_is t CPP_EOF) eqn:Ee.
  { rewrite snd_W_bind. by apply (defined_inv o syshdr false false [] []). }
  assert (forall d1, snd (s ←w expansion_step o false (mk_exp [] false false (vaopt_init false true)) t ;;
      match s with
      | None => mret (unsave [] None)
      | Some x =>
          r ←w expansion_loop o false [] x ts ;;
          mret (unsave [] (option_map (new_macro syshdr [] false false) r))
      end) = d1 -> d1 = Defined m -> Z.of_nat (length (m_params m)) < 2 ^ 16 -> macro_ok m) as Hobj.
  { intros d1 <-. rewrite snd_W_bind. destruct (snd (expansion_step _ _ _ _)) as [x|] eqn:Es; [|done].
    rewrite snd_W_bind. apply defined_inv; try done. intros _.
    eapply step_inv; [apply start_inv| |exact Es].
    destruct Ht as (Ha & Hp & Hl & Hs). split; [|done]. unfold token_ok. split_and!; try done.
    - by destruct (type_is_spec t CPP_EOF).
    - by rewrite Hs. }
  destruct (has PREV_WHITE t); [by apply Hobj|].
  destruct (type_is t CPP_OPEN_PAREN); [|rewrite snd_W_bind; by apply Hobj].
  rewrite snd_W_bind. pose proof (parse_params_inv lexed_plain o mo ts Hts [] false false ltac:(done)) as [Hrest Hvar].
  fold (parse_params o mo ts) in Hrest, Hvar. destruct (snd (parse_params o mo ts)) as [ok ps variadic rest].
  cbn [pr_ok pr_rest pr_params pr_variadic] in *. destruct ok; [|by intros [_ H]%unsave_defined].
  rewrite snd_W_bind. by apply defined_inv.
Qed.

(** A macro has at most one parameter for each token of its definition. *)
Lemma parse_params_length o mo ts : forall ps prev_ident variadic,
  (length (pr_params (snd (parse_params_loop o mo ps prev_ident variadic ts))) <= length ps + length ts)%nat.
Proof.
  induction ts as [|t ts IH]; intros ps prev_ident variadic; cbn [parse_params_loop length]; [rewrite snd_W_bind; cbn; lia|].
  assert (forall node spelling, (length (snd (snd (_cpp_save_parameter ps node spelling))) <= length ps + 1)%nat) as Hsave.
  { intros node spelling. unfold _cpp_save_parameter. destruct (arg_index ps node); cbn; rewrite length_app; cbn; lia. }
  destruct (t_type t); try (rewrite snd_W_bind; cbn; lia).
  - destruct (_ || variadic); [rewrite snd_W_bind; cbn; lia|]. etransitivity; [apply IH|lia].
  - destruct (_ || variadic); [cbn; lia|]. rewrite snd_W_bind. cbn. lia.
  - destruct variadic; [rewrite snd_W_bind; cbn; lia|]. rewrite !snd_W_bind. etransitivity; [apply IH|].
    destruct prev_ident; cbn [negb]; [cbn; lia|]. pose proof (Hsave (bytes "__VA_ARGS__") (bytes "__VA_ARGS__")). lia.
  - destruct (_ || variadic); [rewrite snd_W_bind; cbn; lia|]. rewrite snd_W_bind.
    pose proof (Hsave (t_text t) (t_spelling t)) as Hs.
    destruct (fst (snd (_cpp_save_parameter ps (t_text t) (t_spelling t)))); [etransitivity; [apply IH|lia]|cbn; lia].
  - destruct (negb _); [etransitivity; [apply IH|lia]|rewrite snd_W_bind; cbn; lia].
Qed.

Lemma created_params_length o mo syshdr ts m : snd (create_iso_definition o mo syshdr ts) = Defined m ->
  (length (m_params m) <= length ts)%nat.
Proof.
  assert (forall ps fun_like variadic x, unsave ps (option_map (new_macro syshdr ps fun_like variadic) x) = Defined m ->
    (length (m_params m) <= length ps)%nat) as Hnew.
  { intros ps fun_like variadic x [Hall H]%unsave_defined. destruct x as [x|]; [|done]. injection H as <-.
    cbn. by rewrite saved_params_length. }
  unfold create_iso_definition. destruct ts as [|t ts]; [rewrite snd_W_bind; apply Hnew|].
  assert (forall r, snd (s ←w expansion_step o false (mk_exp [] false false (vaopt_init false true)) t ;;
      match s with
      | None => mret (unsave [] None)
      | Some x => r ←w expansion_loop o false [] x ts ;; mret (unsave [] (option_map (new_macro syshdr [] false false) r))
      end) = r -> r = Defined m -> (length (m_params m) <= S (length ts))%nat) as Hobj.
  { intros r <-. rewrite snd_W_bind. destruct (snd (expansion_step _ _ _ _)) as [x|]; [|done].
    rewrite snd_W_bind. intros H%Hnew. cbn in H. lia. }
  destruct (type_is t CPP_EOF); [rewrite snd_W_bind; intros H%Hnew; cbn in *; lia|].
  destruct (has PREV_WHITE t); [by apply Hobj|].
  destruct (type_is t CPP_OPEN_PAREN); [|rewrite snd_W_bind; by apply Hobj].
  rewrite snd_W_bind. pose proof (parse_params_length o mo ts [] false false) as Hlen.
  fold (parse_params o mo ts) in Hlen. destruct (snd (parse_params o mo ts)) as [ok ps variadic rest].
  cbn [pr_ok pr_rest pr_params pr_variadic length] in *. destruct ok; [|by intros [_ H]%unsave_defined].
  rewrite snd_W_bind. intros H%Hnew. lia.
Qed.

(** ** Texts *)

(** Source text; a backquote stands for a double quote. *)
Definition source (s : string) : list byte := map (fun c => if isc c "`" then 34 else c) (bytes s).

(** The tokens of a line of C17. *)
Definition line_tokens (s : string) : list cpp_token :=
  match snd (lex_line sample_table gnuc17_options plain_flags (fun _ => no_node) (S (String.length s)) 0
               (source s ++ [10]) (mk_lexer false false)) with
  | Some (ts, _) => ts
  | None => []
  end.

(** #define with the given line, the name first, and #undef. *)
Definition define_directive (s : string) : macro_directive :=
  match line_tokens s with t :: ts => DDefine (t_text t) ts | [] => DUndef [] end.
