(* ===== verification/Macro.v ===== *)
(** * Macro expansion

    The expansion of macros by macro.c: the stack of contexts the tokens come
    from, the collection and pre-expansion of arguments, their substitution
    with # and ##, and cpp_get_token, which puts them together.

    The reader is a state of the monad [M].  Its tokens come from the stack of
    contexts and, below it, from the lexer, here a list of tokens without
    directives.  A context keeps what was read from it, for
    _cpp_backup_tokens.  A computation can end in [Wild] (an access outside an
    array, or abort), in [Outside] (built-in macros, _Pragma and deferred
    pragmas, and raw strings or accesses of the lexer made by ##, which this
    file does not model) or in [NoFuel].

    A CPP_PADDING token has its source in [t_no]: 0 for none, or 1 and the
    flags of the source.  CPP_EOF with [t_no] 1 is [pfile->eof]. *)

From Stdlib Require Import ZArith Lia Bool String Ascii.
From stdpp Require Import base tactics list numbers gmap.
From S2P Require Import Prelude Reader CppNum NumLit Stream Utf StrLit Symtab CleanLine Lex LexLine MacroDef.

Local Open Scope string_scope.
Local Open Scope list_scope.
Local Open Scope Z_scope.

(** ** The reader *)

(** What does not change during an expansion. *)
Record macro_env : Type := mk_env {
  e_table : ucn_table;
  e_options : cpp_options;
  e_mopts : macro_options;
  e_lex : lex_flags;
  e_node : list byte -> lex_node;
  e_macros : gmap (list Z) macro_node;
  e_in_directive : bool;
  e_wants_padding : bool
}.

Record context : Type := mk_ctx {
  c_macro : option (list byte);
  c_read : list cpp_token;
  c_left : list cpp_token
}.

(** [p_disabled] are the macros whose node has NODE_DISABLED. *)
Record preader : Type := mk_preader {
  p_contexts : list context;
  p_base : context;
  p_disabled : gset (list Z);
  p_prevent_expansion : Z;
  p_warn_traditional : bool;
  p_lexer : lexer;
  p_diags : list diag
}.

Inductive outcome (A : Type) : Type :=
  | Ok (x : A) (s : preader)
  | NoFuel
  | Wild
  | Outside.
Arguments Ok {A}. Arguments NoFuel {A}. Arguments Wild {A}. Arguments Outside {A}.

Definition M (A : Type) : Type := preader -> outcome A.

#[export] Instance M_ret : MRet M := fun A x s => Ok x s.

Definition bindM {A B} (m : M A) (f : A -> M B) : M B := fun s =>
  match m s with Ok x s => f x s | NoFuel => NoFuel | Wild => Wild | Outside => Outside end.

Notation "x ←m m ;; k" := (bindM m (fun x => k))
  (at level 100, m at next level, k at level 200, right associativity).
Notation "m ;;m k" := (bindM m (fun _ => k))
  (at level 100, k at level 200, right associativity).

Definition getM : M preader := fun s => Ok s s.
Definition putM (f : preader -> preader) : M unit := fun s => Ok tt (f s).
Definition wildM {A} : M A := fun _ => Wild.
Definition outsideM {A} : M A := fun _ => Outside.
Definition nofuelM {A} : M A := fun _ => NoFuel.
Definition whenM (b : bool) (m : M unit) : M unit := if b then m else mret tt.

Definition set_contexts (cs : list context) (s : preader) : preader :=
  mk_preader cs (p_base s) (p_disabled s) (p_prevent_expansion s) (p_warn_traditional s) (p_lexer s) (p_diags s).
Definition set_base (c : context) (s : preader) : preader :=
  mk_preader (p_contexts s) c (p_disabled s) (p_prevent_expansion s) (p_warn_traditional s) (p_lexer s) (p_diags s).
Definition set_disabled (d : gset (list Z)) (s : preader) : preader :=
  mk_preader (p_contexts s) (p_base s) d (p_prevent_expansion s) (p_warn_traditional s) (p_lexer s) (p_diags s).
Definition set_prevent (n : Z) (s : preader) : preader :=
  mk_preader (p_contexts s) (p_base s) (p_disabled s) n (p_warn_traditional s) (p_lexer s) (p_diags s).
Definition set_warn_trad (b : bool) (s : preader) : preader :=
  mk_preader (p_contexts s) (p_base s) (p_disabled s) (p_prevent_expansion s) b (p_lexer s) (p_diags s).
Definition set_lexer (x : lexer) (s : preader) : preader :=
  mk_preader (p_contexts s) (p_base s) (p_disabled s) (p_prevent_expansion s) (p_warn_traditional s) x (p_diags s).
Definition add_diags (d : list diag) (s : preader) : preader :=
  mk_preader (p_contexts s) (p_base s) (p_disabled s) (p_prevent_expansion s) (p_warn_traditional s) (p_lexer s)
    (p_diags s ++ d).

Definition emitM (m : W unit) : M unit := putM (add_diags (fst m)).

(** ** Special tokens *)

Definition avoid_paste : cpp_token := mk_token CPP_PADDING 0 [] [] 0 false.
Definition padding_token (source : cpp_token) : cpp_token :=
  mk_token CPP_PADDING 0 [] [] (1 + t_flags source) false.
Definition pfile_eof : cpp_token := mk_token CPP_EOF 0 [] [] 1 false.

(** [val.source] of a padding token, by its flags. *)
Definition padding_source (t : cpp_token) : option Z :=
  if t_no t =? 0 then None else Some (t_no t - 1).
Definition no_source (t : cpp_token) : bool := match padding_source t with None => true | Some _ => false end.

(** ** Contexts *)

(** push_ptoken_context. *)
Definition push_context (macro : option (list byte)) (ts : list cpp_token) : M unit :=
  putM (fun s => set_contexts (mk_ctx macro [] ts :: p_contexts s) s).

Definition macro_of_context (cs : list context) : option (list byte) :=
  match cs with c :: _ => c_macro c | [] => None end.

(** _cpp_push_token_context and push_extended_tokens_context: without a macro
    the current expansion goes on. *)
Definition push_token_context (macro : option (list byte)) (ts : list cpp_token) : M unit :=
  s ←m getM ;;
  push_context (match macro with None => macro_of_context (p_contexts s) | Some _ => macro end) ts.

Definition _cpp_pop_context : M unit :=
  s ←m getM ;;
  match p_contexts s with
  | [] => wildM
  | c :: cs =>
      (match c_macro c with
       | Some m => whenM (negb (bool_decide (macro_of_context cs = Some m)))
                     (putM (set_disabled (p_disabled s ∖ {[m]})))
       | None => mret tt
       end) ;;m
      putM (set_contexts cs)
  end.

(** The next token of a context, which is not at its end. *)
Definition read_context (c : context) : option (cpp_token * context) :=
  match c_left c with
  | t :: ts => Some (t, mk_ctx (c_macro c) (t :: c_read c) ts)
  | [] => None
  end.
Definition unread_context (c : context) : option context :=
  match c_read c with
  | t :: ts => Some (mk_ctx (c_macro c) ts (t :: c_left c))
  | [] => None
  end.

(** The lexer: at the end of the text it delivers CPP_EOF. *)
Definition lex_base : M cpp_token :=
  s ←m getM ;;
  match read_context (p_base s) with
  | Some (t, c) => putM (set_base c) ;;m mret t
  | None => putM (set_base (mk_ctx None (eof_token :: c_read (p_base s)) [])) ;;m mret eof_token
  end.

(** _cpp_backup_tokens (pfile, 1). *)
Definition _cpp_backup_tokens : M unit :=
  s ←m getM ;;
  match p_contexts s with
  | [] => match unread_context (p_base s) with Some c => putM (set_base c) | None => wildM end
  | c :: cs => match unread_context c with Some c => putM (set_contexts (c :: cs)) | None => wildM end
  end.

Section Expand.
Context (e : macro_env).

Definition tracking : bool := 0 <? track_macro_expansion (e_mopts e).

(** ** The # operator *)

Definition cpp_quote_string (src : list byte) : list byte :=
  concat (map (fun c => if c =? 10 then bytes "\n"
                        else if isc c "\" || (c =? 34) then [chr "\"; c] else [c]) src).

(** The tokens that are quoted by stringify_arg. *)
Definition escape_it (t : cpp_token) : bool :=
  match t_type t with
  | CPP_STRING | CPP_CHAR | CPP_WSTRING | CPP_WCHAR | CPP_STRING32 | CPP_CHAR32
  | CPP_STRING16 | CPP_CHAR16 | CPP_UTF8STRING | CPP_UTF8CHAR => true
  | ty => cpp_userdef_string_p ty || cpp_userdef_char_p ty
  end.

(** The loop: [dest] is what was written behind the opening quote; [source]
    the flags of the padding source, [bs] the number of backslashes at the
    end. *)
Fixpoint stringify_loop (ts : list cpp_token) (source : option Z) (dest : list byte) (bs : Z)
  : option (list byte * Z) :=
  match ts with
  | [] => Some (dest, bs)
  | token :: ts =>
      if type_is token CPP_PADDING then
        let source := match source with
                      | None => padding_source token
                      | Some f => if negb (flag f PREV_WHITE) && no_source token
                                  then padding_source token else source
                      end in
        stringify_loop ts source dest bs
      else
        let white := flag (default (t_flags token) source) PREV_WHITE in
        let dest := if (match dest with [] => false | _ => true end) && white then dest ++ [32] else dest in
        sp ← cpp_spell_token token true;
        let dest := dest ++ (if escape_it token then cpp_quote_string sp else sp) in
        stringify_loop ts None dest
          (if type_is token CPP_OTHER && isc (look (t_text token) 0) "\" then u32 (bs + 1) else 0)
  end.

Definition stringify_arg (ts : list cpp_token) : M cpp_token :=
  match stringify_loop ts None [] 0 with
  | None => wildM
  | Some (dest, bs) =>
      let odd := negb (Z.land bs 1 =? 0) in
      whenM odd (emitM (cpp_error CPP_DL_WARNING "invalid string literal, ignoring final '\'")) ;;m
      mret (mk_token CPP_STRING 0 ([34] ++ (if odd then removelast dest else dest) ++ [34]) [] 0 false)
  end.

(** ** The ## operator *)

(** The text paste_tokens lexes. *)
Definition paste_text (lhs rhs : cpp_token) : option (list byte) :=
  l ← cpp_spell_token lhs true;
  r ← (if type_is rhs CPP_PADDING then Some [] else cpp_spell_token rhs true);
  Some (l ++ (if type_is lhs CPP_DIV && negb (type_is rhs CPP_EQ) then [32] else []) ++ r).

(** [Some lhs'] for the new left operand, and whether the paste succeeded. *)
Definition paste_tokens (lhs rhs : cpp_token) : M (bool * cpp_token) :=
  match paste_text lhs rhs with
  | None => wildM
  | Some [] => outsideM
  | Some buf =>
      s ←m getM ;;
      let l := lex_direct (e_table e) (e_options e) (e_lex e) (e_node e) (S (length buf + 1)) 0 (buf ++ [10]) (p_lexer s) in
      putM (add_diags (fst l)) ;;m
      match snd l with
      | Some (LexToken t r, x) =>
          putM (set_lexer x) ;;m
          if bool_decide (r = [10]) then mret (true, t)
          else
            _cpp_backup_tokens ;;m
            whenM (negb (is_asm (e_options e)))
              (emitM (cpp_error CPP_DL_ERROR "pasting '%s' and '%s' does not give a valid preprocessing token")) ;;m
            mret (false, drop_flag PASTE_LEFT lhs)
      | _ => outsideM
      end
  end.

(** The loop of paste_all_tokens over the operands in the current context. *)
Fixpoint paste_loop (fuel : nat) (lhs : cpp_token) : M cpp_token :=
  match fuel with
  | O => nofuelM
  | S fuel =>
      s ←m getM ;;
      match p_contexts s with
      | [] => wildM
      | c :: cs =>
          match read_context c with
          | None => wildM
          | Some (rhs, c) =>
              putM (set_contexts (c :: cs)) ;;m
              if type_is rhs CPP_PADDING && has PASTE_LEFT rhs then wildM
              else
                r ←m paste_tokens lhs rhs ;;
                let '(ok, lhs) := r in
                if (ok : bool) && has PASTE_LEFT rhs then paste_loop fuel lhs else mret lhs
          end
      end
  end.

Definition paste_all_tokens (fuel : nat) (lhs : cpp_token) : M unit :=
  s ←m getM ;;
  match macro_of_context (p_contexts s) with
  | None => wildM
  | Some macro =>
      if negb (has PASTE_LEFT lhs) then wildM
      else
        lhs ←m paste_loop fuel lhs ;;
        push_token_context (if tracking then Some macro else None) [lhs]
  end.

(** ** Arguments *)

(** [a_first] is [None] for a null pointer, where a variable argument was left
    out and its comma is to go. *)
Record macro_arg : Type := mk_arg {
  a_tokens : list cpp_token;
  a_first_null : bool;
  a_expanded : option (list cpp_token);
  a_stringified : option cpp_token
}.

Definition empty_arg (null : bool) : macro_arg := mk_arg [] null None None.

Definition expanded_tokens (a : macro_arg) : list cpp_token := default [] (a_expanded a).

Definition plural_error (few : bool) : string :=
  if few then "macro '%s' requires %u arguments, but only %u given"
  else "macro '%s' passed %u arguments, but takes just %u".

Definition _cpp_arguments_ok (macro : cpp_macro) (argc : Z) : W bool :=
  if argc =? m_paramc macro then mret true
  else if (argc <? m_paramc macro) && (argc + 1 =? m_paramc macro) && m_variadic macro then
    when (cpp_pedantic (e_options e) && negb (m_syshdr macro) && negb (va_opt (e_options e)))
      (cpp_error CPP_DL_PEDWARN
         (if cplusplus (e_options e)
          then "ISO C++11 requires at least one argument for the '...' in a variadic macro"
          else "ISO C99 requires at least one argument for the '...' in a variadic macro")) ;;w
    mret true
  else
    cpp_error CPP_DL_ERROR (plural_error (argc <? m_paramc macro)) ;;w
    cpp_error CPP_DL_NOTE "macro '%s' defined here" ;;w
    mret false.

Section Get.
Context (get : M cpp_token) (fuel : nat).

(** The tokens of one argument, the last one first, and the token that ends
    it; [last] tells whether commas belong to the argument. *)
Fixpoint collect_arg (n : nat) (last : bool) (paren_depth : Z) (acc : list cpp_token)
  : M (list cpp_token * cpp_token) :=
  match n with
  | O => nofuelM
  | S n =>
      token ←m get ;;
      let add depth := collect_arg n last depth (token :: acc) in
      match t_type token with
      | CPP_PADDING => match acc with [] => collect_arg n last paren_depth [] | _ => add paren_depth end
      | CPP_OPEN_PAREN => add (u32 (paren_depth + 1))
      | CPP_CLOSE_PAREN => if paren_depth =? 0 then mret (acc, token) else add (paren_depth - 1)
      | CPP_COMMA => if (paren_depth =? 0) && negb last then mret (acc, token) else add paren_depth
      | CPP_EOF => mret (acc, token)
      | CPP_HASH => if has BOL token then mret (acc, token) else add paren_depth
      | CPP_PRAGMA => outsideM
      | _ => add paren_depth
      end
  end.

Fixpoint drop_padding (rev : list cpp_token) : list cpp_token :=
  match rev with
  | t :: ts => if type_is t CPP_PADDING then drop_padding ts else rev
  | [] => []
  end.

(** All arguments, up to the closing parenthesis or the end. *)
Fixpoint collect_loop (n : nat) (macro : cpp_macro) (argc : Z) (args : list (list cpp_token))
  : M (list (list cpp_token) * cpp_token) :=
  match n with
  | O => nofuelM
  | S n =>
      let argc := argc + 1 in
      a ←m collect_arg fuel (m_variadic macro && (argc =? m_paramc macro)) 0 [] ;;
      let '(acc, token) := a in
      let args := args ++ [rev (drop_padding acc)] in
      if type_is token CPP_CLOSE_PAREN || type_is token CPP_EOF then mret (args, token)
      else collect_loop n macro argc args
  end.

(** The arguments as replace_args gets them: one for each parameter. *)
Definition make_args (macro : cpp_macro) (argc : Z) (collected : list (list cpp_token)) : list macro_arg :=
  let given := map (fun ts => mk_arg ts false None None) collected in
  let missing := repeat (empty_arg true) (Z.to_nat (m_paramc macro) - length given) in
  let args := given ++ missing in
  let no_tokens := match collected with [] :: _ => true | _ => false end in
  if m_variadic macro && ((argc <? m_paramc macro)
                          || ((argc =? 1) && no_tokens && negb (std (e_mopts e))))
  then match last args with
       | Some a => removelast args ++ [mk_arg (a_tokens a) true None None]
       | None => args
       end
  else args.

Definition collect_args (macro : cpp_macro) : M (option (list macro_arg)) :=
  c ←m collect_loop fuel macro 0 [] ;;
  let '(collected, token) := c in
  if type_is token CPP_EOF then
    s ←m getM ;;
    whenM ((match p_contexts s with [] => false | _ => true end) || e_in_directive e) _cpp_backup_tokens ;;m
    emitM (cpp_error CPP_DL_ERROR "unterminated argument list invoking macro '%s'") ;;m
    mret None
  else
    let argc := Z.of_nat (length collected) in
    let argc := if (argc =? 1) && (m_paramc macro =? 0)
                   && (match collected with [] :: _ => true | _ => false end) then 0 else argc in
    let ok := _cpp_arguments_ok macro argc in
    emitM (fst ok, tt) ;;m
    mret (if snd ok then Some (make_args macro argc collected) else None).

(** Look for the opening parenthesis; [None] if there is no invocation. *)
Fixpoint skip_to_paren (n : nat) (padding : option cpp_token) : M (option cpp_token * cpp_token) :=
  match n with
  | O => nofuelM
  | S n =>
      token ←m get ;;
      if type_is token CPP_PADDING then
        skip_to_paren n
          (match padding with
           | None => Some token
           | Some p => if negb (has PREV_WHITE p) && no_source token then Some token else padding
           end)
      else mret (padding, token)
  end.

Definition funlike_invocation_p (macro : cpp_macro) : M (option (list macro_arg)) :=
  p ←m skip_to_paren fuel None ;;
  let '(padding, token) := p in
  if type_is token CPP_OPEN_PAREN then collect_args macro
  else
    whenM (negb (type_is token CPP_EOF) || (t_no token =? 1))
      (_cpp_backup_tokens ;;m
       match padding with Some p => push_token_context None [p] | None => mret tt end) ;;m
    mret None.

(** The tokens of an argument, read to its CPP_EOF with expansion. *)
Fixpoint expand_arg_loop (n : nat) (acc : list cpp_token) : M (list cpp_token) :=
  match n with
  | O => nofuelM
  | S n =>
      token ←m get ;;
      if type_is token CPP_EOF then mret (rev acc) else expand_arg_loop n (token :: acc)
  end.

Definition expand_arg (a : macro_arg) : M macro_arg :=
  match a_tokens a, a_expanded a with
  | [], _ | _, Some _ => mret a
  | ts, None =>
      s ←m getM ;;
      let saved := p_warn_traditional s in
      putM (set_warn_trad false) ;;m
      (if tracking then push_token_context else push_context) None (ts ++ [pfile_eof]) ;;m
      expanded ←m expand_arg_loop fuel [] ;;
      _cpp_pop_context ;;m
      putM (set_warn_trad saved) ;;m
      mret (mk_arg (a_tokens a) (a_first_null a) (Some expanded) (a_stringified a))
  end.

(** ** Substitution *)

(** The argument of a CPP_MACRO_ARG token: args[arg_no - 1]. *)
Definition arg_of (args : list macro_arg) (src : cpp_token) : option macro_arg :=
  if t_no src =? 0 then None else args !! Z.to_nat (t_no src - 1).

(** Whether the token before is an operand of ## ([None]: no token before). *)
Definition pasted (prev : option cpp_token) : bool :=
  match prev with Some p => has PASTE_LEFT p | None => false end.

(** The first pass: stringify and expand the arguments that need it. *)
Fixpoint prepare_args (prev : option cpp_token) (srcs : list cpp_token) (args : list macro_arg)
  : M (list macro_arg) :=
  match srcs with
  | [] => mret args
  | src :: srcs =>
      if type_is src CPP_MACRO_ARG then
        match arg_of args src with
        | None => wildM
        | Some arg =>
            arg ←m (if has STRINGIFY_ARG src then
                      match a_stringified arg with
                      | Some _ => mret arg
                      | None => t ←m stringify_arg (a_tokens arg) ;;
                                mret (mk_arg (a_tokens arg) (a_first_null arg) (a_expanded arg) (Some t))
                      end
                    else if has PASTE_LEFT src || pasted prev then mret arg
                    else expand_arg arg) ;;
            prepare_args (Some src) srcs (<[Z.to_nat (t_no src - 1) := arg]> args)
        end
      else prepare_args (Some src) srcs args
  end.

(** copy_paste_flag, on the token at a place of the buffer. *)
Definition copy_paste_flag (i : nat) (src : cpp_token) (buff : list cpp_token) : list cpp_token :=
  alter (fun t => mk_token (t_type t)
                    (if has PASTE_LEFT src then Z.lor (t_flags t) PASTE_LEFT
                     else Z.land (t_flags t) (Z.lnot PASTE_LEFT))
                    (t_text t) (t_spelling t) (t_no t) false) i buff.

(** The place of the last token, and whether it is a given place. *)
Definition last_token (buff : list cpp_token) : option nat :=
  match length buff with O => None | S n => Some n end.
Definition last_token_is (buff : list cpp_token) (p : option nat) : bool :=
  match p with Some _ => bool_decide (last_token buff = p) | None => false end.

Definition type_at (buff : list cpp_token) (i : nat) (ty : cpp_ttype) : bool :=
  match buff !! i with Some t => type_is t ty | None => false end.

(** The padding at the end of the buffer goes, down to the place [start]. *)
Fixpoint drop_tail (n : nat) (start : option nat) (buff : list cpp_token) : list cpp_token :=
  match n with
  | O => buff
  | S n =>
      match last_token buff with
      | Some i => if negb (bool_decide (start = Some i)) && type_at buff i CPP_PADDING
                  then drop_tail n start (removelast buff) else buff
      | None => buff
      end
  end.

Record substitution : Type := mk_subst {
  s_buff : list cpp_token;
  s_vaopt : vaopt_state;
  s_start : option nat
}.

Definition empty_arg_diag (macro : cpp_macro) : W unit :=
  let o := e_options e in
  let sys := m_syshdr macro || Lex.in_system_header (e_lex e) in
  if cpp_pedantic o && negb (c99 o) && negb sys then
    if cplusplus o then
      cpp_pedwarning CPP_W_PEDANTIC "invoking macro %s argument %d: empty macro arguments are undefined in ISO C++98"
    else when (negb (cpp_warn_c90_c99_compat o =? 0))
           (cpp_pedwarning (if 0 <? cpp_warn_c90_c99_compat o then CPP_W_C90_C99_COMPAT else CPP_W_PEDANTIC)
              "invoking macro %s argument %d: empty macro arguments are undefined in ISO C90")
  else when ((0 <? cpp_warn_c90_c99_compat o) && negb (cplusplus o) && negb sys)
         (cpp_warning CPP_W_C90_C99_COMPAT
            "invoking macro %s argument %d: empty macro arguments are undefined in ISO C90").

(** The tokens that stand for a parameter, with the buffer before them and the
    place whose PASTE_LEFT is to be set. *)
Definition arg_tokens (macro : cpp_macro) (prev : option cpp_token) (src : cpp_token) (arg : macro_arg)
  (buff : list cpp_token) (start : option nat)
  : option (list cpp_token * list cpp_token * option nat) :=
  if has STRINGIFY_ARG src then t ← a_stringified arg; Some ([t], buff, None)
  else if has PASTE_LEFT src then Some (a_tokens arg, buff, None)
  else if pasted prev then
    match last_token buff with
    | None => Some (a_tokens arg, buff, None)
    | Some i =>
        if type_at buff i CPP_COMMA && m_variadic macro && (t_no src =? m_paramc macro) then
          if a_first_null arg then Some (a_tokens arg, removelast buff, None)
          else Some (a_tokens arg, buff, Some i)
        else if (match a_tokens arg with [] => true | _ => false end) && negb (bool_decide (start = Some i))
        then Some (a_tokens arg, buff, Some i)
        else Some (a_tokens arg, buff, None)
    end
  else
    let ts := expanded_tokens arg in
    Some (if last_token_is buff start then drop_padding ts else ts, buff, None).

(** A parameter is replaced. *)
Definition replace_param (macro : cpp_macro) (prev : option cpp_token) (src : cpp_token) (arg : macro_arg)
  (x : substitution) : W (option substitution) :=
  match arg_tokens macro prev src arg (s_buff x) (s_start x) with
  | None => mret None
  | Some (ts, buff, paste_flag) =>
      let at_start b := last_token_is b (s_start x) in
      let buff := if (negb (e_in_directive e) || e_wants_padding e)
                     && (match prev with Some p => negb (has PASTE_LEFT p) | None => false end)
                     && negb (at_start buff)
                  then buff ++ [padding_token src] else buff in
      let buff := buff ++ ts in
      when (match ts with [] => true | _ => false end) (empty_arg_diag macro) ;;w
      let paste_flag := match ts with
                        | [] => paste_flag
                        | _ => if has PASTE_LEFT src then last_token buff else paste_flag
                        end in
      let buff := if negb (e_in_directive e) && negb (has PASTE_LEFT src) && negb (at_start buff)
                  then buff ++ [avoid_paste] else buff in
      let buff := match paste_flag with Some i => copy_paste_flag i src buff | None => buff end in
      mret (Some (mk_subst buff (s_vaopt x) (s_start x)))
  end.

(** One token of the replacement list. *)
Definition replace_step (macro : cpp_macro) (args : list macro_arg) (prev : option cpp_token)
  (src : cpp_token) (x : substitution) : W (option substitution) :=
  v ←w vaopt_update (s_vaopt x) src ;;
  let '(vostate, v) := v in
  match vostate with
  | VBEGIN =>
      let buff := match prev with
                  | Some p => if has PASTE_LEFT p then s_buff x else s_buff x ++ [padding_token src]
                  | None => s_buff x
                  end in
      mret (Some (mk_subst buff v (last_token buff)))
  | VEND =>
      let buff := drop_tail (length (s_buff x)) (s_start x) (s_buff x) in
      let buff := if has PASTE_LEFT src then
                    match last_token buff with
                    | Some i => if type_at buff i CPP_PADDING then buff else copy_paste_flag i src buff
                    | None => buff
                    end
                  else buff ++ [avoid_paste] in
      mret (Some (mk_subst buff v None))
  | VERROR | VDROP => mret (Some (mk_subst (s_buff x) v (s_start x)))
  | VINCLUDE =>
      let x := mk_subst (s_buff x) v (s_start x) in
      if type_is src CPP_MACRO_ARG then
        match arg_of args src with
        | None => mret None
        | Some arg => replace_param macro prev src arg x
        end
      else mret (Some (mk_subst (s_buff x ++ [src]) v (s_start x)))
  end.

Fixpoint replace_loop (macro : cpp_macro) (args : list macro_arg) (prev : option cpp_token)
  (srcs : list cpp_token) (x : substitution) : W (option (list cpp_token)) :=
  match srcs with
  | [] => mret (Some (s_buff x))
  | src :: srcs =>
      r ←w replace_step macro args prev src x ;;
      match r with
      | None => mret None
      | Some x => replace_loop macro args (Some src) srcs x
      end
  end.

Definition replace_args (name : list byte) (macro : cpp_macro) (args : list macro_arg) : M unit :=
  args ←m prepare_args None (real_tokens macro) args ;;
  match args !! Z.to_nat (m_paramc macro - 1) with
  | None => wildM
  | Some a =>
      let any_args := match a_tokens a with [] => false | _ => true end in
      let r := replace_loop macro args None (real_tokens macro)
                 (mk_subst [] (vaopt_init (m_variadic macro) any_args) None) in
      putM (add_diags (fst r)) ;;m
      match snd r with
      | None => wildM
      | Some buff => push_context (Some name) buff
      end
  end.

(** ** Expansion *)

(** Push the expansion of a macro; whether there was one. *)
Definition enter_macro_context (name : list byte) (value : node_value) : M bool :=
  match value with
  | NUser macro =>
      r ←m (if m_fun_like macro then
              s ←m getM ;;
              putM (set_prevent (p_prevent_expansion s + 1)) ;;m
              a ←m funlike_invocation_p macro ;;
              s ←m getM ;;
              putM (set_prevent (p_prevent_expansion s - 1)) ;;m
              match a with
              | None =>
                  s ←m getM ;;
                  whenM (p_warn_traditional s && negb (m_syshdr macro))
                    (emitM (cpp_warning CPP_W_TRADITIONAL
                              "function-like macro '%s' must be used with arguments in traditional C")) ;;m
                  mret false
              | Some args =>
                  whenM (0 <? m_paramc macro) (replace_args name macro args) ;;m mret true
              end
            else mret true) ;;
      if r : bool then
        s ←m getM ;;
        putM (set_disabled (p_disabled s ∪ {[name]})) ;;m
        whenM (m_paramc macro =? 0) (push_context (Some name) (real_tokens macro)) ;;m
        mret true
      else mret false
  | NBuiltin => outsideM
  | NVoid => mret false
  end.
End Get.

(** What cpp_get_token_1 does with a token it has read, which is not the left
    operand of ##. *)
Definition expand_token (get : M cpp_token) (fuel : nat) (result : cpp_token) : M cpp_token :=
  if e_in_directive e && type_is result CPP_COMMENT then get
  else if negb (type_is result CPP_NAME) then mret result
  else
    match e_macros e !! t_text result with
    | None => mret result
    | Some node =>
        match mn_value node with
        | NVoid => mret result
        | v =>
            if has NO_EXPAND result then mret result
            else
              s ←m getM ;;
              if bool_decide (t_text result ∈ p_disabled s) then mret (add_flag NO_EXPAND result)
              else if negb (p_prevent_expansion s =? 0) then mret result
              else if flag (mn_flags node) NODE_CONDITIONAL then mret result
              else
                r ←m enter_macro_context get fuel (t_text result) v ;;
                if r : bool then
                  if e_in_directive e then get else mret (padding_token result)
                else mret result
        end
    end.

(** One round of its loop; [get] is the next one, and the calls of the
    functions it uses. *)
Definition get_round (get : M cpp_token) (fuel : nat) : M cpp_token :=
  s ←m getM ;;
  match p_contexts s with
  | [] => t ←m lex_base ;; expand_token get fuel t
  | c :: cs =>
      match read_context c with
      | Some (result, c) =>
          putM (set_contexts (c :: cs)) ;;m
          if has PASTE_LEFT result then
            paste_all_tokens fuel result ;;m
            if e_in_directive e then get else mret (padding_token result)
          else expand_token get fuel result
      | None =>
          _cpp_pop_context ;;m
          if e_in_directive e then get else mret avoid_paste
      end
  end.

Fixpoint cpp_get_token_1 (fuel : nat) : M cpp_token :=
  match fuel with
  | O => nofuelM
  | S fuel => get_round (cpp_get_token_1 fuel) fuel
  end.

Definition cpp_get_token (fuel : nat) : M cpp_token := cpp_get_token_1 fuel.

(** The tokens up to the end of the text. *)
Fixpoint get_tokens (n fuel : nat) : M (list cpp_token) :=
  match n with
  | O => nofuelM
  | S n =>
      t ←m cpp_get_token fuel ;;
      if type_is t CPP_EOF then mret []
      else ts ←m get_tokens n fuel ;; mret (t :: ts)
  end.
End Expand.

(** A reader at the beginning of a text. *)
Definition start_reader (o : cpp_options) (ts : list cpp_token) : preader :=
  mk_preader [] (mk_ctx None [] ts) ∅ 0 (cpp_warn_traditional o) (mk_lexer (warn_dollars o) false) [].

Definition expand_text (e : macro_env) (fuel : nat) (ts : list cpp_token) : outcome (list cpp_token) :=
  get_tokens e fuel fuel (start_reader (e_options e) ts).
