(* ===== verification/MacroSafe.v ===== *)
(** * The safety of macro expansion

    Outside directives, with macros create_iso_definition has accepted, no
    array of the expansion is left: arguments and saved tokens are found, ##
    always has a right operand, and contexts and tokens are only given back
    where there are some.  The proof is an invariant of the reader, kept by
    cpp_get_token, which also tells which macros are disabled and what tokens
    are delivered.  MacroSpec shows that inside a directive ## can read past
    the end of a context. *)

From Stdlib Require Import ZArith Lia Bool String Ascii.
From stdpp Require Import base tactics list numbers gmap.
From S2P Require Import Prelude Reader CppNum NumLit Stream Utf StrLit Symtab CleanLine Lex LexGrammar LexSpec LexPaste LexLine MacroDef MacroDefSpec Macro.

Local Open Scope string_scope.
Local Open Scope list_scope.
Local Open Scope Z_scope.

(** ** Tokens from the lexer *)

Definition unmarked (flags : Z) : Prop := flag flags PASTE_LEFT = false /\ flag flags STRINGIFY_ARG = false.

Lemma plain_from_spell t : TOKEN_SPELL (t_type t) <> SPELL_NONE -> unmarked (t_flags t) -> lexed_plain t.
Proof. intros Hs [Hp Hq]. unfold lexed_plain. split_and!; [by intros E; rewrite E in Hs..|done|done]. Qed.

Lemma text_plain o node flags s t : operators_marked node -> unmarked flags -> text_of_token o node flags s t ->
  lexed_plain t /\ t_type t <> CPP_EOF.
Proof.
  intros Hop [Hp Hq] H. enough (TOKEN_SPELL (t_type t) <> SPELL_NONE /\ unmarked (t_flags t)) as [H1 H2].
  { split; [by apply plain_from_spell|]. intros E. by rewrite E in H1. }
  destruct H as [(k & Hk & Ht)|(-> & _)]; [|by split].
  destruct k as [| |ty|ty dg]; cbn [token_of] in Ht.
  - destruct (ident_name s) as [n|]; [|done]. injection Ht as <-. cbn [t_type t_flags].
    destruct (flag (ln_flags (node n)) NODE_OPERATOR) eqn:E; [|by split].
    apply Hop, operator_array_ok in E as (-> & _). split; [done|]. split; rewrite flag_lor; by rewrite ?Hp, ?Hq.
  - by injection Ht as <-.
  - injection Ht as <-. split; [|done]. cbn [t_type]. inversion Hk; subst.
    + by edestruct literal_spell as [-> _].
    + by edestruct literal_spell as [_ ->].
  - injection Ht as <-. inversion Hk; subst. cbn [t_type t_flags].
    edestruct punct_spell as (-> & _); [eassumption|]. split; [done|].
    destruct dg; [|done]. split; rewrite flag_lor; by rewrite ?Hp, ?Hq.
Qed.

Section Lexed.
Context (tab : ucn_table) (o : cpp_options) (st : lex_flags) (node : list byte -> lex_node).
Context (Hang : angled_headers st = false) (Hop : operators_marked node).

Lemma lex_token_plain flags base x t r x' : unmarked flags ->
  snd (lex_token tab o st node flags base x) = (LexToken t r, x') -> lexed_plain t /\ t_type t <> CPP_EOF.
Proof.
  intros Hf H. destruct (less_scope o base) eqn:E.
  - pose proof (lex_less_scope tab o st node Hang flags base x E) as Hl. rewrite H in Hl. cbn [fst] in Hl.
    injection Hl as -> ->. split; [|done]. by apply plain_from_spell.
  - pose proof (lex_token_right tab o st node Hang flags base x E) as Hr. rewrite H in Hr.
    destruct Hr as (s & _ & Ht). by eapply text_plain.
Qed.

Lemma lex_direct_plain fuel flags base x t r x' : unmarked flags ->
  snd (lex_direct tab o st node fuel flags base x) = Some (LexToken t r, x') -> lexed_plain t /\ t_type t <> CPP_EOF.
Proof.
  revert flags base x. induction fuel as [|fuel IH]; intros flags base x Hf; [done|].
  cbn [lex_direct]. rewrite snd_W_bind. destruct (snd (lex_token tab o st node flags base x)) as [l y] eqn:El.
  cbn [fst snd]. destruct l; try (intros H; apply IH in H; [done|]; destruct Hf; split; rewrite flag_lor; by apply orb_false_intro);
    intros [= -> -> ->]; by eapply lex_token_plain.
Qed.

(** The tokens of a line. *)
Lemma lex_line_plain fuel flags base x ts x' : unmarked flags ->
  snd (lex_line tab o st node fuel flags base x) = Some (ts, x') -> Forall lexed_plain ts.
Proof.
  revert flags base x ts. induction fuel as [|fuel IH]; intros flags base x ts Hf; [done|].
  cbn [lex_line]. rewrite snd_W_bind. destruct (snd (lex_direct _ _ _ _ _ _ _ _)) as [[l y]|] eqn:El; [|done].
  destruct l; try done; [by intros [= <- _]|].
  rewrite snd_W_bind. apply lex_direct_plain in El; [|done].
  destruct (snd (lex_line tab o st node fuel 0 r y)) as [[ts' z]|] eqn:Et; [|done].
  intros [= <- <-]. constructor; [apply El|]. by apply (IH 0 r y).
Qed.
End Lexed.

(** ** Computations that do not go wrong *)

Definition post {A} (P : A -> preader -> Prop) (r : outcome A) : Prop :=
  match r with Ok x s => P x s | Wild => False | NoFuel | Outside => True end.

Lemma post_bind {A B} (m : M A) (f : A -> M B) s (Q : A -> preader -> Prop) (P : B -> preader -> Prop) :
  post Q (m s) -> (forall x s', Q x s' -> post P (f x s')) -> post P (bindM m f s).
Proof. unfold bindM. destruct (m s); cbn; auto. Qed.

Lemma post_imp {A} (Q P : A -> preader -> Prop) r : post Q r -> (forall x s, Q x s -> P x s) -> post P r.
Proof. destruct r; cbn; auto. Qed.

Lemma post_get {A} (f : preader -> M A) s P : post P (f s s) -> post P ((s ←m getM ;; f s) s).
Proof. done. Qed.

Lemma post_put {A} (g : preader -> preader) (m : M A) s P : post P (m (g s)) -> post P ((putM g ;;m m) s).
Proof. done. Qed.

Lemma post_emit {A} (b : bool) w (m : M A) s P : post P (m (if b then add_diags (fst w) s else s)) ->
  post P ((whenM b (emitM w) ;;m m) s).
Proof. by destruct b. Qed.

(** ** The invariant *)

(** A token that is delivered, and one in the context of a macro. *)
Definition delivered (t : cpp_token) : Prop := has PASTE_LEFT t = false /\ t_type t <> CPP_MACRO_ARG.

Definition operand (t : cpp_token) : Prop :=
  t_type t <> CPP_MACRO_ARG /\ t_type t <> CPP_EOF /\ (t_type t = CPP_PADDING -> has PASTE_LEFT t = false).

(** Every ## has a right operand. *)
Definition chain (ts : list cpp_token) : Prop :=
  Forall operand ts /\ has PASTE_LEFT (List.last ts eof_token) = false.

Definition not_eof (t : cpp_token) : Prop := t_type t <> CPP_EOF.

(** The tokens of a context, those that were read first. *)
Definition all (c : context) : list cpp_token := rev (c_read c) ++ c_left c.

(** A context has the replacement of a macro, or tokens as they are delivered:
    an argument, padding or the result of ##. *)
Definition ctx_ok (c : context) : Prop :=
  Forall delivered (all c) \/ (c_macro c <> None /\ chain (all c)).

Definition macros_of (cs : list context) : gset (list Z) := list_to_set (omap c_macro cs).
Arguments macros_of : simpl never.

(** The contexts of a macro are next to each other. *)
Fixpoint nested (cs : list context) : Prop :=
  match cs with
  | [] => True
  | c :: cs => nested cs /\
      match c_macro c with Some m => macro_of_context cs = Some m \/ m ∉ macros_of cs | None => True end
  end.

(** The macros that are disabled are those whose tokens are being read. *)
Record reader_ok (s : preader) : Prop := {
  ro_contexts : Forall ctx_ok (p_contexts s);
  ro_nested : nested (p_contexts s);
  ro_disabled : p_disabled s = macros_of (p_contexts s);
  ro_prevent : 0 <= p_prevent_expansion s;
  ro_base : Forall (fun t => delivered t /\ not_eof t) (c_left (p_base s))
}.

(** *** Reading from a context and giving back *)

Lemma read_context_spec c t c' : read_context c = Some (t, c') ->
  all c' = all c /\ c_macro c' = c_macro c /\ c_left c = t :: c_left c' /\ c_read c' = t :: c_read c.
Proof.
  unfold read_context, all. destruct c as [m rd [|u ts]]; [done|]. intros [= <- <-]. cbn.
  by rewrite <- app_assoc.
Qed.

Lemma unread_context_spec c t rd : c_read c = t :: rd -> exists c',
  unread_context c = Some c' /\ all c' = all c /\ c_macro c' = c_macro c /\ c_left c' = t :: c_left c /\ c_read c' = rd.
Proof.
  unfold unread_context, all. intros ->. eexists. split; [done|]. cbn. by rewrite <- app_assoc.
Qed.

Lemma read_context_end c : read_context c = None -> c_left c = [].
Proof. unfold read_context. by destruct (c_left c). Qed.

Lemma in_all_left c t ts (P : cpp_token -> Prop) : Forall P (all c) -> c_left c = t :: ts -> P t.
Proof. unfold all. intros [_ H]%Forall_app E. rewrite E in H. by inversion H. Qed.

Lemma in_all_read c t ts (P : cpp_token -> Prop) : Forall P (all c) -> c_read c = t :: ts -> P t.
Proof.
  unfold all. intros [H _]%Forall_app E. rewrite E in H. cbn [rev] in H. apply Forall_app in H as [_ H]. by inversion H.
Qed.

(** Contexts that differ in what was read are as good. *)
Definition same_context (c c' : context) : Prop := all c' = all c /\ c_macro c' = c_macro c.

Lemma ctx_ok_same c c' : same_context c c' -> ctx_ok c -> ctx_ok c'.
Proof. unfold ctx_ok. by intros [-> ->]. Qed.

Lemma macros_of_same c c' cs : c_macro c' = c_macro c -> macros_of (c' :: cs) = macros_of (c :: cs).
Proof. unfold macros_of. cbn. by intros ->. Qed.

Lemma macros_of_cons c cs : macros_of (c :: cs) = match c_macro c with Some m => {[m]} | None => ∅ end ∪ macros_of cs.
Proof. unfold macros_of. cbn. destruct (c_macro c); [done|]. set_solver. Qed.

Lemma reader_ok_top s c c' cs d : reader_ok s -> p_contexts s = c :: cs -> same_context c c' ->
  reader_ok (add_diags d (set_contexts (c' :: cs) s)).
Proof.
  intros [Hc Hn Hd Hp Hb] E [Ha Hm]. rewrite E in *. inversion Hc; subst.
  split; cbn [p_contexts p_disabled p_prevent_expansion p_base set_contexts add_diags]; try done.
  - constructor; [by apply (ctx_ok_same c)|done].
  - cbn [nested] in *. by rewrite Hm.
  - by rewrite (macros_of_same c c').
Qed.

(** *** The end of what is read: the text, or the argument that is expanded *)

(** The context of an argument, closed by [pfile_eof]. *)
Definition arg_context (c : context) : Prop :=
  exists ts, all c = ts ++ [pfile_eof] /\ Forall not_eof ts.

Definition open_context (c : context) : Prop := Forall not_eof (all c).

(** Above the contexts [K] of the floor is the argument, not yet at its end,
    and what has been entered since; without a floor, the text is read. *)
Definition framed (F : option (list context)) (s : preader) : Prop :=
  match F with
  | None => Forall open_context (p_contexts s)
  | Some K => exists above b, p_contexts s = above ++ b :: K /\ Forall open_context above /\ arg_context b /\ c_left b <> []
  end.

(** The end has been read. *)
Definition spent (F : option (list context)) (t : cpp_token) (s : preader) : Prop :=
  match F with
  | None => p_contexts s = [] /\ t_no t = 0
  | Some K => t = pfile_eof /\ exists b rd, p_contexts s = b :: K /\ arg_context b /\ c_left b = [] /\ c_read b = pfile_eof :: rd
  end.

Definition after (F : option (list context)) (t : cpp_token) (s : preader) : Prop :=
  (t_type t = CPP_EOF /\ spent F t s) \/ (t_type t <> CPP_EOF /\ framed F s).

(** The token can be given back. *)
Definition readback (t : cpp_token) (s : preader) : Prop :=
  match p_contexts s with
  | [] => exists u rd, c_read (p_base s) = u :: rd /\ delivered u /\ not_eof u
  | c :: _ => exists u rd, c_read c = u :: rd /\ t_type u = t_type t
  end.

Lemma arg_context_same c c' : same_context c c' -> arg_context c -> arg_context c'.
Proof. unfold arg_context. by intros [-> _]. Qed.

Lemma open_context_same c c' : same_context c c' -> open_context c -> open_context c'.
Proof. unfold open_context. by intros [-> _]. Qed.

Lemma open_not_arg c : open_context c -> arg_context c -> False.
Proof. unfold open_context. intros H (ts & E & _). rewrite E in H. apply Forall_app in H as [_ H]. by inversion H. Qed.

Lemma chain_open c : chain (all c) -> open_context c.
Proof. intros [H _]. eapply Forall_impl; [exact H|]. by intros t (_ & ? & _). Qed.

(** The contexts decide. *)
Lemma framed_contexts F s s' : p_contexts s' = p_contexts s -> framed F s -> framed F s'.
Proof. unfold framed. by intros ->. Qed.

Lemma framed_push F s s' c : framed F s -> p_contexts s' = c :: p_contexts s -> open_context c -> framed F s'.
Proof.
  unfold framed. intros H -> Hc. destruct F as [K|]; [|by constructor].
  destruct H as (above & b & -> & Ha & Hb). exists (c :: above), b. split; [done|]. split; [by constructor|done].
Qed.

Lemma framed_pop F s s' c cs : framed F s -> p_contexts s = c :: cs -> p_contexts s' = cs -> c_left c = [] -> framed F s'.
Proof.
  unfold framed. intros H E -> Hc. rewrite E in H. destruct F as [K|]; [|by inversion H].
  destruct H as ([|a above] & b & E' & Ha & Hb & Hl); injection E' as <- E'; [done|].
  exists above, b. inversion Ha; subst. done.
Qed.

(** The context on top may be read or given back to. *)
Lemma framed_top F s s' c c' cs : framed F s -> p_contexts s = c :: cs -> p_contexts s' = c' :: cs ->
  same_context c c' -> c_left c' <> [] \/ open_context c -> framed F s'.
Proof.
  unfold framed. intros H E -> Hs Hl. rewrite E in H. destruct F as [K|].
  - destruct H as ([|a above] & b & E' & Ha & Hb & Hb'); injection E' as <- ->.
    + exists [], c'. split_and!; [done..|by apply (arg_context_same c)|]. destruct Hl as [|Ho]; [done|]. destruct (open_not_arg c Ho Hb).
    + exists (c' :: above), b. inversion Ha; subst. split_and!; try done. constructor; [by apply (open_context_same c)|done].
  - inversion H; subst. constructor; [by apply (open_context_same c)|done].
Qed.

Lemma snoc_end {A} (ts rest : list A) (t e : A) rd : rev rd ++ t :: rest = ts ++ [e] ->
  (rest = [] /\ t = e) \/ (exists ts', rest = ts' ++ [e] /\ In t ts).
Proof.
  intros H. destruct (list_eq_nil_dec rest) as [->|Hne]; [left|right].
  - apply app_inj_tail in H as [_ ->]. done.
  - destruct (exists_last Hne) as (ts' & e' & ->). exists ts'.
    change (t :: ts' ++ [e']) with ((t :: ts') ++ [e']) in H. rewrite app_assoc in H.
    apply app_inj_tail in H as [<- ->]. split; [done|]. apply in_or_app. right. by left.
Qed.

(** What the next token of a context is, and where that leaves the reader. *)
Lemma after_read F s s' c c' cs t : framed F s -> p_contexts s = c :: cs -> read_context c = Some (t, c') ->
  p_contexts s' = c' :: cs -> after F t s'.
Proof.
  intros H E Hr E'. destruct (read_context_spec _ _ _ Hr) as (Ha & Hm & Hl & Hrd).
  assert (same_context c c') as Hs by done.
  assert (open_context c -> t_type t <> CPP_EOF) as Hopen by (intros Ho; by apply (in_all_left c t (c_left c') not_eof)).
  unfold framed in H. rewrite E in H. destruct F as [K|].
  2: { right. inversion H; subst. split; [by apply Hopen|]. unfold framed. rewrite E'. constructor; [by apply (open_context_same c)|done]. }
  destruct H as ([|a above] & b & Eq & Hab & Hb & Hb'); injection Eq as <- ->.
  - destruct Hb as (ts & Hts & Hne). pose proof Hts as Hsn. unfold all in Hsn. rewrite Hl in Hsn.
    destruct (snoc_end _ _ _ _ _ Hsn) as [[Hnil ->]|(ts' & Hl' & Hin)].
    + left. split; [done|]. split; [done|]. exists c', (c_read c). split_and!; try done.
      exists ts. by rewrite Ha.
    + right. split; [exact (proj1 (List.Forall_forall _ _) Hne t Hin)|]. exists [], c'. rewrite E'. split_and!; try done.
      * exists ts. by rewrite Ha.
      * rewrite Hl'. by destruct ts'.
  - inversion Hab; subst. right. split; [by apply Hopen|]. exists (c' :: above), b. rewrite E'. split_and!; try done.
    constructor; [by apply (open_context_same c)|done].
Qed.

(** Giving the last token back. *)
Lemma backup_ok F t s : reader_ok s -> after F t s -> readback t s ->
  (p_contexts s = [] -> t_type t <> CPP_EOF) ->
  post (fun _ s' => reader_ok s' /\ framed F s' /\ p_prevent_expansion s' = p_prevent_expansion s /\
                    macros_of (p_contexts s') = macros_of (p_contexts s)) (_cpp_backup_tokens s).
Proof.
  intros Hs Hf Hb Hnil. unfold _cpp_backup_tokens, bindM, getM. unfold readback in Hb.
  destruct (p_contexts s) as [|c cs] eqn:E.
  - destruct Hb as (u & rd & Hr & Hu). destruct (unread_context_spec _ _ _ Hr) as (c' & -> & Ha & Hm & Hl & Hrd).
    destruct Hf as [[He _]|[_ Hf]]; [by destruct Hnil|]. destruct Hs as [H1 H2 H3 H4 H5].
    cbn. split_and!; [|by eapply framed_contexts; [|exact Hf]|done|by rewrite E].
    split; cbn; try done. rewrite Hl. by constructor.
  - destruct Hb as (u & rd & Hr & Hu). destruct (unread_context_spec _ _ _ Hr) as (c' & -> & Ha & Hm & Hl & Hrd).
    assert (same_context c c') as Hsame by done.
    split_and!; [| |done|exact (macros_of_same c c' cs Hm)].
    + pose proof (reader_ok_top s c c' cs [] Hs E Hsame) as H. destruct H as [H1 H2 H3 H4 H5]. by split.
    + destruct Hf as [[_ Hf]|[_ Hf]].
      * destruct F as [K|]; [|unfold spent in Hf; rewrite E in Hf; by destruct Hf].
        destruct Hf as (_ & b & rd' & E2 & Harg & _). rewrite E in E2. injection E2 as <- <-.
        exists [], c'. split_and!; [done..|by apply (arg_context_same c)|by rewrite Hl].
      * eapply framed_top; [exact Hf|exact E|done|done|]. left. by rewrite Hl.
Qed.

(** ** The operations *)

Record env_ok (e : macro_env) : Prop := {
  eo_directive : e_in_directive e = false;
  eo_angled : angled_headers (e_lex e) = false;
  eo_operators : operators_marked (e_node e);
  eo_macros : forall name node m, e_macros e !! name = Some node -> mn_value node = NUser m -> macro_ok m
}.

(** A token the expansion makes. *)
Definition pasted_ok (t : cpp_token) : Prop := delivered t /\ not_eof t.

(** Only the context on top has changed, to [c']. *)
Definition top_only (s s' : preader) (c' : context) (cs : list context) : Prop :=
  p_contexts s' = c' :: cs /\ p_disabled s' = p_disabled s /\ p_prevent_expansion s' = p_prevent_expansion s /\
  p_base s' = p_base s.

Lemma top_only_ok s s' c c' cs : reader_ok s -> p_contexts s = c :: cs -> same_context c c' -> top_only s s' c' cs -> reader_ok s'.
Proof.
  intros Hs E Hc (E1 & E2 & E3 & E4). pose proof (reader_ok_top s c c' cs [] Hs E Hc) as [H1 H2 H3 H4 H5].
  cbn in H1, H2, H3, H4, H5. split; rewrite ?E1, ?E2, ?E3, ?E4; done.
Qed.

Lemma has_dropped f t : has f (drop_flag f t) = false.
Proof. unfold has, flag. cbn. by rewrite <- Z.land_assoc, (Z.land_comm (Z.lnot f)), Z.land_lnot_diag, Z.land_0_r. Qed.

Lemma cpp_spell_token_forstring t : exists sp, cpp_spell_token t true = Some sp.
Proof. unfold cpp_spell_token. destruct (TOKEN_SPELL _); repeat case_match; eauto. Qed.

Lemma paste_text_ok lhs rhs : exists buf, paste_text lhs rhs = Some buf.
Proof.
  unfold paste_text. destruct (cpp_spell_token_forstring lhs) as (l & ->), (cpp_spell_token_forstring rhs) as (r & ->).
  destruct (type_is rhs CPP_PADDING); cbn; eauto.
Qed.

Section Operations.
Context (e : macro_env) (He : env_ok e).

Lemma paste_tokens_ok lhs rhs s c cs u rd : p_contexts s = c :: cs -> c_read c = u :: rd ->
  t_type lhs <> CPP_MACRO_ARG -> not_eof lhs ->
  post (fun r s' => pasted_ok (snd r) /\
          exists c', same_context c c' /\ top_only s s' c' cs /\ (fst r = true -> c_left c' = c_left c))
    (paste_tokens e lhs rhs s).
Proof.
  intros E Hr Hm Hn. unfold paste_tokens. destruct (paste_text_ok lhs rhs) as (buf & ->).
  destruct buf as [|b buf]; [done|]. apply post_get.
  destruct (snd (lex_direct _ _ _ _ _ _ _ _)) as [[l y]|] eqn:El; [|done]. apply post_put.
  destruct l; try done. apply lex_direct_plain in El as [(Ha & Hp & Hl & Hst) Ht]; [|by destruct He..|done].
  apply post_put. case_bool_decide.
  - cbn. split; [done|]. exists c. by split_and!.
  - unfold bindM at 1. unfold _cpp_backup_tokens, bindM, getM. cbn [p_contexts set_lexer add_diags]. rewrite E.
    destruct (unread_context_spec _ _ _ Hr) as (c' & -> & Hall & Hmac & _).
    destruct (negb (is_asm _)); cbn; (split; [split; [split; [apply has_dropped|done]|done]|]; exists c'; by split_and!).
Qed.

Lemma chain_left c t ts : chain (all c) -> c_left c = t :: ts -> has PASTE_LEFT t = true -> ts <> [].
Proof.
  intros [_ H] E Ht ->. unfold all in H. rewrite E, List.last_last in H. congruence.
Qed.

Lemma paste_loop_ok fuel : forall lhs s c cs, p_contexts s = c :: cs -> chain (all c) -> c_left c <> [] ->
  t_type lhs <> CPP_MACRO_ARG -> not_eof lhs ->
  post (fun t s' => pasted_ok t /\ exists c', same_context c c' /\ top_only s s' c' cs) (paste_loop e fuel lhs s).
Proof.
  induction fuel as [|fuel IH]; intros lhs s c cs E Hch Hl Hm Hn; [done|]. cbn [paste_loop]. apply post_get. rewrite E.
  destruct (read_context c) as [[rhs c1]|] eqn:Er; [|by apply read_context_end in Er].
  destruct (read_context_spec _ _ _ Er) as (Ha & Hmac & Hleft & Hread). apply post_put.
  assert (operand rhs) as (Hr1 & Hr2 & Hr3) by (eapply in_all_left; [apply Hch|exact Hleft]).
  destruct (type_is_spec rhs CPP_PADDING) as [Ep|Np].
  { rewrite (Hr3 Ep). cbn [andb]. eapply post_bind.
    - apply (paste_tokens_ok lhs rhs _ c1 cs rhs (c_read c)); done.
    - intros [ok t] s2 (Ht & c2 & Hs2 & Htop & _). cbn [fst snd] in *. rewrite andb_false_r. cbn.
      split; [done|]. exists c2. destruct Hs2 as [H1 H2]. split; [split; congruence|]. exact Htop. }
  cbn [andb]. eapply post_bind; [apply (paste_tokens_ok lhs rhs _ c1 cs rhs (c_read c)); done|].
  intros [ok t] s2 (Ht & c2 & Hs2 & Htop & Hleft2). cbn [fst snd] in *. destruct Hs2 as [H1 H2].
  destruct (ok && has PASTE_LEFT rhs) eqn:Eok.
  - apply andb_prop in Eok as [-> Epl]. specialize (Hleft2 eq_refl). destruct Ht as [[Ht1 Ht2] Ht3].
    destruct Htop as (T1 & T2 & T3 & T4). eapply post_imp; [apply (IH t s2 c2 cs T1)|]; [|..|done|done|].
    + by rewrite H1, Ha.
    + rewrite Hleft2. by eapply chain_left.
    + intros t' s3 (Ht' & c3 & [H3 H4] & U1 & U2 & U3 & U4). split; [done|]. exists c3. split; [split; congruence|].
      cbn in T2, T3, T4. split_and!; congruence.
  - cbn. split; [done|]. exists c2. split; [split; congruence|]. exact Htop.
Qed.

(** ## : the result is pushed as a context of the same macro. *)
Lemma paste_all_tokens_ok fuel F lhs s c cs : reader_ok s -> framed F s -> p_contexts s = c :: cs -> c_left c <> [] ->
  chain (all c) -> c_macro c <> None -> t_type lhs <> CPP_MACRO_ARG -> not_eof lhs -> has PASTE_LEFT lhs = true ->
  post (fun _ s' => reader_ok s' /\ framed F s' /\ p_prevent_expansion s' = p_prevent_expansion s /\
                    macros_of (p_contexts s') = macros_of (p_contexts s)) (paste_all_tokens e fuel lhs s).
Proof.
  intros Hs Hf E Hl Hch Hm Ha Hn Hp. unfold paste_all_tokens. apply post_get. rewrite E. cbn [macro_of_context].
  destruct (c_macro c) as [m|] eqn:Em; [|done]. rewrite Hp. cbn [negb].
  eapply post_bind; [by apply (paste_loop_ok fuel lhs s c cs)|].
  intros t s' ([[Ht1 Ht2] Ht3] & c' & Hsame & Htop). pose proof (top_only_ok _ _ _ _ _ Hs E Hsame Htop) as Hs'.
  assert (framed F s') as Hf' by (eapply framed_top; [exact Hf|exact E|apply Htop|done|right; by apply chain_open]).
  destruct Hsame as [Hall Hmac]. rewrite Em in Hmac. destruct Htop as (T1 & T2 & T3 & T4).
  unfold push_token_context. apply post_get. set (new := mk_ctx (Some m) [] [t]).
  assert ((match (if tracking e then Some m else None) with None => macro_of_context (p_contexts s') | Some _ => if tracking e then Some m else None end)
    = Some m) as -> by (destruct (tracking e); [done|]; by rewrite T1).
  assert (macros_of (new :: p_contexts s') = macros_of (p_contexts s')) as Hmo.
  { rewrite T1, !macros_of_cons, Hmac. unfold new. cbn. set_solver. }
  cbn. fold new. destruct Hs' as [H1 H2 H3 H4 H5]. split_and!.
  - split; cbn; try done.
    + constructor; [|done]. left. by apply Forall_singleton.
    + split; [done|]. left. by rewrite T1.
    + by rewrite Hmo.
  - eapply framed_push; [exact Hf'|done|]. unfold open_context, all. by repeat constructor.
  - done.
  - rewrite Hmo, T1. apply macros_of_same. by rewrite Hmac.
Qed.

(** *** What reading a token does *)

(** While no macro may be expanded, contexts are only left. *)
Definition kept (s s' : preader) : Prop :=
  reader_ok s' /\ p_prevent_expansion s' = p_prevent_expansion s /\
  macros_of (p_contexts s') ⊆ macros_of (p_contexts s).

Definition returnable (t : cpp_token) (s : preader) : Prop :=
  readback t s \/ (t_type t = CPP_EOF /\ p_contexts s = []).

Definition got (F : option (list context)) (s : preader) (t : cpp_token) (s' : preader) : Prop :=
  reader_ok s' /\ delivered t /\ p_prevent_expansion s' = p_prevent_expansion s /\ after F t s' /\
  (p_prevent_expansion s <> 0 ->
     macros_of (p_contexts s') ⊆ macros_of (p_contexts s) /\ (t_type t <> CPP_PADDING -> returnable t s')).

Definition get_ok (get : M cpp_token) : Prop := forall F s, reader_ok s -> framed F s -> post (got F s) (get s).

(** The tokens of an argument. *)
Definition arg_toks (ts : list cpp_token) : Prop :=
  Forall pasted_ok ts /\ t_type (List.last ts eof_token) <> CPP_PADDING.

Record arg_ok (a : macro_arg) : Prop := {
  ao_tokens : arg_toks (a_tokens a);
  ao_null : a_first_null a = true -> a_tokens a = [];
  ao_expanded : forall ts, a_expanded a = Some ts -> Forall pasted_ok ts;
  ao_stringified : forall t, a_stringified a = Some t -> pasted_ok t /\ t_type t <> CPP_PADDING
}.

Definition args_ok (macro : cpp_macro) (args : list macro_arg) : Prop :=
  0 < m_paramc macro -> Z.of_nat (length args) = m_paramc macro /\ Forall arg_ok args.

Lemma drop_padding_ok acc : Forall pasted_ok acc -> arg_toks (rev (drop_padding acc)).
Proof.
  intros H. unfold arg_toks. induction H as [|t acc Ht H IH]; [by split; [constructor|]|].
  cbn [drop_padding]. destruct (type_is_spec t CPP_PADDING) as [E|N]; [exact IH|].
  cbn [rev]. rewrite List.last_last. split; [|done]. apply Forall_app. split; [|by constructor].
  apply List.Forall_rev. exact H.
Qed.

Lemma kept_by_trans s1 s2 s3 : kept s1 s2 -> kept s2 s3 -> kept s1 s3.
Proof. intros (H1 & H2 & H3) (H4 & H5 & H6). split_and!; [done|congruence|set_solver]. Qed.

(** The number of arguments is right. *)
Lemma make_args_ok macro collected : Forall arg_toks collected ->
  let argc := Z.of_nat (length collected) in
  let argc := if (argc =? 1) && (m_paramc macro =? 0)
                 && (match collected with [] :: _ => true | _ => false end) then 0 else argc in
  snd (_cpp_arguments_ok e macro argc) = true -> args_ok macro (make_args e macro argc collected).
Proof.
  intros Hc. cbv zeta. intros Hok Hpos.
  destruct (Z.eqb_spec (m_paramc macro) 0) as [E|_]; [lia|]. rewrite andb_false_r in *. cbn [andb] in *.
  set (argc := Z.of_nat (length collected)) in *.
  assert (argc <= m_paramc macro) as Hle.
  { unfold _cpp_arguments_ok in Hok. destruct (Z.eqb_spec argc (m_paramc macro)); [lia|].
    destruct (Z.ltb_spec argc (m_paramc macro)); [lia|]. cbn [andb] in Hok. by rewrite snd_W_bind in Hok. }
  unfold make_args. set (given := map _ collected).
  assert (length given = length collected) as Hg by apply length_map. set (missing := repeat _ _).
  assert (Forall arg_ok (given ++ missing)) as Hall.
  { apply Forall_app. split.
    - apply List.Forall_map. eapply Forall_impl; [exact Hc|]. intros ts Hts. by split.
    - apply List.Forall_forall. intros a Ha%repeat_spec. by subst. }
  assert (Z.of_nat (length (given ++ missing)) = m_paramc macro) as Hlen.
  { unfold missing. rewrite length_app, repeat_length, Hg. unfold argc in Hle. lia. }
  destruct (m_variadic macro && _) eqn:Ev; [|by split].
  destruct (last (given ++ missing)) as [a|] eqn:El; [|by split].
  apply last_Some in El as [l El]. rewrite El in *. rewrite removelast_last.
  rewrite length_app in *. cbn [length] in *. split; [done|]. apply Forall_app in Hall as [Hl Ha].
  apply Forall_app. split; [done|]. constructor; [|done]. inversion Ha as [|? ? [H1 H2 H3 H4] _]; subst.
  split; cbn; try done. intros _.
  apply andb_prop in Ev as [_ [Ev|Ev]%orb_prop].
  - assert (exists l2, missing = l2 ++ [empty_arg true]) as (l2 & Em).
    { exists (repeat (empty_arg true) (Z.to_nat (m_paramc macro) - length given - 1)). unfold missing.
      rewrite <- repeat_cons. match goal with |- _ = _ :: repeat ?x ?k => change (x :: repeat x k) with (repeat x (S k)) end. f_equal. rewrite Hg. apply Z.ltb_lt in Ev. unfold argc in Ev. lia. }
    rewrite Em, app_assoc in El. apply app_inj_tail in El as [_ <-]. done.
  - assert (Forall (fun a => a_tokens a = []) (given ++ missing)) as Hno.
    { apply andb_prop in Ev as [[E1 E2]%andb_prop _]. apply Z.eqb_eq in E1.
      destruct collected as [|[|] [|]]; try done; [|unfold argc in E1; cbn [length] in E1; lia].
      apply Forall_app. split; [by repeat constructor|]. apply List.Forall_forall. by intros b ->%repeat_spec. }
    rewrite El in Hno. apply Forall_app in Hno as [_ Hno]. by inversion Hno.
Qed.

Section Getting.
Context (get : M cpp_token) (fuel : nat) (Hget : get_ok get).

(** What the collection of an argument leaves. *)
Definition collected (F : option (list context)) (s : preader) (t : cpp_token) (s' : preader) : Prop :=
  kept s s' /\ after F t s' /\ returnable t s'.

Lemma got_collected F s t s' : p_prevent_expansion s <> 0 -> got F s t s' ->
  kept s s' /\ after F t s' /\ delivered t /\ (t_type t <> CPP_PADDING -> returnable t s').
Proof. intros Hp (H1 & H2 & H3 & H4 & H5). destruct (H5 Hp) as [H6 H7]. by split_and!. Qed.

Lemma after_framed F t s : after F t s -> t_type t <> CPP_EOF -> framed F s.
Proof. by intros [[H _]|[_ H]]. Qed.

Lemma collect_arg_ok F n : forall last depth acc s, reader_ok s -> framed F s -> p_prevent_expansion s <> 0 ->
  Forall pasted_ok acc ->
  post (fun r s' => Forall pasted_ok (fst r) /\ collected F s (snd r) s') (collect_arg get n last depth acc s).
Proof.
  induction n as [|n IH]; intros last depth acc s Hs Hf Hp Hacc; [done|]. cbn [collect_arg].
  eapply post_bind; [by apply Hget|]. intros t s' Hgot.
  destruct (got_collected F s t s' Hp Hgot) as (Hk & Haft & Hd & Hret).
  assert (t_type t <> CPP_PADDING -> post (fun r s' => Forall pasted_ok (fst r) /\ collected F s (snd r) s') (Ok (acc, t) s')) as Hend
    by (intros Hn; cbn; split; [done|]; split_and!; auto).
  assert (t_type t <> CPP_EOF -> forall depth acc, Forall pasted_ok acc ->
            post (fun r s' => Forall pasted_ok (fst r) /\ collected F s (snd r) s') (collect_arg get n last depth acc s')) as Hnext.
  { intros Hn depth' acc' Hacc'. pose proof Hk as (K1 & K2 & _).
    eapply post_imp; [apply IH; [done|by eapply after_framed|by rewrite K2|done]|].
    intros [ts u] s2 (Q1 & Q2 & Q3). cbn [fst snd] in *. split; [done|]. split; [by eapply kept_by_trans|done]. }
  assert (t_type t <> CPP_EOF -> forall depth, post (fun r s' => Forall pasted_ok (fst r) /\ collected F s (snd r) s')
            (collect_arg get n last depth (t :: acc) s')) as Hadd
    by (intros Hn depth'; apply Hnext; [done|]; by constructor).
  destruct (t_type t) eqn:Et; try exact I; try (by apply Hadd); repeat case_match; try (by apply Hadd); try (by apply Hend); by apply Hnext.
Qed.

Lemma collect_loop_ok F n macro : forall argc args s, reader_ok s -> framed F s -> p_prevent_expansion s <> 0 ->
  Forall arg_toks args ->
  post (fun r s' => Forall arg_toks (fst r) /\ collected F s (snd r) s') (collect_loop get fuel n macro argc args s).
Proof.
  induction n as [|n IH]; intros argc args s Hs Hf Hp Hargs; [done|]. cbn [collect_loop].
  eapply post_bind; [by apply (collect_arg_ok F)|]. intros [acc t] s' [Hacc Hc]. cbn [fst snd] in *.
  assert (Forall arg_toks (args ++ [rev (drop_padding acc)])) as Hargs'
    by (apply Forall_app; split; [done|]; constructor; [by apply drop_padding_ok|done]).
  destruct (type_is t CPP_CLOSE_PAREN || type_is t CPP_EOF) eqn:E; [by split|].
  apply orb_false_elim in E as [_ E]. destruct (type_is_spec t CPP_EOF) as [|Hn]; [done|].
  destruct Hc as ((K1 & K2 & K3) & Haft & _).
  eapply post_imp; [apply IH; [done|by eapply after_framed|by rewrite K2|done]|].
  intros [as' u] s2 (Q1 & Q2 & Q3). cbn [fst snd] in *. split; [done|]. split; [|done]. by eapply kept_by_trans.
Qed.

(** A token that was read is given back, if it can be. *)
Lemma give_back F s t s' (b : bool) : collected F s t s' -> 
  (b = true -> readback t s' /\ (p_contexts s' = [] -> t_type t <> CPP_EOF)) ->
  (b = false -> t_type t = CPP_EOF -> framed F s') ->
  post (fun _ s' => kept s s' /\ framed F s') (whenM b _cpp_backup_tokens s').
Proof.
  intros (Hk & Haft & Hret) Ht Hf. destruct b; cbn [whenM].
  - destruct (Ht eq_refl) as [H1 H2]. eapply post_imp; [apply (backup_ok F t); [apply Hk|done..]|].
    intros _ s2 (Q1 & Q2 & Q3 & Q4). split; [|done]. destruct Hk as (_ & K2 & K3). split_and!; [done|congruence|by rewrite Q4].
  - cbn. split; [done|]. destruct Haft as [[Hend _]|[_ H]]; [by apply Hf|done].
Qed.

(** The end of the text, with no contexts left, and the end of an argument. *)
Lemma after_end F t s : after F t s -> t_type t = CPP_EOF -> p_contexts s = [] -> framed F s /\ t_no t = 0.
Proof.
  intros [[_ Hs]|[? _]] E1 E2; [|done]. destruct F as [K|]; destruct Hs as [H1 H2].
  - destruct H2 as (b & rd & E' & _). by rewrite E2 in E'.
  - split; [|done]. unfold framed. by rewrite E2.
Qed.

Lemma after_no_arg_end F t s : after F t s -> t_type t = CPP_EOF -> t_no t <> 1 -> framed F s.
Proof.
  intros [[_ Hs]|[? _]] E1 E2; [|done]. destruct F as [K|]; destruct Hs as [H1 H2]; [by rewrite H1 in E2|].
  unfold framed. by rewrite H1.
Qed.

(** Diagnostics change nothing. *)
Lemma kept_diags F s s' d : kept s s' /\ framed F s' -> kept s (add_diags d s') /\ framed F (add_diags d s').
Proof.
  intros [([H1 H2 H3 H4 H5] & K2 & K3) Hf]. split; [|by eapply framed_contexts; [|exact Hf]].
  split_and!; [by split|done..].
Qed.

Lemma macro_of_context_in cs m : macro_of_context cs = Some m -> m ∈ macros_of cs.
Proof. destruct cs as [|c cs]; [done|]. cbn. intros E. rewrite macros_of_cons, E. set_solver. Qed.

(** A context of the current expansion. *)
Lemma inherited_push F s ts (b : bool) : reader_ok s -> Forall delivered ts ->
  let c := mk_ctx (if b then macro_of_context (p_contexts s) else None) [] ts in
  let s' := set_contexts (c :: p_contexts s) s in
  reader_ok s' /\ macros_of (p_contexts s') = macros_of (p_contexts s) /\
  (Forall not_eof ts -> framed F s -> framed F s').
Proof.
  intros [H1 H2 H3 H4 H5] Hts. cbv zeta. set (c := mk_ctx _ [] ts).
  assert (macros_of (c :: p_contexts s) = macros_of (p_contexts s)) as Hm.
  { rewrite macros_of_cons. unfold c. cbn. destruct b; [|set_solver].
    destruct (macro_of_context (p_contexts s)) as [m|] eqn:E; [apply macro_of_context_in in E|]; set_solver. }
  split_and!; [|done|].
  - split; cbn; [|split; [done|]|by rewrite Hm|done|done]; [constructor; [by left|done]|].
    unfold c. cbn. destruct b; [|done]. destruct (macro_of_context (p_contexts s)); [by left|done].
  - intros Hne Hf. by eapply framed_push.
Qed.

Lemma kept_push F s s' t : kept s s' -> framed F s' -> delivered t -> t_type t = CPP_PADDING ->
  let s2 := set_contexts (mk_ctx (macro_of_context (p_contexts s')) [] [t] :: p_contexts s') s' in
  kept s s2 /\ framed F s2.
Proof.
  intros (H & K2 & K3) Hf Ht Et. destruct (inherited_push F s' [t] true) as (R1 & R2 & R3); [done|by apply Forall_singleton|].
  split; [split_and!; [exact R1|done|by rewrite R2]|]. apply R3; [|done]. apply Forall_singleton. unfold not_eof. by rewrite Et.
Qed.

Definition looked_up (F : option (list context)) (macro : cpp_macro) (s : preader)
  (r : option (list macro_arg)) (s' : preader) : Prop :=
  (kept s s' /\ framed F s') /\ match r with Some args => args_ok macro args | None => True end.

Lemma collect_args_ok F macro s : reader_ok s -> framed F s -> p_prevent_expansion s <> 0 ->
  post (looked_up F macro s) (collect_args e get fuel macro s).
Proof.
  intros Hs Hf Hp. unfold collect_args. eapply post_bind; [by apply (collect_loop_ok F)|].
  intros [cs t] s' [Hcs Hc]. cbn [fst snd] in *.
  destruct (type_is_spec t CPP_EOF) as [E|N].
  - apply post_get. rewrite (eo_directive e He), orb_false_r. eapply post_bind.
    + pose proof Hc as (Hk & Haft & Hr). apply (give_back F s t); [done|..]; intros Hb.
      * destruct (p_contexts s') as [|c cs'] eqn:Ec; [done|]. split; [|done]. by destruct Hr as [Hr|[_ Hr]]; [|rewrite Ec in Hr].
      * intros _. destruct (p_contexts s') as [|c cs'] eqn:Ec; [|done]. by apply (after_end F t).
    + intros [] s2 H. cbn. split; [by apply kept_diags|done].
  - apply post_put. cbn. split.
    + apply kept_diags. destruct Hc as (Hk & [[? _]|[_ Hfr]] & Hr); done.
    + match goal with |- context [if ?b then _ else _] => destruct b eqn:Eok end; [|done]. by apply make_args_ok.
Qed.

Lemma skip_to_paren_ok F n : forall p s, reader_ok s -> framed F s -> p_prevent_expansion s <> 0 ->
  (forall u, p = Some u -> delivered u /\ t_type u = CPP_PADDING) ->
  post (fun r s' => (forall u, fst r = Some u -> delivered u /\ t_type u = CPP_PADDING) /\ collected F s (snd r) s')
    (skip_to_paren get n p s).
Proof.
  induction n as [|n IH]; intros p s Hs Hf Hp Hpad; [done|]. cbn [skip_to_paren].
  eapply post_bind; [by apply Hget|]. intros t s' Hgot.
  destruct (got_collected F s t s' Hp Hgot) as (Hk & Haft & Hd & Hret).
  destruct (type_is_spec t CPP_PADDING) as [E|N].
  - pose proof Hk as (K1 & K2 & K3). eapply post_imp; [apply IH|].
    + done.
    + eapply after_framed; [done|]. by rewrite E.
    + by rewrite K2.
    + intros u. destruct p as [v|]; [destruct (_ && _)|]; (intros [= <-]; auto).
    + intros [q u] s2 (Q1 & Q2 & Q3). cbn [fst snd] in *. split; [done|]. split; [|done]. by eapply kept_by_trans.
  - cbn. split; [done|]. split_and!; auto.
Qed.

Lemma funlike_invocation_ok F macro s : reader_ok s -> framed F s -> p_prevent_expansion s <> 0 ->
  post (looked_up F macro s) (funlike_invocation_p e get fuel macro s).
Proof.
  intros Hs Hf Hp. unfold funlike_invocation_p. eapply post_bind; [by apply (skip_to_paren_ok F)|].
  intros [p t] s' [Hpad Hc]. cbn [fst snd] in *. pose proof Hc as ((K1 & K2 & K3) & Haft & Hret).
  destruct (type_is_spec t CPP_OPEN_PAREN) as [E|N].
  - eapply post_imp; [apply (collect_args_ok F); [done|eapply after_framed; [done|by rewrite E]|by rewrite K2]|].
    intros r s2 [[Hk2 Hf2] Ha]. split; [|done]. split; [by eapply kept_by_trans|done].
  - destruct (negb (type_is t CPP_EOF) || (t_no t =? 1)) eqn:Eb.
    + eapply post_bind with (Q := fun _ s' => kept s s' /\ framed F s'); [|by intros _ s2 H].
      assert (p_contexts s' = [] -> t_type t <> CPP_EOF) as Hend.
      { intros E1 E2. destruct (after_end F t s' Haft E2 E1) as [_ E3]. unfold type_is in Eb. by rewrite E2, E3 in Eb. }
      eapply post_bind; [apply (give_back F s t s' true); [done| |done]|].
      * intros _. split; [|done]. by destruct Hret as [|[E1 E2]]; [|destruct (Hend E2)].
      * intros [] s2 [Hk2 Hf2]. destruct p as [u|]; [|done]. destruct (Hpad u eq_refl) as [Hu Hut]. cbn.
        by apply kept_push.
    + cbn. split; [|done]. split; [done|]. unfold type_is in Eb. apply orb_false_elim in Eb as [E1 E2].
      apply (after_no_arg_end F t); [done| |].
      * by destruct (ttype_eqb_spec (t_type t) CPP_EOF).
      * by apply Z.eqb_neq.
Qed.

(** *** Expanding the arguments *)

Definition restored (s s' : preader) : Prop :=
  reader_ok s' /\ p_prevent_expansion s' = p_prevent_expansion s /\ p_contexts s' = p_contexts s.

Lemma restored_refl s : reader_ok s -> restored s s.
Proof. done. Qed.

#[local] Hint Resolve restored_refl : core.

Lemma restored_trans s1 s2 s3 : restored s1 s2 -> restored s2 s3 -> restored s1 s3.
Proof. intros (H1 & H2 & H3) (H4 & H5 & H6). split_and!; [done|congruence..]. Qed.

Lemma restored_diags s d : reader_ok s -> restored s (add_diags d s).
Proof. intros [H1 H2 H3 H4 H5]. split_and!; [by split|done..]. Qed.

(** Leaving a context enables its macro exactly if none is left of it. *)
Lemma pop_ok s c cs : reader_ok s -> p_contexts s = c :: cs ->
  post (fun _ s' => reader_ok s' /\ p_prevent_expansion s' = p_prevent_expansion s /\ p_contexts s' = cs) (_cpp_pop_context s).
Proof.
  intros [H1 H2 H3 H4 H5] E. unfold _cpp_pop_context. apply post_get. rewrite E in *.
  destruct H2 as [H2 Hm]. inversion H1; subst. rewrite macros_of_cons in H3. destruct (c_macro c) as [m|].
  - case_bool_decide as Hb; cbn.
    + split_and!; [|done..]. split; cbn; try done. rewrite H3. apply macro_of_context_in in Hb. set_solver.
    + destruct Hm as [Hm|Hm]; [done|]. split_and!; [|done..]. split; cbn; try done. rewrite H3. set_solver.
  - cbn. split_and!; [|done..]. split; cbn; try done. rewrite H3. set_solver.
Qed.

Lemma expand_loop_ok K n : forall acc s, reader_ok s -> framed (Some K) s -> Forall pasted_ok acc ->
  post (fun ts s' => Forall pasted_ok ts /\ reader_ok s' /\ p_prevent_expansion s' = p_prevent_expansion s /\
                     exists b, p_contexts s' = b :: K) (expand_arg_loop get n acc s).
Proof.
  induction n as [|n IH]; intros acc s Hs Hf Hacc; [done|]. cbn [expand_arg_loop].
  eapply post_bind; [by apply Hget|]. intros t s' (H1 & H2 & H3 & H4 & _).
  destruct (type_is_spec t CPP_EOF) as [E|N].
  - cbn. destruct H4 as [[_ (_ & b & rd & Hc & _)]|[? _]]; [|done].
    split_and!; [by apply List.Forall_rev|done..|by exists b].
  - eapply post_imp; [apply IH; [done|by eapply after_framed|by constructor]|].
    intros ts s2 (Q1 & Q2 & Q3 & Q4). split_and!; try done. congruence.
Qed.

Lemma arg_context_push s ts (b : bool) : reader_ok s -> Forall pasted_ok ts ->
  let c := mk_ctx (if b then macro_of_context (p_contexts s) else None) [] (ts ++ [pfile_eof]) in
  let s' := set_contexts (c :: p_contexts s) s in
  reader_ok s' /\ framed (Some (p_contexts s)) s'.
Proof.
  intros Hs Hts. cbv zeta. destruct (inherited_push None s (ts ++ [pfile_eof]) b Hs) as (H & _ & _).
  { apply Forall_app. split; [by eapply Forall_impl; [exact Hts|]; intros t [? _]|]. by apply Forall_singleton. }
  split; [exact H|]. eexists [], _. split_and!; [done|constructor| |by destruct ts].
  exists ts. split; [done|]. eapply Forall_impl; [exact Hts|]. by intros t [_ ?].
Qed.

Lemma expand_arg_ok a s : reader_ok s -> arg_ok a ->
  post (fun a' s' => restored s s' /\ arg_ok a' /\ a_stringified a' = a_stringified a) (expand_arg e get fuel a s).
Proof.
  intros Hs Ha. unfold expand_arg. destruct (a_tokens a) as [|t ts] eqn:Et; [done|].
  destruct (a_expanded a) eqn:Ee; [done|]. apply post_get, post_put.
  destruct Ha as [[Hp Hl] Hnull Hex Hst]. rewrite Et in Hp, Hl. rewrite <- Et in *.
  set (s1 := set_warn_trad false s). assert (reader_ok s1) as Hs1 by (destruct Hs; by split).
  destruct (arg_context_push s1 (a_tokens a) (tracking e) Hs1 Hp) as [H1 H2].
  eapply post_bind with (Q := fun _ s2 => reader_ok s2 /\ framed (Some (p_contexts s1)) s2 /\
    p_prevent_expansion s2 = p_prevent_expansion s); [by destruct (tracking e)|]. intros [] s1' (H1' & H2' & H3').
  eapply post_bind; [by apply (expand_loop_ok (p_contexts s1))|].
  intros ex s2 (Q1 & Q2 & Q3 & b & Q4).
  eapply post_bind; [by apply (pop_ok s2 b (p_contexts s1))|].
  intros [] s3 (R1 & R2 & R3). cbn. split_and!.
  - split; [destruct R1; by split|]. cbn. by rewrite R2, Q3, R3, H3'.
  - split; cbn; try done. by intros ? [= <-].
  - done.
Qed.

Lemma stringify_loop_some ts : forall source dest bs, exists r, stringify_loop ts source dest bs = Some r.
Proof.
  induction ts as [|t ts IH]; intros source dest bs; cbn [stringify_loop]; [eauto|].
  destruct (type_is t CPP_PADDING); [apply IH|]. destruct (cpp_spell_token_forstring t) as (sp & ->). apply IH.
Qed.

Lemma stringify_arg_ok ts s : reader_ok s ->
  post (fun t s' => restored s s' /\ pasted_ok t /\ t_type t <> CPP_PADDING) (stringify_arg ts s).
Proof.
  intros Hs. unfold stringify_arg. destruct (stringify_loop_some ts None [] 0) as ([dest bs] & ->).
  apply post_emit. cbn. split; [|done]. by destruct (negb _); [apply restored_diags|].
Qed.

(** Every argument that is stringified has its string. *)
Definition prepared (srcs : list cpp_token) (args : list macro_arg) : Prop :=
  forall src, In src srcs -> t_type src = CPP_MACRO_ARG -> has STRINGIFY_ARG src = true ->
    exists a t, arg_of args src = Some a /\ a_stringified a = Some t.

Definition still_stringified (args args' : list macro_arg) : Prop :=
  forall i a t, args !! i = Some a -> a_stringified a = Some t ->
    exists a' t', args' !! i = Some a' /\ a_stringified a' = Some t'.

Lemma arg_of_some n args src : Z.of_nat (length args) = n -> token_ok n src -> t_type src = CPP_MACRO_ARG ->
  exists a, arg_of args src = Some a /\ args !! Z.to_nat (t_no src - 1) = Some a.
Proof.
  intros Hlen (_ & _ & Hno & _) Ht. specialize (Hno Ht). unfold arg_of. destruct (Z.eqb_spec (t_no src) 0); [lia|].
  destruct (lookup_lt_is_Some_2 args (Z.to_nat (t_no src - 1))) as [a Ha]; [lia|]. by exists a.
Qed.

Lemma prepare_args_ok n srcs : Forall (token_ok n) srcs -> forall prev args s,
  reader_ok s -> Z.of_nat (length args) = n -> Forall arg_ok args ->
  post (fun args' s' => restored s s' /\ length args' = length args /\ Forall arg_ok args' /\
                        prepared srcs args' /\ still_stringified args args') (prepare_args e get fuel prev srcs args s).
Proof.
  induction 1 as [|src srcs Hsrc Hsrcs IH]; intros prev args s Hs Hlen Hargs; cbn [prepare_args].
  { cbn. split_and!; [by apply restored_refl|done|done|by intros ? []|intros i a t H1 H2; eauto]. }
  destruct (type_is_spec src CPP_MACRO_ARG) as [E|N].
  - destruct (arg_of_some n args src Hlen Hsrc E) as (a & Ha & Hi). rewrite Ha.
    assert (arg_ok a) as Hok by (by eapply Forall_lookup_1 in Hi).
    set (i := Z.to_nat (t_no src - 1)) in *.
    eapply post_bind with (Q := fun a' s' => restored s s' /\ arg_ok a' /\
      (forall t, a_stringified a = Some t -> exists t', a_stringified a' = Some t') /\
      (has STRINGIFY_ARG src = true -> exists t', a_stringified a' = Some t')).
    + destruct (has STRINGIFY_ARG src) eqn:Est.
      * destruct (a_stringified a) as [t|] eqn:Eas; [cbn; split_and!; eauto|].
        eapply post_bind; [by apply stringify_arg_ok|]. intros t s' (Hr & Ht). cbn. split_and!; try done; [|eauto].
        destruct Hok as [K1 K2 K3 K4]. split; cbn; try done. by intros ? [= <-].
      * destruct (has PASTE_LEFT src || pasted prev); [cbn; split_and!; eauto; done|].
        eapply post_imp; [by apply expand_arg_ok|]. intros a' s' (Hr & Ha' & ->). split_and!; eauto; done.
    + intros a' s' (Hr & Ha' & Hmono & Hstr).
      eapply post_imp; [apply (IH (Some src) (<[i := a']> args) s')|]; [apply Hr|by rewrite length_insert|by apply Forall_insert|].
      intros args' s2 (Q1 & Q2 & Q3 & Q4 & Q5). rewrite length_insert in Q2.
      assert (i < length args)%nat as Hlt by by apply lookup_lt_Some in Hi.
      split_and!; [by eapply restored_trans|done..| |].
      * intros src' [<-|Hin] Ht Hst; [|by apply Q4]. destruct (Hstr Hst) as (t' & Ht').
        destruct (Q5 i a' t') as (a2 & t2 & H1 & H2); [by rewrite list_lookup_insert_eq|done|].
        exists a2, t2. split; [|done]. unfold arg_of in *. by destruct (t_no src =? 0).
      * intros j b t Hj Hb. destruct (decide (i = j)) as [<-|Hne].
        -- rewrite Hi in Hj. injection Hj as <-. destruct (Hmono t Hb) as (t' & Ht').
           eapply Q5; [by rewrite list_lookup_insert_eq|done].
        -- eapply Q5; [by rewrite list_lookup_insert_ne|done].
  - eapply post_imp; [by apply IH|]. intros args' s2 (Q1 & Q2 & Q3 & Q4 & Q5). split_and!; try done.
    intros src' [<-|Hin] Ht Hst; [done|by apply Q4].
Qed.
End Getting.

(** *** Substitution *)

(** Between __VA_OPT__ and the first token that is kept. *)
Definition held (v : vaopt_state) : bool := (0 <? m_state v) && ((m_state v <=? 2) || negb (m_allowed v)).

Definition tracker_ok (v : vaopt_state) : Prop := 0 <= m_state v /\ (m_vvariadic v = false -> m_state v = 0).

Lemma update_cases v t u v' : tracker_ok v -> snd (vaopt_update v t) = (u, v') -> u <> VERROR ->
  tracker_ok v' /\
  match u with
  | VBEGIN => m_state v' <> 0
  | VEND => m_state v' = 0
  | VDROP => held v = true /\ m_state v' <> 0
  | VINCLUDE => held v' = false /\ (m_state v' = 0 -> m_state v = 0)
  | VERROR => False
  end.
Proof.
  intros [H0 Hnv]. unfold tracker_ok, vaopt_update, held. destruct (m_vvariadic v) eqn:Ev; cbn [negb]; cbv zeta.
  2: { intros [= <- <-] _. rewrite ?Ev, Hnv by done. cbn. by split_and!. }
  destruct (names_node _ _).
  { destruct (Z.ltb_spec 0 (m_state v)); [by intros [= <- <-] ?|]. intros [= <- <-] _. cbn. rewrite ?Ev. split; [split; [lia|done]|lia]. }
  destruct (Z.eqb_spec (m_state v) 1) as [E1|N1].
  { destruct (type_is t CPP_OPEN_PAREN); [|by intros [= <- <-] ?]. intros [= <- <-] _. cbn. rewrite ?Ev, E1.
    by split_and!. }
  destruct (Z.leb_spec 2 (m_state v)) as [L|L].
  2: { intros [= <- <-] _. rewrite ?Ev. replace (m_state v) with 0 by lia. by split_and!. }
  destruct (_ && type_is t CPP_PASTE); [by intros [= <- <-] ?|].
  assert (exists k, (if m_state v =? 2 then m_state v + 1 else m_state v) = k /\ 3 <= k) as (k & -> & Hk).
  { eexists. split; [done|]. destruct (Z.eqb_spec (m_state v) 2); lia. }
  assert (0 <? m_state v = true) as -> by (apply Z.ltb_lt; lia).
  assert (forall last n u' v', 3 <= n -> (if m_allowed v then VINCLUDE else VDROP, mk_vaopt (m_allowed v) true last n) = (u', v') ->
    (0 <= m_state v' /\ (m_vvariadic v' = false -> m_state v' = 0)) /\
    match u' with
    | VBEGIN => m_state v' <> 0 | VEND => m_state v' = 0
    | VDROP => true && ((m_state v <=? 2) || negb (m_allowed v)) = true /\ m_state v' <> 0
    | VINCLUDE => (0 <? m_state v') && ((m_state v' <=? 2) || negb (m_allowed v')) = false /\ (m_state v' = 0 -> m_state v = 0)
    | VERROR => False end) as Hin.
  { intros last n u1 v1 Hn [= <- <-]. cbn. split; [split; [lia|done]|].
    assert (n <=? 2 = false) as En by (apply Z.leb_gt; lia).
    destruct (m_allowed v); cbn; rewrite ?En, ?orb_true_r, ?andb_false_r; split; lia || done. }
  rewrite ?Ev in *. destruct (type_is t CPP_PASTE); [intros E _; by apply (Hin _ _ _ _ Hk E)|].
  destruct (type_is t CPP_OPEN_PAREN); [intros E _; apply (Hin _ (k + 1) _ _ ltac:(lia) E)|].
  destruct (type_is t CPP_CLOSE_PAREN); [|intros E _; by apply (Hin _ _ _ _ Hk E)].
  destruct (Z.eqb_spec (k - 1) 2).
  - destruct (m_last_was_paste v); [by intros [= <- <-] ?|]. intros [= <- <-] _. cbn. by split.
  - intros E _. apply (Hin _ (k - 1) _ _ ltac:(lia) E).
Qed.

(** The buffer behind the tokens up to [prev]. *)
Record subst_ok (prev : option cpp_token) (x : substitution) : Prop := {
  su_operands : Forall operand (s_buff x);
  su_last : has PASTE_LEFT (List.last (s_buff x) eof_token) = true ->
            pasted prev = true \/ (s_start x <> None /\ s_start x = last_token (s_buff x));
  su_held : held (s_vaopt x) = true -> s_start x = last_token (s_buff x);
  su_out : m_state (s_vaopt x) = 0 -> s_start x = None;
  su_tracker : tracker_ok (s_vaopt x)
}.

Lemma last_token_none buff : last_token buff = None -> buff = [].
Proof. unfold last_token. by destruct buff. Qed.

Lemma last_token_last buff i : last_token buff = Some i -> buff !! i = Some (List.last buff eof_token).
Proof.
  destruct buff as [|t buff] using rev_ind; [done|]. unfold last_token. rewrite length_app, Nat.add_comm. cbn.
  intros [= <-]. rewrite List.last_last. by apply list_lookup_middle.
Qed.

Lemma avoid_paste_operand : operand avoid_paste.
Proof. done. Qed.
Lemma padding_operand t : operand (padding_token t).
Proof. done. Qed.
#[local] Hint Resolve avoid_paste_operand padding_operand : core.

Lemma pasted_operands ts : Forall pasted_ok ts -> Forall operand ts.
Proof. intros H. eapply Forall_impl; [exact H|]. intros t ((H1 & H2) & H3). by split_and!. Qed.

Lemma Forall_snoc {A} (P : A -> Prop) l x : Forall P l -> P x -> Forall P (l ++ [x]).
Proof. intros H Hx. apply Forall_app. split; [done|by apply Forall_singleton]. Qed.

Lemma copy_paste_flag_length i src buff : length (copy_paste_flag i src buff) = length buff.
Proof. apply length_alter. Qed.

(** Setting the flag on a token that is not padding, and clearing it. *)
Lemma copy_paste_flag_ok i src buff : Forall operand buff ->
  (has PASTE_LEFT src = true -> type_at buff i CPP_PADDING = false) -> Forall operand (copy_paste_flag i src buff).
Proof.
  intros H Hp. apply Forall_lookup. intros j t Hj. unfold copy_paste_flag in Hj.
  destruct (decide (i = j)) as [<-|Hne].
  - rewrite list_lookup_alter_eq in Hj. destruct (buff !! i) as [u|] eqn:Eu; [|done]. injection Hj as <-.
    destruct (proj1 (Forall_lookup _ _) H i u Eu) as (H1 & H2 & H3). split_and!; [done..|]. cbn. intros Et.
    destruct (has PASTE_LEFT src); [|apply (has_dropped PASTE_LEFT u)].
    specialize (Hp eq_refl). unfold type_at, type_is in Hp. by rewrite Eu, Et in Hp.
  - rewrite list_lookup_alter_ne in Hj by done. exact (proj1 (Forall_lookup _ _) H j t Hj).
Qed.

Lemma copy_paste_flag_cleared i src buff t : has PASTE_LEFT src = false -> has PASTE_LEFT t = false ->
  has PASTE_LEFT (List.last (copy_paste_flag i src (buff ++ [t])) eof_token) = false.
Proof.
  intros Hs Ht. assert (last_token (copy_paste_flag i src (buff ++ [t])) = Some (length buff)) as Hl.
  { unfold last_token. rewrite copy_paste_flag_length, length_app, Nat.add_comm. done. }
  apply last_token_last in Hl. unfold copy_paste_flag in Hl at 1. destruct (decide (i = length buff)) as [->|Hne].
  - rewrite list_lookup_alter_eq, list_lookup_middle in Hl by done. rewrite Hs in Hl. injection Hl as <-.
    apply (has_dropped PASTE_LEFT t).
  - rewrite list_lookup_alter_ne, list_lookup_middle in Hl by done. by injection Hl as <-.
Qed.

Lemma drop_tail_prefix n start : forall buff, exists l, buff = drop_tail n start buff ++ l.
Proof.
  induction n as [|n IH]; intros buff; cbn [drop_tail]; [exists []; by rewrite app_nil_r|].
  destruct (last_token buff) as [i|] eqn:E; [|exists []; by rewrite app_nil_r].
  destruct (_ && _); [|exists []; by rewrite app_nil_r].
  assert (buff <> []) as Hne by (intros ->; done). destruct (IH (removelast buff)) as (l & Hl).
  exists (l ++ [List.last buff eof_token]). rewrite app_assoc, <- Hl. by apply app_removelast_last.
Qed.

Lemma drop_padding_prefix ts : Forall pasted_ok ts -> Forall pasted_ok (drop_padding ts).
Proof. induction 1; cbn [drop_padding]; [constructor|]. destruct (type_is _ _); [done|by constructor]. Qed.

(** What stands for a parameter. *)
Lemma arg_tokens_ok macro prev src arg buff start : Forall operand buff -> arg_ok arg ->
  (has STRINGIFY_ARG src = true -> exists t, a_stringified arg = Some t) ->
  exists ts buff' flag, arg_tokens macro prev src arg buff start = Some (ts, buff', flag) /\
    Forall operand buff' /\ Forall pasted_ok ts /\
    (has PASTE_LEFT src = true -> flag = None /\ t_type (List.last ts eof_token) <> CPP_PADDING).
Proof.
  intros Hb [[Ha Hl] Hnull Hex Hst] Hstr. unfold arg_tokens.
  destruct (has STRINGIFY_ARG src).
  { destruct (Hstr eq_refl) as (t & Et). destruct (Hst t Et). rewrite Et. exists [t], buff, None. split_and!; try done. by constructor. }
  destruct (has PASTE_LEFT src) eqn:Ep; [by exists (a_tokens arg), buff, None|].
  destruct (pasted prev).
  - destruct (last_token buff) as [i|] eqn:El; [|by exists (a_tokens arg), buff, None].
    assert (Forall operand (removelast buff)) as Hr.
    { assert (buff <> []) as Hne by (intros ->; done). rewrite (app_removelast_last eof_token Hne) in Hb. by apply Forall_app in Hb as [Hb _]. }
    repeat case_match; eexists _, _, _; (split; [reflexivity|]); split_and!; done.
  - eexists _, _, _. split; [reflexivity|]. split_and!; [done| |done].
    assert (Forall pasted_ok (expanded_tokens arg)) as Hx.
    { unfold expanded_tokens. destruct (a_expanded arg) as [ts|] eqn:E; [by apply Hex|constructor]. }
    destruct (last_token_is _ _); [by apply drop_padding_prefix|done].
Qed.

Lemma last_app_ne {A} (l1 l2 : list A) d : l2 <> [] -> List.last (l1 ++ l2) d = List.last l2 d.
Proof.
  intros H. destruct (exists_last H) as (l & t & ->). by rewrite app_assoc, !List.last_last.
Qed.

Lemma type_at_last buff i ty : last_token buff = Some i -> type_at buff i ty = type_is (List.last buff eof_token) ty.
Proof. intros H. unfold type_at. by rewrite (last_token_last _ _ H). Qed.

(** The buffer behind a parameter; [flag] is the place whose PASTE_LEFT is set
    to that of [src], before the empty-argument check. *)
Lemma param_buffer_ok src buff ts flag (avoid : bool) v start :
  Forall operand buff -> Forall pasted_ok ts ->
  (has PASTE_LEFT src = true -> flag = None /\ avoid = false /\ t_type (List.last ts eof_token) <> CPP_PADDING) ->
  (has PASTE_LEFT src = false -> avoid = negb (last_token_is (buff ++ ts) start)) ->
  held v = false -> tracker_ok v -> (m_state v = 0 -> start = None) ->
  let flag := match ts with
              | [] => flag
              | _ => if has PASTE_LEFT src then last_token (buff ++ ts) else flag
              end in
  let b := if avoid then (buff ++ ts) ++ [avoid_paste] else buff ++ ts in
  subst_ok (Some src) (mk_subst (match flag with Some i => copy_paste_flag i src b | None => b end) v start).
Proof.
  intros Hb Hts Hset Hclear Hheld Hv Hout flag' b.
  assert (Forall operand (buff ++ ts)) as Hbt by (apply Forall_app; split; [done|by apply pasted_operands]).
  assert (Forall operand b) as Hop by (unfold b; destruct avoid; [by apply Forall_snoc; auto|done]).
  split; cbn [s_buff s_vaopt s_start]; try done; [| |by rewrite Hheld].
  - destruct flag' as [i|] eqn:Ef; [|done]. apply copy_paste_flag_ok; [done|]. intros Hs.
    destruct (Hset Hs) as (-> & Ha & Hl). unfold b. rewrite Ha in *. unfold flag' in Ef. rewrite Hs in Ef.
    destruct ts as [|t ts]; [done|]. rewrite (type_at_last _ _ _ Ef), last_app_ne by done.
    by destruct (type_is_spec (List.last (t :: ts) eof_token) CPP_PADDING).
  - cbn [pasted]. intros Hl. destruct (has PASTE_LEFT src) eqn:Es; [by left|right]. specialize (Hclear eq_refl).
    unfold b in *. destruct avoid.
    { exfalso. destruct flag' as [i|]; [by rewrite copy_paste_flag_cleared in Hl|by rewrite List.last_last in Hl]. }
    symmetry in Hclear. apply negb_false_iff in Hclear. unfold last_token_is in Hclear.
    destruct start as [p|]; [|done]. apply bool_decide_eq_true in Hclear. split; [done|]. rewrite <- Hclear.
    unfold last_token. destruct flag' as [i|]; [by rewrite copy_paste_flag_length|done].
Qed.

Lemma replace_param_ok macro prev src arg buff v start : Forall operand buff -> arg_ok arg ->
  (has STRINGIFY_ARG src = true -> exists t, a_stringified arg = Some t) ->
  held v = false -> tracker_ok v -> (m_state v = 0 -> start = None) ->
  exists x, snd (replace_param e macro prev src arg (mk_subst buff v start)) = Some x /\ s_vaopt x = v /\
            subst_ok (Some src) x.
Proof.
  intros Hb Ha Hstr Hheld Hv Hout. unfold replace_param. cbn [s_buff s_start s_vaopt].
  destruct (arg_tokens_ok macro prev src arg buff start Hb Ha Hstr) as (ts & buff' & flag & -> & Hb' & Hts & Hset).
  cbn [fst snd]. rewrite snd_W_bind, (eo_directive e He). cbn [negb orb andb]. cbv zeta.
  set (pad := match prev with Some p => _ | None => false end && _).
  set (b1 := if pad then buff' ++ [padding_token src] else buff').
  assert (Forall operand b1) as Hb1 by (unfold b1; destruct pad; [by apply Forall_snoc; auto|done]).
  eexists. split; [reflexivity|]. split; [done|]. apply param_buffer_ok; try done.
  - intros Hs. destruct (Hset Hs) as [-> Hl]. by rewrite Hs.
  - intros ->. done.
Qed.

Lemma replace_step_ok macro args prev src x v' u : subst_ok prev x -> Z.of_nat (length args) = m_paramc macro ->
  Forall arg_ok args -> token_ok (m_paramc macro) src -> prepared [src] args ->
  snd (vaopt_update (s_vaopt x) src) = (u, v') -> u <> VERROR ->
  exists x', snd (replace_step e macro args prev src x) = Some x' /\ s_vaopt x' = v' /\ subst_ok (Some src) x'.
Proof.
  intros [Hb Hl Hh Ho Ht] Hlen Hargs Hsrc Hprep Hu Hne. destruct (update_cases _ _ _ _ Ht Hu Hne) as [Ht' Hcase].
  unfold replace_step. rewrite snd_W_bind, Hu. destruct u; [done|..].
  - eexists. split; [reflexivity|]. split; [done|]. destruct Hcase as [Hheld Hn]. specialize (Hh Hheld).
    split; cbn; try done. intros Hp. right. split; [|done]. rewrite Hh. by destruct (s_buff x).
  - destruct Hcase as [Hheld Hst]. destruct (type_is_spec src CPP_MACRO_ARG) as [E|N].
    + destruct (arg_of_some _ args src Hlen Hsrc E) as (a & Ha & Hi). rewrite Ha.
      apply replace_param_ok; auto; [by eapply Forall_lookup_1 in Hi|].
      intros Hs. destruct (Hprep src (or_introl eq_refl) E Hs) as (a' & t & Ha' & Hs'). rewrite Ha in Ha'.
      injection Ha' as <-. by exists t.
    + eexists. split; [reflexivity|]. split; [done|]. destruct Hsrc as (H1 & H2 & _).
      split; cbn [s_buff s_vaopt s_start]; auto; [|by rewrite List.last_last; left|by rewrite Hheld].
      apply Forall_snoc; [done|]. by split_and!.
  - set (buff := match prev with Some p => _ | None => _ end). eexists. split; [reflexivity|]. split; [done|].
    assert (Forall operand buff) as Hbuff by (unfold buff; repeat case_match; auto; by apply Forall_snoc; auto).
    split; cbn [s_buff s_vaopt s_start]; auto.
    + intros Hp. right. split; [|done]. by destruct buff.
    + by intros ?%Hcase.
  - set (buff := drop_tail _ _ _). eexists. split; [reflexivity|]. split; [done|].
    destruct (drop_tail_prefix (length (s_buff x)) (s_start x) (s_buff x)) as (l & El). fold buff in El.
    assert (Forall operand buff) as Hbuff by (rewrite El in Hb; by apply Forall_app in Hb as [? _]).
    split; cbn [s_buff s_vaopt s_start]; auto.
    + destruct (has PASTE_LEFT src); [|by apply Forall_snoc; auto].
      destruct (last_token buff) as [i|] eqn:Ei; [|done]. destruct (type_at buff i CPP_PADDING) eqn:Ep; [done|].
      by apply copy_paste_flag_ok.
    + cbn [pasted]. destruct (has PASTE_LEFT src); [by left|]. by rewrite List.last_last.
    + intros Hhd. unfold held in Hhd. by rewrite Hcase in Hhd.
Qed.

Lemma replace_loop_ok macro args srcs : Z.of_nat (length args) = m_paramc macro -> Forall arg_ok args ->
  Forall (token_ok (m_paramc macro)) srcs -> prepared srcs args -> forall prev x vf,
  subst_ok prev x -> vaopt_run (s_vaopt x) srcs = Some vf ->
  exists y, snd (replace_loop e macro args prev srcs x) = Some (s_buff y) /\ s_vaopt y = vf /\
    subst_ok (match srcs with [] => prev | _ => Some (List.last srcs eof_token) end) y.
Proof.
  intros Hlen Hargs. induction 1 as [|src srcs Hsrc Hsrcs IH]; intros Hprep prev x vf Hx Hv.
  { exists x. cbn in Hv. by injection Hv as <-. }
  cbn [vaopt_run replace_loop] in *. destruct (snd (vaopt_update (s_vaopt x) src)) as [u v'] eqn:Eu.
  assert (u <> VERROR) as Hne by by intros ->.
  assert (vaopt_run v' srcs = Some vf) as Hv' by by destruct u. clear Hv.
  destruct (replace_step_ok macro args prev src x v' u) as (x' & E & Evx & Hx'); try done.
  { intros src' [<-|[]]. apply Hprep. by left. }
  rewrite snd_W_bind, E. destruct (IH ltac:(intros ? ?; apply Hprep; by right) (Some src) x' vf Hx') as (y & Hy1 & Hy2 & Hy3);
    [by rewrite Evx|]. exists y. split; [done|]. split; [done|]. by destruct srcs.
Qed.

(** The replacement of the whole list is a chain. *)
Lemma replacement_chain macro args any : macro_ok macro -> Z.of_nat (length args) = m_paramc macro -> Forall arg_ok args ->
  prepared (real_tokens macro) args ->
  exists buff, snd (replace_loop e macro args None (real_tokens macro) (mk_subst [] (vaopt_init (m_variadic macro) any) None))
    = Some buff /\ chain buff.
Proof.
  intros [Hm1 Hm2 Hm3 Hm4 Hm5 Hm6 Hm7] Hlen Hargs Hprep. destruct (Hm7 any) as (vf & Hv & H0).
  destruct (replace_loop_ok macro args _ Hlen Hargs Hm4 Hprep None (mk_subst [] (vaopt_init (m_variadic macro) any) None) vf)
    as (y & Hy1 & Hy2 & [Hb Hl Hh Ho Ht]); [by split|done|].
  exists (s_buff y). split; [done|]. split; [done|]. rewrite Hy2 in Ho. specialize (Ho H0).
  destruct (has PASTE_LEFT (List.last (s_buff y) eof_token)) eqn:E; [|done].
  destruct (Hl eq_refl) as [Hp|[Hs _]]; [|done]. destruct (real_tokens macro); [done|]. cbn [pasted] in Hp. congruence.
Qed.

(** *** Entering a macro *)

Lemma replace_args_ok get fuel name macro args s : get_ok get -> reader_ok s -> macro_ok macro ->
  0 < m_paramc macro -> args_ok macro args ->
  post (fun _ s' => exists s1 buff, restored s s1 /\ chain buff /\
                      s' = set_contexts (mk_ctx (Some name) [] buff :: p_contexts s1) s1)
    (replace_args e get fuel name macro args s).
Proof.
  intros Hget Hs Hm Hpos Hargs. destruct (Hargs Hpos) as [Hlen Hok]. unfold replace_args.
  eapply post_bind; [apply (prepare_args_ok get fuel Hget (m_paramc macro)); try done; by destruct Hm|].
  intros args' s1 (Hr & Hlen' & Hok' & Hprep & _).
  destruct (lookup_lt_is_Some_2 args' (Z.to_nat (m_paramc macro - 1))) as [a ->]; [lia|].
  destruct (replacement_chain macro args' (match a_tokens a with [] => false | _ => true end)) as (buff & E & Hch); try done; [lia|].
  apply post_put. rewrite E. set (s2 := add_diags _ s1). exists s2, buff. split_and!; [|done..].
  eapply restored_trans; [exact Hr|]. by apply restored_diags, Hr.
Qed.

Lemma plain_chain macro : macro_ok macro -> m_paramc macro = 0 -> chain (real_tokens macro).
Proof.
  intros [Hm1 Hm2 Hm3 Hm4 Hm5 Hm6 Hm7] H0. split; [|done]. eapply Forall_impl; [exact Hm4|].
  intros t (H1 & H2 & H3 & _). rewrite H0 in H3. split_and!; try done. intros E. specialize (H3 E). lia.
Qed.

(** The context of a macro that was not disabled is pushed. *)
Lemma entered_ok F s name buff : reader_ok s -> framed F s -> name ∉ macros_of (p_contexts s) -> chain buff ->
  let s' := set_disabled (p_disabled s ∪ {[name]}) (set_contexts (mk_ctx (Some name) [] buff :: p_contexts s) s) in
  reader_ok s' /\ framed F s' /\ p_prevent_expansion s' = p_prevent_expansion s.
Proof.
  intros [H1 H2 H3 H4 H5] Hf Hn Hch. cbv zeta. split_and!; [|eapply framed_push; [exact Hf|done|]|done].
  - split; cbn; try done; [constructor; [by right|done]|split; [done|by right]|]. rewrite H3, macros_of_cons. cbn. set_solver.
  - by apply chain_open.
Qed.

Lemma set_prevent_ok n s : reader_ok s -> 0 <= n -> reader_ok (set_prevent n s).
Proof. intros [H1 H2 H3 H4 H5] Hn. by split. Qed.

Lemma enter_macro_context_ok get fuel F s name value : get_ok get -> reader_ok s -> framed F s ->
  p_prevent_expansion s = 0 -> name ∉ p_disabled s -> (forall m, value = NUser m -> macro_ok m) ->
  post (fun _ s' => reader_ok s' /\ framed F s' /\ p_prevent_expansion s' = 0)
    (enter_macro_context e get fuel name value s).
Proof.
  intros Hget Hs Hf Hp Hn Hm. destruct value as [|macro|]; [done| |done]. specialize (Hm macro eq_refl).
  unfold enter_macro_context. rewrite (ro_disabled s Hs) in Hn. pose proof (mo_paramc macro Hm) as Hpc.
  assert (forall s' : preader, reader_ok s' -> framed F s' -> name ∉ macros_of (p_contexts s') -> p_prevent_expansion s' = 0 ->
    m_paramc macro = 0 -> post (fun _ s' => reader_ok s' /\ framed F s' /\ p_prevent_expansion s' = 0)
      ((s ←m getM ;; putM (set_disabled (p_disabled s ∪ {[name]})) ;;m
        whenM (m_paramc macro =? 0) (push_context (Some name) (real_tokens macro)) ;;m mret true) s')) as Hplain.
  { intros s' H1 H2 H3 H4 H5. apply post_get, post_put. rewrite H5.
    destruct (entered_ok F s' name (real_tokens macro) H1 H2 H3 (plain_chain macro Hm H5)) as (R1 & R2 & R3).
    cbn. split_and!; [destruct R1; by split|by eapply framed_contexts; [|exact R2]|done]. }
  destruct (m_fun_like macro) eqn:Efl.
  2: { apply Hplain; try done. destruct (mo_object macro Hm Efl) as [Hnil _]. rewrite Hnil in Hpc. done. }
  eapply post_bind with (Q := fun (r : bool) s' => if r then
      exists s1 buff, reader_ok s1 /\ framed F s1 /\ name ∉ macros_of (p_contexts s1) /\ p_prevent_expansion s1 = 0 /\
        (m_paramc macro = 0 /\ s' = s1 \/ 0 < m_paramc macro /\ chain buff /\
         s' = set_contexts (mk_ctx (Some name) [] buff :: p_contexts s1) s1)
    else reader_ok s' /\ framed F s' /\ p_prevent_expansion s' = 0).
  - apply post_get, post_put. rewrite Hp. set (s1 := set_prevent (0 + 1) s).
    assert (reader_ok s1) as Hs1 by (by apply set_prevent_ok).
    eapply post_bind; [by apply (funlike_invocation_ok get fuel Hget F macro s1)|].
    intros r s2 [[(K1 & K2 & K3) Kf] Ka]. change (p_prevent_expansion s1) with 1 in K2.
    change (p_contexts s1) with (p_contexts s) in K3.
    apply post_get, post_put. rewrite K2. set (s3 := set_prevent (1 - 1) s2).
    assert (reader_ok s3) as Hs3 by (by apply set_prevent_ok).
    assert (framed F s3) as Hf3 by (by eapply framed_contexts; [|exact Kf]).
    assert (name ∉ macros_of (p_contexts s3)) as Hn3 by (change (p_contexts s3) with (p_contexts s2); set_solver).
    destruct r as [args|].
    + destruct (Z.ltb_spec 0 (m_paramc macro)) as [Hpos|Hpos]; cbn [whenM].
      * eapply post_bind; [by apply (replace_args_ok get fuel name macro args s3)|].
        intros [] s4 (s5 & buff & (R1 & R2 & R3) & Hch & ->). cbn. exists s5, buff. rewrite R3, R2. split_and!; try done.
        { by eapply framed_contexts; [|exact Hf3]. } right. by split_and!.
      * cbn. exists s3, []. split_and!; try done. left. split; [lia|done].
    + apply post_get. apply post_emit. cbn. destruct (_ && _); [|done].
      split_and!; [by apply restored_diags|by eapply framed_contexts; [|exact Hf3]|done].
  - intros [|] s' H; [|exact H]. destruct H as (s1 & buff & R1 & R2 & R3 & R4 & [[H0 ->]|(Hpos & Hch & ->)]).
    + by apply Hplain.
    + apply post_get, post_put. destruct (Z.eqb_spec (m_paramc macro) 0); [lia|].
      destruct (entered_ok F s1 name buff R1 R2 R3 Hch) as (E1 & E2 & E3). cbn.
      split_and!; [exact E1|exact E2|exact R4].
Qed.

(** *** Reading a token *)

Lemma delivered_flag f t : flag f PASTE_LEFT = false -> delivered t -> delivered (add_flag f t).
Proof. intros Hf [H1 H2]. split; [|done]. by rewrite has_add, H1, Hf. Qed.

Lemma padding_delivered t : delivered (padding_token t).
Proof. done. Qed.

(** A padding token in place of what was read. *)
Lemma got_padding F s t s' : reader_ok s' -> framed F s' -> delivered t -> t_type t = CPP_PADDING ->
  p_prevent_expansion s' = p_prevent_expansion s ->
  (p_prevent_expansion s <> 0 -> macros_of (p_contexts s') ⊆ macros_of (p_contexts s)) -> got F s t s'.
Proof.
  intros H1 H2 H3 H4 H5 H6. split_and!; try done; [right; by rewrite H4|]. intros Hp. split; [by apply H6|by rewrite H4].
Qed.

Lemma expand_token_ok get fuel F s t s1 : get_ok get -> got F s t s1 -> macros_of (p_contexts s1) = macros_of (p_contexts s) ->
  returnable t s1 -> post (got F s) (expand_token e get fuel t s1).
Proof.
  intros Hget Hgot Hmac Hret. unfold expand_token. rewrite (eo_directive e He). cbn [andb].
  destruct (type_is_spec t CPP_NAME) as [Et|Nt]; cbn [negb]; [|done].
  destruct (e_macros e !! t_text t) as [node|] eqn:Em; [|done].
  destruct (match mn_value node with NVoid => true | _ => false end) eqn:Ev.
  { by destruct (mn_value node). }
  destruct (has NO_EXPAND t); [by destruct (mn_value node)|].
  assert (post (got F s) ((s ←m getM ;;
      if bool_decide (t_text t ∈ p_disabled s) then mret (add_flag NO_EXPAND t)
      else if negb (p_prevent_expansion s =? 0) then mret t
      else if flag (mn_flags node) NODE_CONDITIONAL then mret t
      else r ←m enter_macro_context e get fuel (t_text t) (mn_value node) ;;
           if r : bool then mret (padding_token t) else mret t) s1)) as H; [|by destruct (mn_value node)].
  apply post_get. destruct Hgot as (H1 & H2 & H3 & H4 & H5). case_bool_decide as Hd.
  { cbn. split_and!; [done|by apply delivered_flag|done| |].
    - right. destruct H4 as [[? _]|H4]; [congruence|exact H4].
    - intros Hp. destruct (H5 Hp). split; [done|]. intros _. exact Hret. }
  destruct (Z.eqb_spec (p_prevent_expansion s1) 0) as [E0|N0]; cbn [negb]; [|done].
  destruct (flag (mn_flags node) NODE_CONDITIONAL); [done|].
  assert (t_type t <> CPP_EOF) as Hne by by rewrite Et.
  eapply post_bind.
  { apply (enter_macro_context_ok get fuel F s1); try done; [by eapply after_framed|]. intros m E. by eapply (eo_macros e He). }
  intros r s2 (R1 & R2 & R3). rewrite E0 in H3. destruct r; cbn.
  - apply got_padding; try done; congruence.
  - split_and!; try done; try congruence. by right.
Qed.

Lemma lex_base_ok F s : reader_ok s -> framed F s -> p_contexts s = [] ->
  post (fun t s' => got F s t s' /\ p_contexts s' = p_contexts s /\ returnable t s') (lex_base s).
Proof.
  intros [H1 H2 H3 H4 H5] Hf E. unfold lex_base. apply post_get.
  destruct F as [K|]; [destruct Hf as (above & b & E' & _); rewrite E in E'; by destruct above|].
  destruct (read_context (p_base s)) as [[t c]|] eqn:Er.
  - destruct (read_context_spec _ _ _ Er) as (_ & _ & Hl & Hrd). rewrite Hl in H5. inversion H5 as [|? ? [Hd Hn] Hrest]; subst.
    assert (returnable t (set_base c s)) as Hret by (left; unfold readback; cbn; rewrite E, Hrd; eauto).
    assert (after None t (set_base c s)) as Haft by (right; split; [done|]; by eapply framed_contexts; [|exact Hf]).
    assert (reader_ok (set_base c s)) as Hok by by split. by cbn; split_and!.
  - assert (returnable eof_token (set_base (mk_ctx None (eof_token :: c_read (p_base s)) []) s)) as Hret by (right; by split).
    set (s' := set_base _ s) in *. assert (after None eof_token s') as Haft by (left; split; [done|]; by split).
    assert (reader_ok s') as Hok by by split. cbn. fold s'. by split_and!.
Qed.

Lemma get_round_ok get fuel : get_ok get -> get_ok (get_round e get fuel).
Proof.
  intros Hget F s Hs Hf. unfold get_round. apply post_get. destruct (p_contexts s) as [|c cs] eqn:E.
  { eapply post_bind; [by apply (lex_base_ok F)|]. intros t s1 (H1 & H2 & H3). apply expand_token_ok; try done. by rewrite H2. }
  destruct (read_context c) as [[t c']|] eqn:Er.
  - destruct (read_context_spec _ _ _ Er) as (Ha & Hm & Hl & Hrd). apply post_put. set (s1 := set_contexts (c' :: cs) s).
    assert (reader_ok s1) as Hs1.
    { pose proof (reader_ok_top s c c' cs [] Hs E (conj Ha Hm)) as [H1 H2 H3 H4 H5]. by split. }
    assert (after F t s1) as Haft by (by eapply after_read).
    assert (macros_of (p_contexts s1) = macros_of (p_contexts s)) as Hmac by (rewrite E; by apply macros_of_same).
    assert (ctx_ok c) as Hc by (destruct Hs as [Hc _ _ _ _]; rewrite E in Hc; by inversion Hc). unfold ctx_ok in Hc.
    destruct (has PASTE_LEFT t) eqn:Ep.
    + destruct Hc as [Hc|[Em Hc]]; [apply (in_all_left _ _ _ _ Hc) in Hl as [Hl _]; congruence|].
      destruct (in_all_left _ _ _ _ (proj1 Hc) Hl) as (Ht1 & Ht2 & _).
      assert (c_left c' <> []) as Hl' by by eapply chain_left.
      eapply post_bind; [apply (paste_all_tokens_ok fuel F t s1 c' cs); try done; [by eapply after_framed|by rewrite Ha|by rewrite Hm]|].
      intros [] s2 (Q1 & Q2 & Q3 & Q4). rewrite (eo_directive e He). cbn. apply got_padding; try done.
      intros _. by rewrite Q4, Hmac.
    + assert (delivered t) as Hd.
      { destruct Hc as [Hc|[_ Hc]]; [by eapply in_all_left|]. destruct (in_all_left _ _ _ _ (proj1 Hc) Hl) as (Ht1 & _). by split. }
      assert (returnable t s1) as Hret by (left; unfold readback; cbn; rewrite Hrd; eauto).
      apply expand_token_ok; try done. split_and!; try done. intros _. split; [by rewrite Hmac|done].
  - apply read_context_end in Er. eapply post_bind; [by apply (pop_ok get Hget s c cs)|].
    intros [] s1 (H1 & H2 & H3). rewrite (eo_directive e He). cbn. apply got_padding; try done.
    + by eapply framed_pop.
    + intros _. rewrite H3, E, macros_of_cons. set_solver.
Qed.

Lemma cpp_get_token_1_ok fuel : get_ok (cpp_get_token_1 e fuel).
Proof. induction fuel as [|fuel IH]; [by intros F s _ _|]. by apply get_round_ok. Qed.

Lemma get_tokens_ok n fuel : forall s, reader_ok s -> framed None s ->
  post (fun ts s' => Forall pasted_ok ts /\ reader_ok s' /\ p_contexts s' = []) (get_tokens e n fuel s).
Proof.
  induction n as [|n IH]; intros s Hs Hf; [done|]. cbn [get_tokens].
  eapply post_bind; [by apply (cpp_get_token_1_ok fuel None)|]. intros t s1 (H1 & H2 & H3 & H4 & _).
  destruct (type_is_spec t CPP_EOF) as [E|N].
  - cbn. destruct H4 as [[_ [Hc _]]|[? _]]; [|done]. split_and!; [constructor|done..].
  - eapply post_bind; [apply IH; [done|by eapply after_framed]|].
    intros ts s2 (Q1 & Q2 & Q3). cbn. split_and!; [by constructor|done..].
Qed.
End Operations.

(** ** From the directives to the expansion *)

Definition table_ok (m : gmap (list Z) macro_node) : Prop :=
  forall name node macro, m !! name = Some node -> mn_value node = NUser macro -> macro_ok macro.

(** A directive as the lexer delivers it. *)
Definition lexed_directive (d : macro_directive) : Prop :=
  match d with
  | DDefine _ ts => Forall lexed_plain ts /\ Z.of_nat (length ts) < 2 ^ 16
  | DUndef _ => True
  end.

Lemma do_define_ok o mo syshdr name node ts node' macro : Forall lexed_plain ts -> Z.of_nat (length ts) < 2 ^ 16 ->
  (forall macro, mn_value node = NUser macro -> macro_ok macro) ->
  snd (do_define o mo syshdr name node ts) = Some node' -> mn_value node' = NUser macro -> macro_ok macro.
Proof.
  intros Hts Hlen Hnode. unfold do_define, _cpp_create_definition. rewrite !snd_W_bind.
  destruct (snd (create_iso_definition o mo syshdr ts)) as [m| |] eqn:E; [|by intros [= <-]; apply Hnode|done].
  rewrite snd_W_bind. unfold enter_definition. rewrite snd_W_bind. cbn. intros [= <-] [= <-].
  eapply created_macro_ok; [exact Hts|exact E|]. pose proof (created_params_length _ _ _ _ _ E). lia.
Qed.

Lemma run_directives_ok o mo syshdr ds : Forall lexed_directive ds -> forall m m', table_ok m ->
  run_directives o mo syshdr m ds = Some m' -> table_ok m'.
Proof.
  induction 1 as [|d ds Hd _ IH]; intros m m' Hm; cbn [run_directives]; [by intros [= <-]|].
  destruct (run_directive o mo syshdr m d) as [m1|] eqn:E; [|done]. apply IH.
  assert (forall name macro, mn_value (node_of m name) = NUser macro -> macro_ok macro) as Hnode.
  { intros name macro. unfold node_of. destruct (m !! name) eqn:En; [by eapply Hm|done]. }
  destruct d as [name ts|name]; cbn in E.
  - destruct (snd (do_define o mo syshdr name (node_of m name) ts)) as [n|] eqn:En; [|done]. injection E as <-.
    destruct Hd as [Hts Hlen]. intros name' node macro [[<- <-]|[_ H]]%lookup_insert_Some; [|by eapply Hm].
    eapply do_define_ok; [exact Hts|exact Hlen|apply Hnode|exact En].
  - injection E as <-. intros name' node macro [[<- <-]|[_ H]]%lookup_insert_Some; [|by eapply Hm].
    unfold do_undef. destruct (mn_value (node_of m name)) as [|u|] eqn:En; [cbn; by rewrite En|by rewrite snd_W_bind..].
Qed.

(** Outside directives, with the table a sequence of directives leaves. *)
Record defined_env (e : macro_env) (ds : list macro_directive) : Prop := {
  de_directive : e_in_directive e = false;
  de_angled : angled_headers (e_lex e) = false;
  de_operators : operators_marked (e_node e);
  de_lexed : Forall lexed_directive ds;
  de_table : exists o mo syshdr, run_directives o mo syshdr ∅ ds = Some (e_macros e)
}.

Lemma defined_env_ok e ds : defined_env e ds -> env_ok e.
Proof.
  intros [H1 H2 H3 H4 (o & mo & syshdr & H5)]. split; try done. eapply run_directives_ok; [exact H4| |exact H5].
  intros name node m H. by rewrite lookup_empty in H.
Qed.

Definition text_token (t : cpp_token) : Prop := lexed_plain t /\ t_type t <> CPP_EOF.

Lemma start_reader_ok o ts : Forall text_token ts -> reader_ok (start_reader o ts) /\ framed None (start_reader o ts).
Proof.
  intros H. split; [|constructor]. split; cbn; try done. eapply Forall_impl; [exact H|].
  by intros t ((H1 & H2 & H3 & H4) & H5).
Qed.

(** The states a reader is in between two tokens. *)
Inductive reads (e : macro_env) : preader -> Prop :=
  | reads_start ts : Forall text_token ts -> reads e (start_reader (e_options e) ts)
  | reads_token fuel s t s' : reads e s -> cpp_get_token e fuel s = Ok t s' -> reads e s'.

Lemma reads_ok e s : env_ok e -> reads e s -> reader_ok s /\ framed None s.
Proof.
  intros He. induction 1 as [ts Hts|fuel s t s' _ [Hs Hf] E]; [by apply start_reader_ok|].
  pose proof (cpp_get_token_1_ok e He fuel None s Hs Hf) as H. unfold cpp_get_token in E. rewrite E in H.
  destruct H as (H1 & _ & _ & H4 & _). split; [done|]. destruct H4 as [[_ [Hc _]]|[_ H4]]; [|done].
  unfold framed. by rewrite Hc.
Qed.

(** C8: every macro create_iso_definition makes of a line the lexer reads
    (with fewer than 65536 parameters) is well formed: the tokens that name a
    parameter have an index in its list, # is only kept on parameters, no ## is
    left over or stands at an end, only function-like macros have parameters or
    are variadic, a variadic macro has a parameter, and the tracker of
    __VA_OPT__ runs over the replacement list without an error, whatever the
    arguments, and ends outside every group. *)
Theorem definition_well_formed tab o st node mo syshdr fuel flags base x ts x' m :
  angled_headers st = false -> operators_marked node -> unmarked flags ->
  snd (lex_line tab o st node fuel flags base x) = Some (ts, x') ->
  snd (create_iso_definition o mo syshdr ts) = Defined m -> Z.of_nat (length (m_params m)) < 2 ^ 16 -> macro_ok m.
Proof.
  intros Hang Hop Hf Hl. eapply created_macro_ok, lex_line_plain; [exact Hang|exact Hop|exact Hf|exact Hl].
Qed.

(** A macro that stringifies and pastes. *)
Definition sample_line : list byte := Eval vm_compute in source "(x,...) # x __VA_OPT__(x ## y) ## ## __VA_ARGS__" ++ [10].

Definition sample_macro : cpp_macro := Eval vm_compute in
  match snd (create_iso_definition gnuc17_options default_macro_options false
               (line_tokens "(x,...) # x __VA_OPT__(x ## y) ## ## __VA_ARGS__")) with
  | Defined m => m
  | _ => mk_macro [] 0 false false false false []
  end.

Lemma definition_well_formed_witness : macro_ok sample_macro /\ length (real_tokens sample_macro) = 7%nat.
Proof.
  split; [|reflexivity].
  eapply (definition_well_formed sample_table gnuc17_options plain_flags (fun _ => no_node) default_macro_options false 60 0
            sample_line (mk_lexer false false)); [reflexivity|by intros name|by split|by vm_compute|by vm_compute|by vm_compute].
Defined.


Definition sample_directives : list macro_directive := Eval vm_compute in
  [define_directive "cat(x,y) x ## y"; define_directive "str(x,...) # x __VA_OPT__(,) # __VA_ARGS__";
   define_directive "gone 1"; define_directive "loop loop cat(lo,op)"; DUndef (bytes "gone")].

Definition sample_env : macro_env := Eval vm_compute in
  mk_env sample_table gnuc17_options default_macro_options plain_flags (fun _ => no_node)
    (default ∅ (run_directives gnuc17_options default_macro_options false ∅ sample_directives)) false false.

Definition sample_text : list cpp_token := Eval vm_compute in line_tokens "str(cat(a,b), gone) loop cat(str,(1))".

Lemma sample_env_defined : defined_env sample_env sample_directives.
Proof.
  split; [reflexivity..|by intros name| |exists gnuc17_options, default_macro_options, false; by vm_compute].
  repeat constructor; discriminate.
Qed.

Lemma sample_text_lexed : Forall text_token sample_text.
Proof. repeat constructor; discriminate. Qed.


(** C9: a macro is disabled exactly while its replacement list is being read:
    between any two tokens the nodes with NODE_DISABLED are those of the macros
    with a context on the stack, so that _cpp_pop_context enables a macro
    exactly when the last of its contexts, which lie next to each other, is
    left. *)
Theorem disabled_while_read e ds s : defined_env e ds -> reads e s ->
  p_disabled s = macros_of (p_contexts s) /\ nested (p_contexts s).
Proof. intros He%defined_env_ok Hr. by destruct (reads_ok e s He Hr) as [[_ H1 H2 _ _] _]. Qed.

Lemma disabled_while_read_witness : exists s, p_disabled s = {[bytes "loop"]} /\ length (p_contexts s) = 1%nat /\
  p_disabled s = macros_of (p_contexts s) /\ nested (p_contexts s).
Proof.
  destruct (cpp_get_token sample_env 200 (start_reader gnuc17_options (line_tokens "loop"))) as [t s| | |] eqn:E;
    [|by vm_compute in E..].
  exists s. split; [by vm_compute in E; injection E as _ <-|]. split; [by vm_compute in E; injection E as _ <-|].
  apply (disabled_while_read sample_env sample_directives); [apply sample_env_defined|].
  eapply reads_token; [|exact E]. apply (reads_start sample_env). repeat constructor; discriminate.
Defined.
