(* ===== verification/MacroEnd.v ===== *)
(** * The end of an expansion

    MacroSpec shows that an expansion with function-like macros need not end.
    Where every macro is object-like it does: a token costs what the macros
    that are still enabled can make of it, and each call of cpp_get_token makes
    what is left cheaper. *)

From Stdlib Require Import ZArith Lia Bool String Ascii.
From stdpp Require Import base tactics list numbers gmap.
From S2P Require Import Prelude Reader CppNum NumLit Stream Utf StrLit Symtab CleanLine Lex LexGrammar LexSpec LexPaste LexLine MacroDef MacroDefSpec Macro MacroSafe.

Local Open Scope string_scope.
Local Open Scope list_scope.
Local Open Scope Z_scope.

(** ** Computations that have the steps they need *)

Definition ends {A} (P : A -> preader -> Prop) (r : outcome A) : Prop :=
  match r with Ok x s => P x s | NoFuel => False | Wild | Outside => True end.

Lemma ends_bind {A B} (m : M A) (f : A -> M B) s (Q : A -> preader -> Prop) (P : B -> preader -> Prop) :
  ends Q (m s) -> (forall x s', Q x s' -> ends P (f x s')) -> ends P (bindM m f s).
Proof. unfold bindM. destruct (m s); cbn; auto. Qed.

Lemma ends_imp {A} (Q P : A -> preader -> Prop) r : ends Q r -> (forall x s, Q x s -> P x s) -> ends P r.
Proof. destruct r; cbn; auto. Qed.

(** What is known of a result by both. *)
Lemma ends_post {A} (P Q : A -> preader -> Prop) r : ends P r -> post Q r -> ends (fun x s => P x s /\ Q x s) r.
Proof. destruct r; cbn; auto. Qed.

(** ** The cost of what is left *)

Section Cost.
Context (macros : gset (list Z)) (L : nat).

(** The cost of a token while [k] macros are enabled, of which each has at
    most [L] tokens. *)
Fixpoint cost (k : nat) : nat :=
  match k with O => 2 | S k => 2 + L * (cost k + 2) end.

(** The left operand of ## pays for the context of the result. *)
Definition token_cost (k : nat) (t : cpp_token) : nat := cost k + (if has PASTE_LEFT t then 2 else 0).

Definition tokens_cost (k : nat) (ts : list cpp_token) : nat := list_sum (map (token_cost k) ts).

Definition enabled (cs : list context) : nat := size (macros ∖ macros_of cs).

Fixpoint contexts_cost (cs : list context) : nat :=
  match cs with
  | [] => 0
  | c :: cs' => 1 + tokens_cost (enabled cs) (c_left c) + contexts_cost cs'
  end.

Definition reader_cost (s : preader) : nat :=
  contexts_cost (p_contexts s) + tokens_cost (enabled []) (c_left (p_base s)).

Lemma tokens_cost_cons k t ts : tokens_cost k (t :: ts) = (token_cost k t + tokens_cost k ts)%nat.
Proof. done. Qed.

Lemma tokens_cost_app k ts ts' : tokens_cost k (ts ++ ts') = (tokens_cost k ts + tokens_cost k ts')%nat.
Proof. unfold tokens_cost. by rewrite map_app, list_sum_app. Qed.

Lemma tokens_cost_le k ts : (length ts <= L)%nat -> (tokens_cost k ts <= L * (cost k + 2))%nat.
Proof.
  intros Hl. transitivity (length ts * (cost k + 2))%nat; [|by apply Nat.mul_le_mono_r].
  clear Hl. induction ts as [|t ts IH]; [done|]. rewrite tokens_cost_cons. unfold token_cost. cbn [length].
  destruct (has PASTE_LEFT t); lia.
Qed.

Lemma token_cost_pos k t : (2 <= token_cost k t)%nat.
Proof. unfold token_cost. destruct k; cbn; lia. Qed.

(** An enabled macro is worth its replacement. *)
Lemma enabled_enter name c cs : name ∈ macros -> name ∉ macros_of cs -> c_macro c = Some name ->
  enabled cs = S (enabled (c :: cs)).
Proof.
  intros Hin Hout Hc. unfold enabled. rewrite macros_of_cons, Hc.
  assert (macros ∖ macros_of cs = {[name]} ∪ (macros ∖ ({[name]} ∪ macros_of cs))) as ->.
  { apply set_eq. intros x. destruct (decide (x = name)); set_solver. }
  rewrite size_union by set_solver. by rewrite size_singleton.
Qed.

Lemma enabled_macros cs cs' : macros_of cs = macros_of cs' -> enabled cs = enabled cs'.
Proof. unfold enabled. by intros ->. Qed.

(** Every context is short. *)
Definition short (s : preader) : Prop := Forall (fun c => (length (all c) <= L)%nat) (p_contexts s).

(** What a step leaves. *)
Definition cheaper (s s' : preader) : Prop := short s' /\ (reader_cost s' < reader_cost s)%nat.
End Cost.

Section Ends.
Context (e : macro_env) (He : env_ok e) (L : nat) (Hpos : (0 < L)%nat).
Context (Hobj : forall name node m, e_macros e !! name = Some node -> mn_value node = NUser m ->
                  m_fun_like m = false /\ (length (real_tokens m) <= L)%nat).
Notation macros := (dom (e_macros e)).
Notation cost := (cost L).
Notation reader_cost := (reader_cost macros L).
Notation cheaper := (cheaper macros L).
Notation short := (short L).

Lemma paste_tokens_ends lhs rhs s c cs u rd : p_contexts s = c :: cs -> c_read c = u :: rd ->
  ends (fun r s' => exists c', same_context c c' /\ top_only s s' c' cs /\
          (c_left c' = c_left c \/ c_left c' = u :: c_left c /\ fst r = false)) (paste_tokens e lhs rhs s).
Proof.
  intros E Hr. unfold paste_tokens. destruct (paste_text_ok lhs rhs) as (buf & ->).
  destruct buf as [|b buf]; [done|]. unfold bindM at 1, getM at 1.
  destruct (snd (lex_direct _ _ _ _ _ _ _ _)) as [[l y]|] eqn:El; [|done]. unfold bindM at 1, putM at 1.
  destruct l; try done. unfold bindM at 1, putM at 1. case_bool_decide.
  - cbn. exists c. split_and!; try done. by left.
  - unfold bindM at 1. unfold _cpp_backup_tokens, bindM, getM. cbn [p_contexts set_lexer add_diags]. rewrite E.
    destruct (unread_context_spec _ _ _ Hr) as (c' & -> & Hall & Hmac & Hleft & _).
    destruct (negb (is_asm _)); cbn; exists c'; split_and!; try done; by right.
Qed.

Lemma paste_loop_ends fuel : forall lhs s c cs, p_contexts s = c :: cs -> (length (c_left c) < fuel)%nat ->
  ends (fun t s' => exists c' l, same_context c c' /\ top_only s s' c' cs /\ c_left c = l ++ c_left c') (paste_loop e fuel lhs s).
Proof.
  induction fuel as [|fuel IH]; intros lhs s c cs E Hl; [lia|]. cbn [paste_loop]. unfold bindM at 1, getM at 1. rewrite E.
  destruct (read_context c) as [[rhs c1]|] eqn:Er; [|done].
  destruct (read_context_spec _ _ _ Er) as (Ha & Hmac & Hleft & Hread). unfold bindM at 1, putM at 1.
  destruct (type_is rhs CPP_PADDING && has PASTE_LEFT rhs); [done|].
  eapply ends_bind; [apply (paste_tokens_ends lhs rhs _ c1 cs rhs (c_read c)); done|].
  intros [ok t] s2 (c2 & [H1 H2] & (T1 & T2 & T3 & T4) & Hl2). cbn [fst] in Hl2. cbn in T2, T3, T4.
  destruct (ok && has PASTE_LEFT rhs) eqn:Eok.
  - apply andb_prop in Eok as [-> Epl]. destruct Hl2 as [Hl2|[_ ?]]; [|done]. rewrite Hleft in Hl. cbn [length] in Hl.
    eapply ends_imp; [apply (IH t s2 c2 cs T1); rewrite Hl2; lia|].
    intros t' s3 (c3 & l & [H3 H4] & (U1 & U2 & U3 & U4) & Hl3). exists c3, (rhs :: l).
    split_and!; [split; congruence| |]; [split_and!; congruence|]. by rewrite Hleft, <- Hl2, Hl3.
  - cbn. destruct Hl2 as [Hl2|[Hl2 _]]; [exists c2, [rhs]|exists c2, []]; rewrite Hleft, Hl2;
      (split_and!; [split; congruence|done|done]).
Qed.

Lemma cost_pos k : (2 <= cost k)%nat.
Proof. destruct k; cbn; lia. Qed.

Lemma contexts_cost_cons c cs : contexts_cost macros L (c :: cs)
  = (1 + tokens_cost L (enabled macros (c :: cs)) (c_left c) + contexts_cost macros L cs)%nat.
Proof. done. Qed.

Lemma paste_all_tokens_ends fuel lhs s c cs : reader_ok s -> p_contexts s = c :: cs -> c_left c <> [] -> 
  (length (c_left c) < fuel)%nat -> short s -> chain (all c) -> t_type lhs <> CPP_MACRO_ARG -> not_eof lhs ->
  ends (fun _ s' => short s' /\ (reader_cost s' < reader_cost s + cost (enabled macros (c :: cs)) + 2)%nat)
    (paste_all_tokens e fuel lhs s).
Proof.
  intros Hs E Hl Hlen Hsh Hch Ha Hn. unfold paste_all_tokens. unfold bindM at 1, getM at 1. rewrite E. cbn [macro_of_context].
  destruct (c_macro c) as [m|] eqn:Em; [|done]. destruct (negb _); [done|].
  eapply ends_bind; [apply ends_post; [by apply (paste_loop_ends fuel lhs s c cs)|by apply (paste_loop_ok e He fuel lhs s c cs)]|].
  intros t s' [(c' & l & [Hall Hmac] & (T1 & T2 & T3 & T4) & Hl') (((Ht1 & Ht2) & Ht3) & _)].
  set (new := mk_ctx (Some m) [] [t]). unfold push_token_context, bindM at 1, getM at 1.
  assert ((match (if tracking e then Some m else None) with None => macro_of_context (p_contexts s') | Some _ => if tracking e then Some m else None end)
    = Some m) as -> by (destruct (tracking e); [done|]; by rewrite T1; cbn; rewrite Hmac).
  cbn. fold new.
  assert (macros_of (c' :: cs) = macros_of (c :: cs)) as Hmo by (by apply macros_of_same).
  assert (macros_of (new :: c' :: cs) = macros_of (c :: cs)) as Hmo2.
  { rewrite macros_of_cons, Hmo, macros_of_cons, Em. unfold new. cbn. set_solver. }
  split.
  - unfold short, MacroEnd.short in *. cbn. rewrite E in Hsh. rewrite T1. inversion Hsh; subst.
    constructor; [unfold new, all; cbn; lia|]. constructor; [by rewrite Hall|done].
  - unfold reader_cost, MacroEnd.reader_cost. cbn [p_contexts set_contexts p_base]. rewrite T1, T4, E, !contexts_cost_cons.
    rewrite (enabled_macros macros _ _ Hmo2), (enabled_macros macros _ _ Hmo), Hl', tokens_cost_app.
    assert (forall k, token_cost L k t = cost k) as -> by (intros k; unfold token_cost; rewrite Ht1; lia). lia.
Qed.

(** What reading a token may cost: the end is free. *)
Definition step_ends (s : preader) (c : nat) (t : cpp_token) (s' : preader) : Prop :=
  short s' /\ (t_type t <> CPP_EOF -> reader_cost s' < reader_cost s + c)%nat.

Lemma expand_token_ends get fuel t s c : reader_ok s -> short s -> (cost (enabled macros (p_contexts s)) <= c)%nat ->
  ends (step_ends s c) (expand_token e get fuel t s).
Proof.
  intros Hs Hsh Hc. pose proof (cost_pos (enabled macros (p_contexts s))) as Hpc.
  assert (forall u, ends (step_ends s c) (Ok u s)) as Hdone by (intros u; cbn; split; [done|intros _; lia]).
  unfold expand_token. rewrite (eo_directive e He). cbn [andb].
  destruct (negb (type_is t CPP_NAME)); [apply Hdone|].
  destruct (e_macros e !! t_text t) as [node|] eqn:En; [|apply Hdone].
  destruct (mn_value node) as [|macro|] eqn:Ev; [apply Hdone| |].
  2: { destruct (has NO_EXPAND t); [apply Hdone|]. unfold bindM at 1, getM at 1. repeat case_match; try apply Hdone. done. }
  destruct (has NO_EXPAND t); [apply Hdone|]. unfold bindM at 1, getM at 1.
  case_bool_decide as Hd; [apply Hdone|]. destruct (negb _); [apply Hdone|]. destruct (flag _ _); [apply Hdone|].
  destruct (Hobj _ _ _ En Ev) as [Hfun Hlen]. pose proof (eo_macros e He _ _ _ En Ev) as Hm.
  destruct (mo_object macro Hm Hfun) as [Hnil _]. pose proof (mo_paramc macro Hm) as Hp0. rewrite Hnil in Hp0. cbn in Hp0.
  unfold enter_macro_context. rewrite Hfun, Hp0. cbn.
  set (new := mk_ctx (Some (t_text t)) [] (real_tokens macro)).
  split.
  - unfold short, MacroEnd.short in *. cbn. by constructor.
  - intros _. unfold reader_cost, MacroEnd.reader_cost. cbn [p_contexts set_contexts set_disabled p_base].
    fold new. rewrite contexts_cost_cons. rewrite (ro_disabled s Hs) in Hd.
    assert (t_text t ∈ macros) as Hin by (by apply elem_of_dom_2 in En).
    rewrite (enabled_enter macros (t_text t) new (p_contexts s) Hin Hd eq_refl) in Hc. cbn [MacroEnd.cost] in Hc.
    pose proof (tokens_cost_le L (enabled macros (new :: p_contexts s)) (real_tokens macro) Hlen) as Hle.
    change (c_left new) with (real_tokens macro). lia.
Qed.

Lemma step_ends_trans s s1 c t s' : step_ends s1 c t s' -> (reader_cost s1 + c <= reader_cost s)%nat ->
  short s' /\ (t_type t <> CPP_EOF -> reader_cost s' < reader_cost s)%nat.
Proof. intros [H1 H2] Hc. split; [done|]. intros Hn. specialize (H2 Hn). lia. Qed.

Lemma get_round_ends get fuel s : reader_ok s -> short s -> (L < fuel)%nat ->
  ends (fun t s' => short s' /\ (t_type t <> CPP_EOF -> reader_cost s' < reader_cost s)%nat) (get_round e get fuel s).
Proof.
  intros Hs Hsh Hf. unfold get_round. unfold bindM at 1, getM at 1. destruct (p_contexts s) as [|c cs] eqn:E.
  - unfold lex_base. unfold bindM at 1 2, getM at 1. destruct (read_context (p_base s)) as [[t b]|] eqn:Er.
    + destruct (read_context_spec _ _ _ Er) as (_ & _ & Hl & _). cbn. set (s1 := set_base b s).
      assert (reader_ok s1) as Hs1.
      { destruct Hs as [H1 H2 H3 H4 H5]. rewrite Hl in H5. inversion H5; subst. by split. }
      eapply ends_imp; [apply (expand_token_ends get fuel t s1 (cost (enabled macros [])) Hs1 Hsh); cbn; by rewrite E|].
      intros t' s' Hst. eapply step_ends_trans; [exact Hst|]. unfold reader_cost, MacroEnd.reader_cost. cbn.
      rewrite E, Hl, tokens_cost_cons. unfold token_cost. lia.
    + cbn. unfold expand_token. rewrite (eo_directive e He). cbn. by split.
  - destruct (read_context c) as [[t c']|] eqn:Er.
    + destruct (read_context_spec _ _ _ Er) as (Ha & Hm & Hl & Hrd). unfold bindM at 1, putM at 1.
      set (s1 := set_contexts (c' :: cs) s).
      assert (macros_of (c' :: cs) = macros_of (c :: cs)) as Hmo by (by apply macros_of_same).
      assert (reader_cost s1 + token_cost L (enabled macros (c' :: cs)) t = reader_cost s)%nat as Hcost.
      { unfold reader_cost, MacroEnd.reader_cost. rewrite E. cbn [p_contexts s1 set_contexts p_base].
        rewrite !contexts_cost_cons, Hl, tokens_cost_cons, (enabled_macros macros _ _ Hmo). lia. }
      assert (reader_ok s1) as Hs1.
      { pose proof (reader_ok_top s c c' cs [] Hs E (conj Ha Hm)) as [H1 H2 H3 H4 H5]. by split. }
      unfold short, MacroEnd.short in Hsh. rewrite E in Hsh. inversion Hsh as [|? ? Hc Hcs]; subst.
      assert (short s1) as Hsh1 by (constructor; [by rewrite Ha|done]).
      assert (ctx_ok c) as Hok by (destruct Hs as [Hok _ _ _ _]; rewrite E in Hok; by inversion Hok). unfold ctx_ok in Hok.
      unfold token_cost in Hcost. destruct (has PASTE_LEFT t) eqn:Ep.
      * destruct Hok as [Hok|[Em Hok]]; [apply (in_all_left _ _ _ _ Hok) in Hl as [Hl _]; congruence|].
        destruct (in_all_left _ _ _ _ (proj1 Hok) Hl) as (Ht1 & Ht2 & _).
        assert (length (c_left c') < fuel)%nat as Hlen.
        { unfold all in Hc. rewrite length_app, Hl in Hc. cbn in Hc. lia. }
        eapply ends_bind; [apply (paste_all_tokens_ends fuel t s1 c' cs Hs1 eq_refl); try done|].
        { by eapply chain_left. } { by rewrite Ha. }
        intros [] s2 [Q1 Q2]. rewrite (eo_directive e He). cbn. split; [done|]. intros _. lia.
      * eapply ends_imp; [by apply (expand_token_ends get fuel t s1 (cost (enabled macros (c' :: cs))) Hs1 Hsh1)|].
        intros t' s' Hst. eapply step_ends_trans; [exact Hst|]. lia.
    + rewrite (eo_directive e He). eapply ends_bind with (Q := fun _ s' => p_contexts s' = cs /\ p_base s' = p_base s).
      { unfold _cpp_pop_context, bindM, getM. rewrite E. destruct (c_macro c); [|done]. by case_bool_decide. }
      intros [] s1 [H1 H2]. cbn. unfold short, MacroEnd.short in *. rewrite E in Hsh. apply Forall_inv_tail in Hsh. split; [by rewrite H1|].
      intros _. unfold reader_cost, MacroEnd.reader_cost. rewrite H1, H2, E, contexts_cost_cons. lia.
Qed.

(** Enough steps: for each token one more than the longest replacement list,
    and as many tokens as the text can cost. *)
Lemma get_tokens_ends n fuel : (L < fuel)%nat -> forall s, reader_ok s -> framed None s -> short s -> (reader_cost s < n)%nat ->
  ends (fun _ _ => True) (get_tokens e n (S fuel) s).
Proof.
  intros Hf. induction n as [|n IH]; intros s Hs Hfr Hsh Hn; [lia|]. cbn [get_tokens].
  eapply ends_bind; [apply ends_post; [apply (get_round_ends (cpp_get_token_1 e fuel) fuel s Hs Hsh Hf)|
                                       apply (cpp_get_token_1_ok e He (S fuel) None s Hs Hfr)]|].
  intros t s1 [[H1 H2] (H3 & H4 & _ & H5 & _)]. destruct (type_is_spec t CPP_EOF) as [Et|Nt]; [done|].
  eapply ends_bind; [apply IH; [done|by eapply after_framed|done|]; specialize (H2 Nt); lia|]. done.
Qed.
End Ends.

Lemma longest_replacement (m : gmap (list Z) macro_node) : exists L, forall name node macro,
  m !! name = Some node -> mn_value node = NUser macro -> (length (real_tokens macro) <= L)%nat.
Proof.
  induction m as [|name node m _ (L & IH)] using map_ind; [exists 0%nat; intros name node macro H; by rewrite lookup_empty in H|].
  exists (L + match mn_value node with NUser macro => length (real_tokens macro) | _ => 0 end)%nat.
  intros name' node' macro [[<- <-]|[_ H]]%lookup_insert_Some Hv; [rewrite Hv; lia|]. specialize (IH _ _ _ H Hv). lia.
Qed.

(** C10: where no macro is function-like, an expansion ends: for any text and
    any object-like macros a sequence of directives leaves, some number of steps
    is enough for cpp_get_token to deliver all tokens of the text, however the
    macros refer to each other and paste names of other macros. *)
Theorem object_like_expansion_ends e ds ts : defined_env e ds -> Forall text_token ts ->
  (forall name node m, e_macros e !! name = Some node -> mn_value node = NUser m -> m_fun_like m = false) ->
  exists n, forall fuel, (n <= fuel)%nat -> expand_text e fuel ts <> NoFuel.
Proof.
  intros He%defined_env_ok Hts Hobj. destruct (start_reader_ok (e_options e) ts Hts) as [Hs Hf].
  destruct (longest_replacement (e_macros e)) as (L & HL).
  exists (S (S (S (L + reader_cost (dom (e_macros e)) (S L) (start_reader (e_options e) ts))))). intros [|fuel] Hfuel E; [lia|].
  assert (forall name node m, e_macros e !! name = Some node -> mn_value node = NUser m ->
            m_fun_like m = false /\ (length (real_tokens m) <= S L)%nat) as Hboth.
  { intros name node m H1 H2. split; [by eapply Hobj|]. specialize (HL _ _ _ H1 H2). lia. }
  pose proof (get_tokens_ends e He (S L) ltac:(lia) Hboth (S fuel) fuel ltac:(lia) _ Hs Hf ltac:(constructor) ltac:(lia)) as H.
  unfold expand_text in E. by rewrite E in H.
Qed.

Definition object_directives : list macro_directive := Eval vm_compute in
  [define_directive "a b a ## b b"; define_directive "b a - a"; define_directive "ab a b ab"].

Definition object_env : macro_env := Eval vm_compute in
  mk_env sample_table gnuc17_options default_macro_options plain_flags (fun _ => no_node)
    (default ∅ (run_directives gnuc17_options default_macro_options false ∅ object_directives)) false false.

Definition object_text : list cpp_token := Eval vm_compute in line_tokens "a + ab".

Definition object_like (node : macro_node) : bool :=
  match mn_value node with NUser m => negb (m_fun_like m) | _ => true end.

Lemma object_like_expansion_ends_witness : (exists out s, expand_text object_env 100 object_text = Ok out s /\ length out = 59%nat) /\
  exists n, forall fuel, (n <= fuel)%nat -> expand_text object_env fuel object_text <> NoFuel.
Proof.
  split; [destruct (expand_text object_env 100 object_text) as [out s| | |] eqn:E; [|by vm_compute in E..];
          exists out, s; split; [done|by vm_compute in E; injection E as <- _]|].
  apply (object_like_expansion_ends object_env object_directives).
  - split; [reflexivity..|by intros name| |exists gnuc17_options, default_macro_options, false; by vm_compute].
    repeat constructor; discriminate.
  - repeat constructor; discriminate.
  - intros name node m Hn Hv. assert (map_Forall (fun _ node => object_like node = true) (e_macros object_env)) as H
      by (apply (bool_decide_eq_true_1 _); by vm_compute).
    specialize (H name node Hn). unfold object_like in H. rewrite Hv in H. by destruct (m_fun_like m).
Defined.
