(* ===== verification/MacroSpec.v ===== *)
(** * Macros at work

    Texts that are lexed, defined and expanded by the model: the examples of
    the C standard, and the texts the expansion of macro.c fails on. *)

From Stdlib Require Import ZArith Lia Bool String Ascii.
From stdpp Require Import base tactics list numbers gmap.
From S2P Require Import Prelude Reader CppNum NumLit Stream Utf StrLit Symtab CleanLine Lex LexGrammar LexSpec LexLine MacroDef MacroDefSpec Macro.

Local Open Scope string_scope.
Local Open Scope list_scope.
Local Open Scope Z_scope.

(** ** Texts *)

(** #define with the given line. *)
Definition define_line (m : gmap (list Z) macro_node) (s : string) : gmap (list Z) macro_node :=
  match line_tokens s with
  | t :: ts =>
      match snd (do_define gnuc17_options default_macro_options false (t_text t)
                   (default (mk_mnode NVoid 0) (m !! t_text t)) ts) with
      | Some n => <[t_text t := n]> m
      | None => m
      end
  | [] => m
  end.

Definition defines (lines : list string) : macro_env :=
  mk_env sample_table gnuc17_options default_macro_options plain_flags (fun _ => no_node)
    (fold_left define_line lines ∅) false false.

(** The spellings of the tokens of an expansion, without padding. *)
Definition spellings (ts : list cpp_token) : list (list byte) :=
  omap (fun t => if type_is t CPP_PADDING then None else cpp_spell_token t true) ts.

Definition expands_to (lines : list string) (text result : string) : bool :=
  match expand_text (defines lines) (100 * length (line_tokens text)) (line_tokens text) with
  | Ok ts _ => bool_decide (spellings ts = spellings (line_tokens result))
  | _ => false
  end.

(** The examples of C17 6.10.3.5. *)
Example standard_example_3 : expands_to
  ["x 3"; "f(a) f(x * (a))"; "x 2"; "g f"; "z z[0]"; "h g(~"; "m(a) a(w)"; "w 0,1"; "t(a) a"; "p() int";
   "q(x) x"; "r(x,y) x ## y"; "str(x) # x"]
  "f(y+1) + f(f(z)) % t(t(g)(0) + t)(1); g(x+(3,4)-w) | h 5) & m (f)^m(m); p() i[q()] = { q(1), r(2,3), r(4,), r(,5), r(,) }; char c[2][6] = { str(hello), str() };"
  "f(2 * (y+1)) + f(2 * (f(2 * (z[0])))) % f(2 * (0)) + t(1); f(2 * (2+(3,4)-0,1)) | f(2 * (~ 5)) & f(2 * (0,1))^m(0,1); int i[] = { 1, 23, 4, 5, }; char c[2][6] = { `hello`, `` };"
  = true.
Proof. by vm_compute. Qed.

Example standard_example_4 : expands_to
  ["str(s) # s"; "xstr(s) str(s)"; "debug(s,t) printf(`x` # s `= %d, x` # t `= %s`, x ## s, x ## t)";
   "INCFILE(n) vers ## n"; "glue(a, b) a ## b"; "xglue(a, b) glue(a, b)"; "HIGHLOW `hello`"; "LOW LOW `, world`"]
  "debug(1, 2); fputs(str(strncmp(`abc\0d`, `abc`, '\4') == 0) str(: @\n), s); xstr(INCFILE(2).h) glue(HIGH, LOW); xglue(HIGH, LOW)"
  "printf(`x` `1` `= %d, x` `2` `= %s`, x1, x2); fputs(`strncmp(\`abc\\0d\`, \`abc\`, '\\4') == 0` `: @\n`, s); `vers2.h` `hello`; `hello` `, world`"
  = true.
Proof. by vm_compute. Qed.

Example standard_example_5 : expands_to ["t(x,y,z) x ## y ## z"]
  "int j[] = { t(1,2,3), t(,4,5), t(6,,7), t(8,9,), t(10,,), t(,11,), t(,,12), t(,,) };"
  "int j[] = { 123, 45, 67, 89, 10, 11, 12, };" = true.
Proof. by vm_compute. Qed.

Example standard_example_7 : expands_to
  ["debug(...) fprintf(stderr, __VA_ARGS__)"; "showlist(...) puts(#__VA_ARGS__)";
   "report(test, ...) ((test)?puts(#test): printf(__VA_ARGS__))"]
  "debug(`Flag`); debug(`X = %d\n`, x); showlist(The first, second, and third items.); report(x>y, `x is %d but y is %d`, x, y);"
  "fprintf(stderr, `Flag`); fprintf(stderr, `X = %d\n`, x); puts(`The first, second, and third items.`); ((x>y)?puts(`x>y`): printf(`x is %d but y is %d`, x, y));"
  = true.
Proof. by vm_compute. Qed.

(** ** An expansion that does not end *)

(** While the arguments of f are collected, the macro that f and the opening
    parentheses came from ends, and is enabled again; its name, collected
    before, is then expanded in the argument. *)
Definition loop_env : macro_env := Eval vm_compute in defines ["f(x) x"; "p f ( ( h )"; "h f ( ( p )"].

Definition loop_macro : cpp_macro := Eval vm_compute in
  match e_macros loop_env !! bytes "f" with Some (mk_mnode (NUser m) _) => m | _ => mk_macro [] 0 false false false false [] end.

Definition loop_name (b : bool) : cpp_token := Eval vm_compute in
  let n := if b then bytes "p" else bytes "h" in mk_token CPP_NAME PREV_WHITE n n 0 false.

(** The argument "( h )" or "( p )" of f, with its end. *)
Definition loop_arg (b : bool) : list cpp_token :=
  [mk_token CPP_OPEN_PAREN PREV_WHITE (bytes "(") [] 0 false; loop_name b;
   mk_token CPP_CLOSE_PAREN PREV_WHITE (bytes ")") [] 0 false; pfile_eof].

(** The reader when the pre-expansion of that argument starts. *)
Definition loop_state (b : bool) (below : list context) (base : context) (x : lexer) (d : list diag) : preader :=
  mk_preader (mk_ctx None [] (loop_arg b) :: below) base ∅ 0 false x d.

Definition loop_get (n : nat) : M cpp_token := cpp_get_token_1 loop_env n.

(** Running out of fuel stops a computation. *)
Lemma bindM_ok {A B} (m : M A) (f : A -> M B) s x s' : m s = Ok x s' -> bindM m f s = f x s'.
Proof. unfold bindM. by intros ->. Qed.

Lemma bindM_nofuel {A B} (m : M A) (f : A -> M B) s : m s = NoFuel -> bindM m f s = NoFuel.
Proof. unfold bindM. by intros ->. Qed.

Section Loop.
Context (below : list context) (base : context) (x : lexer).

(** The reader once the name of f was read from the expansion of p or h. *)
Definition loop_entered (b : bool) (d : list diag) : preader := Eval vm_compute in
  let open := mk_token CPP_OPEN_PAREN PREV_WHITE (bytes "(") [] 0 false in
  let close := mk_token CPP_CLOSE_PAREN PREV_WHITE (bytes ")") [] 0 false in
  mk_preader (mk_ctx (Some (t_text (loop_name b))) [name_token "f"] [open; open; loop_name (negb b); close]
              :: mk_ctx None [loop_name b; open] [close; pfile_eof] :: below)
    base {[t_text (loop_name b)]} 0 false x d.

(** What stands between the argument that is expanded and the next one like it. *)
Lemma loop_reads b d n : exists s1 s2,
  loop_get (S n) (loop_state b below base x d) = Ok (mk_token CPP_OPEN_PAREN PREV_WHITE (bytes "(") [] 0 false) s1 /\
  loop_get (S n) s1 = Ok (padding_token (loop_name b)) s2 /\
  loop_get (S n) s2 = expand_token loop_env (loop_get n) n (name_token "f") (loop_entered b d).
Proof. destruct b; (eexists _, _; split; [by vm_compute|split; [by vm_compute|reflexivity]]). Qed.

Lemma loop_enters b d n :
  expand_token loop_env (loop_get n) n (name_token "f") (loop_entered b d)
  = bindM (enter_macro_context loop_env (loop_get n) n (bytes "f") (NUser loop_macro))
      (fun r => if r : bool then mret (padding_token (name_token "f")) else mret (name_token "f")) (loop_entered b d).
Proof. destruct b; reflexivity. Qed.

Definition loop_collected (b : bool) : macro_arg := mk_arg (removelast (loop_arg b)) false None None.

Lemma loop_collects b d m : exists s,
  funlike_invocation_p loop_env (loop_get (8 + m)) (8 + m) loop_macro (set_prevent 1 (loop_entered b d))
  = Ok (Some [loop_collected (negb b)]) s /\
  exists below' d', push_token_context None (loop_arg (negb b)) (set_warn_trad false (set_prevent (p_prevent_expansion s - 1) s))
    = Ok tt (loop_state (negb b) below' base x d').
Proof. destruct b; (eexists; split; [by vm_compute|eexists _, _; by vm_compute]). Qed.
End Loop.

Lemma loop_expand m b s below base x d :
  push_token_context None (loop_arg b) (set_warn_trad false s) = Ok tt (loop_state b below base x d) ->
  expand_arg_loop (loop_get m) m [] (loop_state b below base x d) = NoFuel ->
  expand_arg loop_env (loop_get m) m (loop_collected b) s = NoFuel.
Proof.
  intros Hp H. unfold expand_arg.
  assert (a_tokens (loop_collected b) = removelast (loop_arg b)) as -> by done.
  assert (exists t ts, removelast (loop_arg b) = t :: ts /\ (t :: ts) ++ [pfile_eof] = loop_arg b) as (t & ts & -> & Hts)
    by (destruct b; by eexists _, _).
  cbn [a_expanded loop_collected]. rewrite (bindM_ok _ _ s s s), (bindM_ok _ _ s tt (set_warn_trad false s)) by done.
  change (tracking loop_env) with true. by rewrite Hts, (bindM_ok _ _ _ tt _ Hp), (bindM_nofuel _ _ _ H).
Qed.

Lemma loop_replace m b s below base x d :
  push_token_context None (loop_arg b) (set_warn_trad false s) = Ok tt (loop_state b below base x d) ->
  expand_arg_loop (loop_get m) m [] (loop_state b below base x d) = NoFuel ->
  replace_args loop_env (loop_get m) m (bytes "f") loop_macro [loop_collected b] s = NoFuel.
Proof.
  intros Hp H. pose proof (loop_expand m b s below base x d Hp H) as He. unfold replace_args.
  apply bindM_nofuel. change (real_tokens loop_macro) with (m_tokens loop_macro). unfold loop_macro at 1.
  cbn [m_tokens prepare_args]. cbn [arg_of]. by apply bindM_nofuel.
Qed.

Lemma expand_loop_step get n acc s t s1 : get s = Ok t s1 -> type_is t CPP_EOF = false ->
  expand_arg_loop get (S n) acc s = expand_arg_loop get n (t :: acc) s1.
Proof. intros H Ht. cbn [expand_arg_loop]. by rewrite (bindM_ok _ _ _ _ _ H), Ht. Qed.

(** No fuel is enough to read the argument to its end. *)
Lemma loop_diverges m b n acc below base x d :
  expand_arg_loop (loop_get m) n acc (loop_state b below base x d) = NoFuel.
Proof.
  revert b n acc below base x d. induction (lt_wf m) as [m _ IH]. intros b n acc below base x d.
  destruct m as [|m]; [by destruct n|].
  destruct (loop_reads below base x b d m) as (s1 & s2 & H1 & H2 & H3).
  destruct n as [|[|[|n]]]; [done|..]; rewrite (expand_loop_step _ _ _ _ _ _ H1) by done; [done|..];
    rewrite (expand_loop_step _ _ _ _ _ _ H2) by done; [done|].
  cbn [expand_arg_loop]. apply bindM_nofuel. rewrite H3, loop_enters. apply bindM_nofuel.
  destruct (decide (m < 8)%nat) as [Hm|Hm].
  { do 8 (destruct m as [|m]; [by destruct b; vm_compute|]). lia. }
  replace m with (8 + (m - 8))%nat by lia.
  destruct (loop_collects below base x b d (m - 8)) as (s & Hc & below' & d' & Hp).
  unfold enter_macro_context. apply bindM_nofuel. change (m_fun_like loop_macro) with true. cbv iota.
  rewrite (bindM_ok _ _ _ _ (loop_entered below base x b d)) by done.
  rewrite (bindM_ok _ _ _ tt (set_prevent 1 (loop_entered below base x b d))) by (by destruct b).
  rewrite (bindM_ok _ _ _ _ _ Hc). rewrite (bindM_ok _ _ s s s), (bindM_ok _ _ s tt _) by done.
  apply bindM_nofuel. change (m_paramc loop_macro) with 1. cbn [whenM Z.ltb].
  eapply loop_replace; [exact Hp|]. apply IH. lia.
Qed.

(** The same, where the text is "( p )". *)
Definition loop_text : list cpp_token := Eval vm_compute in line_tokens "( p )".

Definition start_entered : preader := Eval vm_compute in
  let open := mk_token CPP_OPEN_PAREN PREV_WHITE (bytes "(") [] 0 false in
  let close := mk_token CPP_CLOSE_PAREN PREV_WHITE (bytes ")") [] 0 false in
  mk_preader [mk_ctx (Some (bytes "p")) [name_token "f"] [open; open; loop_name false; close]]
    (mk_ctx None (rev (removelast loop_text)) [close]) {[bytes "p"]} 0 false (mk_lexer true false) [].

Lemma start_reads n : exists s1 s2,
  loop_get (S n) (start_reader gnuc17_options loop_text) = Ok (mk_token CPP_OPEN_PAREN 0 (bytes "(") [] 0 false) s1 /\
  loop_get (S n) s1 = Ok (padding_token (loop_name true)) s2 /\
  loop_get (S n) s2 = bindM (enter_macro_context loop_env (loop_get n) n (bytes "f") (NUser loop_macro))
      (fun r => if r : bool then mret (padding_token (name_token "f")) else mret (name_token "f")) start_entered.
Proof. eexists _, _. split; [by vm_compute|split; [by vm_compute|reflexivity]]. Qed.

Lemma start_collects m : exists s,
  funlike_invocation_p loop_env (loop_get (8 + m)) (8 + m) loop_macro (set_prevent 1 start_entered)
  = Ok (Some [loop_collected false]) s /\
  exists base x d, push_token_context None (loop_arg false) (set_warn_trad false (set_prevent (p_prevent_expansion s - 1) s))
    = Ok tt (loop_state false [] base x d).
Proof. eexists; split; [by vm_compute|eexists _, _, _; by vm_compute]. Qed.

Lemma get_tokens_step e n fuel s t s1 : cpp_get_token_1 e fuel s = Ok t s1 -> type_is t CPP_EOF = false ->
  get_tokens e n fuel s1 = NoFuel -> get_tokens e (S n) fuel s = NoFuel.
Proof.
  intros H Ht Hn. cbn [get_tokens]. unfold cpp_get_token. rewrite (bindM_ok _ _ _ _ _ H), Ht.
  by apply bindM_nofuel.
Qed.

(** C36: macro expansion need not end. With the definitions
      #define f(x) x
      #define p f ( ( h )
      #define h f ( ( p )
    expanding "( p )" needs more steps than any number: while the arguments of
    f are collected the macro its opening parenthesis came from is left, and
    _cpp_pop_context enables it again, so that nothing keeps p and h from being
    expanded in each other's arguments for ever. *)
Theorem expansion_diverges fuel : expand_text loop_env fuel loop_text = NoFuel.
Proof.
  unfold expand_text. change (e_options loop_env) with gnuc17_options.
  destruct fuel as [|[|[|m]]]; [by vm_compute..|].
  destruct (start_reads (S (S m))) as (s1 & s2 & H1 & H2 & H3).
  apply (get_tokens_step _ _ _ _ _ _ H1); [done|]. apply (get_tokens_step _ _ _ _ _ _ H2); [done|].
  cbn [get_tokens]. apply bindM_nofuel. unfold cpp_get_token, loop_get in *. rewrite H3. apply bindM_nofuel.
  destruct (decide (m < 6)%nat) as [Hm|Hm].
  { do 6 (destruct m as [|m]; [by vm_compute|]). lia. }
  replace (S (S m)) with (8 + (m - 6))%nat by lia.
  destruct (start_collects (m - 6)) as (s & Hc & base & x & d & Hp).
  unfold enter_macro_context. apply bindM_nofuel. change (m_fun_like loop_macro) with true. cbv iota.
  rewrite (bindM_ok _ _ start_entered start_entered start_entered) by done.
  rewrite (bindM_ok _ _ _ tt (set_prevent 1 start_entered)) by done.
  unfold loop_get in Hc. rewrite (bindM_ok _ _ _ _ _ Hc).
  rewrite (bindM_ok _ _ s s s), (bindM_ok _ _ s tt _) by done.
  apply bindM_nofuel. change (m_paramc loop_macro) with 1. cbn [whenM Z.ltb].
  eapply loop_replace; [exact Hp|]. apply loop_diverges.
Qed.

(** ** Definitions and texts that go wrong *)

(** A parameter named __VA_ARGS__ before an ellipsis makes
    create_iso_definition read uninitialized memory: _cpp_save_parameter refuses
    the second __VA_ARGS__ but counts it, parse_params goes on, and
    _cpp_unsave_parameters reads the entry that was never written. *)
Theorem va_args_parameter_uninitialized o mo syshdr :
  snd (create_iso_definition o mo syshdr (line_tokens "(__VA_ARGS__, ...) x")) = Uninitialized.
Proof. reflexivity. Qed.

Definition directive_env : macro_env := Eval vm_compute in
  let e := defines ["f(x,...) 1 ## , ## __VA_ARGS__"] in
  mk_env (e_table e) (e_options e) (e_mopts e) (e_lex e) (e_node e) (e_macros e) true false.

Definition outside_directive : macro_env := Eval vm_compute in
  let e := directive_env in
  mk_env (e_table e) (e_options e) (e_mopts e) (e_lex e) (e_node e) (e_macros e) false false.

(** Inside a directive ## can read past the tokens of a macro. With
      #define f(x,...) 1 ## , ## __VA_ARGS__
    the comma before the missing arguments is dropped and the 1 before it, still
    an operand of ##, is the last token of the context: paste_all_tokens reads
    the one behind it. Outside directives padding follows, and the text is 1. *)
Theorem swallowed_comma_leaves_paste n :
  expand_text directive_env (20 + n) (line_tokens "f(2)") = Wild /\
  exists ts s, expand_text outside_directive 20 (line_tokens "f(2)") = Ok ts s /\ spellings ts = [bytes "1"].
Proof.
  split; [by vm_compute|].
  destruct (expand_text outside_directive 20 (line_tokens "f(2)")) as [ts s| | |] eqn:E; [|by vm_compute in E..].
  exists ts, s. split; [done|]. by vm_compute in E; injection E as <- _.
Qed.
