(* ===== verification/Stringify.v ===== *)
(** * What # makes of an argument

    The string literal stringify_arg makes of an argument, interpreted by
    cpp_interpret_string, denotes the text of the argument, with the white space
    between its tokens reduced to single spaces: quoting undoes exactly what
    escape sequences do. *)

From Stdlib Require Import ZArith Lia Bool String Ascii.
From stdpp Require Import base tactics list numbers gmap.
From S2P Require Import Prelude Reader CppNum NumLit Stream Utf StrLit Symtab CleanLine Lex LexGrammar LexSpec LexPaste LexLine MacroDef MacroDefSpec Macro MacroSafe.

Local Open Scope string_scope.
Local Open Scope list_scope.
Local Open Scope Z_scope.

(** ** The text of an argument *)

(** The flags a token's white space is taken from: those of the first padding
    token before it that has a source, where there is one. *)
Definition next_source (source : option Z) (padding : cpp_token) : option Z :=
  match source with
  | None => padding_source padding
  | Some f => if negb (flag f PREV_WHITE) && no_source padding then padding_source padding else source
  end.

Definition spelling (t : cpp_token) : list byte := match cpp_spell_token t true with Some s => s | None => [] end.

(** The spellings of the tokens behind [text], with a space where there was
    white space. *)
Fixpoint argument_text (ts : list cpp_token) (source : option Z) (text : list byte) : list byte :=
  match ts with
  | [] => text
  | t :: ts =>
      if type_is t CPP_PADDING then argument_text ts (next_source source t) text
      else argument_text ts None
             ((if (match text with [] => false | _ => true end) && flag (default (t_flags t) source) PREV_WHITE
               then text ++ [32] else text) ++ spelling t)
  end.

(** ** Quoting and escapes *)

(** What a string literal is made of. *)
Inductive item : Type := Plain (c : Z) | Escaped (letter value : byte).

Definition item_text (i : item) : list byte :=
  match i with Plain c => utf8 c | Escaped letter _ => [92; letter] end.
Definition item_exec (i : item) : list byte :=
  match i with Plain c => utf8 c | Escaped _ value => utf8 value end.
Definition item_ok (i : item) : Prop :=
  match i with Plain c => valid_char c /\ c <> 92 | Escaped letter value => In (letter, value) simple_table end.

Fixpoint literal_of (items : list item) : list (list Z * escape) * list Z :=
  match items with
  | [] => ([], [])
  | Plain c :: items => match literal_of items with
                     | ([], last) => ([], c :: last)
                     | ((run, e) :: l, last) => ((c :: run, e) :: l, last)
                     end
  | Escaped letter value :: items => let l := literal_of items in (([], ESimple letter value) :: fst l, snd l)
  end.

Lemma literal_of_text items : lit_text (fst (literal_of items)) (snd (literal_of items)) = concat (map item_text items).
Proof.
  induction items as [|[c|letter value] items IH]; cbn [literal_of map concat item_text]; [done| |].
  - destruct (literal_of items) as [[|[run e] l] last]; cbn [fst snd lit_text map concat] in *; rewrite <- IH; [done|].
    by rewrite <- app_assoc.
  - cbn [fst snd lit_text map concat app]. by rewrite IH.
Qed.

Lemma literal_of_exec o cvt items : lit_exec o cvt utf8 (fst (literal_of items)) (snd (literal_of items)) = concat (map item_exec items).
Proof.
  induction items as [|[c|letter value] items IH]; cbn [literal_of map concat item_exec]; [done| |].
  - destruct (literal_of items) as [[|[run e] l] last]; cbn [fst snd lit_exec map concat] in *; rewrite <- IH; [done|].
    by rewrite <- app_assoc.
  - cbn [fst snd lit_exec map concat app]. by rewrite IH.
Qed.

Lemma literal_of_ok o cvt items : Forall item_ok items ->
  lit_ok o cvt valid_char (fst (literal_of items)) (snd (literal_of items)).
Proof.
  induction 1 as [|[c|letter value] items Hi _ IH]; cbn [literal_of]; [constructor| |].
  - destruct (literal_of items) as [[|[run e] l] last]; cbn [fst snd lit_ok] in *; [by constructor|].
    destruct IH as (H1 & H2 & H3). split_and!; [by constructor|done..].
  - cbn [fst snd lit_ok]. split_and!; [constructor|exact Hi|exact IH].
Qed.

(** A character between the quotes of a stringified literal. *)
Definition quote_item (c : Z) : item :=
  if c =? 10 then Escaped 110 10 else if (c =? 92) || (c =? 34) then Escaped c c else Plain c.

Lemma quote_item_ok c : valid_char c -> item_ok (quote_item c).
Proof.
  intros H. unfold quote_item. destruct (Z.eqb_spec c 10); [by cbn; tauto|].
  destruct (Z.eqb_spec c 92) as [->|]; [by cbn; tauto|]. destruct (Z.eqb_spec c 34) as [->|]; [by cbn; tauto|done].
Qed.

Lemma quote_item_exec c : item_exec (quote_item c) = utf8 c.
Proof.
  unfold quote_item. destruct (Z.eqb_spec c 10) as [->|]; [done|].
  destruct ((c =? 92) || (c =? 34)) eqn:E; done.
Qed.

Lemma cpp_quote_string_app a b : cpp_quote_string (a ++ b) = cpp_quote_string a ++ cpp_quote_string b.
Proof. unfold cpp_quote_string. by rewrite map_app, concat_app. Qed.

Lemma quote_plain s : Forall (fun b => b <> 10 /\ b <> 92 /\ b <> 34) s -> cpp_quote_string s = s.
Proof.
  induction 1 as [|b s (H1 & H2 & H3) _ IH]; [done|]. unfold cpp_quote_string in *. cbn [map concat]. rewrite IH.
  unfold isc. change (chr "\") with 92.
  by destruct (Z.eqb_spec b 10), (Z.eqb_spec b 92), (Z.eqb_spec b 34).
Qed.

Lemma utf8_high c : 128 <= c <= 0x7FFFFFFF -> Forall (fun b => 128 <= b) (utf8 c).
Proof.
  intros H. destruct (utf8_lead c ltac:(lia) ltac:(lia)) as (_ & _ & Hb). constructor; [lia|].
  clear. induction (extra c) as [|k IH]; constructor; [|done].
  pose proof (Z.mod_pos_bound (c / 64 ^ Z.of_nat k) 64 ltac:(lia)). lia.
Qed.

Lemma quote_utf8 c : valid_char c -> cpp_quote_string (utf8 c) = item_text (quote_item c).
Proof.
  intros [Hc _]. unfold quote_item. destruct (Z.ltb_spec c 128) as [Ha|Ha].
  - rewrite utf8_ascii by lia. destruct (Z.eqb_spec c 10) as [->|]; [done|].
    destruct (Z.eqb_spec c 92) as [->|]; [done|]. destruct (Z.eqb_spec c 34) as [->|]; [done|].
    cbn [orb item_text]. rewrite utf8_ascii by lia. apply quote_plain. by repeat constructor.
  - destruct (Z.eqb_spec c 10); [lia|]. destruct (Z.eqb_spec c 92); [lia|]. destruct (Z.eqb_spec c 34); [lia|].
    cbn [orb item_text]. apply quote_plain. eapply Forall_impl; [apply (utf8_high c); lia|]. intros b Hb. cbn in Hb. lia.
Qed.

Lemma quote_text cs : Forall valid_char cs ->
  cpp_quote_string (concat (map utf8 cs)) = concat (map item_text (map quote_item cs)).
Proof.
  induction 1 as [|c cs Hc _ IH]; [done|]. cbn [map concat]. by rewrite cpp_quote_string_app, IH, quote_utf8.
Qed.

(** ** stringify_arg *)

(** A token whose spelling is in UTF-8; where it is not a literal, it has no
    backslash. *)
Definition readable (t : cpp_token) : Prop :=
  type_is t CPP_PADDING = true \/
  exists cs, spelling t = concat (map utf8 cs) /\ Forall valid_char cs /\ (escape_it t = false -> ~ In 92 cs).

Lemma look_backslash t : t_type t = CPP_OTHER -> isc (look (t_text t) 0) "\" = true -> readable t -> False.
Proof.
  intros Ht Hb [Hp|(cs & Hs & Hv & Hn)]; [unfold type_is in Hp; by rewrite Ht in Hp|].
  unfold spelling, cpp_spell_token in Hs. rewrite Ht in Hs. cbn in Hs.
  unfold escape_it in Hn. rewrite Ht in Hn. cbn in Hn. specialize (Hn eq_refl).
  unfold isc in Hb. change (chr "\") with 92 in Hb. apply Z.eqb_eq in Hb.
  destruct cs as [|c cs]; cbn [map concat] in Hs; rewrite Hs in Hb; [discriminate Hb|]. inversion Hv; subst.
  destruct (Z.ltb_spec c 128) as [Ha|Ha].
  - rewrite utf8_ascii in Hb by (destruct H1; lia). cbn in Hb. apply Hn. by left.
  - destruct H1 as [Hc _]. pose proof (utf8_high c ltac:(lia)) as Hh. assert (exists b bs, utf8 c = b :: bs) as (b & bs & E) by (unfold utf8; eauto).
    rewrite E in *. cbn in Hb. inversion Hh; subst. lia.
Qed.

Lemma items_of t : type_is t CPP_PADDING = false -> readable t -> exists items,
  (if escape_it t then cpp_quote_string (spelling t) else spelling t) = concat (map item_text items) /\
  spelling t = concat (map item_exec items) /\ Forall item_ok items.
Proof.
  intros Hp [Hp'|(cs & Hs & Hv & Hn)]; [congruence|]. rewrite Hs. destruct (escape_it t).
  - exists (map quote_item cs). split; [by apply quote_text|]. split.
    + rewrite map_map. f_equal. apply map_ext. intros c. by rewrite quote_item_exec.
    + apply List.Forall_map. eapply Forall_impl; [exact Hv|]. apply quote_item_ok.
  - exists (map Plain cs). rewrite !map_map. cbn. split_and!; [done..|]. apply List.Forall_map, List.Forall_forall.
    intros c Hc. split; [by apply (proj1 (List.Forall_forall _ _) Hv)|]. intros ->. by apply Hn.
Qed.

Lemma items_empty items : Forall item_ok items -> (concat (map item_text items) = [] <-> concat (map item_exec items) = []).
Proof. intros H. destruct items as [|[c|letter value] items]; [done|split; discriminate|split; [discriminate|]]. done. Qed.

Lemma stringify_loop_spec ts : Forall readable ts -> forall source items, Forall item_ok items ->
  exists items', stringify_loop ts source (concat (map item_text items)) 0 = Some (concat (map item_text items'), 0) /\
    argument_text ts source (concat (map item_exec items)) = concat (map item_exec items') /\ Forall item_ok items'.
Proof.
  induction 1 as [|t ts Ht _ IH]; intros source items Hi; [by exists items|]. cbn [stringify_loop argument_text].
  destruct (type_is t CPP_PADDING) eqn:Ep; [by apply IH|].
  destruct (items_of t Ep Ht) as (it & E1 & E2 & Hit). destruct (cpp_spell_token_forstring t) as (sp & Hsp).
  unfold spelling in E1, E2 |- *. rewrite Hsp in *. cbn [mbind option_bind] in *.
  assert (type_is t CPP_OTHER && isc (look (t_text t) 0) "\" = false) as ->.
  { destruct (type_is_spec t CPP_OTHER) as [Eo|]; [|done]. destruct (isc (look (t_text t) 0) "\") eqn:Eb; [|done].
    destruct (look_backslash t Eo Eb Ht). }
  set (white := flag (default (t_flags t) source) PREV_WHITE).
  set (space := match items with [] => false | _ => true end && white).
  assert ((match concat (map item_text items) with [] => false | _ => true end && white) = space /\
          (match concat (map item_exec items) with [] => false | _ => true end && white) = space) as [-> ->].
  { unfold space. destruct items as [|i items]; [done|]. inversion Hi; subst. cbn [map concat].
    destruct i as [c|letter value]; cbn [item_text item_exec]; by split. }
  destruct (IH None (items ++ (if space then [Plain 32] else []) ++ it)) as (items' & H1 & H2 & H3).
  { repeat (apply Forall_app; split); [done| |done]. destruct space; [|constructor]. repeat constructor; cbn; lia. }
  exists items'. rewrite <- H1, <- H2, !map_app, !concat_app, E1, E2.
  destruct space; cbn [map concat item_text item_exec app]; rewrite ?utf8_ascii, <- ?app_assoc by lia; done.
Qed.

Lemma readable_ascii t : forallb (fun b => (0 <=? b) && (b <? 128) && (escape_it t || negb (b =? 92))) (spelling t) = true -> readable t.
Proof.
  intros H. right. exists (spelling t). rewrite forallb_forall in H.
  assert (forall b, In b (spelling t) -> 0 <= b < 128 /\ (escape_it t = false -> b <> 92)) as Hb.
  { intros b Hin. specialize (H b Hin). rewrite !andb_true_iff, Z.leb_le, Z.ltb_lt in H. destruct H as [? Hq].
    split; [lia|]. intros E ->. by rewrite E in Hq. }
  split_and!.
  - clear H. induction (spelling t) as [|b bs IH]; [done|]. cbn [map concat]. rewrite utf8_ascii by (apply Hb; by left).
    cbn [app]. f_equal. apply IH. intros c Hc. apply Hb. by right.
  - apply List.Forall_forall. intros b Hin. destruct (Hb b Hin) as [? _]. split; lia.
  - intros E Hin. by destruct (Hb 92 Hin) as [_ Hn]; destruct (Hn E).
Qed.

(** C7: # is undone by reading its result. For every argument whose tokens are
    spelled in UTF-8, literals of any kind, with any escapes and quotes in them,
    included, and in which a backslash stands only inside literals, the string
    literal stringify_arg makes, interpreted in a UTF-8 execution character set,
    denotes the spellings of the tokens with the white space between two of them
    reduced to one space, and a terminating null character; nothing is diagnosed
    on either way. *)
Theorem stringified_denotes_argument tab o skipping ts s : Forall readable ts ->
  0 < char_precision o -> quiet_options o ->
  exists t, stringify_arg ts s = Ok t s /\ t_type t = CPP_STRING /\
    cpp_interpret_string tab o skipping utf8_csets [t_text t] CPP_STRING
    = ([], SOk (argument_text ts None [] ++ numeric_bytes o (narrow_cset_desc utf8_csets) 0)).
Proof.
  intros Hts Hcp Hq. destruct (stringify_loop_spec ts Hts None [] ltac:(constructor)) as (items & E1 & E2 & Hi).
  cbn [map concat] in E1, E2. unfold stringify_arg. rewrite E1. change (negb (Z.land 0 1 =? 0)) with false. cbv iota zeta.
  eexists. split; [reflexivity|]. split; [done|]. cbn [t_text].
  set (l := mk_lit [] 34 (fst (literal_of items)) (snd (literal_of items))).
  assert ([34] ++ concat (map item_text items) ++ [34] = token_text l) as ->.
  { unfold token_text, l. cbn [lit_prefix lit_quote lit_parts lit_last app]. by rewrite literal_of_text. }
  rewrite E2, <- (literal_of_exec o (narrow_cset_desc utf8_csets)).
  pose proof (interpret_string_spec tab o skipping utf8_csets CPP_STRING utf8 valid_char [l]) as H. cbv zeta in H.
  cbn [map concat] in H. rewrite app_nil_r in H. apply H; try done; [apply identity_set|].
  constructor; [|constructor]. split_and!; [by left|by left|]. by apply literal_of_ok.
Qed.

Definition sample_argument : list cpp_token := Eval vm_compute in line_tokens "say(  `a\n\`b`,'\\' )   ! ".

Definition sample_string : cpp_token := Eval vm_compute in
  match stringify_arg sample_argument (start_reader gnuc17_options []) with Ok t _ => t | _ => eof_token end.

Lemma stringified_denotes_argument_witness :
  t_text sample_string = source "`say( \`a\\n\\\`b\`,'\\\\' ) !`" /\
  exists t, stringify_arg sample_argument (start_reader gnuc17_options []) = Ok t (start_reader gnuc17_options []) /\
    t_type t = CPP_STRING /\
    cpp_interpret_string sample_table gnuc17_options false utf8_csets [t_text t] CPP_STRING
    = ([], SOk (argument_text sample_argument None [] ++ numeric_bytes gnuc17_options (narrow_cset_desc utf8_csets) 0)).
Proof.
  split; [reflexivity|]. apply stringified_denotes_argument.
  - repeat (constructor; [apply readable_ascii; reflexivity|]). constructor.
  - reflexivity.
  - split; [done|]. split; [by right|]. right. simpl. lia.
Defined.
