(* ===== verification/Deps.v ===== *)
(** * Dependency output

    mkdeps.c: the targets and dependencies collected for a makefile rule, their
    quoting for make, the rule itself, and the form in which the dependencies
    are kept in a precompiled header.

    A file name is a string without its NUL; a file is the list of its bytes,
    and writing to it succeeds.  [dos] tells whether the host has a DOS-like
    file system.  An access outside an array is [None].  DepsSpec has the
    theorems. *)

From Stdlib Require Import ZArith Lia Bool String Ascii.
From stdpp Require Import base tactics list numbers.
From S2P Require Import Prelude Reader Stream LineMap.

Local Open Scope string_scope.
Local Open Scope list_scope.
Local Open Scope Z_scope.

(** ** Quoting for make *)

Definition blank (c : byte) : bool := (c =? 32) || (c =? 9).

(** The backslashes directly before a place; [before] is the text before it,
    the last character first. *)
Fixpoint backslashes (before : list byte) : nat :=
  match before with
  | c :: before => if c =? 92 then S (backslashes before) else O
  | [] => O
  end.

(** The first pass of munge. *)
Fixpoint munge_length (before p : list byte) (len : Z) : Z :=
  match p with
  | [] => len
  | c :: p =>
      let len := if blank c then len + Z.of_nat (backslashes before) + 1
                 else if c =? 36 then len + 1
                 else if c =? 35 then len + 1
                 else len in
      munge_length (c :: before) p (len + 1)
  end.

(** A buffer and the place [dst] in it. *)
Definition put (c : byte) (b : list byte * nat) : option (list byte * nat) :=
  if (b.2 <? length b.1)%nat then Some (<[b.2 := c]> b.1, S b.2) else None.

Fixpoint put_backslashes (n : nat) (b : list byte * nat) : option (list byte * nat) :=
  match n with
  | O => Some b
  | S n => b ← put 92 b; put_backslashes n b
  end.

(** The second pass. *)
Fixpoint munge_fill (before p : list byte) (b : list byte * nat) : option (list byte * nat) :=
  match p with
  | [] => put 0 b
  | c :: p =>
      b ← (if blank c then b ← put_backslashes (backslashes before) b; put 92 b
           else if c =? 36 then put 36 b
           else if c =? 35 then put 92 b
           else Some b);
      b ← put c b;
      munge_fill (c :: before) p b
  end.

(** The string in a buffer. *)
Fixpoint c_string (b : list byte) : list byte :=
  match b with
  | c :: b => if c =? 0 then [] else c :: c_string b
  | [] => []
  end.

Definition munge (filename : list byte) : option (list byte) :=
  let len := munge_length [] filename 0 in
  b ← munge_fill [] filename (repeat 0 (Z.to_nat (len + 1)), O);
  Some (c_string b.1).

(** ** File names *)

Section Host.
Context (dos : bool).

Definition IS_DIR_SEPARATOR (c : byte) : bool := (c =? 47) || ((c =? 92) && dos).

(** Whether filename_ncmp returns zero. *)
Fixpoint filename_neqb (n : nat) (s1 s2 : list byte) : bool :=
  match n with
  | O => true
  | S n =>
      let c1 := fold_name_char dos (peek s1) in
      let c2 := fold_name_char dos (peek s2) in
      if (c1 =? 0) || negb (c1 =? c2) then c1 =? c2 else filename_neqb n (tl s1) (tl s2)
  end.

(** lbasename: what follows the last separator, and on DOS the drive. *)
Fixpoint basename_from (base name : list byte) : list byte :=
  match name with
  | c :: name => basename_from (if IS_DIR_SEPARATOR c then name else base) name
  | [] => base
  end.
Definition ISALPHA (c : byte) : bool := ((65 <=? c) && (c <=? 90)) || ((97 <=? c) && (c <=? 122)).
Definition lbasename (name : list byte) : list byte :=
  let name := match name with
              | c :: 58 :: rest => if dos && ISALPHA c then rest else name
              | _ => name
              end in
  basename_from name name.

(** *** Leading directories *)

Fixpoint vpath_loop (vpathv : list (list byte)) (t : list byte) : list byte :=
  match vpathv with
  | [] => t
  | v :: vpathv =>
      if filename_neqb (length v) v t then
        let p := drop (length v) t in
        if negb (IS_DIR_SEPARATOR (peek p)) then vpath_loop vpathv t
        else if (peek (drop 1 p) =? 46) && (peek (drop 2 p) =? 46) && IS_DIR_SEPARATOR (peek (drop 3 p))
        then vpath_loop vpathv t
        else drop (length v + 1) t
      else vpath_loop vpathv t
  end.

Fixpoint skip_separators (t : list byte) : list byte :=
  match t with
  | c :: t' => if IS_DIR_SEPARATOR c then skip_separators t' else t
  | [] => []
  end.

(** The loop that removes leading "./". *)
Fixpoint strip_dots (n : nat) (t : list byte) : list byte :=
  match n with
  | O => t
  | S n => if (peek t =? 46) && IS_DIR_SEPARATOR (peek1 t)
           then strip_dots n (skip_separators (drop 2 t)) else t
  end.

(** ** The dependencies *)

(** The arrays have the strings in use; a size counts the slots allocated. *)
Record deps : Type := mk_deps {
  targetv : list (list byte);
  targets_size : Z;
  depv : list (list byte);
  deps_size : Z;
  vpathv : list (list byte);
  vpaths_size : Z
}.

Definition deps_init : deps := mk_deps [] 0 [] 0 [] 0.

Definition apply_vpath (d : deps) (t : list byte) : list byte :=
  let t := vpath_loop (vpathv d) t in strip_dots (length t) t.

(** A string is stored behind those in use, in an array that is made larger by
    a factor of two and [k] slots when it is full. *)
Definition add_string (k : Z) (v : list (list byte)) (size : Z) (s : list byte)
  : option (list (list byte) * Z) :=
  let n := Z.of_nat (length v) in
  let size := if n =? size then u32 (u32 (size * 2) + k) else size in
  if n <? size then Some (v ++ [s], size) else None.

Definition deps_add_target (d : deps) (t : list byte) (quote : bool) : option deps :=
  let t := apply_vpath d t in
  t ← (if quote then munge t else Some t);
  r ← add_string 4 (targetv d) (targets_size d) t;
  Some (mk_deps r.1 r.2 (depv d) (deps_size d) (vpathv d) (vpaths_size d)).

(** The name before its last dot. *)
Fixpoint before_dot (o : list byte) : option (list byte) :=
  match o with
  | c :: o => match before_dot o with
              | Some b => Some (c :: b)
              | None => if c =? 46 then Some [] else None
              end
  | [] => None
  end.

Definition TARGET_OBJECT_SUFFIX : list byte := bytes ".o".

Definition deps_add_default_target (d : deps) (tgt : list byte) : option deps :=
  match targetv d with
  | _ :: _ => Some d
  | [] =>
      match tgt with
      | [] => deps_add_target d (bytes "-") true
      | _ =>
          let start := lbasename tgt in
          deps_add_target d (default start (before_dot start) ++ TARGET_OBJECT_SUFFIX) true
      end
  end.

Definition deps_add_dep (d : deps) (t : list byte) : option deps :=
  t ← munge (apply_vpath d t);
  r ← add_string 8 (depv d) (deps_size d) t;
  Some (mk_deps (targetv d) (targets_size d) r.1 r.2 (vpathv d) (vpaths_size d)).

(** The elements of a list with colons; the last one is empty only if the whole
    list is. *)
Fixpoint vpath_elements (elem p : list byte) : list (list byte) :=
  match p with
  | [] => match elem with [] => [] | _ => [rev elem] end
  | c :: p => if c =? 58 then rev elem :: vpath_elements [] p else vpath_elements (c :: elem) p
  end.

Fixpoint add_elements (d : deps) (elems : list (list byte)) : option deps :=
  match elems with
  | [] => Some d
  | e :: elems =>
      r ← add_string 8 (vpathv d) (vpaths_size d) e;
      add_elements (mk_deps (targetv d) (targets_size d) (depv d) (deps_size d) r.1 r.2) elems
  end.

Definition deps_add_vpath (d : deps) (vpath : list byte) : option deps :=
  add_elements d (vpath_elements [] vpath).

(** ** The rule *)

(** A name, on the same line if there is room; [first] is the first target. *)
Definition write_name (colmax : Z) (first : bool) (name : list byte) (column : Z) : list byte * Z :=
  let size := u32 (Z.of_nat (length name)) in
  let column := u32 (column + size) in
  if first then (name, column)
  else if negb (colmax =? 0) && (colmax <? column) then ([32; 92; 10; 32] ++ name, u32 (1 + size))
  else (32 :: name, u32 (column + 1)).

Fixpoint write_names (colmax : Z) (first : bool) (names : list (list byte)) (column : Z) : list byte * Z :=
  match names with
  | [] => ([], column)
  | name :: names =>
      let '(t, column) := write_name colmax first name column in
      let '(r, column) := write_names colmax false names column in
      (t ++ r, column)
  end.

Definition deps_write (d : deps) (colmax : Z) : list byte :=
  let colmax := if negb (colmax =? 0) && (colmax <? 34) then 34 else colmax in
  let '(ts, column) := write_names colmax true (targetv d) 0 in
  let '(ds, _) := write_names colmax false (depv d) (u32 (column + 1)) in
  ts ++ [58] ++ ds ++ [10].

Definition deps_phony_targets (d : deps) : list byte :=
  concat (map (fun name => [10] ++ name ++ [58; 10]) (drop 1 (depv d))).

(** ** Dependencies in a precompiled header *)

(** The image of an integer of [n] bytes, and its value. *)
Context (bigend : bool).

Fixpoint little_endian (n : nat) (x : Z) : list byte :=
  match n with O => [] | S n => x mod 256 :: little_endian n (x / 256) end.
Fixpoint little_value (bs : list byte) : Z :=
  match bs with [] => 0 | b :: bs => b + 256 * little_value bs end.
Definition int_image (n : nat) (x : Z) : list byte :=
  if bigend then rev (little_endian n x) else little_endian n x.
Definition image_value (bs : list byte) : Z := little_value (if bigend then rev bs else bs).

(** What is written, and whether the writes succeeded: fwrite of an item of no
    bytes returns 0. *)
Fixpoint save_names (names : list (list byte)) : list byte * bool :=
  match names with
  | [] => ([], true)
  | name :: names =>
      let image := int_image 8 (Z.of_nat (length name)) in
      match name with
      | [] => (image, false)
      | _ => let '(r, ok) := save_names names in (image ++ name ++ r, ok)
      end
  end.

Definition deps_save (d : deps) : list byte * bool :=
  let '(r, ok) := save_names (depv d) in (int_image 4 (u32 (Z.of_nat (length (depv d)))) ++ r, ok).

(** fread of [n] bytes: those there are. *)
Definition fread (n : Z) (fd : list byte) : list byte * list byte :=
  (take (Z.to_nat n) fd, drop (Z.to_nat n) fd).

(** The loop of deps_restore: the dependencies, whether it succeeded and what
    is left of the file; [None] if the buffer is overrun. *)
Fixpoint restore_names (count : nat) (d : deps) (self : option (list byte)) (buf_size : Z) (fd : list byte)
  : option (deps * bool * list byte) :=
  match count with
  | O => Some (d, true, fd)
  | S count =>
      let '(size, fd) := fread 8 fd in
      if (length size <? 8)%nat then Some (d, false, fd)
      else
        let num_to_read := image_value size in
        let needed := u64 (num_to_read + 1) in
        let buf_size := if buf_size <? needed then u64 (needed + 127) else buf_size in
        let '(buf, fd) := fread num_to_read fd in
        if buf_size <? Z.of_nat (length buf) then None
        else if Z.of_nat (length buf) <? num_to_read then Some (d, false, fd)
        else if buf_size <=? num_to_read then None
        else
          let buf := c_string buf in
          d ← (match self with
               | Some s => if negb (filename_eqb dos buf s) then deps_add_dep d buf else Some d
               | None => Some d
               end);
          restore_names count d self buf_size fd
  end.

Definition deps_restore (d : deps) (self : option (list byte)) (fd : list byte) : option (deps * bool * list byte) :=
  let '(count, fd) := fread 4 fd in
  if (length count <? 4)%nat then Some (d, false, fd)
  else restore_names (Z.to_nat (image_value count)) d self 512 fd.
End Host.
