(* ===== verification/DepsSpec.v ===== *)
(** * What make reads in the dependency output

    The rule deps_write prints is read by make as the names that were added:
    munge quotes what make would otherwise take apart, and the lines are
    wrapped between names only.  A list of dependencies that is saved and
    restored is quoted twice, so that it is only what it was for names without
    special characters. *)

From Stdlib Require Import ZArith Lia Bool String Ascii.
From stdpp Require Import base tactics list numbers.
From S2P Require Import Prelude Reader Stream LineMap Deps.

Local Open Scope string_scope.
Local Open Scope list_scope.
Local Open Scope Z_scope.

(** ** The quoting of a name *)

Definition quoted_char (before : list byte) (c : byte) : list byte :=
  if blank c then repeat 92 (backslashes before) ++ [92; c]
  else if c =? 36 then [36; c]
  else if c =? 35 then [92; c]
  else [c].

Fixpoint quote_from (before p : list byte) : list byte :=
  match p with
  | [] => []
  | c :: p => quoted_char before c ++ quote_from (c :: before) p
  end.

Definition quote (name : list byte) : list byte := quote_from [] name.

Lemma munge_length_quote p : forall before len,
  munge_length before p len = len + Z.of_nat (length (quote_from before p)).
Proof.
  induction p as [|c p IH]; intros before len; cbn [munge_length quote_from]; [cbn; lia|].
  rewrite IH, length_app. unfold quoted_char.
  destruct (blank c); [rewrite length_app, repeat_length; cbn; lia|].
  destruct (c =? 36); [cbn; lia|]. destruct (c =? 35); cbn; lia.
Qed.

(** Writing stays in the buffer as long as there is room. *)
Definition room (text : list byte) (n : nat) : list byte * nat := (text ++ repeat 0 n, length text).

Lemma put_room c text n : put c (room text (S n)) = Some (room (text ++ [c]) n).
Proof.
  unfold put, room. cbn [fst snd]. rewrite length_app, repeat_length.
  destruct (Nat.ltb_spec (length text) (length text + S n)); [|lia]. f_equal. f_equal.
  - rewrite insert_app_r_alt, Nat.sub_diag by lia. cbn. by rewrite <- app_assoc.
  - rewrite length_app. cbn. lia.
Qed.

Lemma put_backslashes_room k : forall text n,
  put_backslashes k (room text (k + n)) = Some (room (text ++ repeat 92 k) n).
Proof.
  induction k as [|k IH]; intros text n; cbn [put_backslashes]; [cbn; by rewrite app_nil_r|].
  change (S k + n)%nat with (S (k + n)). rewrite put_room. cbn [mbind option_bind].
  rewrite IH. f_equal. f_equal. rewrite <- app_assoc. done.
Qed.

Lemma munge_fill_room p : forall before text,
  munge_fill before p (room text (S (length (quote_from before p)))) = Some (room (text ++ quote_from before p ++ [0]) 0).
Proof.
  induction p as [|c p IH]; intros before text; cbn [munge_fill quote_from].
  { cbn [length app]. by rewrite put_room. }
  set (q := quote_from (c :: before) p). unfold quoted_char.
  assert (forall t, munge_fill (c :: before) p (room t (S (length q))) = Some (room (t ++ q ++ [0]) 0)) as Hrest
    by (intros t; apply IH).
  destruct (blank c).
  { rewrite !length_app, repeat_length. cbn [length].
    replace (S (backslashes before + 2 + length q)) with (backslashes before + S (S (S (length q))))%nat by lia.
    rewrite put_backslashes_room. cbn [mbind option_bind]. rewrite put_room. cbn [mbind option_bind].
    rewrite put_room. cbn [mbind option_bind]. rewrite Hrest. by rewrite <- !app_assoc. }
  destruct (c =? 36); [|destruct (c =? 35)]; cbn [length app mbind option_bind];
    rewrite ?put_room; cbn [mbind option_bind]; rewrite ?put_room; cbn [mbind option_bind]; rewrite Hrest; by rewrite <- !app_assoc.
Qed.

Lemma quote_no_nul p : Forall (fun c => c <> 0) p -> forall before, Forall (fun c => c <> 0) (quote_from before p).
Proof.
  induction 1 as [|c p Hc _ IH]; intros before; [constructor|]. cbn [quote_from]. apply Forall_app. split; [|apply IH].
  unfold quoted_char. destruct (blank c).
  - apply Forall_app. split; [apply List.Forall_forall; by intros x ->%repeat_spec|]. by repeat constructor.
  - destruct (c =? 36); [by repeat constructor|]. destruct (c =? 35); by repeat constructor.
Qed.

Lemma c_string_app s rest : Forall (fun c => c <> 0) s -> c_string (s ++ 0 :: rest) = s.
Proof.
  induction 1 as [|c s Hc _ IH]; [done|]. cbn. destruct (Z.eqb_spec c 0); [done|]. by rewrite IH.
Qed.

Lemma c_string_all s : Forall (fun c => c <> 0) s -> c_string s = s.
Proof. induction 1 as [|c s Hc _ IH]; [done|]. cbn. destruct (Z.eqb_spec c 0); [done|]. by rewrite IH. Qed.

Lemma munge_fill_quote f :
  munge_fill [] f (repeat 0 (Z.to_nat (munge_length [] f 0 + 1)), 0%nat) = Some (quote f ++ [0], S (length (quote f))).
Proof.
  rewrite munge_length_quote. replace (Z.to_nat _) with (S (length (quote f))) by (unfold quote; lia).
  change (repeat 0 (S (length (quote f))), 0%nat) with (room [] (S (length (quote_from [] f)))).
  rewrite munge_fill_room. unfold room. cbn [repeat app]. rewrite app_nil_r, length_app. cbn. f_equal. f_equal.
  unfold quote. lia.
Qed.

Lemma munge_quote f : Forall (fun c => c <> 0) f -> munge f = Some (quote f).
Proof.
  intros Hf. unfold munge. rewrite munge_fill_quote. cbn. by rewrite c_string_app by by apply quote_no_nul.
Qed.

(** ** How make reads a rule

    Backslashes before white space are halved, an odd one quotes the space or
    joins the lines; a quoted # is a #, $$ is a dollar.  Comments and
    references to variables are not read. *)

Definition finish (word : list byte) (ws : list (list byte)) : list (list byte) :=
  match word with [] => ws | _ => rev word :: ws end.

(** The words up to a colon or the end of the line; [word] is the one being
    read, its last character first, behind which [bs] backslashes follow. *)
Fixpoint words (bs : nat) (word s : list byte) : option (list (list byte) * list byte) :=
  let halved := repeat 92 (Nat.div2 bs) ++ word in
  match s with
  | [] => None
  | c :: s' =>
      if c =? 92 then words (S bs) word s'
      else if blank c then
        if Nat.odd bs then words 0 (c :: halved) s'
        else r ← words 0 [] s'; Some (finish halved r.1, r.2)
      else if c =? 10 then
        if Nat.odd bs then r ← words 0 [] s'; Some (finish halved r.1, r.2)
        else Some (finish halved [], s)
      else if c =? 58 then
        match bs with O => Some (finish word [], s) | _ => None end
      else if c =? 35 then
        if Nat.odd bs then words 0 (35 :: halved) s' else None
      else if c =? 36 then
        match s' with
        | c2 :: s'' => if c2 =? 36 then words 0 (36 :: repeat 92 bs ++ word) s'' else None
        | [] => None
        end
      else words 0 (c :: repeat 92 bs ++ word) s'
  end.

(** A rule on one logical line: its targets and its prerequisites. *)
Definition read_rule (s : list byte) : option (list (list byte) * list (list byte)) :=
  t ← words 0 [] s;
  match t.2 with
  | 58 :: s =>
      d ← words 0 [] s;
      match d.2 with [10] => Some (t.1, d.1) | _ => None end
  | _ => None
  end.

(** The names make can be told: no newline or colon, no backslash before a #
    and none at the end. *)
Fixpoint plain_from (before p : list byte) : bool :=
  match p with
  | [] => (backslashes before =? 0)%nat
  | c :: p => negb (c =? 0) && negb (c =? 10) && negb (c =? 58) && negb ((c =? 35) && negb (backslashes before =? 0)%nat)
              && plain_from (c :: before) p
  end.
Definition make_name (p : list byte) : bool := negb (bool_decide (p = [])) && plain_from [] p.

Lemma backslashes_split before : before = repeat 92 (backslashes before) ++ drop (backslashes before) before.
Proof.
  induction before as [|c before IH]; [done|]. cbn [backslashes]. destruct (Z.eqb_spec c 92) as [->|]; [|done].
  cbn. by f_equal.
Qed.

Lemma repeat_app_double k (l : list byte) : repeat 92 k ++ 92 :: l = 92 :: repeat 92 k ++ l.
Proof. induction k as [|k IH]; [done|]. cbn. by rewrite IH. Qed.

Lemma words_backslashes k : forall bs word s, words bs word (repeat 92 k ++ s) = words (k + bs) word s.
Proof.
  induction k as [|k IH]; intros bs word s; [done|]. cbn [repeat app]. cbn [words]. rewrite IH. f_equal. lia.
Qed.

Lemma div2_odd k : Nat.div2 (S (k + k)) = k /\ Nat.odd (S (k + k)) = true.
Proof.
  replace (S (k + k)) with (S (2 * k)) by lia. split; [by rewrite Nat.div2_succ_double|].
  by rewrite Nat.odd_succ, Nat.even_even.
Qed.

(** Reading a quoted name. *)
Definition pending (before : list byte) (s : list byte) : option (list (list byte) * list byte) :=
  words (backslashes before) (drop (backslashes before) before) s.

Lemma pending_char before c s : c <> 92 ->
  pending (c :: before) s = words 0 (c :: before) s.
Proof. intros Hc. unfold pending. cbn [backslashes]. destruct (Z.eqb_spec c 92); done. Qed.

Lemma read_quoted_char before c s : c <> 0 -> c <> 10 -> c <> 58 ->
  (c = 35 -> backslashes before = 0%nat) ->
  pending before (quoted_char before c ++ s) = pending (c :: before) s.
Proof.
  intros H0 H10 H58 H35. unfold quoted_char. destruct (blank c) eqn:Eb.
  { assert (c <> 92) as Hn by (intros ->; done). rewrite pending_char by done. unfold pending.
    rewrite <- app_assoc, words_backslashes. cbn [app words Z.eqb].
    change (92 =? 92) with true. cbv iota. set (k := backslashes before).
    destruct (div2_odd k) as [E1 E2]. destruct (Z.eqb_spec c 92); [done|].
    rewrite Eb, E2, E1. f_equal. f_equal. unfold k. symmetry. apply backslashes_split. }
  destruct (Z.eqb_spec c 36) as [->|N36].
  { rewrite pending_char by done. unfold pending. cbn [app words]. change (36 =? 92) with false. cbv iota.
    change (blank 36) with false. cbn [Z.eqb]. f_equal. f_equal. symmetry. apply backslashes_split. }
  destruct (Z.eqb_spec c 35) as [->|N35].
  { rewrite pending_char by done. unfold pending. rewrite (H35 eq_refl), drop_0. done. }
  destruct (Z.eqb_spec c 92) as [->|N92].
  { unfold pending. cbn [app words backslashes]. done. }
  rewrite pending_char by done. unfold pending. cbn [app words].
  destruct (Z.eqb_spec c 92); [done|]. rewrite Eb. destruct (Z.eqb_spec c 10); [done|].
  destruct (Z.eqb_spec c 58); [done|]. destruct (Z.eqb_spec c 35); [done|]. destruct (Z.eqb_spec c 36); [done|].
  f_equal. f_equal. symmetry. apply backslashes_split.
Qed.

Lemma read_quoted p : forall before s, plain_from before p = true ->
  pending before (quote_from before p ++ s) = pending (rev p ++ before) s /\ backslashes (rev p ++ before) = 0%nat.
Proof.
  induction p as [|c p IH]; intros before s H; cbn [plain_from] in H.
  { cbn. split; [done|]. by apply Nat.eqb_eq. }
  repeat (apply andb_prop in H as [H ?]). repeat match goal with H : negb _ = true |- _ => apply negb_true_iff in H end.
  cbn [quote_from rev]. rewrite <- !app_assoc. cbn [app]. rewrite read_quoted_char; [by apply IH|..];
    try (by apply Z.eqb_neq).
  intros ->. match goal with H : _ && _ = false |- _ => apply andb_false_iff in H as [H|H]; [done|] end.
  apply negb_false_iff in H1. by apply Nat.eqb_eq.
Qed.

(** A name is one word, whatever may follow it. *)
Lemma words_name p s : make_name p = true ->
  words 0 [] (quote p ++ s) = words 0 (rev p) s /\ rev p <> [].
Proof.
  intros [Hne Hp]%andb_prop. pose proof (read_quoted p [] s Hp) as [H1 H2]. rewrite app_nil_r in *.
  split.
  - unfold quote. change (words 0 [] ?x) with (pending [] x). rewrite H1. unfold pending. by rewrite H2, drop_0.
  - intros E. apply negb_true_iff in Hne. apply (f_equal (@rev byte)) in E. rewrite rev_involutive in E.
    by apply bool_decide_eq_false_1 in Hne.
Qed.

(** ** The rule that is written *)

Definition separator (s : list byte) : Prop := s = [32] \/ s = [32; 92; 10; 32].

Lemma words_separator sep word s : separator sep ->
  words 0 word (sep ++ s) = r ← words 0 [] s; Some (finish word r.1, r.2).
Proof.
  intros [-> | ->]; cbn; [done|]. by destruct (words 0 [] s) as [[ws rest]|].
Qed.

Lemma words_stop stop word s : stop = 58 \/ stop = 10 -> words 0 word (stop :: s) = Some (finish word [], stop :: s).
Proof. by intros [-> | ->]. Qed.

Lemma write_name_text colmax name column : exists sep,
  (write_name colmax false name column).1 = sep ++ name /\ separator sep.
Proof.
  unfold write_name. destruct (_ && _); [exists [32; 92; 10; 32]|exists [32]]; split; try done; [by right|by left].
Qed.

Lemma write_names_cons colmax first name names column :
  (write_names colmax first (name :: names) column).1
  = (write_name colmax first name column).1
    ++ (write_names colmax false names (write_name colmax first name column).2).1.
Proof. cbn [write_names]. destruct (write_name _ _ _ _) as [t c]. by destruct (write_names _ _ _ _). Qed.

Lemma read_names colmax names stop s : Forall (fun p => make_name p = true) names -> stop = 58 \/ stop = 10 ->
  forall word column,
  words 0 word ((write_names colmax false (map quote names) column).1 ++ stop :: s)
  = Some (finish word names, stop :: s).
Proof.
  intros Hn Hstop. induction Hn as [|p names Hp _ IH]; intros word column; [by apply words_stop|].
  cbn [map]. rewrite write_names_cons. destruct (write_name_text colmax (quote p) column) as (sep & -> & Hsep).
  rewrite <- !app_assoc, words_separator by done. destruct (words_name p) with (s := (write_names colmax false
    (map quote names) (write_name colmax false (quote p) column).2).1 ++ stop :: s) as [-> Hne]; [done|].
  rewrite IH. cbn [mbind option_bind fst snd]. f_equal. f_equal. f_equal. unfold finish at 1.
  destruct (rev p) eqn:E; [done|]. by rewrite <- E, rev_involutive.
Qed.

Lemma read_targets colmax names s : Forall (fun p => make_name p = true) names -> forall column,
  words 0 [] ((write_names colmax true (map quote names) column).1 ++ 58 :: s) = Some (names, 58 :: s).
Proof.
  intros Hn column. destruct Hn as [|p names Hp Hn]; [done|].
  cbn [map]. rewrite write_names_cons. cbn [write_name fst snd]. rewrite <- app_assoc.
  destruct (words_name p) with (s := (write_names colmax false
    (map quote names) (u32 (column + u32 (Z.of_nat (length (quote p)))))).1 ++ 58 :: s) as [-> Hne]; [done|].
  rewrite (read_names colmax names 58 s Hn) by by left. unfold finish.
  destruct (rev p) eqn:E; [done|]. by rewrite <- E, rev_involutive.
Qed.

Lemma deps_write_text d colmax : exists c column,
  deps_write d colmax = (write_names c true (targetv d) 0).1
    ++ 58 :: (write_names c false (depv d) column).1 ++ [10].
Proof.
  unfold deps_write. eexists (if _ : bool then 34 else colmax). destruct (write_names _ true _ _) as [ts column] eqn:E1.
  exists (u32 (column + 1)). destruct (write_names _ false _ _) as [ds c2] eqn:E2. by rewrite E1, E2.
Qed.

Lemma read_written d colmax ts ds : targetv d = map quote ts -> depv d = map quote ds ->
  Forall (fun p => make_name p = true) ts -> Forall (fun p => make_name p = true) ds ->
  read_rule (deps_write d colmax) = Some (ts, ds).
Proof.
  intros Et Ed Ht Hd. destruct (deps_write_text d colmax) as (c & column & ->). unfold read_rule.
  rewrite Et, Ed, read_targets by done. cbn [mbind option_bind fst snd].
  rewrite (read_names c ds 10 []) by auto. done.
Qed.

(** ** Names and arrays *)

(** The operations of a client. *)
Inductive deps_op : Type :=
  | AddTarget (t : list byte)
  | AddDefault (t : list byte)
  | AddDep (t : list byte)
  | AddVpath (v : list byte).

Section Client.
Context (dos : bool).

Definition deps_step (d : deps) (op : deps_op) : option deps :=
  match op with
  | AddTarget t => deps_add_target dos d t true
  | AddDefault t => deps_add_default_target dos d t
  | AddDep t => deps_add_dep dos d t
  | AddVpath v => deps_add_vpath d v
  end.

Fixpoint deps_run (d : deps) (ops : list deps_op) : option deps :=
  match ops with
  | [] => Some d
  | op :: ops => d ← deps_step d op; deps_run d ops
  end.

(** What they mean: lists of names and of directories. *)
Record rule : Type := mk_rule {
  r_targets : list (list byte);
  r_deps : list (list byte);
  r_vpath : list (list byte)
}.

(** A name without the directory it begins with and leading "./". *)
Definition short_name (vpath : list (list byte)) (t : list byte) : list byte :=
  let t := vpath_loop dos vpath t in strip_dots dos (length t) t.

Definition object_name (t : list byte) : list byte :=
  match t with
  | [] => bytes "-"
  | _ => let base := lbasename dos t in default base (before_dot base) ++ TARGET_OBJECT_SUFFIX
  end.

Definition rule_step (r : rule) (op : deps_op) : rule :=
  match op with
  | AddTarget t => mk_rule (r_targets r ++ [short_name (r_vpath r) t]) (r_deps r) (r_vpath r)
  | AddDefault t =>
      match r_targets r with
      | [] => mk_rule [short_name (r_vpath r) (object_name t)] (r_deps r) (r_vpath r)
      | _ => r
      end
  | AddDep t => mk_rule (r_targets r) (r_deps r ++ [short_name (r_vpath r) t]) (r_vpath r)
  | AddVpath v => mk_rule (r_targets r) (r_deps r) (r_vpath r ++ vpath_elements [] v)
  end.

Definition rule_of (ops : list deps_op) : rule := fold_left rule_step ops (mk_rule [] [] []).

Definition no_nul (s : list byte) : Prop := Forall (fun c => c <> 0) s.

Definition op_text (op : deps_op) : list byte :=
  match op with AddTarget t | AddDefault t | AddDep t | AddVpath t => t end.

(** An array has room, and is not much larger than needed. *)
Definition sized (v : list (list byte)) (size : Z) : Prop :=
  Z.of_nat (length v) <= size <= 2 * Z.of_nat (length v) + 8.

Lemma add_string_ok k v size s : sized v size -> 0 < k <= 8 -> Z.of_nat (length v) < 2 ^ 29 ->
  exists size', add_string k v size s = Some (v ++ [s], size') /\ sized (v ++ [s]) size'.
Proof.
  unfold sized, add_string. intros Hs Hk Hn. set (n := Z.of_nat (length v)) in *.
  assert (Z.of_nat (length (v ++ [s])) = n + 1) as Hl by (rewrite length_app; cbn; lia). rewrite Hl.
  destruct (Z.eqb_spec n size) as [<-|Hne].
  - rewrite (u32_small (n * 2)), u32_small by lia. destruct (Z.ltb_spec n (n * 2 + k)); [|lia].
    eexists. split; [done|]. lia.
  - destruct (Z.ltb_spec n size); [|lia]. eexists. split; [done|]. lia.
Qed.

(** The strings are the quoted names. *)
Record refines (d : deps) (r : rule) : Prop := {
  rf_targets : targetv d = map quote (r_targets r);
  rf_deps : depv d = map quote (r_deps r);
  rf_vpath : vpathv d = r_vpath r;
  rf_target_room : sized (targetv d) (targets_size d);
  rf_dep_room : sized (depv d) (deps_size d);
  rf_vpath_room : sized (vpathv d) (vpaths_size d)
}.

(** The number of strings. *)
Definition strings (r : rule) : Z :=
  Z.of_nat (length (r_targets r) + length (r_deps r) + length (r_vpath r)).

Definition op_strings (op : deps_op) : Z :=
  match op with AddVpath v => Z.of_nat (length v) | _ => 1 end.

Lemma drop_no_nul n s : no_nul s -> no_nul (drop n s).
Proof. apply Forall_drop. Qed.

Lemma vpath_loop_drop vs t : exists n, vpath_loop dos vs t = drop n t.
Proof.
  induction vs as [|v vs IH]; cbn [vpath_loop]; [by exists 0%nat|].
  destruct (filename_neqb _ _ _ _); [|exact IH]. destruct (negb _); [exact IH|].
  destruct (_ && _); [exact IH|]. by eexists.
Qed.

Lemma skip_separators_drop t : exists n, skip_separators dos t = drop n t.
Proof.
  induction t as [|c t (n & IH)]; [by exists 0%nat|]. cbn [skip_separators].
  destruct (IS_DIR_SEPARATOR _ _); [exists (S n)|exists 0%nat]; done.
Qed.

Lemma strip_dots_drop n : forall t, exists m, strip_dots dos n t = drop m t.
Proof.
  induction n as [|n IH]; intros t; cbn [strip_dots]; [by exists 0%nat|].
  destruct (_ && _); [|by exists 0%nat]. destruct (skip_separators_drop (drop 2 t)) as (k & ->).
  destruct (IH (drop k (drop 2 t))) as (m & ->). rewrite !drop_drop. by eexists.
Qed.

(** The end of a name is kept. *)
Lemma short_name_drop vs t : exists n, short_name vs t = drop n t.
Proof.
  unfold short_name. destruct (vpath_loop_drop vs t) as (n & ->).
  destruct (strip_dots_drop (length (drop n t)) (drop n t)) as (m & ->). rewrite drop_drop. by eexists.
Qed.

Lemma short_name_no_nul vs t : no_nul t -> no_nul (short_name vs t).
Proof. intros H. destruct (short_name_drop vs t) as (n & ->). by apply drop_no_nul. Qed.
Lemma basename_drop name : exists n, lbasename dos name = drop n name.
Proof.
  assert (forall s base, (exists n, base = drop n s) -> exists n, basename_from dos base s = drop n s) as Hfrom.
  { induction s as [|c s IH]; intros base (n & ->); cbn [basename_from]; [exists n; by destruct n|].
    destruct (IS_DIR_SEPARATOR dos c).
    - destruct (IH s) as (m & ->); [by exists 0%nat|]. by exists (S m).
    - destruct n as [|n]; cbn [drop].
      + clear. enough (forall s base, (exists n, basename_from dos base s = drop n s) \/ basename_from dos base s = base) as H.
        { destruct (H s (c :: s)) as [(m & ->)| ->]; [by exists (S m)|by exists 0%nat]. }
        intros t. induction t as [|x t IH]; intros base; cbn [basename_from]; [by right|].
        destruct (IS_DIR_SEPARATOR dos x).
        * destruct (IH t) as [(m & ->)| ->]; left; [by exists (S m)|by exists 1%nat].
        * destruct (IH base) as [(m & ->)| ->]; [left; by exists (S m)|by right].
      + destruct (IH (drop n s)) as (m & ->); [by eexists|]. by exists (S m). }
  unfold lbasename. assert (forall s, exists n, basename_from dos s s = drop n s) as Hs by (intros s; apply Hfrom; by exists 0%nat).
  destruct name as [|c [|c2 name]]; try apply Hs. destruct (Z.eq_dec c2 58) as [->|N].
  - destruct (dos && ISALPHA c); [|apply Hs]. destruct (Hs name) as (n & ->). by exists (S (S n)).
  - destruct c2 as [|q|]; try apply Hs. do 6 (destruct q as [q|q|]; try apply Hs). done.
Qed.

Lemma before_dot_prefix o b : before_dot o = Some b -> exists s, o = b ++ s.
Proof.
  revert b. induction o as [|c o IH]; intros b; cbn [before_dot]; [done|].
  destruct (before_dot o) as [b'|]; [|destruct (c =? 46); intros [= <-]; by exists (c :: o)].
  intros [= <-]. destruct (IH b' eq_refl) as (s & ->). by exists s.
Qed.

Lemma object_name_no_nul t : no_nul t -> no_nul (object_name t).
Proof.
  intros Ht. unfold object_name. destruct t as [|c t]; [by repeat constructor|].
  destruct (basename_drop (c :: t)) as (n & ->). assert (no_nul (drop n (c :: t))) as Hd by by apply drop_no_nul.
  apply Forall_app. split; [|by repeat constructor]. destruct (before_dot _) as [b|] eqn:E; [|done].
  apply before_dot_prefix in E as (s & E). rewrite E in Hd. by apply Forall_app in Hd as [? _].
Qed.

Lemma add_target_ok d r t : refines d r -> no_nul t -> strings r + 1 < 2 ^ 29 ->
  exists d', deps_add_target dos d t true = Some d' /\
    refines d' (mk_rule (r_targets r ++ [short_name (r_vpath r) t]) (r_deps r) (r_vpath r)).
Proof.
  intros [H1 H2 H3 H4 H5 H6] Ht Hn. unfold deps_add_target, apply_vpath. rewrite H3. fold (short_name (r_vpath r) t).
  rewrite munge_quote by by apply short_name_no_nul. cbn [mbind option_bind].
  destruct (add_string_ok 4 (targetv d) (targets_size d) (quote (short_name (r_vpath r) t)) H4) as (size & -> & Hs);
    [lia|rewrite H1, length_map; unfold strings in Hn; lia|].
  eexists. split; [done|]. split; cbn [targetv targets_size depv deps_size vpathv vpaths_size r_targets r_deps r_vpath]; try done; [by rewrite H1, map_app|by rewrite <- H3].
Qed.

Lemma add_dep_ok d r t : refines d r -> no_nul t -> strings r + 1 < 2 ^ 29 ->
  exists d', deps_add_dep dos d t = Some d' /\
    refines d' (mk_rule (r_targets r) (r_deps r ++ [short_name (r_vpath r) t]) (r_vpath r)).
Proof.
  intros [H1 H2 H3 H4 H5 H6] Ht Hn. unfold deps_add_dep, apply_vpath. rewrite H3. fold (short_name (r_vpath r) t).
  rewrite munge_quote by by apply short_name_no_nul. cbn [mbind option_bind].
  destruct (add_string_ok 8 (depv d) (deps_size d) (quote (short_name (r_vpath r) t)) H5) as (size & -> & Hs);
    [lia|rewrite H2, length_map; unfold strings in Hn; lia|].
  eexists. split; [done|]. split; cbn [targetv targets_size depv deps_size vpathv vpaths_size r_targets r_deps r_vpath]; try done; [by rewrite H2, map_app|by rewrite <- H3].
Qed.

Lemma add_elements_ok es : forall d r, refines d r -> strings r + Z.of_nat (length es) < 2 ^ 29 ->
  exists d', add_elements d es = Some d' /\ refines d' (mk_rule (r_targets r) (r_deps r) (r_vpath r ++ es)).
Proof.
  induction es as [|e es IH]; intros d r Hr Hn; cbn [add_elements].
  { exists d. split; [done|]. destruct r. by rewrite app_nil_r. }
  destruct Hr as [H1 H2 H3 H4 H5 H6]. unfold strings in *. cbn [length] in Hn.
  destruct (add_string_ok 8 (vpathv d) (vpaths_size d) e H6) as (size & -> & Hs); [lia|rewrite H3; lia|].
  cbn [mbind option_bind fst snd]. destruct (IH (mk_deps (targetv d) (targets_size d) (depv d) (deps_size d)
    (vpathv d ++ [e]) size) (mk_rule (r_targets r) (r_deps r) (r_vpath r ++ [e]))) as (d' & -> & Hd').
  - split; cbn; try done. by rewrite H3.
  - cbn. rewrite length_app. cbn. lia.
  - exists d'. split; [done|]. cbn in Hd'. by rewrite <- app_assoc in Hd'.
Qed.

Lemma vpath_elements_length p : forall e, (length (vpath_elements e p) <= S (length p))%nat.
Proof.
  induction p as [|c p IH]; intros e; cbn; [destruct e; cbn; lia|].
  destruct (c =? 58); cbn; [specialize (IH [])|specialize (IH (c :: e))]; lia.
Qed.

Lemma vpath_elements_count v : (length (vpath_elements [] v) <= length v)%nat.
Proof.
  enough (forall p e, (length (vpath_elements e p) <= length p + length e)%nat) as H by (specialize (H v []); cbn in H; lia).
  induction p as [|c p IH]; intros e; cbn; [destruct e; cbn; lia|].
  destruct (c =? 58); cbn; [specialize (IH []); cbn in IH; lia|specialize (IH (c :: e)); cbn in IH; lia].
Qed.

Lemma step_refines d r op : refines d r -> no_nul (op_text op) -> strings r + op_strings op < 2 ^ 29 ->
  exists d', deps_step d op = Some d' /\ refines d' (rule_step r op) /\
             strings (rule_step r op) <= strings r + op_strings op.
Proof.
  intros Hr Ht Hn. unfold strings in *. destruct op as [t|t|t|v]; cbn [op_text deps_step rule_step op_strings] in *.
  - destruct (add_target_ok d r t) as (d' & -> & Hd'); [done..|]. exists d'. split_and!; [done|done|].
    cbn. rewrite !length_app. cbn. lia.
  - unfold deps_add_default_target. rewrite (rf_targets d r Hr). destruct (r_targets r) as [|x xs] eqn:E; cbn [map].
    2: { exists d. split_and!; [done|done|]. rewrite E. lia. }
    assert (no_nul (object_name t)) as Ho by by apply object_name_no_nul.
    destruct (add_target_ok d r (object_name t)) as (d' & Hd & Hd'); [done|done|unfold strings; rewrite E; exact Hn|].
    rewrite E in Hd'. exists d'. split_and!; [|done|cbn; lia]. by destruct t.
  - destruct (add_dep_ok d r t) as (d' & -> & Hd'); [done..|]. exists d'. split_and!; [done|done|].
    cbn. rewrite !length_app. cbn. lia.
  - pose proof (vpath_elements_count v). destruct (add_elements_ok (vpath_elements [] v) d r) as (d' & Hd & Hd');
      [done|unfold strings; lia|].
    exists d'. split_and!; [done|done|]. cbn. rewrite length_app. lia.
Qed.

Definition total_strings (ops : list deps_op) : Z := foldr (fun op n => op_strings op + n) 0 ops.

Lemma run_refines ops : Forall (fun op => no_nul (op_text op)) ops -> forall d r,
  refines d r -> strings r + total_strings ops < 2 ^ 29 ->
  exists d', deps_run d ops = Some d' /\ refines d' (fold_left rule_step ops r).
Proof.
  induction 1 as [|op ops Hop Hops IH]; intros d r Hr Hn; cbn [deps_run fold_left]; [by exists d|].
  cbn [total_strings foldr] in Hn. fold (total_strings ops) in Hn.
  assert (0 <= total_strings ops) as Hpos.
  { clear. induction ops as [|op ops IH]; cbn; [done|]. fold (total_strings ops). destruct op; cbn; lia. }
  destruct (step_refines d r op) as (d' & -> & Hd' & Hle); [done|done|lia|]. apply IH; [done|lia].
Qed.

Lemma init_refines : refines deps_init (mk_rule [] [] []).
Proof. by split. Qed.
End Client.


Definition sample_ops : list deps_op :=
  [AddVpath (bytes "../lib:/usr/src"); AddDefault (bytes "dir/a b.c"); AddDep (bytes "./dir/a b.c");
   AddDep (bytes "/usr/src/x\ #1.h"); AddDep (bytes "../lib/../y$.h")].


(** ** The lines of the rule *)

Fixpoint longest_from (cur : Z) (s : list byte) : Z :=
  match s with
  | [] => cur
  | c :: s => if c =? 10 then Z.max cur (longest_from 0 s) else longest_from (cur + 1) s
  end.
Definition longest_line (s : list byte) : Z := longest_from 0 s.

Lemma longest_app s : Forall (fun c => c <> 10) s -> forall cur rest,
  longest_from cur (s ++ rest) = longest_from (cur + Z.of_nat (length s)) rest.
Proof.
  induction 1 as [|c s Hc _ IH]; intros cur rest; cbn [app longest_from length]; [f_equal; lia|].
  destruct (Z.eqb_spec c 10); [done|]. rewrite IH. f_equal. lia.
Qed.

Section Lines.
Context (colmax B : Z) (Hcol : 0 < colmax) (HB : 0 <= B) (Hsmall : Z.max colmax B < 2 ^ 30).

Definition line_name (s : list byte) : Prop := Forall (fun c => c <> 10) s /\ Z.of_nat (length s) <= B.

(** The column is the length of the line so far. *)
Lemma name_fits first name cur rest : line_name name -> 0 <= cur <= Z.max colmax B + 2 -> (first = true -> cur = 0) ->
  let '(t, c) := write_name colmax first name cur in
  longest_from cur (t ++ rest) <= Z.max (Z.max colmax B + 4) (longest_from c rest) /\ 0 <= c <= Z.max colmax B + 1.
Proof.
  intros [Hn Hl] Hc Hf. unfold write_name, line_name in *. unfold byte in *. rewrite (u32_small (Z.of_nat _)), (u32_small (cur + _)) by lia.
  destruct first; [cbv beta iota; rewrite longest_app, Hf by done; split; [apply Z.le_max_r|lia]|].
  destruct (Z.eqb_spec colmax 0); [lia|]. cbn [negb andb].
  destruct (Z.ltb_spec colmax (cur + Z.of_nat (length name))).
  - rewrite u32_small by lia. cbv beta iota.
    change (([32; 92; 10; 32] ++ name) ++ rest) with ([32; 92] ++ 10 :: [32] ++ name ++ rest).
    rewrite (longest_app [32; 92]) by (repeat constructor; discriminate). cbn [longest_from]. rewrite Z.eqb_refl.
    rewrite (longest_app [32]) by (repeat constructor; discriminate). rewrite longest_app by done. cbn [length].
    replace (0 + Z.of_nat 1 + Z.of_nat (length name)) with (1 + Z.of_nat (length name)) by lia. lia.
  - rewrite u32_small by lia. cbv beta iota. change ((32 :: name) ++ rest) with ([32] ++ name ++ rest).
    rewrite (longest_app [32]) by (repeat constructor; discriminate). rewrite longest_app by done. cbn [length].
    replace (cur + Z.of_nat 1 + Z.of_nat (length name)) with (cur + Z.of_nat (length name) + 1) by lia. lia.
Qed.

Lemma names_fit names : Forall line_name names -> forall first cur rest,
  0 <= cur <= Z.max colmax B + 2 -> (first = true -> cur = 0) ->
  let '(t, c) := write_names colmax first names cur in
  longest_from cur (t ++ rest) <= Z.max (Z.max colmax B + 4) (longest_from c rest) /\
  0 <= c /\ (c <= Z.max colmax B + 1 \/ c = cur).
Proof.
  induction 1 as [|name names Hn _ IH]; intros first cur rest Hc Hf; cbn [write_names]; [cbn; lia|].
  pose proof (fun r => name_fits first name cur r Hn Hc Hf) as H1.
  destruct (write_name colmax first name cur) as [t c]. pose proof (H1 []) as [_ Hc1].
  specialize (IH false c rest ltac:(lia) ltac:(done)).
  destruct (write_names colmax false names c) as [r c2]. destruct IH as (Hr & Hc2 & Hc3).
  specialize (H1 (r ++ rest)) as [H1 _]. rewrite <- app_assoc. lia.
Qed.
End Lines.

(** The lines of the rule are about as long as asked for: with names of at
    most B characters, as they are quoted, no line of what deps_write prints is
    more than four characters longer than the wrapping column, or than B. The
    column is compared before the space is counted, and the colon and the
    backslash of a wrapped line are not. *)
Theorem written_lines_fit d colmax B : 34 <= colmax -> 0 <= B -> Z.max colmax B < 2 ^ 30 ->
  Forall (fun s => Forall (fun c => c <> 10) s /\ Z.of_nat (length s) <= B) (targetv d ++ depv d) ->
  longest_line (deps_write d colmax) <= Z.max colmax B + 4.
Proof.
  intros Hc HB Hs [Ht Hd]%Forall_app. unfold deps_write, longest_line.
  destruct (Z.eqb_spec colmax 0); [lia|]. destruct (Z.ltb_spec colmax 34); [lia|]. cbn [negb andb].
  pose proof (fun r => names_fit colmax B ltac:(lia) Hs (targetv d) Ht true 0 r ltac:(lia) ltac:(done)) as H1.
  destruct (write_names colmax true (targetv d) 0) as [ts c]. pose proof (H1 []) as (_ & Hc0 & Hc1).
  rewrite (u32_small (c + 1)) by lia.
  pose proof (names_fit colmax B ltac:(lia) Hs (depv d) Hd false (c + 1) [10] ltac:(lia) ltac:(done)) as H2.
  destruct (write_names colmax false (depv d) (c + 1)) as [ds c2]. destruct H2 as (H2 & Hc2 & Hc3).
  specialize (H1 ([58] ++ ds ++ [10])) as [H1 _].
  cbn [app longest_from] in *. change (58 =? 10) with false in H1. change (10 =? 10) with true in H2. cbv iota in H1, H2. lia.
Qed.

Definition wide_rule : deps :=
  mk_deps [repeat 97 10; repeat 98 24] 4 [bytes "c.h"] 8 [] 0.

(** The bound is reached. *)
Lemma written_lines_fit_witness : longest_line (deps_write wide_rule 34) = 38 /\
  longest_line (deps_write wide_rule 34) <= Z.max 34 24 + 4.
Proof.
  split; [by vm_compute|]. apply written_lines_fit; [done|done|done|].
  repeat (constructor; [split; [repeat constructor; discriminate|by vm_compute]|]). constructor.
Defined.

(** ** Saving and restoring *)

Section Saved.
Context (dos bigend : bool).

Lemma little_endian_length n : forall x, length (little_endian n x) = n.
Proof. induction n as [|n IH]; intros x; cbn; by rewrite ?IH. Qed.

Lemma little_value_endian n : forall x, 0 <= x < 256 ^ Z.of_nat n -> little_value (little_endian n x) = x.
Proof.
  induction n as [|n IH]; intros x Hx; cbn [little_endian little_value]; [cbn in Hx; lia|].
  rewrite IH; [pose proof (Z.div_mod x 256); lia|].
  replace (Z.of_nat (S n)) with (1 + Z.of_nat n) in Hx by lia. rewrite Z.pow_add_r in Hx by lia.
  split; [apply Z.div_pos; lia|apply Z.div_lt_upper_bound; lia].
Qed.

Lemma int_image_length n x : length (int_image bigend n x) = n.
Proof. unfold int_image. destruct bigend; by rewrite ?length_rev, little_endian_length. Qed.

Lemma image_value_image n x : 0 <= x < 256 ^ Z.of_nat n -> image_value bigend (int_image bigend n x) = x.
Proof.
  intros Hx. unfold image_value, int_image. destruct bigend; rewrite ?rev_involutive; by apply little_value_endian.
Qed.

Lemma fread_app n s rest : Z.to_nat n = length s -> fread n (s ++ rest) = (s, rest).
Proof. intros H. unfold fread. by rewrite H, take_app_length, drop_app_length. Qed.

(** The names that are restored are added. *)
Definition restored (self : option (list byte)) (names : list (list byte)) : list (list byte) :=
  match self with
  | Some s => filter (fun n => filename_eqb dos n s = false) names
  | None => []
  end.

Definition saved_name (n : list byte) : Prop := n <> [] /\ no_nul n /\ Z.of_nat (length n) < 2 ^ 62.

Lemma save_names_ok names : Forall saved_name names ->
  save_names bigend names = (concat (map (fun n => int_image bigend 8 (Z.of_nat (length n)) ++ n) names), true).
Proof.
  induction 1 as [|n names (Hne & _) _ IH]; [done|]. cbn [save_names map concat]. destruct n; [done|].
  rewrite IH. by rewrite <- app_assoc.
Qed.

Definition rule_deps (r : rule) (names : list (list byte)) : rule :=
  mk_rule (r_targets r) (r_deps r ++ map (short_name dos (r_vpath r)) names) (r_vpath r).

Lemma restore_names_ok self names rest : Forall saved_name names -> forall d r buf_size,
  refines d r -> strings r + Z.of_nat (length names) < 2 ^ 29 -> 0 <= buf_size < 2 ^ 63 ->
  exists d', restore_names dos bigend (length names) d self buf_size
      (concat (map (fun n => int_image bigend 8 (Z.of_nat (length n)) ++ n) names) ++ rest) = Some (d', true, rest) /\
    refines d' (rule_deps r (restored self names)).
Proof.
  induction 1 as [|n names (Hne & Hnul & Hlen) _ IH]; intros d r size Hr Hn Hsize; cbn [restore_names length map concat app].
  { exists d. split; [done|]. unfold rule_deps, restored. destruct r. destruct self; cbn; by rewrite app_nil_r. }
  rewrite <- !app_assoc, fread_app by (by rewrite int_image_length). rewrite int_image_length. cbn [Nat.ltb Nat.leb].
  rewrite image_value_image by lia. rewrite fread_app by lia.
  rewrite (u64_small (Z.of_nat (length n) + 1)) by lia. set (size' := if size <? _ then _ else size).
  assert (Z.of_nat (length n) < size' < 2 ^ 63) as Hsize'.
  { unfold size'. destruct (Z.ltb_spec size (Z.of_nat (length n) + 1)); rewrite ?u64_small by lia; lia. }
  destruct (Z.ltb_spec size' (Z.of_nat (length n))); [lia|]. rewrite Z.ltb_irrefl.
  destruct (Z.leb_spec size' (Z.of_nat (length n))); [lia|]. rewrite c_string_all by done. cbn [length] in Hn.
  assert (exists d1, (match self with Some s => if negb (filename_eqb dos n s) then deps_add_dep dos d n else Some d | None => Some d end)
      = Some d1 /\ refines d1 (rule_deps r (restored self [n]))) as (d1 & -> & Hd1).
  { assert (refines d (rule_deps r [])) as Hnil by (unfold rule_deps; destruct r; cbn; by rewrite app_nil_r).
    destruct self as [s|]; [|by exists d]. unfold restored. destruct (filename_eqb dos n s) eqn:E; cbn [negb].
    - exists d. split; [done|]. rewrite filter_cons_False by (by rewrite E). exact Hnil.
    - rewrite filter_cons_True by done. destruct (add_dep_ok dos d r n) as (d1 & -> & H1); [done|done|lia|]. by exists d1. }
  cbn [mbind option_bind]. destruct (IH d1 (rule_deps r (restored self [n])) size') as (d' & -> & Hd'); [done| |lia|].
  - unfold strings, rule_deps in *. cbn. rewrite length_app, length_map.
    assert (length (restored self [n]) <= 1)%nat by (unfold restored; destruct self; [apply (length_filter _ [n])|cbn; lia]). lia.
  - exists d'. split; [done|]. unfold rule_deps in *. cbn [r_targets r_deps r_vpath] in Hd'. rewrite <- app_assoc, <- map_app in Hd'.
    replace (restored self (n :: names)) with (restored self [n] ++ restored self names); [done|].
    unfold restored. destruct self; [|done]. by rewrite <- list.filter_app.
Qed.
End Saved.

(** A name munge leaves alone, and apply_vpath too. *)
Definition ordinary_name (dos : bool) (n : list byte) : bool :=
  forallb (fun c => negb (blank c) && negb (c =? 36) && negb (c =? 35)) n
  && negb ((peek n =? 46) && IS_DIR_SEPARATOR dos (peek1 n)).

Lemma quote_ordinary p : forallb (fun c => negb (blank c) && negb (c =? 36) && negb (c =? 35)) p = true ->
  forall before, quote_from before p = p.
Proof.
  induction p as [|c p IH]; intros H before; [done|]. cbn [forallb quote_from] in *. apply andb_prop in H as [H Hp].
  apply andb_prop in H as [[H1 H2]%andb_prop H3]. rewrite IH by done. unfold quoted_char.
  apply negb_true_iff in H1, H2, H3. by rewrite H1, H2, H3.
Qed.

Lemma map_quote_ordinary dos names : Forall (fun n => ordinary_name dos n = true) names ->
  map quote (map (short_name dos []) names) = names.
Proof.
  induction 1 as [|n names Hn _ IH]; [done|]. cbn [map]. rewrite IH. f_equal.
  apply andb_prop in Hn as [H1 H2]. apply negb_true_iff in H2. unfold short_name. cbn [vpath_loop].
  assert (forall k, strip_dots dos k n = n) as -> by (intros [|k]; [done|]; cbn [strip_dots]; by rewrite H2).
  by apply quote_ordinary.
Qed.

(** C37: a list of dependencies survives saving and restoring. What deps_save
    writes is read to its last byte by deps_restore, whatever follows it and
    whatever the order of bytes in an integer, without leaving the buffer, and
    the dependencies are again those that were saved, but for the one that is
    to be skipped, provided none of them is empty, begins with "./" or contains
    white space, $ or #. *)
Theorem saved_deps_restored dos bigend d self rest : Forall saved_name (depv d) ->
  Z.of_nat (length (depv d)) < 2 ^ 29 -> Forall (fun n => ordinary_name dos n = true) (depv d) ->
  (deps_save bigend d).2 = true /\
  exists d', deps_restore dos bigend deps_init (Some self) ((deps_save bigend d).1 ++ rest) = Some (d', true, rest) /\
    depv d' = filter (fun n => filename_eqb dos n self = false) (depv d).
Proof.
  intros Hs Hn Ho. unfold deps_save, deps_restore. rewrite save_names_ok by done. cbn [fst snd].
  rewrite u32_small by lia. split; [done|].
  rewrite <- app_assoc, fread_app by (by rewrite int_image_length). rewrite int_image_length. cbn [Nat.ltb Nat.leb].
  rewrite image_value_image by lia. rewrite Nat2Z.id.
  destruct (restore_names_ok dos bigend (Some self) (depv d) rest Hs deps_init (mk_rule [] [] []) 512) as (d' & -> & Hd');
    [apply init_refines|change (strings _) with 0; lia|lia|].
  exists d'. split; [done|]. rewrite (rf_deps _ _ Hd'). cbn. apply map_quote_ordinary. apply list.Forall_forall. intros n Hin%list_elem_of_filter. destruct Hin as [_ Hin]. exact (proj1 (list.Forall_forall _ _) Ho n Hin).
Qed.

Definition saved_deps : deps :=
  mk_deps [] 0 [bytes "a.c"; bytes "self.gch"; bytes "../inc/b.h"] 8 [] 0.

Lemma saved_deps_restored_witness : exists d',
  deps_restore false true deps_init (Some (bytes "self.gch")) ((deps_save true saved_deps).1 ++ [1; 2]) = Some (d', true, [1; 2]) /\
  depv d' = [bytes "a.c"; bytes "../inc/b.h"].
Proof.
  apply (saved_deps_restored false true saved_deps (bytes "self.gch") [1; 2]); [|done|by repeat constructor].
  repeat (constructor; [split; [done|split; [repeat constructor; discriminate|done]]|]). constructor.
Defined.

(** With other names it does not: the strings are quoted when they are added
    and when they are restored, and an empty one, which deps_add_dep makes of
    "./", fails. *)
Lemma restored_quoted_again : exists d, deps_run false deps_init [AddDep (bytes "a b.h")] = Some d /\
  depv d = [bytes "a\ b.h"] /\
  exists d', deps_restore false false deps_init (Some []) (deps_save false d).1 = Some (d', true, []) /\
    depv d' = [bytes "a\\\ b.h"].
Proof.
  eexists. split; [by vm_compute|]. split; [by vm_compute|]. eexists. split; by vm_compute.
Qed.

Lemma empty_dep_not_saved : exists d, deps_run false deps_init [AddDep (bytes "./")] = Some d /\
  depv d = [[]] /\ (deps_save false d).2 = false.
Proof. eexists. split; [by vm_compute|]. split; by vm_compute. Qed.

(** An empty directory takes the root from an absolute name. *)
Lemma empty_vpath_strips_root : exists d, deps_run false deps_init [AddVpath (bytes ":src"); AddDep (bytes "/usr/x.h")] = Some d /\
  depv d = [bytes "usr/x.h"].
Proof. eexists. split; by vm_compute. Qed.
