(* ===== verification/Files.v ===== *)
(** * Files and the search for headers

    files.c: the search for an included file along a chain of directories, its
    caches, the decision whether a file is read again, and the stack of
    buffers.

    Directories and files are known by their places in two stores.  The
    operating system is a parameter: [os_open] is open and fstat, [os_read] what
    reading yields, [os_realpath] is lrealpath.  The host is not DOS-like.
    Left out are precompiled headers (no valid_pch callback), -remap, the
    [construct] function of a directory, and input that is not UTF-8.  [None]
    is a null pointer that is followed.  FilesSpec has the theorems. *)

From Stdlib Require Import ZArith Lia Bool String Ascii.
From stdpp Require Import base tactics list numbers gmap.
From S2P Require Import Prelude Reader CppNum NumLit Stream LineMap Deps.

Local Open Scope string_scope.
Local Open Scope list_scope.
Local Open Scope Z_scope.

(** ** The operating system *)

Inductive file_kind : Type := Regular | BlockDevice | Directory | OtherKind.

Record stat : Type := mk_stat { st_kind : file_kind; st_mtime : Z; st_size : Z }.

Definition no_stat : stat := mk_stat OtherKind 0 0.

Definition set_size (n : Z) (st : stat) : stat := mk_stat (st_kind st) (st_mtime st) n.

Inductive open_result : Type :=
  | OpenError (errno : Z)
  | StatError (errno : Z)
  | Opened (st : stat).

Definition ENOENT : Z := 2.
Definition ENOTDIR : Z := 20.

(** ** Directories, files and the reader *)

Record cpp_dir : Type := mk_dir {
  d_next : option nat;
  d_name : list byte;
  d_sysp : Z
}.

(** [f_buffer] is the contents with the number of the allocation; [f_fd] tells
    whether the file is open. *)
Record cpp_file : Type := mk_file {
  f_name : list byte;
  f_path : option (list byte);
  f_buffer : option (nat * list byte);
  f_cmacro : option (list byte);
  f_dir : option nat;
  f_st : stat;
  f_fd : bool;
  f_err_no : Z;
  f_stack_count : Z;
  f_once_only : bool;
  f_dont_read : bool;
  f_main_file : bool;
  f_buffer_valid : bool;
  f_implicit_preinclude : bool
}.

Record buffer : Type := mk_buffer { b_file : nat; b_sysp : Z; b_to_free : nat }.

Record dep_options : Type := mk_depopts {
  deps_style : Z;
  ignore_main_file : bool;
  missing_files : bool;
  need_preprocessor_output : bool
}.

(** An entry of the file hash: where the search began and what it found. *)
Record files : Type := mk_files {
  dirs : list cpp_dir;
  store : list cpp_file;
  all_files : list nat;
  file_hash : gmap (list Z) (list (option nat * nat));
  dir_hash : gmap (list Z) nat;
  nonexistent_file_hash : gset (list Z);
  quote_include : option nat;
  bracket_include : option nat;
  quote_ignores_source_dir : bool;
  seen_once_only : bool;
  buffers : list buffer;
  main_file : option nat;
  mi_cmacro : option (list byte);
  mi_valid : bool;
  in_has_include : bool;
  after_first_line : bool;
  file_deps : deps;
  allocations : nat;
  file_diags : list diag
}.

(** [no_search_path], the directory of names that are not searched for. *)
Definition no_search_path : nat := 0.

Definition F (A : Type) : Type := files -> option (A * files).

#[export] Instance F_ret : MRet F := fun A x s => Some (x, s).

Definition bindF {A B} (m : F A) (f : A -> F B) : F B := fun s =>
  match m s with Some (x, s) => f x s | None => None end.

Notation "x ←f m ;; k" := (bindF m (fun x => k))
  (at level 100, m at next level, k at level 200, right associativity).
Notation "m ;;f k" := (bindF m (fun _ => k))
  (at level 100, k at level 200, right associativity).

Definition getF {A} (f : files -> A) : F A := fun s => Some (f s, s).
Definition modF (f : files -> files) : F unit := fun s => Some (tt, f s).
Definition crashF {A} : F A := fun _ => None.
Definition whenF (b : bool) (m : F unit) : F unit := if b then m else mret tt.
Definition ptr {A} (x : option A) : F A := match x with Some x => mret x | None => crashF end.

Definition set_store (l : list cpp_file) (s : files) : files :=
  mk_files (dirs s) l (all_files s) (file_hash s) (dir_hash s) (nonexistent_file_hash s) (quote_include s)
    (bracket_include s) (quote_ignores_source_dir s) (seen_once_only s) (buffers s) (main_file s) (mi_cmacro s)
    (mi_valid s) (in_has_include s) (after_first_line s) (file_deps s) (allocations s) (file_diags s).
Definition set_all (l : list nat) (s : files) : files :=
  mk_files (dirs s) (store s) l (file_hash s) (dir_hash s) (nonexistent_file_hash s) (quote_include s)
    (bracket_include s) (quote_ignores_source_dir s) (seen_once_only s) (buffers s) (main_file s) (mi_cmacro s)
    (mi_valid s) (in_has_include s) (after_first_line s) (file_deps s) (allocations s) (file_diags s).
Definition set_hash (h : gmap (list Z) (list (option nat * nat))) (s : files) : files :=
  mk_files (dirs s) (store s) (all_files s) h (dir_hash s) (nonexistent_file_hash s) (quote_include s)
    (bracket_include s) (quote_ignores_source_dir s) (seen_once_only s) (buffers s) (main_file s) (mi_cmacro s)
    (mi_valid s) (in_has_include s) (after_first_line s) (file_deps s) (allocations s) (file_diags s).
Definition set_dirs (l : list cpp_dir) (h : gmap (list Z) nat) (s : files) : files :=
  mk_files l (store s) (all_files s) (file_hash s) h (nonexistent_file_hash s) (quote_include s)
    (bracket_include s) (quote_ignores_source_dir s) (seen_once_only s) (buffers s) (main_file s) (mi_cmacro s)
    (mi_valid s) (in_has_include s) (after_first_line s) (file_deps s) (allocations s) (file_diags s).
Definition set_nonexistent (h : gset (list Z)) (s : files) : files :=
  mk_files (dirs s) (store s) (all_files s) (file_hash s) (dir_hash s) h (quote_include s)
    (bracket_include s) (quote_ignores_source_dir s) (seen_once_only s) (buffers s) (main_file s) (mi_cmacro s)
    (mi_valid s) (in_has_include s) (after_first_line s) (file_deps s) (allocations s) (file_diags s).
Definition set_chains (q b : option nat) (i : bool) (s : files) : files :=
  mk_files (dirs s) (store s) (all_files s) (file_hash s) (dir_hash s) (nonexistent_file_hash s) q
    b i (seen_once_only s) (buffers s) (main_file s) (mi_cmacro s)
    (mi_valid s) (in_has_include s) (after_first_line s) (file_deps s) (allocations s) (file_diags s).
Definition set_seen (b : bool) (s : files) : files :=
  mk_files (dirs s) (store s) (all_files s) (file_hash s) (dir_hash s) (nonexistent_file_hash s) (quote_include s)
    (bracket_include s) (quote_ignores_source_dir s) b (buffers s) (main_file s) (mi_cmacro s)
    (mi_valid s) (in_has_include s) (after_first_line s) (file_deps s) (allocations s) (file_diags s).
Definition set_buffers (l : list buffer) (s : files) : files :=
  mk_files (dirs s) (store s) (all_files s) (file_hash s) (dir_hash s) (nonexistent_file_hash s) (quote_include s)
    (bracket_include s) (quote_ignores_source_dir s) (seen_once_only s) l (main_file s) (mi_cmacro s)
    (mi_valid s) (in_has_include s) (after_first_line s) (file_deps s) (allocations s) (file_diags s).
Definition set_main (m : option nat) (s : files) : files :=
  mk_files (dirs s) (store s) (all_files s) (file_hash s) (dir_hash s) (nonexistent_file_hash s) (quote_include s)
    (bracket_include s) (quote_ignores_source_dir s) (seen_once_only s) (buffers s) m (mi_cmacro s)
    (mi_valid s) (in_has_include s) (after_first_line s) (file_deps s) (allocations s) (file_diags s).
Definition set_macro (c : option (list byte)) (v : bool) (s : files) : files :=
  mk_files (dirs s) (store s) (all_files s) (file_hash s) (dir_hash s) (nonexistent_file_hash s) (quote_include s)
    (bracket_include s) (quote_ignores_source_dir s) (seen_once_only s) (buffers s) (main_file s) c
    v (in_has_include s) (after_first_line s) (file_deps s) (allocations s) (file_diags s).
Definition set_in_has (b : bool) (s : files) : files :=
  mk_files (dirs s) (store s) (all_files s) (file_hash s) (dir_hash s) (nonexistent_file_hash s) (quote_include s)
    (bracket_include s) (quote_ignores_source_dir s) (seen_once_only s) (buffers s) (main_file s) (mi_cmacro s)
    (mi_valid s) b (after_first_line s) (file_deps s) (allocations s) (file_diags s).
Definition set_after_first (b : bool) (s : files) : files :=
  mk_files (dirs s) (store s) (all_files s) (file_hash s) (dir_hash s) (nonexistent_file_hash s) (quote_include s)
    (bracket_include s) (quote_ignores_source_dir s) (seen_once_only s) (buffers s) (main_file s) (mi_cmacro s)
    (mi_valid s) (in_has_include s) b (file_deps s) (allocations s) (file_diags s).
Definition set_deps (d : deps) (s : files) : files :=
  mk_files (dirs s) (store s) (all_files s) (file_hash s) (dir_hash s) (nonexistent_file_hash s) (quote_include s)
    (bracket_include s) (quote_ignores_source_dir s) (seen_once_only s) (buffers s) (main_file s) (mi_cmacro s)
    (mi_valid s) (in_has_include s) (after_first_line s) d (allocations s) (file_diags s).
Definition set_allocations (n : nat) (s : files) : files :=
  mk_files (dirs s) (store s) (all_files s) (file_hash s) (dir_hash s) (nonexistent_file_hash s) (quote_include s)
    (bracket_include s) (quote_ignores_source_dir s) (seen_once_only s) (buffers s) (main_file s) (mi_cmacro s)
    (mi_valid s) (in_has_include s) (after_first_line s) (file_deps s) n (file_diags s).
Definition add_file_diags (d : list diag) (s : files) : files :=
  mk_files (dirs s) (store s) (all_files s) (file_hash s) (dir_hash s) (nonexistent_file_hash s) (quote_include s)
    (bracket_include s) (quote_ignores_source_dir s) (seen_once_only s) (buffers s) (main_file s) (mi_cmacro s)
    (mi_valid s) (in_has_include s) (after_first_line s) (file_deps s) (allocations s) (file_diags s ++ d).

Definition emitF (w : W unit) : F unit := modF (add_file_diags (fst w)).

(** *** The fields of a file *)

Definition set_path (p : option (list byte)) (f : cpp_file) : cpp_file :=
  mk_file (f_name f) p (f_buffer f) (f_cmacro f) (f_dir f) (f_st f) (f_fd f) (f_err_no f) (f_stack_count f)
    (f_once_only f) (f_dont_read f) (f_main_file f) (f_buffer_valid f) (f_implicit_preinclude f).
Definition set_contents (b : option (nat * list byte)) (v : bool) (f : cpp_file) : cpp_file :=
  mk_file (f_name f) (f_path f) b (f_cmacro f) (f_dir f) (f_st f) (f_fd f) (f_err_no f) (f_stack_count f)
    (f_once_only f) (f_dont_read f) (f_main_file f) v (f_implicit_preinclude f).
Definition set_cmacro (c : option (list byte)) (f : cpp_file) : cpp_file :=
  mk_file (f_name f) (f_path f) (f_buffer f) c (f_dir f) (f_st f) (f_fd f) (f_err_no f) (f_stack_count f)
    (f_once_only f) (f_dont_read f) (f_main_file f) (f_buffer_valid f) (f_implicit_preinclude f).
Definition set_dir (d : option nat) (f : cpp_file) : cpp_file :=
  mk_file (f_name f) (f_path f) (f_buffer f) (f_cmacro f) d (f_st f) (f_fd f) (f_err_no f) (f_stack_count f)
    (f_once_only f) (f_dont_read f) (f_main_file f) (f_buffer_valid f) (f_implicit_preinclude f).
Definition set_opened (st : stat) (fd : bool) (err : Z) (f : cpp_file) : cpp_file :=
  mk_file (f_name f) (f_path f) (f_buffer f) (f_cmacro f) (f_dir f) st fd err (f_stack_count f)
    (f_once_only f) (f_dont_read f) (f_main_file f) (f_buffer_valid f) (f_implicit_preinclude f).
Definition set_stack_count (n : Z) (f : cpp_file) : cpp_file :=
  mk_file (f_name f) (f_path f) (f_buffer f) (f_cmacro f) (f_dir f) (f_st f) (f_fd f) (f_err_no f) n
    (f_once_only f) (f_dont_read f) (f_main_file f) (f_buffer_valid f) (f_implicit_preinclude f).
Definition set_once_only (f : cpp_file) : cpp_file :=
  mk_file (f_name f) (f_path f) (f_buffer f) (f_cmacro f) (f_dir f) (f_st f) (f_fd f) (f_err_no f) (f_stack_count f)
    true (f_dont_read f) (f_main_file f) (f_buffer_valid f) (f_implicit_preinclude f).
Definition set_dont_read (b : bool) (f : cpp_file) : cpp_file :=
  mk_file (f_name f) (f_path f) (f_buffer f) (f_cmacro f) (f_dir f) (f_st f) (f_fd f) (f_err_no f) (f_stack_count f)
    (f_once_only f) b (f_main_file f) (f_buffer_valid f) (f_implicit_preinclude f).

(** The file at a place, and an update of it. *)
Definition file_at (i : nat) : F cpp_file := f ←f getF (fun s => store s !! i) ;; ptr f.
Definition mod_file (i : nat) (g : cpp_file -> cpp_file) : F unit :=
  modF (fun s => set_store (alter g i (store s)) s).
Definition dir_at (d : nat) : F cpp_dir := x ←f getF (fun s => dirs s !! d) ;; ptr x.

Section Search.
Context (os_open : list byte -> open_result) (os_read : list byte -> option (list byte)).
Context (os_realpath : list byte -> option (list byte)).
Context (missing_header : option (list byte -> option (list byte) * option nat)).
Context (canonical_system_headers : bool) (dopts : dep_options).

(** ** Opening and reading *)

Definition open_file (i : nat) : F bool :=
  f ←f file_at i ;;
  path ←f ptr (f_path f) ;;
  match os_open path with
  | Opened st =>
      match st_kind st with
      | Directory => mod_file i (set_opened st false ENOENT) ;;f mret false
      | _ => mod_file i (set_opened st true 0) ;;f mret true
      end
  | StatError e => mod_file i (set_opened (f_st f) false e) ;;f mret false
  | OpenError e =>
      mod_file i (set_opened (f_st f) false (if e =? ENOTDIR then ENOENT else e)) ;;f mret false
  end.

Definition errno_filename (l : cpp_diagnostic_level) : F unit := emitF (cpp_error l "%s: %s").

Definition dep_on (path : list byte) : F unit :=
  d ←f getF file_deps ;;
  d ←f ptr (deps_add_dep false d path) ;;
  modF (set_deps d).

Definition open_file_failed (i : nat) (angle_brackets : bool) : F unit :=
  f ←f file_at i ;;
  s ←f getF id ;;
  let sysp := if after_first_line s then match buffers s with b :: _ => b_sysp b | [] => 0 end else 0 in
  let print_dep := b2z (angle_brackets || negb (sysp =? 0)) <? deps_style dopts in
  if in_has_include s then mret tt
  else if print_dep && missing_files dopts && (f_err_no f =? ENOENT) then
    dep_on (f_name f) ;;f
    whenF (need_preprocessor_output dopts) (errno_filename CPP_DL_FATAL)
  else if (deps_style dopts =? 0) || print_dep || need_preprocessor_output dopts
  then errno_filename CPP_DL_FATAL else errno_filename CPP_DL_WARNING.

(** What _cpp_convert_input makes of text that needs no conversion: a byte
    order mark is left out. *)
Definition _cpp_convert_input (text : list byte) : list byte :=
  match text with
  | 239 :: 187 :: 191 :: rest => rest
  | _ => text
  end.

Definition SSIZE_MAX : Z := 2 ^ 63 - 1.

(** A regular file is read up to the size it had when it was opened. *)
Definition read_file_guts (i : nat) : F bool :=
  f ←f file_at i ;;
  path ←f ptr (f_path f) ;;
  match st_kind (f_st f) with
  | BlockDevice => emitF (cpp_error CPP_DL_ERROR "%s is a block device") ;;f mret false
  | k =>
      let regular := match k with Regular => true | _ => false end in
      if regular && (SSIZE_MAX <? st_size (f_st f)) then
        emitF (cpp_error CPP_DL_ERROR "%s is too large") ;;f mret false
      else
        match os_read path with
        | None => errno_filename CPP_DL_ERROR ;;f mret false
        | Some all =>
            let text := if regular then take (Z.to_nat (st_size (f_st f))) all else all in
            whenF (regular && negb (Z.of_nat (length text) =? st_size (f_st f)))
              (emitF (cpp_error CPP_DL_WARNING "%s is shorter than expected")) ;;f
            n ←f getF allocations ;;
            modF (set_allocations (S n)) ;;f
            let text := _cpp_convert_input text in
            mod_file i (fun f => set_contents (Some (n, text)) true
                                   (set_opened (set_size (Z.of_nat (length text)) (f_st f)) (f_fd f) (f_err_no f) f)) ;;f
            mret true
        end
  end.

Definition read_file (i : nat) : F bool :=
  f ←f file_at i ;;
  if f_buffer_valid f then mret true
  else if f_dont_read f || negb (f_err_no f =? 0) then mret false
  else
    ok ←f (if f_fd f then mret true else open_file i) ;;
    if ok : bool then
      r ←f read_file_guts i ;;
      mod_file i (fun f => set_opened (f_st f) false (f_err_no f) (set_dont_read (negb r) f)) ;;f
      mret r
    else open_file_failed i false ;;f mret false.

(** ** The search *)

Definition append_file_to_dir (fname : list byte) (dir : cpp_dir) : list byte :=
  d_name dir
  ++ match last (d_name dir) with
     | Some c => if IS_DIR_SEPARATOR false c then [] else [47]
     | None => []
     end
  ++ fname.

(** The canonical name, if it is shorter. *)
Definition maybe_shorter_path (path : list byte) : option (list byte) :=
  match os_realpath path with
  | Some p => if (length p <? length path)%nat then Some p else None
  | None => None
  end.

Definition header_path (fname : list byte) (dir : cpp_dir) : list byte :=
  let path := append_file_to_dir fname dir in
  if canonical_system_headers && negb (d_sysp dir =? 0) then default path (maybe_shorter_path path) else path.

Definition find_file_in_dir (i : nat) : F bool :=
  f ←f file_at i ;;
  d ←f ptr (f_dir f) ;;
  dir ←f dir_at d ;;
  let path := header_path (f_name f) dir in
  known ←f getF (fun s => bool_decide (path ∈ nonexistent_file_hash s)) ;;
  if known : bool then
    mod_file i (set_opened (f_st f) (f_fd f) ENOENT) ;;f mret false
  else
    mod_file i (set_path (Some path)) ;;f
    ok ←f open_file i ;;
    if ok : bool then mret true
    else
      f ←f file_at i ;;
      if negb (f_err_no f =? ENOENT) then open_file_failed i false ;;f mret true
      else
        modF (fun s => set_nonexistent ({[path]} ∪ nonexistent_file_hash s) s) ;;f
        mod_file i (set_path (Some (f_name f))) ;;f
        mret false.

(** Only with a directory of NULL, at the end of the chain. *)
Definition search_path_exhausted (header : list byte) (i : nat) : F bool :=
  match missing_header with
  | None => mret false
  | Some func =>
      f ←f file_at i ;;
      match f_dir f with
      | Some _ => mret false
      | None =>
          let '(path, dir) := func header in
          mod_file i (fun f => set_dir dir (set_path path f)) ;;f
          ok ←f match path with Some _ => open_file i | None => mret false end ;;
          if ok : bool then mret true
          else mod_file i (fun f => set_path (Some (f_name f)) f) ;;f mret false
      end
  end.

Fixpoint search_cache (head : list (option nat * nat)) (start_dir : option nat) : option nat :=
  match head with
  | [] => None
  | (d, i) :: head => if bool_decide (d = start_dir) then Some i else search_cache head start_dir
  end.

Definition make_cpp_file (dir : option nat) (fname : list byte) : F nat :=
  s ←f getF id ;;
  let main := match buffers s with [] => true | _ => false end in
  modF (set_store (store s ++ [mk_file fname None None None dir no_stat false 0 0 false false main false false])) ;;f
  mret (length (store s)).

Definition hash_slot (fname : list byte) (s : files) : list (option nat * nat) := default [] (file_hash s !! fname).

Definition new_entry (fname : list byte) (start_dir : option nat) (i : nat) : F unit :=
  modF (fun s => set_hash (<[fname := (start_dir, i) :: hash_slot fname s]> (file_hash s)) s).

(** How the search along the chain ended. *)
Inductive search_end : Type :=
  | Stopped
  | InCache (i : nat) (head : option nat)
  | ByCallback
  | NoPreinclude.

(** The loop of _cpp_find_file; [saw] are the chain heads that were passed,
    first the bracket chain, then the quote chain. *)
Fixpoint find_loop (fuel : nat) (fname : list byte) (i : nat) (angle_brackets implicit : bool) (saw : bool * bool)
  : F (search_end * (bool * bool)) :=
  match fuel with
  | O => crashF
  | S fuel =>
      found ←f find_file_in_dir i ;;
      if found : bool then mret (Stopped, saw)
      else
        f ←f file_at i ;;
        d ←f ptr (f_dir f) ;;
        dir ←f dir_at d ;;
        mod_file i (set_dir (d_next dir)) ;;f
        match d_next dir with
        | None =>
            ok ←f search_path_exhausted fname i ;;
            if ok : bool then mret (ByCallback, saw)
            else if implicit then mret (NoPreinclude, saw)
            else open_file_failed i angle_brackets ;;f mret (Stopped, saw)
        | Some d =>
            s ←f getF id ;;
            let next saw :=
              match search_cache (hash_slot fname s) (Some d) with
              | Some j => mret (InCache j (Some d), saw)
              | None => find_loop fuel fname i angle_brackets implicit saw
              end in
            if bool_decide (bracket_include s = Some d) then next (true, saw.2)
            else if bool_decide (quote_include s = Some d) then next (saw.1, true)
            else find_loop fuel fname i angle_brackets implicit saw
        end
  end.

(** The result of a search is recorded, also for the chain heads passed. *)
Definition record_search (fname : list byte) (start_dir : option nat) (i : nat) (saw : bool * bool)
  (found_in_cache : option nat) : F unit :=
  s ←f getF id ;;
  new_entry fname start_dir i ;;f
  whenF (saw.1 && negb (bool_decide (bracket_include s = start_dir)) && negb (bool_decide (found_in_cache = bracket_include s)))
    (new_entry fname (bracket_include s) i) ;;f
  whenF (saw.2 && negb (bool_decide (quote_include s = start_dir)) && negb (bool_decide (found_in_cache = quote_include s)))
    (new_entry fname (quote_include s) i).

Definition _cpp_find_file (fname : list byte) (start_dir : option nat) (fake angle_brackets implicit : bool)
  : F (option nat) :=
  whenF (match start_dir with None => true | Some _ => false end)
    (emitF (cpp_error CPP_DL_ICE "NULL directory in find_file")) ;;f
  s ←f getF id ;;
  match search_cache (hash_slot fname s) start_dir with
  | Some i => mret (Some i)
  | None =>
      i ←f make_cpp_file start_dir fname ;;
      implied ←f match buffers s with
                 | b :: _ => f ←f file_at (b_file b) ;; mret (implicit || f_implicit_preinclude f)
                 | [] => mret implicit
                 end ;;
      mod_file i (fun f => mk_file (f_name f) (f_path f) (f_buffer f) (f_cmacro f) (f_dir f) (f_st f) (f_fd f)
                             (f_err_no f) (f_stack_count f) (f_once_only f) (f_dont_read f) (f_main_file f)
                             (f_buffer_valid f) implied) ;;f
      r ←f (if fake then mret (Stopped, (false, false))
            else find_loop (S (length (dirs s))) fname i angle_brackets implicit (false, false)) ;;
      match r with
      | (ByCallback, _) => modF (fun s => set_all (i :: all_files s) s) ;;f mret (Some i)
      | (NoPreinclude, _) => mret None
      | (InCache j head, saw) => record_search fname start_dir j saw head ;;f mret (Some j)
      | (Stopped, saw) =>
          modF (fun s => set_all (i :: all_files s) s) ;;f
          record_search fname start_dir i saw None ;;f
          mret (Some i)
      end
  end.

(** *** Where a search starts *)

Inductive include_type : Type := IT_INCLUDE | IT_INCLUDE_NEXT | IT_IMPORT | IT_CMDLINE | IT_DEFAULT.

Definition include_type_eqb (a b : include_type) : bool :=
  match a, b with
  | IT_INCLUDE, IT_INCLUDE | IT_INCLUDE_NEXT, IT_INCLUDE_NEXT | IT_IMPORT, IT_IMPORT
  | IT_CMDLINE, IT_CMDLINE | IT_DEFAULT, IT_DEFAULT => true
  | _, _ => false
  end.

Definition IS_ABSOLUTE_PATH (p : list byte) : bool := IS_DIR_SEPARATOR false (peek p).

(** The path up to its last separator. *)
Definition dir_name_of_file (i : nat) : F (list byte) :=
  f ←f file_at i ;;
  path ←f ptr (f_path f) ;;
  mret (take (length path - length (lbasename false path)) path).

Definition make_cpp_dir (dir_name : list byte) (sysp : Z) : F nat :=
  s ←f getF id ;;
  match dir_hash s !! dir_name with
  | Some d => mret d
  | None =>
      let d := length (dirs s) in
      modF (set_dirs (dirs s ++ [mk_dir (quote_include s) dir_name sysp]) (<[dir_name := d]> (dir_hash s))) ;;f
      mret d
  end.

(** The next directory after the one the current file was found in; [None] where
    #include_next has the normal search. *)
Definition next_dir (f : cpp_file) (type : include_type) : F (option (option nat)) :=
  match f_dir f with
  | Some d => if include_type_eqb type IT_INCLUDE_NEXT && negb (d =? no_search_path)%nat
              then dir ←f dir_at d ;; mret (Some (d_next dir)) else mret None
  | None => mret None
  end.

Definition search_path_head (fname : list byte) (angle_brackets : bool) (type : include_type) : F (option nat) :=
  if IS_ABSOLUTE_PATH fname then mret (Some no_search_path)
  else
    s ←f getF id ;;
    file ←f ptr (match buffers s with b :: _ => Some (b_file b) | [] => main_file s end) ;;
    f ←f file_at file ;;
    next ←f next_dir f type ;;
    let finish dir :=
      whenF (match dir with None => true | Some _ => false end)
        (emitF (cpp_error CPP_DL_ERROR "no include path in which to search for %s")) ;;f
      mret dir in
    match next with
    | Some dir => finish dir
    | None =>
        if angle_brackets then finish (bracket_include s)
        else if include_type_eqb type IT_CMDLINE then d ←f make_cpp_dir (bytes "./") 0 ;; mret (Some d)
        else if quote_ignores_source_dir s then finish (quote_include s)
        else
          name ←f dir_name_of_file file ;;
          d ←f make_cpp_dir name (match buffers s with b :: _ => b_sysp b | [] => 0 end) ;;
          mret (Some d)
    end.

(** ** Stacking *)

Definition _cpp_mark_file_once_only (i : nat) : F unit :=
  modF (set_seen true) ;;f mod_file i set_once_only.

(** Whether a file that was seen before has the same contents. *)
Definition same_contents (f i : nat) : F bool :=
  a ←f file_at f ;;
  let stacked := match f_buffer a with Some _ => negb (f_buffer_valid a) | None => false end in
  ref ←f (if stacked then
            r ←f make_cpp_file (f_dir a) (f_name a) ;;
            mod_file r (set_path (f_path a)) ;;f mret r
          else mret f) ;;
  ok ←f read_file ref ;;
  if ok : bool then
    r ←f file_at ref ;;
    g ←f file_at i ;;
    match f_buffer r, f_buffer g with
    | Some (_, x), Some (_, y) => mret ((st_size (f_st r) =? st_size (f_st g)) && bool_decide (x = y))
    | _, _ => crashF
    end
  else mret false.

Fixpoint seen_before (all : list nat) (i : nat) (import : bool) : F bool :=
  match all with
  | [] => mret false
  | f :: all =>
      if (f =? i)%nat then seen_before all i import
      else
        a ←f file_at f ;;
        g ←f file_at i ;;
        if (import || f_once_only a) && (f_err_no a =? 0) && (st_mtime (f_st a) =? st_mtime (f_st g))
           && (st_size (f_st a) =? st_size (f_st g))
        then same ←f same_contents f i ;; if same : bool then mret true else seen_before all i import
        else seen_before all i import
  end.

(** [macro_p] tells which names are macros. *)
Definition should_stack_file (macro_p : list byte -> bool) (i : nat) (import : bool) : F bool :=
  f ←f file_at i ;;
  if f_once_only f then mret false
  else
    whenF import (_cpp_mark_file_once_only i) ;;f
    if import && negb (f_stack_count f =? 0) then mret false
    else if match f_cmacro f with Some m => macro_p m | None => false end then mret false
    else
      ok ←f read_file i ;;
      if ok : bool then
        s ←f getF id ;;
        if negb (seen_once_only s) then mret true
        else seen ←f seen_before (all_files s) i import ;; mret (negb seen)
      else mret false.

Definition _cpp_stack_file (macro_p : list byte -> bool) (i : nat) (import : bool) : F bool :=
  ok ←f should_stack_file macro_p i import ;;
  if ok : bool then
    f ←f file_at i ;;
    s ←f getF id ;;
    sysp ←f match buffers s, f_dir f with
            | b :: _, Some d => dir ←f dir_at d ;; mret (Z.max (b_sysp b) (d_sysp dir))
            | _, _ => mret 0
            end ;;
    whenF ((b2z (negb (sysp =? 0)) <? deps_style dopts) && (f_stack_count f =? 0)
           && negb (f_main_file f && ignore_main_file dopts))
      (path ←f ptr (f_path f) ;; dep_on path) ;;f
    b ←f ptr (f_buffer f) ;;
    mod_file i (fun f => set_stack_count ((f_stack_count f + 1) mod 2 ^ 16) (set_contents (f_buffer f) false f)) ;;f
    modF (fun s => set_buffers (mk_buffer i sysp b.1 :: buffers s) s) ;;f
    modF (set_macro None true) ;;f
    mret true
  else mret false.

Definition _cpp_stack_include (macro_p : list byte -> bool) (fname : list byte) (angle_brackets : bool)
  (type : include_type) : F bool :=
  dir ←f search_path_head fname angle_brackets type ;;
  match dir with
  | None => mret false
  | Some _ =>
      file ←f _cpp_find_file fname dir false angle_brackets (include_type_eqb type IT_DEFAULT) ;;
      match file with
      | None => if include_type_eqb type IT_DEFAULT then mret false else crashF
      | Some i => _cpp_stack_file macro_p i (include_type_eqb type IT_IMPORT)
      end
  end.

(** The files of the command line, and the one that is included at the start. *)
Definition cpp_push_include (macro_p : list byte -> bool) (fname : list byte) : F bool :=
  _cpp_stack_include macro_p fname false IT_CMDLINE.
Definition cpp_push_default_include (macro_p : list byte -> bool) (fname : list byte) : F bool :=
  _cpp_stack_include macro_p fname true IT_DEFAULT.

(** The buffer on top is left: _cpp_pop_file_buffer. *)
Definition _cpp_pop_file_buffer (i to_free : nat) : F unit :=
  s ←f getF id ;;
  f ←f file_at i ;;
  whenF (mi_valid s && match f_cmacro f with None => true | Some _ => false end) (mod_file i (set_cmacro (mi_cmacro s))) ;;f
  modF (fun s => set_macro (mi_cmacro s) false s) ;;f
  whenF (match f_buffer f with Some (n, _) => (n =? to_free)%nat | None => false end)
    (mod_file i (set_contents None false)).

Definition _cpp_pop_buffer : F unit :=
  s ←f getF id ;;
  match buffers s with
  | [] => crashF
  | b :: bs => modF (set_buffers bs) ;;f _cpp_pop_file_buffer (b_file b) (b_to_free b)
  end.

(** ** Queries *)

Definition _cpp_has_header (fname : list byte) (angle_brackets : bool) (type : include_type) : F bool :=
  start_dir ←f search_path_head fname angle_brackets type ;;
  file ←f _cpp_find_file fname start_dir false angle_brackets false ;;
  i ←f ptr file ;;
  f ←f file_at i ;;
  mret (negb (f_err_no f =? ENOENT)).

Definition _cpp_fake_include (fname : list byte) : F unit :=
  s ←f getF id ;;
  b ←f ptr (head (buffers s)) ;;
  f ←f file_at (b_file b) ;;
  _cpp_find_file fname (f_dir f) true false false ;;f
  mret tt.

Fixpoint any_opened (entries : list (option nat * nat)) : F bool :=
  match entries with
  | [] => mret false
  | (None, _) :: entries => any_opened entries
  | (Some _, i) :: entries =>
      f ←f file_at i ;; if f_err_no f =? 0 then mret true else any_opened entries
  end.
Definition cpp_included (fname : list byte) : F bool := s ←f getF (hash_slot fname) ;; any_opened s.

Definition _cpp_compare_file_date (fname : list byte) (angle_brackets : bool) : F Z :=
  dir ←f search_path_head fname angle_brackets IT_INCLUDE ;;
  match dir with
  | None => mret (-1)
  | Some _ =>
      file ←f _cpp_find_file fname dir false angle_brackets false ;;
      i ←f ptr file ;;
      f ←f file_at i ;;
      if negb (f_err_no f =? 0) then mret (-1)
      else
        mod_file i (fun f => set_opened (f_st f) false (f_err_no f) f) ;;f
        s ←f getF id ;;
        b ←f ptr (head (buffers s)) ;;
        g ←f file_at (b_file b) ;;
        f ←f file_at i ;;
        mret (b2z (st_mtime (f_st g) <? st_mtime (f_st f)))
  end.

(** The main file; the original name that a preprocessed file begins with is left
    out. *)
Definition default_target (fname : list byte) : F unit :=
  d ←f getF file_deps ;;
  d ←f ptr (deps_add_default_target false d fname) ;;
  modF (set_deps d).

Definition cpp_read_main_file (macro_p : list byte -> bool) (fname : list byte) : F bool :=
  whenF (negb (deps_style dopts =? 0)) (default_target fname) ;;f
  file ←f _cpp_find_file fname (Some no_search_path) false false false ;;
  i ←f ptr file ;;
  modF (set_main (Some i)) ;;f
  f ←f file_at i ;;
  if negb (f_err_no f =? 0) then mret false
  else _cpp_stack_file macro_p i false ;;f mret true.
End Search.

(** ** The include chains *)

(** The directories of a client's quote chain, one after the other, behind
    [no_search_path]. *)
Fixpoint chain_dirs (n : nat) (ds : list (list byte * Z)) : list cpp_dir :=
  match ds with
  | [] => []
  | (name, sysp) :: ds =>
      mk_dir (match ds with [] => None | _ => Some (S n) end) name sysp :: chain_dirs (S n) ds
  end.

Fixpoint in_chain (fuel : nat) (ds : list cpp_dir) (d : option nat) (x : nat) : bool :=
  match fuel, d with
  | S fuel, Some d => (d =? x)%nat || match ds !! d with Some dir => in_chain fuel ds (d_next dir) x | None => false end
  | _, _ => false
  end.

Definition cpp_set_include_chains (quote bracket : option nat) (ignores : bool) (s : files) : files :=
  let b := match bracket with
           | Some x => if in_chain (length (dirs s)) (dirs s) quote x then bracket else quote
           | None => quote
           end in
  set_chains quote b ignores s.

(** A new reader: the directories of the quote chain, the number of those that
    only quoted names are searched in. *)
Definition new_files (chain : list (list byte * Z)) (quotes : nat) (ignores : bool) : files :=
  let dirs := mk_dir None [] 0 :: chain_dirs 1 chain in
  cpp_set_include_chains (match chain with [] => None | _ => Some 1%nat end) (Some (S quotes)) ignores
    (mk_files dirs [] [] ∅ ∅ ∅ None None false false [] None None false false false deps_init 0 []).
