(* ===== verification/FilesSpec.v ===== *)
(** * The search for headers is a walk along the chain

    The theorems of Files: what a search finds does not depend on the caches,
    and a file that is to be included once is not stacked again.  The file
    system stays as it is while the reader runs (the parameters of Files are
    functions), and no client provides a missing_header callback. *)

From Stdlib Require Import ZArith Lia Bool String Ascii.
From stdpp Require Import base tactics list numbers gmap.
From S2P Require Import Prelude Reader CppNum NumLit Stream LineMap Deps Files.

Local Open Scope string_scope.
Local Open Scope list_scope.
Local Open Scope Z_scope.

(** ** What holds after a run

    [fails] says what is to hold where the code follows a null pointer: [True]
    for a statement about the runs that return, [False] for one that also says
    that the run returns. *)

Section Post.
Context (fails : Prop).

Definition post {A} (m : F A) (s : files) (Q : A -> files -> Prop) : Prop :=
  match m s with Some (x, s') => Q x s' | None => fails end.

Lemma files_ret {A} (x : A) s (Q : A -> files -> Prop) : Q x s -> post (mret x) s Q.
Proof. done. Qed.

Lemma files_bind {A B} (m : F A) (k : A -> F B) s Q :
  post m s (fun x s' => post (k x) s' Q) -> post (bindF m k) s Q.
Proof. unfold post, bindF. by destruct (m s) as [[x s']|]. Qed.

Lemma files_mono {A} (m : F A) s (Q Q' : A -> files -> Prop) :
  post m s Q -> (forall x s', Q x s' -> Q' x s') -> post m s Q'.
Proof. unfold post. destruct (m s) as [[x s']|]; auto. Qed.

Lemma files_eq {A} (m : F A) s (Q : A -> files -> Prop) :
  post m s Q -> post m s (fun x s' => m s = Some (x, s') /\ Q x s').
Proof. unfold post. by destruct (m s) as [[x s']|]. Qed.

Lemma files_get {A} (f : files -> A) s (Q : A -> files -> Prop) : Q (f s) s -> post (getF f) s Q.
Proof. done. Qed.

Lemma files_mod f s (Q : unit -> files -> Prop) : Q tt (f s) -> post (modF f) s Q.
Proof. done. Qed.

Lemma files_when b m s (Q : unit -> files -> Prop) :
  (b = true -> post m s Q) -> (b = false -> Q tt s) -> post (whenF b m) s Q.
Proof. destruct b; intros H1 H2; [by apply H1 | by apply H2]. Qed.

Lemma files_ptr {A} (x : option A) s (Q : A -> files -> Prop) :
  (forall a, x = Some a -> Q a s) -> (x = None -> fails) -> post (ptr x) s Q.
Proof. destruct x; intros H1 H2; [by apply H1 | by apply H2]. Qed.

Lemma files_file_at i f s (Q : cpp_file -> files -> Prop) :
  store s !! i = Some f -> Q f s -> post (file_at i) s Q.
Proof. intros E H. unfold post, file_at, bindF, getF, ptr. by rewrite E. Qed.

Lemma files_dir_at i d s (Q : cpp_dir -> files -> Prop) :
  dirs s !! i = Some d -> Q d s -> post (dir_at i) s Q.
Proof. intros E H. unfold post, dir_at, bindF, getF, ptr. by rewrite E. Qed.
End Post.

Lemma files_runs {A} (m : F A) s Q : post False m s Q -> exists x s', m s = Some (x, s') /\ Q x s'.
Proof. unfold post. destruct (m s) as [[x s']|]; [eauto | done]. Qed.

Lemma files_returns {A} (m : F A) s Q x s' : post True m s Q -> m s = Some (x, s') -> Q x s'.
Proof. unfold post. intros H E. by rewrite E in H. Qed.

(** ** The search, without caches *)

Section Spec.
Context (os_open : list byte -> open_result) (os_read : list byte -> option (list byte)).
Context (os_realpath : list byte -> option (list byte)).
Context (canonical_system_headers : bool) (dopts : dep_options).

(** The error that opening a path yields; a directory is no file. *)
Definition probe (path : list byte) : Z :=
  match os_open path with
  | Opened st => match st_kind st with Directory => ENOENT | _ => 0 end
  | StatError e => e
  | OpenError e => if e =? ENOTDIR then ENOENT else e
  end.

Notation dir_path := (Files.header_path os_realpath canonical_system_headers).

(** The first directory of the chain in which the name can be opened, or cannot
    for another reason than that it is not there: the error, the path and the
    directory. *)
Fixpoint search (fuel : nat) (ds : list cpp_dir) (fname : list byte) (d : option nat)
  : Z * option (list byte * nat) :=
  match fuel, d with
  | S fuel, Some d =>
      match ds !! d with
      | Some dir =>
          let path := dir_path fname dir in
          if probe path =? ENOENT then search fuel ds fname (d_next dir) else (probe path, Some (path, d))
      | None => (ENOENT, None)
      end
  | _, _ => (ENOENT, None)
  end.

(** What a file of the reader says of the search that made it. *)
Definition outcome (f : cpp_file) : Z * option (list byte * nat) :=
  (f_err_no f, match f_dir f, f_path f with Some d, Some p => Some (p, d) | _, _ => None end).

(** The chains: the client's directories are those before [k], each leads to one
    further down; the directories of including files lead to a client's one. *)
Definition dirs_ok (k : nat) (ds : list cpp_dir) : Prop :=
  (0 < k <= length ds)%nat /\
  forall d dir d', ds !! d = Some dir -> d_next dir = Some d' -> (d' < k /\ (d < k -> d < d'))%nat.

Definition rank (k d : nat) : nat := if (d <? k)%nat then k - d else S k.

Lemma rank_next k ds d dir d' : dirs_ok k ds -> ds !! d = Some dir -> d_next dir = Some d' ->
  (rank k d' < rank k d /\ d' < length ds)%nat.
Proof.
  intros [Hk H] E1 E2. destruct (H _ _ _ E1 E2) as [H1 H2]. unfold rank.
  destruct (Nat.ltb_spec d k), (Nat.ltb_spec d' k); lia.
Qed.

Lemma rank_length k ds d : dirs_ok k ds -> (d < length ds -> rank k d <= length ds)%nat.
Proof. intros [Hk _] H. unfold rank. destruct (Nat.ltb_spec d k); lia. Qed.

(** Neither the fuel nor further directories make a difference. *)
Lemma search_stable k ds more fname fuel1 fuel2 d : dirs_ok k ds ->
  (forall x, d = Some x -> x < length ds /\ rank k x <= fuel1 /\ rank k x <= fuel2)%nat ->
  search fuel1 ds fname d = search fuel2 (ds ++ more) fname d.
Proof.
  intros Hk. revert fuel2 d. induction fuel1 as [|fuel1 IH]; intros fuel2 [d|] H; try by destruct fuel2.
  - destruct (H d eq_refl) as (H1 & H2 & H3). unfold rank in H2. destruct (Nat.ltb_spec d k); lia.
  - destruct (H d eq_refl) as (H1 & H2 & H3).
    destruct fuel2 as [|fuel2]; [unfold rank in H3; destruct (Nat.ltb_spec d k); lia|].
    cbn [search]. destruct (lookup_lt_is_Some_2 ds d H1) as [dir E].
    rewrite lookup_app_l by lia. rewrite E. destruct (_ =? _); [|done]. apply IH.
    intros x Ex. destruct (rank_next _ _ _ _ _ Hk E Ex). lia.
Qed.

Lemma search_step k ds fname d dir : dirs_ok k ds -> ds !! d = Some dir ->
  search (length ds) ds fname (Some d) =
  if probe (dir_path fname dir) =? ENOENT then search (length ds) ds fname (d_next dir)
  else (probe (dir_path fname dir), Some (dir_path fname dir, d)).
Proof.
  intros Hk E. pose proof (lookup_lt_Some _ _ _ E) as Hd.
  transitivity (search (S (length ds)) ds fname (Some d)).
  - rewrite (search_stable k ds [] fname (length ds) (S (length ds))); [by rewrite app_nil_r | done |].
    intros x [= <-]. pose proof (rank_length k ds d Hk Hd). lia.
  - cbn [search]. by rewrite E.
Qed.

(** ** One file *)

Definition regular (k : file_kind) : bool := match k with Regular => true | _ => false end.

(** The text that reading a path yields. *)
Definition text_at (path : list byte) : option (list byte) :=
  match os_open path with
  | Opened st =>
      match st_kind st with
      | BlockDevice | Directory => None
      | k =>
          if regular k && (SSIZE_MAX <? st_size st) then None
          else all ← os_read path;
               Some (_cpp_convert_input (if regular k then take (Z.to_nat (st_size st)) all else all))
      end
  | _ => None
  end.

Definition mtime_at (path : list byte) : option Z :=
  match os_open path with Opened st => Some (st_mtime st) | _ => None end.

(** A file that was opened has the status of its path, but for the size, which
    reading changes. *)
Definition opened_ok (f : cpp_file) : Prop :=
  f_err_no f = 0 ->
  exists p st, f_path f = Some p /\ os_open p = Opened st /\ st_kind st <> Directory
    /\ st_kind (f_st f) = st_kind st /\ st_mtime (f_st f) = st_mtime st
    /\ (f_fd f = true -> f_st f = st)
    /\ (f_buffer_valid f = true ->
        exists n t, f_buffer f = Some (n, t) /\ text_at p = Some t /\ st_size (f_st f) = Z.of_nat (length t))
    /\ (f_dont_read f = true -> text_at p = None).

(** The size of a file that was read, or cannot be, is that of its text. *)
Definition sized (f : cpp_file) : Prop :=
  f_err_no f = 0 -> forall p t, f_path f = Some p -> text_at p = Some t -> st_size (f_st f) = Z.of_nat (length t).

(** Two states of one file. *)
Record alike (f g : cpp_file) : Prop := {
  a_name : f_name g = f_name f;
  a_path : f_path g = f_path f;
  a_dir : f_dir g = f_dir f;
  a_err : f_err_no g = f_err_no f;
  a_once : f_once_only f = true -> f_once_only g = true
}.

Lemma alike_refl f : alike f f.
Proof. by constructor. Qed.

Lemma alike_trans f g h : alike f g -> alike g h -> alike f h.
Proof. intros [] []. constructor; [congruence..|auto]. Qed.

Lemma alike_outcome f g : alike f g -> outcome g = outcome f.
Proof. intros [_ Hp Hd He _]. unfold outcome. by rewrite Hp, Hd, He. Qed.

(** ** Updating a file *)

Definition with_file (i : nat) (f : cpp_file) (s : files) : files := set_store (<[i := f]> (store s)) s.

Lemma with_file_at i f g s : store s !! i = Some f -> store (with_file i g s) !! i = Some g.
Proof. intros E. cbn. apply list_lookup_insert_eq. by eapply lookup_lt_Some. Qed.

Lemma with_file_other i j g s : i <> j -> store (with_file i g s) !! j = store s !! j.
Proof. intros E. cbn. by apply list_lookup_insert_ne. Qed.

Lemma with_file_twice i f g s : with_file i g (with_file i f s) = with_file i g s.
Proof. destruct s. unfold with_file, set_store. cbn. by rewrite list_insert_insert_eq. Qed.

Lemma with_file_same i f s : store s !! i = Some f -> with_file i f s = s.
Proof. intros E. destruct s. unfold with_file, set_store. cbn in *. by rewrite list_insert_id. Qed.

(** What the invariant depends on. *)
Definition core (s : files) :=
  (dirs s, store s, all_files s, file_hash s, dir_hash s, nonexistent_file_hash s,
   (quote_include s, bracket_include s, quote_ignores_source_dir s, seen_once_only s, buffers s, main_file s)).

Lemma core_store s s' : core s' = core s -> store s' = store s.
Proof. by intros [=]. Qed.

Lemma core_with i f s s' : core s' = core s -> core (with_file i f s') = core (with_file i f s).
Proof. unfold core. intros [=]. cbn. congruence. Qed.

(** ** The invariant of the reader *)

Record file_ok (n : nat) (f : cpp_file) : Prop := {
  ok_dir : forall d, f_dir f = Some d -> (d < n)%nat;
  ok_opened : opened_ok f;
  ok_valid : f_buffer_valid f = true -> f_err_no f = 0;
  ok_sized : f_once_only f = true \/ f_stack_count f <> 0 \/ f_cmacro f <> None -> sized f
}.

(** [all_files] are the files that searches have returned; what the hash says of
    a name is what a search along the chain finds. *)
Record inv (k : nat) (s : files) : Prop := {
  i_dirs : dirs_ok k (dirs s);
  i_quote : forall d, quote_include s = Some d -> (d < k)%nat;
  i_bracket : forall d, bracket_include s = Some d -> (d < k)%nat;
  i_made : forall name d, dir_hash s !! name = Some d -> (d < length (dirs s))%nat;
  i_absent : forall p, p ∈ nonexistent_file_hash s -> probe p = ENOENT;
  i_all : forall i, i ∈ all_files s -> exists f, store s !! i = Some f /\ file_ok (length (dirs s)) f;
  i_hash : forall name d i, (d, i) ∈ hash_slot name s -> i ∈ all_files s /\
    exists d0 f, d = Some d0 /\ (d0 < length (dirs s))%nat /\ store s !! i = Some f
      /\ outcome f = search (length (dirs s)) (dirs s) name d;
  i_buffers : forall b, b ∈ buffers s -> b_file b ∈ all_files s /\
    forall f, store s !! b_file b = Some f -> sized f;
  i_main : forall i, main_file s = Some i -> i ∈ all_files s;
  i_once : forall i f, store s !! i = Some f -> f_once_only f = true -> i ∈ all_files s /\ seen_once_only s = true
}.

Lemma inv_core k s s' : core s' = core s -> inv k s -> inv k s'.
Proof.
  intros [=] []. assert (forall name, hash_slot name s' = hash_slot name s) as Hslot by (intros; unfold hash_slot; congruence).
  split; intros *; rewrite ?Hslot; repeat match goal with H : _ s' = _ s |- _ => rewrite H; clear H end; eauto.
Qed.

(** A file changes. *)
Lemma inv_file k i f g b s s' : inv k s -> store s !! i = Some f -> i ∈ all_files s ->
  alike f g -> file_ok (length (dirs s)) g -> (sized f -> sized g) ->
  (seen_once_only s = true \/ f_once_only g = true -> b = true) ->
  core s' = core (with_file i g (set_seen b s)) -> inv k s'.
Proof.
  intros Hi E Hall Ha Hg Hsz Hb Hc. eapply inv_core; [exact Hc|]. clear Hc s'.
  pose proof (lookup_lt_Some _ _ _ E) as Hlt. destruct Hi. split; try done; cbn.
  - intros j Hj. destruct (decide (i = j)) as [<-|Hne].
    + exists g. split; [by apply list_lookup_insert_eq|done].
    + rewrite list_lookup_insert_ne by done. auto.
  - intros name d j Hj. destruct (i_hash0 name d j Hj) as [H1 (d0 & h & H2 & H3 & H4 & H5)].
    split; [done|]. destruct (decide (i = j)) as [<-|Hne].
    + exists d0, g. repeat split; try done; [by apply list_lookup_insert_eq|].
      rewrite (alike_outcome f g Ha). rewrite E in H4. by injection H4 as ->.
    + exists d0, h. by rewrite list_lookup_insert_ne.
  - intros c Hc. destruct (i_buffers0 c Hc) as [H1 H2]. split; [done|].
    intros h. destruct (decide (i = b_file c)) as [->|Hne].
    + rewrite list_lookup_insert_eq by done. intros [= <-]. auto.
    + rewrite list_lookup_insert_ne by done. auto.
  - intros j h. destruct (decide (i = j)) as [<-|Hne].
    + rewrite list_lookup_insert_eq by done. intros [= <-] Ho. auto.
    + rewrite list_lookup_insert_ne by done. intros Eh Ho. destruct (i_once0 j h Eh Ho). auto.
Qed.

(** A file that is not returned yet changes. *)
Lemma inv_fresh k i g s s' : inv k s -> i ∉ all_files s -> f_once_only g = false ->
  core s' = core (with_file i g s) -> inv k s'.
Proof.
  intros Hi Hn Ho Hc. eapply inv_core; [exact Hc|]. clear Hc s'.
  assert (Hne : forall j, j ∈ all_files s -> i <> j) by (intros j Hj ->; done).
  destruct Hi. split; try done; cbn.
  - intros j Hj. rewrite list_lookup_insert_ne by auto. auto.
  - intros name d j Hj. destruct (i_hash0 name d j Hj) as [H1 H2]. split; [done|].
    rewrite list_lookup_insert_ne by auto. auto.
  - intros c Hc. destruct (i_buffers0 c Hc) as [H1 H2]. split; [done|].
    rewrite list_lookup_insert_ne by auto. auto.
  - intros j h Eh Ho'. destruct (decide (i = j)) as [<-|].
    + apply list_lookup_insert_Some in Eh as [(_ & <- & _)|[? _]]; [congruence|done].
    + rewrite list_lookup_insert_ne in Eh by done. eauto.
Qed.

Lemma inv_new k f s : inv k s -> f_once_only f = false -> inv k (set_store (store s ++ [f]) s).
Proof.
  intros Hi Ho. assert (Hst : forall j h, store s !! j = Some h -> (store s ++ [f]) !! j = Some h)
    by (intros; by apply lookup_app_l_Some).
  destruct Hi. split; try done; cbn.
  - intros j Hj. destruct (i_all0 j Hj) as (h & E & H). eauto.
  - intros name d j Hj. destruct (i_hash0 name d j Hj) as [H1 (d0 & h & H2 & H3 & H4 & H5)].
    split; [done|]. exists d0, h. auto.
  - intros c Hc. destruct (i_buffers0 c Hc) as [H1 H2]. split; [done|]. intros h Eh. apply H2.
    destruct (i_all0 _ H1) as (h' & E & _). rewrite (Hst _ _ E) in Eh. congruence.
  - intros j h Eh Ho'. apply lookup_app_Some in Eh as [Eh|[_ Eh]]; [eauto|].
    apply list_lookup_singleton_Some in Eh as [_ <-]. congruence.
Qed.

(** A file is returned. *)
Lemma inv_add k i f s : inv k s -> store s !! i = Some f -> file_ok (length (dirs s)) f ->
  inv k (set_all (i :: all_files s) s).
Proof.
  intros Hi E Hf. destruct Hi. split; try done; cbn.
  - intros j [->|Hj]%elem_of_cons; eauto.
  - intros name d j Hj. destruct (i_hash0 name d j Hj) as [H1 H2]. split; [by right|done].
  - intros c Hc. destruct (i_buffers0 c Hc) as [H1 H2]. split; [by right|done].
  - intros j Hj. right. auto.
  - intros j h Eh Ho. destruct (i_once0 j h Eh Ho). split; [by right|done].
Qed.

Lemma slot_insert fname name l s :
  hash_slot name (set_hash (<[fname := l]> (file_hash s)) s) = if decide (fname = name) then l else hash_slot name s.
Proof.
  unfold hash_slot. cbn. destruct (decide (fname = name)) as [->|].
  - by rewrite lookup_insert_eq.
  - by rewrite lookup_insert_ne.
Qed.

Lemma inv_entry k fname d i f s : inv k s -> i ∈ all_files s -> (d < length (dirs s))%nat -> store s !! i = Some f ->
  outcome f = search (length (dirs s)) (dirs s) fname (Some d) ->
  inv k (set_hash (<[fname := (Some d, i) :: hash_slot fname s]> (file_hash s)) s).
Proof.
  intros Hi Hall Hd E Ho. destruct Hi. split; try done.
  intros name d' j. rewrite slot_insert. cbn. destruct (decide (fname = name)) as [<-|].
  - intros [[= -> ->]|Hj]%elem_of_cons; [|by apply i_hash0]. split; [done|]. by exists d, f.
  - intros Hj. by apply i_hash0.
Qed.

Lemma inv_absent k p s : inv k s -> probe p = ENOENT -> inv k (set_nonexistent ({[p]} ∪ nonexistent_file_hash s) s).
Proof.
  intros Hi Hp. destruct Hi. split; try done; cbn. intros q [Hq|Hq]%elem_of_union; [|auto].
  apply elem_of_singleton in Hq. by subst.
Qed.

(** *** A file that is being searched for *)

Record fresh (fname : list byte) (f : cpp_file) : Prop := {
  n_name : f_name f = fname;
  n_once : f_once_only f = false;
  n_valid : f_buffer_valid f = false;
  n_dont : f_dont_read f = false;
  n_stack : f_stack_count f = 0;
  n_cmacro : f_cmacro f = None
}.

Record searching (i : nat) (s s' : files) : Prop := {
  s_dirs : dirs s' = dirs s;
  s_chains : (quote_include s', bracket_include s', quote_ignores_source_dir s') =
             (quote_include s, bracket_include s, quote_ignores_source_dir s);
  s_seen : seen_once_only s' = seen_once_only s;
  s_buffers : buffers s' = buffers s;
  s_main : main_file s' = main_file s;
  s_all : all_files s' = all_files s;
  s_hash : file_hash s' = file_hash s;
  s_made : dir_hash s' = dir_hash s;
  s_others : forall j, j <> i -> store s' !! j = store s !! j
}.

Lemma searching_refl i s : searching i s s.
Proof. by split. Qed.

Lemma searching_trans i s1 s2 s3 : searching i s1 s2 -> searching i s2 s3 -> searching i s1 s3.
Proof. intros [] []. split; try congruence. intros j Hj. rewrite s_others1 by done. auto. Qed.

Lemma searching_core i s1 s2 s3 : searching i s1 s2 -> core s3 = core s2 -> searching i s1 s3.
Proof. intros [] [=]. split; intros; try congruence. replace (store s3) with (store s2). auto. Qed.

Lemma searching_with i g s : searching i s (with_file i g s).
Proof. split; try done. intros j Hj. by apply with_file_other. Qed.

Lemma searching_slot i s s' fname : searching i s s' -> hash_slot fname s' = hash_slot fname s.
Proof. intros []. unfold hash_slot. by rewrite s_hash0. Qed.

Lemma fresh_file_ok fname n f : fresh fname f -> (forall d, f_dir f = Some d -> (d < n)%nat) ->
  opened_ok f -> file_ok n f.
Proof. intros [] Hd Ho. split; try done; [congruence|]. intros [?|[?|?]]; congruence. Qed.

Lemma opened_ok_opened fname p st f : fresh fname f -> f_path f = Some p -> os_open p = Opened st ->
  st_kind st <> Directory -> opened_ok (set_opened st true 0 f).
Proof.
  intros [] Ep Eo Hd _. exists p, st. cbn. repeat split; try done; [by rewrite n_valid0 | by rewrite n_dont0].
Qed.

Section Runs.
Context (fails : Prop).
Notation post := (post fails).

Lemma files_mod_file i f g s (Q : unit -> files -> Prop) :
  store s !! i = Some f -> Q tt (with_file i (g f) s) -> post (mod_file i g) s Q.
Proof.
  intros E H. unfold mod_file, modF, Files.F_ret, with_file in *. cbn.
  enough (alter g i (store s) = <[i := g f]> (store s)) as -> by done.
  apply list_eq. intros j. destruct (decide (i = j)) as [<-|Hne].
  - rewrite list_lookup_alter_eq, E. cbn. symmetry. apply list_lookup_insert_eq. by eapply lookup_lt_Some.
  - by rewrite list_lookup_alter_ne, list_lookup_insert_ne.
Qed.

(** A diagnostic, and a dependency, leave the rest alone. *)
Definition quiet (s s' : files) : Prop := core s' = core s /\ in_has_include s' = in_has_include s.

Lemma quiet_refl s : quiet s s.
Proof. done. Qed.

Lemma files_emit w s (Q : unit -> files -> Prop) : (forall s', quiet s s' -> Q tt s') -> post (emitF w) s Q.
Proof. intros H. apply H. done. Qed.

Lemma files_dep_on p s (Q : unit -> files -> Prop) :
  fails -> (forall s', quiet s s' -> Q tt s') -> post (dep_on p) s Q.
Proof.
  intros Hf H. unfold dep_on. apply files_bind, files_get, files_bind, files_ptr; [|done].
  intros d _. apply files_mod, H. done.
Qed.

Lemma files_open_file_failed i f ab s (Q : unit -> files -> Prop) :
  missing_files dopts = false \/ fails ->
  store s !! i = Some f -> (forall s', quiet s s' -> Q tt s') -> post (open_file_failed dopts i ab) s Q.
Proof.
  intros Hm E H. unfold open_file_failed. eapply files_bind, files_file_at; [done|].
  apply files_bind, files_get. cbn [id].
  destruct (in_has_include s); [apply files_ret, H, quiet_refl|].
  destruct (_ && missing_files dopts && _) eqn:Em.
  - destruct Hm as [Hm|Hf]; [rewrite Hm, andb_false_r in Em; done|].
    apply files_bind, files_dep_on; [done|]. intros s1 H1. apply files_when; [|auto].
    intros _. apply files_emit. intros s2 H2. apply H. destruct H1, H2. split; congruence.
  - match goal with |- context [if ?b then errno_filename _ else _] => destruct b end; by apply files_emit.
Qed.

(** *** Opening and reading *)

Hypothesis errno_set : forall p, probe p = 0 -> exists st, os_open p = Opened st.

Lemma probe_opened p st : os_open p = Opened st -> st_kind st <> Directory -> probe p = 0.
Proof. intros E H. unfold probe. rewrite E. by destruct (st_kind st). Qed.

Lemma probe_zero p : probe p = 0 -> exists st, os_open p = Opened st /\ st_kind st <> Directory.
Proof.
  intros H. destruct (errno_set p H) as [st E]. exists st. split; [done|]. intros Hk.
  unfold probe in H. by rewrite E, Hk in H.
Qed.

Lemma files_open_file i f p s (Q : bool -> files -> Prop) :
  store s !! i = Some f -> f_path f = Some p ->
  (forall st, os_open p = Opened st -> st_kind st <> Directory -> Q true (with_file i (set_opened st true 0 f) s)) ->
  (forall st, probe p <> 0 -> Q false (with_file i (set_opened st false (probe p) f) s)) ->
  post (open_file os_open i) s Q.
Proof.
  intros E Ep Ht Hf. unfold open_file. eapply files_bind, files_file_at; [done|].
  rewrite Ep. apply files_bind, files_ptr; [|done]. intros ? [= <-].
  assert (Hn : forall e, os_open p = StatError e \/ os_open p = OpenError e -> probe p <> 0)
    by (intros e He H; destruct (errno_set p H) as [st Est]; rewrite Est in He; by destruct He).
  assert (Hpr : probe p = match os_open p with
     | Opened st => match st_kind st with Directory => ENOENT | _ => 0 end
     | StatError e => e | OpenError e => if e =? ENOTDIR then ENOENT else e end) by done.
  destruct (os_open p) as [e|e|st].
  - rewrite <- Hpr. eapply files_bind, files_mod_file; [done|]. apply files_ret, Hf, (Hn e). by right.
  - rewrite <- Hpr. eapply files_bind, files_mod_file; [done|]. apply files_ret, Hf, (Hn e). by left.
  - destruct (st_kind st) eqn:Ek; eapply files_bind, files_mod_file; try done; apply files_ret;
      (rewrite <- Hpr; by apply Hf; rewrite Hpr) || (apply Ht; [done|by rewrite Ek]).
Qed.

Record read_rel (r : bool) (f g : cpp_file) : Prop := {
  r_alike : alike f g;
  r_once : f_once_only g = f_once_only f;
  r_stack : f_stack_count g = f_stack_count f;
  r_cmacro : f_cmacro g = f_cmacro f;
  r_opened : opened_ok g;
  r_sized : sized g;
  r_valid : r = true -> f_err_no g = 0 /\ f_buffer_valid g = true;
  r_ok : f_buffer_valid g = true -> r = true;
  r_text : r = false -> f_err_no g = 0 -> forall p, f_path g = Some p -> text_at p = None
}.

(** Reading of an open file, by [read_file]. *)
Lemma files_read_file_guts i f p st s (Q : bool -> files -> Prop) :
  store s !! i = Some f -> f_path f = Some p -> f_st f = st -> os_open p = Opened st -> st_kind st <> Directory ->
  (forall n t s', text_at p = Some t ->
     core s' = core (with_file i (set_contents (Some (n, t)) true
                      (set_opened (set_size (Z.of_nat (length t)) st) (f_fd f) (f_err_no f) f)) s) -> Q true s') ->
  (forall s', text_at p = None -> quiet s s' -> Q false s') ->
  post (read_file_guts os_read i) s Q.
Proof.
  intros E Ep Est Eo Hd Ht Hf. unfold read_file_guts. eapply files_bind, files_file_at; [done|].
  rewrite Ep. apply files_bind, files_ptr; [|done]. intros ? [= <-]. rewrite Est.
  assert (Htext : text_at p = match st_kind st with BlockDevice | Directory => None | k =>
     if regular k && (SSIZE_MAX <? st_size st) then None else
     all ← os_read p; Some (_cpp_convert_input (if regular k then take (Z.to_nat (st_size st)) all else all)) end)
    by (unfold text_at; by rewrite Eo).
  destruct (st_kind st) eqn:Ek; try done;
    [| apply files_bind, files_emit; intros; by apply files_ret, Hf |].
  all: cbn [regular andb] in Htext |- *.
  all: try match goal with |- context [SSIZE_MAX <? ?n] => destruct (SSIZE_MAX <? n);
    [apply files_bind, files_emit; intros; by apply files_ret, Hf|] end.
  all: destruct (os_read p) as [all|]; cbn [mbind option_bind] in Htext;
    [|apply files_bind, files_emit; intros; by apply files_ret, Hf].
  all: assert (Hmain : forall s1, quiet s s1 -> post
      (n ←f getF allocations ;; modF (set_allocations (S n)) ;;f
       mod_file i (fun f0 => set_contents (Some (n, default [] (text_at p))) true
         (set_opened (set_size (Z.of_nat (length (default [] (text_at p)))) (f_st f0)) (f_fd f0) (f_err_no f0) f0)) ;;f
       mret true) s1 Q);
    [|rewrite Htext in Hmain; cbn [default] in Hmain; apply files_bind, files_when;
      [intros _; apply files_emit; intros s1 H1; by apply Hmain | intros _; by apply Hmain]].
  all: intros s1 [H1 _]; apply files_bind, files_get, files_bind, files_mod; eapply files_bind, files_mod_file;
    [cbn; injection H1 as _ ->; done|]; apply files_ret; rewrite Htext; cbn [default]; eapply Ht; [done|];
    rewrite Est; erewrite core_with; [apply (core_with i _ s s1); done | done].
Qed.

(** What [read_file] leaves of a file. *)
Definition done_reading (r : bool) (f : cpp_file) : cpp_file :=
  set_opened (f_st f) false (f_err_no f) (set_dont_read (negb r) f).

Lemma read_rel_read f p st n t : f_path f = Some p -> os_open p = Opened st -> st_kind st <> Directory ->
  text_at p = Some t ->
  read_rel true f (done_reading true (set_contents (Some (n, t)) true
                     (set_opened (set_size (Z.of_nat (length t)) st) true 0 (set_opened st true 0 f)))) \/ f_err_no f <> 0.
Proof.
  intros Ep Eo Hd Et. destruct (decide (f_err_no f = 0)) as [He|]; [left|by right].
  constructor; try done; cbn.
  - intros _. exists p, st. cbn. repeat split; try done. eauto.
  - intros _ q t'. cbn. rewrite Ep. intros [= <-]. rewrite Et. by intros [= <-].
Qed.

Lemma read_rel_failed f p st : f_path f = Some p -> os_open p = Opened st -> st_kind st <> Directory ->
  text_at p = None -> f_err_no f = 0 -> f_buffer_valid f = false ->
  read_rel false f (done_reading false (set_opened st true 0 f)).
Proof.
  intros Ep Eo Hd Et He Hv. constructor; try done; cbn.
  - intros _. exists p, st. cbn. repeat split; try done. rewrite Hv. done.
  - intros _ q t'. cbn. rewrite Ep. intros [= <-]. by rewrite Et.
  - by rewrite Hv.
  - intros _ _ q. cbn. rewrite Ep. by intros [= <-].
Qed.

Lemma read_rel_none f : opened_ok f -> f_buffer_valid f = false -> f_dont_read f || negb (f_err_no f =? 0) = true ->
  read_rel false f f.
Proof.
  intros Hok Hv H.
  assert (Htext : f_err_no f = 0 -> forall p, f_path f = Some p -> text_at p = None).
  { intros He p Ep. rewrite He, orb_false_r in H. destruct (Hok He) as (q & st & Eq & _ & _ & _ & _ & _ & _ & Hdr).
    rewrite Ep in Eq. injection Eq as <-. auto. }
  constructor; try done; [|by rewrite Hv].
  intros He p t Ep. by rewrite (Htext He p Ep).
Qed.

Lemma read_rel_valid f : opened_ok f -> f_err_no f = 0 -> f_buffer_valid f = true -> read_rel true f f.
Proof.
  intros Hok He Hv. constructor; try done.
  intros _ p t Ep Et. destruct (Hok He) as (q & st & Eq & _ & _ & _ & _ & _ & Hval & _).
  rewrite Ep in Eq. injection Eq as <-. destruct (Hval Hv) as (n & t' & _ & Et' & Hs).
  rewrite Et in Et'. by injection Et' as <-.
Qed.

(** The file is open when it is read. *)
Lemma files_read_opened i f p st s (Q : bool -> files -> Prop) :
  store s !! i = Some (set_opened st true 0 f) -> f_path f = Some p -> os_open p = Opened st ->
  st_kind st <> Directory -> f_err_no f = 0 -> f_buffer_valid f = false ->
  (forall r g s', read_rel r f g -> core s' = core (with_file i g s) -> Q r s') ->
  post (r ←f read_file_guts os_read i ;;
        mod_file i (fun f => set_opened (f_st f) false (f_err_no f) (set_dont_read (negb r) f)) ;;f
        mret r) s Q.
Proof.
  intros E Ep Eo Hd He Hv HQ. apply files_bind.
  eapply files_read_file_guts; [done|done|done|done|done| |].
  - intros n t s' Et Hc. pose proof Hc as Hc'. injection Hc' as _ Hs _ _ _ _ _ _ _ _ _ _.
    eapply files_bind, files_mod_file; [rewrite Hs; apply (with_file_at _ _ _ _ E)|]. apply files_ret.
    destruct (read_rel_read f p st n t Ep Eo Hd Et) as [Hr|]; [|done].
    eapply HQ; [exact Hr|]. rewrite (core_with _ _ _ _ Hc). by rewrite with_file_twice.
  - intros s' Et [Hc _]. pose proof Hc as Hc'. injection Hc' as _ Hs _ _ _ _ _ _ _ _ _ _.
    eapply files_bind, files_mod_file; [rewrite Hs; exact E|]. apply files_ret.
    eapply HQ; [by eapply read_rel_failed|]. by rewrite (core_with _ _ _ _ Hc).
Qed.

(** A file that is not open. *)
Lemma files_read_closed i f p st s (Q : bool -> files -> Prop) : missing_files dopts = false \/ fails ->
  store s !! i = Some f -> f_path f = Some p -> os_open p = Opened st -> st_kind st <> Directory ->
  f_err_no f = 0 -> f_buffer_valid f = false -> f_dont_read f = false -> f_fd f = false ->
  (forall r g s', read_rel r f g -> core s' = core (with_file i g s) -> Q r s') ->
  post (read_file os_open os_read dopts i) s Q.
Proof.
  intros Hm E Ep Eo Hd He Hv Hdr Hfd HQ. unfold read_file. eapply files_bind, files_file_at; [done|].
  rewrite Hv, Hdr, He, Hfd. cbn [orb negb Z.eqb]. apply files_bind. eapply files_open_file; [done|done| |].
  - intros st' Eo' _. rewrite Eo in Eo'. injection Eo' as <-.
    eapply files_read_opened; [by eapply with_file_at|done..|].
    intros r g s' Hr Hc. rewrite with_file_twice in Hc. by eapply HQ.
  - intros st' Hp. by rewrite (probe_opened p st Eo Hd) in Hp.
Qed.

Lemma files_read_file i f s (Q : bool -> files -> Prop) : missing_files dopts = false \/ fails ->
  store s !! i = Some f -> opened_ok f -> (f_buffer_valid f = true -> f_err_no f = 0) ->
  (forall r g s', read_rel r f g -> core s' = core (with_file i g s) -> Q r s') ->
  post (read_file os_open os_read dopts i) s Q.
Proof.
  intros Hm E Hok Hv HQ.
  destruct (f_buffer_valid f) eqn:Ev, (f_dont_read f || negb (f_err_no f =? 0)) eqn:Er, (f_fd f) eqn:Efd;
    (try (unfold read_file; eapply files_bind, files_file_at; [done|]; rewrite Ev;
       apply files_ret, (HQ _ f); [by apply read_rel_valid; auto | by rewrite with_file_same]));
    (try (unfold read_file; eapply files_bind, files_file_at; [done|]; rewrite Ev, Er;
       apply files_ret, (HQ _ f); [by apply read_rel_none | by rewrite with_file_same]));
    pose proof Er as Er'; apply orb_false_elim in Er' as [Edr He]; apply negb_false_iff, Z.eqb_eq in He;
    destruct (Hok He) as (p & st & Ep & Eo & Hd & _ & _ & Hfd & _).
  - unfold read_file. eapply files_bind, files_file_at; [done|]. rewrite Ev, Er, Efd. apply files_bind, files_ret.
    assert (f = set_opened st true 0 f) as Ef by (rewrite <- Hfd, <- He, <- Efd by done; by destruct f).
    eapply files_read_opened; [rewrite <- Ef; exact E|done..|]. exact HQ.
  - by eapply files_read_closed.
Qed.

(** *** One directory *)

Lemma files_find_file_in_dir k i fname f d dir s : missing_files dopts = false \/ fails ->
  inv k s -> i ∉ all_files s -> store s !! i = Some f -> fresh fname f -> f_dir f = Some d -> dirs s !! d = Some dir ->
  post (find_file_in_dir os_open os_realpath canonical_system_headers dopts i) s (fun r s' =>
    inv k s' /\ searching i s s' /\ exists g, store s' !! i = Some g /\ fresh fname g /\ f_dir g = Some d
      /\ f_err_no g = probe (dir_path fname dir) /\ r = negb (probe (dir_path fname dir) =? ENOENT)
      /\ (r = true -> f_path g = Some (dir_path fname dir) /\ opened_ok g)).
Proof.
  intros Hm Hi Hn E Hf Ed Edir. unfold find_file_in_dir. eapply files_bind, files_file_at; [done|].
  rewrite Ed. apply files_bind, files_ptr; [|done]. intros ? [= <-]. eapply files_bind, files_dir_at; [done|].
  rewrite (n_name _ _ Hf). set (path := dir_path fname dir). apply files_bind, files_get.
  destruct (bool_decide _) eqn:Eb.
  { apply bool_decide_eq_true in Eb. pose proof (i_absent _ _ Hi _ Eb) as Hp.
    eapply files_bind, files_mod_file; [done|]. apply files_ret. split; [|split; [apply searching_with|]].
    - eapply inv_fresh; [done|done| |reflexivity]. apply Hf.
    - eexists. split; [by eapply with_file_at|]. rewrite Hp. destruct Hf. by repeat split. }
  eapply files_bind, files_mod_file; [done|]. apply files_bind.
  eapply (files_open_file i _ path); [by eapply with_file_at|done| |].
  - intros st Eo Hd. rewrite with_file_twice. apply files_ret. split; [|split; [apply searching_with|]].
    + eapply inv_fresh; [done|done| |reflexivity]. apply Hf.
    + eexists. split; [by eapply with_file_at|]. rewrite (probe_opened path st Eo Hd).
      assert (fresh fname (set_path (Some path) f)) as Hf' by (by destruct Hf).
      split; [by destruct Hf|]. repeat split; try done. by eapply opened_ok_opened.
  - intros st Hp. rewrite with_file_twice. eapply files_bind, files_file_at; [by eapply with_file_at|]. cbn [f_err_no set_opened].
    set (g := set_opened st false (probe path) (set_path (Some path) f)).
    assert (fresh fname g) as Hg by (by destruct Hf).
    assert (inv k (with_file i g s)) as Hi' by (eapply inv_fresh; [done|done| |reflexivity]; apply Hf).
    assert (store (with_file i g s) !! i = Some g) as Eg by (by eapply with_file_at).
    destruct (negb _) eqn:Ee.
    + eapply files_bind, files_open_file_failed; [done|done|]. intros s' [Hc _]. apply files_ret.
      split; [by eapply inv_core|]. split; [eapply searching_core; [apply searching_with|done]|].
      exists g. split; [by injection Hc as _ -> _|]. repeat split; try done; try apply Hg. intros He. by cbn in He.
    + apply negb_false_iff, Z.eqb_eq in Ee. apply files_bind, files_mod.
      eapply files_bind, files_mod_file; [exact Eg|]. apply files_ret. split; [|split].
      * eapply inv_fresh; [by apply inv_absent|done| |reflexivity]. apply Hf.
      * eapply searching_trans; [apply searching_with|]. eapply searching_trans; [|apply searching_with]. by split.
      * eexists. split; [eapply with_file_at; exact Eg|]. split; [by destruct Hf|]. by repeat split.
Qed.

(** *** The chain *)

Lemma search_cache_elem l d j : search_cache l d = Some j -> (d, j) ∈ l.
Proof.
  induction l as [|[x i] l IH]; cbn; [done|]. case_bool_decide as E; [|by right; auto].
  intros [= <-]. subst. left.
Qed.

Lemma search_none n ds fname : search n ds fname None = (ENOENT, None).
Proof. by destruct n. Qed.

(** The chain heads that were passed have the result [R]. *)
Definition saw_ok (fname : list byte) (R : Z * option (list byte * nat)) (saw : bool * bool) (s : files) : Prop :=
  let head h := exists x, h = Some x /\ (x < length (dirs s))%nat /\ search (length (dirs s)) (dirs s) fname (Some x) = R in
  (saw.1 = true -> head (bracket_include s)) /\ (saw.2 = true -> head (quote_include s)).

Definition loop_post (k : nat) (fname : list byte) (i : nat) (implicit : bool) (R : Z * option (list byte * nat))
  (s : files) (x : search_end * (bool * bool)) (s' : files) : Prop :=
  inv k s' /\ searching i s s' /\ saw_ok fname R x.2 s' /\
  exists g, store s' !! i = Some g /\ fresh fname g /\
  match x.1 with
  | Stopped => outcome g = R /\ file_ok (length (dirs s)) g
  | InCache j h => (h, j) ∈ hash_slot fname s /\ search (length (dirs s)) (dirs s) fname h = R
  | ByCallback => False
  | NoPreinclude => implicit = true
  end.

Lemma saw_ok_searching i fname R saw s s' : searching i s s' -> saw_ok fname R saw s -> saw_ok fname R saw s'.
Proof. intros [Hd [= Hq Hb _]] H. unfold saw_ok. by rewrite Hd, Hq, Hb. Qed.

Lemma loop_post_searching k fname i implicit R s s1 x s' :
  searching i s s1 -> loop_post k fname i implicit R s1 x s' -> loop_post k fname i implicit R s x s'.
Proof.
  intros H (H1 & H2 & H3 & g & Eg & Hg & H4). split; [done|]. split; [by eapply searching_trans|].
  split; [done|]. exists g. split; [done|]. split; [done|].
  rewrite (searching_slot _ _ _ _ H), (s_dirs _ _ _ H) in H4. exact H4.
Qed.

Notation loop ab implicit fuel fname i :=
  (find_loop os_open os_realpath None canonical_system_headers dopts fuel fname i ab implicit).

(** The next directory; at the chain heads the cache is asked. *)
Lemma files_find_next k fname i ab implicit R fuel d' f saw s : inv k s ->
  store s !! i = Some f -> fresh fname f -> (d' < length (dirs s))%nat ->
  search (length (dirs s)) (dirs s) fname (Some d') = R -> saw_ok fname R saw s ->
  (forall saw, saw_ok fname R saw s -> post (loop ab implicit fuel fname i saw) s (loop_post k fname i implicit R s)) ->
  post (s0 ←f getF id ;;
        let next saw :=
          match search_cache (hash_slot fname s0) (Some d') with
          | Some j => mret (InCache j (Some d'), saw)
          | None => loop ab implicit fuel fname i saw
          end in
        if bool_decide (bracket_include s0 = Some d') then next (true, saw.2)
        else if bool_decide (quote_include s0 = Some d') then next (saw.1, true)
        else loop ab implicit fuel fname i saw) s (loop_post k fname i implicit R s).
Proof.
  intros Hi E Hf Hd HR Hsaw Hrec. apply files_bind, files_get. cbn [id].
  assert (Hcache : forall saw, saw_ok fname R saw s ->
    post (match search_cache (hash_slot fname s) (Some d') with
          | Some j => mret (InCache j (Some d'), saw)
          | None => loop ab implicit fuel fname i saw
          end) s (loop_post k fname i implicit R s)).
  { intros saw' Hsaw'. destruct (search_cache _ _) as [j|] eqn:Ec; [|by apply Hrec].
    apply files_ret. split; [done|]. split; [apply searching_refl|]. split; [done|]. exists f. split; [done|]. split; [done|].
    by apply search_cache_elem in Ec. }
  case_bool_decide as Eb; [|case_bool_decide as Eq; [|by apply Hrec]];
    (apply Hcache; split; cbn [fst snd]; try apply Hsaw; intros _; exists d'; by split).
Qed.

Lemma files_find_loop k fname i ab implicit R : missing_files dopts = false \/ fails ->
  forall fuel d f saw s, inv k s -> i ∉ all_files s -> store s !! i = Some f -> fresh fname f -> f_dir f = Some d ->
  (d < length (dirs s))%nat -> (rank k d < fuel)%nat ->
  search (length (dirs s)) (dirs s) fname (Some d) = R -> saw_ok fname R saw s ->
  post (find_loop os_open os_realpath None canonical_system_headers dopts fuel fname i ab implicit saw) s
    (loop_post k fname i implicit R s).
Proof.
  intros Hm. induction fuel as [|fuel IH]; intros d f saw s Hi Hn E Hf Ed Hd Hr HR Hsaw; [lia|].
  destruct (lookup_lt_is_Some_2 _ _ Hd) as [dir Edir].
  rewrite (search_step k _ fname d dir (i_dirs _ _ Hi) Edir) in HR.
  cbn [find_loop]. apply files_bind. eapply files_mono; [by eapply files_find_file_in_dir|].
  intros r s1 (Hi1 & Hs1 & g & Eg & Hg & Edg & He & -> & Hopen).
  pose proof (s_dirs _ _ _ Hs1) as Hds.
  destruct (probe (dir_path fname dir) =? ENOENT) eqn:Ep; cbn [negb].
  2:{ apply files_ret. destruct (Hopen eq_refl) as [Epath Hok]. split; [done|]. split; [done|].
      split; [by eapply saw_ok_searching|]. exists g. split; [done|]. split; [done|]. split.
      - unfold outcome. by rewrite Edg, Epath, He.
      - eapply fresh_file_ok; [done| |done]. rewrite Edg. by intros ? [= <-]. }
  apply Z.eqb_eq in Ep. eapply files_bind, files_file_at; [done|]. rewrite Edg.
  apply files_bind, files_ptr; [|done]. intros ? [= <-]. eapply files_bind, files_dir_at; [by rewrite Hds|].
  eapply files_bind, files_mod_file; [done|]. set (g' := set_dir (d_next dir) g).
  assert (inv k (with_file i g' s1)) as Hi2
    by (eapply inv_fresh; [exact Hi1|by rewrite (s_all _ _ _ Hs1)| |reflexivity]; apply Hg).
  assert (store (with_file i g' s1) !! i = Some g') as Eg' by (by eapply with_file_at).
  assert (searching i s (with_file i g' s1)) as Hs2 by (eapply searching_trans; [done|apply searching_with]).
  assert (fresh fname g') as Hg' by (by destruct Hg).
  assert (Hnot : i ∉ all_files (with_file i g' s1)) by (by rewrite (s_all _ _ _ Hs2)).
  destruct (d_next dir) as [d'|] eqn:En.
  - destruct (rank_next _ _ _ _ _ (i_dirs _ _ Hi) Edir En) as [Hrank Hd'].
    assert (Hds2 : dirs (with_file i g' s1) = dirs s) by done.
    eapply files_mono; [eapply (files_find_next k fname i ab implicit R fuel d' g'); try done; try by rewrite Hds2|].
    + by eapply saw_ok_searching.
    + intros saw' Hsaw'. eapply (IH d' g'); try done; [by rewrite Hds2|lia|by rewrite Hds2].
    + intros x s' Hx. by eapply loop_post_searching.
  - apply files_bind, files_ret. rewrite search_none in HR.
    destruct implicit.
    { apply files_ret. split; [done|]. split; [done|]. split; [by eapply saw_ok_searching|]. by exists g'. }
    eapply files_bind, files_open_file_failed; [done|done|]. intros s3 [Hc _]. apply files_ret.
    assert (searching i s s3) as Hs3 by (by eapply searching_core).
    split; [by eapply inv_core|]. split; [done|]. split; [by eapply saw_ok_searching|].
    exists g'. split; [by injection Hc as _ -> _|]. split; [done|]. split.
    + unfold outcome. cbn. by rewrite He, Ep.
    + eapply fresh_file_ok; [done|done|]. intros He'. cbn in He'. by rewrite He, Ep in He'.
Qed.

(** *** The result is recorded *)

Record grows (s s' : files) : Prop := {
  g_dirs : dirs s' = dirs s;
  g_chains : (quote_include s', bracket_include s', quote_ignores_source_dir s') =
             (quote_include s, bracket_include s, quote_ignores_source_dir s);
  g_seen : seen_once_only s' = seen_once_only s;
  g_buffers : buffers s' = buffers s;
  g_main : main_file s' = main_file s;
  g_all : forall i, i ∈ all_files s -> i ∈ all_files s';
  g_store : forall i f, store s !! i = Some f -> store s' !! i = Some f
}.

Lemma grows_refl s : grows s s.
Proof. by split. Qed.

Lemma grows_trans s1 s2 s3 : grows s1 s2 -> grows s2 s3 -> grows s1 s3.
Proof. intros [] []. split; try congruence; auto. Qed.

Lemma grows_core s1 s2 s3 : grows s1 s2 -> core s3 = core s2 -> grows s1 s3.
Proof. intros [] [=]. split; intros; repeat match goal with H : _ s3 = _ s2 |- _ => rewrite H; clear H end; auto. Qed.

Lemma files_new_entry k fname x i f s :
  inv k s -> i ∈ all_files s -> store s !! i = Some f -> (x < length (dirs s))%nat ->
  outcome f = search (length (dirs s)) (dirs s) fname (Some x) ->
  post (new_entry fname (Some x) i) s (fun _ s' => inv k s' /\ grows s s' /\ store s' = store s /\ all_files s' = all_files s).
Proof. intros Hi Hall E Hx Ho. apply files_mod. split; [by eapply inv_entry|]. by repeat split. Qed.

Lemma files_record_search k fname d i f saw head s :
  inv k s -> i ∈ all_files s -> store s !! i = Some f -> (d < length (dirs s))%nat ->
  outcome f = search (length (dirs s)) (dirs s) fname (Some d) -> saw_ok fname (outcome f) saw s ->
  post (record_search fname (Some d) i saw head) s
    (fun _ s' => inv k s' /\ grows s s' /\ store s' = store s /\ all_files s' = all_files s).
Proof.
  intros Hi Hall E Hd Ho [Hb Hq]. unfold record_search. apply files_bind, files_get. cbn [id].
  apply files_bind. eapply files_mono; [by eapply files_new_entry|]. intros _ s1 (Hi1 & Hg1 & Est1 & Eall1).
  apply files_bind.
  assert (Hnext : forall s2 b h, inv k s2 -> grows s s2 -> store s2 = store s -> all_files s2 = all_files s ->
    (b = true -> exists x, h = Some x /\ (x < length (dirs s))%nat
       /\ search (length (dirs s)) (dirs s) fname (Some x) = outcome f) ->
    post (whenF b (new_entry fname h i)) s2
      (fun _ s' => inv k s' /\ grows s s' /\ store s' = store s /\ all_files s' = all_files s)).
  { intros s2 b h Hi2 Hg2 Est2 Eall2 Hh. apply files_when; [|done].
    intros Eb. destruct (Hh Eb) as (x & -> & Hx & Hs). pose proof (g_dirs _ _ Hg2) as Ed.
    eapply files_mono; [eapply files_new_entry; [done|by rewrite Eall2|by rewrite Est2|by rewrite Ed|by rewrite Ed]|].
    intros _ s' (H1 & H2 & H3 & H4). split; [done|]. split; [by eapply grows_trans|]. split; congruence. }
  eapply files_mono; [apply Hnext; try done|].
  - intros [[Es _]%andb_prop _]%andb_prop. by apply Hb.
  - intros _ s2 (Hi2 & Hg2 & Est2 & Eall2). apply Hnext; try done.
    intros [[Es _]%andb_prop _]%andb_prop. by apply Hq.
Qed.

(** *** The whole search *)

Definition find_post (k : nat) (fname : list byte) (d : nat) (implicit : bool) (s : files) (r : option nat) (s' : files)
  : Prop :=
  inv k s' /\ grows s s' /\
  match r with
  | Some i => i ∈ all_files s' /\ exists f, store s' !! i = Some f
              /\ outcome f = search (length (dirs s)) (dirs s) fname (Some d)
  | None => implicit = true
  end.

(** What [_cpp_find_file] makes of the end of the loop. *)
Lemma find_file_end k fname d i implicit s0 s r s' :
  (d < length (dirs s0))%nat -> i = length (store s0) -> dirs s = dirs s0 -> buffers s = buffers s0 ->
  main_file s = main_file s0 -> all_files s = all_files s0 -> seen_once_only s = seen_once_only s0 ->
  (quote_include s, bracket_include s, quote_ignores_source_dir s) =
    (quote_include s0, bracket_include s0, quote_ignores_source_dir s0) ->
  (forall j, j <> i -> forall f, store s0 !! j = Some f -> store s !! j = Some f) ->
  hash_slot fname s = hash_slot fname s0 -> inv k s ->
  loop_post k fname i implicit (search (length (dirs s0)) (dirs s0) fname (Some d)) s r s' ->
  post match r with
      | (ByCallback, _) => modF (fun s => set_all (i :: all_files s) s) ;;f mret (Some i)
      | (NoPreinclude, _) => mret None
      | (InCache j head, saw) => record_search fname (Some d) j saw head ;;f mret (Some j)
      | (Stopped, saw) =>
          modF (fun s => set_all (i :: all_files s) s) ;;f
          record_search fname (Some d) i saw None ;;f
          mret (Some i)
      end s' (find_post k fname d implicit s0).
Proof.
  intros Hd Ei Eds Ebuf Emain Eall Eseen Ech Est Eslot Hi (Hi' & Hs & Hsaw & g & Eg & Hg & Hr).
  assert (Hnew : forall j f, store s0 !! j = Some f -> store s' !! j = Some f).
  { intros j f Ej. pose proof (lookup_lt_Some _ _ _ Ej). rewrite (s_others _ _ _ Hs) by lia. apply Est; [lia|done]. }
  assert (Hgrows : grows s0 s').
  { destruct Hs. split; intros; try congruence. by apply Hnew. }
  pose proof (g_dirs _ _ Hgrows) as Eds'.
  destruct r as [[|j h| |] saw]; cbn in Hr, Hsaw.
  - destruct Hr as [Ho Hok]. apply files_bind, files_mod, files_bind.
    assert (inv k (set_all (i :: all_files s') s')) as Hi2
      by (eapply inv_add; [done|done|by rewrite Eds', <- Eds]).
    eapply files_mono; [eapply files_record_search; [exact Hi2|left|exact Eg|by cbn; rewrite Eds'| |]|].
    + cbn. by rewrite Eds'.
    + by rewrite Ho.
    + intros _ s3 (Hi3 & Hg3 & Est3 & Eall3). apply files_ret. split; [done|]. split.
      * eapply grows_trans; [exact Hgrows|]. eapply grows_trans; [|exact Hg3]. split; try done. cbn. by right.
      * rewrite Eall3, Est3. split; [left|]. by exists g.
  - destruct Hr as [Hin Ho]. rewrite <- (searching_slot _ _ _ _ Hs) in Hin.
    destruct (i_hash _ _ Hi' _ _ _ Hin) as [Hall (d0 & f & -> & Hd0 & Ef & Hf)].
    rewrite Eds', <- Eds, Ho in Hf. apply files_bind.
    eapply files_mono; [eapply files_record_search; [exact Hi'|done|exact Ef|by rewrite Eds'|by rewrite Eds'|by rewrite Hf]|].
    intros _ s3 (Hi3 & Hg3 & Est3 & Eall3). apply files_ret. split; [done|].
    split; [by eapply grows_trans|]. rewrite Eall3, Est3. split; [done|]. by exists f.
  - done.
  - apply files_ret. by split.
Qed.

Lemma files_find_file k fname d ab implicit s : missing_files dopts = false \/ fails ->
  inv k s -> (d < length (dirs s))%nat ->
  post (_cpp_find_file os_open os_realpath None canonical_system_headers dopts fname (Some d) false ab implicit) s
    (find_post k fname d implicit s).
Proof.
  intros Hm Hi Hd. unfold _cpp_find_file. apply files_bind, files_ret, files_bind, files_get. cbn [id].
  destruct (search_cache _ _) as [j|] eqn:Ec.
  { apply search_cache_elem in Ec. destruct (i_hash _ _ Hi _ _ _ Ec) as [Hall (d0 & f & [= <-] & _ & Ef & Hf)].
    apply files_ret. split; [done|]. split; [apply grows_refl|]. split; [done|]. by exists f. }
  apply files_bind. unfold make_cpp_file. apply files_bind, files_get, files_bind, files_mod, files_ret. cbn [id].
  set (f0 := mk_file _ _ _ _ _ _ _ _ _ _ _ _ _ _). set (s1 := set_store (store s ++ [f0]) s).
  assert (inv k s1) as Hi1 by (by apply inv_new).
  assert (store s1 !! length (store s) = Some f0) as E1 by (cbn; by rewrite lookup_app_r, Nat.sub_diag).
  assert (length (store s) ∉ all_files s) as Hn.
  { intros Hin. destruct (i_all _ _ Hi _ Hin) as (f & E & _). apply lookup_lt_Some in E. lia. }
  apply files_bind.
  assert (Himpl : forall Q : bool -> files -> Prop, (forall b, Q b s1) ->
    post (match buffers s with
          | b :: _ => f ←f file_at (b_file b) ;; mret (implicit || f_implicit_preinclude f)
          | [] => mret implicit end) s1 Q).
  { intros Q HQ. destruct (buffers s) as [|b bs] eqn:Eb; [by apply files_ret|].
    destruct (i_buffers _ _ Hi b) as [Hin _]; [rewrite Eb; left|]. destruct (i_all _ _ Hi _ Hin) as (f & E & _).
    eapply files_bind, files_file_at; [by apply lookup_app_l_Some|]. by apply files_ret. }
  apply Himpl. intros implied. eapply files_bind, files_mod_file; [exact E1|].
  set (f1 := mk_file _ _ _ _ _ _ _ _ _ _ _ _ _ _). set (s2 := with_file _ f1 s1).
  assert (inv k s2) as Hi2 by (eapply inv_fresh; [exact Hi1|done| |reflexivity]; done).
  apply files_bind. eapply files_mono.
  - eapply (files_find_loop k fname (length (store s)) ab implicit _ Hm _ d f1 (false, false) s2 Hi2);
      [done|by eapply with_file_at|done|done|done| |reflexivity|done].
    cbn. pose proof (rank_length k _ d (i_dirs _ _ Hi) Hd). lia.
  - intros r s' Hr. eapply (find_file_end k fname d (length (store s)) implicit s s2); try done.
    intros j Hj f Ej. unfold s2. rewrite with_file_other by done. by apply lookup_app_l_Some.
Qed.

(** ** Whether a file is read again *)

(** Files are read; [i] may be marked once-only. *)
Record reads (s s' : files) : Prop := {
  e_dirs : dirs s' = dirs s;
  e_buffers : buffers s' = buffers s;
  e_main : main_file s' = main_file s;
  e_all : all_files s' = all_files s;
  e_store : forall j f, store s !! j = Some f ->
    exists g, store s' !! j = Some g /\ alike f g /\ (sized f -> sized g)
}.

Lemma reads_refl s : reads s s.
Proof. split; try done. intros j f E. exists f. split; [done|]. split; [apply alike_refl|done]. Qed.

Lemma reads_trans s1 s2 s3 : reads s1 s2 -> reads s2 s3 -> reads s1 s3.
Proof.
  intros [] []. split; try congruence. intros j f E. destruct (e_store0 j f E) as (g & Eg & Hg & Hsg).
  destruct (e_store1 j g Eg) as (h & Eh & Hh & Hsh). exists h. split; [done|]. split; [by eapply alike_trans|auto].
Qed.

Lemma reads_file i f g b s s' : store s !! i = Some f -> alike f g -> (sized f -> sized g) ->
  core s' = core (with_file i g (set_seen b s)) -> reads s s'.
Proof.
  intros E Ha Hsz [=]. split; try done. intros j h Ej. replace (store s') with (<[i := g]> (store s)).
  destruct (decide (i = j)) as [<-|Hne].
  - exists g. split; [apply list_lookup_insert_eq; by eapply lookup_lt_Some|]. rewrite E in Ej. by injection Ej as <-.
  - exists h. rewrite list_lookup_insert_ne by done. split; [done|]. split; [apply alike_refl|done].
Qed.

Lemma set_seen_same s : set_seen (seen_once_only s) s = s.
Proof. by destruct s. Qed.

Lemma inv_read k i f r g s s' : inv k s -> store s !! i = Some f -> i ∈ all_files s -> read_rel r f g ->
  core s' = core (with_file i g s) -> inv k s' /\ reads s s'.
Proof.
  intros Hi E Hall Hr Hc. 
  assert (core s' = core (with_file i g (set_seen (seen_once_only s) s))) as Hc' by (by rewrite set_seen_same). clear Hc.
  destruct (i_all _ _ Hi i Hall) as (f' & E' & Hf). rewrite E in E'. injection E' as <-. split.
  - destruct Hr, Hf. eapply inv_file; [done|done|done|done| |done| |done].
    + split; [|done| |done].
      * intros d. rewrite (a_dir _ _ r_alike0). auto.
      * intros Hv. apply r_valid0. by apply r_ok0.
    + rewrite r_once0. intros [?|Ho]; [done|]. by destruct (i_once _ _ Hi i f E Ho).
  - eapply reads_file; [done|apply Hr|intros _; apply Hr|done].
Qed.

Lemma opened_text f g n t p : f_err_no g = 0 -> f_buffer_valid g = true -> opened_ok g -> f_buffer g = Some (n, t) ->
  alike f g -> f_path f = Some p -> text_at p = Some t /\ st_size (f_st g) = Z.of_nat (length t).
Proof.
  intros He Hv Hok Hb Ha Ep. destruct (Hok He) as (q & st & Eq & _ & _ & _ & _ & _ & Hval & _).
  rewrite (a_path _ _ Ha), Ep in Eq. injection Eq as <-. destruct (Hval Hv) as (n' & t' & Hb' & Ht & Hs).
  rewrite Hb in Hb'. by injection Hb' as <- <-.
Qed.

(** The file that is compared with: it has the text [u]. *)
Definition holds (i : nat) (u : list byte) (s : files) : Prop :=
  exists g n, store s !! i = Some g /\ f_buffer g = Some (n, u) /\ st_size (f_st g) = Z.of_nat (length u).

Lemma holds_with i j u g s s' : holds i u s -> i <> j -> core s' = core (with_file j g s) -> holds i u s'.
Proof.
  intros (h & n & E & H) Hne [=]. exists h, n. split; [|done].
  replace (store s') with (<[j := g]> (store s)). by rewrite list_lookup_insert_ne.
Qed.

(** The end of [same_contents], when the file [r] with the path [p] was read. *)
Lemma same_contents_end i u r f g p ok s Q : holds i u s -> store s !! r = Some g -> read_rel ok f g ->
  f_err_no f = 0 -> f_path f = Some p ->
  (forall b, (text_at p = Some u -> b = true) -> Q b s) ->
  post (if ok then
          r ←f file_at r ;;
          g ←f file_at i ;;
          match f_buffer r, f_buffer g with
          | Some (_, x), Some (_, y) => mret ((st_size (f_st r) =? st_size (f_st g)) && bool_decide (x = y))
          | _, _ => crashF
          end
        else mret false) s Q.
Proof.
  intros (h & n & Eh & Hb & Hs) Er Hr He Ep HQ. destruct ok.
  - eapply files_bind, files_file_at; [done|]. eapply files_bind, files_file_at; [done|].
    destruct (r_valid _ _ _ Hr eq_refl) as [He' Hv].
    destruct (r_opened _ _ _ Hr He') as (q & st & _ & _ & _ & _ & _ & _ & Hval & _).
    destruct (Hval Hv) as (m & t & Hbuf & _). rewrite Hbuf, Hb. apply files_ret, HQ. intros Et.
    destruct (opened_text f g m t p He' Hv (r_opened _ _ _ Hr) Hbuf (r_alike _ _ _ Hr) Ep) as [Et' Hs'].
    rewrite Et in Et'. injection Et' as <-. rewrite Hs, Hs', Z.eqb_refl. by rewrite bool_decide_eq_true_2.
  - apply files_ret, HQ. destruct (r_alike _ _ _ Hr) as [_ Ep' _ He' _].
    rewrite (r_text _ _ _ Hr eq_refl); [done|by rewrite He'|by rewrite Ep'].
Qed.

Lemma fresh_index k s : inv k s -> length (store s) ∉ all_files s.
Proof. intros Hi Hin. destruct (i_all _ _ Hi _ Hin) as (f & E & _). apply lookup_lt_Some in E. lia. Qed.

Lemma reads_new g s s' : core s' = core (set_store (store s ++ [g]) s) -> reads s s'.
Proof.
  intros [=]. split; try done. intros j h Ej. exists h. split; [|split; [apply alike_refl|done]].
  replace (store s') with (store s ++ [g]). by apply lookup_app_l_Some.
Qed.

Lemma with_file_new f g s :
  with_file (length (store s)) g (set_store (store s ++ [f]) s) = set_store (store s ++ [g]) s.
Proof.
  destruct s. unfold with_file, set_store. cbn. f_equal. by rewrite insert_app_r_alt, Nat.sub_diag by lia.
Qed.

Definition compared (k i : nat) (u : list byte) (s s' : files) : Prop := inv k s' /\ reads s s' /\ holds i u s'.

Lemma files_same_contents k f i u a p s : missing_files dopts = false \/ fails ->
  inv k s -> holds i u s -> f <> i -> f ∈ all_files s -> i ∈ all_files s ->
  store s !! f = Some a -> f_err_no a = 0 -> f_path a = Some p ->
  post (same_contents os_open os_read dopts f i) s
    (fun b s' => compared k i u s s' /\ (text_at p = Some u -> b = true)).
Proof.
  intros Hm Hi Hh Hne Hf Hii E He Ep. unfold same_contents. eapply files_bind, files_file_at; [done|].
  destruct (i_all _ _ Hi _ Hf) as (a' & E' & Ha). rewrite E in E'. injection E' as <-.
  destruct (match f_buffer a with Some _ => negb (f_buffer_valid a) | None => false end).
  - apply files_bind, files_bind. unfold make_cpp_file. apply files_bind, files_get, files_bind, files_mod, files_ret. cbn [id].
    set (f0 := mk_file _ _ _ _ _ _ _ _ _ _ _ _ _ _).
    eapply files_bind, files_mod_file; [cbn; by rewrite lookup_app_r, Nat.sub_diag|]. apply files_ret.
    rewrite with_file_new. set (f1 := set_path (f_path a) f0).
    destruct (ok_opened _ _ Ha He) as (q & st & Eq & Eo & Hd & _). rewrite Ep in Eq. injection Eq as <-.
    assert (inv k (set_store (store s ++ [f1]) s)) as Hi1 by (by apply inv_new).
    apply files_bind. eapply (files_read_closed _ f1 p st); try done; [cbn; by rewrite lookup_app_r, Nat.sub_diag|].
    intros ok g s' Hr Hc. rewrite with_file_new in Hc.
    assert (inv k s') as Hi'.
    { eapply inv_core; [exact Hc|]. apply inv_new; [done|]. by rewrite (r_once _ _ _ Hr). }
    assert (holds i u s') as Hh'.
    { destruct Hh as (h & n & Eh & Hh). injection Hc as _ Es _. exists h, n. rewrite Es. split; [|done].
      by apply lookup_app_l_Some. }
    eapply (same_contents_end i u _ f1 g p); [done| |done|done|done|].
    + injection Hc as _ -> _. by rewrite lookup_app_r, Nat.sub_diag.
    + intros b Hb. split; [|done]. split; [done|]. split; [by eapply reads_new|done].
  - apply files_bind, files_ret, files_bind. eapply files_read_file; [done|exact E|apply Ha|apply Ha|].
    intros ok g s' Hr Hc. destruct (inv_read _ _ _ _ _ _ _ Hi E Hf Hr Hc) as [Hi' Hrd].
    eapply (same_contents_end i u f a g p); [by eapply holds_with| |done|done|done|].
    + injection Hc as _ -> _. apply list_lookup_insert_eq. by eapply lookup_lt_Some.
    + intros b Hb. split; [|done]. split; [done|]. split; [done|]. by eapply holds_with.
Qed.

Lemma compared_trans k i u s1 s2 s3 : compared k i u s1 s2 -> compared k i u s2 s3 -> compared k i u s1 s3.
Proof. intros (_ & H1 & _) (H2 & H3 & H4). split; [done|]. split; [by eapply reads_trans|done]. Qed.

(** A file that has the text and the time of the file [i] is compared with it. *)
Lemma twin_candidate n m (import : bool) u p q a g : file_ok n a -> file_ok m g -> f_path g = Some p -> f_err_no g = 0 ->
  st_size (f_st g) = Z.of_nat (length u) -> import || f_once_only a = true -> sized a -> f_err_no a = 0 ->
  f_path a = Some q -> mtime_at q = mtime_at p -> text_at q = Some u ->
  (import || f_once_only a) && (f_err_no a =? 0) && (st_mtime (f_st a) =? st_mtime (f_st g))
  && (st_size (f_st a) =? st_size (f_st g)) = true.
Proof.
  intros Ha Hg Egp Heg Hsz Hof Hsa Hef Eqf Hmt Htx.
  destruct (ok_opened _ _ Ha Hef) as (q' & st & Eq' & Eo & _ & _ & Hmt' & _). rewrite Eqf in Eq'. injection Eq' as <-.
  destruct (ok_opened _ _ Hg Heg) as (p' & st' & Ep' & Eo' & _ & _ & Hmt'' & _). rewrite Egp in Ep'. injection Ep' as <-.
  unfold mtime_at in Hmt. rewrite Eo, Eo' in Hmt. injection Hmt as Hmt.
  rewrite Hof, Hef, Hmt', Hmt'', Hmt, (Hsa Hef q u Eqf Htx), Hsz. by rewrite !Z.eqb_refl.
Qed.

(** A once-only file with the text and the time of the file [i] is found. *)
Lemma files_seen_before k i u p : missing_files dopts = false \/ fails ->
  forall all import s, inv k s -> holds i u s -> i ∈ all_files s -> (forall j, j ∈ all -> j ∈ all_files s) ->
  (forall f, store s !! i = Some f -> f_path f = Some p /\ f_err_no f = 0) ->
  post (seen_before os_open os_read dopts all i import) s (fun b s' => compared k i u s s' /\
    (b = false -> forall j f q, j ∈ all -> j <> i -> store s !! j = Some f -> import || f_once_only f = true -> sized f ->
       f_err_no f = 0 -> f_path f = Some q -> mtime_at q = mtime_at p -> text_at q = Some u -> False)).
Proof.
  intros Hm. induction all as [|x all IH]; intros import s Hi Hh Hii Hall Hp; cbn [seen_before].
  { apply files_ret. split; [split; [done|by split; [apply reads_refl|]]|]. intros _ j f q Hj. by apply elem_of_nil in Hj. }
  assert (Hin : forall j, j ∈ all -> j ∈ all_files s) by (intros; apply Hall; by right).
  destruct (Nat.eqb_spec x i) as [->|Hne].
  { eapply files_mono; [by apply IH|]. intros b s' [Hc H]. split; [done|].
    intros Hb j f q [->|Hj]%elem_of_cons Hji; [done|]. eauto. }
  assert (x ∈ all_files s) as Hx by (apply Hall; left). destruct (i_all _ _ Hi _ Hx) as (a & Ea & Ha).
  destruct (i_all _ _ Hi _ Hii) as (g & Eg & Hg). destruct (Hp g Eg) as [Egp Heg].
  eapply files_bind, files_file_at; [done|]. eapply files_bind, files_file_at; [done|].
  assert (Hsame : forall f q, store s !! x = Some f -> import || f_once_only f = true -> sized f -> f_err_no f = 0 ->
       f_path f = Some q -> mtime_at q = mtime_at p -> text_at q = Some u ->
       (import || f_once_only a) && (f_err_no a =? 0) && (st_mtime (f_st a) =? st_mtime (f_st g))
       && (st_size (f_st a) =? st_size (f_st g)) = true /\ f_path a = Some q /\ f_err_no a = 0).
  { intros f q Ef Hof Hsa Hef Eqf Hmt Htx. rewrite Ea in Ef. injection Ef as <-. split; [|done].
    destruct Hh as (h & n & Eh & _ & Hsz). rewrite Eg in Eh. injection Eh as <-. by eapply twin_candidate. }
  destruct (_ && _) eqn:Ec.
  - apply files_bind.
    assert (exists q, f_path a = Some q /\ f_err_no a = 0) as (q & Eq & He).
    { apply andb_prop in Ec as [[[_ He]%andb_prop _]%andb_prop _]. apply Z.eqb_eq in He.
      destruct (ok_opened _ _ Ha He) as (q & st & Eq & _). eauto. }
    eapply files_mono; [by eapply files_same_contents|]. intros b s1 [Hc1 Hb].
    destruct b; [apply files_ret; by split|]. pose proof Hc1 as (Hi1 & Hr1 & Hh1).
    eapply files_mono; [apply IH; try done|].
    + by rewrite (e_all _ _ Hr1).
    + intros j Hj. rewrite (e_all _ _ Hr1). auto.
    + intros f Ef. destruct (e_store _ _ Hr1 _ _ Eg) as (f' & Ef' & Hf' & _). rewrite Ef in Ef'. injection Ef' as <-.
      by rewrite (a_path _ _ Hf'), (a_err _ _ Hf').
    + intros b s' [Hc H]. split; [by eapply compared_trans|].
      intros Hbf j f q' [->|Hj]%elem_of_cons Hji Ef Hof Hsf Hef Eqf Hmt Htx.
      * destruct (Hsame f q' Ef Hof Hsf Hef Eqf Hmt Htx) as (_ & Eqa & _). rewrite Eq in Eqa. injection Eqa as <-.
        by specialize (Hb Htx).
      * destruct (e_store _ _ Hr1 _ _ Ef) as (f' & Ef' & [_ Hp' _ He' Ho'] & Hsz').
        eapply (H Hbf j f' q'); try done; [|auto|by rewrite He'|by rewrite Hp'].
        destruct import; [done|]. auto.
  - eapply files_mono; [by apply IH|]. intros b s' [Hc H]. split; [done|].
    intros Hb j f q [->|Hj]%elem_of_cons Hji Ef Hof Hsf Hef Eqf Hmt Htx; [|eauto].
    by destruct (Hsame f q Ef Hof Hsf Hef Eqf Hmt Htx) as (Ht & _).
Qed.

(** *** The decision *)

(** No once-only file has the time of [p] and the text [t]; for #import, no file. *)
Definition no_twin (import : bool) (s : files) (p t : list byte) : Prop :=
  forall j f q, j ∈ all_files s -> store s !! j = Some f ->
    f_once_only f = true \/ import = true /\ f_stack_count f <> 0 -> f_err_no f = 0 ->
    f_path f = Some q -> mtime_at q = mtime_at p -> text_at q = Some t -> False.

Definition ready (i : nat) (p t : list byte) (s : files) : Prop :=
  exists g n, store s !! i = Some g /\ f_err_no g = 0 /\ f_buffer g = Some (n, t) /\ f_path g = Some p
    /\ text_at p = Some t /\ st_size (f_st g) = Z.of_nat (length t).

(** The file, marked if it is imported, and the reader then. *)
Definition marked (import : bool) (f : cpp_file) : cpp_file := if import then set_once_only f else f.
Definition mark_state (import : bool) (i : nat) (f : cpp_file) (s : files) : files :=
  with_file i (marked import f) (set_seen (import || seen_once_only s) s).

Lemma files_mark import i f s (Q : unit -> files -> Prop) : store s !! i = Some f ->
  Q tt (mark_state import i f s) -> post (whenF import (_cpp_mark_file_once_only i)) s Q.
Proof.
  intros E HQ. destruct import; unfold mark_state, marked in HQ; cbn in HQ.
  - apply files_bind, files_mod. by eapply files_mod_file.
  - apply files_ret. by rewrite set_seen_same, with_file_same in HQ.
Qed.

Lemma marked_alike import f : alike f (marked import f).
Proof. by destruct import. Qed.

Lemma inv_marked k import i f g s s' : inv k s -> store s !! i = Some f -> i ∈ all_files s ->
  alike f g -> (f_once_only g = true -> import || f_once_only f = true) -> file_ok (length (dirs s)) g ->
  (sized f -> sized g) -> core s' = core (with_file i g (mark_state import i f s)) -> inv k s' /\ reads s s'.
Proof.
  intros Hi E Hall Ha Ho Hg Hsz Hc. unfold mark_state in Hc. rewrite with_file_twice in Hc.
  split; [|by eapply reads_file].
  eapply inv_file; [done|done|done|done|done|done| |exact Hc].
  intros [->|Hog]; [apply orb_true_r|]. destruct import; [done|]. cbn.
  by apply (i_once _ _ Hi i f E); auto.
Qed.

(** The end of [should_stack_file], when the file [f] was read: [g]. *)
Lemma files_read_then k i import f g n p t s s2 : missing_files dopts = false \/ fails ->
  inv k s -> store s !! i = Some f -> f_once_only f = false -> import && negb (f_stack_count f =? 0) = false ->
  inv k s2 -> reads s s2 -> (import = true -> seen_once_only s2 = true) ->
  store s2 !! i = Some g -> f_err_no g = 0 -> f_buffer g = Some (n, t) -> f_path g = Some p -> text_at p = Some t ->
  st_size (f_st g) = Z.of_nat (length t) -> i ∈ all_files s2 ->
  post (s ←f getF id ;;
        if negb (seen_once_only s) then mret true
        else seen ←f seen_before os_open os_read dopts (all_files s) i import ;; mret (negb seen)) s2
    (fun r s' => inv k s' /\ reads s s' /\ (r = true -> exists p t, ready i p t s' /\ no_twin import s p t)).
Proof.
  intros Hm Hi E Eo Es Hi2 Hr2 Hseen Eg He Hbuf Ep Ht Hs Hall2. apply files_bind, files_get. cbn [id].
  destruct (negb (seen_once_only s2)) eqn:Eseen.
  - apply files_ret. split; [done|]. split; [done|]. intros _. exists p, t. split; [by exists g, n|].
    intros j h q Hj Ej [Ho|[-> _]]; [|by rewrite Hseen in Eseen].
    destruct (e_store _ _ Hr2 _ _ Ej) as (h' & Ej' & Hh' & _).
    destruct (i_once _ _ Hi2 j h' Ej') as [_ Hs']; [by apply (a_once _ _ Hh')|]. by rewrite Hs' in Eseen.
  - apply files_bind. eapply files_mono.
    + eapply (files_seen_before k i t p Hm (all_files s2) import s2 Hi2); [by exists g, n|done|done|].
      intros h Eh. rewrite Eg in Eh. by injection Eh as <-.
    + intros b s3 [(Hi3 & Hr3 & Hh3) Hb]. apply files_ret. split; [done|]. split; [by eapply reads_trans|].
      intros Hnb. exists p, t. split.
      * destruct Hh3 as (g3 & n3 & Eg3 & Hbuf3 & Hs3). exists g3, n3.
        destruct (e_store _ _ Hr3 _ _ Eg) as (g4 & Eg4 & Hg4 & _). rewrite Eg3 in Eg4. injection Eg4 as <-.
        split; [done|]. rewrite (a_err _ _ Hg4), (a_path _ _ Hg4). done.
      * intros j h q Hj Ej Ho Heh Eq Hmt Htx. destruct (e_store _ _ Hr2 _ _ Ej) as (h' & Ej' & [_ Hp' _ He' Ho'] & Hsz').
        apply negb_true_iff in Hnb. destruct (i_all _ _ Hi _ Hj) as (h0 & E0 & Hh0). rewrite Ej in E0. injection E0 as <-.
        apply (Hb Hnb j h' q); try done; [by rewrite (e_all _ _ Hr2)| | | |congruence|congruence].
        -- intros ->. rewrite E in Ej. injection Ej as <-.
           destruct Ho as [Ho|[-> Hsc]]; [congruence|]. by apply Z.eqb_neq in Hsc; rewrite Hsc in Es.
        -- destruct Ho as [Ho|[-> _]]; [|done]. by rewrite Ho', orb_true_r.
        -- apply Hsz', (ok_sized _ _ Hh0). destruct Ho as [Ho|[_ Hsc]]; auto.
Qed.

Lemma files_should_stack_file k macro_p i import f s : missing_files dopts = false \/ fails ->
  inv k s -> i ∈ all_files s -> store s !! i = Some f ->
  post (should_stack_file os_open os_read dopts macro_p i import) s (fun r s' =>
    inv k s' /\ reads s s' /\ (r = true -> exists p t, ready i p t s' /\ no_twin import s p t)).
Proof.
  intros Hm Hi Hall E. unfold should_stack_file. eapply files_bind, files_file_at; [done|].
  destruct (f_once_only f) eqn:Eo; [apply files_ret; by split; [|split; [apply reads_refl|]]|].
  destruct (i_all _ _ Hi _ Hall) as (f' & E' & Hf). rewrite E in E'. injection E' as <-.
  apply files_bind. eapply files_mark; [done|]. set (s1 := mark_state import i f s). set (f1 := marked import f).
  assert (E1 : store s1 !! i = Some f1) by (by eapply (with_file_at i f)).
  assert (Hexit : sized f -> inv k s1 /\ reads s s1).
  { intros Hs. eapply (inv_marked k import i f f1); try done; [apply marked_alike| | | |].
    - by destruct import.
    - destruct Hf. destruct import; [|done]. split; try done.
    - by destruct import.
    - by rewrite with_file_same. }
  destruct (import && negb (f_stack_count f =? 0)) eqn:Es.
  { apply files_ret. apply andb_prop in Es as [_ Es]. apply negb_true_iff, Z.eqb_neq in Es.
    destruct Hexit; [apply (ok_sized _ _ Hf); auto|]. by split. }
  destruct (match f_cmacro f with Some m => macro_p m | None => false end) eqn:Em.
  { apply files_ret. destruct Hexit; [apply (ok_sized _ _ Hf)|by split].
    right. right. by destruct (f_cmacro f). }
  apply files_bind. eapply files_read_file; [done|exact E1| | |].
  { destruct import; apply Hf. }
  { destruct import; apply Hf. }
  intros ok g s2 Hr Hc.
  assert (alike f g) as Ha by (eapply alike_trans; [apply marked_alike|apply Hr]).
  destruct (inv_marked k import i f g s s2 Hi E Hall Ha) as [Hi2 Hr2]; [| | |done|].
  { rewrite (r_once _ _ _ Hr). destruct import; [done|]. auto. }
  { destruct Hf, Hr. split; [intros d; rewrite (a_dir _ _ Ha); auto|done| |done]. intros Hv. by apply r_valid0, r_ok0. }
  { intros _. apply Hr. }
  destruct ok; [|apply files_ret; by split].
  destruct (r_valid _ _ _ Hr eq_refl) as [He Hv].
  destruct (r_opened _ _ _ Hr He) as (p & st & Ep & _ & _ & _ & _ & _ & Hval & _).
  destruct (Hval Hv) as (n & t & Hbuf & Ht & Hs).
  assert (Eg : store s2 !! i = Some g) by (rewrite (core_store _ _ Hc); by eapply (with_file_at i f1)).
  eapply files_read_then; try done; [|by rewrite (e_all _ _ Hr2)].
  intros ->. by injection Hc as _ _ _ _ _ _ _ _ _ -> _ _.
Qed.

(** *** Stacking *)

Definition stacked (f : cpp_file) (p t : list byte) (s s' : files) : Prop :=
  exists b g, buffers s' = b :: buffers s /\ store s' !! b_file b = Some g /\ alike f g /\ f_err_no g = 0
    /\ f_path g = Some p /\ text_at p = Some t.

Lemma inv_push k b i s f : inv k s -> b_file b = i -> i ∈ all_files s -> store s !! i = Some f -> sized f ->
  inv k (set_buffers (b :: buffers s) s).
Proof.
  intros Hi Eb Hall E Hs. destruct Hi. split; try done; cbn.
  intros c [->|Hc]%elem_of_cons; [|auto]. rewrite Eb. split; [done|]. intros f'. rewrite E. by intros [= <-].
Qed.

Lemma files_sysp k i s f (Q : Z -> files -> Prop) : inv k s -> store s !! i = Some f -> i ∈ all_files s ->
  (forall n, Q n s) ->
  post (match buffers s, f_dir f with
        | b :: _, Some d => dir ←f dir_at d ;; mret (Z.max (b_sysp b) (d_sysp dir))
        | _, _ => mret 0
        end) s Q.
Proof.
  intros Hi E Hall HQ. destruct (i_all _ _ Hi _ Hall) as (f' & E' & Hf). rewrite E in E'. injection E' as <-.
  destruct (buffers s) as [|b bs]; [by apply files_ret|]. destruct (f_dir f) as [d|] eqn:Ed; [|by apply files_ret].
  destruct (lookup_lt_is_Some_2 (dirs s) d) as [dir Edir]; [by apply (ok_dir _ _ Hf)|].
  eapply files_bind, files_dir_at; [done|]. by apply files_ret.
Qed.

Lemma files_stack_file k macro_p i import f s : fails -> inv k s -> i ∈ all_files s -> store s !! i = Some f ->
  post (_cpp_stack_file os_open os_read dopts macro_p i import) s (fun r s' =>
    inv k s' /\ dirs s' = dirs s /\ (r = true -> exists p t, stacked f p t s s' /\ no_twin import s p t)).
Proof.
  intros Hfails Hi Hall E. unfold _cpp_stack_file.
  apply files_bind. eapply files_mono; [eapply files_should_stack_file; [by right|done..]|].
  intros ok s1 (Hi1 & Hr1 & Hok). destruct ok; [|apply files_ret; split; [done|by split; [apply Hr1|]]].
  destruct (Hok eq_refl) as (p & t & (g & n & Eg & He & Hbuf & Ep & Ht & Hs) & Htwin).
  assert (Hall1 : i ∈ all_files s1) by (by rewrite (e_all _ _ Hr1)).
  eapply files_bind, files_file_at; [done|]. apply files_bind, files_get, files_bind. cbn [id].
  eapply files_sysp; [done..|]. intros sysp. apply files_bind.
  assert (Hrest : forall s2, quiet s1 s2 ->
    post (b ←f ptr (f_buffer g) ;;
      mod_file i (fun f => set_stack_count ((f_stack_count f + 1) mod 2 ^ 16) (set_contents (f_buffer f) false f)) ;;f
      modF (fun s => set_buffers (mk_buffer i sysp b.1 :: buffers s) s) ;;f
      modF (set_macro None true) ;;f mret true) s2
    (fun r s' => inv k s' /\ dirs s' = dirs s /\ (r = true -> exists p t, stacked f p t s s' /\ no_twin import s p t))).
  { intros s2 [Hc _]. rewrite Hbuf. apply files_bind, files_ptr; [|done]. intros ? [= <-].
    eapply files_bind, files_mod_file; [by rewrite (core_store _ _ Hc)|]. set (g' := set_stack_count _ _).
    assert (Hi2 : inv k s2) by (by eapply inv_core).
    assert (Hall2 : i ∈ all_files s2) by (by injection Hc as _ _ -> _).
    assert (E2 : store s2 !! i = Some g) by (by rewrite (core_store _ _ Hc)).
    assert (Hsz : sized g') by (intros _ q u; cbn; rewrite Ep; intros [= <-]; rewrite Ht; by intros [= <-]).
    assert (Hi3 : inv k (with_file i g' s2)).
    { destruct (i_all _ _ Hi2 _ Hall2) as (h & Eh & Hh). rewrite E2 in Eh. injection Eh as <-.
      eapply (inv_file k i g g' (seen_once_only s2)); try done.
      - destruct Hh. split; try done. cbn. intros He'. destruct (ok_opened0 He') as (q & st & Hq).
        exists q, st. cbn. by destruct Hq as (? & ? & ? & ? & ? & ? & ? & ?).
      - intros [?|Ho]; [done|]. by apply (i_once _ _ Hi2 i g E2). }
    assert (Hst : store (with_file i g' s2) !! i = Some g') by (by eapply with_file_at).
    apply files_bind, files_mod, files_bind, files_mod, files_ret. split; [|split].
    - eapply inv_core; [|by eapply (inv_push k (mk_buffer i sysp n) i (with_file i g' s2))]. done.
    - cbn. injection Hc as -> _. apply Hr1.
    - intros _. exists p, t. split; [|done]. eexists _, g'. cbn. split.
      + f_equal. injection Hc as _ _ _ _ _ _ _ _ _ _ -> _. apply Hr1.
      + split; [done|]. split; [|done]. destruct (e_store _ _ Hr1 _ _ E) as (h & Eh & Hh & _).
        rewrite Eg in Eh. injection Eh as <-. eapply alike_trans; [exact Hh|]. done. }
  apply files_when; intros _; [|by apply Hrest]. rewrite Ep. apply files_bind, files_ptr; [|done].
  intros ? [= <-]. apply files_dep_on; [done|]. apply Hrest.
Qed.

(** ** Where the search starts *)

Lemma inv_dir k name sysp s : inv k s ->
  inv k (set_dirs (dirs s ++ [mk_dir (quote_include s) name sysp]) (<[name := length (dirs s)]> (dir_hash s)) s).
Proof.
  intros Hi. assert (Hgrow : forall n f, file_ok n f -> file_ok (n + 1) f)
    by (intros n f []; split; try done; intros d Hd; pose proof (ok_dir0 d Hd); lia).
  destruct Hi. split; try done; cbn; rewrite ?length_app; cbn [length].
  - destruct i_dirs0 as [Hk H]. split; [rewrite length_app; lia|]. intros d dir d' E En.
    apply lookup_app_Some in E as [E|[Hd E]]; [by eapply H|].
    apply list_lookup_singleton_Some in E as [Hd0 <-]. cbn in En. apply i_quote0 in En. lia.
  - intros nm d. destruct (decide (name = nm)) as [->|Hne].
    + rewrite lookup_insert_eq. intros [= <-]. lia.
    + rewrite lookup_insert_ne by done. intros E. pose proof (i_made0 _ _ E). lia.
  - intros j Hj. destruct (i_all0 j Hj) as (f & E & Hf). eauto.
  - intros nm d j Hj. destruct (i_hash0 nm d j Hj) as [H1 (d0 & f & -> & H3 & H4 & H5)]. split; [done|].
    exists d0, f. split; [done|]. split; [lia|]. split; [done|]. rewrite H5.
    eapply search_stable; [done|]. intros x [= <-]. pose proof (rank_length k _ d0 i_dirs0 H3).
    rewrite ?length_app. cbn [length]. lia.
Qed.

(** A search starts in a directory of the reader. *)
Definition head_post (k : nat) (s : files) (r : option nat) (s' : files) : Prop :=
  inv k s' /\ (forall d, r = Some d -> d < length (dirs s'))%nat /\ store s' = store s /\ all_files s' = all_files s
  /\ buffers s' = buffers s /\ main_file s' = main_file s /\ exists more, dirs s' = dirs s ++ more.

Lemma files_make_cpp_dir k name sysp s : inv k s ->
  post (d ←f make_cpp_dir name sysp ;; mret (Some d)) s (head_post k s).
Proof.
  intros Hi. unfold make_cpp_dir. apply files_bind, files_bind, files_get. cbn [id].
  destruct (dir_hash s !! name) as [d|] eqn:Eh.
  - apply files_ret, files_ret. split; [done|]. split; [intros ? [= <-]; by eapply i_made|].
    repeat (split; [done|]). exists []. by rewrite app_nil_r.
  - apply files_bind, files_mod, files_ret, files_ret. split; [by apply inv_dir|].
    split; [intros ? [= <-]; cbn; rewrite length_app; cbn [length]; lia|]. repeat (split; [done|]). by eexists.
Qed.

Lemma quiet_head k s s' r : inv k s -> quiet s s' -> (forall d, r = Some d -> d < length (dirs s))%nat -> head_post k s r s'.
Proof.
  intros Hi [Hc _] Hr. split; [by eapply inv_core|]. injection Hc as Ed -> -> _ _ _ _ _ _ _ -> ->. rewrite Ed.
  split; [done|]. repeat (split; [done|]). exists []. by rewrite app_nil_r.
Qed.

Lemma files_search_path_head k fname ab type s : fails -> inv k s ->
  post (search_path_head fname ab type) s (head_post k s).
Proof.
  intros Hfails Hi. unfold search_path_head. pose proof (i_dirs _ _ Hi) as [Hk Hnext].
  destruct (IS_ABSOLUTE_PATH fname).
  { apply files_ret, quiet_head; [done|apply quiet_refl|]. intros d [= <-]. unfold no_search_path. lia. }
  apply files_bind, files_get, files_bind, files_ptr; [|done]. intros file Efile. cbn [id] in *.
  assert (Hall : file ∈ all_files s).
  { destruct (buffers s) as [|b bs] eqn:Eb; [by eapply i_main|]. injection Efile as <-.
    apply (i_buffers _ _ Hi). rewrite Eb. left. }
  destruct (i_all _ _ Hi _ Hall) as (f & E & Hf). eapply files_bind, files_file_at; [done|].
  assert (Hfinish : forall dir, (forall d, dir = Some d -> d < length (dirs s))%nat ->
    post (whenF match dir with None => true | Some _ => false end
            (emitF (cpp_error CPP_DL_ERROR "no include path in which to search for %s")) ;;f mret dir) s (head_post k s)).
  { intros dir Hdir. apply files_bind, files_when; intros _.
    - apply files_emit. intros s' Hq. by apply files_ret, quiet_head.
    - by apply files_ret, quiet_head. }
  apply files_bind. unfold next_dir.
  assert (Hrest : post (if ab then (whenF match bracket_include s with None => true | Some _ => false end
             (emitF (cpp_error CPP_DL_ERROR "no include path in which to search for %s")) ;;f mret (bracket_include s))
     else if include_type_eqb type IT_CMDLINE then d ←f make_cpp_dir (bytes "./") 0 ;; mret (Some d)
     else if quote_ignores_source_dir s then (whenF match quote_include s with None => true | Some _ => false end
             (emitF (cpp_error CPP_DL_ERROR "no include path in which to search for %s")) ;;f mret (quote_include s))
     else name ←f dir_name_of_file file ;;
          d ←f make_cpp_dir name (match buffers s with b :: _ => b_sysp b | [] => 0 end) ;; mret (Some d)) s (head_post k s)).
  { destruct ab; [apply Hfinish; intros d Hd; pose proof (i_bracket _ _ Hi d Hd); lia|].
    destruct (include_type_eqb type IT_CMDLINE); [by apply files_make_cpp_dir|].
    destruct (quote_ignores_source_dir s); [apply Hfinish; intros d Hd; pose proof (i_quote _ _ Hi d Hd); lia|].
    unfold dir_name_of_file. apply files_bind, files_bind. eapply files_file_at; [done|].
    apply files_bind, files_ptr; [|done]. intros path _. apply files_ret. by apply files_make_cpp_dir. }
  destruct (f_dir f) as [d|] eqn:Ed; [|by apply files_ret]. destruct (_ && _); [|by apply files_ret].
  destruct (lookup_lt_is_Some_2 (dirs s) d) as [dir Edir]; [by apply (ok_dir _ _ Hf)|].
  eapply files_bind, files_dir_at; [done|]. apply files_ret, Hfinish.
  intros d' Hd'. destruct (Hnext _ _ _ Edir Hd'). lia.
Qed.

(** ** The operations keep the invariant *)

Notation stack_include := (_cpp_stack_include os_open os_read os_realpath None canonical_system_headers dopts).
Notation find_file := (_cpp_find_file os_open os_realpath None canonical_system_headers dopts).

Definition included (k : nat) (fname : list byte) (ab : bool) (type : include_type) (s s' : files) : Prop :=
  exists d s1 f p t, search_path_head fname ab type s = Some (Some d, s1) /\ head_post k s (Some d) s1
    /\ outcome f = search (length (dirs s1)) (dirs s1) fname (Some d)
    /\ stacked f p t s s' /\ no_twin (include_type_eqb type IT_IMPORT) s p t.

Lemma files_stack_include k macro_p fname ab type s : fails -> inv k s ->
  post (stack_include macro_p fname ab type) s (fun r s' => inv k s' /\ (r = true -> included k fname ab type s s')).
Proof.
  intros Hfails Hi. unfold _cpp_stack_include. apply files_bind.
  eapply files_mono; [apply files_eq; by apply files_search_path_head|]. intros dir s1 [Eh Hh].
  pose proof Hh as (Hi1 & Hd & Est & Eall & Ebuf & _ & _).
  destruct dir as [d|]; [|by apply files_ret]. apply files_bind.
  eapply files_mono; [apply (files_find_file k fname d); [by right|done|by apply Hd]|].
  intros [i|] s2 (Hi2 & Hg2 & Hr).
  - destruct Hr as [Hall (f & Ef & Ho)]. eapply files_mono; [by eapply files_stack_file|].
    intros r s3 (Hi3 & _ & Hs). split; [done|]. intros Hr. destruct (Hs Hr) as (p & t & (b & g & Hb & Hrest) & Htwin).
    exists d, s1, f, p, t. split; [done|]. split; [done|]. split; [done|].
    split; [exists b, g; split; [|done]; by rewrite Hb, (g_buffers _ _ Hg2), Ebuf|].
    intros j h q Hj Ej. apply (Htwin j h q); [apply (g_all _ _ Hg2); by rewrite Eall|].
    apply (g_store _ _ Hg2). by rewrite Est.
  - by rewrite Hr; apply files_ret.
Qed.

(** A search that starts nowhere follows a null pointer. *)
Lemma files_find_null k fname ab implicit s Q : fails -> inv k s -> post (find_file fname None false ab implicit) s Q.
Proof.
  intros Hfails Hi. unfold _cpp_find_file. apply files_bind, files_when; [|done]. intros _. apply files_emit.
  intros s1 [Hc _]. assert (Hi1 : inv k s1) by (by eapply inv_core). apply files_bind, files_get. cbn [id].
  destruct (search_cache _ _) as [j|] eqn:Ec.
  { apply search_cache_elem in Ec. by destruct (i_hash _ _ Hi1 _ _ _ Ec) as [_ (d0 & f & ? & _)]. }
  unfold make_cpp_file. apply files_bind, files_bind, files_get, files_bind, files_mod, files_ret. cbn [id].
  set (f0 := mk_file _ _ _ _ _ _ _ _ _ _ _ _ _ _). set (s2 := set_store (store s1 ++ [f0]) s1).
  assert (E2 : store s2 !! length (store s1) = Some f0) by (cbn; by rewrite lookup_app_r, Nat.sub_diag).
  apply files_bind.
  assert (Himpl : forall Q : bool -> files -> Prop, (forall b, Q b s2) ->
    post (match buffers s1 with
          | b :: _ => f ←f file_at (b_file b) ;; mret (implicit || f_implicit_preinclude f)
          | [] => mret implicit end) s2 Q).
  { intros Q' HQ. destruct (buffers s1) as [|b bs] eqn:Eb; [by apply files_ret|].
    destruct (i_buffers _ _ Hi1 b) as [Hin _]; [rewrite Eb; left|]. destruct (i_all _ _ Hi1 _ Hin) as (f & E & _).
    eapply files_bind, files_file_at; [by apply lookup_app_l_Some|]. by apply files_ret. }
  apply Himpl. intros implied. eapply files_bind, files_mod_file; [exact E2|]. apply files_bind. cbn [find_loop].
  apply files_bind. unfold find_file_in_dir. eapply files_bind, files_file_at; [by eapply with_file_at|].
  apply files_bind, files_ptr; [done|]. done.
Qed.

Lemma files_has_header k fname ab type s : fails -> inv k s ->
  post (_cpp_has_header os_open os_realpath None canonical_system_headers dopts fname ab type) s (fun r s' => inv k s').
Proof.
  intros Hfails Hi. unfold _cpp_has_header. apply files_bind.
  eapply files_mono; [by apply files_search_path_head|]. intros [d|] s1 (Hi1 & Hd & _); apply files_bind.
  - eapply files_mono; [apply (files_find_file k fname d); [by right|done|by apply Hd]|].
    intros r s2 (Hi2 & Hg2 & Hr). apply files_bind, files_ptr; [|done]. intros i ->. destruct Hr as (_ & f & E & _).
    eapply files_bind, files_file_at; [done|]. by apply files_ret.
  - by apply (files_find_null k).
Qed.

Lemma files_compare_file_date k fname ab s : fails -> inv k s ->
  post (_cpp_compare_file_date os_open os_realpath None canonical_system_headers dopts fname ab) s (fun r s' => inv k s').
Proof.
  intros Hfails Hi. unfold _cpp_compare_file_date. apply files_bind.
  eapply files_mono; [by apply files_search_path_head|]. intros [d|] s1 (Hi1 & Hd & _); [|by apply files_ret].
  apply files_bind. eapply files_mono; [apply (files_find_file k fname d); [by right|done|by apply Hd]|].
  intros r s2 (Hi2 & Hg2 & Hr). apply files_bind, files_ptr; [|done]. intros i ->. destruct Hr as (Hall & f & E & _).
  eapply files_bind, files_file_at; [done|]. destruct (negb _); [by apply files_ret|].
  eapply files_bind, files_mod_file; [done|]. set (g := set_opened _ _ _ f).
  assert (Hi3 : inv k (with_file i g s2)).
  { destruct (i_all _ _ Hi2 _ Hall) as (h & Eh & Hh). rewrite E in Eh. injection Eh as <-.
    eapply (inv_file k i f g (seen_once_only s2)); try done.
    - destruct Hh. split; try done. cbn. intros He. destruct (ok_opened0 He) as (q & st & Hq).
      exists q, st. cbn. by destruct Hq as (? & ? & ? & ? & ? & ? & ? & ?).
    - intros [?|Ho]; [done|]. by apply (i_once _ _ Hi2 i f E). }
  apply files_bind, files_get, files_bind, files_ptr; [|done]. intros b Hb. cbn [id] in Hb.
  assert (Hin : b ∈ buffers (with_file i g s2))
    by (destruct (buffers _) as [|c cs]; [done|]; injection Hb as ->; left).
  destruct (i_buffers _ _ Hi3 b Hin) as [Hball _]. destruct (i_all _ _ Hi3 _ Hball) as (h & Eh & _).
  eapply files_bind, files_file_at; [done|]. eapply files_bind, files_file_at; [by eapply with_file_at|]. by apply files_ret.
Qed.

Lemma files_pop_buffer k s : fails -> inv k s -> post _cpp_pop_buffer s (fun _ s' => inv k s').
Proof.
  intros Hfails Hi. unfold _cpp_pop_buffer. apply files_bind, files_get. cbn [id].
  destruct (buffers s) as [|b bs] eqn:Eb; [done|].
  assert (b ∈ buffers s) as Hb by (rewrite Eb; left). destruct (i_buffers _ _ Hi b Hb) as [Hall Hsz].
  destruct (i_all _ _ Hi _ Hall) as (f & E & Hf). apply files_bind, files_mod. unfold _cpp_pop_file_buffer.
  assert (Hi1 : inv k (set_buffers bs s)).
  { destruct Hi. split; try done; cbn. intros c Hc. apply i_buffers0. rewrite Eb. by right. }
  apply files_bind, files_get. cbn [id]. eapply files_bind, files_file_at; [done|].
  (* The controlling macro of a file that was stacked. *)
  assert (Hmac : forall Q : unit -> files -> Prop, (forall g s', inv k s' -> store s' !! b_file b = Some g ->
      b_file b ∈ all_files s' -> Q tt s') ->
    post (whenF (mi_valid (set_buffers bs s) && match f_cmacro f with None => true | Some _ => false end)
            (mod_file (b_file b) (set_cmacro (mi_cmacro (set_buffers bs s))))) (set_buffers bs s) Q).
  { intros Q HQ. apply files_when; intros _; [|by eapply HQ].
    eapply files_mod_file; [done|]. eapply HQ; [|by eapply with_file_at|done].
    eapply (inv_file k _ f (set_cmacro (mi_cmacro s) f) (seen_once_only s)); try done.
    - destruct Hf. split; try done. intros _. exact (Hsz f E).
    - intros [?|Ho]; [done|]. by apply (i_once _ _ Hi _ f E). }
  apply files_bind, Hmac. intros g s1 Hi2 Eg Hall1. apply files_bind, files_mod.
  assert (Hi3 : inv k (set_macro (mi_cmacro s1) false s1)) by (by apply (inv_core k s1)).
  apply files_when; intros _; [|done]. eapply files_mod_file; [exact Eg|].
  destruct (i_all _ _ Hi3 _ Hall1) as (g' & Eg' & Hg). assert (g' = g) as -> by (cbn in Eg'; congruence).
  eapply (inv_file k _ g (set_contents None false g) (seen_once_only s1)); try done.
  - destruct Hg. split; try done. intros He. destruct (ok_opened0 He) as (q & st & Hq).
    exists q, st. cbn. by destruct Hq as (? & ? & ? & ? & ? & ? & ? & ?).
  - intros [?|Ho]; [done|]. by apply (i_once _ _ Hi2 _ g Eg).
Qed.

Lemma files_pragma_once k b bs s : inv k s -> buffers s = b :: bs ->
  post (_cpp_mark_file_once_only (b_file b)) s (fun _ s' => inv k s').
Proof.
  intros Hi Eb. assert (b ∈ buffers s) as Hb by (rewrite Eb; left). destruct (i_buffers _ _ Hi b Hb) as [Hall Hsz].
  destruct (i_all _ _ Hi _ Hall) as (f & E & Hf). apply files_bind, files_mod. eapply files_mod_file; [done|].
  eapply (inv_file k _ f (set_once_only f) true); try done. destruct Hf. split; try done. intros _. exact (Hsz f E).
Qed.

Lemma files_read_main_file k macro_p fname s : fails -> inv k s ->
  post (cpp_read_main_file os_open os_read os_realpath None canonical_system_headers dopts macro_p fname) s
    (fun r s' => inv k s').
Proof.
  intros Hfails Hi. unfold cpp_read_main_file.
  assert (Hrest : forall s0, inv k s0 -> post (file ←f find_file fname (Some no_search_path) false false false ;;
      i ←f ptr file ;; modF (set_main (Some i)) ;;f f ←f file_at i ;;
      if negb (f_err_no f =? 0) then mret false
      else _cpp_stack_file os_open os_read dopts macro_p i false ;;f mret true) s0 (fun r s' => inv k s')).
  { intros s0 Hi0. pose proof (i_dirs _ _ Hi0) as [Hk _]. apply files_bind.
    eapply files_mono; [apply (files_find_file k fname no_search_path); [by right|done|unfold no_search_path; lia]|].
    intros r s1 (Hi1 & _ & Hr). apply files_bind, files_ptr; [|done]. intros i ->. destruct Hr as (Hall & f & E & _).
    apply files_bind, files_mod.
    assert (Hi2 : inv k (set_main (Some i) s1)) by (destruct Hi1; split; try done; cbn; by intros ? [= <-]).
    eapply files_bind, files_file_at; [done|]. destruct (negb _); [by apply files_ret|].
    apply files_bind. eapply files_mono; [by eapply files_stack_file|]. intros b s2 [H _]. by apply files_ret. }
  apply files_bind, files_when; intros _; [|by apply Hrest]. unfold default_target.
  apply files_bind, files_get, files_bind, files_ptr; [|done]. intros d _. apply files_mod, Hrest. by apply (inv_core k s).
Qed.
End Runs.

(** ** The states of a reader *)

Notation stack_include := (_cpp_stack_include os_open os_read os_realpath None canonical_system_headers dopts).
Notation find_file := (_cpp_find_file os_open os_realpath None canonical_system_headers dopts).
Notation has_header := (_cpp_has_header os_open os_realpath None canonical_system_headers dopts).

(** What the lexer and the directives do to the files: an inclusion, a query, the
    end of a file, #pragma once, and their own fields. *)
Inductive step : files -> files -> Prop :=
  | step_main macro_p fname r s s' :
      cpp_read_main_file os_open os_read os_realpath None canonical_system_headers dopts macro_p fname s = Some (r, s') ->
      step s s'
  | step_include macro_p fname ab type r s s' : stack_include macro_p fname ab type s = Some (r, s') -> step s s'
  | step_has fname ab type r s s' : has_header fname ab type s = Some (r, s') -> step s s'
  | step_date fname ab r s s' :
      _cpp_compare_file_date os_open os_realpath None canonical_system_headers dopts fname ab s = Some (r, s') -> step s s'
  | step_once b bs r s s' :
      buffers s = b :: bs -> _cpp_mark_file_once_only (b_file b) s = Some (r, s') -> step s s'
  | step_pop r s s' : _cpp_pop_buffer s = Some (r, s') -> step s s'
  | step_lexer c v i a s : step s (set_macro c v (set_in_has i (set_after_first a s))).

Definition reader (chain : list (list byte * Z)) (quotes : nat) (ignores : bool) : files -> Prop :=
  rtc step (new_files chain quotes ignores).

Lemma chain_dirs_lookup ds : forall n i dir, chain_dirs n ds !! i = Some dir ->
  d_next dir = if decide (S i < length ds)%nat then Some (S (n + i)) else None.
Proof.
  induction ds as [|[name sysp] ds IH]; intros n i dir; cbn [chain_dirs]; [done|].
  destruct i as [|i]; cbn [lookup list_lookup].
  - intros [= <-]. cbn. destruct ds; cbn; [by case_decide; [lia|]|]. case_decide; [|lia]. by rewrite Nat.add_0_r.
  - intros E. rewrite (IH _ _ _ E). cbn [length]. repeat case_decide; try lia; [|done]. f_equal. lia.
Qed.

Lemma length_chain_dirs n ds : length (chain_dirs n ds) = length ds.
Proof. revert n. induction ds as [|[name sysp] ds IH]; intros n; cbn; [done|]. by rewrite IH. Qed.

Lemma in_chain_bound k ds x : dirs_ok k ds -> forall fuel d, (forall y, d = Some y -> y < k)%nat ->
  in_chain fuel ds d x = true -> (x < k)%nat.
Proof.
  intros [Hk Hn]. induction fuel as [|fuel IH]; intros [d|] Hd; cbn [in_chain]; try done.
  destruct (Nat.eqb_spec d x) as [<-|]; cbn [orb]; [intros _; by apply Hd|].
  destruct (ds !! d) as [dir|] eqn:E; [|done]. apply IH. intros y Ey. by destruct (Hn _ _ _ E Ey).
Qed.

Lemma inv_new_files chain quotes ignores : inv (S (length chain)) (new_files chain quotes ignores).
Proof.
  set (ds := mk_dir None [] 0 :: chain_dirs 1 chain).
  assert (Hds : dirs_ok (S (length chain)) ds).
  { split; [unfold ds; cbn; rewrite length_chain_dirs; lia|]. intros d dir d' E En. destruct d as [|d].
    - injection E as <-. done.
    - cbn in E. rewrite (chain_dirs_lookup _ _ _ _ E) in En. case_decide; [|done]. injection En as <-. lia. }
  set (q := match chain with [] => None | _ => Some 1%nat end).
  assert (Hq : forall d, q = Some d -> (d < S (length chain))%nat).
  { unfold q. destruct chain; [done|]. intros d [= <-]. cbn. lia. }
  unfold new_files, cpp_set_include_chains. fold q. change (dirs _) with ds.
  split; try done; cbn.
  - intros d Hd. match type of Hd with (if ?b then _ else _) = _ => destruct b eqn:Ec end; [|by apply Hq].
    injection Hd as <-. by eapply (in_chain_bound _ ds _ Hds (S (length (chain_dirs 1 chain))) q).
  - intros i Hi. by apply elem_of_nil in Hi.
  - intros name d i. unfold hash_slot. cbn. rewrite lookup_empty. cbn. intros Hi. by apply elem_of_nil in Hi.
  - intros b Hb. by apply elem_of_nil in Hb.
Qed.

Section Reader.
Hypothesis errno_set : forall p, probe p = 0 -> exists st, os_open p = Opened st.
Context (chain : list (list byte * Z)) (quotes : nat) (ignores : bool).
Notation reader := (reader chain quotes ignores).
Notation inv := (inv (S (length chain))).

Lemma files_step_inv s s' : step s s' -> inv s -> inv s'.
Proof.
  intros [macro_p fname r ? ? H|macro_p fname ab type r ? ? H|fname ab type r ? ? H|fname ab r ? ? H|b bs r ? ? Eb H
    |r ? ? H|c v i a s0] Hi.
  - exact (files_returns _ _ _ _ _ (files_read_main_file True errno_set _ macro_p fname _ I Hi) H).
  - exact (proj1 (files_returns _ _ _ _ _ (files_stack_include True errno_set _ macro_p fname ab type _ I Hi) H)).
  - exact (files_returns _ _ _ _ _ (files_has_header True errno_set _ fname ab type _ I Hi) H).
  - exact (files_returns _ _ _ _ _ (files_compare_file_date True errno_set _ fname ab _ I Hi) H).
  - exact (files_returns _ _ _ _ _ (files_pragma_once True _ b bs _ Hi Eb) H).
  - exact (files_returns _ _ _ _ _ (files_pop_buffer True _ _ I Hi) H).
  - by apply (inv_core _ s0).
Qed.

Lemma reader_inv s : reader s -> inv s.
Proof.
  intros H. apply rtc_ind_r with (z := s) (P := inv) in H; [done|apply inv_new_files|].
  intros y z _ Hs Hi. by eapply files_step_inv.
Qed.

Lemma reader_head name ab type s d s1 : reader s -> search_path_head name ab type s = Some (Some d, s1) ->
  inv s1 /\ (d < length (dirs s1))%nat.
Proof.
  intros Hr Eh. destruct (files_returns _ _ _ _ _ (files_search_path_head True _ name ab type _ I (reader_inv _ Hr)) Eh)
    as (Hi & Hd & _). by split; [|apply Hd].
Qed.

(** A directory that a search along the client's chain ends in is not before the
    one it began with. *)
Lemma search_bounds k ds fname : dirs_ok k ds -> forall fuel d e p d', (d < k)%nat ->
  search fuel ds fname (Some d) = (e, Some (p, d')) -> (d <= d' < k)%nat.
Proof.
  intros [Hk Hn]. induction fuel as [|fuel IH]; intros d e p d' Hd; cbn [search]; [done|].
  destruct (ds !! d) as [dir|] eqn:E; [|done]. destruct (_ =? _); [|intros [= <- <- <-]; lia].
  destruct (d_next dir) as [d1|] eqn:En; [|by rewrite search_none].
  intros H. destruct (Hn _ _ _ E En) as [H1 H2]. apply IH in H; [|done]. specialize (H2 Hd). lia.
Qed.

Lemma search_none_error ds fname fuel d e : search fuel ds fname d = (e, None) -> e = ENOENT.
Proof.
  revert d. induction fuel as [|fuel IH]; intros d; cbn [search]; [by intros [= <-]|].
  destruct d as [d|]; [|by intros [= <-]]. destruct (ds !! d); [|by intros [= <-]]. destruct (_ =? _); [apply IH|done].
Qed.


(** C12: A header that is to be included once is. Where an inclusion stacks a file,
    no once-only file (#pragma once, #import), whatever its name, had the time and
    the text of the file; if the inclusion is an #import, no file that was stacked
    before had them. *)
Theorem once_only_stays_out macro_p name ab type s s' :
  reader s -> stack_include macro_p name ab type s = Some (true, s') ->
  exists b g p t, buffers s' = b :: buffers s /\ store s' !! b_file b = Some g /\ f_path g = Some p /\ text_at p = Some t
    /\ forall j f q, j ∈ all_files s -> store s !! j = Some f ->
         f_once_only f = true \/ type = IT_IMPORT /\ f_stack_count f <> 0 -> f_err_no f = 0 -> f_path f = Some q ->
         ~ (mtime_at q = mtime_at p /\ text_at q = Some t).
Proof.
  intros Hr E.
  destruct (proj2 (files_returns _ _ _ _ _ (files_stack_include True errno_set _ macro_p name ab type _ I (reader_inv _ Hr)) E)
    eq_refl) as (d & s1 & f0 & p & t & _ & _ & _ & (b & g & Hb & Eg & _ & _ & Ep & Ht) & Htwin).
  exists b, g, p, t. repeat (split; [done|]). intros j f q Hj Ej Ho He Eq [Hmt Htx].
  apply (Htwin j f q); try done. destruct Ho as [?|[-> ?]]; auto.
Qed.

(** C38: #include_next moves on. A file that it stacks was found in one of the
    client's directories, behind the one the including file was found in if that is
    one of the client's: the inclusions of one name by #include_next come to an
    end. *)
Theorem include_next_advances macro_p name ab s s' b bs f d0 :
  reader s -> buffers s = b :: bs -> store s !! b_file b = Some f -> f_dir f = Some d0 -> d0 <> no_search_path ->
  IS_ABSOLUTE_PATH name = false ->
  stack_include macro_p name ab IT_INCLUDE_NEXT s = Some (true, s') ->
  exists b' g d, buffers s' = b' :: buffers s /\ store s' !! b_file b' = Some g /\ f_dir g = Some d
    /\ (d <= length chain)%nat /\ (d0 <= length chain -> d0 < d)%nat.
Proof.
  intros Hr Eb E Ed Hn0 Habs Es. pose proof (reader_inv _ Hr) as Hi.
  destruct (proj2 (files_returns _ _ _ _ _ (files_stack_include True errno_set _ macro_p name ab _ _ I Hi) Es) eq_refl)
    as (d & s1 & f1 & p & t & Eh & Hh & Ho & (b' & g & Hb & Eg & Ha & He & Ep & Ht) & _).
  destruct Hh as (Hi1 & _ & _ & _ & _ & _ & more & Edirs).
  assert (exists dir, dirs s !! d0 = Some dir /\ d_next dir = Some d) as (dir & Edir & En).
  { destruct (i_all _ _ Hi (b_file b)) as (f' & E' & Hf); [apply (i_buffers _ _ Hi); rewrite Eb; left|].
    rewrite E in E'. injection E' as <-.
    destruct (lookup_lt_is_Some_2 (dirs s) d0) as [dir Edir]; [by apply (ok_dir _ _ Hf)|]. exists dir. split; [done|].
    unfold search_path_head in Eh. rewrite Habs in Eh. unfold next_dir, file_at, dir_at, bindF, getF, ptr in Eh.
    cbn [id mret F_ret] in Eh. rewrite Eb in Eh. unfold mret, F_ret in Eh. rewrite E, Ed in Eh. cbn [include_type_eqb andb] in Eh.
    destruct (Nat.eqb_spec d0 no_search_path); [done|]. cbn [negb] in Eh. rewrite Edir in Eh.
    destruct (d_next dir) as [x|]; cbn in Eh; unfold mret, F_ret, modF in Eh; congruence. }
  destruct (proj2 (i_dirs _ _ Hi) _ _ _ Edir En) as [H1 H2].
  assert (f_path f1 = Some p) as Ep1 by (rewrite <- (a_path _ _ Ha); done).
  rewrite <- (alike_outcome _ _ Ha) in Ho. unfold outcome in Ho. rewrite Ep in Ho.
  destruct (f_dir g) as [d'|] eqn:Edg.
  - exists b', g, d'. repeat (split; [done|]). symmetry in Ho. apply (search_bounds _ _ _ (i_dirs _ _ Hi1)) in Ho; [|done].
    split; [lia|]. intros Hle. specialize (H2 ltac:(lia)). lia.
  - exfalso. symmetry in Ho. apply search_none_error in Ho. by rewrite He in Ho.
Qed.

(** C39: __has_include_next and a missing directory. In a header that was found in
    the last directory of the chain the query reports an error, but goes on to
    search from a null directory, and follows it. *)
Theorem has_include_next_crashes name ab s s1 :
  reader s -> search_path_head name ab IT_INCLUDE_NEXT s = Some (None, s1) ->
  has_header name ab IT_INCLUDE_NEXT s = None.
Proof.
  intros Hr Eh. destruct (files_returns _ _ _ _ _ (files_search_path_head True _ name ab _ _ I (reader_inv _ Hr)) Eh) as (Hi & _).
  unfold _cpp_has_header, bindF. rewrite Eh.
  pose proof (files_find_null True _ name ab false s1 (fun _ _ => False) I Hi) as H. unfold post in H.
  by destruct (find_file _ _ _ _ _ _) as [[x s2]|].
Qed.
End Reader.

(** A file that no search has looked for is not where it could be read. *)
Lemma unsearched_crash fails macro_p i f s Q : fails -> store s !! i = Some f -> fresh (f_name f) f -> f_path f = None ->
  f_err_no f = 0 -> f_fd f = false -> post fails (_cpp_stack_file os_open os_read dopts macro_p i false) s Q.
Proof.
  intros Hf E [_ Ho Hv Hd Hs Hc] Ep He Hfd. unfold _cpp_stack_file. apply files_bind. unfold should_stack_file.
  eapply files_bind, files_file_at; [done|]. rewrite Ho. apply files_bind, files_ret. cbn [andb]. rewrite Hc.
  apply files_bind. unfold read_file. eapply files_bind, files_file_at; [done|]. rewrite Hv, Hd, He, Hfd. cbn [orb negb Z.eqb].
  apply files_bind. unfold open_file. eapply files_bind, files_file_at; [done|]. rewrite Ep. by apply files_bind, files_ptr.
Qed.

End Spec.

(** ** An example *)

(** Two directories with a header of the same name, and a header beside the main
    file; "./a.h" is another name of "a.h". *)
Definition ex_disk : list (list byte * (Z * list byte)) :=
  [(bytes "m.c", (1, bytes "main")); (bytes "inc1/h.h", (2, bytes "one")); (bytes "inc2/h.h", (3, bytes "two"));
   (bytes "a.h", (4, bytes "int a;")); (bytes "./a.h", (4, bytes "int a;"))].

Fixpoint on_disk (disk : list (list byte * (Z * list byte))) (p : list byte) : option (Z * list byte) :=
  match disk with
  | [] => None
  | (q, f) :: disk => if bool_decide (q = p) then Some f else on_disk disk p
  end.

Definition ex_open (p : list byte) : open_result :=
  match on_disk ex_disk p with
  | Some (t, text) => Opened (mk_stat Regular t (Z.of_nat (length text)))
  | None => OpenError ENOENT
  end.
Definition ex_read (p : list byte) : option (list byte) := snd <$> on_disk ex_disk p.
Definition ex_realpath (p : list byte) : option (list byte) := None.
Definition ex_opts : dep_options := mk_depopts 0 false false false.
Definition ex_chain : list (list byte * Z) := [(bytes "inc1", 0); (bytes "inc2", 1)].

Definition run {A} (m : F A) (s : files) : files := match m s with Some (_, s) => s | None => s end.
Definition ex_include (name : list byte) (ab : bool) (type : include_type) : F bool :=
  _cpp_stack_include ex_open ex_read ex_realpath None false ex_opts (fun _ => false) name ab type.
Definition ex_has (name : list byte) (ab : bool) (type : include_type) : F bool :=
  _cpp_has_header ex_open ex_realpath None false ex_opts name ab type.
Definition ex_main : files :=
  run (cpp_read_main_file ex_open ex_read ex_realpath None false ex_opts (fun _ => false) (bytes "m.c"))
    (new_files ex_chain 0 false).
Definition ex_first : files := run (ex_include (bytes "h.h") true IT_INCLUDE) ex_main.
Definition ex_second : files := run (ex_include (bytes "h.h") true IT_INCLUDE_NEXT) ex_first.
Definition ex_imported : files := run (ex_include (bytes "a.h") false IT_IMPORT) ex_main.

Lemma ex_errno p : probe ex_open p = 0 -> exists st, ex_open p = Opened st.
Proof.
  unfold probe, ex_open. destruct (on_disk ex_disk p) as [[t text]|]; [by eauto|]. vm_compute. done.
Qed.

Notation ex_reader := (reader ex_open ex_read ex_realpath false ex_opts ex_chain 0 false).

Lemma ex_main_reader : ex_reader ex_main.
Proof. eapply rtc_l; [|apply rtc_refl]. eapply (step_main _ _ _ _ _ (fun _ => false) (bytes "m.c") true). by vm_compute. Qed.

Lemma ex_include_reader s name ab type : ex_reader s ->
  match ex_include name ab type s with Some _ => True | None => False end -> ex_reader (run (ex_include name ab type) s).
Proof.
  intros Hr. unfold run. destruct (ex_include name ab type s) as [[r s']|] eqn:E; [intros _|done].
  eapply rtc_r; [exact Hr|]. by eapply step_include.
Qed.

Lemma ex_first_reader : ex_reader ex_first.
Proof. apply ex_include_reader; [apply ex_main_reader|by vm_compute]. Qed.
Lemma ex_second_reader : ex_reader ex_second.
Proof. apply ex_include_reader; [apply ex_first_reader|by vm_compute]. Qed.
Lemma ex_imported_reader : ex_reader ex_imported.
Proof. apply ex_include_reader; [apply ex_main_reader|by vm_compute]. Qed.


Lemma once_only_stays_out_witness :
  exists s', ex_include (bytes "h.h") true IT_INCLUDE ex_imported = Some (true, s') /\
  exists b g p t, buffers s' = b :: buffers ex_imported /\ store s' !! b_file b = Some g /\ f_path g = Some p
    /\ text_at ex_open ex_read p = Some t
    /\ forall j f q, j ∈ all_files ex_imported -> store ex_imported !! j = Some f ->
         f_once_only f = true \/ IT_INCLUDE = IT_IMPORT /\ f_stack_count f <> 0 -> f_err_no f = 0 -> f_path f = Some q ->
         ~ (mtime_at ex_open q = mtime_at ex_open p /\ text_at ex_open ex_read q = Some t).
Proof.
  eexists. split; [by vm_compute|].
  apply (once_only_stays_out ex_open ex_read ex_realpath false ex_opts ex_errno ex_chain 0 false (fun _ => false) (bytes "h.h") true);
    [exact ex_imported_reader|by vm_compute].
Defined.

Lemma include_next_advances_witness :
  exists s', ex_include (bytes "h.h") true IT_INCLUDE_NEXT ex_first = Some (true, s') /\
  exists b' g d, buffers s' = b' :: buffers ex_first /\ store s' !! b_file b' = Some g /\ f_dir g = Some d
    /\ (d <= length ex_chain)%nat /\ (1 <= length ex_chain -> 1 < d)%nat.
Proof.
  eexists. split; [by vm_compute|].
  eapply (include_next_advances ex_open ex_read ex_realpath false ex_opts ex_errno ex_chain 0 false (fun _ => false)
           (bytes "h.h") true ex_first _); [exact ex_first_reader|by vm_compute..].
Defined.

Lemma has_include_next_crashes_witness :
  (exists s1, search_path_head (bytes "x.h") true IT_INCLUDE_NEXT ex_second = Some (None, s1))
  /\ ex_has (bytes "x.h") true IT_INCLUDE_NEXT ex_second = None.
Proof.
  split; [eexists; by vm_compute|].
  eapply (has_include_next_crashes ex_open ex_read ex_realpath false ex_opts ex_errno ex_chain 0 false);
    [exact ex_second_reader|by vm_compute].
Defined.


(** A query is enough for an #import to be dropped: __has_include("./a.h") enters
    the file, and #import "a.h" takes its text for one that was included. *)
Lemma import_after_query_skipped :
  let queried := run (ex_has (bytes "./a.h") false IT_INCLUDE) ex_main in
  fst <$> ex_include (bytes "a.h") false IT_IMPORT ex_main = Some true
  /\ fst <$> ex_include (bytes "a.h") false IT_IMPORT queried = Some false
  /\ buffers queried = buffers ex_main.
Proof. by vm_compute. Qed.
