(* ===== verification/DirState.v ===== *)
(** * The reader as the directives see it

    A directive can touch every part of the preprocessor: the tokens of its
    line, the identifiers and the conditionals (Stream), the definitions
    (MacroDef), the line table (LineMap), the files (Files) and the pragmas.
    This file puts the parts together in one state and has the operations of
    directives.c that several handlers share.

    The tokens of the line are those of Stream: what cpp_get_token and
    _cpp_lex_token deliver, comments discarded.  What a callback is called
    with is recorded.  [None] is a null pointer that is followed, a failed
    assertion, or an evaluation that does not return. *)

From Stdlib Require Import ZArith Lia Bool String Ascii.
From stdpp Require Import base tactics list numbers gmap.
From S2P Require Import Prelude Reader CppNum NumLit Stream StrLit LineMap Deps Files MacroDef.

Local Open Scope string_scope.
Local Open Scope list_scope.
Local Open Scope Z_scope.

(** ** Pragmas and callbacks *)

(** The handlers of the pragmas of libcpp, and those a client registers. *)
Inductive pragma_handler : Type :=
  | PragmaOnce | PragmaPushMacro | PragmaPopMacro | PragmaPoison
  | PragmaSystemHeader | PragmaDependency | PragmaWarning | PragmaError
  | PragmaClient (n : nat).

(** An entry is a namespace ([is_nspace]) with entries of its own, or a pragma,
    deferred ([is_deferred], with its number) or with a handler. *)
Inductive pragma_entry : Type :=
  | PNamespace (pragma : list byte) (allow_expansion : bool) (space : list pragma_entry)
  | PDeferred (pragma : list byte) (allow_expansion : bool) (ident : Z)
  | PHandler (pragma : list byte) (is_internal allow_expansion : bool) (handler : pragma_handler).

(** A macro that was pushed: its text, or that it was undefined ([is_undef]), and
    two bits of the cpp_macro. *)
Record def_pragma_macro : Type := mk_pushed {
  pm_name : list byte;
  pm_definition : option (list byte);
  pm_syshdr : bool;
  pm_used : bool
}.

(** directive_result: padding, or the token of a deferred pragma. *)
Inductive result_token : Type := ResultPadding | ResultPragma (ident : Z) (flags : Z).

(** What the client is told. *)
Inductive call : Type :=
  | CallIdent (text : list byte)
  | CallDefPragma
  | CallPragma (n : nat)
  | CallInclude (name : list byte) (angle_brackets : bool)
  | CallFileChange (map : option nat)
  | CallLineChange
  | CallDefine (name : list byte)
  | CallUndef (name : list byte).

(** ** The state *)

Record lexer_state : Type := mk_lstate {
  ls_in_directive : bool;
  ls_angled_headers : bool;
  ls_directive_wants_padding : bool;
  ls_parsing_args : Z;
  ls_discarding_output : bool;
  ls_in_deferred_pragma : bool;
  ls_pragma_allow_expansion : bool;
  ls_poisoned_ok : bool
}.

Definition set_poisoned_ok (b : bool) (l : lexer_state) : lexer_state :=
  mk_lstate (ls_in_directive l) (ls_angled_headers l) (ls_directive_wants_padding l) (ls_parsing_args l)
    (ls_discarding_output l) (ls_in_deferred_pragma l) (ls_pragma_allow_expansion l) b.
Definition set_deferred (allow_expansion : bool) (l : lexer_state) : lexer_state :=
  mk_lstate (ls_in_directive l) (ls_angled_headers l) (ls_directive_wants_padding l) (ls_parsing_args l)
    (ls_discarding_output l) true allow_expansion (ls_poisoned_ok l).

Definition set_in_directive (b : bool) (l : lexer_state) : lexer_state :=
  mk_lstate b (ls_angled_headers l) (ls_directive_wants_padding l) (ls_parsing_args l)
    (ls_discarding_output l) (ls_in_deferred_pragma l) (ls_pragma_allow_expansion l) (ls_poisoned_ok l).
Definition set_header_state (angled padding : bool) (l : lexer_state) : lexer_state :=
  mk_lstate (ls_in_directive l) angled padding (ls_parsing_args l)
    (ls_discarding_output l) (ls_in_deferred_pragma l) (ls_pragma_allow_expansion l) (ls_poisoned_ok l).
Definition set_parsing_args (n : Z) (l : lexer_state) : lexer_state :=
  mk_lstate (ls_in_directive l) (ls_angled_headers l) (ls_directive_wants_padding l) n
    (ls_discarding_output l) (ls_in_deferred_pragma l) (ls_pragma_allow_expansion l) (ls_poisoned_ok l).

Record dstate : Type := mk_dstate {
  ds_reader : reader;
  ds_lexer : lexer_state;
  ds_macros : gmap (list Z) cpp_macro;
  ds_maps : line_maps;
  ds_files : files;
  ds_pragmas : list pragma_entry;
  ds_pushed : list def_pragma_macro;
  ds_result : result_token;
  ds_seen_line_directive : bool;
  ds_calls : list call;
  ds_diags : list diag
}.

Definition set_reader (r : reader) (s : dstate) : dstate :=
  mk_dstate r (ds_lexer s) (ds_macros s) (ds_maps s) (ds_files s) (ds_pragmas s) (ds_pushed s) (ds_result s)
    (ds_seen_line_directive s) (ds_calls s) (ds_diags s).
Definition set_lexer (l : lexer_state) (s : dstate) : dstate :=
  mk_dstate (ds_reader s) l (ds_macros s) (ds_maps s) (ds_files s) (ds_pragmas s) (ds_pushed s) (ds_result s)
    (ds_seen_line_directive s) (ds_calls s) (ds_diags s).
Definition set_macros_table (m : gmap (list Z) cpp_macro) (s : dstate) : dstate :=
  mk_dstate (ds_reader s) (ds_lexer s) m (ds_maps s) (ds_files s) (ds_pragmas s) (ds_pushed s) (ds_result s)
    (ds_seen_line_directive s) (ds_calls s) (ds_diags s).
Definition set_maps (m : line_maps) (s : dstate) : dstate :=
  mk_dstate (ds_reader s) (ds_lexer s) (ds_macros s) m (ds_files s) (ds_pragmas s) (ds_pushed s) (ds_result s)
    (ds_seen_line_directive s) (ds_calls s) (ds_diags s).
Definition set_files (f : files) (s : dstate) : dstate :=
  mk_dstate (ds_reader s) (ds_lexer s) (ds_macros s) (ds_maps s) f (ds_pragmas s) (ds_pushed s) (ds_result s)
    (ds_seen_line_directive s) (ds_calls s) (ds_diags s).
Definition set_pragmas (p : list pragma_entry) (s : dstate) : dstate :=
  mk_dstate (ds_reader s) (ds_lexer s) (ds_macros s) (ds_maps s) (ds_files s) p (ds_pushed s) (ds_result s)
    (ds_seen_line_directive s) (ds_calls s) (ds_diags s).
Definition set_pushed (p : list def_pragma_macro) (s : dstate) : dstate :=
  mk_dstate (ds_reader s) (ds_lexer s) (ds_macros s) (ds_maps s) (ds_files s) (ds_pragmas s) p (ds_result s)
    (ds_seen_line_directive s) (ds_calls s) (ds_diags s).
Definition set_result (t : result_token) (s : dstate) : dstate :=
  mk_dstate (ds_reader s) (ds_lexer s) (ds_macros s) (ds_maps s) (ds_files s) (ds_pragmas s) (ds_pushed s) t
    (ds_seen_line_directive s) (ds_calls s) (ds_diags s).
Definition set_seen_line (b : bool) (s : dstate) : dstate :=
  mk_dstate (ds_reader s) (ds_lexer s) (ds_macros s) (ds_maps s) (ds_files s) (ds_pragmas s) (ds_pushed s) (ds_result s)
    b (ds_calls s) (ds_diags s).
Definition add_call (c : call) (s : dstate) : dstate :=
  mk_dstate (ds_reader s) (ds_lexer s) (ds_macros s) (ds_maps s) (ds_files s) (ds_pragmas s) (ds_pushed s) (ds_result s)
    (ds_seen_line_directive s) (ds_calls s ++ [c]) (ds_diags s).
Definition add_diags (d : list diag) (s : dstate) : dstate :=
  mk_dstate (ds_reader s) (ds_lexer s) (ds_macros s) (ds_maps s) (ds_files s) (ds_pragmas s) (ds_pushed s) (ds_result s)
    (ds_seen_line_directive s) (ds_calls s) (ds_diags s ++ d).

(** ** The monad *)

Definition D (A : Type) : Type := dstate -> option (A * dstate).

#[export] Instance D_ret : MRet D := fun A x s => Some (x, s).

Definition bindD {A B} (m : D A) (f : A -> D B) : D B := fun s =>
  match m s with Some (x, s) => f x s | None => None end.

Notation "x ←d m ;; k" := (bindD m (fun x => k))
  (at level 100, m at next level, k at level 200, right associativity).
Notation "m ;;d k" := (bindD m (fun _ => k))
  (at level 100, k at level 200, right associativity).

Definition getD {A} (f : dstate -> A) : D A := fun s => Some (f s, s).
Definition modD (f : dstate -> dstate) : D unit := fun s => Some (tt, f s).
Definition failD {A} : D A := fun _ => None.
Definition whenD (b : bool) (m : D unit) : D unit := if b then m else mret tt.
Definition ptrD {A} (x : option A) : D A := match x with Some x => mret x | None => failD end.

(** The parts: diagnostics, the reader of Stream, the line table, the files. *)
Definition warnD {A} (w : W A) : D A := fun s => Some (snd w, add_diags (fst w) s).
Definition readD {A} (m : R A) : D A := fun s =>
  let '(d, (x, r)) := m (ds_reader s) in Some (x, add_diags d (set_reader r s)).
Definition mapsD {A} (m : LM A) : D A := fun s =>
  match m (ds_maps s) with Some (x, l) => Some (x, set_maps l s) | None => None end.

(** The files keep their diagnostics, and the fields they share with the reader,
    for the time of the call. *)
Definition clear_file_diags (f : files) : files :=
  mk_files (dirs f) (store f) (all_files f) (file_hash f) (dir_hash f) (nonexistent_file_hash f) (quote_include f)
    (bracket_include f) (quote_ignores_source_dir f) (seen_once_only f) (buffers f) (main_file f) (mi_cmacro f)
    (mi_valid f) (in_has_include f) (after_first_line f) (file_deps f) (allocations f) [].
Definition filesD {A} (m : F A) : D A := fun s =>
  let r := ds_reader s in
  match m (set_macro (r_mi_cmacro r) (r_mi_valid r) (clear_file_diags (ds_files s))) with
  | Some (x, f) =>
      Some (x, add_diags (file_diags f) (set_files f (set_reader (set_mi (mi_cmacro f) (mi_valid f) r) s)))
  | None => None
  end.

Definition errorD (l : cpp_diagnostic_level) (msg : string) : D unit := warnD (cpp_error l msg).

(** ** Lines and files *)

Section Options.
Context (dos : bool).

(** The client hears of the new map. *)
Definition _cpp_do_file_change (reason : lc_reason) (to_file : option (list byte)) (file_line sysp : Z) : D unit :=
  map ←d mapsD (linemap_add dos reason sysp to_file file_line) ;;
  match map with
  | Some i =>
      mapsD (m ←l ordinary_at i ;; r ←l linemap_line_start dos (to_line m) 127 ;; lret tt)
  | None => mret tt
  end ;;d
  modD (add_call (CallFileChange map)).
End Options.

(** line_table->depth == 1. *)
Definition cpp_in_primary_file : D bool := getD (fun s => depth (ds_maps s) =? 1).

(** [sysp] of the buffer on top. *)
Definition set_buffer_sysp (sysp : Z) : D unit :=
  bs ←d getD (fun s => buffers (ds_files s)) ;;
  match bs with
  | b :: bs => modD (fun s => set_files (set_buffers (mk_buffer (b_file b) sysp (b_to_free b) :: bs) (ds_files s)) s)
  | [] => failD
  end.

(** The macro contexts are left and the tokens up to the end of the line are
    passed over. *)
Definition skip_rest_of_line : R unit :=
  seen ←r gets SEEN_EOL ;;
  if seen then mret tt else modify (fun r => set_tokens [] (eof_token :: rev (r_stream r) ++ r_lexed r) r).

(** The tokens are finitely many, behind them there is no padding. *)
Fixpoint drop_padding (st lx : list cpp_token) : list cpp_token * list cpp_token :=
  match st with
  | t :: st' => if type_is t CPP_PADDING then drop_padding st' (t :: lx) else (st, lx)
  | [] => ([], lx)
  end.
Definition get_token_no_padding : R cpp_token :=
  modify (fun r => let '(st, lx) := drop_padding (r_stream r) (r_lexed r) in set_tokens st lx r) ;;r
  cpp_get_token.

(** The text of a string token without its quotes, as a C string. *)
Definition unquoted (t : cpp_token) : list byte := c_string (take (length (t_text t) - 2) (drop 1 (t_text t))).

(** The name of #include and #pragma dependency, which allows more tokens behind
    it. *)
Definition parse_include (pragma : bool) : R (option (list byte * bool)) :=
  header ←r get_token_no_padding ;;
  name ←r (if (type_is header CPP_STRING && negb (peek (t_text header) =? 82)) || type_is header CPP_HEADER_NAME
           then mret (Some (unquoted header, type_is header CPP_HEADER_NAME))
           else if type_is header CPP_LESS then name ←r glue_header_name ;; mret (Some (c_string name, true))
           else errorR CPP_DL_ERROR "#%s expects 'FILENAME' or <FILENAME>" ;;r mret None) ;;
  match name with
  | Some name => whenR (negb pragma) check_eol ;;r mret (Some name)
  | None => mret None
  end.

(** ** Laws *)

(** The state with the tokens of the line where they are. *)
Definition at_tokens (st lx : list cpp_token) (s : dstate) : dstate := set_reader (set_tokens st lx (ds_reader s)) s.

Lemma bindD_eq {A B} (m : D A) (f : A -> D B) s :
  bindD m f s = match m s with Some (x, s) => f x s | None => None end.
Proof. done. Qed.

Lemma bindD_some {A B} (m : D A) (f : A -> D B) s y s2 : bindD m f s = Some (y, s2) ->
  exists x s1, m s = Some (x, s1) /\ f x s1 = Some (y, s2).
Proof. unfold bindD. destruct (m s) as [[x s1]|]; [by exists x, s1|done]. Qed.

Lemma add_no_diags s : add_diags [] s = s.
Proof. destruct s. unfold add_diags. cbn. by rewrite app_nil_r. Qed.

(** The end of a line behind [t], and behind the end. *)
Lemma check_eol_line t lx s : type_is t CPP_EOF = false ->
  readD check_eol (at_tokens [] (t :: lx) s) = Some (tt, at_tokens [] (eof_token :: t :: lx) s).
Proof.
  intros Ht. unfold readD, check_eol, check_eol_1, bindR, gets, SEEN_EOL.
  cbn [at_tokens ds_reader set_reader set_tokens r_lexed]. rewrite Ht. cbn. by rewrite add_no_diags.
Qed.

Lemma skip_rest_line lx s :
  readD skip_rest_of_line (at_tokens [] (eof_token :: lx) s) = Some (tt, at_tokens [] (eof_token :: lx) s).
Proof. unfold readD. cbn. by rewrite add_no_diags. Qed.
