(* ===== verification/LineDir.v ===== *)
(** * Line numbers from directives

    directives.c, #line and the linemarkers of preprocessed output, and the
    printer of linemarkers, print_line_1 of gcc/c-family/c-ppoutput.c.  Line
    numbers are 32-bit unsigned.  LineDirSpec has the theorems. *)

From Stdlib Require Import ZArith Lia Bool String Ascii.
From stdpp Require Import base tactics list numbers gmap.
From S2P Require Import Prelude Macro Reader CppNum NumLit Stream Utf StrLit LineMap Deps Files MacroDef DirState.

Local Open Scope string_scope.
Local Open Scope list_scope.
Local Open Scope Z_scope.

(** ** Numbers *)

(** The digits up to the end; [None] at any other character.  [wrapped] is set
    where the number becomes smaller. *)
Fixpoint strtolinenum_loop (str : list byte) (reg reg_prev : Z) (wrapped : bool) : option (Z * bool) :=
  match str with
  | [] => Some (reg, wrapped)
  | c :: str =>
      if negb (ISDIGIT c) then None
      else
        let reg := u32 (u32 (reg * 10) + (c - 48)) in
        strtolinenum_loop str reg reg (wrapped || (reg <? reg_prev))
  end.
Definition strtolinenum (str : list byte) : option (Z * bool) := strtolinenum_loop str 0 0 false.

(** The next flag of a linemarker; 0 at the end, and where there is no flag. *)
Definition read_flag (last : Z) : R Z :=
  token ←r _cpp_lex_token ;;
  let flag := u32 (peek (t_text token) - 48) in
  if type_is token CPP_NUMBER && (length (t_text token) =? 1)%nat
     && ((last <? flag) && (flag <=? 4) && (negb (flag =? 4) || (last =? 3)) && (negb (flag =? 2) || (last =? 0)))
  then mret flag
  else
    whenR (negb (type_is token CPP_EOF)) (errorR CPP_DL_ERROR "invalid flag '%s' in line directive") ;;r
    mret 0.

Section Line.
Context (dos : bool) (o : cpp_options) (tab : ucn_table) (csets_ : csets).
Context (os_open : list byte -> open_result) (os_realpath : list byte -> option (list byte)).
Context (canonical_system_headers : bool) (dopts : dep_options).

(** The last map of the line table. *)
Definition last_map : D line_map_ordinary := mapsD (i ←l last_index ;; ordinary_at i).

(** The file name of a directive: the string with its escapes interpreted, up to
    a null character; the old name if that fails. *)
Definition directive_file (token : cpp_token) (file : option (list byte)) : D (option (list byte)) :=
  skipping ←d getD (fun s => r_skipping (ds_reader s)) ;;
  s ←d warnD (cpp_interpret_string_notranslate tab o skipping csets_ [t_text token]) ;;
  match s with
  | SOk text => mret (Some (c_string text))
  | SFail => mret file
  | _ => failD
  end.

Definition do_line : D unit :=
  map ←d last_map ;;
  token ←d readD cpp_get_token ;;
  match (if type_is token CPP_NUMBER then strtolinenum (t_text token) else None) with
  | None =>
      errorD CPP_DL_ERROR (if type_is token CPP_EOF then "unexpected end of file after #line"
                           else "'%s' after #line is not a positive integer")
  | Some (new_lineno, wrapped) =>
      let cap := if c99 o then 2147483647 else 32767 in
      (if cpp_pedantic o && ((new_lineno =? 0) || (cap <? new_lineno) || wrapped)
       then errorD CPP_DL_PEDWARN "line number out of range"
       else whenD wrapped (errorD CPP_DL_WARNING "line number out of range")) ;;d
      token ←d readD cpp_get_token ;;
      let change new_file :=
        readD skip_rest_of_line ;;d
        _cpp_do_file_change dos LC_RENAME_VERBATIM new_file new_lineno (sysp map) ;;d
        modD (set_seen_line true) in
      if type_is token CPP_STRING then
        new_file ←d directive_file token (to_file map) ;;
        readD check_eol ;;d change new_file
      else if type_is token CPP_EOF then change (to_file map)
      else errorD CPP_DL_ERROR "'%s' is not a valid filename"
  end.

(** The flags behind the name: why the file changes, and its sysp. *)
Definition marker_flags (new_file : option (list byte)) : D (lc_reason * Z) :=
  flag ←d readD (read_flag 0) ;;
  rf ←d (if flag =? 1 then
           name ←d ptrD new_file ;;
           filesD (_cpp_fake_include os_open os_realpath None canonical_system_headers dopts name) ;;d
           flag ←d readD (read_flag flag) ;; mret (LC_ENTER, flag)
         else if flag =? 2 then flag ←d readD (read_flag flag) ;; mret (LC_LEAVE, flag)
         else mret (LC_RENAME_VERBATIM, flag)) ;;
  let '(reason, flag) := rf in
  sysp ←d (if flag =? 3 then
             flag ←d readD (read_flag flag) ;; mret (if flag =? 4 then 2 else 1)
           else mret 0) ;;
  mret (reason, sysp).

(** A marker that leaves a file must name the file that included it. *)
Definition bad_nesting (new_file : option (list byte)) : D bool :=
  map ←d last_map ;;
  if MAIN_FILE_P map then mret true
  else
    from ←d mapsD (linemap_included_from_linemap map) ;;
    match from with
    | None => mret false
    | Some i =>
        from_map ←d mapsD (ordinary_at i) ;;
        name ←d ptrD (to_file from_map) ;; new_file ←d ptrD new_file ;;
        mret (negb (filename_eqb dos name new_file))
    end.

Definition do_linemarker : D unit :=
  map ←d last_map ;;
  readD _cpp_backup_token ;;d
  token ←d readD cpp_get_token ;;
  match (if type_is token CPP_NUMBER then strtolinenum (t_text token) else None) with
  | None => errorD CPP_DL_ERROR "'%s' after # is not a positive integer"
  | Some (new_lineno, _) =>
      token ←d readD cpp_get_token ;;
      let change reason new_file new_sysp :=
        readD skip_rest_of_line ;;d
        bad ←d (if bool_decide (reason = LC_LEAVE) then bad_nesting new_file else mret false) ;;
        if bad : bool then
          warnD (cpp_warning CPP_W_NONE "file '%s' linemarker ignored due to incorrect nesting")
        else
          modD (fun s => set_maps (set_highest_location (u32 (highest_location (ds_maps s) - 1)) (ds_maps s)) s) ;;d
          _cpp_do_file_change dos reason new_file new_lineno new_sysp ;;d
          modD (set_seen_line true) in
      if type_is token CPP_STRING then
        new_file ←d directive_file token (to_file map) ;;
        rs ←d marker_flags new_file ;;
        set_buffer_sysp rs.2 ;;d
        readD check_eol ;;d
        change rs.1 new_file rs.2
      else if type_is token CPP_EOF then change LC_RENAME_VERBATIM (to_file map) (sysp map)
      else errorD CPP_DL_ERROR "'%s' is not a valid filename"
  end.
End Line.

(** ** Printing *)

(** fprintf "%u". *)
Fixpoint decimal_loop (fuel : nat) (n : Z) (acc : list byte) : list byte :=
  match fuel with
  | O => acc
  | S fuel => let acc := (48 + n mod 10) :: acc in if n <? 10 then acc else decimal_loop fuel (n / 10) acc
  end.
Definition print_unsigned (n : Z) : list byte := decimal_loop 10 n [].

(** The marker for a line of a file; [special_flags] is empty, or " 1" or " 2"
    where a file is entered or left. *)
Definition print_line_1 (src_line : Z) (file_path special_flags : list byte) (sysp : Z) : list byte :=
  bytes "# " ++ print_unsigned (if src_line =? 0 then 1 else src_line) ++ [32; 34] ++ cpp_quote_string file_path ++ [34]
  ++ special_flags ++ (if sysp =? 2 then bytes " 3 4" else if sysp =? 1 then bytes " 3" else []) ++ [10].
