(* ===== verification/LineDirSpec.v ===== *)
(** * Line markers are read as they are printed

    The theorems of LineDir: what a number in a #line or a linemarker is worth,
    which flags a linemarker can have, and that the text print_line_1 writes is
    read back by the lexer and do_linemarker. *)

From Stdlib Require Import ZArith Lia Bool String Ascii.
From stdpp Require Import base tactics list numbers gmap.
From S2P Require Import Prelude Macro Reader CppNum NumLit Stream Utf StrLit LineMap LineHist Deps DepsSpec Files MacroDef MacroDefSpec CleanLine Lex LexGrammar LexSpec LexPaste LexLine Stringify DirState LineDir.

Local Open Scope string_scope.
Local Open Scope list_scope.
Local Open Scope Z_scope.

(** ** Decimal numbers *)

Definition digits (str : list byte) : bool := forallb ISDIGIT str.

(** The value of a string of digits. *)
Definition decimal (str : list byte) : Z := fold_left (fun n c => n * 10 + (c - 48)) str 0.

Lemma ISDIGIT_range c : ISDIGIT c = true <-> 48 <= c <= 57.
Proof. unfold ISDIGIT. rewrite andb_true_iff, !Z.leb_le. change (chr "0") with 48. change (chr "9") with 57. tauto. Qed.

Lemma decimal_app a b n : fold_left (fun n c => n * 10 + (c - 48)) (a ++ b) n =
  fold_left (fun n c => n * 10 + (c - 48)) b (fold_left (fun n c => n * 10 + (c - 48)) a n).
Proof. apply fold_left_app. Qed.

Lemma decimal_loop_spec fuel : forall n acc, 0 <= n < 10 ^ Z.of_nat fuel -> (0 < fuel)%nat ->
  exists ds, decimal_loop fuel n acc = ds ++ acc /\ ds <> [] /\ digits ds = true /\ decimal ds = n.
Proof.
  induction fuel as [|fuel IH]; intros n acc Hn Hf; [lia|]. cbn [decimal_loop].
  pose proof (Z.mod_pos_bound n 10 ltac:(lia)) as Hm.
  assert (ISDIGIT (48 + n mod 10) = true) as Hd by (apply ISDIGIT_range; lia).
  destruct (Z.ltb_spec n 10) as [Hl|Hl].
  - exists [48 + n mod 10]. split_and!; [done|done| |].
    + unfold digits. cbn [forallb]. by rewrite Hd.
    + unfold decimal. cbn [fold_left]. rewrite Z.mod_small by lia. lia.
  - rewrite Nat2Z.inj_succ, Z.pow_succ_r in Hn by lia.
    destruct fuel as [|fuel]; [change (10 ^ Z.of_nat 0) with 1 in Hn; lia|].
    destruct (IH (n / 10) ((48 + n mod 10) :: acc)) as (ds & E & Hne & Hds & Hv); [|lia|].
    { split; [apply Z.div_pos; lia|apply Z.div_lt_upper_bound; lia]. }
    exists (ds ++ [48 + n mod 10]). split_and!.
    + by rewrite E, <- app_assoc.
    + by destruct ds.
    + unfold digits in *. rewrite forallb_app, Hds. cbn [forallb]. by rewrite Hd.
    + unfold decimal in *. rewrite decimal_app, Hv. cbn [fold_left]. pose proof (Z.div_mod n 10 ltac:(lia)). lia.
Qed.

Lemma print_unsigned_spec n : 0 <= n < 2 ^ 32 ->
  print_unsigned n <> [] /\ digits (print_unsigned n) = true /\ decimal (print_unsigned n) = n.
Proof.
  intros Hn. destruct (decimal_loop_spec 10 n []) as (ds & E & H1 & H2 & H3); [cbn; lia|lia|].
  unfold print_unsigned. by rewrite E, app_nil_r.
Qed.

(** What strtolinenum makes of digits: the value modulo 2^32; the value is
    exact, and [wrapped] is clear, below 2^32. *)
Lemma strtolinenum_loop_spec str : digits str = true -> forall reg prev w, 0 <= reg ->
  exists w', strtolinenum_loop str (u32 reg) prev w =
    Some (u32 (fold_left (fun n c => n * 10 + (c - 48)) str reg), w').
Proof.
  induction str as [|c str IH]; intros Hd reg prev w Hr; cbn [strtolinenum_loop fold_left]; [by eexists|].
  cbn [digits forallb] in Hd. apply andb_prop in Hd as [Hc Hd]. rewrite Hc. cbn [negb].
  replace (u32 (u32 (u32 reg * 10) + (c - 48))) with (u32 (reg * 10 + (c - 48))).
  - apply IH; [done|]. apply ISDIGIT_range in Hc. lia.
  - unfold u32, wrapu. symmetry. rewrite Zplus_mod_idemp_l.
    by rewrite <- (Zplus_mod_idemp_l (reg mod _ * 10)), Zmult_mod_idemp_l, Zplus_mod_idemp_l.
Qed.

Lemma decimal_grows str : digits str = true -> forall n, 0 <= n ->
  n <= fold_left (fun n c => n * 10 + (c - 48)) str n.
Proof.
  induction str as [|c str IH]; intros Hd n Hn; cbn [fold_left]; [lia|].
  cbn [digits forallb] in Hd. apply andb_prop in Hd as [Hc Hd]. apply ISDIGIT_range in Hc.
  specialize (IH Hd (n * 10 + (c - 48)) ltac:(lia)). lia.
Qed.

Lemma strtolinenum_exact str : digits str = true -> forall reg prev, 0 <= prev <= reg ->
  fold_left (fun n c => n * 10 + (c - 48)) str reg < 2 ^ 32 ->
  strtolinenum_loop str reg prev false = Some (fold_left (fun n c => n * 10 + (c - 48)) str reg, false).
Proof.
  induction str as [|c str IH]; intros Hd reg prev Hp Hv; cbn [strtolinenum_loop fold_left]; [done|].
  cbn [digits forallb] in Hd. apply andb_prop in Hd as [Hc Hd]. rewrite Hc. cbn [negb fold_left] in *.
  apply ISDIGIT_range in Hc.
  pose proof (decimal_grows str Hd (reg * 10 + (c - 48)) ltac:(lia)) as Hg.
  assert (u32 (u32 (reg * 10) + (c - 48)) = reg * 10 + (c - 48)) as ->.
  { unfold u32, wrapu. rewrite (Z.mod_small (reg * 10)) by lia. apply Z.mod_small. lia. }
  assert (reg * 10 + (c - 48) <? prev = false) as -> by (apply Z.ltb_ge; lia). cbn [orb]. apply IH; [done|lia|done].
Qed.

(** The number of a line marker is read as it is printed. *)
Lemma printed_number n : 0 <= n < 2 ^ 32 -> strtolinenum (print_unsigned n) = Some (n, false).
Proof.
  intros Hn. destruct (print_unsigned_spec n Hn) as (_ & Hd & Hv). unfold strtolinenum, decimal in *.
  rewrite strtolinenum_exact; [by rewrite Hv|done|lia|]. rewrite Hv. lia.
Qed.

(** The overflow test misses numbers: #line 6000000000 is line 1705032704, and
    nothing is said. *)
Lemma overflow_missed : strtolinenum (bytes "6000000000") = Some (1705032704, false).
Proof. by vm_compute. Qed.


(** ** The tokens of a marker *)

(** A character of a file name. *)
Definition name_char (c : Z) : Prop := valid_char c /\ c <> 0.

(** The tokens of the line print_line_1 writes. *)
Definition marker_number (src_line : Z) : cpp_token :=
  mk_token CPP_NUMBER PREV_WHITE (print_unsigned (if src_line =? 0 then 1 else src_line)) [] 0 false.
Definition marker_name (file_path : list byte) : cpp_token :=
  mk_token CPP_STRING PREV_WHITE ([34] ++ cpp_quote_string file_path ++ [34]) [] 0 false.
Definition marker_flag (digit : byte) : cpp_token := mk_token CPP_NUMBER PREV_WHITE [digit] [] 0 false.
Definition hash_token : cpp_token := mk_token CPP_HASH 0 [35] [] 0 false.

Definition reason_flag (reason : lc_reason) : list byte :=
  match reason with LC_ENTER => [49] | LC_LEAVE => [50] | _ => [] end.
Definition sysp_flags (sysp : Z) : list byte := if sysp =? 2 then [51; 52] else if sysp =? 1 then [51] else [].
Definition marker_tokens (src_line : Z) (file_path : list byte) (reason : lc_reason) (sysp : Z) : list cpp_token :=
  marker_number src_line :: marker_name file_path :: map marker_flag (reason_flag reason ++ sysp_flags sysp).

(** The special_flags of a reason. *)
Definition special_flags (reason : lc_reason) : list byte :=
  match reason with LC_ENTER => bytes " 1" | LC_LEAVE => bytes " 2" | _ => [] end.

Section Tokens.
Context (tab : ucn_table) (o : cpp_options) (st : lex_flags) (node : list byte -> lex_node).
Context (Hang : angled_headers st = false).

Lemma alone_hash : alone tab o st node [35] hash_token.
Proof.
  split; [done|]. exists (mk_lexer false false), (mk_lexer false false). by destruct (digraphs o).
Qed.

Lemma digits_run ds prev : digits ds = true -> number_run o prev (ds ++ [10]) = (ds, [10]).
Proof.
  revert prev. induction ds as [|d ds IH]; intros prev H.
  - cbn [app number_run]. unfold is_number_char, DIGIT_SEP, VALID_SIGN. change (ISIDNUM 10) with false.
    change (isc 10 ".") with false. by destruct o.
  - cbn [digits forallb] in H. apply andb_prop in H as [Hd H]. cbn [app number_run].
    unfold is_number_char, ISIDNUM. rewrite Hd, orb_true_r. cbn [orb]. by rewrite IH.
Qed.

Lemma digits_kept ds : digits ds = true -> drop_separators o ds = ds.
Proof.
  induction ds as [|d ds IH]; intros H; [done|]. cbn [digits forallb] in H. apply andb_prop in H as [Hd H].
  cbn [drop_separators]. rewrite IH by done. destruct ds; [|done]. unfold DIGIT_SEP.
  apply digit_not_name in Hd as (_ & _ & _ & _ & Hq & _). unfold isc in Hq. by rewrite Hq.
Qed.

Lemma digits_loop ds fuel prev s : digits ds = true ->
  exists s', snd (number_loop tab o st (S fuel) prev s (ds ++ [10])) = (s', [10]).
Proof.
  intros H. cbn [number_loop]. rewrite digits_run, digits_kept, drop_app_length by done. unfold forms_identifier_p.
  change (look [10] 0) with 10. change (isc 10 "$") with false. change (isc 10 "\") with false.
  rewrite andb_false_r. cbn [andb]. by eexists.
Qed.

Lemma alone_digits ds : digits ds = true -> ds <> [] ->
  alone tab o st node ds (mk_token CPP_NUMBER PREV_WHITE ds [] 0 false).
Proof.
  intros Hd Hne. split; [done|]. destruct ds as [|d ds]; [done|]. pose proof Hd as Hd'.
  cbn [digits forallb] in Hd. apply andb_prop in Hd as [Hc Hd].
  destruct (digits_loop ds (length (ds ++ [10])) d (mk_scan INITIAL_NORMALIZE_STATE false) Hd) as (s' & E).
  exists (mk_lexer false false), (mk_lexer (sc_warn_dollars s') false).
  pose proof Hc as Hr. apply ISDIGIT_range in Hr. unfold lex_token. cbn [app].
  change (look (d :: ds ++ [10]) 0) with d. change (drop 1 (d :: ds ++ [10])) with (ds ++ [10]). cbv zeta.
  assert (is_nvspace d = false) as ->.
  { unfold is_nvspace. rewrite !orb_false_iff, !Z.eqb_neq. lia. }
  assert (d =? 10 = false) as -> by (apply Z.eqb_neq; lia). rewrite Hc.
  unfold lex_number_token, lex_number. rewrite !snd_W_bind. change (look (d :: ds ++ [10]) 0) with d.
  cbn [lx_warn_dollars]. rewrite E.
  cbn [snd mret W_ret]. rewrite !snd_W_bind. cbn [snd mret W_ret fst].
  change (d :: ds ++ [10]) with ((d :: ds) ++ [10]). by rewrite text_to_app.
Qed.

Lemma str_body_high bs t : Forall (fun b => 128 <= b) bs -> str_body 34 t -> str_body 34 (bs ++ t).
Proof.
  intros H Ht. induction H as [|b bs Hb _ IH]; [done|]. cbn [app]. apply sb_char; [|lia..|done].
  unfold isc. apply Z.eqb_neq. change (chr "\") with 92. lia.
Qed.

(** What is between the quotes ends at the closing one. *)
Lemma quoted_body cs : Forall valid_char cs -> str_body 34 (cpp_quote_string (concat (map utf8 cs)) ++ [34]).
Proof.
  intros H. rewrite quote_text by done. induction H as [|c cs [Hc _] _ IH]; [constructor|].
  cbn [map concat]. rewrite <- app_assoc. unfold quote_item.
  destruct (Z.eqb_spec c 10) as [->|H10]; [by apply (sb_escape 34 110)|].
  destruct (Z.eqb_spec c 92) as [->|H92]; [by apply (sb_escape 34 92)|].
  destruct (Z.eqb_spec c 34) as [->|H34]; [by apply (sb_escape 34 34)|]. cbn [orb item_text].
  destruct (Z.ltb_spec c 128).
  - rewrite utf8_ascii by lia. cbn [app]. apply sb_char; [|done..]. by apply Z.eqb_neq.
  - apply str_body_high; [|done]. apply utf8_high. lia.
Qed.

Lemma alone_name cs : Forall valid_char cs ->
  alone tab o st node (t_text (marker_name (concat (map utf8 cs)))) (marker_name (concat (map utf8 cs))).
Proof.
  intros H. split; [done|]. exists (mk_lexer false false), (mk_lexer false false). cbn [marker_name t_text].
  set (body := cpp_quote_string (concat (map utf8 cs)) ++ [34]).
  change (([34] ++ body) ++ [10]) with ([] ++ 34 :: body ++ [10]).
  rewrite (lex_token_literal tab o st node 0 [] 34 CPP_STRING) by by left.
  destruct (string_body_app st Hang 34 body [10] false eq_refl (quoted_body cs H)) as (saw & E).
  match goal with |- context [lex_string o st node ?b] =>
    assert (snd (lex_string o st node b) = (CPP_STRING, [10])) as -> end.
  { unfold lex_string. destruct (prefix_computed o [] 34 CPP_STRING (body ++ [10])) as [-> ->]; [by left|].
    rewrite E. cbn [negb andb]. rewrite !snd_W_bind. unfold literal_suffix, is_macro_not_literal_suffix, is_macro.
    change (ISIDST (look [10] 0)) with false. change (isc (look [10] 0) "_") with false. by destruct (user_literals o). }
  cbn [fst snd]. unfold simple_token. change ([] ++ 34 :: body ++ [10]) with ((34 :: body) ++ [10]).
  by rewrite text_to_app.
Qed.
End Tokens.

(** ** The printed text *)

Lemma print_white o prev t s ts : flag (t_flags t) PREV_WHITE = true -> cpp_spell_token t true = Some s ->
  print_line o prev (t :: ts) = (fun p => [32] ++ s ++ p) <$> print_line o (Some t) ts.
Proof. intros Hw Hs. cbn [print_line]. rewrite Hs, Hw. cbn [mbind option_bind orb]. by destruct (print_line o (Some t) ts). Qed.

Lemma marker_printed o src_line path reason sysp :
  exists p, print_line o None (hash_token :: marker_tokens src_line path reason sysp) = Some p /\
    print_line_1 src_line path (special_flags reason) sysp = p ++ [10].
Proof.
  cbn [print_line]. unfold marker_tokens. rewrite (print_white o _ (marker_number src_line) _ _ eq_refl eq_refl).
  rewrite (print_white o _ (marker_name path) _ _ eq_refl eq_refl).
  assert (forall prev ds, print_line o prev (map marker_flag ds) = Some (concat (map (fun d => [32; d]) ds))) as H.
  { intros prev ds. revert prev. induction ds as [|d ds IH]; intros prev; [done|]. cbn [map concat].
    by rewrite (print_white o _ (marker_flag d) [d] _ eq_refl eq_refl), IH. }
  rewrite H. cbn [fmap option_fmap option_map mbind option_bind]. eexists. split; [reflexivity|].
  unfold print_line_1, marker_number, marker_name. cbn [t_text cpp_spell_token]. rewrite map_app, concat_app, <- !app_assoc.
  change (bytes "# ") with [35; 32]. cbn. do 2 f_equal. f_equal. do 2 f_equal. f_equal. f_equal. unfold sysp_flags.
  destruct reason, (sysp =? 2), (sysp =? 1); reflexivity.
Qed.

Lemma marker_gap_free o src_line path reason sysp :
  gap_free o (hash_token :: marker_tokens src_line path reason sysp) = true.
Proof.
  assert (forall ds, gap_free o (map marker_flag ds) = true) as H.
  { induction ds as [|d ds IH]; [done|]. cbn [map gap_free]. change (map marker_flag ds) with (map marker_flag ds) in IH.
    cbn [map gap_free] in IH |- *. rewrite IH. by destruct ds. }
  unfold marker_tokens. cbn [gap_free]. rewrite H. by destruct (reason_flag reason ++ sysp_flags sysp).
Qed.

(** The lexer reads the marker's tokens from its text. *)
Lemma marker_lexed tab o st node src_line cs reason sysp x :
  angled_headers st = false -> operators_marked node -> 0 <= src_line < 2 ^ 32 -> Forall valid_char cs ->
  let text := print_line_1 src_line (concat (map utf8 cs)) (special_flags reason) sysp in
  exists ts x', snd (lex_line tab o st node (length text) 0 text x) = Some (ts, x') /\
    Forall2 same_token (hash_token :: marker_tokens src_line (concat (map utf8 cs)) reason sysp) ts.
Proof.
  intros Hang Hop Hl Hcs text. set (path := concat (map utf8 cs)) in *.
  assert (Forall (fun t => exists s, alone tab o st node s t) (hash_token :: marker_tokens src_line path reason sysp)) as Hall.
  { destruct (print_unsigned_spec (if src_line =? 0 then 1 else src_line)) as (Hne & Hd & _).
    { destruct (Z.eqb_spec src_line 0); lia. }
    constructor; [by exists [35]; apply alone_hash|]. constructor; [by eexists; apply alone_digits|].
    constructor; [by eexists; apply alone_name|]. apply List.Forall_map, List.Forall_forall. intros d Hin. exists [d].
    apply alone_digits; [|done].
    assert (In d [49; 50; 51; 52]) as Hin'.
    { apply in_app_or in Hin as [Hin|Hin]; [destruct reason; simpl in *; tauto|].
      unfold sysp_flags in Hin. destruct (sysp =? 2), (sysp =? 1); simpl in *; tauto. }
    by destruct Hin' as [<-|[<-|[<-|[<-|[]]]]]. }
  destruct (marker_printed o src_line path reason sysp) as (p & Hp & E).
  destruct (reprint_read tab o st node Hang _ Hop Hall (marker_gap_free o src_line path reason sysp) None 0 (length text)
    x plain_zero) as (p' & Hp' & Hr).
  rewrite Hp in Hp'. injection Hp' as <-. fold text in E. rewrite E in Hr |- *.
  destruct Hr as (ts & x' & H1 & H2); [rewrite length_app; simpl; lia|]. by exists ts, x'.
Qed.

(** ** The handler *)

Section Handler.
Context (dos : bool) (o : cpp_options) (tab : ucn_table) (csets_ : csets).
Context (os_open : list byte -> open_result) (os_realpath : list byte -> option (list byte)).
Context (canonical_system_headers : bool) (dopts : dep_options).

Notation do_linemarker := (do_linemarker dos o tab csets_ os_open os_realpath canonical_system_headers dopts).
Notation fake_include := (_cpp_fake_include os_open os_realpath None canonical_system_headers dopts).

(** The part of a marker that changes the files. *)
Definition files_part (reason : lc_reason) (name : list byte) (sysp : Z) : D unit :=
  whenD (bool_decide (reason = LC_ENTER)) (filesD (fake_include name)) ;;d set_buffer_sysp sysp.

(** What a marker means: the line behind it is line [line] of [name]. *)
Definition marker_effect (reason : lc_reason) (name : list byte) (line sysp : Z) : D unit :=
  files_part reason name sysp ;;d
  modD (fun s => set_maps (set_highest_location (u32 (highest_location (ds_maps s) - 1)) (ds_maps s)) s) ;;d
  _cpp_do_file_change dos reason (Some name) line sysp ;;d
  modD (set_seen_line true).

Lemma at_tokens_twice a b c d s : at_tokens a b (at_tokens c d s) = at_tokens a b s.
Proof. done. Qed.

(** Files do not look at the tokens. *)
Lemma filesD_tokens {A} (m : F A) st lx s :
  filesD m (at_tokens st lx s) =
  match filesD m s with Some (x, s) => Some (x, at_tokens st lx s) | None => None end.
Proof. unfold filesD. cbn. by destruct (m _) as [[x f]|]. Qed.

Lemma readD_token t st lx s : type_is t CPP_EOF = false ->
  readD cpp_get_token (at_tokens (t :: st) lx s) = Some (t, add_diags [] (at_tokens st (t :: lx) s)).
Proof. intros H. unfold readD, cpp_get_token. cbn. by rewrite H. Qed.

Definition is_flag (t : cpp_token) (d : Z) : Prop := t_type t = CPP_NUMBER /\ t_text t = [d].

(** [last] allows the flag [d]. *)
Definition follows (last d : Z) : bool :=
  (last <? d - 48) && (d - 48 <=? 4) && (negb (d - 48 =? 4) || (last =? 3)) && (negb (d - 48 =? 2) || (last =? 0)).

Lemma flag_not_eof t d : is_flag t d -> type_is t CPP_EOF = false.
Proof. intros [Ht _]. unfold type_is. by rewrite Ht. Qed.

Lemma read_flag_token last t d st lx s : is_flag t d -> 48 <= d -> follows last d = true ->
  readD (read_flag last) (at_tokens (t :: st) lx s) = Some (d - 48, at_tokens st (t :: lx) s).
Proof.
  intros Hf Hd Hl. pose proof (flag_not_eof t d Hf) as He. destruct Hf as [Ht Hx].
  assert (type_is t CPP_NUMBER = true) as Hn by (unfold type_is; by rewrite Ht).
  unfold follows in Hl. assert (u32 (d - 48) = d - 48) as Hu by (bprop; unfold u32, wrapu; apply Z.mod_small; lia).
  unfold readD, read_flag, _cpp_lex_token, bindR, cpp_get_token. cbn [at_tokens ds_reader set_reader set_tokens r_stream].
  rewrite He, Hn, Hx. cbn [length peek hd]. rewrite Hu. change (1 =? 1)%nat with true. cbn [andb]. rewrite Hl.
  cbn [mret R_ret app]. by rewrite add_no_diags.
Qed.

Lemma read_flag_end last lx s :
  readD (read_flag last) (at_tokens [] lx s) = Some (0, at_tokens [] (eof_token :: lx) s).
Proof. unfold readD. cbn. by rewrite add_no_diags. Qed.

Lemma check_eol_seen st lx s :
  readD check_eol (at_tokens st (eof_token :: lx) s) = Some (tt, at_tokens st (eof_token :: lx) s).
Proof. unfold readD. cbn. by rewrite add_no_diags. Qed.

Lemma set_buffer_sysp_tokens sysp st lx s :
  set_buffer_sysp sysp (at_tokens st lx s) =
  match set_buffer_sysp sysp s with Some (x, s) => Some (x, at_tokens st lx s) | None => None end.
Proof. unfold set_buffer_sysp, bindD, getD. cbn. by destruct (buffers (ds_files s)). Qed.

Definition marker_reason (reason : lc_reason) : Prop :=
  reason = LC_ENTER \/ reason = LC_LEAVE \/ reason = LC_RENAME_VERBATIM.

(** Take a list of flags apart, and run the reader over it. *)
Ltac split_flags :=
  repeat match goal with
  | H : Forall2 is_flag ?ts (_ :: _) |- _ => inversion H; clear H; subst
  | H : Forall2 is_flag ?ts [] |- _ => inversion H; clear H; subst
  end.
Ltac read_flags :=
  unfold marker_flags, files_part, bindD;
  repeat match goal with |- context [bool_decide ?P] =>
    let b := eval vm_compute in (bool_decide P) in change (bool_decide P) with b end;
  cbn [whenD rev app]; rewrite ?filesD_tokens;
  try match goal with |- context [filesD ?m ?s] => is_var s; destruct (filesD m s) as [[[] ?]|] eqn:Hfiles end;
  repeat (first [ erewrite read_flag_token by (done || lia)
                | rewrite read_flag_end
                | rewrite filesD_tokens; match goal with H : filesD _ _ = _ |- _ => rewrite H end
                | rewrite set_buffer_sysp_tokens
                | erewrite check_eol_line by (by eapply flag_not_eof)
                | rewrite check_eol_seen ];
          repeat match goal with |- context [?d - 48] =>
            let v := eval vm_compute in (d - 48) in change (d - 48) with v end;
          cbn [Z.eqb Pos.eqb ptrD mret D_ret snd fst]);
  try match goal with |- context [set_buffer_sysp ?n ?s] => is_var s; destruct (set_buffer_sysp n s) as [[[] ?]|] end;
  repeat (first [erewrite check_eol_line by (by eapply flag_not_eof) | rewrite check_eol_seen]);
  try done.

(** The flags give back the reason and [sysp], and end the line. *)
Lemma marker_flags_read {A} reason sysp name ts lx (k : lc_reason * Z -> D A) s :
  marker_reason reason -> 0 <= sysp <= 2 -> Forall2 is_flag ts (reason_flag reason ++ sysp_flags sysp) ->
  (rs ←d marker_flags os_open os_realpath canonical_system_headers dopts (Some name) ;;
   set_buffer_sysp rs.2 ;;d readD check_eol ;;d k rs) (at_tokens ts lx s) =
  (files_part reason name sysp ;;d k (reason, sysp)) (at_tokens [] (eof_token :: rev ts ++ lx) s).
Proof.
  intros Hr Hs Hts. assert (sysp = 0 \/ sysp = 1 \/ sysp = 2) as Hs' by lia. clear Hs.
  destruct Hr as [-> | [-> | ->]], Hs' as [-> | [-> | ->]]; cbn in Hts; split_flags; read_flags.
Qed.

(** The string denotes the name. *)
Lemma utf8_nonzero c : name_char c -> Forall (fun b => b <> 0) (utf8 c).
Proof.
  intros [[Hc _] H0]. destruct (Z.ltb_spec c 128) as [Ha|Ha].
  - rewrite utf8_ascii by lia. by constructor.
  - eapply Forall_impl; [apply (utf8_high c); lia|]. intros b Hb. cbn in Hb. lia.
Qed.

Lemma name_nonzero cs : Forall name_char cs -> Forall (fun b => b <> 0) (concat (map utf8 cs)).
Proof. induction 1 as [|c cs Hc _ IH]; [constructor|]. cbn [map concat]. apply Forall_app. split; [by apply utf8_nonzero|done]. Qed.

Lemma directive_file_name t cs file s : Forall name_char cs -> 0 < char_precision o <= 32 -> quiet_options o ->
  t_text t = t_text (marker_name (concat (map utf8 cs))) ->
  directive_file o tab csets_ t file s = Some (Some (concat (map utf8 cs)), s).
Proof.
  intros Hcs Hcp Hq Ht. unfold directive_file, bindD, getD. rewrite Ht. cbn [marker_name t_text].
  assert (Forall valid_char cs) as Hv by (eapply Forall_impl; [exact Hcs|intros ? []; done]).
  rewrite quote_text by done. set (items := map quote_item cs).
  assert (Forall item_ok items) as Hi.
  { apply List.Forall_map. eapply Forall_impl; [exact Hv|]. apply quote_item_ok. }
  set (l := mk_lit [] 34 (fst (literal_of items)) (snd (literal_of items))).
  assert ([34] ++ concat (map item_text items) ++ [34] = token_text l) as ->.
  { unfold token_text, l. cbn [lit_prefix lit_quote lit_parts lit_last app]. by rewrite literal_of_text. }
  unfold cpp_interpret_string_notranslate. set (d := mk_csets _ _ _ _ _).
  pose proof (interpret_string_spec tab o (r_skipping (ds_reader s)) d CPP_STRING utf8 valid_char [l]) as H. cbv zeta in H.
  cbn [map concat] in H. rewrite app_nil_r in H. rewrite H; [|apply identity_set|cbn; lia|lia|done|].
  - unfold token_exec. cbn [l lit_parts lit_last]. rewrite literal_of_exec. unfold items. rewrite map_map.
    rewrite (map_ext _ utf8) by apply quote_item_exec.
    unfold numeric_bytes. cbn [converter_for_type d narrow_cset_desc cs_width]. rewrite Z.eqb_refl. cbn [negb].
    unfold warnD. cbn [fst snd]. rewrite add_no_diags. unfold mret, D_ret.
    by rewrite c_string_app by by apply name_nonzero.
  - constructor; [|constructor]. split_and!; [by left|by left|]. by apply literal_of_ok.
Qed.

(** What the line table answers does not depend on the rest of the state. *)
Lemma mapsD_frame {A} (m : LM A) s t x s1 : ds_maps t = ds_maps s -> mapsD m s = Some (x, s1) ->
  mapsD m t = Some (x, set_maps (ds_maps s1) t).
Proof. intros E. unfold mapsD. rewrite E. destruct (m (ds_maps s)) as [[y l]|]; [|done]. by intros [= -> <-]. Qed.

Lemma bad_nesting_frame name s t b s1 : ds_maps t = ds_maps s -> bad_nesting dos name s = Some (b, s1) ->
  bad_nesting dos name t = Some (b, set_maps (ds_maps s1) t).
Proof.
  intros E H. unfold bad_nesting in *. apply bindD_some in H as (map & s2 & H1 & H).
  apply (mapsD_frame _ s t) in H1; [|done]. unfold bindD at 1. unfold last_map in *. rewrite H1.
  destruct (MAIN_FILE_P map); [by injection H as <- <-|].
  apply bindD_some in H as (from & s3 & H2 & H). apply (mapsD_frame _ s2 (set_maps (ds_maps s2) t)) in H2; [|done].
  unfold bindD at 1. rewrite H2. destruct from as [i|]; [|by injection H as <- <-].
  apply bindD_some in H as (fm & s4 & H3 & H).
  apply (mapsD_frame _ s3 (set_maps (ds_maps s3) (set_maps (ds_maps s2) t))) in H3; [|done].
  unfold bindD at 1. rewrite H3. destruct (to_file fm) as [n1|]; [|done]. destruct name as [n2|]; [|done].
  cbn in H |- *. by injection H as <- <-.
Qed.

(** The maps once a marker that leaves a file has been compared with the file
    it returns to. *)
Definition returns_to (reason : lc_reason) (name : list byte) (s : dstate) (maps : line_maps) : Prop :=
  if bool_decide (reason = LC_LEAVE) then bad_nesting dos (Some name) s = Some (false, set_maps maps s)
  else maps = ds_maps s.

Lemma filesD_maps {A} (m : F A) s x s1 : filesD m s = Some (x, s1) -> ds_maps s1 = ds_maps s.
Proof. unfold filesD. destruct (m _) as [[y f]|]; [|done]. by intros [= _ <-]. Qed.

Lemma set_buffer_sysp_maps n s x s1 : set_buffer_sysp n s = Some (x, s1) -> ds_maps s1 = ds_maps s.
Proof. unfold set_buffer_sysp, bindD, getD. destruct (buffers (ds_files s)); [done|]. by intros [= _ <-]. Qed.

Lemma same_type t u ty : bare u = bare t -> t_type t = ty -> t_type u = ty.
Proof. intros E <-. by apply (f_equal t_type) in E. Qed.
Lemma same_text t u : bare u = bare t -> t_text u = t_text t.
Proof. intros E. by apply (f_equal t_text) in E. Qed.

Lemma flags_same ds ts : Forall2 same_token (map marker_flag ds) ts -> Forall2 is_flag ts ds.
Proof.
  revert ts. induction ds as [|d ds IH]; intros ts H; inversion H as [|? t ? ts' [Hb _] Hts]; subst; constructor.
  - split; [by eapply same_type|]. by rewrite (same_text _ _ Hb).
  - by apply IH.
Qed.

Lemma files_part_maps reason name sysp maps s :
  files_part reason name sysp (set_maps maps s) =
  match files_part reason name sysp s with Some (x, s) => Some (x, set_maps maps s) | None => None end.
Proof.
  unfold files_part, bindD. destruct (bool_decide _); cbn [whenD mret D_ret].
  - unfold filesD. cbn [set_maps ds_reader ds_files]. destruct (fake_include name _) as [[[] f]|]; [|done].
    unfold set_buffer_sysp, bindD, getD. cbn. by destruct (buffers f).
  - unfold set_buffer_sysp, bindD, getD. cbn. by destruct (buffers _).
Qed.

Lemma files_part_state reason name sysp st lx s x s2 :
  files_part reason name sysp (at_tokens st lx s) = Some (x, s2) ->
  exists s1, s2 = at_tokens st lx s1 /\ ds_maps (at_tokens st lx s1) = ds_maps s.
Proof.
  unfold files_part, bindD. assert (forall s0, set_buffer_sysp sysp (at_tokens st lx s0) = Some (x, s2) -> 
    ds_maps s0 = ds_maps s -> exists s1, s2 = at_tokens st lx s1 /\ ds_maps (at_tokens st lx s1) = ds_maps s) as H.
  { intros s0. rewrite set_buffer_sysp_tokens. destruct (set_buffer_sysp sysp s0) as [[y s1]|] eqn:E; [|done].
    intros [= _ <-] Em. exists s1. split; [done|]. apply set_buffer_sysp_maps in E. by rewrite <- Em, <- E. }
  destruct (bool_decide _); cbn [whenD mret D_ret].
  - rewrite filesD_tokens. destruct (filesD _ s) as [[y s1]|] eqn:E; [|done]. intros Hs. apply (H s1 Hs). by eapply filesD_maps.
  - intros Hs. by apply (H s Hs).
Qed.

Lemma set_maps_same s : set_maps (ds_maps s) s = s.
Proof. by destruct s. Qed.

Lemma backup_reread num ts hash s : type_is num CPP_EOF = false ->
  (readD _cpp_backup_token ;;d readD cpp_get_token) (at_tokens ts [num; hash] s) = Some (num, at_tokens ts [num; hash] s).
Proof.
  intros H. unfold bindD, readD at 1. cbn [_cpp_backup_token modify at_tokens ds_reader set_reader set_tokens r_lexed r_stream].
  pose proof (readD_token num ts [hash] s H) as E. rewrite add_no_diags in E. unfold at_tokens in *. cbn in *.
  rewrite add_no_diags. exact E.
Qed.

(** do_linemarker on the tokens of a marker. *)
Lemma linemarker_handled src_line cs reason sysp hash num ts map maps s :
  Forall name_char cs -> 0 < char_precision o <= 32 -> quiet_options o -> 0 <= src_line < 2 ^ 32 ->
  marker_reason reason -> 0 <= sysp <= 2 -> last_map s = Some (map, s) ->
  returns_to reason (concat (List.map utf8 cs)) s maps ->
  Forall2 same_token (marker_tokens src_line (concat (List.map utf8 cs)) reason sysp) (num :: ts) ->
  do_linemarker (at_tokens ts [num; hash] s) =
  marker_effect reason (concat (List.map utf8 cs)) (if src_line =? 0 then 1 else src_line) sysp
    (set_maps maps (at_tokens [] (eof_token :: rev ts ++ [num; hash]) s)).
Proof.
  intros Hcs Hcp Hq Hl Hr Hs Hmap Hret Hts. set (name := concat (List.map utf8 cs)) in *.
  inversion Hts as [|? ? ? ? [Hn _] Hts']; subst. inversion Hts' as [|? str ? flags [Hstr _] Hfl]; subst. clear Hts Hts'.
  apply flags_same in Hfl.
  assert (t_type num = CPP_NUMBER /\ t_type str = CPP_STRING) as [Hnt Hst] by (split; by eapply same_type).
  pose proof (same_text _ _ Hn) as Hnx. pose proof (same_text _ _ Hstr) as Hsx. cbn [marker_number t_text] in Hnx.
  assert (last_map (at_tokens (str :: flags) [num; hash] s) = Some (map, at_tokens (str :: flags) [num; hash] s)) as Hm.
  { apply (mapsD_frame _ s (at_tokens (str :: flags) [num; hash] s)) in Hmap; [|done]. unfold last_map. rewrite Hmap.
    change (ds_maps s) with (ds_maps (at_tokens (str :: flags) [num; hash] s)). by rewrite set_maps_same. }
  unfold LineDir.do_linemarker. unfold bindD at 1. rewrite Hm. clear Hm Hmap.
  assert (type_is num CPP_EOF = false /\ type_is num CPP_NUMBER = true /\ type_is str CPP_STRING = true /\
    type_is str CPP_EOF = false) as (N1 & N2 & S1 & S2) by (unfold type_is; by rewrite Hnt, Hst).
  pose proof (backup_reread num (str :: flags) hash s N1) as Hb.
  unfold bindD in Hb |- * at 1 2. destruct (readD _cpp_backup_token _) as [[[] sb]|]; [|done]. rewrite Hb. clear Hb.
  rewrite N2, Hnx, printed_number by (destruct (Z.eqb_spec src_line 0); lia).
  unfold bindD at 1. rewrite readD_token, add_no_diags, S1 by done.
  unfold bindD at 1. rewrite (directive_file_name str cs) by done.
  rewrite (marker_flags_read reason sysp name flags) by done. unfold marker_effect.
  cbn [rev]. rewrite <- app_assoc. cbn [app fst snd]. rewrite !(bindD_eq (files_part _ _ _)), files_part_maps.
  destruct (files_part reason name sysp _) as [[[] s2]|] eqn:Ef; [|done]. apply files_part_state in Ef as (s1 & -> & Em).
  unfold bindD at 1. rewrite skip_rest_line. unfold returns_to in Hret. unfold bindD at 1.
  case_bool_decide.
  - fold name. rewrite (bad_nesting_frame _ s _ _ _ Em Hret). done.
  - subst maps. cbn [mret D_ret]. by rewrite <- Em, set_maps_same.
Qed.
End Handler.

(** ** Results *)

(** C14: A line marker is read as it was written. print_line_1 writes the marker
    for a line of a file whose name is any text in UTF-8 without a null
    character (quotes, backslashes and newlines included), with the flags for
    entering, leaving or staying in a file and for system headers.  The lexer
    makes the tokens #, a number, a string and flags of that text, and
    do_linemarker, given them, does exactly this, without a diagnostic of its
    own: it fakes the inclusion of a file that is entered, marks the buffer as
    system header to the degree printed, and changes the file of the line table
    to that very name and line number (1 for line 0), for the reason printed.  A
    file that is left must be the one that included the current one. *)
Theorem linemarker_read_back (dos : bool) (o : cpp_options) (tab : ucn_table) (csets_ : csets)
  (os_open : list byte -> open_result) (os_realpath : list byte -> option (list byte))
  (canonical_system_headers : bool) (dopts : dep_options) (st : lex_flags) (node : list byte -> lex_node)
  (x : lexer) src_line cs reason sysp map maps s :
  angled_headers st = false -> operators_marked node -> 0 < char_precision o <= 32 -> quiet_options o ->
  0 <= src_line < 2 ^ 32 -> Forall name_char cs -> marker_reason reason -> 0 <= sysp <= 2 ->
  last_map s = Some (map, s) -> returns_to dos reason (concat (List.map utf8 cs)) s maps ->
  let name := concat (List.map utf8 cs) in
  let text := print_line_1 src_line name (special_flags reason) sysp in
  exists hash num ts x', snd (lex_line tab o st node (length text) 0 text x) = Some (hash :: num :: ts, x') /\
    t_type hash = CPP_HASH /\ t_type num = CPP_NUMBER /\
    do_linemarker dos o tab csets_ os_open os_realpath canonical_system_headers dopts (at_tokens ts [num; hash] s) =
    marker_effect dos os_open os_realpath canonical_system_headers dopts reason name
      (if src_line =? 0 then 1 else src_line) sysp (set_maps maps (at_tokens [] (eof_token :: rev ts ++ [num; hash]) s)).
Proof.
  intros Hang Hop Hcp Hq Hl Hcs Hr Hs Hm Hret name text.
  assert (Forall valid_char cs) as Hv by (eapply Forall_impl; [exact Hcs|intros ? []; done]).
  destruct (marker_lexed tab o st node src_line cs reason sysp x Hang Hop Hl Hv) as (ts & x' & Hlex & Hsame).
  inversion Hsame as [|? hash ? ts1 [Hh _] Hs1]; subst. inversion Hs1 as [|? num ? ts2 [Hn _] Hs2]; subst.
  exists hash, num, ts2, x'. split; [exact Hlex|]. split; [by eapply same_type|]. split; [by eapply same_type|].
  by eapply linemarker_handled.
Qed.

(** A reader in b.h, which a.c includes. *)
Definition ex_state (maps : line_maps) : dstate :=
  mk_dstate (fresh_reader [] ∅) (mk_lstate true false false 0 false false false false) ∅ maps
    (set_buffers [mk_buffer 0 1 0] (new_files [] 0 false)) [] [] ResultPadding false [] [].

Definition ex_included : dstate := ex_state sample_7.
Definition ex_map : line_map_ordinary :=
  Eval vm_compute in match last_map ex_included with Some (m, _) => m | None => mk_ordinary 0 LC_ENTER 0 0 0 None 0 0 end.
Definition ex_maps : line_maps :=
  Eval vm_compute in match bad_nesting false (Some (bytes "a.c")) ex_included with Some (_, s) => ds_maps s | None => sample_7 end.
Definition ex_open (path : list byte) : open_result := OpenError 2.
Definition ex_effect (reason : lc_reason) (name : list byte) (line sysp : Z) : D unit :=
  marker_effect false ex_open (fun _ => None) false (mk_depopts 0 false false false) reason name line sysp.

Definition ex_name : list byte := concat (List.map utf8 (bytes "a.c")).
Definition ex_text : list byte := print_line_1 4711 ex_name (special_flags LC_LEAVE) 0.

(** Back in a.c, at line 4711; the location that starts the line says so. *)
Lemma linemarker_read_back_witness :
  ex_text = source "# 4711 `a.c` 2" ++ [10] /\
  match ex_effect LC_LEAVE ex_name 4711 0 (set_maps ex_maps ex_included) with
  | Some (_, s) => match expand_loc (highest_line (ds_maps s)) (ds_maps s) with
                   | Some (l, _) => (x_file l, x_line l) = (Some (bytes "a.c"), 4711)
                   | None => False
                   end
  | None => False
  end /\
  exists hash num ts x',
    snd (lex_line sample_table gnuc17_options plain_flags (mark_named_operators 0 (fun _ => no_node))
           (length ex_text) 0 ex_text (mk_lexer false false)) = Some (hash :: num :: ts, x') /\
    t_type hash = CPP_HASH /\ t_type num = CPP_NUMBER /\
    do_linemarker false gnuc17_options sample_table utf8_csets ex_open (fun _ => None) false (mk_depopts 0 false false false)
      (at_tokens ts [num; hash] ex_included) =
    marker_effect false ex_open (fun _ => None) false (mk_depopts 0 false false false) LC_LEAVE ex_name
      (if 4711 =? 0 then 1 else 4711) 0 (set_maps ex_maps (at_tokens [] (eof_token :: rev ts ++ [num; hash]) ex_included)).
Proof.
  split; [by vm_compute|]. split; [by vm_compute|].
  refine (linemarker_read_back false gnuc17_options sample_table utf8_csets ex_open (fun _ => None) false
    (mk_depopts 0 false false false) plain_flags (mark_named_operators 0 (fun _ => no_node)) (mk_lexer false false)
    4711 (bytes "a.c") LC_LEAVE 0 ex_map ex_maps ex_included eq_refl _ _ _ _ _ _ _ _ _).
  - by apply mark_named_operators_marked.
  - simpl. lia.
  - split; [done|]. split; [by right|]. right. simpl. lia.
  - lia.
  - repeat apply Forall_cons_2; try apply Forall_nil_2; (split; [|done]; split; vm_compute; [split; congruence|intros [H _]; by apply H]).
  - by right; left.
  - lia.
  - by vm_compute.
  - by vm_compute.
Defined.
