(* ===== verification/Pragma.v ===== *)
(** * Pragmas

    directives.c: the registry of pragmas and its namespaces, saving and
    restoring its names around a precompiled header, #pragma and the pragmas
    libcpp handles itself, and the string of _Pragma.  PragmaSpec has the
    theorems. *)

From Stdlib Require Import ZArith Lia Bool String Ascii.
From stdpp Require Import base tactics list numbers gmap.
From S2P Require Import Prelude Reader CppNum NumLit Stream Utf StrLit LineMap Deps Files MacroDef CleanLine Lex LexLine DirState.

Local Open Scope string_scope.
Local Open Scope list_scope.
Local Open Scope Z_scope.

(** ** The registry *)

Definition entry_name (p : pragma_entry) : list byte :=
  match p with PNamespace n _ _ | PDeferred n _ _ | PHandler n _ _ _ => n end.
Definition is_nspace (p : pragma_entry) : bool := match p with PNamespace _ _ _ => true | _ => false end.

(** The first entry of the chain with the name. *)
Fixpoint lookup_pragma_entry (chain : list pragma_entry) (pragma : list byte) : option pragma_entry :=
  match chain with
  | [] => None
  | p :: chain => if bytes_eqb (entry_name p) pragma then Some p else lookup_pragma_entry chain pragma
  end.

(** Put an entry at the head of the chain of a namespace. *)
Fixpoint insert_in_space (chain : list pragma_entry) (space : list byte) (entry : pragma_entry) : list pragma_entry :=
  match chain with
  | [] => []
  | p :: chain =>
      match p with
      | PNamespace n allow entries =>
          if bytes_eqb n space then PNamespace n allow (entry :: entries) :: chain
          else p :: insert_in_space chain space entry
      | _ => p :: insert_in_space chain space entry
      end
  end.

(** Put [entry] into a chain that does not have its name; whether it did. *)
Definition add_pragma (chain : list pragma_entry) (space : option (list byte)) (name : list byte) : W bool :=
  match lookup_pragma_entry chain name with
  | None => mret true
  | Some e =>
      cpp_error CPP_DL_ICE
        (if is_nspace e then "registering '%s' as both a pragma and a pragma namespace"
         else match space with Some _ => "#pragma %s %s is already registered"
              | None => "#pragma %s is already registered" end) ;;w
      mret false
  end.

(** register_pragma_1, which returns the blank entry its caller fills in: here
    the caller says what it will hold.  The registry and whether there was an
    entry. *)
Definition register_pragma_1 (pragmas : list pragma_entry) (space : option (list byte)) (name : list byte)
  (allow_name_expansion : bool) (entry : pragma_entry) : W (bool * list pragma_entry) :=
  match space with
  | Some sp =>
      match lookup_pragma_entry pragmas sp with
      | None => mret (true, PNamespace sp allow_name_expansion [entry] :: pragmas)
      | Some (PNamespace _ allow entries) =>
          if negb (Bool.eqb allow allow_name_expansion) then
            cpp_error CPP_DL_ICE "registering pragmas in namespace '%s' with mismatched name expansion" ;;w
            mret (false, pragmas)
          else
            ok ←w add_pragma entries space name ;;
            mret (ok, if ok : bool then insert_in_space pragmas sp entry else pragmas)
      | Some _ =>
          cpp_error CPP_DL_ICE "registering '%s' as both a pragma and a pragma namespace" ;;w mret (false, pragmas)
      end
  | None =>
      if allow_name_expansion then
        cpp_error CPP_DL_ICE "registering pragma '%s' with name expansion and no namespace" ;;w mret (false, pragmas)
      else
        ok ←w add_pragma pragmas None name ;;
        mret (ok, if ok : bool then entry :: pragmas else pragmas)
  end.

(** [None] where the null pointer of a failed registration is followed. *)
Definition register_pragma_internal (pragmas : list pragma_entry) (space : option (list byte)) (name : list byte)
  (handler : pragma_handler) : W (option (list pragma_entry)) :=
  r ←w register_pragma_1 pragmas space name false (PHandler name true false handler) ;;
  mret (if fst r : bool then Some (snd r) else None).

Definition cpp_register_pragma (pragmas : list pragma_entry) (space : option (list byte)) (name : list byte)
  (handler : option nat) (allow_expansion : bool) : W (list pragma_entry) :=
  match handler with
  | None => cpp_error CPP_DL_ICE "registering pragma with NULL handler" ;;w mret pragmas
  | Some n =>
      r ←w register_pragma_1 pragmas space name false (PHandler name false allow_expansion (PragmaClient n)) ;;
      mret r.2
  end.

Definition cpp_register_deferred_pragma (pragmas : list pragma_entry) (space : option (list byte)) (name : list byte)
  (ident : Z) (allow_expansion allow_name_expansion : bool) : W (list pragma_entry) :=
  r ←w register_pragma_1 pragmas space name allow_name_expansion (PDeferred name allow_expansion ident) ;;
  mret (snd r).

Definition internal_pragmas : list (option (list byte) * list byte * pragma_handler) :=
  [(None, bytes "once", PragmaOnce); (None, bytes "push_macro", PragmaPushMacro);
   (None, bytes "pop_macro", PragmaPopMacro); (Some (bytes "GCC"), bytes "poison", PragmaPoison);
   (Some (bytes "GCC"), bytes "system_header", PragmaSystemHeader);
   (Some (bytes "GCC"), bytes "dependency", PragmaDependency);
   (Some (bytes "GCC"), bytes "warning", PragmaWarning); (Some (bytes "GCC"), bytes "error", PragmaError)].

Fixpoint register_all (l : list (option (list byte) * list byte * pragma_handler)) (pragmas : list pragma_entry)
  : W (option (list pragma_entry)) :=
  match l with
  | [] => mret (Some pragmas)
  | (space, name, handler) :: l =>
      r ←w register_pragma_internal pragmas space name handler ;;
      match r with Some pragmas => register_all l pragmas | None => mret None end
  end.
Definition _cpp_init_internal_pragmas (pragmas : list pragma_entry) : W (option (list pragma_entry)) :=
  register_all internal_pragmas pragmas.

(** ** The names, for a precompiled header *)

Fixpoint count_entry (p : pragma_entry) : nat :=
  match p with
  | PNamespace _ _ space => S (foldr (fun p n => count_entry p + n)%nat O space)
  | _ => 1%nat
  end.
Definition count_registered_pragmas (pe : list pragma_entry) : nat := foldr (fun p n => count_entry p + n)%nat O pe.

(** A namespace comes behind its entries. *)
Fixpoint save_entry (p : pragma_entry) : list (list byte) :=
  match p with
  | PNamespace n _ space => flat_map save_entry space ++ [n]
  | PDeferred n _ _ | PHandler n _ _ _ => [n]
  end.
Definition save_registered_pragmas (pe : list pragma_entry) : list (list byte) := flat_map save_entry pe.

(** _cpp_save_pragma_names: an array of as many names as were counted; [None]
    where it overflows. *)
Definition _cpp_save_pragma_names (pragmas : list pragma_entry) : option (list (list byte)) :=
  let names := save_registered_pragmas pragmas in
  if (length names <=? count_registered_pragmas pragmas)%nat then Some names else None.

(** The names go back in the order they were saved in; [None] behind the end of
    the array. *)
Definition restore_name (sd : list (list byte)) : option (list byte * list (list byte)) :=
  match sd with n :: sd => Some (c_string n, sd) | [] => None end.

Fixpoint restore_entry (p : pragma_entry) (sd : list (list byte)) : option (pragma_entry * list (list byte)) :=
  match p with
  | PNamespace _ allow space =>
      r ← (fix restore_all (pe : list pragma_entry) (sd : list (list byte)) :=
             match pe with
             | [] => Some ([], sd)
             | p :: pe => r ← restore_entry p sd; r' ← restore_all pe (snd r); Some (fst r :: fst r', snd r')
             end) space sd;
      n ← restore_name (snd r); Some (PNamespace (fst n) allow (fst r), snd n)
  | PDeferred _ allow ident => n ← restore_name sd; Some (PDeferred (fst n) allow ident, snd n)
  | PHandler _ internal allow handler => n ← restore_name sd; Some (PHandler (fst n) internal allow handler, snd n)
  end.

Fixpoint restore_registered_pragmas (pe : list pragma_entry) (sd : list (list byte))
  : option (list pragma_entry * list (list byte)) :=
  match pe with
  | [] => Some ([], sd)
  | p :: pe => r ← restore_entry p sd; r' ← restore_registered_pragmas pe (snd r); Some (fst r :: fst r', snd r')
  end.
Definition _cpp_restore_pragma_names (pragmas : list pragma_entry) (saved : list (list byte)) : option (list pragma_entry) :=
  fst <$> restore_registered_pragmas pragmas saved.

(** ** Strings *)

(** Remove the first backslash of each escaped quote and backslash, up to [n]
    characters before the end. *)
Fixpoint destringize (n : nat) (src : list byte) : list byte :=
  match n, src with
  | S n, c :: src =>
      if isc c "\" && (isc (peek src) "\" || (peek src =? 34)) then
        match n, src with
        | S n, d :: src => d :: destringize n src
        | _, d :: _ => [d]
        | _, [] => []
        end
      else c :: destringize n src
  | _, _ => []
  end.

(** The text of a _Pragma, push_macro or pop_macro string: only the prefix L is
    passed over, and the last character is left. *)
Definition pragma_text (text : list byte) : list byte :=
  let src := drop (if isc (peek text) "L" then 2 else 1) text in destringize (length src - 1) src.

Definition is_string (t : cpp_token) : bool :=
  type_is t CPP_STRING || type_is t CPP_WSTRING || type_is t CPP_STRING32 || type_is t CPP_STRING16
  || type_is t CPP_UTF8STRING.

(** "(string-literal)". *)
Definition get__Pragma_string : R (option cpp_token) :=
  paren ←r get_token_no_padding ;;
  whenR (type_is paren CPP_EOF) _cpp_backup_token ;;r
  if negb (type_is paren CPP_OPEN_PAREN) then mret None
  else
    string ←r get_token_no_padding ;;
    whenR (type_is string CPP_EOF) _cpp_backup_token ;;r
    if negb (is_string string) then mret None
    else
      paren ←r get_token_no_padding ;;
      whenR (type_is paren CPP_EOF) _cpp_backup_token ;;r
      mret (if type_is paren CPP_CLOSE_PAREN then Some string else None).

(** ** The nodes of macros *)

(** A node with its macro, as MacroDef has it. *)
Definition macro_node_of (name : list byte) (s : dstate) : macro_node :=
  let n := cpp_lookup name (ds_reader s) in
  mk_mnode (match n_type n with
            | NT_USER_MACRO => match ds_macros s !! name with Some m => NUser m | None => NVoid end
            | NT_BUILTIN_MACRO => NBuiltin
            | _ => NVoid
            end) (n_flags n).

Definition put_macro_node (name : list byte) (node : macro_node) (used : bool) (s : dstate) : dstate :=
  let r := ds_reader s in
  let type := match mn_value node with NVoid => NT_VOID | NUser _ => NT_USER_MACRO | NBuiltin => NT_BUILTIN_MACRO end in
  let s := set_reader (set_nodes (<[name := mk_node type (mn_flags node) (n_answers (cpp_lookup name r)) used]> (r_nodes r)) r) s in
  match mn_value node with NUser m => set_macros_table (<[name := m]> (ds_macros s)) s | _ => s end.

Definition set_syshdr (b : bool) (m : cpp_macro) : cpp_macro :=
  mk_macro (m_params m) (m_paramc m) (m_fun_like m) (m_variadic m) b (m_extra_tokens m) (m_tokens m).

(** What the lexer reads of a node. *)
Definition lex_node_of (s : dstate) : list byte -> lex_node :=
  mark_named_operators 0 (fun name =>
    let n := cpp_lookup name (ds_reader s) in mk_lnode (n_flags n) CPP_NAME (cpp_macro_p n)).

(** The flags of the lexer in a directive. *)
Definition directive_flags (s : dstate) (in_system_header : bool) : lex_flags :=
  mk_lflags true (r_skipping (ds_reader s)) (ls_angled_headers (ds_lexer s)) false (ls_poisoned_ok (ds_lexer s)) in_system_header.

Section Pragmas.
Context (dos : bool) (o : cpp_options) (mo : macro_options) (tab : ucn_table) (csets_ : csets).
Context (os_open : list byte -> open_result) (os_realpath : list byte -> option (list byte)).
Context (canonical_system_headers : bool) (dopts : dep_options).
Context (client : nat -> D unit) (has_def_pragma : bool).

(** The identifier at the start of a C string; [None] for the character behind
    the end of an empty one. *)
Definition lex_identifier_intern (base : list byte) : D (list byte) :=
  match base with
  | [] => failD
  | c :: r =>
      let name := c :: fst (idnum_run r) in
      s ←d getD id ;;
      warnD (identifier_diagnostics o (directive_flags s false) (lex_node_of s) name) ;;d
      mret name
  end.

(** ** push_macro and pop_macro *)

Definition bad_string_pragma (msg : string) : D unit :=
  errorD CPP_DL_ERROR msg ;;d readD check_eol ;;d readD skip_rest_of_line.

(** A macro is saved as its text.  The text of one that is not a user macro
    follows a pointer there is not. *)
Definition do_pragma_push_macro : D unit :=
  txt ←d readD get__Pragma_string ;;
  match txt with
  | None => bad_string_pragma "invalid #pragma push_macro directive"
  | Some txt =>
      let name := c_string (pragma_text (t_text txt)) in
      readD check_eol ;;d readD skip_rest_of_line ;;d
      id ←d lex_identifier_intern name ;;
      node ←d getD (fun s => cpp_lookup id (ds_reader s)) ;;
      c ←d (match n_type node with
            | NT_VOID => mret (mk_pushed name None false false)
            | NT_USER_MACRO =>
                m ←d getD (fun s => ds_macros s !! id) ;; m ←d ptrD m ;;
                defn ←d ptrD (cpp_macro_definition id m) ;;
                mret (mk_pushed name (Some (defn ++ [10])) (m_syshdr m) (n_macro_used node))
            | NT_BUILTIN_MACRO | NT_MACRO_ARG => failD
            end) ;;
      modD (fun s => set_pushed (c :: ds_pushed s) s)
  end.

(** strcspn (definition, "( \n"). *)
Fixpoint name_end (b : list byte) : nat :=
  match b with
  | [] => O
  | c :: b => if isc c "(" || (c =? 32) || (c =? 10) then O else S (name_end b)
  end.
Fixpoint up_to_newline (b : list byte) : list byte :=
  match b with [] => [] | c :: b => if c =? 10 then [] else c :: up_to_newline b end.

(** The tokens of the text of a definition; [None] where a token does not end
    on the line. *)
Definition definition_tokens (text : list byte) : D (list cpp_token) :=
  s ←d getD id ;;
  l ←d warnD (lex_line tab o (directive_flags s true) (lex_node_of s) (S (length text)) 0 (text ++ [10])
                (mk_lexer (warn_dollars o) false)) ;;
  match l with Some (ts, _) => mret ts | None => failD end.

Definition cpp_pop_definition (c : def_pragma_macro) : D unit :=
  id ←d lex_identifier_intern (pm_name c) ;;
  node ←d getD (fun s => cpp_lookup id (ds_reader s)) ;;
  whenD (cpp_macro_p node) (modD (add_call (CallUndef id)) ;;d readD (update_node id _cpp_free_definition)) ;;d
  match pm_definition c with
  | None => mret tt
  | Some definition =>
      let name := take (name_end definition) definition in
      let dn := drop (name_end definition) definition in
      node ←d getD (macro_node_of name) ;;
      ts ←d definition_tokens (up_to_newline dn) ;;
      d ←d warnD (_cpp_create_definition o mo true name node ts) ;;
      match d with
      | Some (true, node) =>
          modD (put_macro_node name
                  (mk_mnode (match mn_value node with NUser m => NUser (set_syshdr (pm_syshdr c) m) | v => v end) (mn_flags node))
                  (pm_used c))
      | _ => failD
      end
  end.

(** The last macro pushed with the name, and the others. *)
Fixpoint take_pushed (name : list byte) (l : list def_pragma_macro) : option (def_pragma_macro * list def_pragma_macro) :=
  match l with
  | [] => None
  | c :: l => if bytes_eqb (pm_name c) name then Some (c, l)
              else r ← take_pushed name l; Some (fst r, c :: snd r)
  end.

Definition do_pragma_pop_macro : D unit :=
  txt ←d readD get__Pragma_string ;;
  match txt with
  | None => bad_string_pragma "invalid #pragma pop_macro directive"
  | Some txt =>
      let name := c_string (pragma_text (t_text txt)) in
      readD check_eol ;;d readD skip_rest_of_line ;;d
      pushed ←d getD ds_pushed ;;
      match take_pushed name pushed with
      | Some (c, rest) => modD (set_pushed rest) ;;d cpp_pop_definition c
      | None => mret tt
      end
  end.

(** ** The other pragmas *)

Definition do_pragma_once : D unit :=
  main ←d cpp_in_primary_file ;;
  whenD main (errorD CPP_DL_WARNING "#pragma once in main file") ;;d
  readD check_eol ;;d
  bs ←d getD (fun s => buffers (ds_files s)) ;;
  b ←d ptrD (head bs) ;;
  filesD (_cpp_mark_file_once_only (b_file b)).

(** The loop runs over the tokens of the line. *)
Definition poison (n : cpp_hashnode) : cpp_hashnode :=
  let n := _cpp_free_definition n in
  mk_node (n_type n) (Z.lor (n_flags n) (Z.lor NODE_POISONED NODE_DIAGNOSTIC)) (n_answers n) (n_macro_used n).

Fixpoint poison_loop (fuel : nat) : R unit :=
  match fuel with
  | O => mret tt
  | S fuel =>
      tok ←r _cpp_lex_token ;;
      if type_is tok CPP_EOF then mret tt
      else if negb (type_is tok CPP_NAME) then errorR CPP_DL_ERROR "invalid #pragma GCC poison directive"
      else
        hp ←r gets (cpp_lookup (t_text tok)) ;;
        (if flag (n_flags hp) NODE_POISONED then mret tt
         else whenR (cpp_macro_p hp) (errorR CPP_DL_WARNING "poisoning existing macro '%s'") ;;r
              update_node (t_text tok) poison) ;;r
        poison_loop fuel
  end.
Definition do_pragma_poison : R unit := ts ←r gets r_stream ;; poison_loop (S (length ts)).

Definition cpp_make_system_header (syshdr externc : bool) : D unit :=
  let flags := if syshdr then (if externc then 2 else 1) else 0 in
  map ←d mapsD (i ←l last_index ;; ordinary_at i) ;;
  set_buffer_sysp flags ;;d
  line ←d getD (fun s => SOURCE_LINE map (highest_line (ds_maps s))) ;;
  _cpp_do_file_change dos LC_RENAME (to_file map) line flags.

Definition do_pragma_system_header : D unit :=
  main ←d cpp_in_primary_file ;;
  if main : bool then errorD CPP_DL_WARNING "#pragma system_header ignored outside include file"
  else readD check_eol ;;d readD skip_rest_of_line ;;d cpp_make_system_header true false.

(** do_diagnostic gives the tokens that are left as the message. *)
Definition do_diagnostic (code : cpp_diagnostic_level) (reason : cpp_warning_reason) : R unit :=
  modify (fun r => set_tokens [] (eof_token :: rev (r_stream r) ++ r_lexed r) r) ;;r
  fun r => ([Diag code (match code with CPP_DL_WARNING | CPP_DL_WARNING_SYSHDR => reason | _ => CPP_W_NONE end) "%s"], (tt, r)).

Definition do_pragma_dependency : D unit :=
  r ←d readD (parse_include true) ;;
  match r with
  | None => mret tt
  | Some (fname, angle_brackets) =>
      ordering ←d filesD (_cpp_compare_file_date os_open os_realpath None canonical_system_headers dopts fname angle_brackets) ;;
      if ordering <? 0 then errorD CPP_DL_WARNING "cannot find source file %s"
      else if 0 <? ordering then
        errorD CPP_DL_WARNING "current file is older than %s" ;;d
        token ←d readD cpp_get_token ;;
        if type_is token CPP_EOF then mret tt
        else readD (_cpp_backup_token ;;r do_diagnostic CPP_DL_WARNING CPP_W_NONE)
      else mret tt
  end.

(** The length counts the terminating null character, so an empty string is
    not rejected. *)
Definition do_pragma_warning_or_error (error : bool) : D unit :=
  tok ←d readD _cpp_lex_token ;;
  skipping ←d getD (fun s => r_skipping (ds_reader s)) ;;
  let invalid := errorD CPP_DL_ERROR "invalid '#pragma GCC %s' directive" in
  if negb (type_is tok CPP_STRING) then invalid
  else
    s ←d warnD (cpp_interpret_string_notranslate tab o skipping csets_ [t_text tok]) ;;
    match s with
    | SOk [] | SFail => invalid
    | SOk text => errorD (if error then CPP_DL_ERROR else CPP_DL_WARNING) "%s"
    | _ => failD
    end.

Definition run_pragma (handler : pragma_handler) : D unit :=
  match handler with
  | PragmaOnce => do_pragma_once
  | PragmaPushMacro => do_pragma_push_macro
  | PragmaPopMacro => do_pragma_pop_macro
  | PragmaPoison =>
      modD (fun s => set_lexer (set_poisoned_ok true (ds_lexer s)) s) ;;d
      readD do_pragma_poison ;;d
      modD (fun s => set_lexer (set_poisoned_ok false (ds_lexer s)) s)
  | PragmaSystemHeader => do_pragma_system_header
  | PragmaDependency => do_pragma_dependency
  | PragmaWarning => do_pragma_warning_or_error false
  | PragmaError => do_pragma_warning_or_error true
  | PragmaClient n => client n
  end.

(** ** #pragma *)

Definition prevent (n : Z) : D unit :=
  readD (modify (fun r => set_prevent_expansion (r_prevent_expansion r + n) r)).

(** The entry the directive names, how many tokens were read for it, and
    those tokens. *)
Definition find_pragma : D (option pragma_entry * cpp_token * list cpp_token) :=
  token ←d readD cpp_get_token ;;
  pragmas ←d getD ds_pragmas ;;
  match (if type_is token CPP_NAME then lookup_pragma_entry pragmas (t_text token) else None) with
  | Some (PNamespace _ allow_name_expansion space) =>
      whenD allow_name_expansion (prevent (-1)) ;;d
      token2 ←d readD cpp_get_token ;;
      whenD allow_name_expansion (prevent 1) ;;d
      mret (if type_is token2 CPP_NAME then lookup_pragma_entry space (t_text token2) else None,
            token, [token; token2])
  | p => mret (p, token, [token])
  end.

(** Give the tokens of an unknown pragma back; they are not expanded again. *)
Definition give_back (tokens : list cpp_token) : R unit :=
  match tokens with
  | [token; token2] =>
      if t_in_macro token2 then
        modify (fun r => set_tokens (add_flag NO_EXPAND token :: add_flag NO_EXPAND token2 :: r_stream r) (r_lexed r) r)
      else _cpp_backup_token ;;r _cpp_backup_token
  | _ => _cpp_backup_token
  end.

Definition do_pragma : D unit :=
  prevent 1 ;;d
  found ←d find_pragma ;;
  let '(p, pragma_token, tokens) := found in
  match p with
  | Some (PDeferred _ allow_expansion ident) =>
      modD (set_result (ResultPragma ident (t_flags pragma_token))) ;;d
      modD (fun s => set_lexer (set_deferred allow_expansion (ds_lexer s)) s) ;;d
      whenD (negb allow_expansion) (prevent 1)
  | Some (PHandler _ _ allow_expansion handler) =>
      modD (add_call CallLineChange) ;;d
      whenD allow_expansion (prevent (-1)) ;;d
      run_pragma handler ;;d
      whenD allow_expansion (prevent 1)
  | Some (PNamespace _ _ _) => failD
  | None => whenD has_def_pragma (readD (give_back tokens) ;;d modD (add_call CallDefPragma))
  end ;;d
  prevent (-1).
End Pragmas.
