(* ===== verification/PragmaSpec.v ===== *)
(** * The registry of pragmas is a table

    The theorems of Pragma: the chains of entries are a table from namespaces
    and names to what is registered for them, whatever is registered in which
    order; the names of the registry survive a precompiled header; and pushing a
    macro that is not a user macro goes wrong. *)

From Stdlib Require Import ZArith Lia Bool String Ascii.
From stdpp Require Import base tactics list numbers gmap.
From S2P Require Import Prelude Reader CppNum NumLit Stream Utf StrLit LineMap LineHist Deps DepsSpec Files MacroDef CleanLine Lex LexGrammar LexSpec LexPaste LexLine DirState Pragma.

Local Open Scope string_scope.
Local Open Scope list_scope.
Local Open Scope Z_scope.

(** ** What is registered *)

Inductive meaning : Type :=
  | MDeferred (allow_expansion : bool) (ident : Z)
  | MHandler (is_internal allow_expansion : bool) (handler : pragma_handler).

Definition meaning_of (p : pragma_entry) : option meaning :=
  match p with
  | PNamespace _ _ _ => None
  | PDeferred _ allow ident => Some (MDeferred allow ident)
  | PHandler _ internal allow handler => Some (MHandler internal allow handler)
  end.

(** The table: the namespaces, with whether their names are expanded, and the
    pragmas by namespace and name. *)
Record table : Type := mk_ptable {
  t_spaces : gmap (list Z) bool;
  t_pragmas : gmap (option (list Z) * list Z) meaning
}.
Definition empty_table : table := mk_ptable ∅ ∅.

Definition bound {K A} `{Countable K} (m : gmap K A) (k : K) : bool := match m !! k with Some _ => true | None => false end.

(** The first registration of a name counts; a name is not both a pragma and a
    namespace; a namespace is registered with one kind of name expansion. *)
Definition accepts (a : table) (space : option (list byte)) (name : list byte) (allow : bool) : bool :=
  match space with
  | None => negb allow && negb (bound (t_spaces a) name) && negb (bound (t_pragmas a) (None, name))
  | Some sp =>
      negb (bound (t_pragmas a) (None, sp)) && negb (bound (t_pragmas a) (Some sp, name))
      && match t_spaces a !! sp with Some b => Bool.eqb b allow | None => true end
  end.

Definition table_add (space : option (list byte)) (name : list byte) (allow : bool) (m : meaning) (a : table) : table :=
  mk_ptable (match space with Some sp => <[sp := allow]> (t_spaces a) | None => t_spaces a end)
    (<[(space, name) := m]> (t_pragmas a)).

(** ** The chains and the table *)

Definition space_of (p : list pragma_entry) (sp : list byte) : option (bool * list pragma_entry) :=
  match lookup_pragma_entry p sp with Some (PNamespace _ b es) => Some (b, es) | _ => None end.
Definition pragma_in (p : list pragma_entry) (name : list byte) : option meaning := lookup_pragma_entry p name ≫= meaning_of.

Record tabulates (p : list pragma_entry) (a : table) : Prop := {
  tb_spaces : forall sp, t_spaces a !! sp = fst <$> space_of p sp;
  tb_global : forall n, t_pragmas a !! (None, n) = pragma_in p n;
  tb_local : forall sp n, t_pragmas a !! (Some sp, n) = '(_, es) ← space_of p sp; pragma_in es n;
  tb_flat : forall sp b es n e, space_of p sp = Some (b, es) -> lookup_pragma_entry es n = Some e -> is_nspace e = false
}.

Lemma lookup_insert_in p sp entry : forall n,
  lookup_pragma_entry (insert_in_space p sp entry) n =
  match lookup_pragma_entry p n with
  | Some (PNamespace m b es) => Some (PNamespace m b (if bytes_eqb n sp then entry :: es else es))
  | r => r
  end.
Proof.
  intros n. induction p as [|e p IH]; [done|]. unfold bytes_eqb in *.
  assert (forall e', (match e' with PNamespace m b es => PNamespace m b es | r => r end) = e') as Hid by (by intros []).
  destruct e as [m b es|m b i|m i b h]; cbn [insert_in_space lookup_pragma_entry entry_name]; unfold bytes_eqb in *.
  - destruct (decide (m = sp)) as [->|Hm].
    + rewrite (bool_decide_eq_true_2 (sp = sp)) by done. cbn [lookup_pragma_entry entry_name]. unfold bytes_eqb.
      destruct (decide (sp = n)) as [<-|Hn]; [by rewrite !bool_decide_eq_true_2|].
      rewrite (bool_decide_eq_false_2 (sp = n)) by done.
      destruct (lookup_pragma_entry p n) as [[m' b' es'|m' b' i'|m' i' b' h']|]; try done.
      by rewrite (bool_decide_eq_false_2 (n = sp)) by congruence.
    + rewrite (bool_decide_eq_false_2 (m = sp)) by done. cbn [lookup_pragma_entry entry_name]. unfold bytes_eqb.
      destruct (decide (m = n)) as [<-|Hn]; [|by rewrite (bool_decide_eq_false_2 (m = n))].
      by rewrite bool_decide_eq_true_2, (bool_decide_eq_false_2 (m = sp)).
  - destruct (bool_decide (m = n)); [done|apply IH].
  - destruct (bool_decide (m = n)); [done|apply IH].
Qed.

Lemma insert_space_of p sp entry sp' :
  space_of (insert_in_space p sp entry) sp' =
  match space_of p sp' with Some (b, es) => Some (b, if bytes_eqb sp' sp then entry :: es else es) | None => None end.
Proof. unfold space_of. rewrite lookup_insert_in. by destruct (lookup_pragma_entry p sp') as [[]|]. Qed.

Lemma insert_pragma_in p sp entry n : pragma_in (insert_in_space p sp entry) n = pragma_in p n.
Proof. unfold pragma_in. rewrite lookup_insert_in. by destruct (lookup_pragma_entry p n) as [[]|]. Qed.

Lemma lookup_cons e p n : lookup_pragma_entry (e :: p) n = if bytes_eqb (entry_name e) n then Some e else lookup_pragma_entry p n.
Proof. done. Qed.

(** A name is free in the table where the chain does not have it. *)
Lemma lookup_cases p a n : tabulates p a ->
  match lookup_pragma_entry p n with
  | None => bound (t_spaces a) n = false /\ bound (t_pragmas a) (None, n) = false
  | Some (PNamespace _ b es) => t_spaces a !! n = Some b /\ space_of p n = Some (b, es) /\ bound (t_pragmas a) (None, n) = false
  | Some _ => bound (t_spaces a) n = false /\ bound (t_pragmas a) (None, n) = true
  end.
Proof.
  intros H. pose proof (tb_spaces p a H n) as H1. pose proof (tb_global p a H n) as H2.
  unfold bound, space_of, pragma_in, byte in *. destruct (lookup_pragma_entry p n) as [[m b es|m b i|m i b h]|]; cbn in H1, H2;
    by rewrite H1, H2.
Qed.

Lemma local_cases p a sp n b es : tabulates p a -> space_of p sp = Some (b, es) ->
  bound (t_pragmas a) (Some sp, n) = match lookup_pragma_entry es n with Some _ => true | None => false end.
Proof.
  intros H Hs. pose proof (tb_local p a H sp n) as H1. rewrite Hs in H1. cbn in H1. unfold bound, byte in *. rewrite H1.
  unfold pragma_in. destruct (lookup_pragma_entry es n) as [e|] eqn:E; [|done].
  pose proof (tb_flat p a H sp b es n e Hs E). by destruct e.
Qed.

(** Adding an entry at the head of the global chain, or of the chain of a
    namespace, is adding it to the table. *)
Lemma tabulates_global p a entry name m : tabulates p a -> entry_name entry = name -> meaning_of entry = Some m ->
  lookup_pragma_entry p name = None -> tabulates (entry :: p) (table_add None name false m a).
Proof.
  intros H En Em Hp. assert (is_nspace entry = false) as Hns by (by destruct entry).
  assert (forall n, space_of (entry :: p) n = space_of p n) as Hsp.
  { intros n. unfold space_of. rewrite lookup_cons, En. unfold bytes_eqb. case_bool_decide; [|done]. subst. rewrite Hp.
    by destruct entry. }
  split.
  - intros sp. rewrite Hsp. apply (tb_spaces p a H).
  - intros n. unfold pragma_in. rewrite lookup_cons, En. unfold bytes_eqb. cbn [table_add t_pragmas].
    case_bool_decide as E; [subst; rewrite lookup_insert_eq; by cbn|].
    rewrite lookup_insert_ne by congruence. apply (tb_global p a H).
  - intros sp n. rewrite Hsp. cbn [table_add t_pragmas]. rewrite lookup_insert_ne by congruence. apply (tb_local p a H).
  - intros sp b es n e. rewrite Hsp. apply (tb_flat p a H).
Qed.

Lemma tabulates_local p a entry sp name m b es : tabulates p a -> entry_name entry = name -> meaning_of entry = Some m ->
  space_of p sp = Some (b, es) -> lookup_pragma_entry es name = None ->
  tabulates (insert_in_space p sp entry) (table_add (Some sp) name b m a).
Proof.
  intros H En Em Hs Hn. split; cbn [table_add t_spaces t_pragmas].
  - intros sp'. rewrite insert_space_of. destruct (decide (sp' = sp)) as [->|Hne].
    + rewrite lookup_insert_eq. by rewrite Hs.
    + rewrite lookup_insert_ne by done. rewrite (tb_spaces p a H). by destruct (space_of p sp') as [[]|].
  - intros n. rewrite insert_pragma_in. rewrite lookup_insert_ne by congruence. apply (tb_global p a H).
  - intros sp' n. rewrite insert_space_of. destruct (decide (sp' = sp)) as [->|Hne].
    + rewrite Hs. cbn [mbind option_bind]. unfold bytes_eqb. rewrite bool_decide_eq_true_2 by done.
      unfold pragma_in. rewrite lookup_cons, En. unfold bytes_eqb. case_bool_decide as E.
      * subst. by rewrite lookup_insert_eq.
      * rewrite lookup_insert_ne by congruence. rewrite (tb_local p a H), Hs. done.
    + rewrite lookup_insert_ne by congruence. rewrite (tb_local p a H). destruct (space_of p sp') as [[b' es']|]; [|done].
      cbn [mbind option_bind]. unfold bytes_eqb. by rewrite bool_decide_eq_false_2.
  - intros sp' b' es' n e. rewrite insert_space_of. destruct (space_of p sp') as [[b2 es2]|] eqn:E; [|done].
    intros [= <- <-]. unfold bytes_eqb. case_bool_decide; [|by apply (tb_flat p a H sp' b2)].
    rewrite lookup_cons. destruct (bytes_eqb _ n); [|by apply (tb_flat p a H sp' b2)]. intros [= <-]. by destruct entry.
Qed.

Lemma tabulates_new_space p a entry sp name m b : tabulates p a -> entry_name entry = name -> meaning_of entry = Some m ->
  lookup_pragma_entry p sp = None -> tabulates (PNamespace sp b [entry] :: p) (table_add (Some sp) name b m a).
Proof.
  intros H En Em Hp. assert (forall n, space_of (PNamespace sp b [entry] :: p) n = if bytes_eqb sp n then Some (b, [entry]) else space_of p n) as Hsp.
  { intros n. unfold space_of. rewrite lookup_cons. cbn [entry_name]. by destruct (bytes_eqb sp n). }
  assert (space_of p sp = None) as Hnone by (unfold space_of; by rewrite Hp).
  split; cbn [table_add t_spaces t_pragmas]; unfold bytes_eqb in *.
  - intros sp'. rewrite Hsp. case_bool_decide as E; [subst; by rewrite lookup_insert_eq|].
    rewrite lookup_insert_ne by done. apply (tb_spaces p a H).
  - intros n. unfold pragma_in. rewrite lookup_cons. cbn [entry_name]. unfold bytes_eqb.
    rewrite lookup_insert_ne by congruence. rewrite (tb_global p a H). unfold pragma_in.
    case_bool_decide as E; [subst; by rewrite Hp|done].
  - intros sp' n. rewrite Hsp. case_bool_decide as E.
    + subst sp'. cbn [mbind option_bind]. unfold pragma_in. rewrite lookup_cons, En. unfold bytes_eqb. case_bool_decide as E2.
      * subst. by rewrite lookup_insert_eq.
      * rewrite lookup_insert_ne by congruence. rewrite (tb_local p a H). by rewrite Hnone.
    + rewrite lookup_insert_ne by congruence. apply (tb_local p a H).
  - intros sp' b' es' n e. rewrite Hsp. case_bool_decide; [|apply (tb_flat p a H)]. intros [= <- <-].
    rewrite lookup_cons. destruct (bytes_eqb _ n); [|done]. intros [= <-]. by destruct entry.
Qed.

(** ** Histories of registrations *)

(** What a client registers: a handler (which may be null), or a deferred
    pragma. *)
Inductive request : Type :=
  | RequestHandler (space : option (list byte)) (name : list byte) (handler : option nat) (allow_expansion : bool)
  | RequestDeferred (space : option (list byte)) (name : list byte) (ident : Z) (allow_expansion allow_name_expansion : bool).

Definition register (q : request) (p : list pragma_entry) : W (list pragma_entry) :=
  match q with
  | RequestHandler space name n allow => cpp_register_pragma p space name n allow
  | RequestDeferred space name ident allow allow_name => cpp_register_deferred_pragma p space name ident allow allow_name
  end.

(** The table with the request, or [None] where it is rejected. *)
Definition table_register (q : request) (a : table) : option table :=
  match q with
  | RequestHandler space name None allow => None
  | RequestHandler space name (Some n) allow =>
      if accepts a space name false then Some (table_add space name false (MHandler false allow (PragmaClient n)) a) else None
  | RequestDeferred space name ident allow allow_name =>
      if accepts a space name allow_name then Some (table_add space name allow_name (MDeferred allow ident) a) else None
  end.

(** Requests one after the other, with the number of complaints. *)
Fixpoint register_requests (qs : list request) (p : list pragma_entry) : W (list pragma_entry) :=
  match qs with
  | [] => mret p
  | q :: qs => p ←w register q p ;; register_requests qs p
  end.
Fixpoint table_requests (qs : list request) (a : table) : nat * table :=
  match qs with
  | [] => (O, a)
  | q :: qs => match table_register q a with
               | Some a => table_requests qs a
               | None => let r := table_requests qs a in (S (fst r), snd r)
               end
  end.

(** libcpp's own pragmas. *)
Fixpoint table_all (l : list (option (list byte) * list byte * pragma_handler)) (a : table) : option table :=
  match l with
  | [] => Some a
  | (space, name, h) :: l =>
      if accepts a space name false then table_all l (table_add space name false (MHandler true false h) a) else None
  end.
Definition initial_table : table := default empty_table (table_all internal_pragmas empty_table).

Lemma register_pragma_1_table p a space name allow entry m :
  tabulates p a -> entry_name entry = name -> meaning_of entry = Some m ->
  exists d p', register_pragma_1 p space name allow entry = (d, (accepts a space name allow, p')) /\
    length d = (if accepts a space name allow then 0 else 1)%nat /\
    tabulates p' (if accepts a space name allow then table_add space name allow m a else a).
Proof.
  intros H En Em. unfold register_pragma_1, accepts. destruct space as [sp|].
  - pose proof (lookup_cases p a sp H) as Hc. destruct (lookup_pragma_entry p sp) as [[m' b es|m' b i|m' i b h]|] eqn:E.
    + destruct Hc as (Hb & Hs & ->). pose proof (local_cases p a sp name b es H Hs) as Hl. unfold byte in *. rewrite Hl, Hb.
      destruct (Bool.eqb b allow) eqn:Eb; [apply eqb_prop in Eb as ->|]; cbn [negb andb].
      * unfold add_pragma. destruct (lookup_pragma_entry es name) as [e|] eqn:En'; cbn; [by eauto|].
        eexists _, _. split; [done|]. split; [done|]. by eapply tabulates_local.
      * rewrite andb_false_r. by eauto.
    + destruct Hc as (_ & ->). cbn. by eauto.
    + destruct Hc as (_ & ->). cbn. by eauto.
    + destruct Hc as (Hsp & ->). unfold bound in Hsp.
      assert (bound (t_pragmas a) (Some sp, name) = false) as Hl.
      { pose proof (tb_local p a H sp name) as Hl. unfold space_of in Hl. rewrite E in Hl. unfold bound, byte in *. by rewrite Hl. }
      unfold byte in *. rewrite Hl. destruct (t_spaces a !! sp); [done|]. cbn [negb andb].
      eexists _, _. split; [done|]. split; [done|]. by eapply tabulates_new_space.
  - destruct allow; cbn [negb andb]; [by eauto|]. pose proof (lookup_cases p a name H) as Hc.
    unfold add_pragma. destruct (lookup_pragma_entry p name) as [[m' b es|m' b i|m' i b h]|] eqn:E; cbn.
    + destruct Hc as (Hb & _ & _). assert (bound (t_spaces a) name = true) as -> by (unfold bound, byte in *; by rewrite Hb).
      by eauto.
    + destruct Hc as (-> & ->). by eauto.
    + destruct Hc as (-> & ->). by eauto.
    + destruct Hc as (-> & ->). eexists _, _. split; [done|]. split; [done|]. by eapply tabulates_global.
Qed.

Lemma register_all_table l : forall p a a', tabulates p a -> table_all l a = Some a' ->
  exists p', register_all l p = ([], Some p') /\ tabulates p' a'.
Proof.
  induction l as [|[[space name] h] l IH]; intros p a a' H Ha; cbn [table_all register_all] in *; [injection Ha as <-; by eauto|].
  destruct (register_pragma_1_table p a space name false (PHandler name true false h) (MHandler true false h) H eq_refl eq_refl)
    as (d & p1 & E & Hd & H1).
  destruct (accepts a space name false); [|done]. destruct d; [|done]. destruct (IH p1 _ _ H1 Ha) as (p' & E' & H').
  exists p'. split; [|done]. unfold register_pragma_internal. rewrite E. cbn. by rewrite E'.
Qed.

Lemma empty_tabulates : tabulates [] empty_table.
Proof. split; intros; done. Qed.

Lemma internal_pragmas_table : exists p, _cpp_init_internal_pragmas [] = ([], Some p) /\ tabulates p initial_table.
Proof.
  assert (match table_all internal_pragmas empty_table with Some _ => true | None => false end = true) as H by (vm_compute; reflexivity).
  unfold initial_table. destruct (table_all internal_pragmas empty_table) as [a|] eqn:E; [|done].
  exact (register_all_table internal_pragmas [] empty_table a empty_tabulates E).
Qed.

Lemma W_bind_eq {A B} d (x : A) (f : A -> W B) : (y ←w (d, x) ;; f y) = (d ++ fst (f x), snd (f x)).
Proof. cbn. by destruct (f x). Qed.

Lemma register_table q p a : tabulates p a -> exists d p', register q p = (d, p') /\
  match table_register q a with
  | Some a' => d = [] /\ tabulates p' a'
  | None => length d = 1%nat /\ tabulates p' a
  end.
Proof.
  intros H. destruct q as [space name [n|] allow|space name ident allow allow_name]; cbn [register table_register].
  - destruct (register_pragma_1_table p a space name false (PHandler name false allow (PragmaClient n)) _ H eq_refl eq_refl)
      as (d & p' & E & Hd & H'). exists d, p'. cbn [cpp_register_pragma]. rewrite E.
    split; [by rewrite W_bind_eq; cbn; rewrite app_nil_r|]. destruct (accepts a space name false); [|done].
    by destruct d.
  - eexists _, p. split; [reflexivity|]. done.
  - destruct (register_pragma_1_table p a space name allow_name (PDeferred name allow ident) _ H eq_refl eq_refl)
      as (d & p' & E & Hd & H'). exists d, p'. unfold cpp_register_deferred_pragma. rewrite E.
    split; [by rewrite W_bind_eq; cbn; rewrite app_nil_r|]. destruct (accepts a space name allow_name); [|done].
    by destruct d.
Qed.

Lemma register_requests_table qs : forall p a, tabulates p a -> exists d p', register_requests qs p = (d, p') /\
  length d = fst (table_requests qs a) /\ tabulates p' (snd (table_requests qs a)).
Proof.
  induction qs as [|q qs IH]; intros p a H; cbn [register_requests table_requests]; [by exists [], p|].
  destruct (register_table q p a H) as (d & p1 & E & H1). rewrite E.
  destruct (table_register q a) as [a'|]; destruct H1 as [Hd H1]; destruct (IH p1 _ H1) as (d2 & p2 & E2 & Hd2 & H2);
    exists (d ++ d2), p2; rewrite W_bind_eq, E2; (split; [done|]); cbn [fst snd]; rewrite length_app; subst; cbn; split; try done; lia.
Qed.

(** The tokens of a #pragma find what the table has. *)
Definition pragma_at (a : table) (t1 t2 : cpp_token) : option meaning :=
  match t_spaces a !! t_text t1 with
  | Some _ => if type_is t2 CPP_NAME then t_pragmas a !! (Some (t_text t1), t_text t2) else None
  | None => t_pragmas a !! (None, t_text t1)
  end.

Lemma find_pragma_table p a s t1 t2 ts : tabulates p a -> ds_pragmas s = p -> r_stream (ds_reader s) = t1 :: t2 :: ts ->
  type_is t1 CPP_NAME = true -> type_is t2 CPP_EOF = false ->
  exists e tokens s', find_pragma s = Some ((e, t1, tokens), s') /\ ds_pragmas s' = p /\
    (e ≫= meaning_of) = pragma_at a t1 t2 /\ (e = None <-> pragma_at a t1 t2 = None) /\
    r_prevent_expansion (ds_reader s') = r_prevent_expansion (ds_reader s) /\
    tokens ++ r_stream (ds_reader s') = t1 :: t2 :: ts.
Proof.
  intros H Hp Hs H1 H2. assert (type_is t1 CPP_EOF = false) as He1 by (unfold type_is in *; by destruct (t_type t1)).
  unfold find_pragma, pragma_at. unfold bindD at 1. unfold readD at 1, cpp_get_token at 1. rewrite Hs, He1.
  unfold bindD at 1, getD at 1. cbn [add_diags set_reader ds_pragmas]. rewrite Hp, H1.
  pose proof (lookup_cases p a (t_text t1) H) as Hc. pose proof (tb_global p a H (t_text t1)) as Hg. unfold pragma_in in Hg.
  pose proof (tb_spaces p a H (t_text t1)) as Hts. unfold space_of in Hts.
  destruct (lookup_pragma_entry p (t_text t1)) as [[m b es|m b i|m i b h]|] eqn:E.
  - destruct Hc as (Hb & Hsp & _). pose proof (tb_local p a H (t_text t1) (t_text t2)) as Hl. unfold byte in *.
    rewrite Hb. rewrite Hsp in Hl. cbn [mbind option_bind] in Hl. rewrite Hl. unfold pragma_in.
    assert (forall n e, lookup_pragma_entry es n = Some e -> is_nspace e = false) as Hf by (intros n e; apply (tb_flat p a H (t_text t1) b es n e Hsp)).
    specialize (Hf (t_text t2)).
    destruct b; cbn [whenD]; unfold prevent, readD, bindD, modify, cpp_get_token; cbn; rewrite H2; cbn;
      eexists _, _, _; (split; [reflexivity|]); cbn; (split; [done|]);
      destruct (type_is t2 CPP_NAME); 
      destruct (lookup_pragma_entry es (t_text t2)) as [[]|]; try (specialize (Hf _ eq_refl));
      split_and!; first [done|by split|lia].
  - unfold byte in *. rewrite Hts, Hg.
    eexists _, _, _. split; [reflexivity|]. cbn. split_and!; first [done|by split].
  - unfold byte in *. rewrite Hts, Hg.
    eexists _, _, _. split; [reflexivity|]. cbn. split_and!; first [done|by split].
  - unfold byte in *. rewrite Hts, Hg.
    eexists _, _, _. split; [reflexivity|]. cbn. split_and!; first [done|by split].
Qed.

(** ** Names *)

Fixpoint entry_names_ok (p : pragma_entry) : Prop :=
  match p with
  | PNamespace n _ space => Forall (fun c => c <> 0) n /\ foldr (fun p P => entry_names_ok p /\ P) True space
  | PDeferred n _ _ | PHandler n _ _ _ => Forall (fun c => c <> 0) n
  end.

(** Induction over entries. *)
Section Induct.
Context (P : pragma_entry -> Prop).
Context (Hn : forall n b space, Forall P space -> P (PNamespace n b space)).
Context (Hd : forall n b i, P (PDeferred n b i)) (Hh : forall n i b h, P (PHandler n i b h)).

Fixpoint entry_induct (p : pragma_entry) : P p :=
  match p with
  | PNamespace n b space =>
      Hn n b space ((fix all (l : list pragma_entry) : Forall P l :=
                       match l with [] => @List.Forall_nil _ P | p :: l => @List.Forall_cons _ P p l (entry_induct p) (all l) end) space)
  | PDeferred n b i => Hd n b i
  | PHandler n i b h => Hh n i b h
  end.
End Induct.

Lemma count_saved p : count_entry p = length (save_entry p).
Proof.
  induction p as [n b space IH|n b i|n i b h] using entry_induct; try done. cbn [count_entry save_entry].
  rewrite length_app. cbn [length]. rewrite Nat.add_1_r. f_equal.
  induction IH as [|p space Hp _ IH]; [done|]. cbn [foldr flat_map]. by rewrite length_app, Hp, IH.
Qed.

Lemma count_registered pe : count_registered_pragmas pe = length (save_registered_pragmas pe).
Proof.
  unfold count_registered_pragmas, save_registered_pragmas.
  induction pe as [|p pe IH]; [done|]. cbn [foldr flat_map]. by rewrite length_app, <- count_saved, IH.
Qed.

Lemma restore_saved_entry p : entry_names_ok p -> forall rest, restore_entry p (save_entry p ++ rest) = Some (p, rest).
Proof.
  induction p as [n b space IH|n b i|n i b h] using entry_induct; cbn [entry_names_ok]; intros H rest.
  - destruct H as [Hn Hs]. cbn [restore_entry save_entry]. rewrite <- app_assoc.
    match goal with |- context [?f space (flat_map save_entry space ++ _)] =>
      assert (forall r, f space (flat_map save_entry space ++ r) = Some (space, r)) as Hall end.
    { clear rest. revert Hs. induction IH as [|p space Hp _ IH]; intros Hs rest; [done|]. destruct Hs as [H1 H2].
      cbn [flat_map]. rewrite <- app_assoc, Hp by done. cbn [mbind option_bind fst snd]. by rewrite IH. }
    rewrite Hall. cbn [mbind option_bind fst snd app restore_name]. by rewrite c_string_all.
  - cbn. by rewrite c_string_all.
  - cbn. by rewrite c_string_all.
Qed.

Lemma restore_saved pe : Forall entry_names_ok pe -> forall rest,
  restore_registered_pragmas pe (save_registered_pragmas pe ++ rest) = Some (pe, rest).
Proof.
  induction 1 as [|p pe Hp _ IH]; intros rest; [done|]. cbn [restore_registered_pragmas save_registered_pragmas flat_map].
  rewrite <- app_assoc, restore_saved_entry by done. cbn [mbind option_bind fst snd]. unfold save_registered_pragmas in IH. by rewrite IH.
Qed.

(** ** The string of a pragma *)

Lemma pragma_string_read s open str close :
  r_stream (ds_reader s) = [open; str; close] ->
  type_is open CPP_OPEN_PAREN = true -> type_is str CPP_STRING = true -> type_is close CPP_CLOSE_PAREN = true ->
  readD get__Pragma_string s = Some (Some str, at_tokens [] (close :: str :: open :: r_lexed (ds_reader s)) s).
Proof.
  intros Hs H1 H2 H3. destruct open as [ty1 f1 x1 sp1 n1 m1], str as [ty2 f2 x2 sp2 n2 m2], close as [ty3 f3 x3 sp3 n3 m3].
  unfold type_is in H1, H2, H3. cbn [t_type] in H1, H2, H3.
  destruct (ttype_eqb_spec ty1 CPP_OPEN_PAREN) as [->|]; [|done].
  destruct (ttype_eqb_spec ty2 CPP_STRING) as [->|]; [|done].
  destruct (ttype_eqb_spec ty3 CPP_CLOSE_PAREN) as [->|]; [|done].
  unfold readD, get__Pragma_string, get_token_no_padding, bindR, modify, cpp_get_token. rewrite Hs. cbn. by rewrite add_no_diags.
Qed.

(** ** Results *)


(** The names of the registry that are saved before a precompiled header is read
    fill the array counted for them, and put back give the registry back, however
    its namespaces are nested. *)
Theorem pragma_names_restored (p : list pragma_entry) :
  Forall entry_names_ok p ->
  exists names, _cpp_save_pragma_names p = Some names /\ length names = count_registered_pragmas p /\
    _cpp_restore_pragma_names p names = Some p.
Proof.
  intros H. exists (save_registered_pragmas p). unfold _cpp_save_pragma_names, _cpp_restore_pragma_names.
  rewrite count_registered, Nat.leb_refl. split_and!; [done..|].
  pose proof (restore_saved p H []) as E. rewrite app_nil_r in E. by rewrite E.
Qed.

(** A reader at the tokens of a line. *)
Definition ex_reader (nodes : gmap (list Z) cpp_hashnode) (pragmas : list pragma_entry) (ts : list cpp_token) : dstate :=
  mk_dstate (fresh_reader ts nodes) (mk_lstate true false false 0 false false false false) ∅ (linemap_init 1)
    (new_files [] 0 false) pragmas [] ResultPadding false [] [].

Definition ex_name (s : string) : cpp_token := mk_token CPP_NAME 0 (bytes s) (bytes s) 0 false.

Definition ex_requests : list request :=
  [RequestDeferred (Some (bytes "omp")) (bytes "parallel") 7 true true; RequestHandler None (bytes "omp") (Some 1%nat) false;
   RequestHandler None (bytes "weak") (Some 2%nat) false; RequestHandler (Some (bytes "GCC")) (bytes "poison") (Some 3%nat) true;
   RequestDeferred (Some (bytes "GCC")) (bytes "ivdep") 8 false true; RequestDeferred None (bytes "redefine_extname") 9 false false].
Definition ex_registry : list pragma_entry :=
  Eval vm_compute in match snd (_cpp_init_internal_pragmas []) with
                     | Some p => snd (register_requests ex_requests p) | None => [] end.
Definition ex_line : list cpp_token := [ex_name "omp"; ex_name "parallel"; ex_name "for"].


Lemma pragma_names_restored_witness :
  exists names, _cpp_save_pragma_names ex_registry = Some names /\ length names = count_registered_pragmas ex_registry /\
    _cpp_restore_pragma_names ex_registry names = Some ex_registry.
Proof.
  apply pragma_names_restored. unfold ex_registry.
  repeat (cbn [entry_names_ok foldr]; first [apply Forall_nil_2 | apply Forall_cons_2 | exact I | discriminate | split]).
Defined.

(** #pragma push_macro of a macro that is built in goes wrong: its
    definition, which there is not, is asked for.  Whatever the state, once the
    line is a string in parentheses that names such a macro, nothing is pushed:
    an assertion fails in compilers that check, a pointer that is not one is
    followed in others. *)
Theorem push_builtin_crashes (o : cpp_options) s open str close :
  r_stream (ds_reader s) = [open; str; close] ->
  type_is open CPP_OPEN_PAREN = true -> type_is str CPP_STRING = true -> type_is close CPP_CLOSE_PAREN = true ->
  let name := c_string (pragma_text (t_text str)) in
  name <> [] -> forallb ISIDNUM (tl name) = true ->
  n_type (cpp_lookup name (ds_reader s)) = NT_BUILTIN_MACRO ->
  do_pragma_push_macro o s = None.
Proof.
  intros Hs H1 H2 H3 name Hne Hid Hn. unfold do_pragma_push_macro. rewrite bindD_eq.
  rewrite (pragma_string_read s open str close) by done. fold name.
  rewrite bindD_eq, (check_eol_line close) by (unfold type_is in *; by destruct (t_type close)).
  rewrite bindD_eq, skip_rest_line, bindD_eq. unfold lex_identifier_intern. destruct name as [|c r] eqn:En; [done|].
  cbn [tl] in Hid. pose proof (idnum_run_app r [] Hid eq_refl) as Hr. rewrite app_nil_r in Hr. rewrite Hr. cbn [fst].
  rewrite bindD_eq. cbn [getD id]. rewrite bindD_eq. unfold warnD. cbn [mret D_ret]. rewrite bindD_eq.
  cbn [getD add_diags at_tokens set_reader ds_reader]. change (cpp_lookup (c :: r) (set_tokens _ _ ?x)) with (cpp_lookup (c :: r) x).
  rewrite bindD_eq. cbn in Hn |- *. by rewrite Hn.
Qed.

Definition ex_builtin : dstate :=
  ex_reader {[ bytes "__FILE__" := mk_node NT_BUILTIN_MACRO 0 [] false ]} []
    [mk_token CPP_OPEN_PAREN 0 (bytes "(") [] 0 false; mk_token CPP_STRING 0 ([34] ++ bytes "__FILE__" ++ [34]) [] 0 false;
     mk_token CPP_CLOSE_PAREN 0 (bytes ")") [] 0 false].

Lemma push_builtin_crashes_witness : do_pragma_push_macro gnuc17_options ex_builtin = None.
Proof.
  by apply (push_builtin_crashes gnuc17_options ex_builtin (mk_token CPP_OPEN_PAREN 0 (bytes "(") [] 0 false)
    (mk_token CPP_STRING 0 ([34] ++ bytes "__FILE__" ++ [34]) [] 0 false) (mk_token CPP_CLOSE_PAREN 0 (bytes ")") [] 0 false)).
Defined.

(** A macro whose name is not ASCII is not saved: what is looked up is the first
    byte of the name. *)
Definition ex_extended : dstate :=
  let s := ex_reader {[ [195; 169] := mk_node NT_USER_MACRO 0 [] true ]} []
    [mk_token CPP_OPEN_PAREN 0 (bytes "(") [] 0 false; mk_token CPP_STRING 0 [34; 195; 169; 34] [] 0 false;
     mk_token CPP_CLOSE_PAREN 0 (bytes ")") [] 0 false] in
  set_macros_table {[ [195; 169] := mk_macro [] 0 false false false false [mk_token CPP_NUMBER 0 (bytes "1") [] 0 false] ]} s.

Lemma extended_name_not_pushed :
  match do_pragma_push_macro gnuc17_options ex_extended with
  | Some (_, s) => ds_pushed s = [mk_pushed [195; 169] None false false] | None => False end.
Proof. by vm_compute. Qed.

(** A macro that is pushed, changed and popped: its old definition is back, the
    prefix L of the string aside. *)
Definition ex_push_pop : D unit :=
  do_pragma_push_macro gnuc17_options ;;d
  modD (fun s => put_macro_node (bytes "N") (mk_mnode NVoid 0) false s) ;;d
  modD (at_tokens (r_stream (ds_reader (ex_reader ∅ []
    [mk_token CPP_OPEN_PAREN 0 (bytes "(") [] 0 false; mk_token CPP_WSTRING 0 (bytes "L" ++ [34; 78; 34]) [] 0 false;
     mk_token CPP_CLOSE_PAREN 0 (bytes ")") [] 0 false]))) []) ;;d
  do_pragma_pop_macro gnuc17_options default_macro_options sample_table.

Definition ex_macro : cpp_macro :=
  mk_macro [bytes "x"] 1 true false true false
    [mk_token CPP_MACRO_ARG 4 [] (bytes "x") 1 false; mk_token CPP_PLUS 1 (bytes "+") [] 0 false; mk_token CPP_NUMBER 1 (bytes "1") [] 0 false].
Definition ex_pushing : dstate :=
  set_macros_table {[ bytes "N" := ex_macro ]}
    (ex_reader {[ bytes "N" := mk_node NT_USER_MACRO 0 [] true ]} []
      [mk_token CPP_OPEN_PAREN 0 (bytes "(") [] 0 false; mk_token CPP_STRING 0 [34; 78; 34] [] 0 false;
       mk_token CPP_CLOSE_PAREN 0 (bytes ")") [] 0 false]).

Lemma pushed_and_popped :
  match ex_push_pop ex_pushing with
  | Some (_, s) =>
      match macro_node_of (bytes "N") s with
      | mk_mnode (NUser m) _ => same_macro m ex_macro = true /\ m_syshdr m = true
      | _ => False
      end /\ ds_pushed s = [] /\ ds_diags s = []
  | None => False
  end.
Proof. by vm_compute. Qed.
