(* ===== verification/Directive.v ===== *)
(** * Directives

    directives.c: the table of directives, the dispatch on the name behind #
    (_cpp_handle_directive) and the handlers that are not in a file of their
    own.  The conditionals are those of CondStack, the assertions those of
    Assert, definitions those of MacroDef, #line and linemarkers those of
    LineDir, #pragma that of Pragma.  DirectiveSpec has the theorems. *)

From Stdlib Require Import ZArith Lia Bool String Ascii.
From stdpp Require Import base tactics list numbers gmap.
From S2P Require Import Prelude Reader CppNum NumLit Stream Assert ExprParse CondStack Utf StrLit LineMap Deps Files MacroDef CleanLine Lex LexLine DirState LineDir Pragma.

Local Open Scope string_scope.
Local Open Scope list_scope.
Local Open Scope Z_scope.

(** ** The table *)

Inductive origin : Type := KANDR | STDC89 | EXTENSION.

Definition COND : Z := 1.
Definition IF_COND : Z := 2.
Definition INCL : Z := 4.
Definition IN_I : Z := 8.
Definition EXPAND : Z := 16.
Definition DEPRECATED : Z := 32.

Inductive directive_handler : Type :=
  | do_define_h | do_include_h | do_undef_h | do_line_h | do_error_h | do_pragma_h | do_warning_h
  | do_include_next_h | do_ident_h | do_import_h | do_assert_h | do_unassert_h | do_linemarker_h
  | do_cond_h (d : CondStack.directive).

Record directive_info : Type := mk_dir_info {
  di_handler : directive_handler;
  di_name : list byte;
  di_origin : origin;
  di_flags : Z
}.

Definition dtable : list directive_info :=
  [mk_dir_info do_define_h (bytes "define") KANDR IN_I;
   mk_dir_info do_include_h (bytes "include") KANDR (Z.lor INCL EXPAND);
   mk_dir_info (do_cond_h D_ENDIF) (bytes "endif") KANDR COND;
   mk_dir_info (do_cond_h D_IFDEF) (bytes "ifdef") KANDR (Z.lor COND IF_COND);
   mk_dir_info (do_cond_h D_IF) (bytes "if") KANDR (Z.lor (Z.lor COND IF_COND) EXPAND);
   mk_dir_info (do_cond_h D_ELSE) (bytes "else") KANDR COND;
   mk_dir_info (do_cond_h D_IFNDEF) (bytes "ifndef") KANDR (Z.lor COND IF_COND);
   mk_dir_info do_undef_h (bytes "undef") KANDR IN_I;
   mk_dir_info do_line_h (bytes "line") KANDR EXPAND;
   mk_dir_info (do_cond_h D_ELIF) (bytes "elif") STDC89 (Z.lor COND EXPAND);
   mk_dir_info do_error_h (bytes "error") STDC89 0;
   mk_dir_info do_pragma_h (bytes "pragma") STDC89 IN_I;
   mk_dir_info do_warning_h (bytes "warning") EXTENSION 0;
   mk_dir_info do_include_next_h (bytes "include_next") EXTENSION (Z.lor INCL EXPAND);
   mk_dir_info do_ident_h (bytes "ident") EXTENSION IN_I;
   mk_dir_info do_import_h (bytes "import") EXTENSION (Z.lor INCL EXPAND);
   mk_dir_info do_assert_h (bytes "assert") EXTENSION DEPRECATED;
   mk_dir_info do_unassert_h (bytes "unassert") EXTENSION DEPRECATED;
   mk_dir_info do_ident_h (bytes "sccs") EXTENSION IN_I].

Definition linemarker_dir : directive_info := mk_dir_info do_linemarker_h (bytes "#") KANDR IN_I.

Definition dir_flag (d : directive_info) (f : Z) : bool := flag (di_flags d) f.

(** The directive of a name: its node has is_directive and the index. *)
Definition directive_named (name : list byte) : option directive_info :=
  find (fun d => bytes_eqb (di_name d) name) dtable.

Definition is_import (d : directive_info) : bool := bytes_eqb (di_name d) (bytes "import").

(** Options only directives read. *)
Record directive_options : Type := mk_diropts {
  preprocessed : bool;
  directives_only : bool
}.

Definition CPP_STACK_MAX : Z := 200.

Section Directives.
Context (dos : bool) (o : cpp_options) (mo : macro_options) (do_ : directive_options) (tab : ucn_table) (csets_ : csets).
Context (os_open : list byte -> open_result) (os_read : list byte -> option (list byte))
  (os_realpath : list byte -> option (list byte)).
Context (canonical_system_headers : bool) (dopts : dep_options).
Context (client : nat -> D unit) (has_def_pragma : bool) (e : env) (last_line : bool).

(** ** Diagnostics *)

Definition directive_diagnostics (skipping : bool) (dir : directive_info) (indented : bool) : W unit :=
  when (negb skipping)
    (if (match di_origin dir with EXTENSION => true | _ => false end) && negb (is_import dir && objc o) && cpp_pedantic o
     then cpp_error CPP_DL_PEDWARN "#%s is a GCC extension"
     else when ((dir_flag dir DEPRECATED || (is_import dir && negb (objc o))) && cpp_warn_deprecated o)
            (cpp_warning CPP_W_DEPRECATED "#%s is a deprecated GCC extension")) ;;w
  let kandr := match di_origin dir with KANDR => true | _ => false end in
  when (cpp_warn_traditional o)
    (if bytes_eqb (di_name dir) (bytes "elif") then cpp_warning CPP_W_TRADITIONAL "suggest not using #elif in traditional C"
     else if indented && kandr then cpp_warning CPP_W_TRADITIONAL "traditional C ignores #%s with the # indented"
     else when (negb indented && negb kandr)
            (cpp_warning CPP_W_TRADITIONAL "suggest hiding #%s from traditional C with an indented #")).

(** ** Handlers *)

(** [sysp] of the buffer on top is not zero. *)
Definition in_system_buffer (s : dstate) : bool :=
  match buffers (ds_files s) with b :: _ => negb (Files.b_sysp b =? 0) | [] => false end.

(** The rest of the tokens of the line. *)
Definition rest_of_line : R (list cpp_token) :=
  ts ←r gets r_stream ;;
  modify (fun r => set_tokens [] (eof_token :: rev (r_stream r) ++ r_lexed r) r) ;;r
  mret ts.

(** A new macro counts as used: unused macros are not warned about. *)
Definition do_define_directive : D unit :=
  name ←d readD (lex_macro_node true) ;;
  match name with
  | None => mret tt
  | Some name =>
      node ←d getD (macro_node_of name) ;;
      syshdr ←d getD in_system_buffer ;;
      ts ←d readD rest_of_line ;;
      d ←d warnD (_cpp_create_definition o mo syshdr name node ts) ;;
      d ←d ptrD d ;;
      let '(ok, node) := d in
      used ←d getD (fun s => ok || n_macro_used (cpp_lookup name (ds_reader s))) ;;
      modD (put_macro_node name node used) ;;d
      whenD ok (modD (add_call (CallDefine name))) ;;d
      modD (put_macro_node name (drop_node_used node) used)
  end.

Definition do_undef_directive : D unit :=
  name ←d readD (lex_macro_node true) ;;
  match name with
  | None => mret tt
  | Some name =>
      modD (add_call (CallUndef name)) ;;d
      node ←d getD (macro_node_of name) ;;
      node ←d warnD (MacroDef.do_undef mo node) ;;
      modD (put_macro_node name node false)
  end ;;d
  readD check_eol.

(** A file that is stacked: the client hears of the change of the file.  The
    highest location goes back unless the #include is on the last line of its
    buffer. *)
Definition enter_file : D unit :=
  b ←d getD (fun s => head (buffers (ds_files s))) ;;
  b ←d ptrD b ;;
  f ←d filesD (file_at (b_file b)) ;;
  whenD (negb last_line)
    (modD (fun s => set_maps (set_highest_location (u32 (highest_location (ds_maps s) - 1)) (ds_maps s)) s)) ;;d
  _cpp_do_file_change dos LC_ENTER (f_path f) 1 (Files.b_sysp b).

Definition do_include_common (type : include_type) : D unit :=
  r ←d readD (parse_include false) ;;
  match r with
  | None => mret tt
  | Some ([], _) => errorD CPP_DL_ERROR "empty filename in #%s"
  | Some (fname, angle_brackets) =>
      d ←d getD (fun s => depth (ds_maps s)) ;;
      if CPP_STACK_MAX <=? d then errorD CPP_DL_ERROR "#include nested too deeply"
      else
        readD skip_rest_of_line ;;d
        modD (add_call (CallInclude fname angle_brackets)) ;;d
        s ←d getD id ;;
        stacked ←d filesD (_cpp_stack_include os_open os_read os_realpath None canonical_system_headers dopts
                             (fun n => cpp_macro_p (cpp_lookup n (ds_reader s))) fname angle_brackets type) ;;
        whenD stacked enter_file
  end.

Definition do_include_next : D unit :=
  main ←d cpp_in_primary_file ;;
  if main : bool then
    errorD CPP_DL_WARNING "#include_next in primary source file" ;;d do_include_common IT_INCLUDE
  else do_include_common IT_INCLUDE_NEXT.

Definition do_ident : D unit :=
  str ←d readD cpp_get_token ;;
  (if negb (type_is str CPP_STRING) then errorD CPP_DL_ERROR "invalid #%s directive"
   else modD (add_call (CallIdent (t_text str)))) ;;d
  readD check_eol.

(** A conditional; [None] is an evaluation that does not return. *)
Definition do_conditional (d : CondStack.directive) : D unit :=
  x ←d readD (handler e d) ;; ptrD x.

Definition run_handler (h : directive_handler) : D unit :=
  match h with
  | do_define_h => do_define_directive
  | do_undef_h => do_undef_directive
  | do_include_h => do_include_common IT_INCLUDE
  | do_import_h => do_include_common IT_IMPORT
  | do_include_next_h => do_include_next
  | do_line_h => LineDir.do_line dos o tab csets_
  | do_linemarker_h => do_linemarker dos o tab csets_ os_open os_realpath canonical_system_headers dopts
  | do_error_h => readD (do_diagnostic CPP_DL_ERROR CPP_W_NONE)
  | do_warning_h => readD (do_diagnostic CPP_DL_WARNING_SYSHDR CPP_W_WARNING_DIRECTIVE)
  | do_pragma_h => do_pragma dos o mo tab csets_ os_open os_realpath canonical_system_headers dopts client has_def_pragma
  | do_ident_h => do_ident
  | do_assert_h => readD do_assert
  | do_unassert_h => readD do_unassert
  | do_cond_h d => do_conditional d
  end.

(** ** Dispatch *)

Definition start_directive : D unit :=
  modD (fun s => set_lexer (set_in_directive true (ds_lexer s)) s) ;;d modD (set_result ResultPadding).

(** In a deferred pragma the tokens of the line are still to be read. *)
Definition end_directive (skip_line : bool) : D unit :=
  l ←d getD ds_lexer ;;
  whenD (negb (ls_in_deferred_pragma l) && skip_line) (readD skip_rest_of_line) ;;d
  modD (fun s => set_lexer (set_header_state false (ls_directive_wants_padding (ds_lexer s))
                              (set_in_directive false (ds_lexer s))) s).

Definition set_prevent (n : Z) : D unit := readD (modify (set_prevent_expansion n)).

(** Whether the directive is one to be run, and whether the line is done with it:
    in a preprocessed file only directives at the start of a line that have
    callbacks are; in a skipped group only conditionals are. *)
Definition choose_directive (dir : directive_info) (indented : bool) : D (option directive_info * bool) :=
  whenD (negb (dir_flag dir IF_COND)) (readD (modify (fun r => set_mi (r_mi_cmacro r) false r))) ;;d
  if preprocessed do_ && negb (directives_only do_) && (indented || negb (dir_flag dir IN_I)) then mret (None, false)
  else
    modD (fun s => set_lexer (set_header_state (dir_flag dir INCL) (dir_flag dir INCL) (ds_lexer s)) s) ;;d
    skipping ←d getD (fun s => r_skipping (ds_reader s)) ;;
    whenD (negb (preprocessed do_)) (warnD (directive_diagnostics skipping dir indented)) ;;d
    mret (if skipping && negb (dir_flag dir COND) then None else Some dir, true).

(** The directive the token behind # stands for, and whether the line is done
    with it. *)
Definition classify (dname : cpp_token) (indented : bool) : D (option directive_info * bool) :=
  skipping ←d getD (fun s => r_skipping (ds_reader s)) ;;
  let asm := c_lang_index (lang o) =? c_lang_index CLK_ASM in
  match (if type_is dname CPP_NAME then directive_named (t_text dname)
         else if type_is dname CPP_NUMBER && negb asm then Some linemarker_dir else None) with
  | Some dir =>
      whenD (type_is dname CPP_NUMBER && cpp_pedantic o && negb (preprocessed do_) && negb skipping)
        (errorD CPP_DL_PEDWARN "style of line directive is a GCC extension") ;;d
      choose_directive dir indented
  | None =>
      if type_is dname CPP_EOF then mret (None, true)
      else if asm then mret (None, false)
      else
        whenD (negb skipping) (errorD CPP_DL_ERROR "invalid preprocessing directive #%s") ;;d
        mret (None, true)
  end.

(** The result is whether the line has been handled. *)
Definition _cpp_handle_directive (indented : bool) : D bool :=
  l ←d getD ds_lexer ;;
  let was_parsing_args := negb (ls_parsing_args l =? 0) in
  let was_discarding_output := ls_discarding_output l in
  whenD was_discarding_output (set_prevent 0) ;;d
  whenD was_parsing_args
    (whenD (cpp_pedantic o) (errorD CPP_DL_PEDWARN "embedding a directive within macro arguments is not portable") ;;d
     modD (fun s => set_lexer (set_parsing_args 0 (ds_lexer s)) s) ;;d set_prevent 0) ;;d
  start_directive ;;d
  dname ←d readD _cpp_lex_token ;;
  c ←d classify dname indented ;;
  let '(dir, skip) := c in
  match dir with
  | Some dir => run_handler (di_handler dir)
  | None => whenD (negb skip) (readD _cpp_backup_token)
  end ;;d
  end_directive skip ;;d
  l ←d getD ds_lexer ;;
  whenD (was_parsing_args && negb (ls_in_deferred_pragma l))
    (modD (fun s => set_lexer (set_parsing_args 2 (ds_lexer s)) s) ;;d set_prevent 1) ;;d
  whenD was_discarding_output (set_prevent 1) ;;d
  mret skip.
End Directives.
