(* ===== verification/DirectiveSpec.v ===== *)
(** * Which directives are run

    The theorems of Directive: in a skipped group only conditionals do anything,
    and in a preprocessed file a line that is not for the preprocessor is given
    back as it was. *)

From Stdlib Require Import ZArith Lia Bool String Ascii.
From stdpp Require Import base tactics list numbers gmap.
From S2P Require Import Prelude Reader CppNum NumLit Stream Assert ExprParse CondStack Utf StrLit LineMap Deps Files MacroDef CleanLine Lex LexLine LexSpec DirState LineDir Pragma Directive.

Local Open Scope string_scope.
Local Open Scope list_scope.
Local Open Scope Z_scope.

(** ** The table *)

(** The conditionals are the directives with the flag COND. *)
Lemma cond_handler dir : In dir dtable -> dir_flag dir COND = match di_handler dir with do_cond_h _ => true | _ => false end.
Proof. intros H. repeat (destruct H as [<-|H]; [by vm_compute|]). destruct H. Qed.

Lemma if_cond_handler dir d : In dir dtable -> di_handler dir = do_cond_h d -> dir_flag dir IF_COND = opens d.
Proof. intros H. repeat (destruct H as [<-|H]; [intros [= <-]; by vm_compute|]). destruct H. Qed.

Lemma directive_named_in name dir : directive_named name = Some dir -> In dir dtable.
Proof. intros H. by apply find_some in H as [H _]. Qed.

(** ** States *)

(** The reader of a directive behind its name. *)
Definition behind_name (valid : bool) (dname : cpp_token) (ts : list cpp_token) (r : reader) : reader :=
  set_mi (r_mi_cmacro r) (valid && r_mi_valid r) (set_tokens ts (dname :: r_lexed r) r).

(** Where the state differs by at most the tokens of the line, the fields of the
    lexer that a directive sets, and the validity of the control macro. *)
Definition untouched (s s' : dstate) : Prop :=
  (exists valid st lx, ds_reader s' = set_mi (r_mi_cmacro (ds_reader s)) valid (set_tokens st lx (ds_reader s)) /\
    (valid = true -> r_mi_valid (ds_reader s) = true)) /\
  (exists padding, ds_lexer s' = set_header_state false padding (set_in_directive false (ds_lexer s))) /\
  s' = mk_dstate (ds_reader s') (ds_lexer s') (ds_macros s) (ds_maps s) (ds_files s) (ds_pragmas s) (ds_pushed s)
         ResultPadding (ds_seen_line_directive s) (ds_calls s) (ds_diags s).

(** Not among the arguments of a macro, and not in a pragma. *)
Definition ordinary_line (s : dstate) : Prop :=
  ls_parsing_args (ds_lexer s) = 0 /\ ls_discarding_output (ds_lexer s) = false /\ ls_in_deferred_pragma (ds_lexer s) = false.

Definition named_conditional (dname : cpp_token) : option CondStack.directive :=
  if type_is dname CPP_NAME then
    match directive_named (t_text dname) with Some dir => match di_handler dir with do_cond_h d => Some d | _ => None end | None => None end
  else None.

(** Only the reader has changed, and something was said. *)
Definition only_reader (s : dstate) (r : reader) (said : list diag) : dstate :=
  mk_dstate r (set_header_state false false (set_in_directive false (ds_lexer s))) (ds_macros s) (ds_maps s) (ds_files s)
    (ds_pragmas s) (ds_pushed s) ResultPadding (ds_seen_line_directive s) (ds_calls s) (ds_diags s ++ said).

Section Dispatch.
Context (dos : bool) (o : cpp_options) (mo : macro_options) (do_ : directive_options) (tab : ucn_table) (csets_ : csets).
Context (os_open : list byte -> open_result) (os_read : list byte -> option (list byte))
  (os_realpath : list byte -> option (list byte)).
Context (canonical_system_headers : bool) (dopts : dep_options).
Context (client : nat -> D unit) (has_def_pragma : bool) (e : env) (last_line : bool).
Context (Hasm : c_lang_index (lang o) =? c_lang_index CLK_ASM = false).

Notation handle := (_cpp_handle_directive dos o mo do_ tab csets_ os_open os_read os_realpath canonical_system_headers dopts
                      client has_def_pragma e last_line).

Lemma handle_eq indented s : ordinary_line s ->
  handle indented s =
  (start_directive ;;d dname ←d readD _cpp_lex_token ;; c ←d classify o do_ dname indented ;;
   match fst c with
   | Some dir => run_handler dos o mo tab csets_ os_open os_read os_realpath canonical_system_headers dopts
                   client has_def_pragma e last_line (di_handler dir)
   | None => whenD (negb (snd c)) (readD _cpp_backup_token)
   end ;;d
   end_directive (snd c) ;;d mret (snd c)) s.
Proof.
  intros (H1 & H2 & H3). unfold _cpp_handle_directive, bindD at 1, getD at 1. rewrite H1, H2. cbn [Z.eqb negb andb whenD].
  unfold bindD. cbn [mret D_ret getD]. destruct (start_directive s) as [[[] s1]|]; [|done].
  destruct (readD _cpp_lex_token s1) as [[dname s2]|]; [|done].
  destruct (classify o do_ dname indented s2) as [[[dir skip] s3]|]; [|done]. cbn [fst snd].
  match goal with |- match ?x with Some _ => _ | None => _ end = _ => destruct x as [[[] s4]|]; [|done] end.
  by destruct (end_directive skip s4) as [[[] s5]|].
Qed.

Lemma skipped_diagnostics dir indented : cpp_warn_traditional o = false ->
  directive_diagnostics o true dir indented = ([], tt).
Proof. intros H. unfold directive_diagnostics. by rewrite H. Qed.

Definition chosen (dir : directive_info) (valid : bool) (s : dstate) : dstate :=
  set_lexer (set_header_state (dir_flag dir INCL) (dir_flag dir INCL) (ds_lexer s))
    (set_reader (set_mi (r_mi_cmacro (ds_reader s)) valid (ds_reader s)) s).

Lemma choose_skipped dir indented s : preprocessed do_ = false -> cpp_warn_traditional o = false ->
  r_skipping (ds_reader s) = true ->
  choose_directive o do_ dir indented s =
  Some ((if dir_flag dir COND then Some dir else None, true), chosen dir (dir_flag dir IF_COND && r_mi_valid (ds_reader s)) s).
Proof.
  intros Hp Ht Hs. unfold choose_directive, bindD. rewrite Hp. cbn [andb negb whenD]. unfold chosen.
  destruct (dir_flag dir IF_COND); cbn [negb whenD mret D_ret andb].
  - unfold modD, getD. cbn [set_lexer ds_reader]. rewrite Hs, skipped_diagnostics by done. unfold warnD. cbn [fst snd].
    rewrite add_no_diags. destruct (dir_flag dir COND); cbn; destruct s as [r]; destruct r; done.
  - unfold readD, modify. cbn [set_reader ds_reader]. rewrite add_no_diags. unfold modD, getD. cbn [set_lexer set_reader ds_reader].
    cbn [set_mi r_skipping]. rewrite Hs, skipped_diagnostics by done. unfold warnD. cbn [fst snd]. rewrite add_no_diags.
    by destruct (dir_flag dir COND).
Qed.

Lemma no_traditional_linemarker : dir_flag linemarker_dir COND = false.
Proof. done. Qed.

(** Behind # in a skipped group. *)
Lemma classify_skipped dname indented s : preprocessed do_ = false -> cpp_warn_traditional o = false ->
  r_skipping (ds_reader s) = true ->
  match named_conditional dname with
  | Some d => exists dir, di_handler dir = do_cond_h d /\ dir_flag dir INCL = false /\
      classify o do_ dname indented s = Some ((Some dir, true), chosen dir (opens d && r_mi_valid (ds_reader s)) s)
  | None => exists s1, classify o do_ dname indented s = Some ((None, true), s1) /\
      (s1 = s \/ exists dir, s1 = chosen dir false s)
  end.
Proof.
  intros Hp Ht Hs. unfold classify, bindD, getD. rewrite Hs, Hasm. rewrite andb_false_r. cbn [negb]. rewrite andb_true_r.
  unfold named_conditional. destruct (type_is dname CPP_NAME) eqn:En.
  - assert (type_is dname CPP_NUMBER = false /\ type_is dname CPP_EOF = false) as [N1 N2] by (unfold type_is in *; by destruct (t_type dname)).
    rewrite ?N1, ?N2. cbn [andb whenD mret D_ret]. destruct (directive_named (t_text dname)) as [dir|] eqn:Ed; [|by eexists; split; [|left]].
    apply directive_named_in in Ed. rewrite choose_skipped by done. rewrite (cond_handler dir Ed).
    destruct (di_handler dir) eqn:Eh; try (eexists; split; [done|]; right; exists dir;
      assert (dir_flag dir IF_COND = false) as -> by (repeat (destruct Ed as [<-|Ed]; [first [by vm_compute|done]|]); destruct Ed); done).
    exists dir. split; [done|]. split; [|by rewrite (if_cond_handler dir d)].
    repeat (destruct Ed as [<-|Ed]; [first [by vm_compute|done]|]). destruct Ed.
  - destruct (type_is dname CPP_NUMBER); cbn [andb negb whenD mret D_ret].
    + rewrite ?andb_false_r. cbn [whenD mret D_ret]. rewrite choose_skipped by done. eexists. split; [done|]. right. by exists linemarker_dir.
    + destruct (type_is dname CPP_EOF); by eexists; split; [|left].
Qed.

(** The start of a directive: its name is read. *)
Definition started (dname : cpp_token) (ts : list cpp_token) (s : dstate) : dstate :=
  set_result ResultPadding (set_lexer (set_in_directive true (ds_lexer s)) (at_tokens ts (dname :: r_lexed (ds_reader s)) s)).

Lemma started_eq dname ts s : r_stream (ds_reader s) = dname :: ts -> type_is dname CPP_EOF = false ->
  (start_directive ;;d readD _cpp_lex_token) s = Some (dname, started dname ts s).
Proof.
  intros Hs He. unfold bindD, start_directive, modD, readD, bindD, _cpp_lex_token, cpp_get_token. cbn. rewrite Hs, He. cbn.
  by rewrite add_no_diags.
Qed.

Definition ended (s : dstate) : dstate :=
  set_lexer (set_header_state false (ls_directive_wants_padding (ds_lexer s)) (set_in_directive false (ds_lexer s)))
    (set_reader (run skip_rest_of_line (ds_reader s)) s).

Lemma end_eq s : ls_in_deferred_pragma (ds_lexer s) = false -> end_directive true s = Some (tt, ended s).
Proof.
  intros H. unfold end_directive, bindD, getD. rewrite H. cbn [negb andb whenD]. unfold readD, ended, run.
  unfold skip_rest_of_line, bindR, gets. destruct (SEEN_EOL (ds_reader s)); cbn; by rewrite add_no_diags.
Qed.

Lemma skip_shape r st lx valid : exists st' lx',
  run skip_rest_of_line (set_mi (r_mi_cmacro r) valid (set_tokens st lx r)) = set_mi (r_mi_cmacro r) valid (set_tokens st' lx' r).
Proof. unfold run, skip_rest_of_line, bindR, gets. destruct (SEEN_EOL _); [by exists st, lx|]. by do 2 eexists. Qed.

Lemma handle_skipped indented s dname ts : ordinary_line s -> preprocessed do_ = false -> cpp_warn_traditional o = false ->
  r_skipping (ds_reader s) = true -> r_stream (ds_reader s) = dname :: ts -> type_is dname CPP_EOF = false ->
  let s1 := started dname ts s in
  match named_conditional dname with
  | Some d => exists dir, dir_flag dir INCL = false /\
      handle indented s = (do_conditional e d ;;d end_directive true ;;d mret true) (chosen dir (opens d && r_mi_valid (ds_reader s)) s1)
  | None => exists s2, handle indented s = Some (true, ended s2) /\ (s2 = s1 \/ exists dir, s2 = chosen dir false s1)
  end.
Proof.
  intros Ho Hp Ht Hsk Hs He s1. rewrite handle_eq by done.
  pose proof (started_eq dname ts s Hs He) as E. unfold bindD in E |- *.
  destruct (start_directive s) as [[[] s0]|]; [|done]. rewrite E.
  pose proof (classify_skipped dname indented s1 Hp Ht Hsk) as Hc. fold s1. destruct (named_conditional dname) as [d|].
  - destruct Hc as (dir & Hd & Hi & Hc). exists dir. split; [done|]. rewrite Hc. cbn [fst snd]. rewrite Hd. done.
  - destruct Hc as (s2 & Hc & Hs2). exists s2. split; [|done]. rewrite Hc. cbn [fst snd negb whenD mret D_ret].
    rewrite end_eq; [done|]. destruct Ho as (_ & _ & Hd). by destruct Hs2 as [->|[dir ->]].
Qed.
End Dispatch.

(** ** Results *)

(** C13: In a skipped group only the conditionals count. Whatever the line
    behind # is, a definition, an #include, a #pragma, a linemarker or an unknown
    name, unless it is a conditional it only ends the line, and perhaps gives up
    the control macro of the file: nothing is defined, read, registered or pushed,
    no location is used up, no client is called and nothing is said (outside
    -Wtraditional).  A conditional is given to its handler, whose reader and
    diagnostics are all that changes. *)
Theorem skipped_group_inert (dos : bool) (o : cpp_options) (mo : macro_options) (do_ : directive_options) (tab : ucn_table)
  (csets_ : csets) (os_open : list byte -> open_result) (os_read os_realpath : list byte -> option (list byte))
  (canonical_system_headers : bool) (dopts : dep_options) (client : nat -> D unit) (has_def_pragma : bool) (e : env)
  (last_line indented : bool) s dname ts :
  c_lang_index (lang o) =? c_lang_index CLK_ASM = false -> preprocessed do_ = false -> cpp_warn_traditional o = false ->
  ordinary_line s -> r_skipping (ds_reader s) = true ->
  r_stream (ds_reader s) = dname :: ts -> type_is dname CPP_EOF = false ->
  let result := _cpp_handle_directive dos o mo do_ tab csets_ os_open os_read os_realpath canonical_system_headers dopts
                  client has_def_pragma e last_line indented s in
  match named_conditional dname with
  | None => exists s', result = Some (true, s') /\ untouched s s' /\ SEEN_EOL (ds_reader s') = true
  | Some d =>
      match handler e d (behind_name (opens d) dname ts (ds_reader s)) with
      | (said, (Some _, r)) =>
          result = Some (true, only_reader s (run skip_rest_of_line r) said)
      | (_, (None, _)) => result = None
      end
  end.
Proof.
  intros Hasm Hp Ht Ho Hsk Hs He result.
  pose proof (handle_skipped dos o mo do_ tab csets_ os_open os_read os_realpath canonical_system_headers dopts client
    has_def_pragma e last_line Hasm indented s dname ts Ho Hp Ht Hsk Hs He) as H. cbv zeta in H.
  destruct (named_conditional dname) as [d|].
  - destruct H as (dir & Hi & H). unfold result. rewrite H. clear H result. rewrite bindD_eq. unfold do_conditional.
    rewrite bindD_eq. set (s1 := chosen dir _ _).
    assert (readD (handler e d) s1 = let '(dg, (x, r)) := handler e d (behind_name (opens d) dname ts (ds_reader s)) in
      Some (x, add_diags dg (set_reader r s1))) as -> by done.
    destruct (handler e d (behind_name (opens d) dname ts (ds_reader s))) as [said [[[]|] r]]; [|reflexivity].
    cbn [ptrD mret D_ret]. rewrite bindD_eq, end_eq by (by destruct Ho as (_ & _ & Hd)).
    unfold s1, ended, chosen, started, only_reader. cbn. by rewrite Hi.
  - destruct H as (s2 & H & Hs2). exists (ended s2). split; [done|].
    assert (forall t, SEEN_EOL (ds_reader (ended t)) = true) as Hend.
    { intros t. unfold ended. cbn [set_lexer set_reader ds_reader]. unfold skip_rest_of_line, run, bindR, gets.
      destruct (SEEN_EOL (ds_reader t)) eqn:E; [exact E|done]. }
    split; [|apply Hend].
    assert (exists valid st lx padding, ended s2 = mk_dstate (set_mi (r_mi_cmacro (ds_reader s)) valid (set_tokens st lx (ds_reader s)))
      (set_header_state false padding (set_in_directive false (ds_lexer s))) (ds_macros s) (ds_maps s) (ds_files s) (ds_pragmas s)
      (ds_pushed s) ResultPadding (ds_seen_line_directive s) (ds_calls s) (ds_diags s) /\
      (valid = true -> r_mi_valid (ds_reader s) = true)) as (valid & st & lx & padding & E & Hv).
    { destruct Hs2 as [->|[dir ->]].
      - destruct (skip_shape (ds_reader s) ts (dname :: r_lexed (ds_reader s)) (r_mi_valid (ds_reader s))) as (st & lx & E).
        exists (r_mi_valid (ds_reader s)), st, lx, (ls_directive_wants_padding (ds_lexer s)). split; [|done]. rewrite <- E.
        unfold ended, started. by destruct s as [[]].
      - destruct (skip_shape (ds_reader s) ts (dname :: r_lexed (ds_reader s)) false) as (st & lx & E).
        exists false, st, lx, (dir_flag dir INCL). split; [|done]. rewrite <- E. unfold ended, started. by destruct s as [[]]. }
    rewrite E. split_and!; [|by eexists|done]. by exists valid, st, lx.
Qed.

(** #define X 1 in a skipped group, and #endif. *)
Definition ex_skipping (ts : list cpp_token) : dstate :=
  mk_dstate (set_skipping true (set_if_stack [mk_ifs None false false T_IF] (fresh_reader ts ∅)))
    (mk_lstate false false false 0 false false false false) ∅ (linemap_init 1) (new_files [] 0 false) [] [] ResultPadding false [] [].
Definition ex_word (s : string) : cpp_token := mk_token CPP_NAME 0 (bytes s) (bytes s) 0 false.
Definition ex_open (path : list byte) : open_result := OpenError 2.
Definition ex_handle (s : dstate) : option (bool * dstate) :=
  _cpp_handle_directive false gnuc17_options default_macro_options (mk_diropts false false) sample_table utf8_csets
    ex_open (fun _ => None) (fun _ => None) false (mk_depopts 0 false false false) (fun _ => mret tt) false sample_env false false s.

Definition ex_define : list cpp_token := [ex_word "define"; ex_word "X"; mk_token CPP_NUMBER 1 (bytes "1") [] 0 false].

Lemma skipped_group_inert_witness :
  match ex_handle (ex_skipping [ex_word "endif"]) with
  | Some (_, s) => r_skipping (ds_reader s) = false /\ r_if_stack (ds_reader s) = []
  | None => False
  end /\
  exists s', ex_handle (ex_skipping ex_define) = Some (true, s') /\ untouched (ex_skipping ex_define) s' /\
    SEEN_EOL (ds_reader s') = true.
Proof.
  split; [by vm_compute|].
  exact (skipped_group_inert false gnuc17_options default_macro_options (mk_diropts false false) sample_table utf8_csets
    ex_open (fun _ => None) (fun _ => None) false (mk_depopts 0 false false false) (fun _ => mret tt) false sample_env false false
    (ex_skipping ex_define) (ex_word "define") (tl ex_define) eq_refl eq_refl eq_refl (conj eq_refl (conj eq_refl eq_refl))
    eq_refl eq_refl eq_refl).
Defined.

(** In a preprocessed file, the line of a # that is indented, or of a directive
    without a callback, is given back with all its tokens. *)
Lemma preprocessed_line_left (dos : bool) (o : cpp_options) (mo : macro_options) (do_ : directive_options) (tab : ucn_table)
  (csets_ : csets) (os_open : list byte -> open_result) (os_read os_realpath : list byte -> option (list byte))
  (canonical_system_headers : bool) (dopts : dep_options) (client : nat -> D unit) (has_def_pragma : bool) (e : env)
  (last_line indented : bool) s dname ts dir :
  preprocessed do_ = true -> directives_only do_ = false -> ordinary_line s -> cpp_pedantic o = false ->
  r_stream (ds_reader s) = dname :: ts -> type_is dname CPP_NAME = true -> directive_named (t_text dname) = Some dir ->
  indented || negb (dir_flag dir IN_I) = true ->
  exists s', _cpp_handle_directive dos o mo do_ tab csets_ os_open os_read os_realpath canonical_system_headers dopts
               client has_def_pragma e last_line indented s = Some (false, s') /\ untouched s s' /\
    r_stream (ds_reader s') = dname :: ts.
Proof.
  intros Hp Hd Ho Hped Hs Hn Hdir Hi. rewrite handle_eq by done.
  assert (type_is dname CPP_EOF = false /\ type_is dname CPP_NUMBER = false) as [He Hnum]
    by (unfold type_is in *; by destruct (t_type dname)).
  pose proof (started_eq dname ts s Hs He) as E. unfold bindD in E |- *.
  destruct (start_directive s) as [[[] s0]|]; [|done]. rewrite E.
  unfold classify, bindD, getD. rewrite Hn, Hdir, Hnum. cbn [andb whenD mret D_ret]. unfold choose_directive, bindD.
  rewrite Hp, Hd, Hi. cbn [andb negb]. unfold end_directive, bindD, getD. cbn [fst snd].
  set (r := ds_reader s). set (valid := dir_flag dir IF_COND && r_mi_valid r).
  assert (whenD (negb (dir_flag dir IF_COND)) (readD (modify (fun r => set_mi (r_mi_cmacro r) false r))) (started dname ts s) =
    Some (tt, set_reader (set_mi (r_mi_cmacro r) valid (set_tokens ts (dname :: r_lexed r) r)) (started dname ts s))) as ->.
  { unfold valid, r. destruct (dir_flag dir IF_COND); cbn [negb whenD mret D_ret andb]; [by destruct s as [[]]|].
    unfold readD, modify. by rewrite add_no_diags. }
  cbn [mret D_ret negb whenD]. unfold readD, _cpp_backup_token, modify. cbn [set_reader ds_reader set_mi set_tokens r_lexed fst snd].
  cbn [negb whenD]. rewrite add_no_diags, andb_false_r. cbn [whenD mret D_ret modD].
  eexists. split; [reflexivity|]. split; [|done]. split_and!.
  - exists valid, (dname :: ts), (r_lexed r). split; [done|]. unfold valid. destruct (dir_flag dir IF_COND); [done|discriminate].
  - by eexists.
  - by destruct s as [[]].
Qed.
